(* ===== verification/_CoqProject ===== *)
-Q . S2P
Prelude.v
GoModel.v
Strconv.v
NetIP.v
AccessRules.v
ClientAddress.v
Redis.v
AuthTypes.v
ModelNames.v
GroupModels.v
Thinking.v
Registry.v
Weighted.v
Availability.v
Limiter.v
Aggregate.v
QuotaPersist.v
ClaudeHealth.v
Cooldown.v
Conductor.v
RegistryQueries.v
RegistryLock.v
QuotaReconcile.v
Selectors.v
SessionSticky.v
ModelAlias.v
RoutingGroups.v
RoutingConfig.v
RoutingStore.v
ChannelRename.v
Routing.v
Execution.v
ExecutionTrace.v
Program.v
StreamCompletion.v
StreamResult.v
SharedState.v
Leases.v
LeaseKeeper.v
LeaseCluster.v
ThrottlePolicy.v
AccessPolicy.v
AccessStore.v
FailureLog.v
Throttle.v
ThrottleTable.v
AutoBan.v
ThrottleShared.v
AutoBanShared.v
Access.v
ThrottleCluster.v
ThrottleTrace.v
LoginFlow.v
