(* ===== verification/Prelude.v ===== *)
(** * CliRelay: routing, scheduling, limits, admission and shared state, verified

    CliRelay is a Go proxy in front of language-model providers. It keeps a pool of
    credentials ([Auth]) and, for every request, picks one that can serve the model,
    sends the request through the executor of its provider, and learns from the result
    which credential to leave alone and for how long. Several nodes can serve one pool;
    they share what must be global in a Redis. This development models that core: the
    selection of credentials, the state machine of cooldowns and quotas, the concurrency
    limits, the routing of a request and its execution with failover, the registry of
    models, the routing configuration, the thinking configuration of a request, and the
    shared state of a cluster; and what stands in front of it: who is admitted by address,
    automatic bans, and logins with their throttle.

    ** Parts of the program and where they are

    Paths are under [src/]; [auth/] stands for [sdk/cliproxy/auth/].

    - [GoModel]: what the source uses of Go: integers of 64 bits, durations and times
      in nanoseconds, binary64 ([SpecFloat]), byte strings and the functions of package
      [strings] on ASCII, dynamic values ([GoAny]), the order in which a map is ranged
      over (class [RangeOrder]). [Strconv], [NetIP]: integers, addresses and networks as
      text ([strconv], [net]).
    - [AuthTypes] ([auth/types.go], [status.go], [errors.go], [selector_weight.go],
      [antigravity_quota_family.go]): the records of credentials, model states and
      results. [ModelNames]: canonical model keys and suffixes.
    - [Thinking] ([internal/thinking/]): parsing, converting, validating and applying the
      thinking budget or level of a request. Bodies are a class ([GJSON]) with one law.
    - [Weighted], [Availability], [Selectors], [SessionSticky] ([auth/selector*.go],
      [account_load.go], [scheduling_metadata.go]): the candidates for a request and the
      choice between them. Every way of choosing is an instance of the class [Selector];
      [SelectorOK] is what the conductor relies on: a pick is one of the candidates, and
      a failure says that there are none. [SessionSticky] is written against [Selector]
      and [AffinityStore], the table of bindings that processes share.
    - [GroupModels] ([sdk/routing/group_models.go]), [RoutingGroups] ([auth/routing_groups*.go]):
      wildcards of model lists, what the metadata of a request says of its scope, the
      groups of a credential and the gates they put on models. [ModelAlias]
      ([auth/oauth_model_alias.go], [conductor_api_key_alias.go],
      [conductor_runtime_config.go]): the names a model goes by.
    - [Routing] ([auth/conductor_selector_service.go], [selection_diagnostics.go]): the
      candidates of a request on the manager, the choice among the groups it may try, and
      the diagnosis when there is none.
    - [Execution], [ExecutionTrace], [Program] ([auth/conductor_execution_service.go]): one
      attempt to serve a request, against the class [Host] of what it calls; its trace,
      read by an automaton of the protocol; and its composition with [Routing].
      [StreamCompletion] ([responses_stream_completion.go]), [StreamResult]
      ([wrapStreamResult]): the end of a stream and the goroutine that forwards it.
    - [Registry], [RegistryQueries], [RegistryLock] ([internal/registry/model_registry*.go]):
      the reference counts of models and clients, the queries on them, and the use of the
      mutex as a step relation over goroutines.
    - [RoutingConfig] ([internal/config/routing_*.go], [sdk/routing/scope.go]),
      [RoutingStore] ([internal/storage/sqlstore/routing/]), [ChannelRename]
      ([handlers/management/channel_rename.go]): sanitizing, saving and changing the
      routing section.
    - [Limiter] ([auth/account_concurrency*.go]): slots on accounts and the queues of
      requests waiting for one, as a step relation over any number of requests.
    - [Cooldown], [Aggregate], [ClaudeHealth], [Conductor], [QuotaPersist],
      [QuotaReconcile] ([auth/conductor_*.go], [request_moderator.go],
      [claude_oauth_health.go], [quota_persistence.go], [quota_reconcile.go]): what a
      result does to a credential, the summary over its models, the notices of peers,
      retries, and the way quota state is saved, restored and probed.
    - [Redis], [SharedState], [Leases], [LeaseKeeper], [LeaseCluster]
      ([internal/cluster/sharedstate/], [internal/cluster/clusterruntime/]): the Lua
      scripts as functions on a database, and the goroutine that keeps the leases of a
      node as a transition system of a whole cluster.
    - [ClientAddress] ([internal/ipaccess/forwarded.go], [trust.go],
      [internal/util/client_ip.go]): the address of a client behind proxies. [AccessRules]
      ([rule.go], [matcher.go], [protected.go]), [AccessPolicy] ([policy.go]), [AccessStore]
      ([store.go]), [Access] ([registry.go], [autoban.go], [alert.go],
      [internal/api/ip_access_middleware.go]): rules on addresses, the table they are stored
      in, the snapshot requests are matched against, the engine of automatic bans and its
      alerts. [AutoBan], [AutoBanShared] ([autoban.go], [sharedstate/autoban.go]): the
      failures of a source, counted on a node and in the cluster.
    - [ThrottlePolicy], [Throttle], [ThrottleTable] ([handlers/management/login_throttle*.go]),
      [ThrottleShared] ([sharedstate/throttle.go]), [ThrottleCluster]
      ([login_throttle_cluster.go]): buckets of failed logins on a node and in the cluster.
      [FailureLog] is what a bucket promises, [ThrottleTrace] any sequence of calls on one.
      [LoginFlow] ([identity_auth_login.go], [portal_auth.go], [internal/identity/],
      [internal/enduser/]): the logins that the throttle guards.

    Calls between the parts follow the source: a selector asks [Availability] for the
    candidates, [Limiter] for loads; [Conductor] applies [Cooldown] to a result and
    [Aggregate] to its model states; [SharedState] implements the interface that
    [SessionSticky] uses, [Leases] the one that [LeaseKeeper] uses; [Routing] asks the
    registry what a credential serves and calls the [Selector] of the group; [Execution]
    calls whatever implements [Host], and [Program] is that class with picks made by
    [Routing]; [RoutingStore] sanitizes with [RoutingConfig], whose snapshot is the
    configuration that [RoutingGroups] reads. [Access] resolves an address with
    [ClientAddress], matches it with [AccessRules], charges [AutoBan] and [AutoBanShared] and
    writes to [AccessStore]; [LoginFlow] asks and charges [ThrottleCluster], which asks
    [ThrottleTable] and [ThrottleShared].

    ** Conventions

    State is passed explicitly; an operation under a lock is one function, and where the
    source lets others run in between, the parts are separate steps of a relation or
    separate labels of a transition system. What others write to a database between two
    statements of one operation is an argument of it ([Others] of [AccessStore], the attempts
    of [RoutingStore]), in which [None] is a failing statement. Times are nanoseconds since the zero time; a
    call that reads the clock takes the time as an argument, twice where it reads it
    twice (a record of them in [Access]). Errors are values of sums and options. Maps of Go are [gmap]; a nil map is the
    empty one. Integers that the source can overflow are wrapped ([wrap64]), others are
    [Z] within the ranges the theorems state.

    Recursion is structural but for two loops. The retry loop of [Conductor] takes its
    answers from a stream and is proved to end. The loops of [Execution] run on fuel:
    every round tries one more credential, and [ExecutionTrace.attempt_terminates] shows
    that one round more than there are credentials gives the result. The tracker of
    [StreamCompletion] drains a buffer with its length as fuel, each block shortening it.

    ** What the theorems show

    Theorems of the manifest are marked with a claim number. They fall into groups:
    the limiter and the cluster keep their limits and lose no slot, on every
    interleaving; selectors pick what their documentation says, and never a credential
    that is disabled or cooling; a result parks and resumes a model exactly as computed,
    order of map iteration and of notices notwithstanding; quota gates survive restarts
    and end as probes and operators say; thinking budgets stay within the limits of the
    model; bindings and identifiers are the same on every node of a cluster, also where
    processes race for one. A request only touches credentials that its tenant and
    restrictions admit and that serve its model, its attempt follows the protocol and ends,
    and a stream is settled once, at the end its bytes say. The counts of the registry are
    exact, and calls that lock it once never deadlock. A sanitized routing section is well
    formed, and concurrent updates of the stored one are not lost.

    Admission is decided exactly by the rules in force, found by longest prefix; headers a
    client forges do not change its address behind proxies that control them; a rule is
    stored under one name for each network; a ban takes effect and stays until it ends, one
    node of a cluster acts on it, and rules of operators are never touched. The buckets of
    the throttle on a node and in the cluster are one log of failures and take the same
    decisions, within bounded memory; the guesses at an account, and those that the nodes of
    a cluster compare together, are bounded when one request ends before the next.

    Flaws of the source that are theorems: [Limiter.giveUp_leaves_stale_entry],
    [LeaseCluster.release_before_track_leaks], [Routing.diagnosis_misses_prefixed_models],
    [RegistryQueries.quota_failure_counted_twice],
    [RegistryLock.first_available_model_deadlocks], [RoutingStore.unlimited_sticky_lost],
    [RoutingStore.failed_reads_conflict], [ChannelRename.derived_rename_not_stored],
    [Thinking.uppercase_auto_escapes], [Thinking.auto_becomes_medium],
    [Throttle.overflowing_window_counts_nothing], [ThrottleTable.eviction_sheds_block],
    [LoginFlow.parallel_guesses], [LoginFlow.portal_lock_not_charged],
    [ClientAddress.forwarded_header_forges], [ClientAddress.real_ip_forges],
    [ClientAddress.relayed_local_operator], [AccessRules.mapped_prefix_too_broad],
    [AccessPolicy.long_ban_lapsed], [Access.lapsed_rule_enforced] and
    [AutoBan.tracked_sources_grow].

    ** Parameters

    Code outside the repository is a class with the documented laws the proofs need, and
    an instance that shows the laws can hold: [GJSON] (gjson and sjson), [GoJSON]
    (encoding/json and fmt.Sprint), [Keyspace] (Redis), [MathExp2] (math.Exp2),
    [RangeOrder] (map iteration), [Digest] and [AffinityRef] (hashes), [SortSlice]
    (sort.Slice), [PayloadJSON] and [RoutingJSON] (encoding/json on one type), [RouteURL]
    (url.Parse, Unicode letters), [FloatText] (strconv), [Bcrypt] (the comparison of
    passwords), [ModelDiscovery] (the live model lists of providers). [Host] and [PicksByManager] are what an attempt calls.

    ** Not modelled

    Executors, translators and HTTP (input and output, or JSON rewriting over
    third-party packages); storage (generated code and SQL) but for the routing row and the
    table of access rules; logging; the management interface but for the routing section,
    the logins and the throttle; the terminal interface, other configuration and the watcher.
    Of admission, the loops that refresh and purge, the delivery of alerts, the counters of
    hits in the database and the lists for the panel. Of logins, tokens and sessions but for
    whether issuing them fails. Unicode case folding and white space are modelled on ASCII;
    a message of an error matters only as far as the code looks at it. Hooks that only
    report are left out. A Redis call that the client has given up on does not run later.

    Left for later: the windows of request quotas ([internal/api/middleware/quota*.go],
    [sharedstate/quota.go]), and registering and updating credentials
    ([conductor_registry.go]). *)
From Stdlib Require Export ZArith Lia.
From stdpp Require Export base list gmap strings sorting.

(** ** Notations

    Boolean connectives are written [&&] and [||] as in the Go source; integers
    and times are [Z]. *)
Declare Scope go_scope.
Delimit Scope go_scope with go.
Notation "a '&&' b" := (andb a b) : go_scope.
Notation "a '||' b" := (orb a b) : go_scope.
Notation "'!' b" := (negb b) (at level 35, right associativity) : go_scope.
Open Scope Z_scope.
Open Scope go_scope.

(** ** Tactics of the development *)

(** Case analysis on the scrutinee of the first [if]/[match] found in the goal
    or in a hypothesis, keeping the equation. *)
Ltac case_if :=
  match goal with
  | |- context [if ?b then _ else _] =>
      lazymatch b with
      | context [if _ then _ else _] => fail
      | _ => let E := fresh "E" in destruct b eqn:E
      end
  end.

Ltac case_if_in H :=
  match type of H with
  | context [if ?b then _ else _] =>
      lazymatch b with
      | context [if _ then _ else _] => fail
      | _ => let E := fresh "E" in destruct b eqn:E
      end
  end.

(** Turns boolean hypotheses over [Z] comparisons into propositions. *)
Ltac zbool :=
  repeat match goal with
  | H : (_ && _)%bool = true |- _ => apply andb_true_iff in H; destruct H
  | H : (_ || _)%bool = false |- _ => apply orb_false_iff in H; destruct H
  | H : negb _ = true |- _ => apply negb_true_iff in H
  | H : negb _ = false |- _ => apply negb_false_iff in H
  | H : (_ <? _) = true |- _ => apply Z.ltb_lt in H
  | H : (_ <? _) = false |- _ => apply Z.ltb_ge in H
  | H : (_ <=? _) = true |- _ => apply Z.leb_le in H
  | H : (_ <=? _) = false |- _ => apply Z.leb_gt in H
  | H : (_ =? _) = true |- _ => apply Z.eqb_eq in H
  | H : (_ =? _) = false |- _ => apply Z.eqb_neq in H
  end.

(** Closes a decidable goal by evaluating its decision procedure. *)
Ltac by_decision := apply (bool_decide_unpack _); vm_compute; exact I.

Create HintDb clirelay discriminated.

(** ** Generic lemmas on lists *)

Section insertion_sort.
Context {A : Type} (less : A → A → bool).

(** [insert_by less x l] puts [x] in front of the first element that is not
    strictly below it, so that equal elements keep their order. *)
Fixpoint insert_by (x : A) (l : list A) : list A :=
  match l with
  | [] => [x]
  | y :: ys => if less y x then y :: insert_by x ys else x :: y :: ys
  end.

Fixpoint sort_by (l : list A) : list A :=
  match l with
  | [] => []
  | x :: xs => insert_by x (sort_by xs)
  end.

Lemma insert_by_perm x l : insert_by x l ≡ₚ x :: l.
Proof.
  induction l as [|y ys IH]; simpl; [done|].
  destruct (less y x); [|done]. rewrite IH. apply Permutation_swap.
Qed.

Lemma sort_by_perm l : sort_by l ≡ₚ l.
Proof. induction l as [|x xs IH]; simpl; [done|]. by rewrite insert_by_perm, IH. Qed.

Lemma elem_of_sort_by x l : x ∈ sort_by l ↔ x ∈ l.
Proof. by rewrite sort_by_perm. Qed.

Lemma length_sort_by l : length (sort_by l) = length l.
Proof. by rewrite sort_by_perm. Qed.

Definition not_above (a b : A) : Prop := less b a = false.

Context (Htrans : ∀ a b c, less b a = false → less c b = false → less c a = false)
        (Hasym : ∀ a b, less a b = true → less b a = false).

Lemma insert_by_sorted x l :
  StronglySorted not_above l → StronglySorted not_above (insert_by x l).
Proof.
  induction 1 as [|y ys Hys IH Hall]; simpl; [by repeat constructor|].
  destruct (less y x) eqn:E.
  - constructor; [done|]. rewrite insert_by_perm. constructor; [|done].
    by apply Hasym.
  - constructor; [by constructor|]. constructor; [done|].
    eapply Forall_impl; [exact Hall|]. intros z Hz. red. eauto.
Qed.

Lemma sort_by_sorted l : StronglySorted not_above (sort_by l).
Proof.
  induction l as [|x xs IH]; simpl; [constructor|]. by apply insert_by_sorted.
Qed.

(** The sort is stable: where it does not decide, the order of the input [R] remains. *)
Definition stably (R : A → A → Prop) (a b : A) : Prop :=
  not_above a b ∧ (less a b = false → R a b).

Lemma insert_by_stable R x l :
  StronglySorted (stably R) l → (∀ y, y ∈ l → R x y) → StronglySorted (stably R) (insert_by x l).
Proof.
  induction 1 as [|y ys Hys IH Hall]; intros HR; simpl; [by repeat constructor|].
  destruct (less y x) eqn:E.
  - constructor; [apply IH; intros; apply HR; by right|]. rewrite insert_by_perm.
    constructor; [|done]. split; [by apply Hasym|congruence].
  - constructor; [by constructor|]. constructor; [split; [done|intros _; apply HR; left]|].
    apply Forall_forall. intros z Hz. split; [|intros _; apply HR; by right].
    apply (proj1 (Forall_forall _ _) Hall) in Hz as [Hz _]. unfold not_above in *. eauto.
Qed.

Lemma sort_by_stable R l : StronglySorted R l → StronglySorted (stably R) (sort_by l).
Proof.
  induction 1 as [|x xs Hxs IH Hall]; simpl; [constructor|].
  apply insert_by_stable; [done|]. intros y Hy. rewrite elem_of_sort_by in Hy.
  by apply (proj1 (Forall_forall _ _) Hall).
Qed.
End insertion_sort.

(** Sum of a [Z]-valued function over a list. *)
Definition zsum {A} (f : A → Z) (l : list A) : Z := foldr (λ x n, f x + n) 0 l.
Arguments zsum : simpl never.

Lemma zsum_cons {A} (f : A → Z) x l : zsum f (x :: l) = f x + zsum f l.
Proof. done. Qed.

Lemma zsum_app {A} (f : A → Z) l k : zsum f (l ++ k) = zsum f l + zsum f k.
Proof. induction l as [|x l IH]; simpl; [done|]. rewrite !zsum_cons, IH. lia. Qed.

Lemma zsum_perm {A} (f : A → Z) l k : l ≡ₚ k → zsum f l = zsum f k.
Proof. induction 1; rewrite ?zsum_cons; lia. Qed.

Lemma zsum_ext {A} (f g : A → Z) l : (∀ x, x ∈ l → f x = g x) → zsum f l = zsum g l.
Proof.
  induction l as [|x l IH]; intros H; [done|]. rewrite !zsum_cons, IH, (H x).
  - done.
  - left.
  - intros y Hy. apply H. by right.
Qed.

Lemma zsum_add {A} (f g : A → Z) l : zsum (λ x, f x + g x) l = zsum f l + zsum g l.
Proof. induction l as [|x l IH]; [done|]. rewrite !zsum_cons, IH. lia. Qed.

Lemma zsum_scale {A} (c : Z) (f : A → Z) l : zsum (λ x, c * f x) l = c * zsum f l.
Proof. induction l as [|x l IH]; [unfold zsum; simpl; lia|]. rewrite !zsum_cons, IH. lia. Qed.

Lemma zsum_nonneg {A} (f : A → Z) l : (∀ x, x ∈ l → 0 ≤ f x) → 0 ≤ zsum f l.
Proof.
  induction l as [|x l IH]; intros H; [done|]. rewrite zsum_cons.
  pose proof (H x (list_elem_of_here x l)). assert (0 ≤ zsum f l); [|lia].
  apply IH. intros y Hy. apply H. by right.
Qed.

Lemma zsum_le {A} (f g : A → Z) l : (∀ x, x ∈ l → f x ≤ g x) → zsum f l ≤ zsum g l.
Proof.
  induction l as [|x l IH]; intros H; [done|]. rewrite !zsum_cons.
  pose proof (H x (list_elem_of_here x l)). assert (zsum f l ≤ zsum g l); [|lia].
  apply IH. intros y Hy. apply H. by right.
Qed.

(** A pointwise inequality with equal sums is an equality. *)
Lemma zsum_le_eq {A} (f g : A → Z) l :
  (∀ x, x ∈ l → f x ≤ g x) → zsum f l = zsum g l → ∀ x, x ∈ l → f x = g x.
Proof.
  induction l as [|y l IH]; intros Hle Hs x Hx; [by apply elem_of_nil in Hx|].
  rewrite !zsum_cons in Hs.
  pose proof (Hle y (list_elem_of_here y l)).
  assert (Hl : zsum f l ≤ zsum g l) by (apply zsum_le; intros; apply Hle; by right).
  apply elem_of_cons in Hx as [->|Hx]; [lia|].
  apply IH; [intros; apply Hle; by right|lia|done].
Qed.

(** If the sum is positive, some element is. *)
Lemma zsum_pos_exists {A} (f : A → Z) l : 0 < zsum f l → ∃ x, x ∈ l ∧ 0 < f x.
Proof.
  induction l as [|y l IH]; [unfold zsum; simpl; lia|].
  rewrite zsum_cons. intros H. destruct (decide (0 < f y)) as [Hy|Hy].
  - exists y. split; [left|done].
  - destruct IH as (x & Hx & Hf); [lia|]. exists x. split; [by right|done].
Qed.

Lemma zsum_indicator {A} `{EqDecision A} (a : A) (l : list A) :
  NoDup l → a ∈ l → zsum (λ x, if decide (x = a) then 1 else 0) l = 1.
Proof.
  induction 1 as [|y l Hy Hnd IH]; intros Ha; [by apply elem_of_nil in Ha|].
  rewrite zsum_cons. destruct (decide (y = a)) as [->|Hne].
  - rewrite (zsum_ext _ (λ _, 0)).
    + clear. induction l as [|z l IH]; [done|]. rewrite zsum_cons in *. lia.
    + intros x Hx. by destruct (decide (x = a)) as [->|].
  - apply elem_of_cons in Ha as [->|Ha]; [done|]. rewrite IH by done. lia.
Qed.

(** A member of a sum of nonnegative terms is at most the sum. *)
Lemma zsum_elem_le {A} (f : A → Z) l x : (∀ y, y ∈ l → 0 ≤ f y) → x ∈ l → f x ≤ zsum f l.
Proof.
  induction l as [|y l IH]; intros H Hx; [by apply elem_of_nil in Hx|]. rewrite zsum_cons.
  assert (0 ≤ zsum f l) by (apply zsum_nonneg; intros; apply H; by right).
  pose proof (H y (list_elem_of_here y l)).
  apply elem_of_cons in Hx as [->|Hx]; [lia|].
  assert (f x ≤ zsum f l); [|lia]. apply IH; [|done]. intros; apply H; by right.
Qed.

Lemma list_nonempty_elem {A} (l : list A) : l ≠ [] → ∃ x, x ∈ l.
Proof. destruct l as [|x l]; [done|]. intros _. exists x. left. Qed.

Lemma zsum_const {A} (c : Z) (l : list A) : zsum (λ _, c) l = Z.of_nat (length l) * c.
Proof. induction l as [|x l IH]; [done|]. rewrite zsum_cons, IH. simpl length. lia. Qed.

Lemma zsum_zero {A} (f : A → Z) (l : list A) : (∀ x, x ∈ l → f x = 0) → zsum f l = 0.
Proof. intros H. rewrite (zsum_ext f (λ _, 0)) by done. rewrite zsum_const. lia. Qed.

Lemma zsum_fmap {A B} (g : A → B) (f : B → Z) (l : list A) :
  zsum f (g <$> l) = zsum (λ x, f (g x)) l.
Proof. induction l as [|x l IH]; [done|]. rewrite fmap_cons, !zsum_cons. by rewrite IH. Qed.

Lemma omap_cons_eq {A B} (f : A → option B) x (l : list A) :
  omap f (x :: l) = match f x with Some y => y :: omap f l | None => omap f l end.
Proof. done. Qed.

Lemma length_omap_le {A B} (f : A → option B) (l : list A) : (length (omap f l) ≤ length l)%nat.
Proof. induction l as [|x l IH]; [done|]. rewrite omap_cons_eq. destruct (f x); simpl length; lia. Qed.

(** If [omap] drops nothing, it is defined everywhere. *)
Lemma length_omap_all {A B} (f : A → option B) (l : list A) :
  length (omap f l) = length l → ∀ x, x ∈ l → is_Some (f x).
Proof.
  induction l as [|y l IH]; intros Hlen x Hx; [by apply elem_of_nil in Hx|].
  rewrite omap_cons_eq in Hlen. pose proof (length_omap_le f l).
  destruct (f y) eqn:E; simpl length in Hlen; [|lia].
  apply elem_of_cons in Hx as [->|Hx]; [by rewrite E|]. apply IH; [lia|done].
Qed.

Lemma omap_nil_all {A B} (f : A → option B) (l : list A) :
  omap f l = [] → ∀ x, x ∈ l → f x = None.
Proof.
  intros Hnil x Hx. destruct (f x) as [y|] eqn:E; [|done].
  assert (y ∈ omap f l) as Hy by (apply list_elem_of_omap; eauto).
  rewrite Hnil in Hy. by apply elem_of_nil in Hy.
Qed.

(** Replacing one element of a list changes a sum by the difference. *)
Lemma zsum_insert {A} (f : A → Z) (l : list A) i x y :
  l !! i = Some y → zsum f (<[i := x]> l) = zsum f l - f y + f x.
Proof.
  revert i. induction l as [|z l IH]; intros [|i] H; simpl in *; try done.
  - injection H as ->. rewrite !zsum_cons. lia.
  - rewrite !zsum_cons, (IH _ H). lia.
Qed.

Lemma zsum_snoc {A} (f : A → Z) (l : list A) x : zsum f (l ++ [x]) = zsum f l + f x.
Proof. rewrite zsum_app. unfold zsum at 2. simpl. lia. Qed.

Lemma zsum_lookup_le {A} (f : A → Z) (l : list A) i x :
  (∀ y, y ∈ l → 0 ≤ f y) → l !! i = Some x → f x ≤ zsum f l.
Proof. intros Hf Hi. apply zsum_elem_le; [done|]. apply list_elem_of_lookup. eauto. Qed.

(** A sorted list has its first element before all others. *)
Lemma StronglySorted_split {A} (R : A → A → Prop) l1 x l2 :
  StronglySorted R (l1 ++ x :: l2) → (∀ y, y ∈ l1 → R y x) ∧ (∀ y, y ∈ l2 → R x y).
Proof.
  induction l1 as [|z l1 IH]; simpl; intros H; inversion H as [|? ? Hs Hall]; subst.
  - split; [by intros y Hy%elem_of_nil|]. by apply Forall_forall.
  - destruct (IH Hs) as [H1 H2]. split; [|done]. intros y [->|Hy]%elem_of_cons; [|by apply H1].
    apply (proj1 (Forall_forall _ _) Hall). apply elem_of_app. right. left.
Qed.
