(* ===== verification/GoModel.v ===== *)
(** * The Go language and its standard library, as far as the modelled code uses them

    - [int] and [int64] are [Z] kept in range by [wrap64]; [time.Duration] is an
      [int64] number of nanoseconds.
    - [time.Time] is the number of nanoseconds since Go's zero time (January 1,
      year 1, UTC), so that [IsZero] is equality with 0 and the order of instants
      is the order of [Z]. Locations and monotonic readings are not modelled.
    - [string] is a byte string. Case mapping and trimming follow Go on ASCII;
      bytes above 127 are left unchanged (Go's Unicode tables are not modelled).
    - [float64] values are the IEEE 754 values of [SpecFloat] at precision 53.
    - The order of [for ... range m] over a map is unspecified in Go: it is the
      parameter [range_order] of the class [RangeOrder], a permutation of the
      map's entries that may differ from one loop ([site]) to the next. *)
From S2P Require Import Prelude.
From Stdlib Require Import SpecFloat Ascii.

(** ** Integers *)

Definition two63 : Z := 9223372036854775808.
Definition two64 : Z := 18446744073709551616.

(** Two's complement wrap-around of a 64-bit signed integer. *)
Definition wrap64 (z : Z) : Z := (z + two63) mod two64 - two63.

Definition in_int64 (z : Z) : Prop := - two63 ≤ z < two63.

Lemma wrap64_id z : in_int64 z → wrap64 z = z.
Proof.
  unfold in_int64, wrap64, two63, two64. intros H.
  rewrite Z.mod_small by lia. lia.
Qed.

Lemma wrap64_range z : in_int64 (wrap64 z).
Proof.
  unfold in_int64, wrap64, two63, two64.
  pose proof (Z.mod_pos_bound (z + 9223372036854775808) 18446744073709551616 ltac:(lia)). lia.
Qed.

(** Saturation used by [time.Time.Sub]. *)
Definition clamp64 (z : Z) : Z :=
  if z <? - two63 then - two63 else if two63 - 1 <? z then two63 - 1 else z.

Lemma clamp64_id z : in_int64 z → clamp64 z = z.
Proof.
  unfold in_int64, clamp64. intros H.
  destruct (Z.ltb_spec z (- two63)); [lia|].
  destruct (Z.ltb_spec (two63 - 1) z); lia.
Qed.

Lemma clamp64_spec z : clamp64 z = Z.max (- two63) (Z.min (two63 - 1) z).
Proof.
  unfold clamp64. destruct (Z.ltb_spec z (- two63)); [unfold two63 in *; lia|].
  destruct (Z.ltb_spec (two63 - 1) z); unfold two63 in *; lia.
Qed.

Lemma clamp64_range z : in_int64 (clamp64 z).
Proof.
  unfold in_int64, clamp64.
  destruct (Z.ltb_spec z (- two63)); [unfold two63; lia|].
  destruct (Z.ltb_spec (two63 - 1) z); unfold two63 in *; lia.
Qed.

(** ** Time *)

Abbreviation Time := Z (only parsing).
Abbreviation Duration := Z (only parsing).

Definition time_zero : Time := 0.
Definition IsZero (t : Time) : bool := t =? 0.
Definition After (t u : Time) : bool := u <? t.
Definition Before (t u : Time) : bool := t <? u.
Definition time_Equal (t u : Time) : bool := t =? u.
Definition time_Add (t : Time) (d : Duration) : Time := t + d.
Definition time_Sub (t u : Time) : Duration := clamp64 (t - u).

(** [time.Unix(sec, 0)]: the Unix epoch is 62135596800 s after the zero time. *)
Definition time_Unix (sec : Z) : Time := (sec + 62135596800) * 1000000000.

Definition Millisecond : Duration := 1000000.
Definition Second : Duration := 1000000000.
Definition Minute : Duration := 60000000000.
Definition Hour : Duration := 3600000000000.

#[export] Hint Unfold time_zero IsZero After Before time_Equal time_Add : clirelay.

(** ** Strings *)

Definition str_len (s : string) : nat := String.length s.

(** Go's [<] on strings: bytewise lexicographic order. *)
Definition str_lt (a b : string) : bool := String.ltb a b.

Definition is_space (c : ascii) : bool :=
  let n := nat_of_ascii c in
  ((n =? 32)%nat || ((9 <=? n)%nat && (n <=? 13)%nat)).

Fixpoint TrimLeft (f : ascii → bool) (s : string) : string :=
  match s with
  | EmptyString => EmptyString
  | String c s' => if f c then TrimLeft f s' else s
  end.

Fixpoint str_snoc (s : string) (c : ascii) : string :=
  match s with
  | EmptyString => String c EmptyString
  | String d s' => String d (str_snoc s' c)
  end.

Fixpoint str_rev (s : string) : string :=
  match s with
  | EmptyString => EmptyString
  | String c s' => str_snoc (str_rev s') c
  end.

Definition TrimFunc (f : ascii → bool) (s : string) : string :=
  str_rev (TrimLeft f (str_rev (TrimLeft f s))).

(** [strings.TrimSpace] *)
Definition TrimSpace (s : string) : string := TrimFunc is_space s.

(** [strings.Trim s cutset] for a one-byte cutset. *)
Definition TrimByte (c : ascii) (s : string) : string := TrimFunc (λ d, Ascii.eqb c d) s.

Definition lower_ascii (c : ascii) : ascii :=
  let n := nat_of_ascii c in
  if ((65 <=? n)%nat && (n <=? 90)%nat) then ascii_of_nat (n + 32) else c.

(** [strings.ToLower] *)
Fixpoint ToLower (s : string) : string :=
  match s with
  | EmptyString => EmptyString
  | String c s' => String (lower_ascii c) (ToLower s')
  end.

(** [strings.EqualFold] *)
Definition EqualFold (a b : string) : bool := String.eqb (ToLower a) (ToLower b).

Definition HasPrefix (s p : string) : bool := String.prefix p s.

Definition HasSuffix (s p : string) : bool :=
  ((String.length p <=? String.length s)%nat &&
   String.eqb (String.substring (String.length s - String.length p) (String.length p) s) p).

(** [s[n:]] and [s[:n]] *)
Definition str_from (n : nat) (s : string) : string := String.substring n (String.length s - n) s.
Definition str_to (n : nat) (s : string) : string := String.substring 0 n s.

(** [strings.TrimSuffix] and [strings.TrimPrefix] *)
Definition TrimSuffix (s suffix : string) : string :=
  if HasSuffix s suffix then str_to (String.length s - String.length suffix) s else s.
Definition TrimPrefix (s prefix : string) : string :=
  if HasPrefix s prefix then str_from (String.length prefix) s else s.

(** [strings.Contains s sub] *)
Fixpoint Contains (s sub : string) : bool :=
  (String.prefix sub s ||
   match s with
   | EmptyString => false
   | String _ s' => Contains s' sub
   end).

(** [strings.LastIndex s c] for a one-byte pattern; [None] is Go's -1. *)
Fixpoint LastIndexByte (s : string) (c : ascii) : option nat :=
  match s with
  | EmptyString => None
  | String d s' =>
      match LastIndexByte s' c with
      | Some i => Some (S i)
      | None => if Ascii.eqb c d then Some 0%nat else None
      end
  end.

(** [s[i:j]] *)
Definition slice (s : string) (i j : nat) : string := String.substring i (j - i) s.

(** [strings.Split s ","] for a one-byte separator. *)
Fixpoint SplitByte (c : ascii) (s : string) : list string :=
  match s with
  | EmptyString => [EmptyString]
  | String d s' =>
      if Ascii.eqb c d then EmptyString :: SplitByte c s'
      else match SplitByte c s' with
           | [] => [String d EmptyString]
           | x :: xs => String d x :: xs
           end
  end.

(** [strings.Join] *)
Fixpoint Join (l : list string) (sep : string) : string :=
  match l with
  | [] => EmptyString
  | [x] => x
  | x :: xs => x +:+ sep +:+ Join xs sep
  end.

Definition is_digit (c : ascii) : bool :=
  let n := nat_of_ascii c in ((48 <=? n)%nat && (n <=? 57)%nat).

Definition digit_val (c : ascii) : Z := Z.of_nat (nat_of_ascii c) - 48.

Fixpoint digits_val (acc : Z) (s : string) : option Z :=
  match s with
  | EmptyString => Some acc
  | String c s' => if is_digit c then digits_val (10 * acc + digit_val c) s' else None
  end.

Definition unsigned_val (s : string) : option Z :=
  match s with EmptyString => None | _ => digits_val 0 s end.

(** [strconv.Atoi] (and [strconv.ParseInt(s, 10, 64)]): an optional sign, at
    least one digit, nothing else, and a value in range. *)
Definition Atoi (s : string) : option Z :=
  let v :=
    match s with
    | String "-"%char s' => Z.opp <$> unsigned_val s'
    | String "+"%char s' => unsigned_val s'
    | _ => unsigned_val s
    end in
  match v with
  | Some z => if ((- two63 <=? z) && (z <? two63)) then Some z else None
  | None => None
  end.

(** [strconv.ParseBool] *)
Definition ParseBool (s : string) : option bool :=
  if existsb (String.eqb s) ["1"; "t"; "T"; "true"; "TRUE"; "True"] then Some true
  else if existsb (String.eqb s) ["0"; "f"; "F"; "false"; "FALSE"; "False"] then Some false
  else None.

(** ** Floating point *)

Abbreviation float64 := spec_float (only parsing).

Definition f64_lt (a b : float64) : bool := SFltb a b.
Definition f64_add (a b : float64) : float64 := SFadd 53 1024 a b.
Definition f64_sub (a b : float64) : float64 := SFsub 53 1024 a b.
Definition f64_mul (a b : float64) : float64 := SFmul 53 1024 a b.
Definition f64_div (a b : float64) : float64 := SFdiv 53 1024 a b.
Definition f64_zero : float64 := S754_zero false.

(** [float64(n)] for an integer [n], correctly rounded. *)
Definition f64_of_int (n : Z) : float64 := binary_normalize 53 1024 n 0 false.

(** [int(f)]: truncation towards zero. Go leaves values out of range (and NaN)
    to the implementation; this is the amd64 result. *)
Definition int_of_f64 (f : float64) : Z :=
  match f with
  | S754_zero _ => 0
  | S754_finite sg m e =>
      let a := if 0 <=? e then Z.pos m * 2 ^ e else Z.pos m / 2 ^ (- e) in
      let z := if sg then - a else a in
      if ((- two63 <=? z) && (z <? two63)) then z else - two63
  | _ => - two63
  end.

(** [a >= b]; false when one of them is NaN. *)
Definition f64_ge (a b : float64) : bool := SFleb b a.

Fixpoint split_at (p : ascii → bool) (s : string) : string * option string :=
  match s with
  | EmptyString => (EmptyString, None)
  | String c s' =>
      if p c then (EmptyString, Some s')
      else let '(a, b) := split_at p s' in (String c a, b)
  end.

(** Decimal digits, possibly none. *)
Definition digits_opt (s : string) : option Z := digits_val 0 s.

(** [strconv.ParseFloat(s, 64)] on decimal literals and on the names of infinity
    and NaN, correctly rounded; hexadecimal and underscored literals are not
    modelled, and a decimal exponent is limited to four digits. [None] is an error. *)
Definition ParseFloat (s : string) : option float64 :=
  let '(neg, body) := match s with
    | String "-"%char s' => (true, s') | String "+"%char s' => (false, s') | _ => (false, s) end in
  let low := ToLower body in
  if (String.eqb low "inf" || String.eqb low "infinity") then Some (S754_infinity neg)
  else if (String.eqb low "nan" && String.eqb body s) then Some S754_nan
  else
    let '(mant, ex) := split_at (λ c, (Ascii.eqb c "e" || Ascii.eqb c "E")) body in
    let '(ip, fp) := split_at (Ascii.eqb ".") mant in
    let frac := default EmptyString fp in
    let exponent := match ex with
      | None => Some 0
      | Some e => if (str_len e <=? 5)%nat then Atoi e else None end in
    if ((str_len ip =? 0)%nat && (str_len frac =? 0)%nat) then None
    else match digits_opt (ip +:+ frac), exponent with
         | Some m, Some e =>
             let k := e - Z.of_nat (str_len frac) in
             let m := if neg then - m else m in
             let f := if 0 <=? k then f64_of_int (m * 10 ^ k)
                      else if m =? 0 then S754_zero neg
                      else f64_div (S754_finite (m <? 0) (Z.to_pos (Z.abs m)) 0)
                                   (S754_finite false (Z.to_pos (10 ^ (- k))) 0) in
             match f with S754_infinity _ | S754_nan => None | _ => Some f end
         | _, _ => None
         end.

Definition f64_nonzero (f : float64) : bool :=
  match f with S754_zero _ => false | _ => true end.

(** ** Dynamic values

    The values of a [map[string]any] that the modelled code inspects by type
    switch. [AList] is a [[]any];
    [AMap] is a [map[string]any] or a [map[string]string]; [ATime t] is the
    string [t.UTC().Format(time.RFC3339Nano)]; [AOther] is any other dynamic type. *)
Inductive GoAny :=
| ANil
| ABool (b : bool)
| AString (s : string)
| AInt (z : Z)
| AInt32 (z : Z)
| AInt64 (z : Z)
| AFloat (f : float64)
| ANumber (s : string)
| ABytes (s : string)
| AStrings (l : list string)
| AList (l : list GoAny)
| AMap (m : gmap string GoAny)
| ATime (t : Z)
| AOther (tag : string).

Abbreviation Meta := (gmap string GoAny) (only parsing).
Abbreviation Attrs := (gmap string string) (only parsing).

(** [m[k]] on a map of strings: the zero value when absent. *)
Definition attr (m : gmap string string) (k : string) : string := default EmptyString (m !! k).

(** [http.Header]: a map from canonical names to the values sent under them. *)
Abbreviation Header := (gmap string (list string)) (only parsing).

Definition upper_ascii (c : ascii) : ascii :=
  let n := nat_of_ascii c in
  if ((97 <=? n)%nat && (n <=? 122)%nat) then ascii_of_nat (n - 32) else c.

(** [CanonicalMIMEHeaderKey] on a valid header name. *)
Fixpoint canonical_from (up : bool) (s : string) : string :=
  match s with
  | EmptyString => EmptyString
  | String c s' =>
      String (if up then upper_ascii c else lower_ascii c) (canonical_from (Ascii.eqb c "-") s')
  end.

(** [h.Get(key)] *)
Definition header_Get (h : gmap string (list string)) (key : string) : string :=
  match h !! canonical_from true key with Some (v :: _) => v | _ => EmptyString end.

(** ** Iteration over maps *)

Class RangeOrder := {
  range_order : ∀ {V : Type}, nat → gmap string V → list (string * V);
  range_order_perm : ∀ {V : Type} (site : nat) (m : gmap string V),
    range_order site m ≡ₚ map_to_list m
}.

(** One admissible order, used where a concrete run is computed. *)
Definition listing_order : RangeOrder :=
  {| range_order := λ V _ m, map_to_list m; range_order_perm := λ V _ m, reflexivity _ |}.

Section range.
Context {RO : RangeOrder} {V : Type}.
Implicit Types m : gmap string V.

Lemma elem_of_range site m k v : (k, v) ∈ range_order site m ↔ m !! k = Some v.
Proof. rewrite range_order_perm. apply elem_of_map_to_list. Qed.

Lemma NoDup_range_keys site m : NoDup (range_order site m).*1.
Proof. rewrite range_order_perm. apply NoDup_fst_map_to_list. Qed.

Lemma range_empty site : range_order site (∅ : gmap string V) = [].
Proof. apply Permutation_nil_r. by rewrite range_order_perm, map_to_list_empty. Qed.

Lemma length_range site m : length (range_order site m) = size m.
Proof. by rewrite range_order_perm, length_map_to_list. Qed.

(** A test over the entries of a map does not depend on the order. *)
Lemma existsb_range (f : string * V → bool) site m :
  existsb f (range_order site m) = true ↔ ∃ k v, m !! k = Some v ∧ f (k, v) = true.
Proof.
  rewrite existsb_exists. split.
  - intros ([k v] & Hin & Hf). exists k, v. split; [|done].
    by apply (elem_of_range site), list_elem_of_In.
  - intros (k & v & Hm & Hf). exists (k, v). split; [|done].
    by apply list_elem_of_In, elem_of_range.
Qed.

Lemma forallb_range (f : string * V → bool) site m :
  forallb f (range_order site m) = true ↔ ∀ k v, m !! k = Some v → f (k, v) = true.
Proof.
  rewrite forallb_forall. split.
  - intros H k v Hm. apply H. by apply list_elem_of_In, elem_of_range.
  - intros H [k v] Hin. apply H. by apply (elem_of_range site), list_elem_of_In.
Qed.
End range.

(** ** Facts about strings *)

Lemma str_compare_refl a : String.compare a a = Eq.
Proof.
  pose proof (String.compare_antisym a a) as H.
  destruct (String.compare a a); [done|discriminate..].
Qed.

Lemma str_lt_irrefl a : str_lt a a = false.
Proof. unfold str_lt, String.ltb. by rewrite str_compare_refl. Qed.

Lemma str_lt_asym a b : str_lt a b = true → str_lt b a = false.
Proof.
  unfold str_lt, String.ltb. rewrite (String.compare_antisym b a).
  by destruct (String.compare a b).
Qed.

Lemma ascii_compare_lt_trans a b c :
  Ascii.compare a b = Lt → Ascii.compare b c = Lt → Ascii.compare a c = Lt.
Proof. unfold Ascii.compare. rewrite !N.compare_lt_iff. lia. Qed.

Lemma str_compare_lt_trans a b c :
  String.compare a b = Lt → String.compare b c = Lt → String.compare a c = Lt.
Proof.
  revert b c. induction a as [|x a IH]; intros [|y b] [|z c]; simpl; try done.
  destruct (Ascii.compare x y) eqn:E1; [|intros _|done].
  - apply Ascii.compare_eq_iff in E1 as ->.
    destruct (Ascii.compare y z) eqn:E2; [|done..]. eauto.
  - destruct (Ascii.compare y z) eqn:E2; [|intros _|done].
    + apply Ascii.compare_eq_iff in E2 as ->. by rewrite E1.
    + by rewrite (ascii_compare_lt_trans _ _ _ E1 E2).
Qed.

Lemma str_lt_trans a b c : str_lt a b = true → str_lt b c = true → str_lt a c = true.
Proof.
  unfold str_lt, String.ltb. intros H1 H2.
  rewrite (str_compare_lt_trans a b c); [done|..];
    [by destruct (String.compare a b)|by destruct (String.compare b c)].
Qed.

Lemma str_lt_total a b : str_lt a b = false → str_lt b a = false → a = b.
Proof.
  unfold str_lt, String.ltb. rewrite (String.compare_antisym b a).
  destruct (String.compare a b) eqn:E; [|done..].
  intros _ _. by apply String.compare_eq_iff.
Qed.

(** Transitivity of "not above", the order a sort by [<] establishes. *)
Lemma str_nlt_trans a b c : str_lt b a = false → str_lt c b = false → str_lt c a = false.
Proof.
  intros H1 H2. destruct (str_lt c a) eqn:E; [|done].
  destruct (str_lt a b) eqn:E1.
  - by rewrite (str_lt_trans c a b) in H2.
  - rewrite (str_lt_total a b E1 H1) in E. congruence.
Qed.

Lemma str_app_length a b : String.length (a +:+ b) = (String.length a + String.length b)%nat.
Proof. induction a as [|c a IH]; [done|]. exact (f_equal S IH). Qed.

Lemma str_app_assoc a b c : (a +:+ b) +:+ c = a +:+ (b +:+ c).
Proof. induction a as [|x a IH]; [done|]. exact (f_equal (String x) IH). Qed.

Lemma str_app_nil_r a : a +:+ "" = a.
Proof. induction a as [|c a IH]; [done|]. by change (String c (a +:+ "") = String c a); rewrite IH. Qed.

Lemma str_app_inv_l a x y : a +:+ x = a +:+ y → x = y.
Proof. induction a as [|c a IH]; [done|]. intros [= H]. by apply IH. Qed.

Lemma str_app_cons c a b : String c a +:+ b = String c (a +:+ b).
Proof. done. Qed.

Lemma str_app_nil_l a : EmptyString +:+ a = a.
Proof. done. Qed.

Create HintDb go_str.
#[export] Hint Rewrite str_app_assoc str_app_nil_r str_app_cons str_app_nil_l : go_str.

Lemma substring_app_r a b n :
  String.substring (String.length a) n (a +:+ b) = String.substring 0 n b.
Proof. by induction a as [|c a IH]. Qed.

Lemma substring_full a : String.substring 0 (String.length a) a = a.
Proof. induction a as [|c a IH]; simpl; [done|]. by rewrite IH. Qed.

Lemma substring_prefix a b : String.substring 0 (String.length a) (a +:+ b) = a.
Proof.
  induction a as [|c a IH]; simpl; [by destruct b|]. change (String.append a b) with (a +:+ b).
  by rewrite IH.
Qed.

Lemma HasSuffix_app a b : HasSuffix (a +:+ b) b = true.
Proof.
  unfold HasSuffix. rewrite str_app_length.
  replace (String.length a + String.length b - String.length b)%nat with (String.length a) by lia.
  rewrite substring_app_r, substring_full, String.eqb_refl, andb_true_r.
  apply Nat.leb_le. lia.
Qed.

(** Two one-byte suffixes of the same string coincide. *)
Lemma HasSuffix_byte_other a c d :
  c ≠ d → HasSuffix (a +:+ String c EmptyString) (String d EmptyString) = false.
Proof.
  intros Hne. unfold HasSuffix. rewrite str_app_length. simpl String.length.
  replace (String.length a + 1 - 1)%nat with (String.length a) by lia.
  rewrite substring_app_r. apply andb_false_iff. right.
  apply String.eqb_neq. simpl. congruence.
Qed.

Lemma substring_suffix a b : String.substring (String.length a) (String.length b) (a +:+ b) = b.
Proof. by rewrite substring_app_r, substring_full. Qed.

Lemma str_from_app a b : str_from (String.length a) (a +:+ b) = b.
Proof.
  unfold str_from. rewrite str_app_length.
  replace (String.length a + String.length b - String.length a)%nat with (String.length b) by lia.
  apply substring_suffix.
Qed.

Lemma str_to_app a b : str_to (String.length a) (a +:+ b) = a.
Proof. apply substring_prefix. Qed.

Lemma HasPrefix_iff s p : HasPrefix s p = true ↔ ∃ r, s = p +:+ r.
Proof.
  unfold HasPrefix. revert s. induction p as [|c p IH]; intros s; simpl.
  - split; [|by destruct s]. intros _. by exists s.
  - destruct s as [|d s]; simpl; [split; [done|by intros [r [=]]]|].
    destruct (Ascii.ascii_dec c d) as [->|Hne].
    + rewrite IH. split; intros [r Hr]; exists r; [by rewrite Hr|by inversion Hr].
    + split; [done|]. intros [r Hr]. by inversion Hr.
Qed.

Lemma str_split n s : (n ≤ String.length s)%nat → s = str_to n s +:+ str_from n s.
Proof.
  unfold str_to, str_from. revert s. induction n as [|n IH]; intros s Hn.
  - rewrite Nat.sub_0_r, substring_full. by destruct s.
  - destruct s as [|c s]; simpl in *; [lia|]. change (String c s =
      String c (String.substring 0 n s +:+ String.substring n (String.length s - n) s)).
    f_equal. apply IH. lia.
Qed.

Lemma str_to_length n s : (n ≤ String.length s)%nat → String.length (str_to n s) = n.
Proof.
  unfold str_to. revert s. induction n as [|n IH]; intros s Hn; [by destruct s|].
  destruct s as [|c s]; simpl in *; [lia|]. f_equal. apply IH. lia.
Qed.

Lemma HasSuffix_iff s p : HasSuffix s p = true ↔ ∃ r, s = r +:+ p.
Proof.
  split; [|intros [r ->]; apply HasSuffix_app].
  unfold HasSuffix. rewrite andb_true_iff, Nat.leb_le, String.eqb_eq. intros [Hl He].
  exists (str_to (String.length s - String.length p) s).
  rewrite (str_split (String.length s - String.length p) s) at 1 by lia. f_equal.
  unfold str_from. replace (String.length s - (String.length s - String.length p))%nat
    with (String.length p) by lia. done.
Qed.

(** *** Trimming *)

Lemma str_snoc_app s c : str_snoc s c = s +:+ String c "".
Proof.
  induction s as [|d s IH]; [done|]. change (String d (str_snoc s c) = String d (s +:+ String c "")).
  by rewrite IH.
Qed.

Lemma str_rev_app a b : str_rev (a +:+ b) = str_rev b +:+ str_rev a.
Proof.
  induction a as [|c a IH]; [by rewrite str_app_nil_r|].
  change (String c a +:+ b) with (String c (a +:+ b)). simpl str_rev.
  by rewrite IH, !str_snoc_app, str_app_assoc.
Qed.

Lemma str_rev_rev s : str_rev (str_rev s) = s.
Proof. induction s as [|c s IH]; [done|]. simpl str_rev at 2. by rewrite str_snoc_app, str_rev_app, IH. Qed.

Lemma TrimLeft_split f s : ∃ p, s = p +:+ TrimLeft f s.
Proof.
  induction s as [|c s [p IH]]; simpl; [by exists ""|]. destruct (f c); [|by exists ""].
  exists (String c p). by rewrite IH at 1.
Qed.

Lemma TrimLeft_idem f s : TrimLeft f (TrimLeft f s) = TrimLeft f s.
Proof. induction s as [|c s IH]; simpl; [done|]. destruct (f c) eqn:E; [done|]. simpl. by rewrite E. Qed.

Lemma TrimLeft_prefix f a b : TrimLeft f (a +:+ b) = a +:+ b → TrimLeft f a = a.
Proof.
  destruct a as [|c a]; [done|]. change (String c a +:+ b) with (String c (a +:+ b)). simpl.
  destruct (f c); [|done]. intros H. destruct (TrimLeft_split f (a +:+ b)) as [p Hp].
  rewrite H in Hp. apply (f_equal String.length) in Hp. rewrite (str_app_length p) in Hp. simpl in Hp. lia.
Qed.

Lemma TrimFunc_idem f s : TrimFunc f (TrimFunc f s) = TrimFunc f s.
Proof.
  unfold TrimFunc. set (u := TrimLeft f s). destruct (TrimLeft_split f (str_rev u)) as [p Hp].
  set (v := TrimLeft f (str_rev u)) in *. assert (Hu : TrimLeft f u = u) by apply TrimLeft_idem.
  assert (Hv : u = str_rev v +:+ str_rev p) by (by rewrite <-str_rev_app, <-Hp, str_rev_rev).
  rewrite Hv in Hu. apply TrimLeft_prefix in Hu. rewrite Hu, str_rev_rev. f_equal. apply TrimLeft_idem.
Qed.

Lemma TrimSpace_idem s : TrimSpace (TrimSpace s) = TrimSpace s.
Proof. apply TrimFunc_idem. Qed.

Lemma SplitByte_cons c s : ∃ x xs, SplitByte c s = x :: xs.
Proof.
  destruct s as [|d s]; simpl; [by eauto|]. destruct (Ascii.eqb c d); [by eauto|].
  destruct (SplitByte c s); eauto.
Qed.

(** Every byte of a string. *)
Fixpoint all_chars (p : ascii → bool) (s : string) : bool :=
  match s with EmptyString => true | String c s => (p c && all_chars p s) end.

Section all_chars.
Variable p : ascii → bool.

Lemma all_chars_app a b : all_chars p (a +:+ b) = (all_chars p a && all_chars p b)%bool.
Proof.
  induction a as [|c a IH]; [done|]. change (String c a +:+ b) with (String c (a +:+ b)). simpl.
  by rewrite IH, andb_assoc.
Qed.

Lemma all_chars_Join l sep : all_chars p sep = true → Forall (λ f, all_chars p f = true) l →
  all_chars p (Join l sep) = true.
Proof.
  intros Hsep. induction l as [|x l IH]; [done|]. intros [Hx Hl]%Forall_cons. simpl.
  destruct l as [|y l]; [done|]. by rewrite !all_chars_app, Hx, Hsep, (IH Hl).
Qed.
Lemma all_chars_rev s : all_chars p (str_rev s) = all_chars p s.
Proof.
  induction s as [|c s IH]; [done|]. simpl. rewrite str_snoc_app, all_chars_app, IH. simpl.
  by rewrite andb_true_r, andb_comm.
Qed.

Lemma all_chars_TrimLeft f s : all_chars p s = true → all_chars p (TrimLeft f s) = true.
Proof.
  intros H. destruct (TrimLeft_split f s) as [q Hq]. rewrite Hq, all_chars_app in H.
  by apply andb_true_iff in H as [_ H].
Qed.

Lemma all_chars_TrimFunc f s : all_chars p s = true → all_chars p (TrimFunc f s) = true.
Proof. intros H. unfold TrimFunc. rewrite all_chars_rev. apply all_chars_TrimLeft.
  rewrite all_chars_rev. by apply all_chars_TrimLeft. Qed.

Lemma all_chars_TrimLeft_id s : all_chars (λ c, negb (p c)) s = true → TrimLeft p s = s.
Proof. destruct s as [|c s]; [done|]. simpl. intros [H _]%andb_true_iff. by destruct (p c). Qed.

End all_chars.

Lemma all_chars_impl (p q : ascii → bool) s : (∀ c, p c = true → q c = true) →
  all_chars p s = true → all_chars q s = true.
Proof.
  intros Hpq. induction s as [|c s IH]; [done|]. simpl. rewrite !andb_true_iff. intros [? ?].
  split; [by apply Hpq|by apply IH].
Qed.

Definition spaceless (s : string) : bool := all_chars (λ c, negb (is_space c)) s.
Lemma spaceless_TrimSpace s : spaceless s = true → TrimSpace s = s.
Proof.
  intros H. unfold TrimSpace, TrimFunc. rewrite (all_chars_TrimLeft_id is_space s H).
  rewrite all_chars_TrimLeft_id; [apply str_rev_rev|]. by rewrite all_chars_rev.
Qed.


(** ** The order of floats

    [f64_lt] compares keys lexicographically; NaN has no key. *)

Definition f64_key (f : float64) : option (Z * Z * Z) :=
  match f with
  | S754_nan => None
  | S754_infinity true => Some (-2, 0, 0)
  | S754_infinity false => Some (2, 0, 0)
  | S754_zero _ => Some (0, 0, 0)
  | S754_finite true m e => Some (-1, - e, Z.neg m)
  | S754_finite false m e => Some (1, e, Z.pos m)
  end.

Definition key_lt (x y : Z * Z * Z) : Prop :=
  let '(a, b, c) := x in let '(a', b', c') := y in
  a < a' ∨ a = a' ∧ (b < b' ∨ b = b' ∧ c < c').

Definition is_NaN (f : float64) : bool := match f with S754_nan => true | _ => false end.

Lemma f64_lt_key a b :
  f64_lt a b = true ↔ ∃ x y, f64_key a = Some x ∧ f64_key b = Some y ∧ key_lt x y.
Proof.
  assert (Hex : ∀ (oa ob : option (Z * Z * Z)) (P : Z * Z * Z → Z * Z * Z → Prop),
    (∃ x y, oa = Some x ∧ ob = Some y ∧ P x y) ↔
    match oa, ob with Some x, Some y => P x y | _, _ => False end).
  { intros [x|] [y|] P; split; try naive_solver. }
  rewrite Hex. clear Hex. unfold f64_lt, SFltb, SFcompare, key_lt.
  destruct a as [sa|sa| |sa ma ea], b as [sb|sb| |sb mb eb]; simpl; try (split; done);
    try (destruct sa; simpl; split; (done || lia)); try (destruct sb; simpl; split; (done || lia));
    try (destruct sa, sb; simpl; split; (done || lia)).
  destruct sa, sb; simpl; try (split; [done || lia|done || lia]);
    destruct (Z.compare_spec ea eb); simpl; try (split; [done || lia|done || lia]).
  - change (Pos.compare_cont Eq ma mb) with (Pos.compare ma mb).
    destruct (Pos.compare_spec ma mb); simpl; split; (done || lia).
  - change (Pos.compare_cont Eq ma mb) with (Pos.compare ma mb).
    destruct (Pos.compare_spec ma mb); simpl; split; (done || lia).
Qed.

Lemma f64_lt_irrefl a : f64_lt a a = false.
Proof.
  apply not_true_iff_false. rewrite f64_lt_key. intros ([[??]?] & y & H1 & H2 & H).
  rewrite H1 in H2. injection H2 as <-. simpl in H. lia.
Qed.

Lemma f64_lt_trans a b c : f64_lt a b = true → f64_lt b c = true → f64_lt a c = true.
Proof.
  rewrite !f64_lt_key. intros ([[??]?] & [[??]?] & H1 & H2 & H) (x & [[??]?] & H3 & H4 & H').
  rewrite H2 in H3. injection H3 as <-. eexists _, _. split; [done|]. split; [done|].
  simpl in *. lia.
Qed.

(** Between numbers "not below" is transitive. *)
Lemma f64_nlt_trans a b c :
  is_NaN b = false → f64_lt b a = false → f64_lt c b = false → f64_lt c a = false.
Proof.
  intros Hb H1 H2. apply not_true_iff_false. intros H3.
  apply f64_lt_key in H3 as ([[c1 c2] c3] & [[a1 a2] a3] & Hc & Ha & H3).
  destruct (f64_key b) as [[[b1 b2] b3]|] eqn:Eb; [|by destruct b as [|[]| |[]]].
  assert (¬ key_lt (b1, b2, b3) (a1, a2, a3)).
  { intros Hk. assert (f64_lt b a = true); [apply f64_lt_key; eauto 10|congruence]. }
  assert (¬ key_lt (c1, c2, c3) (b1, b2, b3)).
  { intros Hk. assert (f64_lt c b = true); [apply f64_lt_key; eauto 10|congruence]. }
  simpl in *. lia.
Qed.

(** ** Pieces of a text, and blank texts *)

Lemma SplitByte_without c s : all_chars (λ d, ! Ascii.eqb c d) s = true → SplitByte c s = [s].
Proof.
  induction s as [|d s IH]; [done|]. cbn [all_chars SplitByte]. intros [Hd Hs]%andb_true_iff. rewrite (IH Hs).
  by destruct (Ascii.eqb c d).
Qed.

Lemma SplitByte_app c a b : SplitByte c (a +:+ String c b) = SplitByte c a ++ SplitByte c b.
Proof.
  induction a as [|d a IH]; [cbn [SplitByte]; by rewrite str_app_nil_l; cbn [SplitByte]; rewrite Ascii.eqb_refl|].
  rewrite str_app_cons. cbn [SplitByte]. rewrite IH. destruct (Ascii.eqb c d); [done|].
  destruct (SplitByte_cons c a) as (x & xs & ->). done.
Qed.

Lemma TrimLeft_blank f s : TrimLeft f s = "" → all_chars f s = true.
Proof. induction s as [|c s IH]; [done|]. cbn [TrimLeft all_chars]. destruct (f c); [done|discriminate]. Qed.

Lemma TrimSpace_blank s : TrimSpace s = "" → all_chars is_space s = true.
Proof.
  unfold TrimSpace, TrimFunc. intros H. apply (f_equal str_rev) in H. rewrite str_rev_rev in H.
  apply TrimLeft_blank in H. rewrite all_chars_rev in H.
  destruct s as [|c s]; [done|]. cbn [TrimLeft] in H. destruct (is_space c) eqn:Ec; [|by cbn [all_chars] in H; rewrite Ec in H].
  apply TrimLeft_blank. cbn [TrimLeft]. rewrite Ec. remember (TrimLeft is_space s) as u eqn:Eu.
  destruct u as [|d u]; [done|]. assert (Hd : is_space d = false).
  { clear -Eu. induction s as [|c s IH]; [done|]. cbn [TrimLeft] in Eu. destruct (is_space c) eqn:E; [by apply IH|congruence]. }
  cbn [all_chars] in H. by rewrite Hd in H.
Qed.

Lemma blank_TrimSpace s : all_chars is_space s = true → TrimSpace s = "".
Proof.
  intros H. unfold TrimSpace, TrimFunc. assert (Hl : ∀ s, all_chars is_space s = true → TrimLeft is_space s = "").
  { clear. induction s as [|c s IH]; [done|]. cbn [all_chars TrimLeft]. intros [-> Hs]%andb_true_iff. by apply IH. }
  by rewrite (Hl s H).
Qed.

Lemma all_chars_SplitByte p c s : all_chars p s = true → Forall (λ x, all_chars p x = true) (SplitByte c s).
Proof.
  induction s as [|d s IH]; [by repeat constructor|]. cbn [all_chars SplitByte]. intros [Hd Hs]%andb_true_iff.
  destruct (Ascii.eqb c d); [by constructor; [|apply IH]|]. specialize (IH Hs). destruct (SplitByte c s) as [|x xs]; [by repeat constructor; cbn; rewrite Hd|].
  apply Forall_cons in IH as [Hx Hxs]. constructor; [|done]. cbn. by rewrite Hd.
Qed.

Lemma all_chars_TrimSuffix p s suffix : all_chars p s = true → all_chars p (TrimSuffix s suffix) = true.
Proof.
  intros H. unfold TrimSuffix. destruct (HasSuffix s suffix); [|done]. unfold str_to.
  generalize (String.length s - String.length suffix)%nat. intros n. revert n. induction s as [|c s IH]; intros [|n]; [done..|].
  cbn [String.substring all_chars] in *. apply andb_true_iff in H as [-> H]. by rewrite IH.
Qed.
