(* ===== verification/Strconv.v ===== *)
(** * Printing and reading integers

    [strconv.Itoa], and that [strconv.Atoi] ([GoModel]) reads back what it writes. *)
From stdpp Require Import pretty.
From S2P Require Import Prelude GoModel.
From Stdlib Require Import Ascii.

(** [strconv.Itoa] *)
Definition Itoa (z : Z) : string := pretty z.

(** [Atoi] reads back what [Itoa] writes. *)
Section decimal.
Local Open Scope N_scope.

Lemma digit_ok d : d < 10 → is_digit (pretty_N_char d) = true ∧ digit_val (pretty_N_char d) = Z.of_N d.
Proof.
  intros Hd. assert (Hin : d ∈ [0; 1; 2; 3; 4; 5; 6; 7; 8; 9]).
  { repeat (rewrite elem_of_cons). lia. }
  repeat (apply elem_of_cons in Hin as [->|Hin]; [done|]). by apply elem_of_nil in Hin.
Qed.

(** Reading the printed digits of [x] and then [s] from [acc], for some shift of [acc]. *)
Lemma pretty_N_go_val x s : ∃ k, (0 < k)%Z ∧ (0 < x → (1 < k)%Z) ∧
  ∀ acc, digits_val acc (pretty_N_go x s) = digits_val (acc * k + Z.of_N x)%Z s.
Proof.
  revert s. induction (N.lt_wf_0 x) as [x _ IH]; intros s.
  destruct (N.eq_dec x 0) as [->|Hx].
  { exists 1%Z. rewrite pretty_N_go_0. split; [lia|]. split; [lia|]. intros acc. f_equal. lia. }
  rewrite pretty_N_go_step by lia.
  destruct (IH (x / 10) ltac:(apply N.div_lt; lia) (String (pretty_N_char (x mod 10)) s)) as (k & Hk & _ & Hv).
  exists (k * 10)%Z. split; [lia|]. split; [lia|]. intros acc. rewrite Hv. cbn [digits_val].
  destruct (digit_ok (x mod 10)) as [-> ->]; [by apply N.mod_lt|]. f_equal.
  pose proof (N.div_mod x 10 ltac:(lia)). nia.
Qed.

Lemma pretty_N_go_digit x s : 0 < x → ∃ c r, pretty_N_go x s = String c r ∧ is_digit c = true.
Proof.
  revert s. induction (N.lt_wf_0 x) as [x _ IH]; intros s Hx. rewrite pretty_N_go_step by lia.
  destruct (N.eq_dec (x / 10) 0) as [E|E].
  - rewrite E, pretty_N_go_0. do 2 eexists. split; [done|]. apply digit_ok. by apply N.mod_lt.
  - apply IH; [apply N.div_lt; lia|by apply N.neq_0_lt_0].
Qed.

Lemma unsigned_val_pretty (x : N) : unsigned_val (pretty x) = Some (Z.of_N x).
Proof.
  unfold pretty, pretty_N. destruct (decide (x = 0)) as [->|Hx]; [done|].
  destruct (pretty_N_go_digit x "") as (c & r & E & _); [lia|].
  unfold unsigned_val. destruct (pretty_N_go_val x "") as (k & _ & _ & Hv). rewrite E in *.
  by rewrite Hv.
Qed.

Lemma pretty_N_head (x : N) : ∃ c r, pretty x = String c r ∧ is_digit c = true.
Proof.
  unfold pretty, pretty_N. destruct (decide (x = 0)) as [->|Hx]; [by do 2 eexists|].
  apply pretty_N_go_digit. lia.
Qed.

(** Every byte of a printed number is a digit. *)
Lemma pretty_N_last (x : N) : ∃ r c, pretty x = str_snoc r c ∧ is_digit c = true.
Proof.
  assert (H : ∀ y s, (∃ r c, s = str_snoc r c ∧ is_digit c = true) →
    ∃ r c, pretty_N_go y s = str_snoc r c ∧ is_digit c = true).
  { intros y. induction (N.lt_wf_0 y) as [y _ IH]; intros s Hs.
    destruct (N.eq_dec y 0) as [->|Hy]; [by rewrite pretty_N_go_0|].
    rewrite pretty_N_go_step by lia. apply IH; [apply N.div_lt; lia|].
    destruct Hs as (r & c & -> & Hc). by exists (String (pretty_N_char (y mod 10)) r), c. }
  unfold pretty, pretty_N. destruct (decide (x = 0)) as [->|Hx]; [by exists "", "0"%char|].
  rewrite pretty_N_go_step by lia. apply H. exists "", (pretty_N_char (x mod 10)). split; [done|].
  apply digit_ok. by apply N.mod_lt.
Qed.

End decimal.

Lemma Itoa_pos p : Itoa (Z.pos p) = pretty (N.pos p).
Proof. done. Qed.

Lemma Itoa_neg p : Itoa (Z.neg p) = String "-"%char (pretty (N.pos p)).
Proof. done. Qed.

Lemma Atoi_Itoa z : in_int64 z → Atoi (Itoa z) = Some z.
Proof.
  intros [Hlo Hhi]. assert (Hr : (- two63 <=? z) && (z <? two63) = true) by (apply andb_true_iff; lia).
  destruct z as [|p|p]; [done|rewrite Itoa_pos|rewrite Itoa_neg].
  - pose proof (unsigned_val_pretty (N.pos p)) as Hv.
    destruct (pretty_N_head (N.pos p)) as (c & r & E & Hc). rewrite E in *.
    unfold Atoi. assert (c ≠ "-"%char ∧ c ≠ "+"%char) as [H1 H2] by (split; intros ->; done).
    change (Z.of_N (N.pos p)) with (Z.pos p) in Hv.
    destruct c as [[] [] [] [] [] [] [] []]; try congruence; rewrite Hv; by rewrite Hr.
  - unfold Atoi. rewrite (unsigned_val_pretty (N.pos p)). cbn [fmap option_fmap option_map].
    change (- Z.of_N (N.pos p)) with (Z.neg p). by rewrite Hr.
Qed.
