(* ===== verification/NetIP.v ===== *)
(** * Addresses and networks

    What the source uses of the Go packages [net] and [net/netip]: addresses and CIDR
    blocks, their text, and membership. An address ([net.IP]) is its 16-byte form as an
    integer below 2{^128}, in which an IPv4 address is the last 32 bits after [::ffff:];
    the functions used do not tell the 4-byte form from it. A network keeps how long its
    mask is (4 or 16 bytes). [ParseIP_String] and [ParseCIDR_String] show that printed
    text is read back. *)
From stdpp Require Import pretty.
From S2P Require Import Prelude GoModel Strconv.
From Stdlib Require Import Ascii.

Definition IP := Z.

Definition v4_prefix : Z := 65535.

(** [ip.To4()] as a number of 32 bits, and its inverse. *)
Definition To4 (ip : IP) : option Z :=
  if ip / 2 ^ 32 =? v4_prefix then Some (ip mod 2 ^ 32) else None.
Definition From4 (a : Z) : IP := v4_prefix * 2 ^ 32 + a.

Definition IsLoopback (ip : IP) : bool :=
  match To4 ip with Some a => a / 2 ^ 24 =? 127 | None => ip =? 1 end.

Definition IsUnspecified (ip : IP) : bool := (ip =? From4 0) || (ip =? 0).

(** [net.CIDRMask], as a number. *)
Definition CIDRMask (ones bits : Z) : Z := Z.shiftl (Z.ones ones) (bits - ones).

(** [net.IPNet]: the address in the 16-byte form, the bits and the ones of the mask. *)
Record IPNet := MkNet { nt_IP : IP; nt_bits : Z; nt_ones : Z }.

#[export] Instance IPNet_eq_dec : EqDecision IPNet.
Proof. solve_decision. Defined.

(** [ip.Mask(net.CIDRMask(ones, bits))]: a mask of 4 bytes is only put on IPv4 addresses. *)
Definition Mask (ip : IP) (ones bits : Z) : IP :=
  if bits =? 32 then match To4 ip with Some a => From4 (Z.land a (CIDRMask ones 32)) | None => ip end
  else Z.land ip (CIDRMask ones 128).

(** [networkNumberAndMask]: the number, how many bits it has, and the ones of its mask. *)
Definition networkNumberAndMask (n : IPNet) : Z * Z * Z :=
  match To4 (nt_IP n) with
  | Some a => (a, 32, if nt_bits n =? 32 then nt_ones n else Z.max 0 (nt_ones n - 96))
  | None => (nt_IP n, 128, nt_ones n)
  end.

(** [n.Contains(ip)] *)
Definition Contains_ip (n : IPNet) (ip : IP) : bool :=
  let '(nn, bits, ones) := networkNumberAndMask n in
  match To4 ip with
  | Some a => (bits =? 32) && (Z.land nn (CIDRMask ones 32) =? Z.land a (CIDRMask ones 32))
  | None => (bits =? 128) && (Z.land nn (CIDRMask ones 128) =? Z.land ip (CIDRMask ones 128))
  end.

(** ** Reading *)

(** [parseIPv4Fields]: the bytes so far, their number, the value and the digits of the current one. *)
Fixpoint v4_fields (s : string) (acc : Z) (pos : nat) (val : Z) (digLen : nat) : option Z :=
  match s with
  | EmptyString => if (pos <? 3)%nat then None else Some (acc * 256 + val)
  | String c s =>
      if is_digit c then
        if ((digLen =? 1)%nat && (val =? 0)) then None
        else
          let val := val * 10 + digit_val c in
          if 255 <? val then None else v4_fields s acc pos val (S digLen)
      else if Ascii.eqb c "." then
        if ((digLen =? 0)%nat || String.eqb s "") then None
        else if (pos =? 3)%nat then None
        else v4_fields s (acc * 256 + val) (S pos) 0 0
      else None
  end.

Definition parseIPv4 (s : string) : option Z := v4_fields s 0 0 0 0.

Definition hex_val (c : ascii) : option Z :=
  let n := nat_of_ascii c in
  if is_digit c then Some (digit_val c)
  else if ((97 <=? n)%nat && (n <=? 102)%nat) then Some (Z.of_nat n - 87)
  else if ((65 <=? n)%nat && (n <=? 70)%nat) then Some (Z.of_nat n - 55)
  else None.

(** The digits of a group, at most four: the value, their number and the rest. *)
Fixpoint hex_run (s : string) (acc : Z) (off : nat) : option (Z * nat * string) :=
  match s with
  | EmptyString => Some (acc, off, s)
  | String c s' =>
      match hex_val c with
      | Some v => if (3 <? off)%nat then None else hex_run s' (acc * 16 + v) (S off)
      | None => Some (acc, off, s)
      end
  end.

(** The loop of [parseIPv6]: the groups, where the ellipsis is, and what is left; [n] is how
    many groups may follow. *)
Fixpoint v6_groups (n : nat) (s : string) (gs : list Z) (ellipsis : option nat)
    : option (list Z * option nat * string) :=
  match n with
  | O => Some (gs, ellipsis, s)
  | S n =>
      '(acc, off, rest) ← hex_run s 0 0;
      if (off =? 0)%nat then None
      else match rest with
      | EmptyString => Some (gs ++ [acc], ellipsis, EmptyString)
      | String c rest =>
          if Ascii.eqb c "." then
            if (bool_decide (ellipsis = None) && ! (length gs =? 6)%nat) then None
            else if (6 <? length gs)%nat then None
            else (a ← parseIPv4 s; Some (gs ++ [a / 65536; a mod 65536], ellipsis, EmptyString))
          else if Ascii.eqb c ":" then
            let gs := gs ++ [acc] in
            match rest with
            | EmptyString => None
            | String d rest' =>
                if Ascii.eqb d ":" then
                  if bool_decide (ellipsis ≠ None) then None
                  else if String.eqb rest' "" then Some (gs, Some (length gs), EmptyString)
                  else v6_groups n rest' gs (Some (length gs))
                else v6_groups n rest gs ellipsis
            end
          else None
      end
  end.

(** Expanding the ellipsis. *)
Definition v6_finish (r : list Z * option nat * string) : option (list Z) :=
  let '(gs, ellipsis, rest) := r in
  if ! String.eqb rest "" then None
  else if (length gs <? 8)%nat then
    match ellipsis with
    | Some k => Some (take k gs ++ replicate (8 - length gs) 0 ++ drop k gs)
    | None => None
    end
  else match ellipsis with Some _ => None | None => Some gs end.

Definition of_groups (gs : list Z) : IP := foldl (λ acc g, acc * 65536 + g) 0 gs.

Definition parseIPv6 (s : string) : option IP :=
  gs ← (match s with
        | String c (String d rest) =>
            if (Ascii.eqb c ":" && Ascii.eqb d ":") then
              if String.eqb rest "" then Some (replicate 8 0) else r ← v6_groups 8 rest [] (Some 0%nat); v6_finish r
            else r ← v6_groups 8 s [] None; v6_finish r
        | _ => r ← v6_groups 8 s [] None; v6_finish r
        end);
  Some (of_groups gs).

(** [netip.ParseAddr] without a zone: the address, and its bits. *)
Fixpoint first_mark (s : string) : option ascii :=
  match s with
  | EmptyString => None
  | String c s => if (Ascii.eqb c "." || Ascii.eqb c ":" || Ascii.eqb c "%") then Some c else first_mark s
  end.

Definition ParseAddr (s : string) : option (IP * Z) :=
  match first_mark s with
  | Some c =>
      if Ascii.eqb c "." then a ← parseIPv4 s; Some (From4 a, 32)
      else if (Ascii.eqb c ":" && ! Contains s "%") then a ← parseIPv6 s; Some (a, 128)
      else None
  | None => None
  end.

(** [net.ParseIP] and [net.ParseCIDR]. *)
Definition ParseIP (s : string) : option IP := fst <$> ParseAddr s.

Definition ParseCIDR (s : string) : option IPNet :=
  match split_at (Ascii.eqb "/") s with
  | (addr, Some mask) =>
      '(ip, bits) ← ParseAddr addr;
      n ← unsigned_val mask;
      if bits <? n then None else Some (MkNet (Mask ip n bits) bits n)
  | (_, None) => None
  end.

(** ** Printing *)

Definition v4_String (a : Z) : string :=
  Itoa (a / 2 ^ 24) +:+ "." +:+ Itoa (a / 2 ^ 16 mod 256) +:+ "." +:+ Itoa (a / 2 ^ 8 mod 256) +:+ "." +:+ Itoa (a mod 256).

Definition hex_char (d : Z) : ascii :=
  ascii_of_nat (Z.to_nat (if d <? 10 then 48 + d else 87 + d)).

Definition hex_String (g : Z) : string :=
  let d3 := g / 4096 in let d2 := g / 256 mod 16 in let d1 := g / 16 mod 16 in let d0 := g mod 16 in
  let tail := String (hex_char d0) EmptyString in
  if g <? 16 then tail
  else if g <? 256 then String (hex_char d1) tail
  else if g <? 4096 then String (hex_char d2) (String (hex_char d1) tail)
  else String (hex_char d3) (String (hex_char d2) (String (hex_char d1) tail)).

Definition groups (ip : IP) : list Z :=
  (λ i, ip / 2 ^ (16 * (7 - Z.of_nat i)) mod 65536) <$> seq 0 8.

Fixpoint zero_run (gs : list Z) : nat :=
  match gs with g :: gs => if g =? 0 then S (zero_run gs) else 0%nat | [] => 0%nat end.

(** The first longest run of at least two groups of zero: where it starts, and its length. *)
Definition longest_run (gs : list Z) : nat * nat :=
  foldl (λ best i, let l := zero_run (drop i gs) in
                   if ((2 <=? l)%nat && (best.2 <? l)%nat) then (i, l) else best)
    (0%nat, 0%nat) (seq 0 8).

Definition join_groups (gs : list Z) : string := Join (hex_String <$> gs) ":".

Definition v6_String (gs : list Z) : string :=
  let '(start, l) := longest_run gs in
  if (l =? 0)%nat then join_groups gs
  else join_groups (take start gs) +:+ "::" +:+ join_groups (drop (start + l) gs).

(** [ip.String()] *)
Definition IP_String (ip : IP) : string :=
  match To4 ip with Some a => v4_String a | None => v6_String (groups ip) end.

(** [n.String()] *)
Definition IPNet_String (n : IPNet) : string :=
  let '(nn, bits, ones) := networkNumberAndMask n in
  (if bits =? 32 then v4_String nn else v6_String (groups nn)) +:+ "/" +:+ Itoa ones.

(** [net.SplitHostPort]: the host; [None] is an error. *)
Definition IndexByte (c : ascii) (s : string) : option nat :=
  match split_at (Ascii.eqb c) s with (a, Some _) => Some (String.length a) | (_, None) => None end.

Definition SplitHostPort (hostport : string) : option string :=
  match LastIndexByte hostport ":" with
  | None => None
  | Some i =>
      match hostport with
      | String "["%char _ =>
          match IndexByte "]" hostport with
          | None => None
          | Some e =>
              if (e + 1 =? i)%nat then
                if (Contains (str_from 1 hostport) "[" || Contains (str_from (e + 1) hostport) "]") then None
                else Some (slice hostport 1 e)
              else None
          end
      | _ =>
          let host := str_to i hostport in
          if Contains host ":" then None
          else if (Contains hostport "[" || Contains hostport "]") then None
          else Some host
      end
  end.

(** ** What is printed is read back *)

Lemma range_check (P : Z → bool) n : forallb P (seqZ 0 n) = true → ∀ z, 0 ≤ z < n → P z = true.
Proof. intros H z Hz. apply (proj1 (forallb_forall _ _) H). apply list_elem_of_In, elem_of_seqZ. lia. Qed.

(** *** Bytes in decimal *)

Definition dec_char (d : Z) : ascii := ascii_of_nat (Z.to_nat (48 + d)).

Definition byte_String (b : Z) : string :=
  let tail := String (dec_char (b mod 10)) EmptyString in
  if b <? 10 then tail
  else if b <? 100 then String (dec_char (b / 10)) tail
  else String (dec_char (b / 100)) (String (dec_char (b / 10 mod 10)) tail).

Lemma Itoa_byte b : 0 ≤ b < 256 → Itoa b = byte_String b.
Proof.
  intros Hb. apply String.eqb_eq. revert b Hb.
  apply (range_check (λ b, String.eqb (Itoa b) (byte_String b))). vm_compute. reflexivity.
Qed.

Lemma dec_char_ok d : 0 ≤ d < 10 → is_digit (dec_char d) = true ∧ digit_val (dec_char d) = d.
Proof.
  intros Hd. enough (is_digit (dec_char d) && (digit_val (dec_char d) =? d) = true) as H%andb_true_iff
    by (destruct H as [H1 H2]; split; [done|by apply Z.eqb_eq]).
  revert d Hd. apply (range_check (λ d, is_digit (dec_char d) && (digit_val (dec_char d) =? d))). vm_compute. reflexivity.
Qed.

(** One digit of a field. *)
Lemma v4_fields_digit d s acc pos val digLen : 0 ≤ d < 10 → (digLen ≠ 1%nat ∨ val ≠ 0) → val * 10 + d ≤ 255 →
  v4_fields (String (dec_char d) s) acc pos val digLen = v4_fields s acc pos (val * 10 + d) (S digLen).
Proof.
  intros Hd Hl Hv. destruct (dec_char_ok d Hd) as [E1 E2]. cbn [v4_fields]. rewrite E1, E2.
  assert ((digLen =? 1)%nat && (val =? 0) = false) as -> by (apply andb_false_iff; destruct Hl; [left; by apply Nat.eqb_neq|right; by apply Z.eqb_neq]).
  by rewrite (proj2 (Z.ltb_ge _ _)) by lia.
Qed.

(** A whole field. *)
Lemma v4_fields_byte b s acc pos : 0 ≤ b < 256 → ∃ digLen, (0 < digLen)%nat ∧
  v4_fields (Itoa b +:+ s) acc pos 0 0 = v4_fields s acc pos b digLen.
Proof.
  intros Hb. rewrite Itoa_byte by done. unfold byte_String.
  pose proof (Z.div_mod b 10 ltac:(lia)). pose proof (Z.mod_pos_bound b 10 ltac:(lia)).
  destruct (Z.ltb_spec b 10); [|destruct (Z.ltb_spec b 100)]; autorewrite with go_str.
  - exists 1%nat. split; [lia|]. rewrite v4_fields_digit by lia. f_equal. rewrite Z.mod_small; lia.
  - exists 2%nat. split; [lia|]. rewrite !v4_fields_digit by lia. f_equal. lia.
  - assert (E : b / 100 = b / 10 / 10) by (by rewrite Z.div_div). rewrite E.
    pose proof (Z.div_mod (b / 10) 10 ltac:(lia)). pose proof (Z.mod_pos_bound (b / 10) 10 ltac:(lia)).
    exists 3%nat. split; [lia|]. rewrite !v4_fields_digit by lia. f_equal. lia.
Qed.

Lemma v4_fields_dot s acc pos val digLen : (0 < digLen)%nat → s ≠ ""%string → (pos < 3)%nat →
  v4_fields (String "." s) acc pos val digLen = v4_fields s (acc * 256 + val) (S pos) 0 0.
Proof.
  intros Hd Hs Hp. cbn [v4_fields]. change (is_digit ".") with false. cbv iota.
  change (Ascii.eqb "." ".") with true. cbv iota. rewrite (proj2 (Nat.eqb_neq _ _)) by lia.
  rewrite (proj2 (String.eqb_neq _ _) Hs). cbn [orb]. by rewrite (proj2 (Nat.eqb_neq pos 3)) by lia.
Qed.

Lemma Itoa_nonempty z s : Itoa z +:+ s ≠ ""%string.
Proof.
  unfold Itoa. destruct z as [|p|p]; [done| |done]. change (pretty (Z.pos p)) with (pretty (N.pos p)).
  destruct (pretty_N_head (N.pos p)) as (c & r & E & _). by rewrite E.
Qed.

Lemma bytes_of a : 0 ≤ a < 2 ^ 32 →
  a = ((a / 2 ^ 24 * 256 + a / 2 ^ 16 mod 256) * 256 + a / 2 ^ 8 mod 256) * 256 + a mod 256 ∧ 0 ≤ a / 2 ^ 24 < 256.
Proof.
  intros Ha. replace (a / 2 ^ 24) with (a / 2 ^ 16 / 256) by (by rewrite Z.div_div).
  replace (a / 2 ^ 16) with (a / 2 ^ 8 / 256) by (by rewrite Z.div_div). change (2 ^ 8) with 256.
  pose proof (Z.div_mod a 256 ltac:(lia)). pose proof (Z.div_mod (a / 256) 256 ltac:(lia)).
  pose proof (Z.div_mod (a / 256 / 256) 256 ltac:(lia)).
  pose proof (Z.mod_pos_bound a 256 ltac:(lia)). pose proof (Z.mod_pos_bound (a / 256) 256 ltac:(lia)).
  pose proof (Z.mod_pos_bound (a / 256 / 256) 256 ltac:(lia)). lia.
Qed.

Lemma parseIPv4_String a : 0 ≤ a < 2 ^ 32 → parseIPv4 (v4_String a) = Some a.
Proof.
  intros Ha. destruct (bytes_of a Ha) as [E H3]. unfold parseIPv4, v4_String. autorewrite with go_str.
  pose proof (Z.mod_pos_bound (a / 2 ^ 16) 256 ltac:(lia)). pose proof (Z.mod_pos_bound (a / 2 ^ 8) 256 ltac:(lia)).
  pose proof (Z.mod_pos_bound a 256 ltac:(lia)).
  destruct (v4_fields_byte (a / 2 ^ 24) (String "." (Itoa (a / 2 ^ 16 mod 256) +:+ String "." (Itoa (a / 2 ^ 8 mod 256) +:+ String "." (Itoa (a mod 256))))) 0 0 H3)
    as (l1 & Hl1 & ->).
  rewrite v4_fields_dot by (apply Itoa_nonempty || lia).
  match goal with |- v4_fields (Itoa ?b +:+ ?s) ?acc ?pos 0 0 = _ => destruct (v4_fields_byte b s acc pos) as (l2 & Hl2 & ->); [done|] end.
  rewrite v4_fields_dot by (apply Itoa_nonempty || lia).
  match goal with |- v4_fields (Itoa ?b +:+ ?s) ?acc ?pos 0 0 = _ => destruct (v4_fields_byte b s acc pos) as (l3 & Hl3 & ->); [done|] end.
  rewrite v4_fields_dot; [|lia| |lia]; [|rewrite <- (str_app_nil_r (Itoa _)); apply Itoa_nonempty].
  rewrite <- (str_app_nil_r (Itoa (a mod 256))).
  match goal with |- v4_fields (Itoa ?b +:+ ?s) ?acc ?pos 0 0 = _ => destruct (v4_fields_byte b s acc pos) as (l4 & Hl4 & ->); [done|] end.
  cbn [v4_fields]. f_equal. cbn [Nat.ltb Nat.leb]. lia.
Qed.

(** *** Groups in hexadecimal *)

Lemma hex_char_ok d : 0 ≤ d < 16 → hex_val (hex_char d) = Some d.
Proof.
  intros Hd. apply (bool_decide_eq_true_1 _). revert d Hd.
  apply (range_check (λ d, bool_decide (hex_val (hex_char d) = Some d))). vm_compute. reflexivity.
Qed.

(** What follows a group. *)
Definition stops (s : string) : Prop := match s with String c _ => hex_val c = None | EmptyString => True end.

Lemma hex_run_stop s acc off : stops s → hex_run s acc off = Some (acc, off, s).
Proof. destruct s as [|c s]; [done|]. cbn [stops hex_run]. by intros ->. Qed.

Lemma hex_run_digit d s acc off : 0 ≤ d < 16 → (off ≤ 3)%nat →
  hex_run (String (hex_char d) s) acc off = hex_run s (acc * 16 + d) (S off).
Proof. intros Hd Ho. cbn [hex_run]. rewrite hex_char_ok by done. by rewrite (proj2 (Nat.ltb_ge 3 off)). Qed.

Lemma nibbles g : 0 ≤ g < 65536 →
  g = ((g / 4096 * 16 + g / 256 mod 16) * 16 + g / 16 mod 16) * 16 + g mod 16 ∧
  0 ≤ g / 4096 < 16 ∧ 0 ≤ g / 256 mod 16 < 16 ∧ 0 ≤ g / 16 mod 16 < 16 ∧ 0 ≤ g mod 16 < 16.
Proof.
  intros Hg. replace (g / 4096) with (g / 256 / 16) by (by rewrite Z.div_div).
  replace (g / 256) with (g / 16 / 16) by (by rewrite Z.div_div).
  pose proof (Z.div_mod g 16 ltac:(lia)). pose proof (Z.div_mod (g / 16) 16 ltac:(lia)).
  pose proof (Z.div_mod (g / 16 / 16) 16 ltac:(lia)).
  pose proof (Z.mod_pos_bound g 16 ltac:(lia)). pose proof (Z.mod_pos_bound (g / 16) 16 ltac:(lia)).
  pose proof (Z.mod_pos_bound (g / 16 / 16) 16 ltac:(lia)). lia.
Qed.

Lemma hex_run_String g s : 0 ≤ g < 65536 → stops s →
  ∃ off, (0 < off)%nat ∧ hex_run (hex_String g +:+ s) 0 0 = Some (g, off, s).
Proof.
  intros Hg Hs. destruct (nibbles g Hg) as (E & H3 & H2 & H1 & H0). unfold hex_String.
  destruct (Z.ltb_spec g 16); [|destruct (Z.ltb_spec g 256); [|destruct (Z.ltb_spec g 4096)]];
    autorewrite with go_str; rewrite !hex_run_digit by (done || lia); rewrite hex_run_stop by done;
    eexists; (split; [|do 2 f_equal; f_equal; lia]); lia.
Qed.

Lemma hex_String_head g : 0 ≤ g < 65536 → ∃ d r, hex_String g = String (hex_char d) r ∧ 0 ≤ d < 16.
Proof.
  intros Hg. destruct (nibbles g Hg) as (E & H3 & H2 & H1 & H0). unfold hex_String.
  destruct (_ <? 16); [|destruct (_ <? 256); [|destruct (_ <? 4096)]]; eauto.
Qed.

Definition group_ok (g : Z) : Prop := 0 ≤ g < 65536.

Lemma join_groups_cons g gs : gs ≠ [] → join_groups (g :: gs) = hex_String g +:+ String ":" (join_groups gs).
Proof. by destruct gs. Qed.

Lemma join_groups_head gs s : gs ≠ [] → Forall group_ok gs →
  ∃ d r, join_groups gs +:+ s = String (hex_char d) r ∧ 0 ≤ d < 16.
Proof.
  intros Hne Hf. destruct Hf as [|g gs Hg Hf]; [done|]. destruct (hex_String_head g Hg) as (d & r & E & Hd).
  destruct gs as [|g' gs]; [|rewrite join_groups_cons by done].
  - change (join_groups [g]) with (hex_String g). rewrite E. eauto.
  - rewrite E. eauto.
Qed.

Lemma hex_not_colon d : 0 ≤ d < 16 → Ascii.eqb (hex_char d) ":" = false.
Proof.
  intros Hd. apply Ascii.eqb_neq. intros E. pose proof (hex_char_ok d Hd) as H. rewrite E in H. discriminate H.
Qed.

(** One group and what follows. *)
Lemma v6_last n g gs ell : group_ok g → v6_groups (S n) (hex_String g) gs ell = Some (gs ++ [g], ell, EmptyString).
Proof.
  intros Hg. destruct (hex_run_String g "" Hg I) as (off & Ho & E). rewrite str_app_nil_r in E.
  cbn [v6_groups]. rewrite E. cbn [mbind option_bind]. by rewrite (proj2 (Nat.eqb_neq off 0)) by lia.
Qed.

Lemma v6_next n g d r gs ell : group_ok g → 0 ≤ d < 16 →
  v6_groups (S n) (hex_String g +:+ String ":" (String (hex_char d) r)) gs ell =
    v6_groups n (String (hex_char d) r) (gs ++ [g]) ell.
Proof.
  intros Hg Hd. destruct (hex_run_String g (String ":" (String (hex_char d) r)) Hg eq_refl) as (off & Ho & E).
  cbn [v6_groups]. rewrite E. cbn [mbind option_bind]. rewrite (proj2 (Nat.eqb_neq off 0)) by lia.
  change (Ascii.eqb ":" ".") with false. change (Ascii.eqb ":" ":") with true. cbv iota.
  by rewrite hex_not_colon.
Qed.

Lemma v6_ellipsis n g s gs : group_ok g →
  v6_groups (S n) (hex_String g +:+ String ":" (String ":" s)) gs None =
    if String.eqb s "" then Some (gs ++ [g], Some (length (gs ++ [g])), EmptyString)
    else v6_groups n s (gs ++ [g]) (Some (length (gs ++ [g]))).
Proof.
  intros Hg. destruct (hex_run_String g (String ":" (String ":" s)) Hg eq_refl) as (off & Ho & E).
  cbn [v6_groups]. rewrite E. cbn [mbind option_bind]. by rewrite (proj2 (Nat.eqb_neq off 0)) by lia.
Qed.

Lemma v6_join n gs acc ell : gs ≠ [] → Forall group_ok gs → (length gs ≤ n)%nat →
  v6_groups n (join_groups gs) acc ell = Some (acc ++ gs, ell, EmptyString).
Proof.
  intros Hne Hf. revert n acc Hne. induction Hf as [|g gs Hg Hf IH]; intros n acc Hne Hn; [done|].
  destruct n as [|n]; [simpl in Hn; lia|]. destruct (decide (gs = [])) as [->|Hgs]; [by apply v6_last|].
  rewrite join_groups_cons by done. destruct (join_groups_head gs "" Hgs Hf) as (d & r & E & Hd).
  rewrite str_app_nil_r in E. rewrite E, v6_next, <- E by done. rewrite IH by (done || (simpl in Hn; lia)).
  by rewrite <- app_assoc.
Qed.

Lemma v6_join_ellipsis n a b acc : a ≠ [] → Forall group_ok a → Forall group_ok b → (length a + length b ≤ n)%nat →
  v6_groups n (join_groups a +:+ "::" +:+ join_groups b) acc None =
    Some (acc ++ a ++ b, Some (length acc + length a)%nat, EmptyString).
Proof.
  intros Hne Ha Hb. revert n acc Hne. induction Ha as [|g a Hg Ha IH]; intros n acc Hne Hn; [done|].
  destruct n as [|n]; [simpl in Hn; lia|]. destruct (decide (a = [])) as [->|Hgs].
  - change (join_groups [g]) with (hex_String g). change ("::" +:+ ?s) with (String ":" (String ":" s)).
    rewrite v6_ellipsis by done. destruct (decide (b = [])) as [->|Hb0].
    + cbn [join_groups fmap list_fmap Join]. rewrite length_app. done.
    + destruct (join_groups_head b "" Hb0 Hb) as (d & r & E & Hd). rewrite str_app_nil_r in E.
      rewrite (proj2 (String.eqb_neq _ _)) by (rewrite E; done).
      rewrite v6_join by (done || (simpl in Hn; lia)). rewrite length_app, <- app_assoc. done.
  - rewrite join_groups_cons, str_app_assoc, str_app_cons by done.
    destruct (join_groups_head a ("::" +:+ join_groups b) Hgs Ha) as (d & r & E & Hd).
    rewrite E, v6_next, <- E by done. rewrite IH by (done || (simpl in Hn; lia)).
    rewrite length_app, <- app_assoc. cbn [length app]. by rewrite <- Nat.add_assoc.
Qed.

(** *** The ellipsis *)

Lemma zero_run_spec gs : take (zero_run gs) gs = replicate (zero_run gs) 0 ∧ (zero_run gs ≤ length gs)%nat.
Proof.
  induction gs as [|g gs [IH1 IH2]]; [done|]. cbn [zero_run]. destruct (Z.eqb_spec g 0) as [->|]; [|split; [done|simpl; lia]].
  cbn [take replicate length]. split; [by f_equal|lia].
Qed.

Lemma longest_run_spec gs : let '(start, l) := longest_run gs in
  l = 0%nat ∨ (2 ≤ l)%nat ∧ (start + l ≤ length gs)%nat ∧ gs = take start gs ++ replicate l 0 ++ drop (start + l) gs.
Proof.
  unfold longest_run. set (f := λ _ _, _).
  assert (H : ∀ ixs best, (let '(start, l) := best in l = 0%nat ∨ (2 ≤ l)%nat ∧ (start + l ≤ length gs)%nat ∧
    gs = take start gs ++ replicate l 0 ++ drop (start + l) gs) →
    let '(start, l) := foldl f best ixs in l = 0%nat ∨ (2 ≤ l)%nat ∧ (start + l ≤ length gs)%nat ∧
    gs = take start gs ++ replicate l 0 ++ drop (start + l) gs); [|apply H; by left].
  intros ixs. induction ixs as [|i ixs IH]; intros best Hb; [done|]. cbn [foldl]. apply IH. unfold f. cbv zeta.
  destruct (zero_run_spec (drop i gs)) as [H1 H2]. rewrite length_drop in H2. set (l := zero_run (drop i gs)) in *.
  destruct ((2 <=? l)%nat && (best.2 <? l)%nat) eqn:E; [|by destruct best].
  apply andb_true_iff in E as [E _]. apply Nat.leb_le in E. right. split; [done|]. split; [lia|].
  rewrite <- H1, <- drop_drop, take_drop, take_drop. done.
Qed.

Lemma v6_finish_ellipsis a b l : (0 < l)%nat → (length a + l + length b = 8)%nat →
  v6_finish (a ++ b, Some (length a), EmptyString) = Some (a ++ replicate l 0 ++ b).
Proof.
  intros Hl Hn. unfold v6_finish. cbn [String.eqb negb]. rewrite length_app.
  rewrite (proj2 (Nat.ltb_lt _ _)) by lia. rewrite take_app_length, drop_app_length. do 4 f_equal. lia.
Qed.

Lemma parseIPv6_String gs : length gs = 8%nat → Forall group_ok gs → parseIPv6 (v6_String gs) = Some (of_groups gs).
Proof.
  intros Hl Hf. pose proof (longest_run_spec gs) as H. unfold v6_String. destruct (longest_run gs) as [start l].
  destruct (Nat.eqb_spec l 0) as [Hz|Hnz].
  - assert (Hne : gs ≠ []) by (intros ->; discriminate Hl).
    destruct (join_groups_head gs "" Hne Hf) as (d & r & E & Hd). rewrite str_app_nil_r in E.
    assert (Ej : (r ← v6_groups 8 (join_groups gs) [] None; v6_finish r) = Some gs).
    { rewrite v6_join by (done || lia). cbn [mbind option_bind app]. unfold v6_finish. by rewrite Hl. }
    unfold parseIPv6. destruct (join_groups gs) as [|c [|c' s]] eqn:Es; [done|by rewrite Ej|].
    injection E as -> _. rewrite Ascii.eqb_sym.
    replace (Ascii.eqb ":" (hex_char d)) with false by (symmetry; rewrite Ascii.eqb_sym; by apply hex_not_colon).
    cbn [andb]. by rewrite Ej.
  - destruct H as [|(Hl2 & Hb & E)]; [done|]. set (a := take start gs) in *. set (b := drop (start + l) gs) in *.
    assert (Hla : length a = start) by (unfold a; rewrite length_take; lia).
    assert (Hlb : (length b = 8 - (start + l))%nat) by (unfold b; rewrite length_drop; lia).
    assert (Hfa : Forall group_ok a) by (by apply Forall_take). assert (Hfb : Forall group_ok b) by (by apply Forall_drop).
    assert (Efin : v6_finish (a ++ b, Some start, EmptyString) = Some gs).
    { rewrite <- Hla. rewrite (v6_finish_ellipsis a b l) by lia. by rewrite <- E. }
    unfold parseIPv6. destruct (decide (a = [])) as [Ha|Ha].
    + rewrite Ha in *. simpl in Hla. subst start. cbn [join_groups fmap list_fmap Join]. 
      change ("" +:+ "::" +:+ ?s) with (String ":" (String ":" s)). cbn iota. change (Ascii.eqb ":" ":" && Ascii.eqb ":" ":") with true.
      cbv iota. destruct (decide (b = [])) as [Hb0|Hb0].
      * rewrite Hb0 in *. cbn [join_groups fmap list_fmap Join String.eqb mbind option_bind]. 
        rewrite E. simpl in Hlb. assert (l = 8%nat) as -> by lia. done.
      * destruct (join_groups_head b "" Hb0 Hfb) as (d & r & Eb & Hd). rewrite str_app_nil_r in Eb.
        rewrite (proj2 (String.eqb_neq _ _)) by (rewrite Eb; done).
        rewrite v6_join by (done || lia). cbn [mbind option_bind]. cbn [app] in *. by rewrite Efin.
    + destruct (join_groups_head a ("::" +:+ join_groups b) Ha Hfa) as (d & r & Es & Hd).
      assert (Ej : (r ← v6_groups 8 (join_groups a +:+ "::" +:+ join_groups b) [] None; v6_finish r) = Some gs).
      { rewrite v6_join_ellipsis by (done || lia). cbn [mbind option_bind app length Nat.add]. by rewrite Hla. }
      rewrite Es in *. destruct r as [|c' s]; [by rewrite Ej|].
      rewrite hex_not_colon by done. cbn [andb]. by rewrite Ej.
Qed.

(** *** Which bytes occur *)

Definition is_hex (c : ascii) : bool := bool_decide (hex_val c ≠ None).
Definition addr_char (c : ascii) : bool := (is_hex c || Ascii.eqb c "." || Ascii.eqb c ":").

Lemma is_hex_char d : 0 ≤ d < 16 → is_hex (hex_char d) = true.
Proof. intros Hd. unfold is_hex. by rewrite hex_char_ok. Qed.

Lemma hex_String_chars g : group_ok g → all_chars is_hex (hex_String g) = true.
Proof.
  intros Hg. destruct (nibbles g Hg) as (E & H3 & H2 & H1 & H0). unfold hex_String.
  destruct (_ <? 16); [|destruct (_ <? 256); [|destruct (_ <? 4096)]]; cbn [all_chars]; by rewrite !is_hex_char.
Qed.

Lemma Itoa_byte_chars b : 0 ≤ b < 256 → all_chars is_hex (Itoa b) = true.
Proof. revert b. apply (range_check (λ b, all_chars is_hex (Itoa b))). vm_compute. reflexivity. Qed.

Lemma hex_addr_char s : all_chars is_hex s = true → all_chars addr_char s = true.
Proof. apply all_chars_impl. unfold addr_char. by intros c ->. Qed.

Lemma byte_ranges a : 0 ≤ a < 2 ^ 32 → 0 ≤ a / 2 ^ 24 < 256 ∧ 0 ≤ a / 2 ^ 16 mod 256 < 256 ∧
  0 ≤ a / 2 ^ 8 mod 256 < 256 ∧ 0 ≤ a mod 256 < 256.
Proof. intros Ha. destruct (bytes_of a Ha) as [_ H]. repeat split; try apply H; apply Z.mod_pos_bound; lia. Qed.

Lemma v4_String_chars a : 0 ≤ a < 2 ^ 32 → all_chars addr_char (v4_String a) = true.
Proof.
  intros Ha. destruct (byte_ranges a Ha) as (H3 & H2 & H1 & H0). unfold v4_String.
  rewrite !all_chars_app, !(λ b H, hex_addr_char _ (Itoa_byte_chars b H)) by done. done.
Qed.

Lemma join_groups_chars gs : Forall group_ok gs → all_chars addr_char (join_groups gs) = true.
Proof.
  intros Hf. apply all_chars_Join; [done|]. apply Forall_fmap. eapply Forall_impl; [exact Hf|].
  intros g Hg. by apply hex_addr_char, hex_String_chars.
Qed.

Lemma v6_String_chars gs : Forall group_ok gs → all_chars addr_char (v6_String gs) = true.
Proof.
  intros Hf. unfold v6_String. destruct (longest_run gs) as [start l]. destruct (l =? 0)%nat; [by apply join_groups_chars|].
  rewrite !all_chars_app, !join_groups_chars by (by apply Forall_take || by apply Forall_drop). done.
Qed.

Lemma no_zone s : all_chars addr_char s = true → Contains s "%" = false.
Proof.
  induction s as [|c s IH]; [done|]. cbn [all_chars]. intros [Hc Hs]%andb_true_iff.
  cbn [Contains String.prefix]. rewrite (IH Hs), orb_false_r.
  destruct (Ascii.ascii_dec "%" c) as [<-|]; [discriminate Hc|done].
Qed.

Lemma split_slash s t : all_chars addr_char s = true → split_at (Ascii.eqb "/") (s +:+ String "/" t) = (s, Some t).
Proof.
  induction s as [|c s IH]; [done|]. cbn [all_chars]. intros [Hc Hs]%andb_true_iff. rewrite str_app_cons.
  cbn [split_at]. destruct (Ascii.eqb_spec "/" c) as [<-|]; [discriminate Hc|]. by rewrite (IH Hs).
Qed.

Lemma first_mark_hex s t : all_chars is_hex s = true → first_mark (s +:+ t) = first_mark t.
Proof.
  induction s as [|c s IH]; [done|]. cbn [all_chars]. intros [Hc Hs]%andb_true_iff. rewrite str_app_cons.
  cbn [first_mark]. rewrite (IH Hs).
  destruct (Ascii.eqb_spec c "."%char) as [->|]; [discriminate Hc|].
  destruct (Ascii.eqb_spec c ":"%char) as [->|]; [discriminate Hc|].
  destruct (Ascii.eqb_spec c "%"%char) as [->|]; [discriminate Hc|]. done.
Qed.

Lemma first_mark_v4 a : 0 ≤ a < 2 ^ 32 → first_mark (v4_String a) = Some "."%char.
Proof. intros Ha. destruct (byte_ranges a Ha) as (H3 & _). unfold v4_String. by rewrite first_mark_hex by (by apply Itoa_byte_chars). Qed.

Lemma first_mark_join g gs t : group_ok g → (gs ≠ [] ∨ ∃ r, t = String ":" r) →
  first_mark (join_groups (g :: gs) +:+ t) = Some ":"%char.
Proof.
  intros Hg H. destruct (decide (gs = [])) as [->|Hgs].
  - destruct H as [|[r ->]]; [done|]. change (join_groups [g]) with (hex_String g). by rewrite first_mark_hex by (by apply hex_String_chars).
  - rewrite join_groups_cons, str_app_assoc by done. by rewrite first_mark_hex by (by apply hex_String_chars).
Qed.

Lemma first_mark_v6 gs : length gs = 8%nat → Forall group_ok gs → first_mark (v6_String gs) = Some ":"%char.
Proof.
  intros Hl Hf. unfold v6_String. destruct (longest_run gs) as [start l]. destruct (l =? 0)%nat.
  - destruct Hf as [|g gs Hg Hf]; [done|]. rewrite <- (str_app_nil_r (join_groups _)). apply first_mark_join; [done|].
    left. by intros ->.
  - destruct (Forall_take _ start _ Hf) as [|g a Hg Ha]; [done|]. apply first_mark_join; [done|]. right. by eexists.
Qed.

(** *** Addresses and networks *)

Definition ip_ok (ip : IP) : Prop := 0 ≤ ip < 2 ^ 128.

Lemma To4_range ip a : ip_ok ip → To4 ip = Some a → 0 ≤ a < 2 ^ 32 ∧ ip = From4 a.
Proof.
  intros Hip. unfold To4, From4. destruct (Z.eqb_spec (ip / 2 ^ 32) v4_prefix) as [E|]; [|done]. intros [= <-].
  split; [by apply Z.mod_pos_bound|]. rewrite <- E, Z.mul_comm. by apply Z.div_mod.
Qed.

Lemma To4_From4 a : 0 ≤ a < 2 ^ 32 → To4 (From4 a) = Some a.
Proof.
  intros Ha. unfold To4, From4. rewrite (Z.add_comm _ a), Z.div_add, Z.mod_add, Z.div_small, Z.mod_small by done. done.
Qed.

Lemma groups_ok ip : length (groups ip) = 8%nat ∧ Forall group_ok (groups ip).
Proof.
  split; [done|]. apply Forall_fmap, Forall_forall. intros i _. cbn [compose]. by apply Z.mod_pos_bound.
Qed.

Lemma of_groups_groups ip : ip_ok ip → of_groups (groups ip) = ip.
Proof.
  intros Hip. unfold of_groups, groups. cbn [fmap list_fmap seq foldl].
  repeat match goal with |- context [Z.of_nat ?n] => let v := eval vm_compute in (Z.of_nat n) in change (Z.of_nat n) with v end.
  repeat match goal with |- context [16 * (7 - ?k)] => let v := eval vm_compute in (16 * (7 - k)) in change (16 * (7 - k)) with v end.
  change (2 ^ 0) with 1. rewrite Z.div_1_r.
  assert (H : ∀ j k, 0 ≤ k → j = k + 16 → ip / 2 ^ j * 65536 + ip / 2 ^ k mod 65536 = ip / 2 ^ k).
  { intros j k Hk ->. rewrite Z.pow_add_r, <- Z.div_div by lia. change (2 ^ 16) with 65536.
    pose proof (Z.div_mod (ip / 2 ^ k) 65536 ltac:(lia)). lia. }
  assert (H0 : ip / 2 ^ 128 = 0) by (apply Z.div_small; exact Hip).
  pose proof (H 128 112 ltac:(lia) eq_refl) as E. rewrite H0, Z.mul_0_l in E. rewrite Z.mul_0_l, E.
  rewrite (H 112 96), (H 96 80), (H 80 64), (H 64 48), (H 48 32), (H 32 16) by lia.
  pose proof (H 16 0 ltac:(lia) eq_refl) as E0. change (2 ^ 0) with 1 in E0. by rewrite Z.div_1_r in E0.
Qed.

Lemma ParseAddr_v4 a : 0 ≤ a < 2 ^ 32 → ParseAddr (v4_String a) = Some (From4 a, 32).
Proof. intros Ha. unfold ParseAddr. rewrite first_mark_v4 by done. cbn. by rewrite parseIPv4_String. Qed.

Lemma ParseAddr_v6 ip : ip_ok ip → ParseAddr (v6_String (groups ip)) = Some (ip, 128).
Proof.
  intros Hip. destruct (groups_ok ip) as [Hl Hf]. unfold ParseAddr. rewrite first_mark_v6 by done. cbv iota beta.
  change (Ascii.eqb ":" ".") with false. rewrite no_zone by (by apply v6_String_chars). cbn [Ascii.eqb andb negb].
  rewrite parseIPv6_String by done. cbn [mbind option_bind]. by rewrite of_groups_groups.
Qed.

(** The text of an address is read back. *)
Lemma ParseIP_String ip : ip_ok ip → ParseIP (IP_String ip) = Some ip.
Proof.
  intros Hip. unfold ParseIP, IP_String. destruct (To4 ip) as [a|] eqn:E; [|by rewrite ParseAddr_v6].
  destruct (To4_range ip a Hip E) as [Ha ->]. by rewrite ParseAddr_v4.
Qed.

(** A network as [net.ParseCIDR] makes it, except for a mask of 16 bytes on an IPv4 address. *)
Record net_ok (n : IPNet) : Prop := {
  no_ip : ip_ok (nt_IP n);
  no_bits : nt_bits n = match To4 (nt_IP n) with Some _ => 32 | None => 128 end;
  no_ones : 0 ≤ nt_ones n ≤ nt_bits n;
  no_masked : Mask (nt_IP n) (nt_ones n) (nt_bits n) = nt_IP n
}.

Lemma unsigned_val_Itoa z : 0 ≤ z → unsigned_val (Itoa z) = Some z.
Proof.
  intros Hz. unfold Itoa. destruct z as [|p|p]; [done| |lia]. exact (unsigned_val_pretty (N.pos p)).
Qed.

(** The text of a network is read back. *)
Lemma ParseCIDR_String n : net_ok n → ParseCIDR (IPNet_String n) = Some n.
Proof.
  intros [Hip Hbits Hones Hm]. unfold IPNet_String, networkNumberAndMask. destruct (groups_ok (nt_IP n)) as [_ Hf].
  destruct (To4 (nt_IP n)) as [a|] eqn:E.
  - destruct (To4_range _ a Hip E) as [Ha Ei]. rewrite Hbits. change (32 =? 32) with true. cbv iota.
    unfold ParseCIDR. change ("/" +:+ ?s) with (String "/" s). rewrite split_slash by (by apply v4_String_chars).
    rewrite ParseAddr_v4 by done. cbn [mbind option_bind]. rewrite unsigned_val_Itoa by lia. cbn [mbind option_bind].
    rewrite (proj2 (Z.ltb_ge _ _)) by lia. rewrite <- Ei. destruct n as [ip bits ones]. cbn [nt_IP nt_bits nt_ones] in *. by subst bits; rewrite Hm.
  - change (128 =? 32) with false. cbv iota. unfold ParseCIDR. change ("/" +:+ ?s) with (String "/" s).
    rewrite split_slash by (by apply v6_String_chars). rewrite ParseAddr_v6 by done. cbn [mbind option_bind].
    rewrite unsigned_val_Itoa by lia. cbn [mbind option_bind]. rewrite (proj2 (Z.ltb_ge _ _)) by lia.
    destruct n as [ip bits ones]. cbn [nt_IP nt_bits nt_ones] in *. by subst bits; rewrite Hm.
Qed.

(** ** What is read is in range *)

Lemma land_mask x ones bits : 0 ≤ ones ≤ bits → 0 ≤ x < 2 ^ bits →
  Z.land x (CIDRMask ones bits) = x / 2 ^ (bits - ones) * 2 ^ (bits - ones).
Proof.
  intros Ho Hx. unfold CIDRMask. rewrite <- Z.shiftr_div_pow2, <- Z.shiftl_mul_pow2 by lia.
  apply Z.bits_inj'. intros n Hn. rewrite Z.land_spec, !Z.shiftl_spec by done.
  destruct (Z.ltb_spec n (bits - ones)).
  - rewrite !(Z.testbit_neg_r _ (n - (bits - ones))) by lia. by rewrite andb_false_r.
  - rewrite Z.shiftr_spec by lia. replace (n - (bits - ones) + (bits - ones)) with n by lia.
    destruct (Z.ltb_spec (n - (bits - ones)) ones).
    + rewrite Z.ones_spec_low by lia. by rewrite andb_true_r.
    + rewrite Z.ones_spec_high, andb_false_r by lia. symmetry. destruct (Z.eq_dec x 0) as [->|]; [apply Z.bits_0|].
      apply Z.bits_above_log2; [lia|]. apply Z.log2_lt_pow2; [lia|].
      eapply Z.lt_le_trans; [apply Hx|]. apply Z.pow_le_mono_r; lia.
Qed.

Lemma mask_range x ones bits : 0 ≤ ones ≤ bits → 0 ≤ x < 2 ^ bits → 0 ≤ Z.land x (CIDRMask ones bits) < 2 ^ bits.
Proof.
  intros Ho Hx. rewrite land_mask by done. pose proof (Z.pow_pos_nonneg 2 (bits - ones) ltac:(lia) ltac:(lia)).
  pose proof (Z.div_mod x (2 ^ (bits - ones)) ltac:(lia)). pose proof (Z.mod_pos_bound x (2 ^ (bits - ones)) ltac:(lia)).
  pose proof (Z.div_pos x (2 ^ (bits - ones)) ltac:(lia) ltac:(lia)). nia.
Qed.

Lemma mask_idem x ones bits : Z.land (Z.land x (CIDRMask ones bits)) (CIDRMask ones bits) = Z.land x (CIDRMask ones bits).
Proof. by rewrite <- Z.land_assoc, Z.land_diag. Qed.

Lemma digit_val_range c : is_digit c = true → 0 ≤ digit_val c ≤ 9.
Proof. unfold is_digit, digit_val. intros [H1%Nat.leb_le H2%Nat.leb_le]%andb_true_iff. lia. Qed.

Lemma v4_fields_range s acc pos val digLen a : v4_fields s acc pos val digLen = Some a →
  0 ≤ acc < 256 ^ Z.of_nat pos → 0 ≤ val ≤ 255 → (pos ≤ 3)%nat → 0 ≤ a < 2 ^ 32.
Proof.
  revert acc pos val digLen. induction s as [|c s IH]; intros acc pos val digLen; cbn [v4_fields].
  - destruct (Nat.ltb_spec pos 3); [done|]. intros [= <-] Ha Hv Hp. assert (pos = 3%nat) as -> by lia.
    change (256 ^ Z.of_nat 3) with 16777216 in Ha. lia.
  - destruct (is_digit c) eqn:Ed.
    + destruct (_ && _); [done|]. destruct (Z.ltb_spec 255 (val * 10 + digit_val c)); [done|]. intros Hs Ha Hv Hp.
      pose proof (digit_val_range c Ed). eapply IH; [exact Hs|done|lia|done].
    + destruct (Ascii.eqb c "."); [|done]. destruct (_ || _); [done|].
      destruct (Nat.eqb_spec pos 3); [done|]. intros H Ha Hv Hp. eapply IH; [exact H| |lia|lia].
      rewrite Nat2Z.inj_succ, Z.pow_succ_r by lia. lia.
Qed.

Lemma parseIPv4_range s a : parseIPv4 s = Some a → 0 ≤ a < 2 ^ 32.
Proof. intros H. eapply v4_fields_range; [exact H|simpl; lia|lia|lia]. Qed.

Lemma hex_val_range c v : hex_val c = Some v → 0 ≤ v < 16.
Proof.
  unfold hex_val. destruct (is_digit c) eqn:E; [intros [= <-]; pose proof (digit_val_range c E); lia|].
  destruct ((97 <=? nat_of_ascii c)%nat && _) eqn:E1.
  - apply andb_true_iff in E1 as [H1%Nat.leb_le H2%Nat.leb_le]. intros [= <-]. lia.
  - destruct ((65 <=? nat_of_ascii c)%nat && _) eqn:E2; [|done]. apply andb_true_iff in E2 as [H1%Nat.leb_le H2%Nat.leb_le]. intros [= <-]. lia.
Qed.

Lemma hex_run_range s acc off v off' rest : hex_run s acc off = Some (v, off', rest) →
  0 ≤ acc < 16 ^ Z.of_nat off → (off ≤ 4)%nat → 0 ≤ v < 65536.
Proof.
  revert acc off. induction s as [|c s IH]; intros acc off; cbn [hex_run].
  - intros [= <- _ _] Ha Ho. pose proof (Z.pow_le_mono_r 16 (Z.of_nat off) 4 ltac:(lia) ltac:(lia)). lia.
  - destruct (hex_val c) as [d|] eqn:E.
    + destruct (Nat.ltb_spec 3 off); [done|]. intros Hs Ha Ho. eapply IH; [exact Hs| |lia].
      pose proof (hex_val_range c d E). rewrite Nat2Z.inj_succ, Z.pow_succ_r by lia. lia.
    + intros [= <- _ _] Ha Ho. pose proof (Z.pow_le_mono_r 16 (Z.of_nat off) 4 ltac:(lia) ltac:(lia)). lia.
Qed.

Lemma v6_groups_range n s gs ell gs' ell' rest : v6_groups n s gs ell = Some (gs', ell', rest) →
  Forall group_ok gs → (length gs + n ≤ 8)%nat → Forall group_ok gs' ∧ (length gs' ≤ 8)%nat.
Proof.
  revert s gs ell. induction n as [|n IH]; intros s gs ell; cbn [v6_groups]; [intros [= <- _ _] Hf Hn; split; [done|lia]|].
  destruct (hex_run s 0 0) as [[[acc off] r]|] eqn:Eh; cbn [mbind option_bind]; [|done].
  assert (Hacc : group_ok acc) by (eapply hex_run_range; [exact Eh|simpl; lia|lia]).
  destruct (off =? 0)%nat; [done|]. intros H Hf Hn.
  assert (Hf' : Forall group_ok (gs ++ [acc])) by (apply Forall_app; split; [done|by constructor]).
  assert (Hlen : length (gs ++ [acc]) = S (length gs)) by (rewrite length_app; simpl; lia).
  destruct r as [|c r]; [injection H as <- _ _; split; [done|lia]|].
  destruct (Ascii.eqb c ".").
  { destruct (_ && _); [done|]. destruct (Nat.ltb_spec 6 (length gs)); [done|].
    destruct (parseIPv4 s) as [a|] eqn:Ea; cbn [mbind option_bind] in H; [|done]. injection H as <- _ _.
    apply parseIPv4_range in Ea. rewrite length_app. simpl. split; [|lia]. apply Forall_app. split; [done|].
    constructor; [split; [apply Z.div_pos|apply Z.div_lt_upper_bound]; lia|]. constructor; [|constructor].
    apply Z.mod_pos_bound. lia. }
  destruct (Ascii.eqb c ":"); [|done]. destruct r as [|d r']; [done|]. destruct (Ascii.eqb d ":").
  - destruct (bool_decide _); [done|]. destruct (String.eqb r' ""); [injection H as <- _ _; split; [done|lia]|].
    eapply IH; [exact H|done|lia].
  - eapply IH; [exact H|done|lia].
Qed.

Lemma v6_finish_range r gs : v6_finish r = Some gs → Forall group_ok r.1.1 → (length r.1.1 ≤ 8)%nat →
  Forall group_ok gs ∧ length gs = 8%nat.
Proof.
  destruct r as [[gs0 ell] rest]. cbn [fst]. unfold v6_finish. destruct (negb _); [done|]. intros H Hf Hl.
  destruct (Nat.ltb_spec (length gs0) 8) as [Hlt|].
  - destruct ell as [k|]; [|done]. injection H as <-. split.
    + apply Forall_app. split; [by apply Forall_take|]. apply Forall_app. split; [by apply Forall_replicate|by apply Forall_drop].
    + rewrite !length_app, length_replicate, length_take, length_drop. lia.
  - destruct ell; [done|]. injection H as <-. split; [done|lia].
Qed.

Lemma of_groups_range gs : Forall group_ok gs → length gs = 8%nat → ip_ok (of_groups gs).
Proof.
  intros Hf Hl. unfold of_groups.
  assert (H : ∀ acc, 0 ≤ acc → 0 ≤ foldl (λ acc g, acc * 65536 + g) acc gs < (acc + 1) * 65536 ^ Z.of_nat (length gs)).
  { clear Hl. induction Hf as [|g gs Hg Hf IH]; intros acc Ha; [simpl; lia|]. cbn [foldl length]. unfold group_ok in Hg.
    destruct (IH (acc * 65536 + g) ltac:(lia)) as [H1 H2]. split; [done|]. eapply Z.lt_le_trans; [exact H2|].
    rewrite Nat2Z.inj_succ, Z.pow_succ_r by lia. pose proof (Z.pow_pos_nonneg 65536 (Z.of_nat (length gs)) ltac:(lia) ltac:(lia)). nia. }
  specialize (H 0 ltac:(lia)). rewrite Hl in H. exact H.
Qed.

Lemma parseIPv6_range s ip : parseIPv6 s = Some ip → ip_ok ip.
Proof.
  assert (Hgo : ∀ n t gs ell, Forall group_ok gs → (length gs + n ≤ 8)%nat → ∀ out,
    (r ← v6_groups n t gs ell; v6_finish r) = Some out → ip_ok (of_groups out)).
  { intros n t gs ell Hf Hn out. destruct (v6_groups n t gs ell) as [[[gs' ell'] rest]|] eqn:E; cbn [mbind option_bind]; [|done].
    intros H. destruct (v6_groups_range _ _ _ _ _ _ _ E Hf Hn) as [Hg Hl].
    apply v6_finish_range in H as [Hf' Hl']; [|done..]. by apply of_groups_range. }
  unfold parseIPv6. intros H.
  destruct s as [|c [|d rest]].
  3: destruct (Ascii.eqb c ":" && Ascii.eqb d ":"); [destruct (String.eqb rest ""); [injection H as <-; done|]|].
  all: match type of H with (_ ≫= _) = _ => idtac end;
    match type of H with (?m ≫= _) = _ => destruct m as [out|] eqn:E; cbn [mbind option_bind] in H; [|done] end;
    injection H as <-; (eapply Hgo; [| |exact E]; [done|simpl; lia]).
Qed.

Lemma From4_ok a : 0 ≤ a < 2 ^ 32 → ip_ok (From4 a).
Proof. unfold ip_ok, From4, v4_prefix. lia. Qed.

Lemma ParseAddr_ok s ip bits : ParseAddr s = Some (ip, bits) →
  ip_ok ip ∧ (bits = 32 ∧ (∃ a, To4 ip = Some a) ∨ bits = 128).
Proof.
  unfold ParseAddr. destruct (first_mark s) as [c|]; [|done]. destruct (Ascii.eqb c ".").
  - destruct (parseIPv4 s) as [a|] eqn:E; cbn [mbind option_bind]; [|done]. intros [= <- <-].
    apply parseIPv4_range in E. split; [by apply From4_ok|]. left. split; [done|]. exists a. by apply To4_From4.
  - destruct (_ && _); [|done]. destruct (parseIPv6 s) as [a|] eqn:E; cbn [mbind option_bind]; [|done].
    intros [= <- <-]. split; [by eapply parseIPv6_range|by right].
Qed.
