(* ===== verification/AccessRules.v ===== *)
(** * The list of allowed and denied addresses

    Models [src/internal/ipaccess/rule.go], [matcher.go] and [protected.go]: rules and
    their networks, the index by prefix length, the snapshot that requests are matched
    against, and the addresses that no rule may reject. Fields of a rule that are only
    shown (who made it, its hits) are left out.

    [rules_longest_prefix]: the index finds what a scan over all rules would.
    [NormalizeCIDR_canonical]: what is stored is read back as the network that was
    meant; [mapped_prefix_too_broad] is the way around the shortest prefix allowed. *)
From S2P Require Import Prelude GoModel Strconv NetIP.
From Stdlib Require Import Ascii.

(** ** Rules *)

Definition EffectAllow : string := "allow".
Definition EffectDeny : string := "deny".
Definition SourceManual : string := "manual".
Definition SourceAuto : string := "auto".

Definition MinPrefixLenV4 : Z := 8.
Definition MinPrefixLenV6 : Z := 32.

Record Rule := MkRule {
  ru_ID : string; ru_CIDR : string; ru_Family : Z; ru_Effect : string; ru_Source : string; ru_Reason : string;
  ru_Enabled : bool; ru_ExpiresAt : option Time }.

#[export] Instance Rule_eq_dec : EqDecision Rule.
Proof. solve_decision. Defined.

(** [rule.Active(now)] *)
Definition Active (r : Rule) (now : Time) : bool :=
  ru_Enabled r && match ru_ExpiresAt r with Some e => After e now | None => true end.

Inductive CIDRError := ErrEmptyCIDR | ErrInvalidCIDR | ErrLoopbackCIDR | ErrUnspecifiedCIDR | ErrTooBroad (ones minPrefix family : Z).

Definition ParseEffect (raw : string) : option string :=
  let e := ToLower (TrimSpace raw) in
  if String.eqb e EffectAllow then Some EffectAllow
  else if String.eqb e EffectDeny then Some EffectDeny else None.

(** Brackets and zone of a textual address. *)
Definition bare_address (candidate : string) : string :=
  (split_at (Ascii.eqb "%") (TrimSuffix (TrimPrefix candidate "[") "]")).1.

(** The network of a bare address: a host route. *)
Definition host_route (ip : IP) : IPNet :=
  match To4 ip with Some _ => MkNet ip 32 32 | None => MkNet ip 128 128 end.

Definition entered_network (candidate : string) : option IPNet :=
  let candidate := bare_address candidate in
  if Contains candidate "/" then ParseCIDR candidate else host_route <$> ParseIP candidate.

Definition NormalizeCIDR (raw : string) : CIDRError + string * Z :=
  let candidate := TrimSpace raw in
  if String.eqb candidate "" then inl ErrEmptyCIDR
  else
    match entered_network candidate with
    | None => inl ErrInvalidCIDR
    | Some network =>
        if IsLoopback (nt_IP network) then inl ErrLoopbackCIDR
        else if IsUnspecified (nt_IP network) then inl ErrUnspecifiedCIDR
        else
          let family := if nt_bits network =? 32 then 4 else 6 in
          let minPrefix := if nt_bits network =? 32 then MinPrefixLenV4 else MinPrefixLenV6 in
          if nt_ones network <? minPrefix then inl (ErrTooBroad (nt_ones network) minPrefix family)
          else inr (IPNet_String network, family)
    end.

(** The text and the address of an observed one: [ParseIPForMatch] reads the text again. *)
Definition observed_ip (raw : string) : option IP :=
  let candidate := TrimSpace raw in
  if String.eqb candidate "" then None
  else
    let candidate := match SplitHostPort candidate with Some host => host | None => candidate end in
    ParseIP (TrimSpace (bare_address candidate)).

Definition NormalizeObservedIP (raw : string) : option string := IP_String <$> observed_ip raw.

Definition ParseIPForMatch (raw : string) : option IP :=
  normalized ← NormalizeObservedIP raw; ParseIP normalized.

(** ** The index by prefix length *)

(** The rules of one family: by the ones of the mask and by the network, and the lengths in use. *)
Record family := MkFamily { fy_buckets : gmap Z (gmap Z Rule); fy_lens : list Z }.

Record prefixIndex := MkIndex { px_v4 : family; px_v6 : family }.

Definition newPrefixIndex : prefixIndex := MkIndex (MkFamily ∅ []) (MkFamily ∅ []).

Definition family_add (ones key : Z) (r : Rule) (f : family) : family :=
  match fy_buckets f !! ones with
  | Some bucket => MkFamily (<[ones := <[key := r]> bucket]> (fy_buckets f)) (fy_lens f)
  | None => MkFamily (<[ones := {[key := r]}]> (fy_buckets f)) (fy_lens f ++ [ones])
  end.

Definition index_add (p : prefixIndex) (r : Rule) (network : IPNet) : prefixIndex :=
  if nt_bits network =? 32
  then MkIndex (family_add (nt_ones network) (default 0 (To4 (nt_IP network))) r (px_v4 p)) (px_v6 p)
  else MkIndex (px_v4 p) (family_add (nt_ones network) (nt_IP network) r (px_v6 p)).

Definition seal_family (f : family) : family := MkFamily (fy_buckets f) (sort_by (λ a b, b <? a) (fy_lens f)).
Definition seal (p : prefixIndex) : prefixIndex := MkIndex (seal_family (px_v4 p)) (seal_family (px_v6 p)).

(** The loop over the lengths. *)
Fixpoint family_lookup (lens : list Z) (buckets : gmap Z (gmap Z Rule)) (bits x : Z) : option Rule :=
  match lens with
  | [] => None
  | ones :: lens =>
      match default ∅ (buckets !! ones) !! Z.land x (CIDRMask ones bits) with
      | Some r => Some r
      | None => family_lookup lens buckets bits x
      end
  end.

Definition index_lookup (p : prefixIndex) (ip : IP) : option Rule :=
  match To4 ip with
  | Some v4 => family_lookup (fy_lens (px_v4 p)) (fy_buckets (px_v4 p)) 32 v4
  | None => family_lookup (fy_lens (px_v6 p)) (fy_buckets (px_v6 p)) 128 ip
  end.

(** ** The snapshot *)

(** The type [Decision] of the source. *)
Inductive MatchDecision := DecisionNeutral | DecisionAllow | DecisionDeny.

#[export] Instance MatchDecision_eq_dec : EqDecision MatchDecision.
Proof. solve_decision. Defined.

Record Matcher := MkMatcher { mt_allow : prefixIndex; mt_deny : prefixIndex; mt_lockdown : bool; mt_count : Z }.

Definition matcher_step (now : Time) (m : Matcher) (r : Rule) : Matcher :=
  if ! Active r now then m
  else match ParseCIDR (ru_CIDR r) with
  | None => m
  | Some network =>
      if String.eqb (ru_Effect r) EffectAllow
      then MkMatcher (index_add (mt_allow m) r network) (mt_deny m) (mt_lockdown m) (mt_count m + 1)
      else if String.eqb (ru_Effect r) EffectDeny
      then MkMatcher (mt_allow m) (index_add (mt_deny m) r network) (mt_lockdown m) (mt_count m + 1)
      else m
  end.

Definition NewMatcher (rules : list Rule) (lockdown : bool) (now : Time) : Matcher :=
  let m := foldl (matcher_step now) (MkMatcher newPrefixIndex newPrefixIndex lockdown 0) rules in
  MkMatcher (seal (mt_allow m)) (seal (mt_deny m)) (mt_lockdown m) (mt_count m).

(** [m.Match(ip)]; [None] is a nil address. *)
Definition Match (m : Matcher) (ip : option IP) : MatchDecision * option Rule :=
  match ip with
  | None => (DecisionNeutral, None)
  | Some ip =>
      match index_lookup (mt_allow m) ip with
      | Some r => (DecisionAllow, Some r)
      | None =>
          match index_lookup (mt_deny m) ip with
          | Some r => (DecisionDeny, Some r)
          | None => (if mt_lockdown m then DecisionDeny else DecisionNeutral, None)
          end
      end
  end.

Definition AllowsAddress (m : Matcher) (ip : option IP) : bool :=
  match ip with Some ip => bool_decide (index_lookup (mt_allow m) ip ≠ None) | None => false end.

(** ** Protected addresses *)

Inductive ProtectedReason := ProtectedLoopback | ProtectedLocalAddress | ProtectedTrustedProxy | ProtectedOutboundPeer.

Record ProtectedEntry := MkEntry { pt_CIDR : string; pt_Reason : ProtectedReason; pt_net : IPNet }.

Definition protected_add (reason : ProtectedReason) (set : list ProtectedEntry) (raw : string) : list ProtectedEntry :=
  match NormalizeCIDR raw with
  | inl _ => set
  | inr (normalized, _) =>
      if bool_decide (normalized ∈ pt_CIDR <$> set) then set
      else match ParseCIDR normalized with
           | Some network => set ++ [MkEntry normalized reason network]
           | None => set
           end
  end.

Definition buildProtectedSet (localAddresses trustedProxies outboundProxies : list string) : list ProtectedEntry :=
  let set := foldl (protected_add ProtectedLocalAddress) [] localAddresses in
  let set := foldl (protected_add ProtectedTrustedProxy) set trustedProxies in
  let set := foldl (protected_add ProtectedOutboundPeer) set outboundProxies in
  sort_by (λ a b, str_lt (pt_CIDR a) (pt_CIDR b)) set.

Definition protected_match (set : list ProtectedEntry) (ip : option IP) : option ProtectedEntry :=
  match ip with
  | Some ip => List.find (λ e, Contains_ip (pt_net e) ip) set
  | None => None
  end.

(** ** The index is a scan *)

(** A network covers an address of its family. *)
Definition covers (n : IPNet) (ip : IP) : bool :=
  match To4 ip with
  | Some a => (nt_bits n =? 32) && (default 0 (To4 (nt_IP n)) =? Z.land a (CIDRMask (nt_ones n) 32))
  | None => ! (nt_bits n =? 32) && (nt_IP n =? Z.land ip (CIDRMask (nt_ones n) 128))
  end.

(** The rules with an effect that apply now, with the ones of their masks. *)
Definition applies (effect : string) (now : Time) (ip : IP) (r : Rule) : option Z :=
  if Active r now && String.eqb (ru_Effect r) effect then
    match ParseCIDR (ru_CIDR r) with
    | Some n => if covers n ip then Some (nt_ones n) else None
    | None => None
    end
  else None.

(** The most specific of them, the last of several equal ones. *)
Definition prefer (effect : string) (now : Time) (ip : IP) (best : option (Z * Rule)) (r : Rule) : option (Z * Rule) :=
  match applies effect now ip r with
  | Some ones =>
      match best with
      | Some (o, _) => if o <=? ones then Some (ones, r) else best
      | None => Some (ones, r)
      end
  | None => best
  end.

Definition family_get (f : family) (ones key : Z) : option Rule := default ∅ (fy_buckets f !! ones) !! key.

Definition family_ok (f : family) : Prop := ∀ ones, ones ∈ fy_lens f ↔ is_Some (fy_buckets f !! ones).

Lemma family_add_ok ones key r f : family_ok f → family_ok (family_add ones key r f).
Proof.
  intros Hf o. unfold family_ok in Hf. unfold family_add. destruct (fy_buckets f !! ones) as [bucket|] eqn:E; cbn [fy_lens fy_buckets].
  - rewrite Hf. destruct (decide (o = ones)) as [->|Hne]; [by rewrite E, lookup_insert_eq|by rewrite lookup_insert_ne].
  - rewrite elem_of_app, Hf, list_elem_of_singleton.
    destruct (decide (o = ones)) as [->|Hne]; [rewrite lookup_insert_eq; naive_solver|].
    rewrite lookup_insert_ne by done. naive_solver.
Qed.

Lemma family_get_add ones key r f o k :
  family_get (family_add ones key r f) o k =
    if decide (o = ones ∧ k = key) then Some r else family_get f o k.
Proof.
  unfold family_get, family_add. destruct (fy_buckets f !! ones) as [bucket|] eqn:E; cbn [fy_buckets];
    (destruct (decide (o = ones)) as [->|Hne]; [rewrite lookup_insert_eq|rewrite lookup_insert_ne by done; case_decide; naive_solver]);
    cbn [default from_option id]; rewrite ?E; cbn [default from_option id];
    (destruct (decide (k = key)) as [->|Hk]; [|]).
  - by rewrite lookup_insert_eq, decide_True.
  - rewrite lookup_insert_ne by done. case_decide; naive_solver.
  - by rewrite lookup_singleton_eq, decide_True.
  - rewrite lookup_singleton_ne by done. rewrite decide_False by naive_solver. done.
Qed.

(** What a family says of an address: the rule of the longest prefix. *)
Definition longest (f : family) (bits x : Z) (best : option (Z * Rule)) : Prop :=
  match best with
  | Some (o, r) => family_get f o (Z.land x (CIDRMask o bits)) = Some r ∧
      ∀ o', o < o' → family_get f o' (Z.land x (CIDRMask o' bits)) = None
  | None => ∀ o, family_get f o (Z.land x (CIDRMask o bits)) = None
  end.

(** One more rule, of the family or not. *)
Lemma longest_add f bits x best ones key r : longest f bits x best →
  longest (family_add ones key r f) bits x
    (if key =? Z.land x (CIDRMask ones bits) then
       match best with Some (o, _) => if o <=? ones then Some (ones, r) else best | None => Some (ones, r) end
     else best).
Proof.
  intros H. destruct (Z.eqb_spec key (Z.land x (CIDRMask ones bits))) as [->|Hk].
  - assert (Hnew : (∀ o', ones < o' → family_get f o' (Z.land x (CIDRMask o' bits)) = None) →
      longest (family_add ones (Z.land x (CIDRMask ones bits)) r f) bits x (Some (ones, r))).
    { intros Hl. split; [by rewrite family_get_add, decide_True|]. intros o' Ho. rewrite family_get_add.
      rewrite decide_False by lia. by apply Hl. }
    destruct best as [[o r']|]; [|by apply Hnew; intros; apply H].
    destruct H as [H1 H2]. destruct (Z.leb_spec o ones) as [Hle|Hlt]; [apply Hnew; intros; apply H2; lia|].
    split; [|intros o' Ho]; rewrite family_get_add, decide_False by lia; auto.
  - assert (E : ∀ o, family_get (family_add ones key r f) o (Z.land x (CIDRMask o bits)) = family_get f o (Z.land x (CIDRMask o bits))).
    { intros o. rewrite family_get_add. rewrite decide_False; [done|]. intros [-> Heq]. by apply Hk. }
    destruct best as [[o r']|]; cbn [longest] in *; [destruct H as [H1 H2]; split|]; intros; rewrite E; auto.
Qed.

(** The loop finds it. *)
Lemma family_lookup_longest f bits x best : family_ok f → longest f bits x best →
  family_lookup (fy_lens (seal_family f)) (fy_buckets (seal_family f)) bits x = snd <$> best.
Proof.
  intros Hf Hb. cbn [seal_family fy_lens fy_buckets].
  set (less := λ a b : Z, b <? a).
  assert (Hs : StronglySorted (not_above less) (sort_by less (fy_lens f))).
  { apply sort_by_sorted; unfold less; intros; zbool; lia. }
  assert (Hin : ∀ o k r, family_get f o k = Some r → o ∈ sort_by less (fy_lens f)).
  { intros o k r Hg. rewrite elem_of_sort_by. apply Hf. unfold family_get in Hg. destruct (fy_buckets f !! o); [done|]. cbn [default from_option] in Hg. by rewrite lookup_empty in Hg. }
  assert (Hgo : ∀ lens, StronglySorted (not_above less) lens → (∀ o r, best = Some (o, r) → o ∈ lens) →
    family_lookup lens (fy_buckets f) bits x = snd <$> best).
  2: { apply Hgo; [done|]. intros o r ->. destruct Hb as [Hb _]. by eapply Hin. }
  clear Hs. intros lens. induction lens as [|o lens IH]; intros Hs Hbest.
  { destruct best as [[o r]|]; [|done]. destruct (proj1 (elem_of_nil o) (Hbest o r eq_refl)). }
  inversion Hs as [|? ? Hs' Hall]; subst. cbn [family_lookup].
  change (default ∅ (fy_buckets f !! o) !! Z.land x (CIDRMask o bits)) with (family_get f o (Z.land x (CIDRMask o bits))).
  destruct (family_get f o (Z.land x (CIDRMask o bits))) as [r|] eqn:E.
  - destruct best as [[o' r']|]; [|by rewrite (Hb o) in E]. destruct Hb as [H1 H2].
    assert (o' ≤ o). { destruct (elem_of_cons lens o' o) as [H _]. destruct (H (Hbest _ _ eq_refl)) as [->|Hi]; [done|].
      pose proof (proj1 (Forall_forall _ _) Hall o' Hi) as Hle. unfold not_above, less in Hle. zbool. lia. }
    destruct (decide (o' < o)) as [Hlt|]; [by rewrite (H2 o Hlt) in E|]. assert (o' = o) as -> by lia. cbn. congruence.
  - apply IH; [done|]. intros o' r' ->. destruct Hb as [H1 _].
    destruct (proj1 (elem_of_cons lens o' o) (Hbest _ _ eq_refl)) as [->|]; [congruence|done].
Qed.

(** The family that answers for an address. *)
Definition index_longest (p : prefixIndex) (ip : IP) (best : option (Z * Rule)) : Prop :=
  match To4 ip with
  | Some a => longest (px_v4 p) 32 a best
  | None => longest (px_v6 p) 128 ip best
  end.

Definition index_ok (p : prefixIndex) : Prop := family_ok (px_v4 p) ∧ family_ok (px_v6 p).

Lemma index_add_ok p r n : index_ok p → index_ok (index_add p r n).
Proof. intros [H1 H2]. unfold index_add. destruct (_ =? _); split; cbn [px_v4 px_v6]; auto using family_add_ok. Qed.

Lemma index_add_longest p r n ip best : index_longest p ip best →
  index_longest (index_add p r n) ip
    (if covers n ip then
       match best with Some (o, _) => if o <=? nt_ones n then Some (nt_ones n, r) else best | None => Some (nt_ones n, r) end
     else best).
Proof.
  unfold index_longest, index_add, covers. intros H.
  destruct (To4 ip) as [a|]; destruct (Z.eqb_spec (nt_bits n) 32) as [|]; cbn [px_v4 px_v6 andb negb]; try done;
    by apply longest_add.
Qed.

Lemma index_lookup_longest p ip best : index_ok p → index_longest p ip best → index_lookup (seal p) ip = snd <$> best.
Proof.
  intros [H1 H2]. unfold index_longest, index_lookup, seal. cbn [px_v4 px_v6].
  destruct (To4 ip); by apply family_lookup_longest.
Qed.

(** The snapshot after some of the rules. *)
Record scanned (m : Matcher) (rules : list Rule) (lockdown : bool) (now : Time) : Prop := {
  sc_ok : index_ok (mt_allow m) ∧ index_ok (mt_deny m);
  sc_lockdown : mt_lockdown m = lockdown;
  sc_allow : ∀ ip, index_longest (mt_allow m) ip (foldl (prefer EffectAllow now ip) None rules);
  sc_deny : ∀ ip, index_longest (mt_deny m) ip (foldl (prefer EffectDeny now ip) None rules)
}.

(** A stored rule is canonical. *)
Definition stored_rule (r : Rule) : Prop := ∀ n, ParseCIDR (ru_CIDR r) = Some n → net_ok n.

Lemma From4_inj a b : From4 a = From4 b → a = b.
Proof. unfold From4. lia. Qed.

Lemma masked_v4 n a : net_ok n → To4 (nt_IP n) = Some a → nt_bits n = 32 ∧ Z.land a (CIDRMask (nt_ones n) 32) = a.
Proof.
  intros [Hip Hb Ho Hm] E. rewrite E in Hb. split; [done|]. rewrite Hb in Hm. unfold Mask in Hm. cbn in Hm. rewrite E in Hm.
  destruct (To4_range _ _ Hip E) as [_ Ei]. rewrite Ei in Hm. by apply From4_inj.
Qed.

Lemma masked_v6 n : net_ok n → To4 (nt_IP n) = None →
  nt_bits n = 128 ∧ Z.land (nt_IP n) (CIDRMask (nt_ones n) 128) = nt_IP n.
Proof. intros [Hip Hb Ho Hm] E. rewrite E in Hb. rewrite Hb in Hm. by split. Qed.

(** Of canonical networks the index and [Contains] say the same. *)
Lemma covers_contains n ip : net_ok n → covers n ip = Contains_ip n ip.
Proof.
  intros Hn. unfold covers, Contains_ip, networkNumberAndMask. destruct (To4 (nt_IP n)) as [b|] eqn:En.
  - destruct (masked_v4 n b Hn En) as [-> Hm]. change (32 =? 32) with true. change (32 =? 128) with false.
    cbv iota. cbn [negb andb default from_option id]. destruct (To4 ip); [by rewrite Hm|done].
  - destruct (masked_v6 n Hn En) as [-> Hm]. change (128 =? 32) with false. change (128 =? 128) with true.
    cbn [negb andb]. destruct (To4 ip); [done|by rewrite Hm].
Qed.

Lemma matcher_step_scanned m rules lockdown now r : stored_rule r → scanned m rules lockdown now →
  scanned (matcher_step now m r) (rules ++ [r]) lockdown now.
Proof.
  intros Hr [[Hok1 Hok2] Hl Ha Hd]. unfold matcher_step.
  assert (Hkeep : (∀ ip, applies EffectAllow now ip r = None) → (∀ ip, applies EffectDeny now ip r = None) →
    scanned m (rules ++ [r]) lockdown now).
  { intros H1 H2. split; [done|done|..]; intros ip; rewrite foldl_snoc; unfold prefer at 1; rewrite ?H1, ?H2; auto. }
  destruct (Active r now) eqn:Eact; cbn [negb]; [|by apply Hkeep; intros ip; unfold applies; rewrite Eact].
  destruct (ParseCIDR (ru_CIDR r)) as [n|] eqn:En;
    [|by apply Hkeep; intros ip; unfold applies; rewrite Eact, En; cbn [andb]; destruct (String.eqb _ _)].
  pose proof (Hr n En) as Hn.
  assert (Hap : ∀ e ip, applies e now ip r = if String.eqb (ru_Effect r) e then if covers n ip then Some (nt_ones n) else None else None).
  { intros e ip. unfold applies. by rewrite Eact, En. }
  destruct (String.eqb_spec (ru_Effect r) EffectAllow) as [Ee|Ne].
  - split; cbn [mt_allow mt_deny mt_lockdown]; [split; [by apply index_add_ok|done]|done|..]; intros ip;
      rewrite foldl_snoc; unfold prefer at 1; rewrite Hap, Ee; [|apply Hd].
    rewrite String.eqb_refl. pose proof (index_add_longest _ r n ip _ (Ha ip)) as H. by destruct (covers n ip).
  - destruct (String.eqb_spec (ru_Effect r) EffectDeny) as [Ee|Ne2].
    + split; cbn [mt_allow mt_deny mt_lockdown]; [split; [done|by apply index_add_ok]|done|..]; intros ip;
        rewrite foldl_snoc; unfold prefer at 1; rewrite Hap, Ee; [apply Ha|].
      rewrite String.eqb_refl. pose proof (index_add_longest _ r n ip _ (Hd ip)) as H. by destruct (covers n ip).
    + apply Hkeep; intros ip; rewrite Hap; by rewrite (proj2 (String.eqb_neq _ _)).
Qed.

Lemma NewMatcher_scanned rules lockdown now : Forall stored_rule rules →
  scanned (foldl (matcher_step now) (MkMatcher newPrefixIndex newPrefixIndex lockdown 0) rules) rules lockdown now.
Proof.
  induction rules as [|r rules IH] using rev_ind; intros Hf.
  - assert (Hok : index_ok newPrefixIndex).
    { split; intros o; cbn [newPrefixIndex px_v4 px_v6 fy_lens fy_buckets]; rewrite lookup_empty; split;
        [by intros ?%elem_of_nil|by intros [? ?]|by intros ?%elem_of_nil|by intros [? ?]]. }
    assert (Hno : ∀ ip, index_longest newPrefixIndex ip None).
    { intros ip. unfold index_longest. destruct (To4 ip); intros o; unfold family_get;
        cbn [newPrefixIndex px_v4 px_v6 fy_buckets]; by rewrite lookup_empty. }
    by split.
  - apply Forall_app in Hf as [Hf Hr]. rewrite foldl_snoc. apply matcher_step_scanned; [by inversion Hr|by apply IH].
Qed.

(** The rules with an effect that apply to an address, by [net.IPNet.Contains]. *)
Definition matching (effect : string) (rules : list Rule) (now : Time) (ip : IP) : list (Z * Rule) :=
  omap (λ r, n ← ParseCIDR (ru_CIDR r);
             if Active r now && String.eqb (ru_Effect r) effect && Contains_ip n ip then Some (nt_ones n, r) else None) rules.

(** The longest prefix of a list; the later of two equal ones. *)
Definition longer (best : option (Z * Rule)) (c : Z * Rule) : option (Z * Rule) :=
  match best with Some b => if b.1 <=? c.1 then Some c else best | None => Some c end.

Definition longest_of (l : list (Z * Rule)) : option Rule := snd <$> foldl longer None l.

Lemma prefer_matching effect rules now ip best : Forall stored_rule rules →
  foldl (prefer effect now ip) best rules = foldl longer best (matching effect rules now ip).
Proof.
  intros Hf. revert best. induction Hf as [|r rules Hr Hf IH]; intros best; [done|].
  unfold matching. cbn [foldl omap list_omap]. rewrite IH. fold (matching effect rules now ip).
  unfold prefer, applies. destruct (ParseCIDR (ru_CIDR r)) as [n|] eqn:En; cbn [mbind option_bind].
  - rewrite <- (covers_contains n ip (Hr n En)).
    destruct (Active r now && String.eqb (ru_Effect r) effect); cbn [andb]; [|done].
    destruct (covers n ip); [|done]. cbn [foldl]. by destruct best as [[o r']|].
  - by destruct (Active r now && _).
Qed.

Lemma longer_some l b : foldl longer (Some b) l ≠ None.
Proof. revert b. induction l as [|c l IH]; intros b; [done|]. cbn [foldl longer]. destruct (_ <=? _); apply IH. Qed.

Lemma longest_of_none l : longest_of l = None ↔ l = [].
Proof.
  unfold longest_of. destruct l as [|c l]; [done|]. cbn [foldl longer].
  pose proof (longer_some l c). by destruct (foldl longer (Some c) l).
Qed.

Lemma Match_longest rules lockdown now ip : Forall stored_rule rules →
  Match (NewMatcher rules lockdown now) (Some ip) =
    match longest_of (matching EffectAllow rules now ip) with
    | Some r => (DecisionAllow, Some r)
    | None =>
        match longest_of (matching EffectDeny rules now ip) with
        | Some r => (DecisionDeny, Some r)
        | None => (if lockdown then DecisionDeny else DecisionNeutral, None)
        end
    end.
Proof.
  intros Hf. destruct (NewMatcher_scanned rules lockdown now Hf) as [[H1 H2] Hl Ha Hd].
  unfold longest_of. rewrite <- !(prefer_matching _ rules now ip None Hf).
  unfold NewMatcher, Match. cbn [mt_allow mt_deny mt_lockdown].
  rewrite (index_lookup_longest _ ip _ H1 (Ha ip)), (index_lookup_longest _ ip _ H2 (Hd ip)), Hl.
  by destruct (snd <$> foldl _ None rules), (snd <$> foldl (prefer EffectDeny now ip) None rules).
Qed.

(** C15: the admission list decides by the longest prefix: of the rules that are in force when the
    snapshot is made, the most specific allow rule that contains the address admits it; without one the
    most specific deny rule rejects it; without either the address is neutral, or rejected under
    lockdown. The index by prefix length, whatever the order of the rules, finds what scanning all of
    them with [net.IPNet.Contains] finds. *)
Theorem rules_longest_prefix rules lockdown now ip : Forall stored_rule rules →
  Match (NewMatcher rules lockdown now) (Some ip) =
    match longest_of (matching EffectAllow rules now ip) with
    | Some r => (DecisionAllow, Some r)
    | None =>
        match longest_of (matching EffectDeny rules now ip) with
        | Some r => (DecisionDeny, Some r)
        | None => (if lockdown then DecisionDeny else DecisionNeutral, None)
        end
    end.
Proof. apply Match_longest. Qed.

Definition two_rules : list Rule :=
  [MkRule "1" "10.0.0.0/8" 4 EffectDeny SourceManual "" true None; MkRule "2" "10.1.2.3/32" 4 EffectAllow SourceManual "" true None].

Lemma two_rules_stored : Forall stored_rule two_rules.
Proof.
  assert (Hok : ∀ n ip ones, n = MkNet ip 32 ones → Mask ip ones 32 = ip → is_Some (To4 ip) → ip_ok ip → 0 ≤ ones ≤ 32 → net_ok n).
  { intros n ip ones -> Hm [a Ha] Hip Ho. split; cbn [nt_IP nt_bits nt_ones]; [done|by rewrite Ha|done|done]. }
  constructor; [|constructor; [|constructor]]; intros n E; vm_compute in E; injection E as <-;
    (eapply Hok; [reflexivity|vm_compute; reflexivity|eexists; vm_compute; reflexivity|by split|lia]).
Qed.

Lemma rules_longest_prefix_witness :
  (Match (NewMatcher two_rules false 0) (ParseIP "10.1.2.3")).1 = DecisionAllow ∧
  (Match (NewMatcher two_rules false 0) (ParseIP "10.1.2.4")).1 = DecisionDeny.
Proof.
  change (ParseIP "10.1.2.3") with (Some (From4 167838211)). change (ParseIP "10.1.2.4") with (Some (From4 167838212)).
  rewrite !(rules_longest_prefix two_rules false 0 _ two_rules_stored). split; vm_compute; reflexivity.
Defined.

Lemma AllowsAddress_matching rules lockdown now ip : Forall stored_rule rules →
  AllowsAddress (NewMatcher rules lockdown now) (Some ip) = bool_decide (matching EffectAllow rules now ip ≠ []).
Proof.
  intros Hf. destruct (NewMatcher_scanned rules lockdown now Hf) as [[H1 _] _ Ha _].
  unfold NewMatcher, AllowsAddress. cbn [mt_allow].
  rewrite (index_lookup_longest _ ip _ H1 (Ha ip)), (prefer_matching _ rules now ip None Hf).
  apply bool_decide_ext. fold (longest_of (matching EffectAllow rules now ip)). by rewrite longest_of_none.
Qed.

(** ** What is stored is what was entered *)

(** A network as [net.ParseCIDR] and [host_route] make it. *)
Record parsed_ok (n : IPNet) : Prop := {
  pk_ip : ip_ok (nt_IP n);
  pk_bits : nt_bits n = 32 ∧ (∃ a, To4 (nt_IP n) = Some a) ∨ nt_bits n = 128;
  pk_ones : 0 ≤ nt_ones n ≤ nt_bits n;
  pk_masked : Mask (nt_IP n) (nt_ones n) (nt_bits n) = nt_IP n
}.

(** With a mask of 4 bytes on an IPv4 network. *)
Definition canonical (n : IPNet) : IPNet :=
  let '(_, bits, ones) := networkNumberAndMask n in MkNet (nt_IP n) bits ones.

Lemma digits_val_nonneg s acc v : digits_val acc s = Some v → 0 ≤ acc → 0 ≤ v.
Proof.
  revert acc. induction s as [|c s IH]; intros acc; cbn [digits_val]; [by intros [= <-]|].
  destruct (is_digit c) eqn:E; [|done]. intros H Ha. pose proof (digit_val_range c E). eapply IH; [exact H|lia].
Qed.

Lemma unsigned_val_nonneg s v : unsigned_val s = Some v → 0 ≤ v.
Proof. destruct s as [|c s]; [done|]. intros H. by eapply digits_val_nonneg. Qed.

Lemma ParseCIDR_parsed s n : ParseCIDR s = Some n → parsed_ok n.
Proof.
  unfold ParseCIDR. destruct (split_at _ s) as [addr [mask|]]; [|done].
  destruct (ParseAddr addr) as [[ip bits]|] eqn:E; cbn [mbind option_bind]; [|done].
  destruct (unsigned_val mask) as [ones|] eqn:Eo; cbn [mbind option_bind]; [|done].
  destruct (Z.ltb_spec bits ones) as [|Hle]; [done|]. intros [= <-]. apply unsigned_val_nonneg in Eo.
  apply ParseAddr_ok in E as [Hip Hb]. unfold Mask. destruct Hb as [[-> [a Ha]]| ->].
  - change (32 =? 32) with true. rewrite Ha. destruct (To4_range ip a Hip Ha) as [Hr _].
    pose proof (mask_range a ones 32 ltac:(lia) Hr) as Hm.
    split; cbn [nt_IP nt_bits nt_ones]; [by apply From4_ok|left; split; [done|]; eexists; by apply To4_From4|done|].
    unfold Mask. change (32 =? 32) with true. rewrite To4_From4 by done. by rewrite mask_idem.
  - change (128 =? 32) with false. split; cbn [nt_IP nt_bits nt_ones]; [by apply mask_range|by right|done|].
    unfold Mask. change (128 =? 32) with false. cbv iota. apply mask_idem.
Qed.

Lemma full_mask x bits : 0 ≤ bits → 0 ≤ x < 2 ^ bits → Z.land x (CIDRMask bits bits) = x.
Proof. intros Hb Hx. rewrite land_mask by lia. rewrite Z.sub_diag. change (2 ^ 0) with 1. rewrite Z.div_1_r. lia. Qed.

Lemma host_route_parsed ip : ip_ok ip → parsed_ok (host_route ip).
Proof.
  intros Hip. unfold host_route. destruct (To4 ip) as [a|] eqn:E.
  - destruct (To4_range ip a Hip E) as [Ha Ei]. split; cbn [nt_IP nt_bits nt_ones]; [done|left; by split; [|exists a]|lia|].
    unfold Mask. change (32 =? 32) with true. rewrite E, full_mask by lia. done.
  - split; cbn [nt_IP nt_bits nt_ones]; [done|by right|lia|]. unfold Mask. change (128 =? 32) with false. cbv iota.
    by apply full_mask.
Qed.

Lemma entered_parsed s n : entered_network s = Some n → parsed_ok n.
Proof.
  unfold entered_network. destruct (Contains _ _); [apply ParseCIDR_parsed|]. unfold ParseIP.
  destruct (ParseAddr _) as [[ip bits]|] eqn:E; [|done]. cbn [fmap option_fmap option_map fst]. intros [= <-].
  apply host_route_parsed. by eapply ParseAddr_ok.
Qed.

(** The ones of a mask of 16 bytes that leaves an IPv4 network. *)
Lemma mapped_ones a ones : 0 ≤ a < 2 ^ 32 → 0 ≤ ones ≤ 128 → Z.land (From4 a) (CIDRMask ones 128) = From4 a →
  96 ≤ ones ∧ Z.land a (CIDRMask (ones - 96) 32) = a.
Proof.
  intros Ha Ho Hm. pose proof (From4_ok a Ha) as Hr. rewrite land_mask in Hm by done.
  assert (Hd : (2 ^ (128 - ones) | From4 a)) by (exists (From4 a / 2 ^ (128 - ones)); lia).
  assert (H96 : 96 ≤ ones).
  { destruct (Z.le_gt_cases 96 ones) as [|Hlt]; [done|exfalso].
    assert (Hd33 : (2 ^ 33 | From4 a)).
    { eapply Z.divide_trans; [|exact Hd]. exists (2 ^ (128 - ones - 33)). rewrite <- Z.pow_add_r by lia. f_equal. lia. }
    destruct Hd33 as [q Hq]. unfold From4, v4_prefix in Hq. lia. }
  split; [done|]. rewrite land_mask by lia. replace (32 - (ones - 96)) with (128 - ones) by lia.
  assert (Hd2 : (2 ^ (128 - ones) | a)).
  { assert (E : a = From4 a - 65535 * 2 ^ 32) by (unfold From4, v4_prefix; lia). rewrite E.
    apply Z.divide_sub_r; [done|]. exists (65535 * 2 ^ (32 - (128 - ones))).
    rewrite <- Z.mul_assoc, <- Z.pow_add_r by lia. do 2 f_equal. lia. }
  destruct Hd2 as [q ->]. rewrite Z.div_mul by (apply Z.pow_nonzero; lia). done.
Qed.

Lemma canonical_ok n : parsed_ok n → net_ok (canonical n).
Proof.
  intros [Hip Hb Ho Hm]. unfold canonical, networkNumberAndMask. destruct (To4 (nt_IP n)) as [a|] eqn:E.
  - destruct (To4_range _ _ Hip E) as [Ha Ei]. destruct Hb as [[Hb _]|Hb]; rewrite Hb in *; cbv iota.
    + change (32 =? 32) with true. cbv iota. split; cbn [nt_IP nt_bits nt_ones]; [done|by rewrite E|done|done].
    + change (128 =? 32) with false. cbv iota.
      assert (Hl : Z.land (From4 a) (CIDRMask (nt_ones n) 128) = From4 a) by (rewrite <- Ei; exact Hm).
      destruct (mapped_ones a _ Ha Ho Hl) as [H96 Hl4]. rewrite Z.max_r by lia.
      split; cbn [nt_IP nt_bits nt_ones]; [done|by rewrite E|lia|]. unfold Mask. change (32 =? 32) with true. cbv iota.
      by rewrite E, Hl4.
  - destruct Hb as [[_ [a Ha]]|Hb]; [congruence|]. split; cbn [nt_IP nt_bits nt_ones]; [done|by rewrite E|by rewrite <- Hb|by rewrite <- Hb].
Qed.

Lemma canonical_same n : networkNumberAndMask (canonical n) = networkNumberAndMask n.
Proof.
  unfold canonical, networkNumberAndMask. destruct (To4 (nt_IP n)) as [a|] eqn:E; cbn [nt_IP nt_bits nt_ones]; rewrite E; done.
Qed.

(** The canonical network has the same text and the same members. *)
Lemma canonical_String n : IPNet_String (canonical n) = IPNet_String n.
Proof. unfold IPNet_String. by rewrite canonical_same. Qed.

Lemma canonical_Contains n ip : Contains_ip (canonical n) ip = Contains_ip n ip.
Proof. unfold Contains_ip. by rewrite canonical_same. Qed.

Lemma NormalizeCIDR_network raw text fam : NormalizeCIDR raw = inr (text, fam) →
  ∃ n, entered_network (TrimSpace raw) = Some n ∧ text = IPNet_String (canonical n) ∧ net_ok (canonical n).
Proof.
  unfold NormalizeCIDR. destruct (String.eqb _ _); [done|].
  destruct (entered_network (TrimSpace raw)) as [n|] eqn:E; [|done].
  destruct (IsLoopback _); [done|]. destruct (IsUnspecified _); [done|].
  destruct (_ <? _); [done|]. intros [= <- _]. exists n. rewrite canonical_String.
  split; [done|]. split; [done|]. apply canonical_ok, (entered_parsed _ n E).
Qed.

(** C20: an entered address or block is stored under one name for each network. The stored text is that
    of a network with all its host bits cleared, it is read back as that network, which contains exactly
    the addresses of the one that was entered; and two entries, however they are written, are stored
    under the same text exactly when their networks are the same once host bits are cleared and
    IPv4 in IPv6 notation is taken for IPv4. So no two rows describe the same network. *)
Theorem NormalizeCIDR_canonical raw text fam raw' text' fam' :
  NormalizeCIDR raw = inr (text, fam) → NormalizeCIDR raw' = inr (text', fam') →
  ∃ entered stored entered', entered_network (TrimSpace raw) = Some entered ∧ entered_network (TrimSpace raw') = Some entered' ∧
    ParseCIDR text = Some stored ∧ text = IPNet_String stored ∧ net_ok stored ∧
    (∀ ip, Contains_ip stored ip = Contains_ip entered ip) ∧
    (text' = text ↔ canonical entered' = canonical entered).
Proof.
  intros (n & E & -> & Hok)%NormalizeCIDR_network (n' & E' & -> & Hok')%NormalizeCIDR_network.
  exists n, (canonical n), n'. pose proof (ParseCIDR_String _ Hok) as Hr. pose proof (ParseCIDR_String _ Hok') as Hr'.
  split_and!; [done..|apply canonical_Contains|]. split; [intros Et; rewrite Et in Hr'; congruence|by intros ->].
Qed.

(** A block with host bits and the same network in IPv6 notation. *)
Lemma NormalizeCIDR_canonical_witness : ∃ entered stored entered',
  entered_network (TrimSpace " 1.2.3.5/24 ") = Some entered ∧ entered_network (TrimSpace "::ffff:1.2.3.9/120") = Some entered' ∧
  ParseCIDR "1.2.3.0/24" = Some stored ∧ "1.2.3.0/24"%string = IPNet_String stored ∧ net_ok stored ∧
  (∀ ip, Contains_ip stored ip = Contains_ip entered ip) ∧
  ("1.2.3.0/24" = "1.2.3.0/24" ↔ canonical entered' = canonical entered)%string.
Proof.
  apply (NormalizeCIDR_canonical " 1.2.3.5/24 " "1.2.3.0/24" 4 "::ffff:1.2.3.9/120" "1.2.3.0/24" 6); vm_compute; reflexivity.
Defined.

(** A block of half of all IPv4 addresses is refused, unless it is written as IPv6. *)
Lemma mapped_prefix_too_broad :
  NormalizeCIDR "128.0.0.0/1" = inl (ErrTooBroad 1 MinPrefixLenV4 4) ∧
  NormalizeCIDR "::ffff:128.0.0.0/97" = inr ("128.0.0.0/1"%string, 6).
Proof. split; vm_compute; reflexivity. Qed.
