(* ===== verification/ClientAddress.v ===== *)
(** * Where a request comes from

    Models [src/internal/ipaccess/forwarded.go], [trust.go] and
    [src/internal/util/client_ip.go]: the address of a client is read from the connection,
    and from the headers that reverse proxies add as far as declared proxies vouch for
    them.

    [through]: what a row of reverse proxies makes of the headers of a client.
    [forged_hops_ignored]: behind proxies that set or drop [X-Real-IP] and drop [Forwarded]
    nothing a client writes into its headers changes the address it gets.
    [local_operator_direct]: the exemption of the local operator needs a direct connection.
    [forwarded_header_forges], [documented_proxy_forged], [real_ip_forges] and
    [relayed_local_operator] are ways around them. *)
From S2P Require Import Prelude GoModel Strconv NetIP AccessRules.
From Stdlib Require Import Ascii.

(** ** Requests *)

(** What the package reads of [http.Request]. *)
Record Request := MkRequest { rq_RemoteAddr : string; rq_Header : Header }.

(** [h.Values(key)] *)
Definition header_Values (h : Header) (key : string) : list string := default [] (h !! canonical_from true key).

(** ** Headers of relays ([client_ip.go]) *)

Definition quote_byte : ascii := ascii_of_nat 34.

Definition normalizeIPCandidate (candidate : string) : string :=
  let candidate := TrimByte quote_byte (TrimSpace candidate) in
  if (String.eqb candidate "" || EqualFold candidate "unknown") then ""
  else
    let candidate :=
      if (HasPrefix candidate "[" && Contains candidate "]") then
        match IndexByte "]" candidate with Some e => slice candidate 1 e | None => candidate end
      else default candidate (SplitHostPort candidate) in
    match ParseIP (TrimSpace candidate) with Some ip => IP_String ip | None => "" end.

(** The first text of a list that is not empty. *)
Definition first_text (l : list string) : string := default "" (List.find (λ s, ! String.eqb s "") l).

Definition firstHeaderIP (h : Header) (header : string) : string :=
  first_text (normalizeIPCandidate <$> (header_Values h header ≫= SplitByte ",")).

Definition forwarded_part (part : string) : string :=
  match split_at (Ascii.eqb "=") part with
  | (key, Some rawValue) => if EqualFold (TrimSpace key) "for" then normalizeIPCandidate rawValue else ""
  | (_, None) => ""
  end.

Definition forwardedHeaderIP (h : Header) : string :=
  first_text (forwarded_part <$> ((header_Values h "Forwarded" ≫= SplitByte ",") ≫= SplitByte ";")).

(** [None] is a nil request. *)
Definition ForwardedClientIP (req : option Request) : string * string :=
  match req with
  | None => ("", "")
  | Some req =>
      let h := rq_Header req in
      match List.find (λ header, ! String.eqb (firstHeaderIP h header) "")
              ["CF-Connecting-IP"; "True-Client-IP"; "X-Real-IP"; "X-Forwarded-For"] with
      | Some header => (firstHeaderIP h header, header)
      | None =>
          let ip := forwardedHeaderIP h in
          if String.eqb ip "" then ("", "") else (ip, "Forwarded"%string)
      end
  end.

Definition relayIndicationHeaders : list string := canonical_from true <$>
  ["Forwarded"; "Via"; "X-Forwarded-For"; "X-Forwarded-Host"; "X-Forwarded-Port"; "X-Forwarded-Proto";
   "X-Forwarded-Server"; "X-Original-Forwarded-For"; "X-Real-IP"; "X-Client-IP"; "X-Cluster-Client-IP";
   "CF-Connecting-IP"; "CF-Connecting-IPv6"; "CF-Ray"; "True-Client-IP"; "Fastly-Client-IP";
   "X-Envoy-External-Address"; "X-Envoy-Internal"; "X-Azure-ClientIP"; "X-Azure-SocketIP"].

(** A header with a value that is not blank, the first of a list; [""] when there is none. *)
Definition present (h : Header) (header : string) : bool :=
  existsb (λ value, ! String.eqb (TrimSpace value) "") (header_Values h header).
Definition first_present (headers : list string) (h : Header) : string := default "" (List.find (present h) headers).

Definition firstRelayIndicationHeader (h : Header) : string := first_present relayIndicationHeaders h.

Definition RemoteAddrIP (remoteAddr : string) : string :=
  let remoteAddr := TrimSpace remoteAddr in
  if String.eqb remoteAddr "" then ""
  else normalizeIPCandidate (default remoteAddr (SplitHostPort remoteAddr)).

Definition IsLocalOriginRequest (req : option Request) : bool :=
  match req with
  | None => false
  | Some req =>
      match ParseIP (RemoteAddrIP (rq_RemoteAddr req)) with
      | Some peer => IsLoopback peer && String.eqb (firstRelayIndicationHeader (rq_Header req)) ""
      | None => false
      end
  end.

(** ** Addresses of clients ([trust.go]) *)

Record ClientAddress := MkAddress {
  ca_Peer : string; ca_DirectPeer : bool; ca_Chain : list string; ca_IP : option IP; ca_Raw : string;
  ca_Trusted : bool; ca_RelayHeader : string }.

Definition no_address : ClientAddress := MkAddress "" false [] None "" false "".

Definition ProxyTrustConfigured (trustedProxies : list string) : bool :=
  existsb (λ proxy, ! String.eqb (TrimSpace proxy) "") trustedProxies.

Definition Loopback (a : ClientAddress) : bool := match ca_IP a with Some ip => IsLoopback ip | None => false end.

Definition LocalOperator (a : ClientAddress) : bool := ca_DirectPeer a && Loopback a.

Definition Resolve (req : option Request) (resolvedIP : string) (proxyTrustConfigured : bool) : ClientAddress :=
  let relay := match req with Some req => firstRelayIndicationHeader (rq_Header req) | None => "" end in
  let candidate := TrimSpace resolvedIP in
  let candidate :=
    match req with
    | Some req => if String.eqb candidate "" then RemoteAddrIP (rq_RemoteAddr req) else candidate
    | None => candidate
    end in
  let '(raw, ip) :=
    match NormalizeObservedIP candidate with
    | Some normalized => (normalized, ParseIP normalized)
    | None => (candidate, None)
    end in
  let trusted := bool_decide (ip ≠ None) && ! (! String.eqb relay "" && ! proxyTrustConfigured) in
  MkAddress "" false [] ip raw trusted relay.

(** ** The forwarding chain ([forwarded.go]) *)

Definition forwardedHeaders : list string := ["X-Forwarded-For"; "X-Real-IP"; "Forwarded"].

Abbreviation trustedProxyMatcher := (list IPNet) (only parsing).

Definition trusted_network (raw : string) : option IPNet :=
  let trimmed := TrimSpace raw in
  if String.eqb trimmed "" then None
  else if ! Contains trimmed "/" then host_route <$> ParseIP trimmed
  else ParseCIDR trimmed.

Definition newTrustedProxyMatcher (cidrs : list string) : trustedProxyMatcher := omap trusted_network cidrs.

Definition configured (m : trustedProxyMatcher) : bool := (0 <? length m)%nat.

Definition trusts (m : trustedProxyMatcher) (ip : IP) : bool := existsb (λ network, Contains_ip network ip) m.

Definition hostOnly (raw : string) : string :=
  let candidate := TrimSpace raw in
  if String.eqb candidate "" then ""
  else TrimSpace (bare_address (default candidate (SplitHostPort candidate))).

Definition extractForwardedFor (directive : string) : string :=
  match List.find (λ token, HasPrefix (ToLower token) "for=") (TrimSpace <$> SplitByte ";" directive) with
  | Some token =>
      let quote := String quote_byte "" in TrimSuffix (TrimPrefix (str_from 4 token) quote) quote
  | None => ""
  end.

(** The hop of one part of a value. *)
Definition parse_hop (header part : string) : option string :=
  let candidate := TrimSpace part in
  if String.eqb candidate "" then None
  else if String.eqb header "Forwarded" then
    let candidate := extractForwardedFor candidate in
    if String.eqb candidate "" then None else Some (hostOnly candidate)
  else Some (hostOnly candidate).

Definition parseForwardedHeader (h : Header) (header : string) : list string :=
  omap (parse_hop header) (header_Values h header ≫= SplitByte ",").

Definition collectForwardedChain (h : Header) : list string := forwardedHeaders ≫= parseForwardedHeader h.

Definition firstForwardedHeader (h : Header) : string := first_present forwardedHeaders h.

(** The inner loop: the hops of one header from the right, the first that no proxy vouched for. *)
Fixpoint walk_hops (m : trustedProxyMatcher) (hops : list string) : option IP :=
  match hops with
  | [] => None
  | hop :: hops =>
      match ParseIP hop with
      | None => walk_hops m hops
      | Some ip => if trusts m ip then walk_hops m hops else Some ip
      end
  end.

(** The outer loop, over the headers from the last one. *)
Fixpoint walk_headers (m : trustedProxyMatcher) (h : Header) (headers : list string) : option IP :=
  match headers with
  | [] => None
  | header :: headers =>
      match walk_hops m (reverse (parseForwardedHeader h header)) with
      | Some ip => Some ip
      | None => walk_headers m h headers
      end
  end.

Definition resolveForwarded (req : Request) (m : trustedProxyMatcher) : ClientAddress :=
  let h := rq_Header req in
  let relay := firstForwardedHeader h in
  let chain := collectForwardedChain h in
  let direct := String.eqb relay "" in
  let peerText := hostOnly (rq_RemoteAddr req) in
  let addr trusted := MkAddress peerText direct chain (ParseIP peerText) peerText trusted relay in
  match ParseIP peerText with
  | None => addr false
  | Some peer =>
      if ! trusts m peer then addr (! (! String.eqb relay "" && ! configured m))
      else
        match walk_headers m h (reverse forwardedHeaders) with
        | Some ip => MkAddress peerText false chain (Some ip) (IP_String ip) (! IsLoopback ip) relay
        | None => addr false
        end
  end.

(** ** The walk over the chain *)

(** The first hop of a chain, from the right, that is an address and no proxy vouches for. *)
Definition client_hop (m : trustedProxyMatcher) (chain : list string) : option IP := walk_hops m (reverse chain).

Lemma walk_hops_app m a b : walk_hops m (a ++ b) = match walk_hops m a with Some ip => Some ip | None => walk_hops m b end.
Proof.
  induction a as [|hop a IH]; [done|]. cbn [app walk_hops]. destruct (ParseIP hop) as [ip|]; [|done].
  by destruct (trusts m ip).
Qed.

Lemma walk_headers_chain m h headers :
  walk_headers m h headers = walk_hops m (headers ≫= λ header, reverse (parseForwardedHeader h header)).
Proof.
  induction headers as [|header headers IH]; [done|]. cbn [walk_headers mbind list_bind]. by rewrite walk_hops_app, <- IH.
Qed.

Lemma reverse_bind {A B} (f : A → list B) l : reverse (l ≫= f) = (reverse l ≫= λ x, reverse (f x)).
Proof.
  induction l as [|x l IH]; [done|]. cbn [mbind list_bind]. rewrite reverse_app, reverse_cons, bind_app, IH.
  cbn [mbind list_bind]. by rewrite app_nil_r.
Qed.

(** Both loops together read the chain from the right. *)
Lemma walk_headers_client m h : walk_headers m h (reverse forwardedHeaders) = client_hop m (collectForwardedChain h).
Proof. unfold client_hop, collectForwardedChain. by rewrite walk_headers_chain, reverse_bind. Qed.

(** ** The text of addresses in headers *)

Lemma IP_String_chars ip : ip_ok ip → all_chars addr_char (IP_String ip) = true.
Proof.
  intros Hip. unfold IP_String. destruct (To4 ip) as [a|] eqn:E; [by apply v4_String_chars; apply (To4_range ip)|].
  apply v6_String_chars, groups_ok.
Qed.

Lemma addr_spaceless s : all_chars addr_char s = true → spaceless s = true.
Proof. apply all_chars_impl. by intros [[] [] [] [] [] [] [] []]. Qed.

Lemma TrimSpace_addr ip : ip_ok ip → TrimSpace (IP_String ip) = IP_String ip.
Proof. intros Hip. by apply spaceless_TrimSpace, addr_spaceless, IP_String_chars. Qed.

Lemma IP_String_nonempty ip : ip_ok ip → IP_String ip ≠ "".
Proof. intros Hip E. pose proof (ParseIP_String ip Hip) as H. rewrite E in H. discriminate H. Qed.

(** A byte that is not of an address. *)
Lemma addr_without c s : addr_char c = false → all_chars addr_char s = true → all_chars (λ d, ! Ascii.eqb c d) s = true.
Proof. intros Hc. apply all_chars_impl. intros d Hd. destruct (Ascii.eqb_spec c d) as [->|]; [congruence|done]. Qed.

Lemma split_at_without c s : all_chars (λ d, ! Ascii.eqb c d) s = true → split_at (Ascii.eqb c) s = (s, None).
Proof.
  induction s as [|d s IH]; [done|]. cbn [all_chars split_at]. intros [Hd Hs]%andb_true_iff. rewrite (IH Hs).
  by destruct (Ascii.eqb c d).
Qed.

(** An address has no port: it has no colon or more than one. *)
Definition with_byte (c : ascii) (s : string) : Prop := ∃ a b, s = a +:+ String c b.

Lemma LastIndexByte_with c s : with_byte c s → ∃ i, LastIndexByte s c = Some i.
Proof.
  intros (a & b & ->). induction a as [|d a [i IH]].
  - rewrite str_app_nil_l. cbn [LastIndexByte]. rewrite Ascii.eqb_refl. destruct (LastIndexByte b c); eauto.
  - rewrite str_app_cons. cbn [LastIndexByte]. rewrite IH. eauto.
Qed.

Lemma last_of_two a t : with_byte ":" t →
  ∃ i, LastIndexByte (a +:+ String ":" t) ":" = Some i ∧ Contains (str_to i (a +:+ String ":" t)) ":" = true.
Proof.
  intros Ht. induction a as [|d a (i & E & IH)].
  - destruct (LastIndexByte_with _ _ Ht) as [i E]. exists (S i). rewrite str_app_nil_l. cbn [LastIndexByte]. rewrite E.
    split; [done|]. unfold str_to. by destruct (String.substring 0 i t) eqn:Es; cbn [String.substring]; rewrite Es.
  - exists (S i). rewrite str_app_cons. cbn [LastIndexByte]. rewrite E. split; [done|].
    unfold str_to in *. cbn [String.substring Contains]. by rewrite IH, orb_true_r.
Qed.

Lemma LastIndexByte_none c s : all_chars (λ d, ! Ascii.eqb c d) s = true → LastIndexByte s c = None.
Proof.
  induction s as [|d s IH]; [done|]. cbn [all_chars LastIndexByte]. intros [Hd Hs]%andb_true_iff. rewrite (IH Hs).
  by destruct (Ascii.eqb c d).
Qed.

Lemma no_bracket s : all_chars addr_char s = true → HasPrefix s "[" = false ∧ HasSuffix s "]" = false.
Proof.
  intros Hs. split; apply not_true_iff_false; [intros [r Hr]%HasPrefix_iff|intros [r Hr]%HasSuffix_iff];
    rewrite Hr, all_chars_app in Hs; apply andb_true_iff in Hs as [H1 H2]; discriminate.
Qed.

Lemma join_with_colon g g' gs : with_byte ":" (join_groups (g :: g' :: gs)).
Proof. exists (hex_String g), (join_groups (g' :: gs)). by rewrite join_groups_cons. Qed.

Lemma v6_two_colons gs : length gs = 8%nat → ∃ a t, v6_String gs = a +:+ String ":" t ∧ with_byte ":" t.
Proof.
  intros Hl. unfold v6_String. destruct (longest_run gs) as [start l]. destruct (l =? 0)%nat.
  - do 3 (destruct gs as [|? gs]; [done|]). eexists (hex_String _), _. split; [by rewrite join_groups_cons|].
    apply join_with_colon.
  - exists (join_groups (take start gs)), (String ":" (join_groups (drop (start + l) gs))). split; [done|].
    by exists "", (join_groups (drop (start + l) gs)).
Qed.

Lemma Itoa_no_colon b : 0 ≤ b < 256 → all_chars (λ d, ! Ascii.eqb ":" d) (Itoa b) = true.
Proof.
  intros Hb. eapply all_chars_impl; [|by apply Itoa_byte_chars]. intros d Hd.
  destruct (Ascii.eqb_spec ":" d) as [<-|]; [discriminate Hd|done].
Qed.

Lemma SplitHostPort_addr ip : ip_ok ip → SplitHostPort (IP_String ip) = None.
Proof.
  intros Hip. pose proof (IP_String_chars ip Hip) as Hc. destruct (no_bracket _ Hc) as [Hb _].
  unfold SplitHostPort. unfold IP_String in *. destruct (To4 ip) as [a|] eqn:E.
  - rewrite LastIndexByte_none; [done|]. unfold v4_String. destruct (To4_range ip a Hip E) as [Ha _].
    destruct (byte_ranges a Ha) as (H3 & H2 & H1 & H0).
    rewrite !all_chars_app, !Itoa_no_colon by done. done.
  - destruct (v6_two_colons (groups ip) (proj1 (groups_ok ip))) as (a & t & Es & Ht).
    destruct (last_of_two a t Ht) as (i & Ei & Hi). rewrite <- Es in Ei, Hi. rewrite Ei, Hi.
    destruct (v6_String (groups ip)) as [|c s]; [done|]. cbn in Hb. by destruct c as [[] [] [] [] [] [] [] []].
Qed.

Lemma bare_address_addr ip : ip_ok ip → bare_address (IP_String ip) = IP_String ip.
Proof.
  intros Hip. pose proof (IP_String_chars ip Hip) as Hc. destruct (no_bracket _ Hc) as [Hp Hs].
  unfold bare_address, TrimPrefix. rewrite Hp. unfold TrimSuffix. rewrite Hs.
  by rewrite split_at_without by (by apply addr_without).
Qed.

(** An address alone, as proxies write it. *)
Lemma hostOnly_addr ip : ip_ok ip → hostOnly (IP_String ip) = IP_String ip.
Proof.
  intros Hip. unfold hostOnly. rewrite TrimSpace_addr by done.
  rewrite (proj2 (String.eqb_neq _ _)) by (by apply IP_String_nonempty).
  rewrite SplitHostPort_addr by done. cbn [default from_option]. rewrite bare_address_addr by done. by apply TrimSpace_addr.
Qed.

Lemma parse_hop_addr header ip : header ≠ "Forwarded"%string → ip_ok ip → parse_hop header (IP_String ip) = Some (IP_String ip).
Proof.
  intros Hh Hip. unfold parse_hop. rewrite TrimSpace_addr by done.
  rewrite (proj2 (String.eqb_neq _ _)) by (by apply IP_String_nonempty). rewrite (proj2 (String.eqb_neq _ _)) by done.
  by rewrite hostOnly_addr.
Qed.

Lemma parse_hop_space header part : parse_hop header (String " " part) = parse_hop header part.
Proof. done. Qed.

(** ** Proxies in front *)

Abbreviation value_hops header value := (omap (parse_hop header) (SplitByte "," value)).

Lemma value_hops_app header a b : value_hops header (a +:+ String "," (String " " b)) = value_hops header a ++ value_hops header b.
Proof.
  rewrite SplitByte_app, omap_app. f_equal. cbn [SplitByte]. change (Ascii.eqb "," " ") with false. cbn [andb].
  destruct (SplitByte_cons "," b) as (x & xs & ->). cbn [omap list_omap]. by rewrite parse_hop_space.
Qed.

Lemma value_hops_addr header ip : header ≠ "Forwarded"%string → ip_ok ip → value_hops header (IP_String ip) = [IP_String ip].
Proof.
  intros Hh Hip. rewrite SplitByte_without by (by apply addr_without, IP_String_chars). cbn [omap list_omap]. by rewrite parse_hop_addr.
Qed.

(** What reverse proxies are documented to do. How one adds the address of its peer to
    [X-Forwarded-For]: to all lines joined into one ([$proxy_add_x_forwarded_for] of nginx), in a line of
    its own, or to the last line; and what it does with [X-Real-IP] and [Forwarded]. *)
Inductive ChainMode := JoinLines | NewLine | LastLine.
Inductive RealMode := RealSet | RealDrop | RealKeep.
Record ProxyConfig := MkProxy { px_Chain : ChainMode; px_Real : RealMode; px_DropForwarded : bool }.

Definition append_hop (received : string) (peer : IP) : string :=
  if String.eqb received "" then IP_String peer else received +:+ ", " +:+ IP_String peer.

Fixpoint join_lines (lines : list string) : string :=
  match lines with [] => "" | [line] => line | line :: lines => line +:+ ", " +:+ join_lines lines end.

Definition chain_lines (mode : ChainMode) (lines : list string) (peer : IP) : list string :=
  match mode with
  | JoinLines => [append_hop (join_lines lines) peer]
  | NewLine => lines ++ [IP_String peer]
  | LastLine => take (length lines - 1) lines ++ [append_hop (default "" (last lines)) peer]
  end.

Definition forward (c : ProxyConfig) (peer : IP) (h : Header) : Header :=
  let h := <["X-Forwarded-For" := chain_lines (px_Chain c) (header_Values h "X-Forwarded-For") peer]> h in
  let h := match px_Real c with RealSet => <["X-Real-Ip" := [IP_String peer]]> h | RealDrop => delete "X-Real-Ip" h | RealKeep => h end in
  if px_DropForwarded c then delete "Forwarded" h else h.

(** A request of [peer] on its way through a row of proxies with their addresses: the address that
    the connection to the server comes from, and the headers it gets. *)
Fixpoint through (peer : IP) (row : list (ProxyConfig * IP)) (h : Header) : IP * Header :=
  match row with
  | [] => (peer, h)
  | (c, ip) :: row => through ip row (forward c peer h)
  end.

Lemma append_hop_hops header received peer : header ≠ "Forwarded"%string → ip_ok peer →
  value_hops header (append_hop received peer) = value_hops header received ++ [IP_String peer].
Proof.
  intros Hh Hip. unfold append_hop. destruct (String.eqb_spec received "") as [->|_]; [by rewrite value_hops_addr|].
  change (", " +:+ IP_String peer) with (String "," (String " " (IP_String peer))). by rewrite value_hops_app, value_hops_addr.
Qed.

Abbreviation lines_hops header lines := (omap (parse_hop header) (lines ≫= SplitByte ",")).

Lemma lines_hops_cons header line lines : lines_hops header (line :: lines) = value_hops header line ++ lines_hops header lines.
Proof. cbn [mbind list_bind]. by rewrite omap_app. Qed.

Lemma join_lines_hops header lines : value_hops header (join_lines lines) = lines_hops header lines.
Proof.
  induction lines as [|line [|line' lines] IH]; [done|by rewrite lines_hops_cons, app_nil_r|].
  rewrite lines_hops_cons, <- IH. change (", " +:+ ?s) with (String "," (String " " s)). exact (value_hops_app header line (join_lines (line' :: lines))).
Qed.

(** However it is written, the chain has one more hop. *)
Lemma chain_lines_hops header mode lines peer : header ≠ "Forwarded"%string → ip_ok peer →
  lines_hops header (chain_lines mode lines peer) = lines_hops header lines ++ [IP_String peer].
Proof.
  intros Hh Hip. destruct mode; cbn [chain_lines].
  - rewrite lines_hops_cons, append_hop_hops, join_lines_hops by done. cbn [mbind list_bind omap list_omap]. by rewrite app_nil_r.
  - rewrite bind_app, omap_app. f_equal. by rewrite lines_hops_cons, value_hops_addr.
  - rewrite bind_app, omap_app, lines_hops_cons, append_hop_hops by done. cbn [mbind list_bind omap list_omap]. rewrite app_nil_r, app_assoc. f_equal.
    destruct lines as [|line lines _] using rev_ind; [done|]. rewrite last_snoc, length_app. cbn [length default from_option id].
    rewrite Nat.add_sub, take_app_length, bind_app, omap_app, lines_hops_cons. cbn [mbind list_bind omap list_omap]. by rewrite app_nil_r.
Qed.

Lemma header_Values_insert_ne h key key' vs : key ≠ canonical_from true key' → header_Values (<[key := vs]> h) key' = header_Values h key'.
Proof. intros H. unfold header_Values. by rewrite lookup_insert_ne. Qed.

Lemma header_Values_delete_ne h key key' : key ≠ canonical_from true key' → header_Values (delete key h) key' = header_Values h key'.
Proof. intros H. unfold header_Values. by rewrite lookup_delete_ne. Qed.

Lemma forward_chain c peer h : ip_ok peer →
  parseForwardedHeader (forward c peer h) "X-Forwarded-For" = parseForwardedHeader h "X-Forwarded-For" ++ [IP_String peer].
Proof.
  intros Hip. unfold parseForwardedHeader.
  rewrite <- (chain_lines_hops "X-Forwarded-For" (px_Chain c) (header_Values h "X-Forwarded-For") peer) by done. do 2 f_equal.
  unfold forward. destruct (px_Real c), (px_DropForwarded c);
    rewrite ?header_Values_delete_ne, ?header_Values_insert_ne, ?header_Values_delete_ne by discriminate;
    unfold header_Values at 1; change (canonical_from true "X-Forwarded-For") with "X-Forwarded-For"%string; by rewrite lookup_insert_eq.
Qed.

Lemma forward_real c peer h : parseForwardedHeader (forward c peer h) "X-Real-IP" =
  match px_Real c with RealSet => omap (parse_hop "X-Real-IP") (SplitByte "," (IP_String peer)) | RealDrop => [] | RealKeep => parseForwardedHeader h "X-Real-IP" end.
Proof.
  unfold forward, parseForwardedHeader. destruct (px_Real c), (px_DropForwarded c); unfold header_Values;
    change (canonical_from true "X-Real-IP") with "X-Real-Ip"%string; try rewrite (lookup_delete_ne _ "Forwarded"%string) by discriminate;
    repeat first [rewrite lookup_insert_eq|rewrite lookup_delete_eq|rewrite lookup_insert_ne by discriminate];
    cbn [default from_option id mbind list_bind]; by rewrite ?app_nil_r.
Qed.

Lemma forward_forwarded c peer h : parseForwardedHeader (forward c peer h) "Forwarded" =
  if px_DropForwarded c then [] else parseForwardedHeader h "Forwarded".
Proof.
  unfold forward, parseForwardedHeader. destruct (px_Real c), (px_DropForwarded c); unfold header_Values;
    change (canonical_from true "Forwarded") with "Forwarded"%string;
    repeat first [rewrite lookup_delete_eq|rewrite lookup_delete_ne by discriminate|rewrite lookup_insert_ne by discriminate]; done.
Qed.

Section walks.
Context (m : trustedProxyMatcher).

Definition proxy (ip : IP) : Prop := ip_ok ip ∧ trusts m ip = true.

Lemma walk_proxies peers rest : Forall proxy peers → walk_hops m ((IP_String <$> peers) ++ rest) = walk_hops m rest.
Proof.
  induction 1 as [|peer peers [Hip Ht] Hp IH]; [done|]. cbn [fmap list_fmap app walk_hops].
  by rewrite ParseIP_String, Ht.
Qed.

Lemma walk_client client peers rest : ip_ok client → trusts m client = false → Forall proxy peers →
  walk_hops m ((IP_String <$> peers) ++ IP_String client :: rest) = Some client.
Proof. intros Hc Ht Hp. rewrite walk_proxies by done. cbn [walk_hops]. by rewrite ParseIP_String, Ht. Qed.

Definition known_hop (client : IP) (hop : string) : Prop := ∃ ip, hop = IP_String ip ∧ (ip = client ∨ proxy ip).

(** Hops that name the client or proxies only name the client, if anyone. *)
Lemma walk_known client hops : ip_ok client → trusts m client = false →
  Forall (known_hop client) hops →
  walk_hops m hops = None ∨ walk_hops m hops = Some client.
Proof.
  intros Hc Ht. induction 1 as [|hop hops (ip & -> & [->|[Hip Hp]]) Hh IH]; [by left|..]; cbn [walk_hops];
    rewrite ParseIP_String by done; [by rewrite Ht; right|by rewrite Hp].
Qed.

(** The hops that the headers have gained behind a row of proxies. *)
Lemma through_chain peer row h : ip_ok peer → Forall (λ p, proxy p.2) row →
  ∃ proxies, Forall proxy proxies ∧
    parseForwardedHeader (through peer row h).2 "X-Forwarded-For" = parseForwardedHeader h "X-Forwarded-For" ++
      match row with [] => [] | _ => IP_String <$> peer :: proxies end.
Proof.
  intros Hip Hrow. revert peer h Hip. induction Hrow as [|[c ip] row Hp _ IH]; intros peer h Hip.
  { exists []. split; [done|]. by rewrite app_nil_r. }
  cbn [through]. destruct (IH ip (forward c peer h) (proj1 Hp)) as (proxies & Hps & ->). rewrite forward_chain by done.
  rewrite <- app_assoc. destruct row; [by exists []|]. exists (ip :: proxies). by split; [constructor|].
Qed.

Lemma through_last peer row h : row ≠ [] → Forall (λ p, proxy p.2) row → proxy (through peer row h).1.
Proof.
  intros Hne Hrow. revert peer h. induction Hrow as [|[c ip] [|p row] Hp Hrow IH]; intros peer h; [done|done|by apply IH].
Qed.

(** [X-Real-IP] names the client or proxies, if anyone, once a proxy has set or dropped it. *)
Lemma through_real client peer row h : ip_ok client → peer = client ∨ proxy peer → Forall (λ p, proxy p.2) row →
  Forall (known_hop client) (parseForwardedHeader h "X-Real-IP") ∨ Exists (λ p, px_Real p.1 ≠ RealKeep) row →
  Forall (known_hop client) (parseForwardedHeader (through peer row h).2 "X-Real-IP").
Proof.
  intros Hc Hpeer Hrow. revert peer h Hpeer. induction Hrow as [|[c ip] row Hp _ IH]; intros peer h Hpeer Hk.
  { destruct Hk as [?|Hk]; [done|by apply Exists_nil in Hk]. }
  cbn [through]. apply IH; [by right|]. rewrite forward_real. destruct (px_Real c) eqn:Ec.
  - left. rewrite value_hops_addr; [|done|by destruct Hpeer as [->|[? _]]]. apply Forall_singleton. by exists peer.
  - by left.
  - destruct Hk as [?|[Hk|Hk]%Exists_cons]; [by left|done|by right].
Qed.

Lemma through_forwarded peer row h :
  parseForwardedHeader h "Forwarded" = [] ∨ Exists (λ p, px_DropForwarded p.1 = true) row →
  parseForwardedHeader (through peer row h).2 "Forwarded" = [].
Proof.
  revert peer h. induction row as [|[c ip] row IH]; intros peer h Hk.
  { destruct Hk as [?|Hk]; [done|by apply Exists_nil in Hk]. }
  cbn [through]. apply IH. rewrite forward_forwarded. destruct (px_DropForwarded c) eqn:Ec; [by left|].
  destruct Hk as [?|[Hk|Hk]%Exists_cons]; [by left|cbn [fst] in Hk; congruence|by right].
Qed.
End walks.

(** C3: what a client claims about its address is ignored. Let a request with any headers at all come
    through a row of declared proxies, each of which appends the address of its peer to
    [X-Forwarded-For] in one of the usual ways; at least one of them sets [X-Real-IP] to its peer or drops
    it, and one drops [Forwarded]. Then the request is charged to the client that connected to the first
    proxy, never as a local operator, whatever it had written into [X-Forwarded-For], [X-Real-IP],
    [Forwarded] or any other header. *)
Theorem forged_hops_ignored m client row h remote :
  ip_ok client → trusts m client = false → row ≠ [] → Forall (λ p, proxy m p.2) row →
  Exists (λ p, px_Real p.1 ≠ RealKeep) row → Exists (λ p, px_DropForwarded p.1 = true) row →
  ParseIP (hostOnly remote) = Some (through client row h).1 →
  let addr := resolveForwarded (MkRequest remote (through client row h).2) m in
  ca_IP addr = Some client ∧ ca_Raw addr = IP_String client ∧ ca_Trusted addr = negb (IsLoopback client) ∧
  LocalOperator addr = false.
Proof.
  intros Hc Ht Hne Hrow Hreal Hfwd Hpeer addr. destruct (through_last m client row h Hne Hrow) as [_ Htp].
  assert (Hwalk : walk_headers m (through client row h).2 (reverse forwardedHeaders) = Some client).
  { change (reverse forwardedHeaders) with ["Forwarded"; "X-Real-IP"; "X-Forwarded-For"]%string. cbn [walk_headers].
    rewrite through_forwarded by (by right). cbn [reverse rev_append walk_hops].
    pose proof (through_real m client client row h Hc (or_introl eq_refl) Hrow (or_intror Hreal)) as Hr. apply Forall_reverse in Hr.
    destruct (walk_known m client _ Hc Ht Hr) as [-> | ->]; [|done].
    destruct (through_chain m client row h Hc Hrow) as (proxies & Hp & ->). destruct row; [done|].
    rewrite reverse_app, fmap_cons, reverse_cons, <- fmap_reverse, <- app_assoc. cbn [app].
    by rewrite walk_client by (done || by apply Forall_reverse). }
  unfold addr, resolveForwarded. cbn [rq_RemoteAddr rq_Header]. rewrite Hpeer, Htp, Hwalk. done.
Qed.

(** A client that names others in all three headers; the edge proxy drops [Forwarded] and sets
    [X-Real-IP], the inner one appends only. *)
Definition forged_headers : Header := {["X-Forwarded-For"%string := ["198.51.100.9"; "127.0.0.1"]%string;
  "X-Real-Ip"%string := ["198.51.100.9"%string]; "Forwarded"%string := ["for=127.0.0.1"%string]]}.
Definition edge_and_inner : list (ProxyConfig * IP) :=
  [(MkProxy JoinLines RealSet true, From4 167772162); (MkProxy LastLine RealKeep false, From4 167772161)].

Lemma forged_hops_ignored_witness :
  let m := newTrustedProxyMatcher ["10.0.0.0/8"%string] in
  let client := From4 3405803783 in
  let addr := resolveForwarded (MkRequest "10.0.0.1:4711" (through client edge_and_inner forged_headers).2) m in
  ca_IP addr = Some client ∧ ca_Raw addr = IP_String client ∧ ca_Trusted addr = negb (IsLoopback client) ∧
  LocalOperator addr = false.
Proof.
  intros m client. apply (forged_hops_ignored m client edge_and_inner forged_headers "10.0.0.1:4711").
  - by split.
  - vm_compute. reflexivity.
  - discriminate.
  - repeat constructor; vm_compute; (reflexivity || discriminate).
  - left. discriminate.
  - left. reflexivity.
  - vm_compute. reflexivity.
Defined.

(** ** The local operator *)

Lemma parse_blank header s : TrimSpace s = "" → value_hops header s = [].
Proof.
  intros H. pose proof (TrimSpace_blank s H) as Hs. rewrite SplitByte_without.
  - cbn [omap list_omap]. unfold parse_hop. by rewrite H.
  - eapply all_chars_impl; [|exact Hs]. by intros [[] [] [] [] [] [] [] []].
Qed.

Lemma absent_no_hops h header : present h header = false → parseForwardedHeader h header = [].
Proof.
  unfold present, parseForwardedHeader. induction (header_Values h header) as [|v vs IH]; [done|]. cbn [existsb].
  intros [Hv Hvs]%orb_false_iff. cbn [mbind list_bind]. rewrite omap_app, parse_blank; [by apply IH|].
  by destruct (String.eqb_spec (TrimSpace v) "").
Qed.

Lemma first_present_none headers h : "" ∉ headers →
  first_present headers h = "" ↔ (∀ header, header ∈ headers → present h header = false).
Proof.
  intros Hne. unfold first_present. destruct (List.find (present h) headers) as [header|] eqn:E.
  - apply List.find_some in E as [Hin Hp]. apply list_elem_of_In in Hin. cbn [default from_option id]. split.
    + intros ->. done.
    + intros H. rewrite (H header Hin) in Hp. done.
  - split; [|done]. intros _ header Hin. apply (List.find_none _ _ E). by apply list_elem_of_In.
Qed.

Lemma no_header_no_chain h : firstForwardedHeader h = "" → collectForwardedChain h = [].
Proof.
  unfold firstForwardedHeader. rewrite first_present_none by (apply (bool_decide_unpack _); vm_compute; exact I).
  intros H. unfold collectForwardedChain, forwardedHeaders in *. cbn [mbind list_bind].
  by rewrite !absent_no_hops by (apply H; apply (bool_decide_unpack _); vm_compute; exact I).
Qed.

(** A request counts as the local operator exactly when it comes over the loopback interface
    without any of the three forwarding headers; nothing in a chain of hops can make it one, whatever
    proxies are declared. *)
Lemma local_operator_direct req m :
  LocalOperator (resolveForwarded req m) = true ↔
    firstForwardedHeader (rq_Header req) = "" ∧ ∃ peer, ParseIP (hostOnly (rq_RemoteAddr req)) = Some peer ∧ IsLoopback peer = true.
Proof.
  unfold LocalOperator, Loopback, resolveForwarded. destruct (ParseIP (hostOnly (rq_RemoteAddr req))) as [peer|] eqn:E.
  2: { cbn [ca_IP]. rewrite andb_false_r. split; [done|]. intros (_ & ? & [=] & _). }
  rewrite walk_headers_client. destruct (String.eqb_spec (firstForwardedHeader (rq_Header req)) "") as [Hr|Hr].
  - rewrite (no_header_no_chain _ Hr). cbn [client_hop reverse rev_append walk_hops].
    destruct (negb (trusts m peer)); cbn [ca_IP ca_DirectPeer andb]; naive_solver.
  - destruct (negb (trusts m peer)); [cbn [ca_DirectPeer andb]; naive_solver|].
    destruct (client_hop _ _); cbn [ca_DirectPeer andb]; naive_solver.
Qed.

(** ** Ways around *)

(** Whoever can send a [Forwarded] header through the proxies names the address himself: it is read
    before the headers that the proxies do set. *)
Lemma forwarded_header_forges m remote peer h forged :
  ParseIP (hostOnly remote) = Some peer → trusts m peer = true → ip_ok forged → trusts m forged = false →
  h !! "Forwarded"%string = Some ["for=" +:+ IP_String forged] →
  ca_IP (resolveForwarded (MkRequest remote h) m) = Some forged.
Proof.
  intros Hpeer Htp Hf Ht Hfwd.
  assert (Hhop : parseForwardedHeader h "Forwarded" = [IP_String forged]).
  { unfold parseForwardedHeader, header_Values. change (canonical_from true "Forwarded") with "Forwarded"%string. rewrite Hfwd.
    cbn [default from_option id mbind list_bind]. rewrite app_nil_r. pose proof (IP_String_chars _ Hf) as Hc.
    assert (Hw : ∀ c, addr_char c = false → Ascii.eqb c "=" = false → Ascii.eqb c "f" = false → Ascii.eqb c "o" = false → Ascii.eqb c "r" = false →
      all_chars (λ d, ! Ascii.eqb c d) ("for=" +:+ IP_String forged) = true).
    { intros c Hc1 E1 E2 E3 E4. rewrite all_chars_app, (addr_without c _ Hc1 Hc). cbn [all_chars]. by rewrite E1, E2, E3, E4. }
    rewrite SplitByte_without by (by apply Hw). cbn [omap list_omap]. unfold parse_hop.
    assert (Hs : TrimSpace ("for=" +:+ IP_String forged) = "for=" +:+ IP_String forged).
    { apply spaceless_TrimSpace. unfold spaceless. rewrite all_chars_app. by apply andb_true_iff; split; [|apply addr_spaceless]. }
    rewrite Hs. change (String.eqb ("for=" +:+ IP_String forged) "") with false. cbn [String.eqb Ascii.eqb Bool.eqb].
    unfold extractForwardedFor. rewrite SplitByte_without by (by apply Hw). cbn [fmap list_fmap]. rewrite Hs.
    cbn [List.find]. assert (HasPrefix (ToLower ("for=" +:+ IP_String forged)) "for=" = true) as ->
      by (apply HasPrefix_iff; by exists (ToLower (IP_String forged))).
    assert (str_from 4 ("for=" +:+ IP_String forged) = IP_String forged) as -> by apply (str_from_app "for=").
    unfold TrimPrefix, TrimSuffix.
    assert (Hq : ∀ q, q = String quote_byte "" → HasPrefix (IP_String forged) q = false ∧ HasSuffix (IP_String forged) q = false).
    { intros q ->. split; apply not_true_iff_false; [intros [r Hr]%HasPrefix_iff|intros [r Hr]%HasSuffix_iff];
        rewrite Hr, all_chars_app in Hc; apply andb_true_iff in Hc as [H1 H2]; discriminate. }
    destruct (Hq _ eq_refl) as [-> Hs2]. rewrite Hs2.
    rewrite (proj2 (String.eqb_neq _ _)) by (by apply IP_String_nonempty). by rewrite hostOnly_addr. }
  unfold resolveForwarded. cbn [rq_RemoteAddr rq_Header]. rewrite Hpeer, Htp. cbn [negb].
  change (reverse forwardedHeaders) with ["Forwarded"; "X-Real-IP"; "X-Forwarded-For"]%string.
  cbn [walk_headers]. rewrite Hhop. cbn [reverse rev_append walk_hops]. by rewrite ParseIP_String, Ht.
Qed.

(** So it is behind the proxy that [src/docs/reverse-proxy_CN.md] configures, which sets [X-Real-IP] and
    appends to [X-Forwarded-For]: nginx passes [Forwarded] on. *)
Lemma documented_proxy_forged :
  let m := newTrustedProxyMatcher ["127.0.0.1"%string] in
  let nginx := MkProxy JoinLines RealSet false in
  let h := {["Forwarded"%string := ["for=198.51.100.9"%string]]} in
  let addr := resolveForwarded (MkRequest "127.0.0.1:4711" (through (From4 3405803783) [(nginx, From4 2130706433)] h).2) m in
  ca_Raw addr = "198.51.100.9"%string ∧ ca_Trusted addr = true.
Proof. split; vm_compute; reflexivity. Qed.

(** And behind proxies that all pass [X-Real-IP] on, however they append to [X-Forwarded-For], a client
    names itself with that header. *)
Lemma real_ip_forges m client forged row h remote :
  row ≠ [] → Forall (λ p, proxy m p.2) row → Forall (λ p, px_Real p.1 = RealKeep) row → ip_ok forged → trusts m forged = false →
  h !! "Forwarded"%string = None → h !! "X-Real-Ip"%string = Some [IP_String forged] →
  ParseIP (hostOnly remote) = Some (through client row h).1 →
  ca_IP (resolveForwarded (MkRequest remote (through client row h).2) m) = Some forged.
Proof.
  intros Hne Hrow Hkeep Hf Ht Hfwd Hreal Hpeer. destruct (through_last m client row h Hne Hrow) as [_ Htp].
  assert (Hkept : parseForwardedHeader (through client row h).2 "X-Real-IP" = parseForwardedHeader h "X-Real-IP").
  { clear -Hkeep. revert client h. induction Hkeep as [|[c ip] row Hk _ IH]; intros client h; [done|].
    cbn [through]. rewrite IH, forward_real. cbn [fst] in Hk. by rewrite Hk. }
  unfold resolveForwarded. cbn [rq_RemoteAddr rq_Header]. rewrite Hpeer, Htp. cbn [negb].
  change (reverse forwardedHeaders) with ["Forwarded"; "X-Real-IP"; "X-Forwarded-For"]%string. cbn [walk_headers].
  rewrite through_forwarded by (left; unfold parseForwardedHeader, header_Values;
    change (canonical_from true "Forwarded") with "Forwarded"%string; by rewrite Hfwd).
  rewrite Hkept. unfold parseForwardedHeader at 1, header_Values. change (canonical_from true "X-Real-IP") with "X-Real-Ip"%string. rewrite Hreal.
  cbn [default from_option id mbind list_bind reverse walk_hops rev_append]. rewrite app_nil_r, value_hops_addr by done.
  cbn [reverse rev_append walk_hops]. by rewrite ParseIP_String, Ht.
Qed.

(** A relay on the host that adds none of the three headers makes its clients local operators, though
    other headers say that there is a relay. *)
Lemma relayed_local_operator m :
  let req := MkRequest "127.0.0.1:4711" {["Via"%string := ["1.1 edge"%string]]} in
  LocalOperator (resolveForwarded req m) = true ∧ IsLocalOriginRequest (Some req) = false.
Proof.
  split; [|vm_compute; reflexivity]. apply local_operator_direct.
  split; [vm_compute; reflexivity|]. exists (From4 2130706433). split; vm_compute; reflexivity.
Qed.
