(* ===== verification/Redis.v ===== *)
(** * The shared Redis, as far as the scripts use it

    Redis is not part of the repository: the database is the class [Keyspace], whose
    laws are the documented behaviour of reading, writing and expiring one key. An
    object is a hash, a sorted set or a string; the commands the scripts call are
    functions on objects. Times are milliseconds. A Lua script runs atomically, so a
    script is one function from database to database. [list_keyspace] is a concrete
    database that satisfies the laws. *)
From S2P Require Import Prelude GoModel.

(** ** Objects *)

(** A field of a hash: text, or a number where the script uses it as one. *)
Inductive RVal := RStr (s : string) | RInt (z : Z).

Inductive RObj :=
| RNone
| RHash (m : gmap string RVal)
| RZSet (m : gmap string Z)
| RText (s : string).

#[export] Instance RVal_eq_dec : EqDecision RVal.
Proof. solve_decision. Defined.

Definition robj_absent (o : RObj) : bool := match o with RNone => true | _ => false end.

(** [UnixMilli] and [Duration.Milliseconds]. *)
Definition unix_milli (t : Time) : Z := (t - time_Unix 0) / 1000000.
Definition milliseconds (d : Duration) : Z := Z.quot d 1000000.

(** ** The database *)

Class Keyspace := {
  DB : Type;
  db_empty : DB;
  db_read : DB → Z → string → RObj;
  db_write : DB → Z → string → RObj → DB;
  db_pexpire : DB → Z → string → Z → DB;
  read_empty : ∀ now key, db_read db_empty now key = RNone;
  (** A write keeps the expiry of a live key; writing nothing deletes. *)
  read_write : ∀ db now u key o, now ≤ u →
    db_read (db_write db now key o) u key =
      if robj_absent (db_read db now key) then o
      else if robj_absent (db_read db u key) then RNone else o;
  read_write_ne : ∀ db now u key key' o, key ≠ key' →
    db_read (db_write db now key o) u key' = db_read db u key';
  (** An expiry replaces the previous one. *)
  read_pexpire : ∀ db now u key ms, now ≤ u →
    db_read (db_pexpire db now key ms) u key =
      if u <? now + ms then db_read db now key else RNone;
  read_pexpire_ne : ∀ db now u key key' ms, key ≠ key' →
    db_read (db_pexpire db now key ms) u key' = db_read db u key';
  (** PTTL: what is left of the expiry in milliseconds, negative without one. *)
  db_pttl : DB → Z → string → Z;
  read_pttl : ∀ db now u key, 0 ≤ db_pttl db now key → now ≤ u →
    db_read db u key = if u <? now + db_pttl db now key then db_read db now key else RNone;
  (** Without writes a key keeps its object until it expires, for good. *)
  read_later : ∀ db now u key, now ≤ u →
    db_read db u key = db_read db now key ∨ db_read db u key = RNone
}.

Section keyspace.
Context {K : Keyspace}.

(** A write followed by an expiry, as every script ends. *)
Definition write_expire (db : DB) (now : Z) (key : string) (o : RObj) (ms : Z) : DB :=
  db_pexpire (db_write db now key o) now key ms.

Lemma read_write_now db now key o : db_read (db_write db now key o) now key = o.
Proof.
  rewrite read_write by lia. destruct (robj_absent (db_read db now key)) eqn:E; [done|]. done.
Qed.

Lemma read_write_expire db now u key o ms :
  now ≤ u → db_read (write_expire db now key o ms) u key = if u <? now + ms then o else RNone.
Proof. intros. unfold write_expire. by rewrite read_pexpire, read_write_now. Qed.

Lemma read_write_expire_ne db now u key key' o ms :
  key ≠ key' → db_read (write_expire db now key o ms) u key' = db_read db u key'.
Proof. intros. unfold write_expire. by rewrite read_pexpire_ne, read_write_ne. Qed.

Lemma read_later_none db now u key : now ≤ u → db_read db now key = RNone → db_read db u key = RNone.
Proof. intros Hu Hn. by destruct (read_later db now u key Hu) as [->|]. Qed.

End keyspace.

(** ** Commands on objects *)

(** [None] stands for the error of a command on an object of another type. *)
Definition as_hash (o : RObj) : option (gmap string RVal) :=
  match o with RNone => Some ∅ | RHash m => Some m | _ => None end.

Definition as_zset (o : RObj) : option (gmap string Z) :=
  match o with RNone => Some ∅ | RZSet m => Some m | _ => None end.

(** A hash or sorted set without members does not exist. *)
Definition of_hash (m : gmap string RVal) : RObj := if bool_decide (m = ∅) then RNone else RHash m.
Definition of_zset (m : gmap string Z) : RObj := if bool_decide (m = ∅) then RNone else RZSet m.

Lemma as_of_hash m : as_hash (of_hash m) = Some m.
Proof. unfold of_hash. case_bool_decide; by subst. Qed.

Lemma as_of_zset m : as_zset (of_zset m) = Some m.
Proof. unfold of_zset. case_bool_decide; by subst. Qed.

(** [HINCRBY]: the new value; [None] where the field is not a number. *)
Definition HINCRBY (m : gmap string RVal) (f : string) (d : Z) : option (Z * gmap string RVal) :=
  match m !! f with
  | None => Some (d, <[f := RInt d]> m)
  | Some (RInt z) => Some (z + d, <[f := RInt (z + d)]> m)
  | Some (RStr _) => None
  end.

(** [ZREMRANGEBYSCORE key -inf max] *)
Definition ZREMRANGEBYSCORE (m : gmap string Z) (max : Z) : gmap string Z :=
  filter (λ kv, max < kv.2) m.

Definition ZCARD (m : gmap string Z) : Z := Z.of_nat (size m).
Definition ZADD (m : gmap string Z) (score : Z) (member : string) : gmap string Z := <[member := score]> m.
Definition ZREM (m : gmap string Z) (member : string) : gmap string Z := delete member m.

Lemma ZREMRANGEBYSCORE_Some m max k s :
  ZREMRANGEBYSCORE m max !! k = Some s ↔ m !! k = Some s ∧ max < s.
Proof. unfold ZREMRANGEBYSCORE. by rewrite map_lookup_filter_Some. Qed.

(** ** A concrete database

    The last write of each key comes first in the list. *)

Definition list_db : Type := list (string * (RObj * option Z)).

Fixpoint list_lookup_key (db : list_db) (key : string) : option (RObj * option Z) :=
  match db with
  | [] => None
  | (k, v) :: db => if String.eqb k key then Some v else list_lookup_key db key
  end.

Definition list_read (db : list_db) (now : Z) (key : string) : RObj :=
  match list_lookup_key db key with
  | None => RNone
  | Some (o, None) => o
  | Some (o, Some deadline) => if now <? deadline then o else RNone
  end.

Definition list_write (db : list_db) (now : Z) (key : string) (o : RObj) : list_db :=
  let deadline := if robj_absent (list_read db now key) then None
                  else match list_lookup_key db key with Some (_, d) => d | None => None end in
  (key, (o, deadline)) :: db.

Definition list_pexpire (db : list_db) (now : Z) (key : string) (ms : Z) : list_db :=
  (key, (list_read db now key, Some (now + ms))) :: db.

Definition list_pttl (db : list_db) (now : Z) (key : string) : Z :=
  match list_lookup_key db key with
  | Some (_, Some deadline) => if now <? deadline then deadline - now else -2
  | Some (_, None) => -1
  | None => -2
  end.

#[export] Instance list_keyspace : Keyspace.
Proof.
  refine {| DB := list_db; db_empty := []; db_read := list_read; db_write := list_write;
            db_pexpire := list_pexpire; db_pttl := list_pttl |}.
  - done.
  - intros db now u key o Hu. unfold list_read at 1, list_write. simpl. rewrite String.eqb_refl.
    destruct (robj_absent (list_read db now key)) eqn:E; [done|]. unfold list_read in *.
    destruct (list_lookup_key db key) as [[o' [d|]]|] eqn:Ek; [|by rewrite E|done].
    destruct (Z.ltb_spec now d); [|done].
    destruct (Z.ltb_spec u d); [by rewrite E|done].
  - intros db now u key key' o Hne. unfold list_read, list_write. simpl.
    by rewrite (proj2 (String.eqb_neq _ _) Hne).
  - intros db now u key ms Hu. unfold list_read at 1, list_pexpire. simpl. by rewrite String.eqb_refl.
  - intros db now u key key' ms Hne. unfold list_read, list_pexpire. simpl.
    by rewrite (proj2 (String.eqb_neq _ _) Hne).
  - intros db now u key Hp Hu. unfold list_pttl in *. unfold list_read.
    destruct (list_lookup_key db key) as [[o [d|]]|]; [|lia..]. destruct (Z.ltb_spec now d); [|lia].
    by replace (now + (d - now)) with d by lia.
  - intros db now u key Hu. unfold list_read.
    destruct (list_lookup_key db key) as [[o [d|]]|]; [|by left..].
    destruct (Z.ltb_spec now d), (Z.ltb_spec u d); auto; lia.
Defined.
