(* ===== verification/AuthTypes.v ===== *)
(** * Credentials and their runtime state

    Models [src/sdk/cliproxy/auth/types.go], [status.go], [errors.go],
    [selector_weight.go], [antigravity_quota_family.go] and the data part of
    [conductor.go]. A pointer that may be nil is an [option]; the fields of
    [Auth] that no modelled operation reads (file name, storage, label,
    runtime handle) are left out. *)
From S2P Require Import Prelude GoModel.

(** ** Status *)

Inductive Status :=
| StatusUnknown | StatusActive | StatusPending | StatusRefreshing | StatusError | StatusDisabled
| StatusOther (s : string).

#[export] Instance Status_eq_dec : EqDecision Status.
Proof. solve_decision. Defined.

Definition status_eqb (a b : Status) : bool := bool_decide (a = b).

(** ** Errors *)

Record Error := MkError {
  er_Code : string;
  er_Message : string;
  er_Retryable : bool;
  er_HTTPStatus : Z;
  er_QuotaWindow : string;
  er_QuotaWindowMinutes : Z
}.

#[export] Instance Error_eq_dec : EqDecision Error.
Proof. solve_decision. Defined.

Definition Error_Error (e : Error) : string :=
  if String.eqb (er_Code e) "" then er_Message e
  else er_Code e +:+ ": " +:+ er_Message e.

(** [statusCodeFromResult]: a nil error has status 0. *)
Definition statusCodeFromResult (e : option Error) : Z :=
  match e with None => 0 | Some e => er_HTTPStatus e end.

Definition cloneError (e : option Error) : option Error :=
  match e with
  | None => None
  | Some e => Some {| er_Code := er_Code e; er_Message := er_Message e;
                      er_Retryable := er_Retryable e; er_HTTPStatus := er_HTTPStatus e;
                      er_QuotaWindow := er_QuotaWindow e;
                      er_QuotaWindowMinutes := er_QuotaWindowMinutes e |}
  end.

Definition errorsEqual (l r : option Error) : bool :=
  match l, r with
  | None, None => true
  | Some l, Some r =>
      (String.eqb (er_Code l) (er_Code r) && String.eqb (er_Message l) (er_Message r) &&
       Bool.eqb (er_Retryable l) (er_Retryable r) && (er_HTTPStatus l =? er_HTTPStatus r) &&
       String.eqb (er_QuotaWindow l) (er_QuotaWindow r) &&
       (er_QuotaWindowMinutes l =? er_QuotaWindowMinutes r))
  | _, _ => false
  end.

(** ** Quota state *)

Record QuotaState := MkQuota {
  q_Exceeded : bool;
  q_RecoveryRequired : bool;
  q_Reason : string;
  q_Window : string;
  q_WindowMinutes : Z;
  q_NextRecoverAt : Time;
  q_BackoffLevel : Z
}.

#[export] Instance QuotaState_eq_dec : EqDecision QuotaState.
Proof. solve_decision. Defined.

(** The Go zero value [QuotaState{}]. *)
Definition quota_zero : QuotaState :=
  {| q_Exceeded := false; q_RecoveryRequired := false; q_Reason := ""; q_Window := "";
     q_WindowMinutes := 0; q_NextRecoverAt := 0; q_BackoffLevel := 0 |}.

(** ** Per-model state *)

Record ModelState := MkModelState {
  ms_Status : Status;
  ms_StatusMessage : string;
  ms_Unavailable : bool;
  ms_NextRetryAfter : Time;
  ms_LastError : option Error;
  ms_Quota : QuotaState;
  ms_UpdatedAt : Time
}.

#[export] Instance ModelState_eq_dec : EqDecision ModelState.
Proof. solve_decision. Defined.

(** [&ModelState{Status: StatusActive}] *)
Definition model_state_new : ModelState :=
  {| ms_Status := StatusActive; ms_StatusMessage := ""; ms_Unavailable := false;
     ms_NextRetryAfter := 0; ms_LastError := None; ms_Quota := quota_zero; ms_UpdatedAt := 0 |}.

(** ** Credentials *)

Record Auth := MkAuth {
  au_ID : string;
  au_TenantID : string;
  au_Provider : string;
  au_Prefix : string;
  au_Label : string;
  au_ProxyID : string;
  au_ProxyURL : string;
  au_Disabled : bool;
  au_Attributes : gmap string string;
  au_Metadata : gmap string GoAny;
  au_Status : Status;
  au_StatusMessage : string;
  au_Unavailable : bool;
  au_Quota : QuotaState;
  au_LastError : option Error;
  au_UpdatedAt : Time;
  au_LastRefreshedAt : Time;
  au_NextRefreshAfter : Time;
  au_NextRetryAfter : Time;
  au_ModelStates : gmap string (option ModelState)
}.

(** Assignment to the mutable runtime fields of a credential. *)
Definition auth_with (a : Auth) (st : Status) (msg : string) (unav : bool) (q : QuotaState)
    (err : option Error) (upd nref nret : Time) (ms : gmap string (option ModelState)) : Auth :=
  {| au_ID := au_ID a; au_TenantID := au_TenantID a; au_Provider := au_Provider a;
     au_Prefix := au_Prefix a; au_Label := au_Label a;
     au_ProxyID := au_ProxyID a; au_ProxyURL := au_ProxyURL a;
     au_Disabled := au_Disabled a;
     au_Attributes := au_Attributes a; au_Metadata := au_Metadata a;
     au_Status := st; au_StatusMessage := msg; au_Unavailable := unav; au_Quota := q;
     au_LastError := err; au_UpdatedAt := upd; au_LastRefreshedAt := au_LastRefreshedAt a;
     au_NextRefreshAfter := nref; au_NextRetryAfter := nret; au_ModelStates := ms |}.

Definition set_Status (v : Status) (a : Auth) : Auth :=
  auth_with a v (au_StatusMessage a) (au_Unavailable a) (au_Quota a) (au_LastError a)
    (au_UpdatedAt a) (au_NextRefreshAfter a) (au_NextRetryAfter a) (au_ModelStates a).
Definition set_StatusMessage (v : string) (a : Auth) : Auth :=
  auth_with a (au_Status a) v (au_Unavailable a) (au_Quota a) (au_LastError a)
    (au_UpdatedAt a) (au_NextRefreshAfter a) (au_NextRetryAfter a) (au_ModelStates a).
Definition set_Unavailable (v : bool) (a : Auth) : Auth :=
  auth_with a (au_Status a) (au_StatusMessage a) v (au_Quota a) (au_LastError a)
    (au_UpdatedAt a) (au_NextRefreshAfter a) (au_NextRetryAfter a) (au_ModelStates a).
Definition set_Quota (v : QuotaState) (a : Auth) : Auth :=
  auth_with a (au_Status a) (au_StatusMessage a) (au_Unavailable a) v (au_LastError a)
    (au_UpdatedAt a) (au_NextRefreshAfter a) (au_NextRetryAfter a) (au_ModelStates a).
Definition set_LastError (v : option Error) (a : Auth) : Auth :=
  auth_with a (au_Status a) (au_StatusMessage a) (au_Unavailable a) (au_Quota a) v
    (au_UpdatedAt a) (au_NextRefreshAfter a) (au_NextRetryAfter a) (au_ModelStates a).
Definition set_UpdatedAt (v : Time) (a : Auth) : Auth :=
  auth_with a (au_Status a) (au_StatusMessage a) (au_Unavailable a) (au_Quota a)
    (au_LastError a) v (au_NextRefreshAfter a) (au_NextRetryAfter a) (au_ModelStates a).
Definition set_NextRefreshAfter (v : Time) (a : Auth) : Auth :=
  auth_with a (au_Status a) (au_StatusMessage a) (au_Unavailable a) (au_Quota a)
    (au_LastError a) (au_UpdatedAt a) v (au_NextRetryAfter a) (au_ModelStates a).
Definition set_NextRetryAfter (v : Time) (a : Auth) : Auth :=
  auth_with a (au_Status a) (au_StatusMessage a) (au_Unavailable a) (au_Quota a)
    (au_LastError a) (au_UpdatedAt a) (au_NextRefreshAfter a) v (au_ModelStates a).
Definition set_ModelStates (v : gmap string (option ModelState)) (a : Auth) : Auth :=
  auth_with a (au_Status a) (au_StatusMessage a) (au_Unavailable a) (au_Quota a)
    (au_LastError a) (au_UpdatedAt a) (au_NextRefreshAfter a) (au_NextRetryAfter a) v.

Definition set_Metadata (v : gmap string GoAny) (a : Auth) : Auth :=
  {| au_ID := au_ID a; au_TenantID := au_TenantID a; au_Provider := au_Provider a;
     au_Prefix := au_Prefix a; au_Label := au_Label a;
     au_ProxyID := au_ProxyID a; au_ProxyURL := au_ProxyURL a;
     au_Disabled := au_Disabled a;
     au_Attributes := au_Attributes a; au_Metadata := v;
     au_Status := au_Status a; au_StatusMessage := au_StatusMessage a;
     au_Unavailable := au_Unavailable a; au_Quota := au_Quota a;
     au_LastError := au_LastError a; au_UpdatedAt := au_UpdatedAt a;
     au_LastRefreshedAt := au_LastRefreshedAt a; au_NextRefreshAfter := au_NextRefreshAfter a;
     au_NextRetryAfter := au_NextRetryAfter a; au_ModelStates := au_ModelStates a |}.

(** A credential with only configuration set, for concrete runs. *)
Definition auth_new (id provider : string) (attrs : gmap string string)
    (meta : gmap string GoAny) : Auth :=
  {| au_ID := id; au_TenantID := ""; au_Provider := provider; au_Prefix := "";
     au_Label := "";
     au_ProxyID := ""; au_ProxyURL := "";
     au_Disabled := false; au_Attributes := attrs; au_Metadata := meta;
     au_Status := StatusActive; au_StatusMessage := ""; au_Unavailable := false;
     au_Quota := quota_zero; au_LastError := None; au_UpdatedAt := 0;
     au_LastRefreshedAt := 0; au_NextRefreshAfter := 0; au_NextRetryAfter := 0;
     au_ModelStates := ∅ |}.

(** ** Results of an upstream call *)

Record Result := MkResult {
  re_AuthID : string;
  re_Model : string;
  re_Success : bool;
  re_RetryAfter : option Duration;
  re_Headers : gmap string (list string);
  re_Error : option Error
}.

(** What a result asks of the model registry. *)
Record resultStateEffects := MkEffects {
  ef_shouldResumeModel : bool;
  ef_shouldSuspendModel : bool;
  ef_suspendReason : string;
  ef_clearModelQuota : bool;
  ef_setModelQuota : bool
}.

Definition no_effects : resultStateEffects :=
  {| ef_shouldResumeModel := false; ef_shouldSuspendModel := false; ef_suspendReason := "";
     ef_clearModelQuota := false; ef_setModelQuota := false |}.

(** ** Dynamic metadata values *)

Definition parseBoolAny (val : GoAny) : option bool :=
  match val with
  | ABool b => Some b
  | AString s =>
      let trimmed := TrimSpace s in
      if String.eqb trimmed "" then None else ParseBool trimmed
  | AFloat f => Some (f64_nonzero f)
  | ANumber s => match Atoi s with Some z => Some (! (z =? 0)) | None => None end
  | _ => None
  end.

Definition parseIntAny (val : GoAny) : option Z :=
  match val with
  | AInt z | AInt32 z | AInt64 z => Some z
  | AFloat f => Some (int_of_f64 f)
  | ANumber s => Atoi s
  | AString s =>
      let trimmed := TrimSpace s in
      if String.eqb trimmed "" then None else Atoi trimmed
  | _ => None
  end.

(** [m[k]] followed by a parse that may reject the value. *)
Definition meta_parse {A} (parse : GoAny → option A) (m : gmap string GoAny) (k : string) : option A :=
  match m !! k with Some v => parse v | None => None end.

(** ** Overrides read from a credential *)

Definition DisableCoolingOverride (a : Auth) : option bool :=
  match meta_parse parseBoolAny (au_Metadata a) "disable_cooling" with
  | Some b => Some b
  | None => meta_parse parseBoolAny (au_Metadata a) "disable-cooling"
  end.

Definition clamp_nonneg (z : Z) : Z := if z <? 0 then 0 else z.

Definition RequestRetryOverride (a : Auth) : option Z :=
  match meta_parse parseIntAny (au_Metadata a) "request_retry" with
  | Some z => Some (clamp_nonneg z)
  | None => clamp_nonneg <$> meta_parse parseIntAny (au_Metadata a) "request-retry"
  end.

Definition concurrency_keys : list string :=
  ["concurrency_limit"; "concurrency"; "concurrency-limit"].

Fixpoint first_nonneg (lookup : string → option Z) (keys : list string) : option Z :=
  match keys with
  | [] => None
  | k :: ks =>
      match lookup k with
      | Some z => if 0 <=? z then Some z else first_nonneg lookup ks
      | None => first_nonneg lookup ks
      end
  end.

(** Attributes first, then metadata; 0 means unlimited. *)
Definition ConcurrencyLimit (a : Auth) : Z :=
  match first_nonneg (λ k, s ← au_Attributes a !! k; parseIntAny (AString s)) concurrency_keys with
  | Some z => z
  | None =>
      match first_nonneg (meta_parse parseIntAny (au_Metadata a)) concurrency_keys with
      | Some z => z
      | None => 0
      end
  end.

(** [quotaCooldownDisabledForAuth]; [global] is the process-wide flag
    [quotaCooldownDisabled]. *)
Definition quotaCooldownDisabledForAuth (global : bool) (a : Auth) : bool :=
  match DisableCoolingOverride a with
  | Some override => override
  | None => global
  end.

(** ** Selection weight *)

Definition selectionWeightAttribute : string := "selection_weight".
Definition legacySelectionWeightAttribute : string := "priority".
Definition defaultSelectionWeight : Z := 1.

Definition parseWeightAttribute (a : option Auth) (key : string) : option Z :=
  match a with
  | None => None
  | Some a =>
      let raw := TrimSpace (attr (au_Attributes a) key) in
      if String.eqb raw "" then None else Atoi raw
  end.

Definition authSelectionWeight (a : option Auth) : Z :=
  match parseWeightAttribute a selectionWeightAttribute with
  | Some weight => if weight <=? 0 then 0 else weight
  | None =>
      match parseWeightAttribute a legacySelectionWeightAttribute with
      | Some weight => if 0 <? weight then weight else defaultSelectionWeight
      | None => defaultSelectionWeight
      end
  end.

Definition authParticipatesInSelection (a : option Auth) : bool := 0 <? authSelectionWeight a.

(** ** Antigravity quota pools *)

Inductive AntigravityQuotaFamily := FamilyGemini | FamilyClaude | FamilyOther.

#[export] Instance Family_eq_dec : EqDecision AntigravityQuotaFamily.
Proof. solve_decision. Defined.

Definition ModelAntigravityQuotaFamily (model : string) : AntigravityQuotaFamily :=
  let m := ToLower (TrimSpace model) in
  if (Contains m "claude" || Contains m "opus" || Contains m "sonnet" ||
      Contains m "haiku" || Contains m "gpt") then FamilyClaude
  else if (HasPrefix m "gemini" || Contains m "image" || Contains m "imagen") then FamilyGemini
  else FamilyOther.

Definition IsAntigravityAuth (a : Auth) : bool :=
  if EqualFold (TrimSpace (au_Provider a)) "antigravity" then true
  else match au_Metadata a !! "type" with
       | Some (AString typ) => EqualFold (TrimSpace typ) "antigravity"
       | _ => false
       end.

Definition AreAntigravityModelsSameFamily (modelA modelB : string) : bool :=
  let famA := ModelAntigravityQuotaFamily modelA in
  let famB := ModelAntigravityQuotaFamily modelB in
  if (bool_decide (famA = FamilyOther) || bool_decide (famB = FamilyOther))
  then EqualFold (TrimSpace modelA) (TrimSpace modelB)
  else bool_decide (famA = famB).

(** ** Lemmas *)

Lemma cloneError_id e : cloneError e = e.
Proof. by destruct e as [[]|]. Qed.

Lemma errorsEqual_spec l r : errorsEqual l r = true ↔ l = r.
Proof.
  destruct l as [l|], r as [r|]; simpl; [|split; congruence..].
  destruct l, r; simpl. rewrite !andb_true_iff, !String.eqb_eq, !Z.eqb_eq, Bool.eqb_true_iff.
  split; [intros; destruct_and!; by subst|]. intros [= -> -> -> -> -> ->]. done.
Qed.

Lemma authSelectionWeight_nonneg a : 0 ≤ authSelectionWeight a.
Proof.
  unfold authSelectionWeight, defaultSelectionWeight.
  destruct (parseWeightAttribute a selectionWeightAttribute) as [w|].
  - destruct (Z.leb_spec w 0); lia.
  - destruct (parseWeightAttribute a legacySelectionWeightAttribute) as [w|]; [|lia].
    destruct (Z.ltb_spec 0 w); lia.
Qed.

Lemma first_nonneg_nonneg f ks z : first_nonneg f ks = Some z → 0 ≤ z.
Proof.
  induction ks as [|k ks IH]; simpl; [done|].
  destruct (f k) as [y|]; [|done]. destruct (Z.leb_spec 0 y); [|done].
  intros [= <-]. done.
Qed.

Lemma ConcurrencyLimit_nonneg a : 0 ≤ ConcurrencyLimit a.
Proof.
  unfold ConcurrencyLimit.
  destruct (first_nonneg _ concurrency_keys) eqn:E; [by eapply first_nonneg_nonneg|].
  destruct (first_nonneg (meta_parse _ _) _) eqn:E2; [by eapply first_nonneg_nonneg|lia].
Qed.

#[export] Hint Resolve authSelectionWeight_nonneg ConcurrencyLimit_nonneg : clirelay.
