(* ===== verification/GroupModels.v ===== *)
(** * Model lists of channel groups

    Models [src/sdk/routing/group_models.go]: the wildcards of excluded models and the
    two spellings of a model. [MatchWildcard] is shown equal to its specification: the
    value is the pattern with every star replaced by some text. *)
From S2P Require Import Prelude GoModel ModelNames.
From Stdlib Require Import Ascii.

(** ** Strings *)

(** [strings.Index] *)
Fixpoint Index (s sub : string) : option nat :=
  if HasPrefix s sub then Some 0%nat
  else match s with
       | EmptyString => None
       | String _ s' => S <$> Index s' sub
       end.

Lemma Index_unfold s sub : Index s sub =
  if HasPrefix s sub then Some 0%nat
  else match s with EmptyString => None | String _ s' => S <$> Index s' sub end.
Proof. by destruct s. Qed.

Lemma Index_Some s sub i : Index s sub = Some i →
  ∃ a b, s = a +:+ sub +:+ b ∧ String.length a = i.
Proof.
  revert i. induction s as [|c s IH]; intros i; rewrite Index_unfold.
  - destruct (HasPrefix "" sub) eqn:E; [|done]. intros [= <-].
    apply HasPrefix_iff in E as [r Hr]. by exists "", r.
  - destruct (HasPrefix (String c s) sub) eqn:E.
    + intros [= <-]. apply HasPrefix_iff in E as [r Hr]. by exists "", r.
    + destruct (Index s sub) as [j|]; [|done]. intros [= <-].
      destruct (IH j eq_refl) as (a & b & -> & <-). by exists (String c a), b.
Qed.

(** The first occurrence: nothing is found earlier. *)
Lemma Index_first a sub b : ∃ i, Index (a +:+ sub +:+ b) sub = Some i ∧ (i ≤ String.length a)%nat.
Proof.
  induction a as [|c a (i & IH & Hi)].
  - exists 0%nat. split; [|done]. change ("" +:+ sub +:+ b) with (sub +:+ b).
    rewrite Index_unfold. assert (HasPrefix (sub +:+ b) sub = true) as -> by (apply HasPrefix_iff; eauto).
    done.
  - change (String c a +:+ sub +:+ b) with (String c (a +:+ sub +:+ b)). rewrite Index_unfold.
    destruct (HasPrefix _ _); [exists 0%nat; split; [done|simpl; lia]|]. rewrite IH.
    exists (S i). split; [done|]. simpl. lia.
Qed.

(** Two decompositions of one string: the one that starts earlier keeps more. *)
Lemma str_app_longer a b t w : a +:+ b = t +:+ w → (String.length a ≤ String.length t)%nat →
  ∃ x, b = x +:+ w.
Proof.
  revert t. induction a as [|c a IH]; intros t He Hl; [by exists t|].
  destruct t as [|d t]; simpl in Hl; [lia|]. inversion He. apply (IH t); [done|lia].
Qed.

(** ** Wildcards *)

(** The segments between the first and the last, one after the other. *)
Fixpoint middle_matches (segments : list string) (value : string) : bool :=
  match segments with
  | [] => true
  | segment :: rest =>
      if String.eqb segment "" then middle_matches rest value
      else match Index value segment with
           | None => false
           | Some idx => middle_matches rest (str_from (idx + String.length segment) value)
           end
  end.

Definition MatchWildcard (pattern value : string) : bool :=
  if String.eqb pattern "" then false
  else if negb (Contains pattern "*") then String.eqb pattern value
  else
    let parts := SplitByte "*"%char pattern in
    let prefix := default "" (head parts) in
    let suffix := default "" (last parts) in
    if negb (String.eqb prefix "") && negb (HasPrefix value prefix) then false
    else
      let value := if String.eqb prefix "" then value else str_from (String.length prefix) value in
      if negb (String.eqb suffix "") && negb (HasSuffix value suffix) then false
      else
        let value := if String.eqb suffix "" then value
                     else str_to (String.length value - String.length suffix) value in
        middle_matches (removelast (tail parts)) value.

(** *** What a wildcard means *)

(** A star stands for any text, every other character for itself. *)
Inductive wildcard : string → string → Prop :=
  | wild_end : wildcard "" ""
  | wild_char c p v : c ≠ "*"%char → wildcard p v → wildcard (String c p) (String c v)
  | wild_star p t v : wildcard p v → wildcard (String "*"%char p) (t +:+ v).

(** The parts between the stars, with some text for each star. *)
Fixpoint filled (part : string) (parts : list string) (v : string) : Prop :=
  match parts with
  | [] => v = part
  | next :: rest => ∃ t w, v = part +:+ t +:+ w ∧ filled next rest w
  end.

(** The parts in this order, anything between and around them. *)
Fixpoint in_order (parts : list string) (v : string) : Prop :=
  match parts with
  | [] => True
  | part :: rest => ∃ t w, v = t +:+ part +:+ w ∧ in_order rest w
  end.

Lemma filled_char c part parts v :
  filled (String c part) parts v ↔ ∃ w, v = String c w ∧ filled part parts w.
Proof.
  destruct parts as [|n ps]; simpl; [naive_solver|]. split.
  - intros (t & w & -> & Hf). exists (part +:+ t +:+ w). naive_solver.
  - intros (w & -> & t & w' & -> & Hf). by exists t, w'.
Qed.

Lemma wildcard_filled p v :
  wildcard p v ↔ ∃ part parts, SplitByte "*"%char p = part :: parts ∧ filled part parts v.
Proof.
  revert v. induction p as [|c p IH]; intros v; cbn [SplitByte].
  - split; [inversion 1; by exists "", []|]. intros (q & qs & [= <- <-] & ->). constructor.
  - destruct (SplitByte_cons "*"%char p) as (x & xs & Hs). rewrite Hs in IH |- *.
    destruct (Ascii.eqb_spec "*"%char c) as [<-|Hc].
    + split.
      * inversion 1 as [|??? Hn|? t w Hw]; subst; [done|]. apply IH in Hw as (? & ? & [= <- <-] & Hf).
        exists "", (x :: xs). split; [done|]. by exists t, w.
      * intros (? & ? & [= <- <-] & t & w & -> & Hf). apply (wild_star p t w), IH. eauto.
    + split.
      * inversion 1 as [|? ? ? ? Hw|]; subst; [|done]. apply IH in Hw as (? & ? & [= <- <-] & Hf).
        exists (String c x), xs. split; [done|]. apply filled_char. eauto.
      * intros (? & ? & [= <- <-] & Hf). apply filled_char in Hf as (w & -> & Hf).
        constructor; [congruence|]. apply IH. eauto.
Qed.

Lemma filled_ends part mids final v :
  filled part (mids ++ [final]) v ↔ ∃ w, v = part +:+ w +:+ final ∧ in_order mids w.
Proof.
  revert part v. induction mids as [|m ms IH]; intros part v; simpl.
  - split; [intros (t & w & -> & ->); by exists t|]. intros (t & -> & _). by exists t, final.
  - split.
    + intros (t & w & -> & (u & -> & Hu)%IH). exists (t +:+ m +:+ u).
      rewrite !str_app_assoc. eauto.
    + intros (u & -> & t & w & -> & Hw). exists t, (m +:+ w +:+ final). rewrite !str_app_assoc.
      split; [done|]. apply IH. eauto.
Qed.

Lemma in_order_app parts t v : in_order parts v → in_order parts (t +:+ v).
Proof.
  destruct parts as [|p ps]; [done|]. intros (u & w & -> & H). exists (t +:+ u), w.
  by rewrite str_app_assoc.
Qed.

(** Taking the first occurrence of each part loses no match. *)
Lemma middle_matches_spec parts v : middle_matches parts v = true ↔ in_order parts v.
Proof.
  revert v. induction parts as [|p ps IH]; intros v; cbn [middle_matches in_order]; [done|].
  destruct (String.eqb_spec p "") as [->|Hp].
  - rewrite IH. split; [intros H; by exists "", v|]. intros (t & w & -> & H). by apply in_order_app.
  - split.
    + destruct (Index v p) as [i|] eqn:Hi; [|done]. apply Index_Some in Hi as (a & b & -> & <-).
      rewrite <-str_app_length, <-str_app_assoc, str_from_app, IH. intros H. exists a, b.
      by rewrite str_app_assoc.
    + intros (t & w & -> & H). destruct (Index_first t p w) as (i & Hi & Hle). rewrite Hi.
      apply Index_Some in Hi as (a & b & He & <-). rewrite He.
      rewrite <-str_app_length, <-str_app_assoc, str_from_app. apply IH.
      destruct (str_app_longer (a +:+ p) b (t +:+ p) w) as [x ->].
      { by rewrite !str_app_assoc. } { rewrite !str_app_length. lia. }
      by apply in_order_app.
Qed.

Lemma str_app_inv_r a x y : x +:+ a = y +:+ a → x = y.
Proof.
  intros H. assert (Hl : String.length x = String.length y).
  { apply (f_equal String.length) in H. rewrite !str_app_length in H. lia. }
  revert y H Hl. induction x as [|c x IH]; intros [|d y] H Hl; simpl in Hl; try lia; [done|].
  inversion H. f_equal. apply IH; [done|lia].
Qed.

(** The two ends of the value are taken off, when they are there. *)
Lemma matches_ends prefix mids suffix v :
  (if negb (String.eqb prefix "") && negb (HasPrefix v prefix) then false
   else
     let v := if String.eqb prefix "" then v else str_from (String.length prefix) v in
     if negb (String.eqb suffix "") && negb (HasSuffix v suffix) then false
     else
       let v := if String.eqb suffix "" then v
                else str_to (String.length v - String.length suffix) v in
       middle_matches mids v) = true
  ↔ ∃ w, v = prefix +:+ w +:+ suffix ∧ in_order mids w.
Proof.
  assert (Hpre : ∀ u, (if String.eqb prefix "" then prefix +:+ u
      else str_from (String.length prefix) (prefix +:+ u)) = u).
  { intros u. destruct (String.eqb_spec prefix "") as [->|]; [done|apply str_from_app]. }
  assert (Hsuf : ∀ u, (if String.eqb suffix "" then u +:+ suffix
      else str_to (String.length (u +:+ suffix) - String.length suffix) (u +:+ suffix)) = u).
  { intros u. destruct (String.eqb_spec suffix "") as [->|]; [apply str_app_nil_r|].
    rewrite str_app_length. replace (_ + _ - _)%nat with (String.length u) by lia. apply str_to_app. }
  split.
  - destruct (negb _ && negb (HasPrefix _ _)) eqn:E; [done|]. apply andb_false_iff in E.
    assert (∃ u, v = prefix +:+ u) as [u ->].
    { destruct E as [E|E]; apply negb_false_iff in E; [apply String.eqb_eq in E as ->; by exists v|].
      by apply HasPrefix_iff. }
    rewrite Hpre. cbn zeta. clear E. destruct (negb _ && negb (HasSuffix _ _)) eqn:E; [done|].
    apply andb_false_iff in E. assert (∃ x, u = x +:+ suffix) as [x ->].
    { destruct E as [E|E]; apply negb_false_iff in E; [|by apply HasSuffix_iff].
      apply String.eqb_eq in E as ->. exists u. by rewrite str_app_nil_r. }
    rewrite Hsuf, middle_matches_spec. eauto.
  - intros (w & -> & Hw).
    assert (HasPrefix (prefix +:+ w +:+ suffix) prefix = true) as -> by (apply HasPrefix_iff; eauto).
    rewrite andb_false_r, Hpre. cbn zeta. rewrite HasSuffix_app, andb_false_r, Hsuf.
    by apply middle_matches_spec.
Qed.

(** Without a star a pattern matches itself only. *)
Lemma SplitByte_whole c s : Contains s (String c "") = false → SplitByte c s = [s].
Proof.
  induction s as [|d s IH]; [done|]. cbn [SplitByte]. unfold Contains; fold Contains.
  rewrite orb_false_iff. intros [Hp H]. simpl in Hp. destruct (Ascii.ascii_dec c d) as [->|Hne].
  { by destruct s. }
  apply Ascii.eqb_neq in Hne as ->. by rewrite (IH H).
Qed.

Lemma SplitByte_more c s : Contains s (String c "") = true →
  ∃ x mids y, SplitByte c s = x :: mids ++ [y].
Proof.
  induction s as [|d s IH]; [done|]. cbn [SplitByte]. unfold Contains; fold Contains.
  rewrite orb_true_iff. intros H. destruct (Ascii.eqb_spec c d) as [->|Hne].
  - destruct (SplitByte_cons d s) as (x & xs & ->).
    destruct (exists_last (l := x :: xs)) as (l & y & ->); [done|]. by exists "", l, y.
  - destruct H as [H|H]; [simpl in H; by destruct (Ascii.ascii_dec c d)|].
    destruct (IH H) as (x & mids & y & ->). by exists (String d x), mids, y.
Qed.

(** A wildcard pattern of an exclusion list matches a model exactly when the model is the
    pattern with each star replaced by some text, possibly none. Looking for every part at its
    first occurrence, as the code does, misses no match; an empty pattern matches nothing. *)
Lemma MatchWildcard_spec pattern value :
  MatchWildcard pattern value = true ↔ pattern ≠ "" ∧ wildcard pattern value.
Proof.
  unfold MatchWildcard. destruct (String.eqb_spec pattern "") as [->|Hne]; [naive_solver|].
  rewrite wildcard_filled. destruct (Contains pattern "*") eqn:Hc; cbn [negb].
  - apply SplitByte_more in Hc as (x & mids & y & ->). cbn [head default tail].
    change (x :: mids ++ [y]) with ((x :: mids) ++ [y]). rewrite last_snoc. cbn [default app].
    rewrite removelast_last, matches_ends, <-filled_ends. naive_solver.
  - rewrite (SplitByte_whole _ _ Hc), String.eqb_eq. simpl. naive_solver.
Qed.

(** ** Spellings *)

Definition modelSpellings (id0 : string) : list string :=
  let id := ToLower (TrimSpace id0) in
  if String.eqb id "" then []
  else match Index id "/" with
       | Some idx =>
           if ((0 <? idx)%nat && (idx <? String.length id - 1)%nat)
           then [id; str_from (idx + 1) id] else [id]
       | None => [id]
       end.

Definition ChannelGroupExcludesModel (excluded : list string) (model : string) : bool :=
  let requested := modelSpellings model in
  existsb (λ entry, existsb (λ pattern, existsb (MatchWildcard pattern) requested)
    (modelSpellings entry)) excluded.

(** [DiscoveredModel]: the lookup that model discovery installs, if any. *)
Class ModelDiscovery := discoveredModel : option (string → string → bool).

Definition DiscoveredModel {MD : ModelDiscovery} (tenantID modelID : string) : bool :=
  match discoveredModel with Some fn => fn tenantID modelID | None => false end.

(** *** An exclusion covers both spellings *)

Lemma Index_byte a c b : LastIndexByte a c = None →
  Index (a +:+ String c b) (String c "") = Some (String.length a).
Proof.
  induction a as [|d a IH]; intros H.
  - change ("" +:+ String c b) with (String c b). rewrite Index_unfold. unfold HasPrefix. simpl.
    destruct (Ascii.ascii_dec c c); [by destruct b|done].
  - simpl in H. destruct (LastIndexByte a c); [done|]. destruct (Ascii.eqb_spec c d) as [->|Hne]; [done|].
    change (String d a +:+ String c b) with (String d (a +:+ String c b)). rewrite Index_unfold.
    unfold HasPrefix. simpl. destruct (Ascii.ascii_dec c d); [done|]. by rewrite IH.
Qed.

Lemma Index_no_byte s c : LastIndexByte s c = None → Index s (String c "") = None.
Proof.
  induction s as [|d s IH]; [done|]. simpl LastIndexByte. intros H.
  destruct (LastIndexByte s c); [done|]. destruct (Ascii.eqb_spec c d) as [->|Hne]; [done|].
  rewrite Index_unfold. unfold HasPrefix. simpl. destruct (Ascii.ascii_dec c d); [done|]. by rewrite IH.
Qed.

(** An identifier as a list spells it: nothing to trim, no upper-case letters. *)
Definition spelled (id : string) : Prop := ToLower (TrimSpace id) = id ∧ id ≠ "".

Definition routed (prefix id : string) : string := prefix +:+ String "/"%char id.

Lemma spellings_bare id : spelled id → LastIndexByte id "/"%char = None → modelSpellings id = [id].
Proof.
  unfold modelSpellings. intros [-> Hne%String.eqb_neq] H. by rewrite Hne, (Index_no_byte _ _ H).
Qed.

Lemma spellings_routed prefix id : spelled (routed prefix id) → prefix ≠ "" → id ≠ "" →
  LastIndexByte prefix "/"%char = None → modelSpellings (routed prefix id) = [routed prefix id; id].
Proof.
  unfold modelSpellings. intros [-> Hne%String.eqb_neq] Hp Hi H. rewrite Hne.
  assert (Hl : ∀ s, s ≠ "" → (0 < String.length s)%nat) by (intros [|]; simpl; [done|lia]).
  pose proof (Hl _ Hp). pose proof (Hl _ Hi). unfold routed at 1.
  rewrite (Index_byte prefix "/"%char id H). unfold routed at 1. rewrite str_app_length. simpl String.length.
  assert ((0 <? String.length prefix)%nat = true) as -> by (apply Nat.ltb_lt; lia).
  assert ((String.length prefix <? String.length prefix + S (String.length id) - 1)%nat = true) as ->
    by (apply Nat.ltb_lt; lia).
  simpl andb. do 2 f_equal. unfold routed. change (prefix +:+ String "/" id) with (prefix +:+ "/" +:+ id).
  replace (String.length prefix + 1)%nat with (String.length (prefix +:+ "/"))
    by (rewrite str_app_length; simpl; lia).
  by rewrite <-str_app_assoc, str_from_app.
Qed.

Lemma excludes_iff excluded model :
  ChannelGroupExcludesModel excluded model = true ↔
  ∃ entry pattern candidate, entry ∈ excluded ∧ pattern ∈ modelSpellings entry ∧
    candidate ∈ modelSpellings model ∧ MatchWildcard pattern candidate = true.
Proof.
  unfold ChannelGroupExcludesModel. rewrite existsb_exists. setoid_rewrite existsb_exists.
  setoid_rewrite existsb_exists. setoid_rewrite <-list_elem_of_In. naive_solver.
Qed.

(** An exclusion cannot be sidestepped by spelling a model the other way: what a list
    excludes stays excluded when the request puts a route prefix before the model, when the
    entries of the list carry the prefix, and when both do. *)
Lemma exclusion_ignores_prefix excluded prefix model :
  prefix ≠ "" → LastIndexByte prefix "/"%char = None →
  Forall (λ id, spelled id ∧ spelled (routed prefix id) ∧ LastIndexByte id "/"%char = None)
    (model :: excluded) →
  ChannelGroupExcludesModel excluded model = true →
  ChannelGroupExcludesModel excluded (routed prefix model) = true ∧
  ChannelGroupExcludesModel (routed prefix <$> excluded) model = true ∧
  ChannelGroupExcludesModel (routed prefix <$> excluded) (routed prefix model) = true.
Proof.
  intros Hp Hs Hall. rewrite !excludes_iff. intros (entry & pattern & cand & He & Hpat & Hc & Hm).
  assert (Hboth : ∀ id, id ∈ model :: excluded →
    modelSpellings id = [id] ∧ modelSpellings (routed prefix id) = [routed prefix id; id]).
  { intros id [Hb [Hr Hi]]%(proj1 (Forall_forall _ _) Hall). split; [by apply spellings_bare|].
    apply spellings_routed; [done|done|by destruct Hb|done]. }
  destruct (Hboth model ltac:(left)) as [Hm1 Hm2]. destruct (Hboth entry ltac:(by right)) as [He1 He2].
  rewrite Hm1, He1 in *. apply list_elem_of_singleton in Hpat as ->, Hc as ->.
  rewrite Hm2. assert (routed prefix entry ∈ routed prefix <$> excluded) by by apply list_elem_of_fmap_2.
  split; [|split].
  - exists entry, entry, model. rewrite He1. set_solver.
  - exists (routed prefix entry), entry, model. rewrite He2. set_solver.
  - exists (routed prefix entry), entry, model. rewrite He2. set_solver.
Qed.

Lemma exclusion_ignores_prefix_witness :
  ChannelGroupExcludesModel ["grok-*"] "xai/grok-4" = true ∧
  ChannelGroupExcludesModel ["xai/grok-*"] "grok-4" = true ∧
  ChannelGroupExcludesModel ["xai/grok-*"] "xai/grok-4" = true.
Proof.
  apply (exclusion_ignores_prefix ["grok-*"] "xai" "grok-4"); [done|done| |vm_compute; reflexivity].
  repeat constructor; vm_compute; try reflexivity; discriminate.
Defined.
