(* ===== verification/Thinking.v ===== *)
(** * Thinking configuration: parsing, conversion, validation

    Models [src/internal/thinking]: the suffix parsers of [suffix.go], the
    level/budget conversion of [convert.go], [ValidateConfig] and its helpers of
    [validate.go], the extraction from request bodies, the stripping and the
    pipeline [ApplyThinking] of [apply.go] and [strip.go].

    The gjson and sjson libraries are the class [GJSON] (a body and what is read
    from it by path); the appliers of the providers and the model registry are the
    class [ThinkingEnv], which is what [ApplyThinking] asks of them. Log calls and
    error messages are left out, error codes are kept.

    [ValidateConfig_within_limits]: what is accepted is within the limits of the model, but
    for [auto_becomes_medium] and [uppercase_auto_escapes]. [suffix_budget_accepted],
    [ApplyThinking_suffix]: budgets in the suffix of a model name. *)
From S2P Require Import Prelude GoModel ModelNames.

(** ** Data *)

Inductive ThinkingMode := ModeBudget | ModeLevel | ModeNone | ModeAuto.

#[export] Instance ThinkingMode_eq_dec : EqDecision ThinkingMode.
Proof. solve_decision. Defined.

Definition mode_is (m n : ThinkingMode) : bool := bool_decide (m = n).

Record ThinkingConfig := MkConfig { Mode : ThinkingMode; Budget : Z; Level : string }.

Definition no_config : ThinkingConfig := MkConfig ModeBudget 0 "".

Record ThinkingSupport := MkSupport {
  Min : Z; Max : Z; ZeroAllowed : bool; DynamicAllowed : bool; Levels : list string }.

Record ModelInfo := MkModelInfo {
  mi_ID : string; mi_Thinking : option ThinkingSupport; mi_UserDefined : bool }.

Inductive ErrorCode := ErrUnknownLevel | ErrThinkingNotSupported | ErrLevelNotSupported
  | ErrBudgetOutOfRange.

Record ThinkingError := MkThinkingError { te_Code : ErrorCode; te_Model : string }.

(** ** Level and budget *)

Definition levelToBudgetMap : gmap string Z :=
  list_to_map [("none", 0); ("auto", -1); ("minimal", 512); ("low", 1024); ("medium", 8192);
               ("high", 24576); ("xhigh", 32768)].

Definition ConvertLevelToBudget (level : string) : option Z := levelToBudgetMap !! ToLower level.

Definition ThresholdMinimal : Z := 512.
Definition ThresholdLow : Z := 1024.
Definition ThresholdMedium : Z := 8192.
Definition ThresholdHigh : Z := 24576.

Definition ConvertBudgetToLevel (budget : Z) : option string :=
  if budget <? -1 then None
  else if budget =? -1 then Some "auto"
  else if budget =? 0 then Some "none"
  else if budget <=? ThresholdMinimal then Some "minimal"
  else if budget <=? ThresholdLow then Some "low"
  else if budget <=? ThresholdMedium then Some "medium"
  else if budget <=? ThresholdHigh then Some "high"
  else Some "xhigh".

Inductive ModelCapability := CapabilityUnknown | CapabilityNone | CapabilityBudgetOnly
  | CapabilityLevelOnly | CapabilityHybrid.

Definition has_levels (s : ThinkingSupport) : bool := (0 <? length (Levels s))%nat.

Definition detectModelCapability (modelInfo : option ModelInfo) : ModelCapability :=
  match modelInfo with
  | None => CapabilityUnknown
  | Some mi =>
      match mi_Thinking mi with
      | None => CapabilityNone
      | Some support =>
          let hasBudget := (0 <? Min support) || (0 <? Max support) in
          let hasLevels := has_levels support in
          if hasBudget && hasLevels then CapabilityHybrid
          else if hasBudget then CapabilityBudgetOnly
          else if hasLevels then CapabilityLevelOnly
          else CapabilityNone
      end
  end.

(** ** Suffixes *)

Definition ParseNumericSuffix (rawSuffix : string) : option Z :=
  if String.eqb rawSuffix "" then None
  else match Atoi rawSuffix with
       | None => None
       | Some value => if value <? 0 then None else Some value
       end.

Definition ParseSpecialSuffix (rawSuffix : string) : option ThinkingMode :=
  if String.eqb rawSuffix "" then None
  else
    let s := ToLower rawSuffix in
    if String.eqb s "none" then Some ModeNone
    else if String.eqb s "auto" || String.eqb s "-1" then Some ModeAuto
    else None.

Definition suffixLevels : list string := ["minimal"; "low"; "medium"; "high"; "xhigh"; "max"].

Definition ParseLevelSuffix (rawSuffix : string) : option string :=
  if String.eqb rawSuffix "" then None
  else
    let s := ToLower rawSuffix in
    if existsb (String.eqb s) suffixLevels then Some s else None.

Definition parseSuffixToConfig (rawSuffix : string) : ThinkingConfig :=
  match ParseSpecialSuffix rawSuffix with
  | Some ModeNone => MkConfig ModeNone 0 ""
  | Some ModeAuto => MkConfig ModeAuto (-1) ""
  | _ =>
      match ParseLevelSuffix rawSuffix with
      | Some level => MkConfig ModeLevel 0 level
      | None =>
          match ParseNumericSuffix rawSuffix with
          | Some budget =>
              if budget =? 0 then MkConfig ModeNone 0 "" else MkConfig ModeBudget budget ""
          | None => no_config
          end
      end
  end.

(** ** Validation *)

(** [int] addition and [/ 2], which truncates towards zero. *)
Definition mid_range (s : ThinkingSupport) : Z := Z.quot (wrap64 (Min s + Max s)) 2.

Definition isLevelSupported (level : string) (supported : list string) : bool :=
  existsb (λ s, EqualFold level (TrimSpace s)) supported.

Definition standardLevelOrder : list string := ["minimal"; "low"; "medium"; "high"; "xhigh"].

(** [-1] is [None]. *)
Fixpoint index_fold (level : string) (l : list string) : option Z :=
  match l with
  | [] => None
  | x :: xs => if EqualFold level x then Some 0 else Z.succ <$> index_fold level xs
  end.

Definition levelIndex (level : string) : option Z := index_fold level standardLevelOrder.

Definition clamp_step (pos : Z) (best : Z * Z) (s : string) : Z * Z :=
  let '(bestIdx, bestDist) := best in
  match levelIndex (TrimSpace s) with
  | None => best
  | Some idx =>
      let dist := Z.abs (pos - idx) in
      if (dist <? bestDist) || ((dist =? bestDist) && (idx <? bestIdx)) then (idx, dist) else best
  end.

Definition clampLevel (level : string) (supported : list string) : string :=
  if (length supported =? 0)%nat || isLevelSupported level supported then level
  else
    match levelIndex level with
    | None => level
    | Some pos =>
        let '(bestIdx, _) :=
          foldl (clamp_step pos) (-1, Z.of_nat (length standardLevelOrder) + 1) supported in
        if 0 <=? bestIdx then default level (standardLevelOrder !! Z.to_nat bestIdx) else level
    end.

Definition clampBudget (value : Z) (support : ThinkingSupport) : Z :=
  if value =? -1 then value
  else if (value =? 0) && ! ZeroAllowed support then Min support
  else if (Min support =? 0) && (Max support =? 0) then value
  else if value <? Min support then
    (if (value =? 0) && ZeroAllowed support then 0 else Min support)
  else if Max support <? value then Max support
  else value.

Definition one_of (l : list string) (provider : string) : bool := existsb (String.eqb provider) l.

Definition isBudgetBasedProvider : string → bool :=
  one_of ["gemini"; "gemini-cli"; "antigravity"; "claude"].
Definition isLevelBasedProvider : string → bool :=
  one_of ["openai"; "openai-response"; "codex"; "xai"].
Definition isGeminiFamily : string → bool := one_of ["gemini"; "gemini-cli"; "antigravity"].

Definition isSameProviderFamily (from to : string) : bool :=
  if String.eqb from to then true else isGeminiFamily from && isGeminiFamily to.

Definition convertAutoToMidRange (config : ThinkingConfig) (support : ThinkingSupport)
    : ThinkingConfig :=
  if has_levels support && (Min support =? 0) && (Max support =? 0)
  then MkConfig ModeLevel 0 "medium"
  else
    let mid := mid_range support in
    if (mid <=? 0) && ZeroAllowed support then MkConfig ModeNone 0 (Level config)
    else if mid <=? 0 then MkConfig ModeBudget (Min support) (Level config)
    else MkConfig ModeBudget mid (Level config).

(** The switch on the capability: the converted configuration and
    [budgetDerivedFromLevel]. *)
Definition convert_format (config : ThinkingConfig) (capability : ModelCapability)
    (support : ThinkingSupport) : (ThinkingConfig * bool) + ErrorCode :=
  match capability with
  | CapabilityBudgetOnly =>
      if mode_is (Mode config) ModeLevel then
        if String.eqb (Level config) "auto" then inl (config, false)
        else match ConvertLevelToBudget (Level config) with
             | None => inr ErrUnknownLevel
             | Some budget => inl (MkConfig ModeBudget budget "", true)
             end
      else inl (config, false)
  | CapabilityLevelOnly =>
      if mode_is (Mode config) ModeBudget then
        match ConvertBudgetToLevel (Budget config) with
        | None => inr ErrUnknownLevel
        | Some level => inl (MkConfig ModeLevel 0 (clampLevel level (Levels support)), false)
        end
      else inl (config, false)
  | _ => inl (config, false)
  end.

(** The three [if]s that turn special values into modes. *)
Definition special_modes (config : ThinkingConfig) : ThinkingConfig :=
  let config := if mode_is (Mode config) ModeLevel && String.eqb (Level config) "none"
                then MkConfig ModeNone 0 "" else config in
  let config := if mode_is (Mode config) ModeLevel && String.eqb (Level config) "auto"
                then MkConfig ModeAuto (-1) "" else config in
  if mode_is (Mode config) ModeBudget && (Budget config =? 0)
  then MkConfig ModeNone (Budget config) "" else config.

(** The level check, with the clamp across provider families. *)
Definition check_level (config : ThinkingConfig) (support : ThinkingSupport)
    (allowClampUnsupported : bool) : ThinkingConfig + ErrorCode :=
  if has_levels support && mode_is (Mode config) ModeLevel then
    if isLevelSupported (Level config) (Levels support) then inl config
    else
      let config := if allowClampUnsupported
        then MkConfig (Mode config) (Budget config) (clampLevel (Level config) (Levels support))
        else config in
      if isLevelSupported (Level config) (Levels support) then inl config
      else inr ErrLevelNotSupported
  else inl config.

(** The strict range check of a budget the client itself sent. *)
Definition budget_rejected (config : ThinkingConfig) (support : ThinkingSupport)
    (strictBudget budgetDerivedFromLevel : bool) : bool :=
  strictBudget && mode_is (Mode config) ModeBudget && ! budgetDerivedFromLevel &&
  (negb (Min support =? 0) || negb (Max support =? 0)) &&
  ((Budget config <? Min support) || (Max support <? Budget config) ||
   ((Budget config =? 0) && ! ZeroAllowed support)).

(** The last step: the budget is clamped, and a disabled configuration that
    still has a budget gets the lowest level. *)
Definition clamp_config (config : ThinkingConfig) (support : ThinkingSupport) (toFormat : string)
    : ThinkingConfig :=
  if mode_is (Mode config) ModeNone && String.eqb toFormat "claude"
  then MkConfig ModeNone 0 ""
  else
    let config := match Mode config with
      | ModeLevel => config
      | m => MkConfig m (clampBudget (Budget config) support) (Level config)
      end in
    if mode_is (Mode config) ModeNone && (0 <? Budget config) && has_levels support
    then MkConfig ModeNone (Budget config) (default "" (head (Levels support)))
    else config.

Definition ValidateConfig (config : ThinkingConfig) (modelInfo : option ModelInfo)
    (fromFormat0 toFormat0 : string) (fromSuffix : bool) : ThinkingConfig + ThinkingError :=
  let fromFormat := ToLower (TrimSpace fromFormat0) in
  let toFormat := ToLower (TrimSpace toFormat0) in
  let model := match modelInfo with
    | Some mi => if String.eqb (mi_ID mi) "" then "unknown" else mi_ID mi
    | None => "unknown" end in
  match modelInfo ≫= mi_Thinking with
  | None =>
      if negb (mode_is (Mode config) ModeNone)
      then inr (MkThinkingError ErrThinkingNotSupported model) else inl config
  | Some support =>
      let allowClampUnsupported := isBudgetBasedProvider fromFormat && isLevelBasedProvider toFormat in
      let strictBudget := ! fromSuffix && negb (String.eqb fromFormat "") &&
                          isSameProviderFamily fromFormat toFormat in
      match convert_format config (detectModelCapability modelInfo) support with
      | inr code => inr (MkThinkingError code "")
      | inl (config, budgetDerivedFromLevel) =>
          match check_level (special_modes config) support allowClampUnsupported with
          | inr code => inr (MkThinkingError code "")
          | inl config =>
              if budget_rejected config support strictBudget budgetDerivedFromLevel
              then inr (MkThinkingError ErrBudgetOutOfRange "")
              else
                let config := if mode_is (Mode config) ModeAuto && ! DynamicAllowed support
                              then convertAutoToMidRange config support else config in
                inl (clamp_config config support toFormat)
          end
      end
  end.

(** ** Request bodies *)

(** What [apply.go] and [strip.go] use of gjson and sjson. [GetBytes] is [None]
    where [Result.Exists] is false. *)
Class GJSON := {
  Body : Type;
  JResult : Type;
  body_empty : Body → bool;
  ValidBytes : Body → bool;
  GetBytes : Body → string → option JResult;
  Result_String : JResult → string;
  Result_Int : JResult → Z;
  Result_Bool : JResult → bool;
  DeleteBytes : Body → string → Body
}.

Section bodies.
Context {J : GJSON}.

Definition config_of_budget (value : Z) : ThinkingConfig :=
  if value =? 0 then MkConfig ModeNone 0 ""
  else if value =? -1 then MkConfig ModeAuto (-1) ""
  else MkConfig ModeBudget value "".

Definition extractClaudeConfig (body : Body) : ThinkingConfig :=
  let thinkingType := default "" (Result_String <$> GetBytes body "thinking.type") in
  if String.eqb thinkingType "disabled" then MkConfig ModeNone 0 ""
  else match GetBytes body "thinking.budget_tokens" with
       | Some budget => config_of_budget (Result_Int budget)
       | None =>
           if String.eqb thinkingType "enabled" then MkConfig ModeAuto (-1) "" else no_config
       end.

Definition first_of (body : Body) (path1 path2 : string) : option JResult :=
  match GetBytes body path1 with Some r => Some r | None => GetBytes body path2 end.

Definition extractGeminiConfig (body : Body) (provider : string) : ThinkingConfig :=
  let prefix := if one_of ["gemini-cli"; "antigravity"] provider
                then "request.generationConfig.thinkingConfig"
                else "generationConfig.thinkingConfig" in
  match first_of body (prefix +:+ ".thinkingLevel") (prefix +:+ ".thinking_level") with
  | Some level =>
      let value := Result_String level in
      if String.eqb value "none" then MkConfig ModeNone 0 ""
      else if String.eqb value "auto" then MkConfig ModeAuto (-1) ""
      else MkConfig ModeLevel 0 value
  | None =>
      match first_of body (prefix +:+ ".thinkingBudget") (prefix +:+ ".thinking_budget") with
      | Some budget => config_of_budget (Result_Int budget)
      | None => no_config
      end
  end.

Definition config_of_effort (effort : option JResult) : ThinkingConfig :=
  match effort with
  | Some effort =>
      let value := Result_String effort in
      if String.eqb value "none" then MkConfig ModeNone 0 "" else MkConfig ModeLevel 0 value
  | None => no_config
  end.

Definition extractOpenAIConfig (body : Body) : ThinkingConfig :=
  config_of_effort (GetBytes body "reasoning_effort").

Definition extractCodexConfig (body : Body) : ThinkingConfig :=
  config_of_effort (GetBytes body "reasoning.effort").

Definition config_of_switch (on : JResult) : ThinkingConfig :=
  if Result_Bool on then MkConfig ModeBudget 1 "" else MkConfig ModeNone 0 "".

Definition extractIFlowConfig (body : Body) : ThinkingConfig :=
  match GetBytes body "chat_template_kwargs.enable_thinking" with
  | Some enabled => config_of_switch enabled
  | None =>
      match GetBytes body "reasoning_split" with
      | Some split => config_of_switch split
      | None => no_config
      end
  end.

Definition hasThinkingConfig (config : ThinkingConfig) : bool :=
  negb (mode_is (Mode config) ModeBudget) || negb (Budget config =? 0) ||
  negb (String.eqb (Level config) "").

Definition extractThinkingConfig (body : Body) (provider : string) : ThinkingConfig :=
  if body_empty body || ! ValidBytes body then no_config
  else if String.eqb provider "claude" then extractClaudeConfig body
  else if one_of ["gemini"; "gemini-cli"; "antigravity"] provider
  then extractGeminiConfig body provider
  else if String.eqb provider "openai" then extractOpenAIConfig body
  else if one_of ["codex"; "xai"; "openai-response"] provider then extractCodexConfig body
  else if String.eqb provider "iflow" then
    let config := extractIFlowConfig body in
    if hasThinkingConfig config then config else extractOpenAIConfig body
  else if String.eqb provider "kimi" then extractOpenAIConfig body
  else no_config.

Definition strip_paths (provider : string) : list string :=
  if String.eqb provider "claude" then ["thinking"]
  else if String.eqb provider "gemini" then ["generationConfig.thinkingConfig"]
  else if one_of ["gemini-cli"; "antigravity"] provider
  then ["request.generationConfig.thinkingConfig"]
  else if String.eqb provider "openai" then ["reasoning_effort"]
  else if one_of ["codex"; "xai"] provider then ["reasoning.effort"]
  else if String.eqb provider "iflow" then
    ["chat_template_kwargs.enable_thinking"; "chat_template_kwargs.clear_thinking";
     "reasoning_split"; "reasoning_effort"]
  else [].

Definition StripThinkingConfig (body : Body) (provider : string) : Body :=
  if body_empty body || ! ValidBytes body then body
  else foldl DeleteBytes body (strip_paths provider).

(** ** The pipeline *)

(** What [ApplyThinking] asks of its environment: the applier registered for a
    provider ([ProviderApplier.Apply]) and the model registry. *)
Class ThinkingEnv := {
  GetProviderApplier : string →
    option (Body → ThinkingConfig → option ModelInfo → Body * option ThinkingError);
  LookupModelInfo : string → string → option ModelInfo
}.

Context {E : ThinkingEnv}.

Definition IsUserDefinedModel (modelInfo : option ModelInfo) : bool :=
  match modelInfo with None => true | Some mi => mi_UserDefined mi end.

Definition normalizeUserDefinedConfig (config : ThinkingConfig) (fromFormat toFormat : string)
    : ThinkingConfig :=
  if negb (mode_is (Mode config) ModeLevel) then config
  else if ! isBudgetBasedProvider toFormat || ! isLevelBasedProvider fromFormat then config
  else match ConvertLevelToBudget (Level config) with
       | None => config
       | Some budget => MkConfig ModeBudget budget ""
       end.

(** The suffix has priority over the body. *)
Definition requested_config (body : Body) (toFormat : string) (suffix : modelSuffixResult)
    : ThinkingConfig :=
  if HasSuf suffix then parseSuffixToConfig (RawSuffix suffix)
  else extractThinkingConfig body toFormat.

Definition applyUserDefinedModel (body : Body) (modelInfo : option ModelInfo)
    (fromFormat toFormat : string) (suffix : modelSuffixResult) : Body * option ThinkingError :=
  let config := requested_config body toFormat suffix in
  if ! hasThinkingConfig config then (body, None)
  else match GetProviderApplier toFormat with
       | None => (body, None)
       | Some apply => apply body (normalizeUserDefinedConfig config fromFormat toFormat) modelInfo
       end.

Definition ApplyThinking (body : Body) (model fromFormat0 toFormat0 providerKey0 : string)
    : Body * option ThinkingError :=
  let providerFormat := ToLower (TrimSpace toFormat0) in
  let providerKey1 := ToLower (TrimSpace providerKey0) in
  let providerKey := if String.eqb providerKey1 "" then providerFormat else providerKey1 in
  let fromFormat1 := ToLower (TrimSpace fromFormat0) in
  let fromFormat := if String.eqb fromFormat1 "" then providerFormat else fromFormat1 in
  match GetProviderApplier providerFormat with
  | None => (body, None)
  | Some apply =>
      let suffix := ParseSuffix model in
      let modelInfo := LookupModelInfo (ModelName suffix) providerKey in
      if IsUserDefinedModel modelInfo
      then applyUserDefinedModel body modelInfo fromFormat providerFormat suffix
      else if bool_decide ((modelInfo ≫= mi_Thinking) = None) then
        (if hasThinkingConfig (extractThinkingConfig body providerFormat)
         then (StripThinkingConfig body providerFormat, None) else (body, None))
      else
        let config := requested_config body providerFormat suffix in
        if ! hasThinkingConfig config then (body, None)
        else match ValidateConfig config modelInfo fromFormat providerFormat (HasSuf suffix) with
             | inr err => (body, Some err)
             | inl validated => apply body validated modelInfo
             end
  end.

End bodies.

(** ** Facts about levels *)

Lemma mode_is_true m n : mode_is m n = true ↔ m = n.
Proof. unfold mode_is. apply bool_decide_eq_true. Qed.

Lemma ConvertLevelToBudget_cases l b :
  ConvertLevelToBudget l = Some b →
  (ToLower l, b) ∈ [("none", 0); ("auto", -1); ("minimal", 512); ("low", 1024); ("medium", 8192);
                    ("high", 24576); ("xhigh", 32768)].
Proof.
  unfold ConvertLevelToBudget, levelToBudgetMap. intros H. by apply elem_of_list_to_map_2 in H.
Qed.

(** The levels a budget converts to, with their upper bounds. *)
Lemma ConvertBudgetToLevel_cases b l :
  ConvertBudgetToLevel b = Some l →
  b = -1 ∧ l = "auto" ∨ b = 0 ∧ l = "none" ∨ 1 ≤ b ≤ 512 ∧ l = "minimal" ∨
  513 ≤ b ≤ 1024 ∧ l = "low" ∨ 1025 ≤ b ≤ 8192 ∧ l = "medium" ∨
  8193 ≤ b ≤ 24576 ∧ l = "high" ∨ 24577 ≤ b ∧ l = "xhigh".
Proof.
  unfold ConvertBudgetToLevel, ThresholdMinimal, ThresholdLow, ThresholdMedium, ThresholdHigh.
  intros H. repeat case_if_in H; zbool; inversion H; subst; lia || intuition (lia || done).
Qed.

Lemma ConvertBudgetToLevel_total b : -1 ≤ b → ∃ l, ConvertBudgetToLevel b = Some l.
Proof.
  intros Hb. unfold ConvertBudgetToLevel.
  destruct (Z.ltb_spec b (-1)); [lia|]. repeat case_if; eauto.
Qed.

Lemma index_fold_Some l level i :
  index_fold level l = Some i →
  0 ≤ i < Z.of_nat (length l) ∧ ∃ x, l !! Z.to_nat i = Some x ∧ EqualFold level x = true.
Proof.
  revert i. induction l as [|x l IH]; intros i H; simpl in H; [done|].
  destruct (EqualFold level x) eqn:E.
  - injection H as <-. simpl length. split; [lia|]. by exists x.
  - destruct (index_fold level l) as [j|]; [|done]. simpl in H. injection H as <-.
    destruct (IH j eq_refl) as (Hj & y & Hy & Ey). simpl length. split; [lia|].
    exists y. by rewrite Z2Nat.inj_succ by lia.
Qed.

Lemma isLevelSupported_spec level supported :
  isLevelSupported level supported = true ↔
  ∃ s, s ∈ supported ∧ EqualFold level (TrimSpace s) = true.
Proof.
  unfold isLevelSupported. rewrite existsb_exists.
  setoid_rewrite list_elem_of_In. naive_solver.
Qed.

Lemma EqualFold_iff a b : EqualFold a b = true ↔ ToLower a = ToLower b.
Proof. apply String.eqb_eq. Qed.

(** A standard level and its index determine one another. *)
Lemma levelIndex_order i x : standardLevelOrder !! i = Some x → levelIndex x = Some (Z.of_nat i).
Proof. do 5 (destruct i as [|i]; [intros [= <-]; reflexivity|]). done. Qed.

Lemma levelIndex_ToLower a b : ToLower a = ToLower b → levelIndex a = levelIndex b.
Proof. intros H. unfold levelIndex, standardLevelOrder, index_fold, EqualFold. by rewrite H. Qed.

(** ** The nearest supported level *)

Section nearest.
Context (pos : Z).

(** [(idx, dist)] is the best among the standard levels of [l], the lower one on a tie. *)
Definition nearest_in (l : list string) (best : Z * Z) : Prop :=
  (∃ s, s ∈ l ∧ levelIndex (TrimSpace s) = Some best.1 ∧ best.2 = Z.abs (pos - best.1)) ∧
  ∀ s j, s ∈ l → levelIndex (TrimSpace s) = Some j →
         best.2 < Z.abs (pos - j) ∨ best.2 = Z.abs (pos - j) ∧ best.1 ≤ j.

Definition nothing_in (l : list string) (best : Z * Z) : Prop :=
  best = (-1, 6) ∧ ∀ s, s ∈ l → levelIndex (TrimSpace s) = None.

Lemma clamp_step_nearest l best s :
  0 ≤ pos < 5 → nearest_in l best ∨ nothing_in l best →
  nearest_in (l ++ [s]) (clamp_step pos best s) ∨ nothing_in (l ++ [s]) (clamp_step pos best s).
Proof.
  intros Hpos H. unfold clamp_step. destruct best as [bi bd].
  destruct (levelIndex (TrimSpace s)) as [idx|] eqn:Es.
  2:{ destruct H as [[(s0 & Hin & Hs0) Hmin]|[Hb Hnone]].
      - left. split; [exists s0; split; [apply elem_of_app; by left|done]|].
        intros t j [Ht| ->%list_elem_of_singleton]%elem_of_app Hj; [by apply Hmin with t|congruence].
      - right. split; [done|].
        intros t [Ht| ->%list_elem_of_singleton]%elem_of_app; [by apply Hnone|done]. }
  pose proof (index_fold_Some _ _ _ Es) as [Hidx _]. simpl length in Hidx.
  left. destruct H as [[(s0 & Hin & Hs0 & Hd) Hmin]|[Hb Hnone]]; simpl in *.
  - destruct ((Z.abs (pos - idx) <? bd) || ((Z.abs (pos - idx) =? bd) && (idx <? bi)))%bool eqn:E.
    + split; [exists s; split; [apply elem_of_app; right; by apply list_elem_of_singleton|done]|].
      apply orb_true_iff in E. simpl.
      intros t j [Ht| ->%list_elem_of_singleton]%elem_of_app Hj;
        [|assert (j = idx) as -> by congruence; right; lia].
      destruct (Hmin t j Ht Hj) as [?|[??]];
        (destruct E as [E|[E1 E2]%andb_true_iff]; zbool; lia).
    + apply orb_false_iff in E as [E1 E2]. zbool.
      split; [exists s0; split; [apply elem_of_app; by left|done]|]. simpl.
      intros t j [Ht| ->%list_elem_of_singleton]%elem_of_app Hj; [by apply Hmin with t|].
      assert (j = idx) as -> by congruence.
      apply andb_false_iff in E2 as [E2|E2]; zbool; lia.
  - injection Hb as -> ->.
    replace ((Z.abs (pos - idx) <? 6) || ((Z.abs (pos - idx) =? 6) && (idx <? -1)))%bool with true
      by (symmetry; apply orb_true_iff; left; apply Z.ltb_lt; lia).
    split; [exists s; split; [apply elem_of_app; right; by apply list_elem_of_singleton|done]|].
    intros t j [Ht| ->%list_elem_of_singleton]%elem_of_app Hj.
    + specialize (Hnone t Ht). congruence.
    + assert (j = idx) as -> by congruence. simpl. right. lia.
Qed.

Lemma clamp_fold_nearest l :
  0 ≤ pos < 5 →
  nearest_in l (foldl (clamp_step pos) (-1, 6) l) ∨ nothing_in l (foldl (clamp_step pos) (-1, 6) l).
Proof.
  intros Hpos. induction l as [|s l IH] using rev_ind.
  - right. split; [done|]. intros s Hs. by apply elem_of_nil in Hs.
  - rewrite foldl_snoc. by apply clamp_step_nearest.
Qed.
End nearest.

(** What [clampLevel] returns for a standard level that is not supported. *)
Lemma clampLevel_cases level supported :
  clampLevel level supported = level ∨
  ∃ i j s, levelIndex level = Some i ∧ s ∈ supported ∧ levelIndex (TrimSpace s) = Some j ∧
    standardLevelOrder !! Z.to_nat j = Some (clampLevel level supported) ∧
    ∀ t k, t ∈ supported → levelIndex (TrimSpace t) = Some k →
           Z.abs (i - j) < Z.abs (i - k) ∨ Z.abs (i - j) = Z.abs (i - k) ∧ j ≤ k.
Proof.
  unfold clampLevel. destruct (_ || _)%bool; [by left|].
  destruct (levelIndex level) as [pos|] eqn:Ep; [|by left].
  pose proof (index_fold_Some _ _ _ Ep) as [Hpos _]. simpl length in Hpos.
  change (Z.of_nat (length standardLevelOrder) + 1) with 6.
  pose proof (clamp_fold_nearest pos supported ltac:(lia)) as Hn.
  destruct (foldl (clamp_step pos) (-1, 6) supported) as [bi bd].
  destruct Hn as [[(s & Hin & Hs & Hd) Hmin]|[[= -> ->] _]]; [|by left]. simpl in *.
  pose proof (index_fold_Some _ _ _ Hs) as [Hbi (x & Hx & _)].
  destruct (Z.leb_spec 0 bi); [|lia].
  right. exists pos, bi, s. fold standardLevelOrder in Hx. rewrite Hx. simpl.
  repeat split; try done. intros t k Ht Hk. destruct (Hmin t k Ht Hk) as [?|[??]]; lia.
Qed.

(** The result is supported as soon as some supported level is a standard one. *)
Lemma clampLevel_supported level supported i t j :
  levelIndex level = Some i → t ∈ supported → levelIndex (TrimSpace t) = Some j →
  isLevelSupported (clampLevel level supported) supported = true.
Proof.
  intros Hi Ht Hj. unfold clampLevel.
  destruct (isLevelSupported level supported) eqn:Es; [by rewrite orb_true_r|].
  destruct (Nat.eqb_spec (length supported) 0) as [Hl|_].
  { apply length_zero_iff_nil in Hl as ->. by apply elem_of_nil in Ht. }
  simpl orb. rewrite Hi. pose proof (index_fold_Some _ _ _ Hi) as [Hpos _]. simpl length in Hpos.
  change (Z.of_nat (length standardLevelOrder) + 1) with 6.
  pose proof (clamp_fold_nearest i supported ltac:(lia)) as Hn.
  destruct (foldl (clamp_step i) (-1, 6) supported) as [bi bd].
  destruct Hn as [[(s & Hin & Hs & _) _]|[_ Hnone]]; simpl in *;
    [|specialize (Hnone t Ht); congruence].
  pose proof (index_fold_Some _ _ _ Hs) as [Hbi (x & Hx & Ex)].
  destruct (Z.leb_spec 0 bi); [|lia]. fold standardLevelOrder in Hx. rewrite Hx. simpl.
  apply isLevelSupported_spec. exists s. split; [done|].
  apply EqualFold_iff in Ex. by apply EqualFold_iff.
Qed.

(** ** The validated configuration *)

(** Configurations as [types.go] documents them. *)
Definition config_wf (c : ThinkingConfig) : Prop :=
  match Mode c with
  | ModeBudget => Budget c ≠ -1
  | ModeLevel => True
  | ModeNone => Budget c = 0
  | ModeAuto => Budget c = -1
  end.

(** What asks for automatic mode, and a level that spells "auto" in another case and does not. *)
Definition asks_auto (c : ThinkingConfig) : Prop := Mode c = ModeAuto ∨ Mode c = ModeLevel ∧ Level c = "auto".
Definition spells_auto (c : ThinkingConfig) : Prop :=
  Mode c = ModeLevel ∧ ToLower (Level c) = "auto" ∧ Level c ≠ "auto".

(** A budget range of the registry; [Max = 0] stands for no range. *)
Definition support_wf (s : ThinkingSupport) : Prop := 0 ≤ Min s ≤ Max s ∧ Max s < 2 ^ 62.

(** The smallest budget a model has: nothing, where the format can disable thinking or the model allows
    zero. *)
Definition smallest_budget (s : ThinkingSupport) (toFormat : string) : Z :=
  if (String.eqb (ToLower (TrimSpace toFormat)) "claude" || ZeroAllowed s) then 0 else Min s.

(** What a model accepts of a request: a budget in its range; a level it supports, or "medium" in place
    of automatic mode on a model without a range; automatic mode where it is allowed and asked for;
    disabled, with the smallest budget, and the first level where that is not zero. *)
Definition within_limits (s : ThinkingSupport) (toFormat : string) (asked c : ThinkingConfig) : Prop :=
  match Mode c with
  | ModeBudget => 0 < Max s → Min s ≤ Budget c ≤ Max s
  | ModeLevel =>
      if has_levels s
      then isLevelSupported (Level c) (Levels s) = true ∨
           Level c = "medium" ∧ asks_auto asked ∧ DynamicAllowed s = false ∧ Max s = 0
      else Max s = 0
  | ModeAuto => DynamicAllowed s = true ∧ asks_auto asked ∧ Budget c = -1
  | ModeNone => Budget c = smallest_budget s toFormat ∧
      (0 < Budget c → has_levels s = true → head (Levels s) = Some (Level c))
  end.

(** The level "AUTO" on a model with a range of budgets: a budget of -1. *)
Definition auto_escaped (s : ThinkingSupport) (asked c : ThinkingConfig) : Prop :=
  spells_auto asked ∧ has_levels s = false ∧ c = MkConfig ModeBudget (-1) "".

Definition canonical_levels : list string :=
  ["none"; "auto"; "minimal"; "low"; "medium"; "high"; "xhigh"; "max"].

Lemma canonical_auto l : l ∈ canonical_levels → ToLower l = "auto" → l = "auto".
Proof.
  intros Hl%list_elem_of_In. simpl in Hl.
  repeat (destruct Hl as [<-|Hl]; [done|]). done.
Qed.

(** Only "auto" converts to -1. *)
Lemma ConvertLevelToBudget_auto l b :
  ConvertLevelToBudget l = Some b → b = -1 → ToLower l = "auto".
Proof.
  intros H ->. apply ConvertLevelToBudget_cases, list_elem_of_In in H. simpl in H.
  repeat (destruct H as [H|H]; [by inversion H|]). done.
Qed.

Lemma clampLevel_auto level supported : clampLevel level supported = "auto" → level = "auto".
Proof.
  destruct (clampLevel_cases level supported) as [->|(i & j & s & _ & _ & _ & Hj & _)]; [done|]. intros E. rewrite E in Hj.
  apply list_elem_of_lookup_2, list_elem_of_In in Hj. simpl in Hj. naive_solver.
Qed.

(** After the format conversion a level remains only where the model has
    levels, or no range, or the level is "auto". *)
Lemma convert_format_wf mi s c c' d :
  mi_Thinking mi = Some s → support_wf s → config_wf c →
  convert_format c (detectModelCapability (Some mi)) s = inl (c', d) →
  (config_wf c' ∧ (asks_auto c' → asks_auto c) ∧
   (Mode c' = ModeLevel → has_levels s = false → Level c' ≠ "auto" → Max s = 0)) ∨
  d = true ∧ auto_escaped s c c'.
Proof.
  intros Hs Hwf Hc H. unfold detectModelCapability in H. rewrite Hs in H.
  destruct Hwf as [? _].
  destruct ((0 <? Min s) || (0 <? Max s))%bool eqn:Eb;
    destruct (has_levels s) eqn:El; simpl in H.
  - left. injection H as <- <-. by split.
  - destruct (mode_is (Mode c) ModeLevel) eqn:Em.
    + apply mode_is_true in Em.
      destruct (String.eqb_spec (Level c) "auto") as [Ea|Ea].
      * left. injection H as <- <-. split; [done|]. split; [done|]. congruence.
      * destruct (ConvertLevelToBudget (Level c)) as [b|] eqn:Econv; [|done].
        injection H as <- <-. destruct (Z.eqb_spec b (-1)) as [->|Hb].
        { right. split; [done|]. split; [|by split]. split; [done|]. split; [|done]. by apply (ConvertLevelToBudget_auto _ (-1)). }
        left. split; [done|]. split; [|done]. unfold asks_auto. simpl. naive_solver.
    + left. injection H as <- <-. split; [done|]. split; [done|]. intros Hm. apply mode_is_true in Hm. congruence.
  - left. destruct (mode_is (Mode c) ModeBudget) eqn:Em; [|by injection H as <- <-].
    apply mode_is_true in Em. unfold config_wf in Hc. rewrite Em in Hc.
    destruct (ConvertBudgetToLevel (Budget c)) as [l|] eqn:Econv; [|done].
    injection H as <- <-. simpl. split; [done|]. split; [|done]. intros [Ha|[_ Ha]]; [done|]. simpl in Ha.
    apply clampLevel_auto in Ha as ->. apply ConvertBudgetToLevel_cases in Econv. naive_solver.
  - left. injection H as <- <-. split; [done|]. split; [done|]. zbool. intros. lia.
Qed.

Lemma special_modes_wf c :
  config_wf c →
  config_wf (special_modes c) ∧ (Mode (special_modes c) = ModeAuto → asks_auto c) ∧
  (Mode (special_modes c) = ModeLevel → special_modes c = c ∧ Level c ≠ "auto") ∧
  (Mode (special_modes c) = ModeBudget → special_modes c = c ∧ Budget c ≠ 0).
Proof.
  intros Hc. unfold special_modes, asks_auto. destruct c as [m b l]. unfold config_wf in *. simpl in *.
  destruct m; simpl.
  - destruct (Z.eqb_spec b 0) as [->|]; simpl; intuition done.
  - destruct (String.eqb_spec l "none"); simpl; [intuition done|].
    destruct (String.eqb_spec l "auto"); simpl; intuition done.
  - subst. simpl. intuition done.
  - subst. simpl. intuition done.
Qed.

Lemma check_level_supported c s clamp c' :
  check_level c s clamp = inl c' →
  Mode c' = Mode c ∧ Budget c' = Budget c ∧ (Mode c ≠ ModeLevel → c' = c) ∧
  (Mode c = ModeLevel → has_levels s = true → isLevelSupported (Level c') (Levels s) = true) ∧
  (has_levels s = false → c' = c).
Proof.
  unfold check_level. intros H. destruct (has_levels s) eqn:El; simpl in H.
  2:{ injection H as <-. intuition done. }
  destruct (mode_is (Mode c) ModeLevel) eqn:Em.
  - apply mode_is_true in Em. rewrite Em.
    destruct (isLevelSupported (Level c) (Levels s)) eqn:E1.
    { injection H as <-. rewrite Em. intuition done. }
    destruct clamp; simpl in H.
    + destruct (isLevelSupported (clampLevel _ _) _) eqn:E2; [|done]. injection H as <-.
      simpl. rewrite Em. intuition done.
    + by rewrite E1 in H.
  - injection H as <-. unfold mode_is in Em. apply bool_decide_eq_false in Em. intuition done.
Qed.

Lemma mid_range_wf s : support_wf s → mid_range s = (Min s + Max s) / 2.
Proof.
  intros [H1 H2]. unfold mid_range. rewrite wrap64_id by (unfold in_int64, two63; lia).
  apply Z.quot_div_nonneg; lia.
Qed.

Lemma convertAutoToMidRange_wf c s :
  support_wf s → DynamicAllowed s = false →
  let c' := convertAutoToMidRange c s in
  match Mode c' with
  | ModeBudget => Min s ≤ Budget c' ≤ Max s
  | ModeLevel => has_levels s = true ∧ Level c' = "medium" ∧ Max s = 0
  | ModeNone => Budget c' = 0
  | ModeAuto => False
  end.
Proof.
  intros Hwf Hd. unfold convertAutoToMidRange. rewrite mid_range_wf by done. destruct Hwf.
  destruct (has_levels s && (Min s =? 0) && (Max s =? 0))%bool eqn:E1; simpl.
  { zbool. done. }
  destruct ((_ <=? 0) && ZeroAllowed s)%bool eqn:E2; simpl; [done|].
  destruct (Z.leb_spec ((Min s + Max s) / 2) 0); simpl; [lia|].
  split; [apply Z.div_le_lower_bound; lia|apply Z.div_le_upper_bound; lia].
Qed.

Lemma clampBudget_range v s :
  support_wf s → v ≠ -1 → 0 < Max s → v ≠ 0 ∨ ZeroAllowed s = false ∨ Min s = 0 →
  Min s ≤ clampBudget v s ≤ Max s.
Proof.
  intros [? _] Hv Hm Hz. unfold clampBudget.
  rewrite (proj2 (Z.eqb_neq v (-1)) Hv).
  destruct ((v =? 0) && negb (ZeroAllowed s))%bool eqn:E1; [lia|].
  destruct ((Min s =? 0) && (Max s =? 0))%bool eqn:E2; [zbool; lia|].
  destruct (Z.ltb_spec v (Min s)).
  - destruct ((v =? 0) && ZeroAllowed s)%bool eqn:E3; [|lia]. zbool. subst.
    destruct Hz as [?|[?|?]]; [lia|congruence|lia].
  - destruct (Z.ltb_spec (Max s) v); lia.
Qed.

Lemma clampBudget_auto s : clampBudget (-1) s = -1.
Proof. reflexivity. Qed.

Lemma clampBudget_zero s :
  support_wf s → clampBudget 0 s = if ZeroAllowed s then 0 else Min s.
Proof.
  intros [? _]. unfold clampBudget. simpl. destruct (ZeroAllowed s) eqn:E; simpl; [|done].
  destruct ((Min s =? 0) && (Max s =? 0))%bool; [done|].
  destruct (Z.ltb_spec 0 (Min s)); [done|]. destruct (Z.ltb_spec (Max s) 0); [lia|done].
Qed.

(** A configuration before the final clamp: as [config_wf], with its level checked. *)
Definition nearly_done (s : ThinkingSupport) (toFormat : string) (asked c : ThinkingConfig) : Prop :=
  match Mode c with
  | ModeBudget => Budget c ≠ -1 ∧ (Budget c ≠ 0 ∨ Min s = 0)
  | ModeAuto => DynamicAllowed s = true ∧ asks_auto asked ∧ Budget c = -1
  | ModeNone => Budget c = 0
  | ModeLevel => within_limits s toFormat asked c
  end.

Lemma convertAutoToMidRange_nearly c s to asked :
  support_wf s → DynamicAllowed s = false → asks_auto asked → nearly_done s to asked (convertAutoToMidRange c s).
Proof.
  intros Hwf Hd Hask. pose proof (convertAutoToMidRange_wf c s Hwf Hd) as Hmid. simpl in Hmid.
  destruct Hwf as [Hwf _]. unfold nearly_done, within_limits. revert Hmid.
  destruct (Mode (convertAutoToMidRange c s)); [lia| |done..].
  intros (-> & -> & Hm). by right.
Qed.

Lemma clamp_config_within s asked c to :
  support_wf s → nearly_done s to asked c → within_limits s to asked (clamp_config c s (ToLower (TrimSpace to))).
Proof.
  intros Hwf Hc. destruct c as [m b l]. unfold nearly_done in Hc. unfold clamp_config. simpl in *.
  destruct m; simpl.
  - destruct Hc as [? Hz]. unfold within_limits. simpl. intros. apply clampBudget_range; try done. tauto.
  - exact Hc.
  - subst b. unfold within_limits, smallest_budget. destruct (String.eqb (ToLower (TrimSpace to)) "claude"); simpl; [split; [done|lia]|].
    rewrite clampBudget_zero by done.
    destruct (ZeroAllowed s) eqn:Ez; simpl; [split; [done|lia]|].
    destruct (Z.ltb_spec 0 (Min s)); simpl; [|split; [done|lia]].
    destruct (has_levels s) eqn:El; simpl; [|done]. split; [done|]. intros _ _.
    unfold has_levels in El. by destruct (Levels s).
  - destruct Hc as (Hd & Ha & ->). unfold within_limits. simpl. by rewrite clampBudget_auto.
Qed.

(** The whole of [ValidateConfig]. *)
Lemma ValidateConfig_limits config mi s from to suffix c :
  mi_Thinking mi = Some s → support_wf s → config_wf config →
  ValidateConfig config (Some mi) from to suffix = inl c → within_limits s to config c ∨ auto_escaped s config c.
Proof.
  intros Hs Hwf Hc. unfold ValidateConfig. cbv zeta.
  change (Some mi ≫= mi_Thinking) with (mi_Thinking mi). rewrite Hs.
  destruct (convert_format _ _ _) as [[c1 d]|] eqn:E1; [|done].
  destruct (convert_format_wf mi s config c1 d Hs Hwf Hc E1) as [(Hc1 & Hask & Hlev)|(-> & Hesc)].
  2:{ pose proof Hesc as (_ & El & ->). unfold special_modes, check_level. simpl. rewrite El. simpl.
      unfold budget_rejected. rewrite !andb_false_r. simpl. intros [= <-]. by right. }
  destruct (special_modes_wf c1 Hc1) as (Hc2 & Ha2 & Hl2 & Hb2).
  destruct (check_level _ _ _) as [c3|] eqn:E3; [|done].
  destruct (check_level_supported _ _ _ _ E3) as (Hm3 & Hb3 & Hne3 & Hsup3 & Hno3).
  destruct (budget_rejected _ _ _ _); [done|].
  intros [= <-]. left. apply clamp_config_within; [done|].
  destruct (mode_is (Mode c3) ModeAuto && negb (DynamicAllowed s))%bool eqn:Ea.
  - apply andb_true_iff in Ea as [Em Ed]. apply mode_is_true in Em. apply negb_true_iff in Ed.
    apply convertAutoToMidRange_nearly; [done..|]. apply Hask, Ha2. congruence.
  - unfold nearly_done. destruct (Mode c3) eqn:E4.
    + symmetry in Hm3. destruct (Hb2 Hm3) as [Heq ?]. rewrite Hb3, Heq.
      unfold config_wf in Hc1. rewrite <- Heq, Hm3 in Hc1. split; [by rewrite <- Heq|by left].
    + symmetry in Hm3. destruct (Hl2 Hm3) as [Heq ?]. unfold within_limits. rewrite E4.
      destruct (has_levels s) eqn:El; [left; by apply Hsup3|].
      apply Hlev; [by rewrite <- Heq|done|].
      rewrite (Hno3 eq_refl), Heq in *. done.
    + symmetry in Hm3. unfold config_wf in Hc2. rewrite Hm3 in Hc2. congruence.
    + symmetry in Hm3. unfold config_wf in Hc2. rewrite Hm3 in Hc2.
      apply andb_false_iff in Ea as [Ea|Ea].
      * unfold mode_is in Ea. by apply bool_decide_eq_false in Ea.
      * apply negb_false_iff in Ea. split; [done|]. split; [by apply Hask, Ha2|congruence].
Qed.

(** ** Suffix configurations *)

Lemma ParseLevelSuffix_canonical raw l : ParseLevelSuffix raw = Some l → l ∈ canonical_levels.
Proof.
  unfold ParseLevelSuffix. destruct (String.eqb raw ""); [done|].
  destruct (existsb (String.eqb (ToLower raw)) suffixLevels) eqn:El; [|done]. intros [= <-].
  apply existsb_exists in El as (x & Hx & ->%String.eqb_eq).
  apply list_elem_of_In. simpl in *. tauto.
Qed.

Lemma ParseNumericSuffix_nonneg raw b : ParseNumericSuffix raw = Some b → 0 ≤ b.
Proof.
  unfold ParseNumericSuffix. destruct (String.eqb raw ""); [done|].
  destruct (Atoi raw) as [z|]; [|done]. destruct (Z.ltb_spec z 0); [done|]. by intros [= <-].
Qed.

Lemma parseSuffixToConfig_wf raw : config_wf (parseSuffixToConfig raw) ∧ ¬ spells_auto (parseSuffixToConfig raw).
Proof.
  unfold parseSuffixToConfig.
  assert (Hplain : ∀ m b, config_wf (MkConfig m b "") → config_wf (MkConfig m b "") ∧ ¬ spells_auto (MkConfig m b "")).
  { intros m b H. split; [done|]. intros (_ & H' & _). discriminate H'. }
  destruct (ParseSpecialSuffix raw) as [[]|]; try by apply Hplain.
  all: destruct (ParseLevelSuffix raw) as [l|] eqn:El;
    [split; [done|]; intros (_ & Ha & Hne); apply Hne; cbn in *; apply canonical_auto; [by eapply ParseLevelSuffix_canonical|done]|].
  all: destruct (ParseNumericSuffix raw) as [b|] eqn:En; [|by apply Hplain].
  all: apply ParseNumericSuffix_nonneg in En; destruct (Z.eqb_spec b 0); apply Hplain; unfold config_wf; simpl; lia.
Qed.

(** A level that is not special is not touched by [special_modes]. *)
Lemma standard_level_cases b l :
  1 ≤ b → ConvertBudgetToLevel b = Some l →
  l ∈ standardLevelOrder ∧ ∃ i, levelIndex l = Some i.
Proof.
  intros Hb H. apply ConvertBudgetToLevel_cases in H.
  destruct H as [[? ?]|[[? ?]|[[? ->]|[[? ->]|[[? ->]|[[? ->]|[? ->]]]]]]]; try lia;
    (split; [by apply list_elem_of_In; simpl; tauto|by eexists; reflexivity]).
Qed.

(** A level-only model takes every nonnegative suffix budget. *)
Lemma check_level_budget b l s clamp t j :
  0 ≤ b → ConvertBudgetToLevel b = Some l → t ∈ Levels s → levelIndex (TrimSpace t) = Some j →
  ∃ c, check_level (special_modes (MkConfig ModeLevel 0 (clampLevel l (Levels s)))) s clamp = inl c
       ∧ Mode c ≠ ModeBudget.
Proof.
  intros Hb Hl Ht Hj. unfold special_modes. simpl.
  destruct (String.eqb_spec (clampLevel l (Levels s)) "none") as [En|En]; simpl.
  { unfold check_level. rewrite andb_false_r. eexists. split; [reflexivity|done]. }
  destruct (String.eqb_spec (clampLevel l (Levels s)) "auto") as [Ea|Ea]; simpl.
  { unfold check_level. rewrite andb_false_r. eexists. split; [reflexivity|done]. }
  assert (1 ≤ b) as Hb1.
  { destruct (Z.eqb_spec b 0) as [->|]; [|lia]. injection Hl as <-. exfalso. apply En.
    unfold clampLevel. by destruct (_ || _)%bool. }
  destruct (standard_level_cases b l Hb1 Hl) as (_ & i & Hi).
  unfold check_level. simpl. rewrite (clampLevel_supported l (Levels s) i t j Hi Ht Hj).
  destruct (_ && _)%bool; (eexists; split; [reflexivity|done]).
Qed.

(** ** Theorems *)

Section theorems.

(** Converting a budget to a level rounds up: the level's budget covers the
    request (unless the request exceeds the largest level) and no level with a
    smaller budget would; and a level survives the round trip through its budget. *)
Lemma level_budget_conversion :
  (∀ b l, ConvertBudgetToLevel b = Some l →
     ∃ B, ConvertLevelToBudget l = Some B ∧ (b ≤ B ∨ l = "xhigh") ∧
          ∀ l' B', 0 < b → ConvertLevelToBudget l' = Some B' → b ≤ B' → B ≤ B') ∧
  (∀ l B, ConvertLevelToBudget l = Some B → ConvertBudgetToLevel B = Some (ToLower l)).
Proof.
  split.
  - intros b l H. apply ConvertBudgetToLevel_cases in H.
    destruct H as [[? ->]|[[? ->]|[[? ->]|[[? ->]|[[? ->]|[[? ->]|[? ->]]]]]]];
      (eexists; split; [reflexivity|]; cbn [snd]; split; [first [left; lia | right; reflexivity]|]);
      intros l' B' Hb H' HB; apply ConvertLevelToBudget_cases, list_elem_of_In in H'; simpl in H';
      repeat (destruct H' as [H'|H']; [inversion H'; subst; lia|]); contradiction.
  - intros l B H. apply ConvertLevelToBudget_cases, list_elem_of_In in H. simpl in H.
    repeat (destruct H as [H|H]; [inversion H; reflexivity|]). done.
Qed.

(** [clampLevel] picks the nearest supported level: for a standard level that is
    not supported, where the model supports some standard level, the result is
    supported, no supported standard level is closer, and on a tie it is the lower. *)
Lemma clampLevel_nearest level supported i t j :
  levelIndex level = Some i → isLevelSupported level supported = false →
  t ∈ supported → levelIndex (TrimSpace t) = Some j →
  let r := clampLevel level supported in
  isLevelSupported r supported = true ∧
  ∃ p, levelIndex r = Some p ∧
    ∀ s k, s ∈ supported → levelIndex (TrimSpace s) = Some k →
      Z.abs (i - p) < Z.abs (i - k) ∨ Z.abs (i - p) = Z.abs (i - k) ∧ p ≤ k.
Proof.
  intros Hi Hns Ht Hj r.
  assert (Hsup : isLevelSupported r supported = true) by (by eapply clampLevel_supported).
  split; [done|].
  destruct (clampLevel_cases level supported) as [E|(i' & p & s & Hi' & Hs & Hp & Ho & Hmin)].
  - unfold r in Hsup. rewrite E in Hsup. congruence.
  - assert (i' = i) as -> by congruence.
    pose proof (index_fold_Some _ _ _ Hp) as [Hr _]. exists p. split; [|done].
    apply levelIndex_order in Ho. by rewrite Z2Nat.id in Ho by lia.
Qed.

Lemma clampLevel_nearest_witness :
  clampLevel "medium" ["low"; "high"] = "low" ∧
  isLevelSupported (clampLevel "medium" ["low"; "high"]) ["low"; "high"] = true.
Proof.
  split; [reflexivity|].
  refine (proj1 (clampLevel_nearest "medium" ["low"; "high"] 2 "low" 1 _ _ _ _));
    [reflexivity|reflexivity|left|reflexivity].
Defined.

(** C32: a configuration that [ValidateConfig] accepts is one the model takes, whatever was asked: a
    budget within the range; a supported level; automatic mode only where it is allowed and was asked
    for; and a disabled configuration has the smallest budget of the model - zero only where zero is
    allowed or the format is that of Claude, which can disable thinking, the minimum otherwise, with the
    first level. There are two exceptions: automatic mode on a model without a range becomes
    "medium" also where that is no level of the model ([auto_becomes_medium]), and a level that spells
    "auto" in another case becomes a budget of -1 on a model with a range ([uppercase_auto_escapes]). *)
Theorem ValidateConfig_within_limits config mi s from to suffix c :
  mi_Thinking mi = Some s → support_wf s → config_wf config →
  ValidateConfig config (Some mi) from to suffix = inl c → within_limits s to config c ∨ auto_escaped s config c.
Proof. apply ValidateConfig_limits. Qed.

(** A numeric suffix is never rejected: on a model with a budget range, or with
    at least one standard level, every nonnegative suffix budget is accepted. *)
Lemma suffix_budget_accepted mi s from to b :
  mi_Thinking mi = Some s → 0 ≤ b →
  0 < Min s ∨ 0 < Max s ∨ (∃ t j, t ∈ Levels s ∧ levelIndex (TrimSpace t) = Some j) →
  ∃ c, ValidateConfig (MkConfig ModeBudget b "") (Some mi) from to true = inl c.
Proof.
  intros Hs Hb Hcap. unfold ValidateConfig. cbv zeta.
  change (Some mi ≫= mi_Thinking) with (mi_Thinking mi). rewrite Hs.
  unfold budget_rejected. simpl negb. rewrite !andb_false_l.
  assert (Hrange : ∀ clamp, ∃ c, check_level (special_modes (MkConfig ModeBudget b "")) s clamp
                                = inl c).
  { intros clamp. unfold special_modes. simpl. destruct (b =? 0); simpl;
      unfold check_level; simpl; rewrite andb_false_r; eauto. }
  unfold detectModelCapability. rewrite Hs.
  destruct ((0 <? Min s) || (0 <? Max s))%bool eqn:Eb.
  { destruct (has_levels s); simpl convert_format; cbv iota;
      destruct (Hrange (isBudgetBasedProvider (ToLower (TrimSpace from)) &&
                        isLevelBasedProvider (ToLower (TrimSpace to)))) as [c ->]; eauto. }
  zbool. destruct Hcap as [?|[?|(t & j & Ht & Hj)]]; [lia..|].
  assert (has_levels s = true) as ->.
  { unfold has_levels. apply Nat.ltb_lt. destruct (Levels s); [by apply elem_of_nil in Ht|].
    simpl. lia. }
  simpl convert_format. destruct (ConvertBudgetToLevel_total b ltac:(lia)) as [l Hl].
  rewrite Hl. cbv iota.
  destruct (check_level_budget b l s (isBudgetBasedProvider (ToLower (TrimSpace from)) &&
                        isLevelBasedProvider (ToLower (TrimSpace to))) t j Hb Hl Ht Hj)
    as (c & -> & _). eauto.
Qed.

Definition sonnet : ModelInfo :=
  MkModelInfo "claude-sonnet-4-5" (Some (MkSupport 1024 128000 true false [])) false.
Definition gpt : ModelInfo :=
  MkModelInfo "gpt-5" (Some (MkSupport 0 0 false false ["minimal"; "low"; "medium"; "high"])) false.

Definition gemini_pro : ModelInfo :=
  MkModelInfo "gemini-3-pro" (Some (MkSupport 128 32768 false true ["low"; "high"])) false.

(** Thinking is disabled on a model that cannot do without. *)
Lemma ValidateConfig_within_limits_witness :
  ValidateConfig (MkConfig ModeNone 0 "") (Some gemini_pro) "openai" "gemini" false
    = inl (MkConfig ModeNone 128 "low") ∧
  (within_limits (MkSupport 128 32768 false true ["low"; "high"]) "gemini" (MkConfig ModeNone 0 "") (MkConfig ModeNone 128 "low") ∨
   auto_escaped (MkSupport 128 32768 false true ["low"; "high"]) (MkConfig ModeNone 0 "") (MkConfig ModeNone 128 "low")).
Proof.
  split; [vm_compute; reflexivity|].
  refine (ValidateConfig_within_limits (MkConfig ModeNone 0 "") gemini_pro _ "openai" "gemini" false
            _ _ _ _ _); [reflexivity|unfold support_wf; simpl; lia|reflexivity|].
  vm_compute. reflexivity.
Defined.

Lemma suffix_budget_accepted_witness :
  ∃ c, ValidateConfig (MkConfig ModeBudget 99999 "") (Some gpt) "openai" "codex" true = inl c.
Proof.
  apply (suffix_budget_accepted gpt (MkSupport 0 0 false false ["minimal"; "low"; "medium"; "high"]));
    [reflexivity|lia|].
  right. right. exists "low", 1. split; [right; left|reflexivity].
Defined.

(** A thinking suffix wins over the request body and is applied within the
    model's limits: for a registered model with thinking support, [ApplyThinking]
    on a name with a suffix passes the body through, reports the error of the
    validation, or hands the applier the validated suffix configuration. *)
Lemma ApplyThinking_suffix {J : GJSON} {E : ThinkingEnv} body model from to key apply mi s :
  HasSuf (ParseSuffix model) = true →
  GetProviderApplier (ToLower (TrimSpace to)) = Some apply →
  (∀ k, LookupModelInfo (ModelName (ParseSuffix model)) k = Some mi) →
  mi_UserDefined mi = false → mi_Thinking mi = Some s → support_wf s →
  let out := ApplyThinking body model from to key in
  let config := parseSuffixToConfig (RawSuffix (ParseSuffix model)) in
  let format := ToLower (TrimSpace to) in
  let source := if String.eqb (ToLower (TrimSpace from)) "" then format
                else ToLower (TrimSpace from) in
  if hasThinkingConfig config then
    match ValidateConfig config (Some mi) source format true with
    | inr err => out = (body, Some err)
    | inl c => within_limits s format config c ∧ out = apply body c (Some mi)
    end
  else out = (body, None).
Proof.
  intros Hsuf Happ Hlook Hud Hs Hwf. unfold ApplyThinking. cbv zeta.
  rewrite Happ, Hlook. unfold IsUserDefinedModel. rewrite Hud.
  change (Some mi ≫= mi_Thinking) with (mi_Thinking mi). rewrite Hs.
  rewrite bool_decide_eq_false_2 by done. unfold requested_config. rewrite Hsuf.
  destruct (hasThinkingConfig _); [|done]. simpl negb. cbv iota.
  destruct (ValidateConfig _ _ _ _ _) as [c|err] eqn:Ev; [|done].
  split; [|done]. destruct (parseSuffixToConfig_wf (RawSuffix (ParseSuffix model))) as [Hc Hn].
  destruct (ValidateConfig_limits _ _ _ _ _ _ _ Hs Hwf Hc Ev) as [H|(Hsp & _)]; [exact H|by destruct Hn].
Qed.

(** A body as a table of paths, and an applier that writes the budget. *)
Definition table_json : GJSON := {|
  Body := gmap string Z; JResult := Z; body_empty := λ _, false; ValidBytes := λ _, true;
  GetBytes := λ b p, b !! p; Result_String := λ _, ""; Result_Int := λ z, z;
  Result_Bool := λ z, negb (z =? 0); DeleteBytes := λ b p, delete p b |}.

Definition write_budget (b : gmap string Z) (c : ThinkingConfig) (_ : option ModelInfo)
    : gmap string Z * option ThinkingError := (<["thinking.budget_tokens" := Budget c]> b, None).

Definition claude_env : @ThinkingEnv table_json :=
  @Build_ThinkingEnv table_json
    (λ p, if String.eqb p "claude" then Some write_budget else None) (λ _ _, Some sonnet).

Lemma ApplyThinking_suffix_witness :
  ApplyThinking (J := table_json) (E := claude_env) ∅ "claude-sonnet-4-5(200000)" "claude" "claude" ""
    = ({["thinking.budget_tokens" := 128000]}, None).
Proof.
  pose proof (ApplyThinking_suffix (J := table_json) (E := claude_env) ∅
    "claude-sonnet-4-5(200000)" "claude" "claude" "" _ sonnet (MkSupport 1024 128000 true false [])
    eq_refl eq_refl (λ _, eq_refl) eq_refl eq_refl ltac:(unfold support_wf; simpl; lia)) as H.
  exact (proj2 H).
Defined.

(** On a model without a range whose levels leave "medium" out, automatic mode becomes a level that the
    same model rejects when it is asked for. *)
Lemma auto_becomes_medium :
  let two_levels := MkModelInfo "m" (Some (MkSupport 0 0 false false ["low"; "high"])) false in
  ValidateConfig (MkConfig ModeAuto (-1) "") (Some two_levels) "openai" "codex" false = inl (MkConfig ModeLevel 0 "medium") ∧
  ValidateConfig (MkConfig ModeLevel 0 "medium") (Some two_levels) "openai" "codex" false = inr (MkThinkingError ErrLevelNotSupported "").
Proof. split; vm_compute; reflexivity. Qed.

(** "AUTO" is the level "auto" for the conversion but not for the test in front of
    it, so that a budget of -1 reaches a model that forbids automatic mode. *)
Lemma uppercase_auto_escapes :
  ValidateConfig (MkConfig ModeLevel 0 "AUTO") (Some sonnet) "gemini" "claude" false
    = inl (MkConfig ModeBudget (-1) "") ∧
  ValidateConfig (MkConfig ModeLevel 0 "auto") (Some sonnet) "gemini" "claude" false
    = inl (MkConfig ModeBudget 64512 "").
Proof. split; vm_compute; reflexivity. Qed.

End theorems.
