(* ===== verification/Registry.v ===== *)
(** * The registry of models

    Models [src/internal/registry/model_registry.go]: which clients offer which models,
    with a count of offers per model and provider, and the marks of clients whose quota is
    exhausted or that are suspended. Each method is a function on the state under its
    lock; [now] is the reading of the clock. Hooks and log lines are left out.

    A nil map and an empty one answer the same queries, so both are the empty map. *)
From S2P Require Import Prelude GoModel AuthTypes Thinking.

(** ** State *)

Record ModelInfo := MkInfo {
  in_ID : string; in_Object : string; in_Created : Z; in_OwnedBy : string; in_Type : string;
  in_DisplayName : string; in_UpstreamModelID : string; in_Name : string; in_Version : string;
  in_Description : string; in_InputTokenLimit : Z; in_OutputTokenLimit : Z;
  in_SupportedGenerationMethods : list string; in_ContextLength : Z; in_MaxCompletionTokens : Z;
  in_SupportedParameters : list string; in_Thinking : option ThinkingSupport; in_UserDefined : bool }.

Record ModelRegistration := MkRegistration {
  rg_Info : ModelInfo; rg_InfoByProvider : gmap string ModelInfo; rg_Count : Z; rg_LastUpdated : Time;
  rg_QuotaExceededClients : gmap string Time; rg_Providers : gmap string Z;
  rg_SuspendedClients : gmap string string }.

Abbreviation Models := (gmap string ModelRegistration) (only parsing).

Record ModelRegistry := MkModelRegistry {
  models : gmap string ModelRegistration; clientModels : gmap string (list string);
  clientModelInfos : gmap string (gmap string ModelInfo); clientProviders : gmap string string }.

Definition NewModelRegistry : ModelRegistry := MkModelRegistry ∅ ∅ ∅ ∅.

(** [m[k]] on a map of counts. *)
Definition count_of (m : gmap string Z) (k : string) : Z := default 0 (m !! k).

Definition with_models (f : Models → Models) (r : ModelRegistry) : ModelRegistry :=
  MkModelRegistry (f (models r)) (clientModels r) (clientModelInfos r) (clientProviders r).

(** ** One offer of a model *)

Definition add_offer (provider : string) (model : ModelInfo) (now : Time) (existing : ModelRegistration) : ModelRegistration :=
  MkRegistration model
    (if ! String.eqb provider "" then <[provider := model]> (rg_InfoByProvider existing) else rg_InfoByProvider existing)
    (rg_Count existing + 1) now (rg_QuotaExceededClients existing)
    (if ! String.eqb provider "" then <[provider := count_of (rg_Providers existing) provider + 1]> (rg_Providers existing)
     else rg_Providers existing)
    (rg_SuspendedClients existing).

Definition new_offer (provider : string) (model : ModelInfo) (now : Time) : ModelRegistration :=
  if ! String.eqb provider "" then MkRegistration model {[provider := model]} 1 now ∅ {[provider := 1]} ∅
  else MkRegistration model ∅ 1 now ∅ ∅ ∅.

Definition addModelRegistration (modelID provider : string) (model : ModelInfo) (now : Time) (m : Models) : Models :=
  if String.eqb modelID "" then m
  else match m !! modelID with
  | Some existing => <[modelID := add_offer provider model now existing]> m
  | None => <[modelID := new_offer provider model now]> m
  end.

(** One offer fewer of a provider: its entry goes with the last one. *)
Definition drop_provider (provider : string) (n : Z) (reg : ModelRegistration) : ModelRegistration :=
  match rg_Providers reg !! provider with
  | None => reg
  | Some count =>
      if count <=? n then
        MkRegistration (rg_Info reg) (delete provider (rg_InfoByProvider reg)) (rg_Count reg) (rg_LastUpdated reg)
          (rg_QuotaExceededClients reg) (delete provider (rg_Providers reg)) (rg_SuspendedClients reg)
      else
        MkRegistration (rg_Info reg) (rg_InfoByProvider reg) (rg_Count reg) (rg_LastUpdated reg)
          (rg_QuotaExceededClients reg) (<[provider := count - n]> (rg_Providers reg)) (rg_SuspendedClients reg)
  end.

(** The marks of a client go with one of its offers. *)
Definition drop_client (clientID : string) (count : Z) (now : Time) (reg : ModelRegistration) : ModelRegistration :=
  MkRegistration (rg_Info reg) (rg_InfoByProvider reg) count now
    (delete clientID (rg_QuotaExceededClients reg)) (rg_Providers reg) (delete clientID (rg_SuspendedClients reg)).

Definition removeModelRegistration (clientID modelID provider : string) (now : Time) (m : Models) : Models :=
  match m !! modelID with
  | None => m
  | Some registration =>
      let count := rg_Count registration - 1 in
      let count := if count <? 0 then 0 else count in
      let registration := drop_client clientID count now registration in
      let registration := if ! String.eqb provider "" then drop_provider provider 1 registration else registration in
      if rg_Count registration <=? 0 then delete modelID m else <[modelID := registration]> m
  end.

(** ** Unregistering *)

(** One model of the loop of [unregisterClientInternal]. *)
Definition unregister_step (clientID : string) (provider : option string) (now : Time) (m : Models) (modelID : string)
    : Models :=
  match m !! modelID with
  | None => m
  | Some registration =>
      let registration := drop_client clientID (rg_Count registration - 1) now registration in
      let registration := match provider with Some p => drop_provider p 1 registration | None => registration end in
      if rg_Count registration <=? 0 then delete modelID m else <[modelID := registration]> m
  end.

Definition unregisterClientInternal (clientID : string) (now : Time) (r : ModelRegistry) : ModelRegistry :=
  let provider := clientProviders r !! clientID in
  match clientModels r !! clientID with
  | None => MkModelRegistry (models r) (clientModels r) (clientModelInfos r) (delete clientID (clientProviders r))
  | Some ids =>
      MkModelRegistry (foldl (unregister_step clientID provider now) (models r) ids)
        (delete clientID (clientModels r)) (delete clientID (clientModelInfos r)) (delete clientID (clientProviders r))
  end.

Definition UnregisterClient : string → Time → ModelRegistry → ModelRegistry := unregisterClientInternal.

(** ** Registering *)

(** The models a client offers: the names in order with repetitions, their counts, each
    name once, and the first description of each. *)
Record Offered := MkOffered {
  of_unique : list string; of_raw : list string; of_models : gmap string ModelInfo; of_counts : gmap string Z }.

Definition offer_step (o : Offered) (model : option ModelInfo) : Offered :=
  match model with
  | None => o
  | Some model =>
      let id := in_ID model in
      if String.eqb id "" then o
      else
        let raw := of_raw o ++ [id] in
        let counts := <[id := count_of (of_counts o) id + 1]> (of_counts o) in
        match of_models o !! id with
        | Some _ => MkOffered (of_unique o) raw (of_models o) counts
        | None => MkOffered (of_unique o ++ [id]) raw (<[id := model]> (of_models o)) counts
        end
  end.

Definition offered (models : list (option ModelInfo)) : Offered := foldl offer_step (MkOffered [] [] ∅ ∅) models.

Definition tally (ids : list string) : gmap string Z :=
  foldl (λ counts id, <[id := count_of counts id + 1]> counts) ∅ ids.

Section register.
Context {RO : RangeOrder}.

(** The loops of the reconciliation, each on the models and one name with its count. *)
Definition move_step (oldProvider : string) (oldCounts : gmap string Z) (m : Models) (entry : string * Z) : Models :=
  let '(id, newCount) := entry in
  let oldCount := count_of oldCounts id in
  if (newCount =? 0) || (oldCount =? 0) then m
  else
    let toRemove := if oldCount <? newCount then oldCount else newCount in
    match m !! id with
    | None => m
    | Some reg => <[id := drop_provider oldProvider toRemove reg]> m
    end.

Definition repeat_op (n : Z) (f : Models → Models) (m : Models) : Models := Nat.iter (Z.to_nat n) f m.

Definition removed_step (clientID oldProvider : string) (now : Time) (newCounts : gmap string Z) (m : Models)
    (entry : string * Z) : Models :=
  let '(id, oldCount) := entry in
  if count_of newCounts id =? 0 then repeat_op oldCount (removeModelRegistration clientID id oldProvider now) m else m.

Definition overage_step (clientID oldProvider : string) (now : Time) (newCounts : gmap string Z) (m : Models)
    (entry : string * Z) : Models :=
  let '(id, oldCount) := entry in
  let newCount := count_of newCounts id in
  if (newCount =? 0) || (oldCount <=? newCount) then m
  else repeat_op (oldCount - newCount) (removeModelRegistration clientID id oldProvider now) m.

Definition addition_step (provider : string) (now : Time) (newModels : gmap string ModelInfo)
    (oldCounts : gmap string Z) (m : Models) (entry : string * Z) : Models :=
  let '(id, newCount) := entry in
  let oldCount := count_of oldCounts id in
  if newCount <=? oldCount then m
  else match newModels !! id with
  | None => m
  | Some model => repeat_op (newCount - oldCount) (addModelRegistration id provider model now) m
  end.

Definition metadata_step (provider : string) (providerChanged : bool) (now : Time)
    (newModels : gmap string ModelInfo) (oldCounts newCounts : gmap string Z) (m : Models) (id : string) : Models :=
  match m !! id, newModels !! id with
  | Some reg, Some model =>
      let infos := if ! String.eqb provider "" then <[provider := model]> (rg_InfoByProvider reg)
                   else rg_InfoByProvider reg in
      let oldCount := count_of oldCounts id in
      let overlapCount := if oldCount <? count_of newCounts id then oldCount else count_of newCounts id in
      let providers :=
        if (providerChanged && ! String.eqb provider "" && ! (oldCount =? 0) && (0 <? overlapCount))
        then <[provider := count_of (rg_Providers reg) provider + overlapCount]> (rg_Providers reg)
        else rg_Providers reg in
      <[id := MkRegistration model infos (rg_Count reg) now (rg_QuotaExceededClients reg) providers
                (rg_SuspendedClients reg)]> m
  | _, _ => m
  end.

Definition set_provider (clientID provider : string) (m : gmap string string) : gmap string string :=
  if ! String.eqb provider "" then <[clientID := provider]> m else delete clientID m.

Definition RegisterClient (clientID clientProvider : string) (ms : list (option ModelInfo)) (now : Time)
    (r : ModelRegistry) : ModelRegistry :=
  let provider := ToLower clientProvider in
  let o := offered ms in
  if bool_decide (of_unique o = []) then
    let r := unregisterClientInternal clientID now r in
    MkModelRegistry (models r) (delete clientID (clientModels r)) (delete clientID (clientModelInfos r))
      (delete clientID (clientProviders r))
  else
    let newCounts := of_counts o in
    let newModels := of_models o in
    let m := match clientModels r !! clientID with
      | None =>
          foldl (λ m id, match newModels !! id with
                         | Some model => addModelRegistration id provider model now m | None => m end)
            (models r) (of_raw o)
      | Some oldModels =>
          let oldProvider := attr (clientProviders r) clientID in
          let providerChanged := ! String.eqb oldProvider provider in
          let oldCounts := tally oldModels in
          let m := models r in
          let m := if (providerChanged && ! String.eqb oldProvider "")
                   then foldl (move_step oldProvider oldCounts) m (range_order 50 newCounts) else m in
          let m := foldl (removed_step clientID oldProvider now newCounts) m (range_order 51 oldCounts) in
          let m := foldl (overage_step clientID oldProvider now newCounts) m (range_order 52 oldCounts) in
          let m := foldl (addition_step provider now newModels oldCounts) m (range_order 53 newCounts) in
          foldl (metadata_step provider providerChanged now newModels oldCounts newCounts) m (of_unique o)
      end in
    MkModelRegistry m (<[clientID := of_raw o]> (clientModels r)) (<[clientID := newModels]> (clientModelInfos r))
      (set_provider clientID provider (clientProviders r)).

End register.

(** ** Marks *)

Definition with_registration (modelID : string) (f : ModelRegistration → ModelRegistration) (r : ModelRegistry)
    : ModelRegistry :=
  match models r !! modelID with
  | Some reg => with_models <[modelID := f reg]> r
  | None => r
  end.

Definition set_marks (quota : gmap string Time) (suspended : gmap string string) (updated : Time) (reg : ModelRegistration)
    : ModelRegistration :=
  MkRegistration (rg_Info reg) (rg_InfoByProvider reg) (rg_Count reg) updated quota (rg_Providers reg) suspended.

Definition SetModelQuotaExceeded (clientID modelID : string) (now : Time) : ModelRegistry → ModelRegistry :=
  with_registration modelID (λ reg,
    set_marks (<[clientID := now]> (rg_QuotaExceededClients reg)) (rg_SuspendedClients reg) (rg_LastUpdated reg) reg).

Definition ClearModelQuotaExceeded (clientID modelID : string) : ModelRegistry → ModelRegistry :=
  with_registration modelID (λ reg,
    set_marks (delete clientID (rg_QuotaExceededClients reg)) (rg_SuspendedClients reg) (rg_LastUpdated reg) reg).

Definition SuspendClientModel (clientID modelID reason : string) (now : Time) (r : ModelRegistry) : ModelRegistry :=
  if (String.eqb clientID "" || String.eqb modelID "") then r
  else with_registration modelID (λ reg,
    match rg_SuspendedClients reg !! clientID with
    | Some _ => reg
    | None => set_marks (rg_QuotaExceededClients reg) (<[clientID := reason]> (rg_SuspendedClients reg)) now reg
    end) r.

Definition ResumeClientModel (clientID modelID : string) (now : Time) (r : ModelRegistry) : ModelRegistry :=
  if (String.eqb clientID "" || String.eqb modelID "") then r
  else with_registration modelID (λ reg,
    match rg_SuspendedClients reg !! clientID with
    | None => reg
    | Some _ => set_marks (rg_QuotaExceededClients reg) (delete clientID (rg_SuspendedClients reg)) now reg
    end) r.

Definition quotaExpiredDuration : Duration := 5 * Minute.

Definition CleanupExpiredQuotas (now : Time) : ModelRegistry → ModelRegistry :=
  with_models (fmap (λ reg,
    set_marks (filter (λ entry : string * Time, ¬ (quotaExpiredDuration ≤ time_Sub now entry.2)) (rg_QuotaExceededClients reg))
      (rg_SuspendedClients reg) (rg_LastUpdated reg) reg)).

(** ** What the counts mean *)

(** How often a client offers a model, how often all clients do, and those of one provider. *)
Definition offers (id : string) (ids : list string) : Z := zsum (λ x, if String.eqb x id then 1 else 0) ids.

Definition held (cm : gmap string (list string)) (id : string) : Z :=
  zsum (λ entry : string * list string, offers id entry.2) (map_to_list cm).

Definition held_by (cm : gmap string (list string)) (cp : gmap string string) (p id : string) : Z :=
  zsum (λ entry : string * list string, if bool_decide (cp !! entry.1 = Some p) then offers id entry.2 else 0)
    (map_to_list cm).

(** The entry of a model shows [n] offers, [P p] of them of provider [p]. *)
Definition shows (o : option ModelRegistration) (n : Z) (P : string → Z) : Prop :=
  match o with
  | Some reg => rg_Count reg = n ∧ 0 < n ∧ ∀ p, count_of (rg_Providers reg) p = P p
  | None => n = 0 ∧ ∀ p, P p = 0
  end.

(** The counts of the registry are those of its clients. *)
Record counts_exact (r : ModelRegistry) : Prop := {
  ce_models : ∀ id, shows (models r !! id) (held (clientModels r) id) (λ p, held_by (clientModels r) (clientProviders r) p id);
  ce_names : ∀ c ids, clientModels r !! c = Some ids → "" ∉ ids;
  ce_providers : ∀ c p, clientProviders r !! c = Some p → p ≠ "" ∧ is_Some (clientModels r !! c) }.

Lemma offers_nonneg id ids : 0 ≤ offers id ids.
Proof. apply zsum_nonneg. intros x _. by destruct (String.eqb x id). Qed.

Lemma offers_app id l k : offers id (l ++ k) = offers id l + offers id k.
Proof. apply zsum_app. Qed.

Lemma offers_one id x : offers id [x] = if String.eqb x id then 1 else 0.
Proof. unfold offers. rewrite zsum_cons. change (zsum _ []) with 0. lia. Qed.

Lemma offers_elem id ids : 0 < offers id ids ↔ id ∈ ids.
Proof.
  unfold offers. split.
  - intros (x & Hx & Hp)%zsum_pos_exists. destruct (String.eqb_spec x id) as [->|]; [done|lia].
  - intros Hin. enough (1 ≤ offers id ids) by (unfold offers in *; lia).
    etransitivity; [|apply (zsum_elem_le (λ x, if String.eqb x id then 1 else 0) ids id); [|done]].
    + by rewrite String.eqb_refl.
    + intros y _. by destruct (String.eqb y id).
Qed.

Lemma held_split cm c id : held cm id = offers id (default [] (cm !! c)) + held (delete c cm) id.
Proof.
  unfold held. destruct (cm !! c) as [ids|] eqn:E; cbn [default].
  - rewrite <-(zsum_perm _ _ _ (map_to_list_delete cm c ids E)). by rewrite zsum_cons.
  - by rewrite delete_id.
Qed.

Lemma held_by_split cm cp p c id : held_by cm cp p id =
  (if bool_decide (cp !! c = Some p) then offers id (default [] (cm !! c)) else 0) + held_by (delete c cm) cp p id.
Proof.
  unfold held_by. destruct (cm !! c) as [ids|] eqn:E; cbn [default].
  - rewrite <-(zsum_perm _ _ _ (map_to_list_delete cm c ids E)). by rewrite zsum_cons.
  - rewrite delete_id by done. by destruct (bool_decide _).
Qed.

Lemma held_nonneg cm id : 0 ≤ held cm id.
Proof. apply zsum_nonneg. intros [c ids] _. apply offers_nonneg. Qed.

Lemma held_by_nonneg cm cp p id : 0 ≤ held_by cm cp p id.
Proof. apply zsum_nonneg. intros [c ids] _. cbn. destruct (bool_decide _); [apply offers_nonneg|done]. Qed.

Lemma held_by_le cm cp p id : held_by cm cp p id ≤ held cm id.
Proof.
  apply zsum_le. intros [c ids] _. cbn. pose proof (offers_nonneg id ids). destruct (bool_decide _); lia.
Qed.

(** Other clients do not depend on the provider of this one. *)
Lemma held_by_others cm cp cp' p c id : (∀ c', c' ≠ c → cp !! c' = cp' !! c') →
  held_by (delete c cm) cp p id = held_by (delete c cm) cp' p id.
Proof.
  intros He. apply zsum_ext. intros [c' ids] Hin%elem_of_map_to_list. cbn.
  apply lookup_delete_Some in Hin as [Hne _]. by rewrite He.
Qed.

(** ** One entry *)

(** Provider [p] gains [k] offers; the empty name is no provider. *)
Definition bump (p : string) (k : Z) (P : string → Z) : string → Z :=
  λ q, if bool_decide (p ≠ "" ∧ q = p) then P q + k else P q.

Lemma shows_ext o n n' P P' : shows o n P → n = n' → (∀ p, P p = P' p) → shows o n' P'.
Proof. intros Hs <- He. destruct o as [reg|]; cbn in *; setoid_rewrite <-He; done. Qed.

Lemma count_of_insert (m : gmap string Z) p k q : count_of (<[p := k]> m) q = if bool_decide (q = p) then k else count_of m q.
Proof.
  unfold count_of. case_bool_decide as E; [subst; by rewrite lookup_insert_eq|]. by rewrite lookup_insert_ne.
Qed.

Lemma count_of_delete (m : gmap string Z) p q : count_of (delete p m) q = if bool_decide (q = p) then 0 else count_of m q.
Proof.
  unfold count_of. case_bool_decide as E; [subst; by rewrite lookup_delete_eq|]. by rewrite lookup_delete_ne.
Qed.

Lemma bump_eq p k P q : bump p k P q = if String.eqb p "" then P q else if bool_decide (q = p) then P q + k else P q.
Proof.
  unfold bump. destruct (String.eqb_spec p "") as [->|Hne]; repeat case_bool_decide; naive_solver.
Qed.

Lemma count_add m id p mi now n P : id ≠ "" → 0 ≤ n → shows (m !! id) n P →
  shows (addModelRegistration id p mi now m !! id) (n + 1) (bump p 1 P).
Proof.
  intros Hid Hn Hs. unfold addModelRegistration. apply String.eqb_neq in Hid as ->.
  destruct (m !! id) as [reg|] eqn:E; rewrite lookup_insert_eq; cbn in Hs |- *.
  - destruct Hs as (<- & Hp & HP). split; [done|]. split; [lia|]. intros q. rewrite bump_eq, <-!HP.
    destruct (String.eqb_spec p "") as [|Hne]; cbn [negb]; [done|]. rewrite count_of_insert.
    case_bool_decide; [by subst|done].
  - destruct Hs as [-> HP]. unfold new_offer.
    destruct (String.eqb_spec p "") as [->|Hne]; cbn; (split; [done|]); (split; [lia|]); intros q;
      rewrite bump_eq, HP; [done|]. apply String.eqb_neq in Hne as ->.
    rewrite <-insert_empty, count_of_insert. by case_bool_decide.
Qed.

Lemma count_add_other m id p mi now j : j ≠ id → addModelRegistration id p mi now m !! j = m !! j.
Proof.
  intros Hne. unfold addModelRegistration. destruct (String.eqb id ""); [done|].
  destruct (m !! id); by rewrite lookup_insert_ne.
Qed.

(** Providers of an entry after [drop_provider]. *)
Lemma drop_provider_counts p n reg q : 0 < n → (p ≠ "" → n ≤ count_of (rg_Providers reg) p) →
  count_of (rg_Providers (if ! String.eqb p "" then drop_provider p n reg else reg)) q =
  bump p (- n) (count_of (rg_Providers reg)) q.
Proof.
  intros Hn Hp. rewrite bump_eq. destruct (String.eqb_spec p "") as [->|Hne]; [done|]. cbn [negb].
  specialize (Hp Hne). unfold drop_provider. unfold count_of in Hp.
  destruct (rg_Providers reg !! p) as [k|] eqn:E; cbn in Hp; [|lia].
  assert (count_of (rg_Providers reg) p = k) by (unfold count_of; by rewrite E).
  destruct (Z.leb_spec k n); cbn [rg_Providers].
  - rewrite count_of_delete. case_bool_decide; [subst|done]. lia.
  - rewrite count_of_insert. case_bool_decide; [subst|done]. lia.
Qed.

Lemma drop_provider_count p n reg : rg_Count (drop_provider p n reg) = rg_Count reg.
Proof. unfold drop_provider. destruct (_ !! _); [|done]. by destruct (_ <=? _). Qed.

Lemma count_remove c m id p now n P : shows (m !! id) n P → 1 ≤ n → (p ≠ "" → 1 ≤ P p) →
  (n = 1 → ∀ q, bump p (- 1) P q = 0) →
  shows (removeModelRegistration c id p now m !! id) (n - 1) (bump p (- 1) P).
Proof.
  intros Hs Hn Hp Hz. unfold removeModelRegistration. destruct (m !! id) as [reg|] eqn:E; cbn in Hs; [|lia].
  destruct Hs as (Hc & _ & HP). set (reg1 := drop_client c _ now reg).
  assert (Hc1 : rg_Count reg1 = n - 1).
  { unfold reg1, drop_client. cbn. rewrite Hc. destruct (Z.ltb_spec (n - 1) 0); lia. }
  set (reg2 := if ! String.eqb p "" then drop_provider p 1 reg1 else reg1).
  assert (Hc2 : rg_Count reg2 = n - 1) by (unfold reg2; destruct (! _); [by rewrite drop_provider_count|done]).
  assert (HP2 : ∀ q, count_of (rg_Providers reg2) q = bump p (- 1) P q).
  { intros q. unfold reg2. rewrite drop_provider_counts; [|lia|].
    - unfold bump. change (rg_Providers reg1) with (rg_Providers reg). by rewrite HP.
    - intros Hne. change (rg_Providers reg1) with (rg_Providers reg). rewrite HP. auto. }
  rewrite Hc2. destruct (Z.leb_spec (n - 1) 0).
  - rewrite lookup_delete_eq. cbn. split; [lia|]. apply Hz. lia.
  - rewrite lookup_insert_eq. cbn. split; [done|]. split; [lia|done].
Qed.

Lemma count_remove_other c m id p now j : j ≠ id → removeModelRegistration c id p now m !! j = m !! j.
Proof.
  intros Hne. unfold removeModelRegistration. destruct (m !! id) as [reg|]; [|done].
  destruct (_ <=? _); [by rewrite lookup_delete_ne|by rewrite lookup_insert_ne].
Qed.

Lemma bump_bump p a b P q : bump p a (bump p b P) q = bump p (a + b) P q.
Proof. unfold bump. case_bool_decide; lia. Qed.

Lemma bump_0 p P q : bump p 0 P q = P q.
Proof. unfold bump. case_bool_decide; lia. Qed.

Lemma count_remove_n (k : nat) c m id p now n P : shows (m !! id) n P → Z.of_nat k ≤ n →
  (p ≠ "" → Z.of_nat k ≤ P p) → (n = Z.of_nat k → ∀ q, bump p (- n) P q = 0) →
  shows (Nat.iter k (removeModelRegistration c id p now) m !! id) (n - Z.of_nat k) (bump p (- Z.of_nat k) P).
Proof.
  intros Hs. induction k as [|k IH]; intros Hn Hp Hz.
  - cbn. eapply shows_ext; [done|lia|]. intros q. by rewrite bump_0.
  - cbn [Nat.iter nat_rect]. eapply shows_ext.
    + apply count_remove; [apply IH; [lia|intros; specialize (Hp ltac:(done)); lia|intros; lia]|lia| |].
      * intros Hne. specialize (Hp Hne). unfold bump. case_bool_decide; [lia|naive_solver].
      * intros E q. rewrite bump_bump. replace (- 1 + - Z.of_nat k) with (- n) by lia. apply Hz. lia.
    + lia.
    + intros q. rewrite bump_bump. f_equal. lia.
Qed.

Lemma count_add_n (k : nat) m id p mi now n P : id ≠ "" → 0 ≤ n → shows (m !! id) n P →
  shows (Nat.iter k (addModelRegistration id p mi now) m !! id) (n + Z.of_nat k) (bump p (Z.of_nat k) P).
Proof.
  intros Hid Hn Hs. induction k as [|k IH].
  - cbn. eapply shows_ext; [done|lia|]. intros q. by rewrite bump_0.
  - cbn [Nat.iter nat_rect]. eapply shows_ext; [apply count_add; [done| |exact IH]|..]; [lia|lia|].
    intros q. rewrite bump_bump. f_equal. lia.
Qed.

(** ** Folds that change one entry at a time *)

Definition local_at (id : string) (f : gmap string ModelRegistration → gmap string ModelRegistration) : Prop :=
  (∀ m j, j ≠ id → f m !! j = m !! j) ∧ (∀ m m', m !! id = m' !! id → f m !! id = f m' !! id).

Lemma local_id id : local_at id (λ m, m).
Proof. done. Qed.

Lemma local_iter id k f : local_at id f → local_at id (Nat.iter k f).
Proof.
  intros [H1 H2]. induction k as [|k [IH1 IH2]]; [done|]. split.
  - intros m j Hj. etransitivity; [by apply (H1 (Nat.iter k f m))|]. by apply IH1.
  - intros m m' He. apply (H2 (Nat.iter k f m) (Nat.iter k f m')). by apply IH2.
Qed.

Lemma local_remove c id p now : local_at id (removeModelRegistration c id p now).
Proof.
  split; [intros m j; apply count_remove_other|]. intros m m' E. unfold removeModelRegistration. rewrite <-E.
  destruct (m !! id) as [reg|] eqn:E'; [|congruence].
  destruct (_ <=? _); [by rewrite !lookup_delete_eq|by rewrite !lookup_insert_eq].
Qed.

Lemma local_add id p mi now : local_at id (addModelRegistration id p mi now).
Proof.
  split; [intros m j; apply count_add_other|]. intros m m' E. unfold addModelRegistration. rewrite <-E.
  destruct (String.eqb id ""); [done|]. destruct (m !! id); by rewrite !lookup_insert_eq.
Qed.

#[local] Hint Resolve local_id local_iter local_remove local_add : core.

Lemma fold_local {A} (key : A → string) (f : gmap string ModelRegistration → A → gmap string ModelRegistration) l id :
  NoDup (key <$> l) → (∀ x, local_at (key x) (λ m, f m x)) → ∀ m,
  (∀ x, x ∈ l → key x = id → foldl f m l !! id = f m x !! id) ∧ (id ∉ key <$> l → foldl f m l !! id = m !! id).
Proof.
  intros Hnd Hf. induction l as [|y l IH]; intros m.
  { split; [intros x Hx; by apply not_elem_of_nil in Hx|done]. }
  rewrite fmap_cons in Hnd. apply NoDup_cons in Hnd as [Hy Hnd]. cbn [foldl].
  destruct (IH Hnd (f m y)) as [IH1 IH2]. split.
  - intros x [->|Hx]%elem_of_cons Hk.
    + rewrite IH2; [done|]. by rewrite <-Hk.
    + rewrite (IH1 x Hx Hk). destruct (Hf x) as [_ H2]. destruct (Hf y) as [H1 _]. rewrite Hk in H2. apply H2.
      apply H1. intros ->. apply Hy. rewrite <-Hk. by apply list_elem_of_fmap_2.
  - rewrite fmap_cons. intros Hid. rewrite IH2 by set_solver. destruct (Hf y) as [H1 _]. apply H1. set_solver.
Qed.

(** A loop over a map of counts, at one name: its order does not matter. *)
Lemma range_fold {RO : RangeOrder} {V} (f : gmap string ModelRegistration → string * V → gmap string ModelRegistration)
    site (M : gmap string V) m id : (∀ k v, local_at k (λ m, f m (k, v))) →
  foldl f m (range_order site M) !! id = match M !! id with Some v => f m (id, v) !! id | None => m !! id end.
Proof.
  intros Hf. destruct (fold_local fst f (range_order site M) id (NoDup_range_keys site M) (λ '(k, v), Hf k v) m) as [H1 H2].
  destruct (M !! id) as [v|] eqn:E.
  - apply (H1 (id, v)); [by apply elem_of_range|done].
  - apply H2. intros ([k v] & -> & Hin)%list_elem_of_fmap. apply elem_of_range in Hin. cbn in E. congruence.
Qed.

(** ** The offers of a client *)

Lemma tally_snoc ids x : tally (ids ++ [x]) = <[x := count_of (tally ids) x + 1]> (tally ids).
Proof. unfold tally. by rewrite foldl_app. Qed.

Lemma tally_spec ids id : tally ids !! id = if bool_decide (id ∈ ids) then Some (offers id ids) else None.
Proof.
  induction ids as [|x ids IH] using rev_ind; [done|].
  assert (Hc : count_of (tally ids) x = offers x ids → tally (ids ++ [x]) !! x = Some (offers x ids + 1)).
  { intros E. by rewrite tally_snoc, lookup_insert_eq, E. }
  rewrite offers_app, offers_one. destruct (String.eqb_spec x id) as [->|Hne].
  - rewrite bool_decide_eq_true_2 by set_solver. apply Hc. unfold count_of. rewrite IH.
    case_bool_decide as Hin; [done|]. cbn. pose proof (offers_nonneg id ids).
    destruct (decide (0 < offers id ids)) as [Hp|]; [by apply offers_elem in Hp|lia].
  - rewrite tally_snoc, lookup_insert_ne by done. rewrite IH, Z.add_0_r.
    by rewrite (bool_decide_ext (id ∈ ids) (id ∈ ids ++ [x])) by set_solver.
Qed.

Lemma tally_count ids id : count_of (tally ids) id = offers id ids.
Proof.
  unfold count_of. rewrite tally_spec. case_bool_decide as Hin; [done|]. cbn. pose proof (offers_nonneg id ids).
  destruct (decide (0 < offers id ids)) as [Hp|]; [by apply offers_elem in Hp|lia].
Qed.

(** The list of a registration: its names, without the empty one. *)
Definition names (ms : list (option ModelInfo)) : list string :=
  List.filter (λ id, ! String.eqb id "") (omap (fmap in_ID) ms).

Lemma offered_spec ms : let o := offered ms in
  of_raw o = names ms ∧ of_counts o = tally (of_raw o) ∧ NoDup (of_unique o) ∧
  (∀ id, id ∈ of_unique o ↔ id ∈ of_raw o) ∧ (∀ id, is_Some (of_models o !! id) ↔ id ∈ of_raw o).
Proof.
  induction ms as [|x ms IH] using rev_ind.
  { cbn. repeat split; try done; [by apply NoDup_nil_2|intros []; done|set_solver]. }
  unfold offered in *. cbn zeta in *. rewrite foldl_app. cbn [foldl].
  destruct (foldl offer_step _ ms) as [uniq raw mods counts]. destruct IH as (Hr & Hc & Hn & Hu & Hm).
  cbn [of_raw of_counts of_unique of_models] in *. unfold names in *. rewrite omap_app, List.filter_app, <-Hr.
  unfold offer_step. destruct x as [mi|]; [|by cbn; rewrite app_nil_r].
  cbn [omap list_omap fmap option_fmap option_map List.filter]. destruct (String.eqb_spec (in_ID mi) "") as [E|E]; cbn [negb].
  { by cbn; rewrite app_nil_r. }
  cbn [of_raw of_counts of_unique of_models]. destruct (mods !! in_ID mi) as [mi0|] eqn:Em;
    cbn [of_raw of_counts of_unique of_models]; (split; [done|]); (split; [by rewrite tally_snoc, Hc|]).
  - assert (Hin : in_ID mi ∈ raw) by (apply Hm; by rewrite Em).
    split; [done|]. split; intros id; [rewrite Hu|rewrite Hm]; set_solver.
  - assert (Hin : in_ID mi ∉ raw) by (rewrite <-Hm, Em; by intros [? ?]).
    split; [apply NoDup_app; split; [done|]; split; [|by apply NoDup_singleton]; intros y Hy%Hu; set_solver|].
    split; intros id; [set_solver|]. destruct (decide (in_ID mi = id)) as [<-|Hne].
    + rewrite lookup_insert_eq. split; [set_solver|by eexists].
    + rewrite lookup_insert_ne by done. rewrite Hm. set_solver.
Qed.

(** ** Unregistering keeps the counts *)

(** The name of a provider, empty for a client that has none. *)
Definition name_of (prov : option string) : string := match prov with Some p => p | None => "" end.

Lemma unregister_step_remove c prov now m id n P : shows (m !! id) n P → 1 ≤ n → prov ≠ Some "" →
  unregister_step c prov now m id = removeModelRegistration c id (name_of prov) now m.
Proof.
  intros Hs Hn Hp. unfold unregister_step, removeModelRegistration. destruct (m !! id) as [reg|]; [|done].
  cbn in Hs. destruct Hs as (-> & _ & _). destruct (Z.ltb_spec (n - 1) 0); [lia|].
  destruct prov as [p|]; cbn [name_of]; [|done]. destruct (String.eqb_spec p "") as [->|]; [congruence|done].
Qed.

(** A client's offers are taken out one by one. *)
Lemma unregister_fold c prov now ids h HP m : prov ≠ Some "" →
  (∀ id, 0 ≤ h id) → (∀ id q, 0 ≤ HP id q ≤ h id) →
  (∀ id, shows (m !! id) (offers id ids + h id) (bump (name_of prov) (offers id ids) (HP id))) →
  ∀ id, shows (foldl (unregister_step c prov now) m ids !! id) (h id) (HP id).
Proof.
  intros Hprov Hh HHP. revert m. induction ids as [|x ids IH]; intros m Hs id.
  { cbn [foldl]. eapply shows_ext; [apply Hs|done|]. intros q. by rewrite bump_0. }
  cbn [foldl]. apply IH. clear id. intros id.
  assert (Hc : ∀ id, offers id (x :: ids) = (if String.eqb x id then 1 else 0) + offers id ids)
    by (intros; unfold offers; apply zsum_cons).
  pose proof (offers_nonneg x ids) as Ho. specialize (Hh x) as Hhx. pose proof (Hs x) as Hsx.
  rewrite Hc, String.eqb_refl in Hsx.
  erewrite (unregister_step_remove c prov now m x); [|exact Hsx|lia|done].
  destruct (String.eqb_spec x id) as [->|Hne].
  - eapply shows_ext; [eapply count_remove; [exact Hsx|lia|..]|lia|].
    + intros Hp. unfold bump. specialize (HHP id (name_of prov)). case_bool_decide; [lia|naive_solver].
    + intros E q. rewrite bump_bump. replace (- 1 + (1 + offers id ids)) with 0 by lia. rewrite bump_0.
      specialize (HHP id q). lia.
    + intros q. rewrite bump_bump. f_equal. lia.
  - rewrite count_remove_other by done. specialize (Hs id). rewrite Hc in Hs.
    apply String.eqb_neq in Hne. rewrite Hne in Hs. by rewrite Z.add_0_l in Hs.
Qed.

(** What a client adds to the counts of the others. *)
Lemma counts_split r c id : counts_exact r →
  shows (models r !! id) (offers id (default [] (clientModels r !! c)) + held (delete c (clientModels r)) id)
    (bump (attr (clientProviders r) c) (offers id (default [] (clientModels r !! c)))
       (λ p, held_by (delete c (clientModels r)) (clientProviders r) p id)).
Proof.
  intros [Hm _ Hp]. eapply shows_ext; [apply Hm|apply held_split|]. intros p. cbv beta. rewrite (held_by_split _ _ p c id), bump_eq.
  unfold attr. destruct (clientProviders r !! c) as [q|] eqn:E; cbn.
  - destruct (Hp _ _ E) as [Hq _]. apply String.eqb_neq in Hq. rewrite Hq.
    repeat case_bool_decide; try congruence; lia.
  - done.
Qed.

Lemma others_bound r c id p : 0 ≤ held_by (delete c (clientModels r)) (clientProviders r) p id ≤ held (delete c (clientModels r)) id.
Proof. split; [apply held_by_nonneg|apply held_by_le]. Qed.

(** The counts after a client's bookkeeping was replaced. *)
Lemma counts_join r c m infos ids (prov : option string) : counts_exact r →
  "" ∉ ids → prov ≠ Some "" →
  (∀ id, shows (m !! id) (offers id ids + held (delete c (clientModels r)) id)
    (bump (name_of prov) (offers id ids) (λ p, held_by (delete c (clientModels r)) (clientProviders r) p id))) →
  counts_exact (MkModelRegistry m (<[c := ids]> (clientModels r)) infos (partial_alter (λ _, prov) c (clientProviders r))).
Proof.
  intros [Hm Hn Hp] Hids Hprov Hs. split; cbn.
  - intros id. eapply shows_ext; [apply Hs|..].
    + by rewrite (held_split (<[c:=ids]> (clientModels r)) c), delete_insert_eq, lookup_insert_eq.
    + intros p. cbv beta. rewrite (held_by_split (<[c:=ids]> (clientModels r)) _ p c), delete_insert_eq, lookup_insert_eq, lookup_partial_alter_eq.
      rewrite (held_by_others _ _ (clientProviders r)) by (intros; by rewrite lookup_partial_alter_ne).
      rewrite bump_eq. change (default [] (Some ids)) with ids. destruct prov as [q|]; cbn [name_of].
      * destruct (String.eqb_spec q "") as [->|]; [done|]. repeat case_bool_decide; try congruence; lia.
      * done.
  - intros c' ids'. destruct (decide (c = c')) as [<-|Hne]; [rewrite lookup_insert_eq; by intros [= <-]|].
    rewrite lookup_insert_ne by done. apply Hn.
  - intros c' p. destruct (decide (c = c')) as [<-|Hne].
    + rewrite lookup_partial_alter_eq, lookup_insert_eq. intros ->. split; [congruence|by eexists].
    + rewrite lookup_partial_alter_ne, lookup_insert_ne by done. apply Hp.
Qed.

Lemma counts_leave r c m infos : counts_exact r →
  (∀ id, shows (m !! id) (held (delete c (clientModels r)) id)
    (λ p, held_by (delete c (clientModels r)) (clientProviders r) p id)) →
  counts_exact (MkModelRegistry m (delete c (clientModels r)) infos (delete c (clientProviders r))).
Proof.
  intros [Hm Hn Hp] Hs. split; cbn.
  - intros id. eapply shows_ext; [apply Hs|done|]. intros p. apply held_by_others. intros. by rewrite lookup_delete_ne.
  - intros c' ids [_ Hc]%lookup_delete_Some. by eapply Hn.
  - intros c' p [Hne Hc]%lookup_delete_Some. destruct (Hp _ _ Hc) as [? [ids ?]]. split; [done|].
    exists ids. by apply lookup_delete_Some.
Qed.

Lemma unregister_counts c now r : counts_exact r → counts_exact (unregisterClientInternal c now r).
Proof.
  intros Hr. unfold unregisterClientInternal. pose proof (λ id, counts_split r c id Hr) as Hs.
  destruct (clientModels r !! c) as [ids|] eqn:Ec; cbn [default] in Hs.
  - apply counts_leave; [done|]. apply unregister_fold.
    + intros E. by destruct (ce_providers _ Hr _ _ E).
    + intros id. apply held_nonneg.
    + intros id q. apply others_bound.
    + intros id. apply Hs.
  - assert (Hnp : clientProviders r !! c = None).
    { destruct (clientProviders r !! c) as [p|] eqn:E; [|done]. destruct (ce_providers _ Hr _ _ E) as [_ [ids E']]. congruence. }
    rewrite delete_id by done. by destruct r, Hr.
Qed.

(** ** Registering keeps the counts *)

Section reconcile.
Context {RO : RangeOrder}.
Variables (c provider oldProvider : string) (now : Time) (oldIds raw : list string)
  (newModels : gmap string ModelInfo) (h : string → Z) (HP : string → string → Z).
Hypothesis h_nonneg : ∀ id, 0 ≤ h id.
Hypothesis HP_bound : ∀ id q, 0 ≤ HP id q ≤ h id.
Hypothesis raw_names : "" ∉ raw.
Hypothesis raw_models : ∀ id, is_Some (newModels !! id) ↔ id ∈ raw.

Abbreviation old id := (offers id oldIds) (only parsing).
Abbreviation new id := (offers id raw) (only parsing).

Lemma repeat_at n f m id P k : 0 ≤ n → shows (Nat.iter (Z.to_nat n) f m !! id) (k - Z.of_nat (Z.to_nat n)) P →
  shows (repeat_op n f m !! id) (k - n) P.
Proof. intros Hn. unfold repeat_op. by rewrite Z2Nat.id. Qed.

(** [n] offers of this client fewer. *)
Lemma remove_some m id n k P : 0 ≤ n ≤ k → shows (m !! id) k P →
  (oldProvider ≠ "" → n ≤ P oldProvider) → (k = n → ∀ q, bump oldProvider (- n) P q = 0) →
  shows (repeat_op n (removeModelRegistration c id oldProvider now) m !! id) (k - n) (bump oldProvider (- n) P).
Proof.
  intros Hn Hs Hp Hz. assert (E : Z.of_nat (Z.to_nat n) = n) by lia. unfold repeat_op. rewrite <-E at 2 3.
  apply count_remove_n; [done|lia|rewrite E; done|]. intros ->. rewrite E. by apply Hz.
Qed.

Lemma tally_lookup ids id : tally ids !! id = if bool_decide (0 < offers id ids) then Some (offers id ids) else None.
Proof. rewrite tally_spec. by rewrite (bool_decide_ext _ _ (iff_sym (offers_elem id ids))). Qed.

Lemma moved_counts m id (changed : bool) :
  shows (m !! id) (old id + h id) (bump oldProvider (old id) (HP id)) →
  shows ((if (changed && ! String.eqb oldProvider "")
          then foldl (move_step oldProvider (tally oldIds)) m (range_order 50 (tally raw)) else m) !! id)
    (old id + h id) (bump oldProvider (old id - if changed then Z.min (old id) (new id) else 0) (HP id)).
Proof.
  intros Hs. pose proof (offers_nonneg id oldIds) as Ho. pose proof (offers_nonneg id raw) as Hw.
  destruct changed; cbn [andb]; [|eapply shows_ext; [done|done|]; intros q; f_equal; lia].
  destruct (String.eqb_spec oldProvider "") as [->|Hne]; cbn [negb].
  { eapply shows_ext; [done|done|]. intros q. by rewrite !bump_eq. }
  rewrite range_fold.
  2:{ intros k v. unfold move_step. split.
      - intros m0 j Hj. destruct (_ || _); [done|]. destruct (m0 !! k); [by rewrite lookup_insert_ne|done].
      - intros m0 m1 E. destruct (_ || _); [done|]. rewrite <-E. destruct (m0 !! k) eqn:E0; [by rewrite !lookup_insert_eq|congruence]. }
  rewrite tally_lookup. case_bool_decide as Hpos.
  2:{ eapply shows_ext; [done|done|]. intros q. f_equal. lia. }
  unfold move_step. rewrite tally_count. destruct (Z.eqb_spec (new id) 0); [lia|]. cbn [orb].
  destruct (Z.eqb_spec (old id) 0) as [E|E].
  { eapply shows_ext; [done|done|]. intros q. f_equal. lia. }
  destruct (m !! id) as [reg|] eqn:Em; cbn in Hs; [|specialize (h_nonneg id); lia]. destruct Hs as (Hc & Hn & HPs).
  rewrite lookup_insert_eq. cbn. rewrite drop_provider_count. split; [done|]. split; [done|]. intros q.
  assert (Emin : (if old id <? new id then old id else new id) = Z.min (old id) (new id)) by (destruct (Z.ltb_spec (old id) (new id)); lia).
  rewrite Emin. pose proof (drop_provider_counts oldProvider (Z.min (old id) (new id)) reg q) as Hd.
  apply String.eqb_neq in Hne as Hne'. rewrite Hne' in Hd. cbn [negb] in Hd. rewrite Hd; [|lia|].
  - unfold bump at 1. rewrite HPs. unfold bump. repeat case_bool_decide; lia.
  - intros _. rewrite HPs. unfold bump. rewrite bool_decide_eq_true_2 by done. specialize (HP_bound id oldProvider). lia.
Qed.

(** After the removals the client still has what it keeps. *)
Lemma removed_counts m id (moved : Z) : 0 ≤ moved ≤ Z.min (old id) (new id) →
  shows (m !! id) (old id + h id) (bump oldProvider (old id - moved) (HP id)) →
  shows (foldl (overage_step c oldProvider now (tally raw))
           (foldl (removed_step c oldProvider now (tally raw)) m (range_order 51 (tally oldIds)))
           (range_order 52 (tally oldIds)) !! id)
    (Z.min (old id) (new id) + h id) (bump oldProvider (Z.min (old id) (new id) - moved) (HP id)).
Proof.
  intros Hmv Hs. pose proof (offers_nonneg id oldIds) as Ho. pose proof (offers_nonneg id raw) as Hw.
  specialize (h_nonneg id). specialize (HP_bound id).
  assert (Hrem : ∀ n, 0 ≤ n → n = old id - Z.min (old id) (new id) → 
    shows (repeat_op n (removeModelRegistration c id oldProvider now) m !! id)
      (Z.min (old id) (new id) + h id) (bump oldProvider (Z.min (old id) (new id) - moved) (HP id))).
  { intros n Hn En. eapply shows_ext; [apply remove_some; [|exact Hs|..]|..].
    - lia.
    - intros Hne. specialize (HP_bound oldProvider). unfold bump. rewrite bool_decide_eq_true_2 by done. lia.
    - intros E q. rewrite bump_bump. unfold bump. specialize (HP_bound q). case_bool_decide; lia.
    - lia.
    - intros q. rewrite bump_bump. f_equal. lia. }
  rewrite range_fold.
  2:{ intros k v. unfold overage_step. destruct (_ || _); [apply local_id|]. unfold repeat_op. auto. }
  rewrite tally_lookup. set (m1 := foldl (removed_step _ _ _ _) _ _).
  assert (Hm1 : m1 !! id = if bool_decide (0 < old id) then removed_step c oldProvider now (tally raw) m (id, old id) !! id else m !! id).
  { unfold m1. rewrite range_fold.
    - rewrite tally_lookup. by case_bool_decide.
    - intros k v. unfold removed_step. destruct (_ =? 0); [|apply local_id]. unfold repeat_op. auto. }
  destruct (bool_decide_reflect (0 < old id)) as [Hpos|Hpos].
  2:{ rewrite Hm1. eapply shows_ext; [exact Hs|lia|]. intros q. f_equal. lia. }
  unfold removed_step in Hm1. rewrite tally_count in Hm1. unfold overage_step. rewrite tally_count.
  destruct (Z.eqb_spec (new id) 0) as [E|E]; cbn [orb].
  - rewrite Hm1. apply Hrem; lia.
  - destruct (Z.leb_spec (old id) (new id)).
    + rewrite Hm1. eapply shows_ext; [exact Hs|lia|]. intros q. f_equal. lia.
    + destruct (local_iter id (Z.to_nat (old id - new id)) _ (local_remove c id oldProvider now)) as [_ Hl].
      unfold repeat_op. rewrite (Hl m1 m Hm1). apply Hrem; lia.
Qed.

Lemma addition_counts m id P : 
  shows (m !! id) (Z.min (old id) (new id) + h id) P →
  shows (foldl (addition_step provider now newModels (tally oldIds)) m (range_order 53 (tally raw)) !! id)
    (new id + h id) (bump provider (Z.max 0 (new id - old id)) P).
Proof.
  intros Hs. pose proof (offers_nonneg id oldIds) as Ho. pose proof (offers_nonneg id raw) as Hw. specialize (h_nonneg id).
  rewrite range_fold.
  2:{ intros k v. unfold addition_step. destruct (_ <=? _); [apply local_id|]. destruct (newModels !! k); [|apply local_id].
      unfold repeat_op. auto. }
  rewrite tally_lookup. case_bool_decide as Hpos.
  2:{ eapply shows_ext; [exact Hs|lia|]. intros q. replace (Z.max 0 (new id - old id)) with 0 by lia. by rewrite bump_0. }
  unfold addition_step. rewrite tally_count. destruct (Z.leb_spec (new id) (old id)).
  { eapply shows_ext; [exact Hs|lia|]. intros q. replace (Z.max 0 (new id - old id)) with 0 by lia. by rewrite bump_0. }
  assert (Hin : id ∈ raw) by (by apply offers_elem). apply raw_models in Hin as Hmi. destruct Hmi as [mi ->].
  unfold repeat_op. eapply shows_ext; [apply count_add_n; [|..|exact Hs]|..].
  - intros ->. done.
  - lia.
  - lia.
  - intros q. f_equal. lia.
Qed.

Lemma metadata_counts m uniq id (changed : bool) P : NoDup uniq → (∀ x, x ∈ uniq ↔ x ∈ raw) →
  shows (m !! id) (new id + h id) P →
  shows (foldl (metadata_step provider changed now newModels (tally oldIds) (tally raw)) m uniq !! id)
    (new id + h id) (bump provider (if changed then Z.min (old id) (new id) else 0) P).
Proof.
  intros Hnd Hu Hs. pose proof (offers_nonneg id oldIds) as Ho. pose proof (offers_nonneg id raw) as Hw.
  assert (Hloc : ∀ x, local_at x (λ m, metadata_step provider changed now newModels (tally oldIds) (tally raw) m x)).
  { intros x. unfold metadata_step. split.
    - intros m0 j Hj. destruct (m0 !! x); [|done]. destruct (newModels !! x); [by rewrite lookup_insert_ne|done].
    - intros m0 m1 E. rewrite <-E. destruct (m0 !! x) eqn:E0; [|congruence].
      destruct (newModels !! x); [by rewrite !lookup_insert_eq|congruence]. }
  destruct (fold_local (λ x, x) _ uniq id (ltac:(by rewrite list_fmap_id)) Hloc m) as [H1 H2].
  destruct (decide (id ∈ uniq)) as [Hin|Hin].
  2:{ rewrite H2 by (by rewrite list_fmap_id). rewrite Hu, <-offers_elem in Hin.
      eapply shows_ext; [exact Hs|done|]. intros q. replace (if changed then _ else _) with 0 by (destruct changed; lia).
      by rewrite bump_0. }
  rewrite (H1 id Hin eq_refl). clear H1 H2. apply Hu in Hin. apply raw_models in Hin as Hmi. apply offers_elem in Hin.
  destruct Hmi as [mi Hmi]. unfold metadata_step. rewrite Hmi, !tally_count.
  destruct (m !! id) as [reg|]; cbn in Hs; [|specialize (h_nonneg id); lia].
  destruct Hs as (Hc & Hn & HPs). rewrite lookup_insert_eq. cbn. split; [done|]. split; [done|]. intros q.
  assert (Emin : (if old id <? new id then old id else new id) = Z.min (old id) (new id)) by (destruct (Z.ltb_spec (old id) (new id)); lia).
  rewrite Emin, bump_eq. destruct changed; cbn [andb].
  2:{ rewrite Z.add_0_r, HPs. destruct (String.eqb _ _); [done|]. by case_bool_decide. }
  destruct (String.eqb_spec provider "") as [->|Hne]; cbn [andb negb]; [done|].
  destruct (Z.eqb_spec (old id) 0) as [E|E]; cbn [andb negb].
  { rewrite HPs. replace (Z.min (old id) (new id)) with 0 by lia. rewrite Z.add_0_r. by case_bool_decide. }
  destruct (Z.ltb_spec 0 (Z.min (old id) (new id))); [|lia]. rewrite count_of_insert, !HPs.
  case_bool_decide; [by subst|done].
Qed.

(** The reconciliation of one name, from the old offers to the new ones. *)
Lemma reconcile_counts m uniq id : NoDup uniq → (∀ x, x ∈ uniq ↔ x ∈ raw) →
  (∀ id, shows (m !! id) (old id + h id) (bump oldProvider (old id) (HP id))) →
  let changed := ! String.eqb oldProvider provider in
  let m1 := if (changed && ! String.eqb oldProvider "")
            then foldl (move_step oldProvider (tally oldIds)) m (range_order 50 (tally raw)) else m in
  let m2 := foldl (removed_step c oldProvider now (tally raw)) m1 (range_order 51 (tally oldIds)) in
  let m3 := foldl (overage_step c oldProvider now (tally raw)) m2 (range_order 52 (tally oldIds)) in
  let m4 := foldl (addition_step provider now newModels (tally oldIds)) m3 (range_order 53 (tally raw)) in
  shows (foldl (metadata_step provider changed now newModels (tally oldIds) (tally raw)) m4 uniq !! id)
    (new id + h id) (bump provider (new id) (HP id)).
Proof.
  intros Hnd Hu Hs changed m1 m2 m3 m4. pose proof (offers_nonneg id oldIds) as Ho. pose proof (offers_nonneg id raw) as Hw.
  eapply shows_ext; [apply metadata_counts; [done|done|]; apply addition_counts;
    apply (removed_counts _ _ (if changed then Z.min (old id) (new id) else 0)); [|apply moved_counts, Hs]|done|].
  - destruct changed; lia.
  - intros q. subst changed. destruct (String.eqb_spec oldProvider provider) as [->|Hne]; cbn [negb].
    + rewrite bump_0, Z.sub_0_r, bump_bump. f_equal. lia.
    + rewrite Z.sub_diag. rewrite bump_bump. unfold bump. repeat case_bool_decide; lia.
Qed.

End reconcile.

Section registry.
Context {RO : RangeOrder}.

(** A first registration adds the names one by one. *)
Lemma first_registration provider (newModels : gmap string ModelInfo) now raw h HP m :
  "" ∉ raw → (∀ id, id ∈ raw → is_Some (newModels !! id)) → (∀ id, 0 ≤ h id) →
  (∀ id, shows (m !! id) (h id) (HP id)) → ∀ id,
  shows (foldl (λ m id, match newModels !! id with
                        | Some model => addModelRegistration id provider model now m | None => m end) m raw !! id)
    (offers id raw + h id) (bump provider (offers id raw) (HP id)).
Proof.
  intros Hn Hm Hh Hs id. induction raw as [|x raw IH] using rev_ind.
  { cbn [foldl]. eapply shows_ext; [apply Hs|done|]. intros q. by rewrite bump_0. }
  rewrite foldl_app. cbn [foldl]. set (m1 := foldl _ m raw) in *.
  assert (IH' : shows (m1 !! id) (offers id raw + h id) (bump provider (offers id raw) (HP id))) by (apply IH; set_solver).
  clear IH. destruct (Hm x ltac:(set_solver)) as [mi ->]. rewrite offers_app, offers_one.
  pose proof (offers_nonneg id raw). specialize (Hh id).
  destruct (String.eqb_spec x id) as [->|Hne].
  - eapply shows_ext; [apply count_add; [..|exact IH']|lia|].
    + intros ->. set_solver.
    + lia.
    + intros q. rewrite bump_bump. f_equal. lia.
  - rewrite count_add_other by done. eapply shows_ext; [exact IH'|lia|]. intros q. f_equal. lia.
Qed.

Lemma names_nonempty ms : "" ∉ names ms.
Proof. unfold names. by intros [_ H]%list_elem_of_In%filter_In. Qed.

Lemma register_counts c clientProvider ms now r : counts_exact r →
  counts_exact (RegisterClient c clientProvider ms now r).
Proof.
  intros Hr. unfold RegisterClient. destruct (offered_spec ms) as (Eraw & Ecounts & Hnd & Hu & Hm).
  destruct (bool_decide_reflect (of_unique (offered ms) = [])) as [E|E].
  { pose proof (unregister_counts c now r Hr) as Hr1. revert Hr1. set (r1 := unregisterClientInternal c now r). intros Hr1.
    assert (Hc : clientModels r1 !! c = None).
    { unfold r1, unregisterClientInternal. destruct (clientModels r !! c) eqn:Ec; cbn; [apply lookup_delete_eq|done]. }
    assert (Hp : clientProviders r1 !! c = None).
    { destruct (clientProviders r1 !! c) as [p|] eqn:Ep; [|done]. destruct (ce_providers _ Hr1 _ _ Ep) as [_ [? ?]]. congruence. }
    rewrite (delete_id (clientModels r1)), (delete_id (clientProviders r1)) by done. by destruct Hr1. }
  rewrite Ecounts. set (raw := of_raw (offered ms)) in *. set (provider := ToLower clientProvider).
  assert (Hraw : "" ∉ raw) by (rewrite Eraw; apply names_nonempty).
  assert (Eprov : set_provider c provider (clientProviders r) =
    partial_alter (λ _, if String.eqb provider "" then None else Some provider) c (clientProviders r)).
  { unfold set_provider. by destruct (String.eqb provider ""). }
  rewrite Eprov.
  assert (Ename : name_of (if String.eqb provider "" then None else Some provider) = provider).
  { destruct (String.eqb_spec provider "") as [Ep|]; [by rewrite Ep|done]. }
  apply counts_join; [done|done|destruct (String.eqb_spec provider ""); congruence|]. rewrite Ename. intros id.
  pose proof (λ id, counts_split r c id Hr) as Hs. set (h := λ id, held (delete c (clientModels r)) id) in *.
  set (HP := λ id p, held_by (delete c (clientModels r)) (clientProviders r) p id) in *.
  destruct (clientModels r !! c) as [oldIds|] eqn:Ec.
  - apply (reconcile_counts c provider (attr (clientProviders r) c) now oldIds raw (of_models (offered ms)) h HP).
    + intros j. apply held_nonneg.
    + intros j q. apply others_bound.
    + done.
    + done.
    + done.
    + done.
    + exact Hs.
  - apply (first_registration provider (of_models (offered ms)) now raw h HP); [done| | |].
    + intros j Hj. by apply Hm.
    + intros j. apply held_nonneg.
    + intros j. eapply shows_ext; [apply Hs|done|]. intros q. unfold HP. by rewrite bump_eq, Z.add_0_r; repeat case_match.
Qed.

(** The operations of the registry, in any order. *)
Inductive registry_reach : ModelRegistry → Prop :=
  | reach_new : registry_reach NewModelRegistry
  | reach_register c p ms now r : registry_reach r → registry_reach (RegisterClient c p ms now r)
  | reach_unregister c now r : registry_reach r → registry_reach (UnregisterClient c now r)
  | reach_exceeded c id now r : registry_reach r → registry_reach (SetModelQuotaExceeded c id now r)
  | reach_cleared c id r : registry_reach r → registry_reach (ClearModelQuotaExceeded c id r)
  | reach_suspended c id reason now r : registry_reach r → registry_reach (SuspendClientModel c id reason now r)
  | reach_resumed c id now r : registry_reach r → registry_reach (ResumeClientModel c id now r)
  | reach_cleanup now r : registry_reach r → registry_reach (CleanupExpiredQuotas now r).

Lemma shows_marks o n P f : (∀ reg, rg_Count (f reg) = rg_Count reg ∧ rg_Providers (f reg) = rg_Providers reg) →
  shows o n P → shows (f <$> o) n P.
Proof.
  intros Hf Hs. destruct o as [reg|]; cbn in *; [|done]. destruct (Hf reg) as [-> ->]. done.
Qed.

Lemma mark_counts id f r : (∀ reg, rg_Count (f reg) = rg_Count reg ∧ rg_Providers (f reg) = rg_Providers reg) →
  counts_exact r → counts_exact (with_registration id f r).
Proof.
  intros Hf [Hm Hn Hp]. unfold with_registration. destruct (models r !! id) as [reg|] eqn:E; [|done].
  split; cbn; [|done|done]. intros j. destruct (decide (id = j)) as [<-|Hne].
  - rewrite lookup_insert_eq. specialize (Hm id). rewrite E in Hm. by apply (shows_marks (Some reg)).
  - rewrite lookup_insert_ne by done. apply Hm.
Qed.

Lemma reach_counts r : registry_reach r → counts_exact r.
Proof.
  induction 1.
  - split; [intros id; by split|done..].
  - by apply register_counts.
  - by apply unregister_counts.
  - by apply mark_counts.
  - by apply mark_counts.
  - unfold SuspendClientModel. destruct (_ || _); [done|]. apply mark_counts; [|done].
    intros reg. by destruct (rg_SuspendedClients reg !! c).
  - unfold ResumeClientModel. destruct (_ || _); [done|]. apply mark_counts; [|done].
    intros reg. by destruct (rg_SuspendedClients reg !! c).
  - destruct IHregistry_reach as [Hm Hn Hp]. split; cbn; [|done|done]. intros id. rewrite lookup_fmap.
    by apply shows_marks.
Qed.

(** C10: the reference counts of the registry are exact. However clients register, register
    again with other models or another provider, leave, and are marked, in any order: a
    model is listed exactly when some client offers it, its count is the number of offers of
    all clients, and its count for a provider is that of the clients of the provider. *)
Theorem registry_counts_exact r id : registry_reach r →
  (is_Some (models r !! id) ↔ ∃ c ids, clientModels r !! c = Some ids ∧ id ∈ ids) ∧
  ∀ reg, models r !! id = Some reg →
    rg_Count reg = held (clientModels r) id ∧
    ∀ p, count_of (rg_Providers reg) p = held_by (clientModels r) (clientProviders r) p id.
Proof.
  intros Hr%reach_counts. pose proof (ce_models _ Hr id) as Hs. split.
  - assert (Hpos : 0 < held (clientModels r) id ↔ ∃ c ids, clientModels r !! c = Some ids ∧ id ∈ ids).
    { split.
      - intros ([c ids] & Hin%elem_of_map_to_list & Hp)%zsum_pos_exists. apply offers_elem in Hp. eauto.
      - intros (c & ids & Hc & Hin%offers_elem). rewrite (held_split _ c), Hc. pose proof (held_nonneg (delete c (clientModels r)) id).
        change (default [] (Some ids)) with ids. lia. }
    rewrite <-Hpos. destruct (models r !! id) as [reg|]; cbn in Hs.
    + split; [lia|by eexists].
    + split; [by intros [? ?]|lia].
  - intros reg E. rewrite E in Hs. by destruct Hs as (? & _ & ?).
Qed.

End registry.

(** ** Two clients of one model *)

Definition model_named (id : string) : ModelInfo := MkInfo id "model" 0 "" "" "" "" "" "" "" 0 0 [] 0 0 [] None false.

#[local] Existing Instance listing_order.

(** [a] offers two models, then one of them twice and under another provider; [b] joins. *)
Definition two_clients : ModelRegistry :=
  RegisterClient "b" "Codex" [Some (model_named "gpt-5")] 3
    (RegisterClient "a" "openai" [Some (model_named "gpt-5"); Some (model_named "gpt-5")] 2
      (RegisterClient "a" "codex" [Some (model_named "gpt-5"); None; Some (model_named "o3")] 1 NewModelRegistry)).

Lemma registry_counts_exact_witness :
  ∃ reg, models two_clients !! "gpt-5" = Some reg ∧ rg_Count reg = 3 ∧
    count_of (rg_Providers reg) "codex" = 1 ∧ count_of (rg_Providers reg) "openai" = 2.
Proof.
  assert (Hr : registry_reach two_clients)
    by (unfold two_clients; apply reach_register, reach_register, reach_register, reach_new).
  destruct (registry_counts_exact two_clients "gpt-5" Hr) as [_ H].
  destruct (models two_clients !! "gpt-5") as [reg|] eqn:E; [|by vm_compute in E].
  exists reg. destruct (H reg eq_refl) as [Hc Hp]. split; [reflexivity|]. rewrite Hc, !Hp. vm_compute.
  split; [|split]; reflexivity.
Defined.
