(* ===== verification/Weighted.v ===== *)
(** * Smooth weighted round-robin

    Models [src/sdk/cliproxy/auth/selector_weighted.go]: the per-key cursor
    state of [RoundRobinSelector] and [pickWeightedAvailable]. The main result
    is exact proportional fairness: with a constant candidate set, any window of
    [W] consecutive picks from a balanced state (where [W] is the sum of the
    weights) selects every account exactly as often as its weight says, and
    ends in a balanced state again, whatever the tie cursor was. *)
From S2P Require Import Prelude GoModel AuthTypes.

Record weightedCursorState := MkCursor { current : gmap string Z; tieCursor : Z }.

Definition cursor_new : weightedCursorState := {| current := ∅; tieCursor := 0 |}.

(** [states[key]]; the map of all cursor states of a selector. *)
Definition ensureWeightedState (states : gmap string weightedCursorState) (key : string)
    (limit : Z) : gmap string weightedCursorState :=
  let states :=
    if (bool_decide (states !! key = None) && (limit <=? Z.of_nat (size states)))
    then ∅ else states in
  match states !! key with
  | None => <[key := cursor_new]> states
  | Some _ => states
  end.

(** [state.current[id]], 0 when absent. *)
Definition score (cur : gmap string Z) (id : string) : Z := default 0 (cur !! id).

(** First loop: add every candidate's weight to its score and to the total. *)
Definition acc_step (acc : Z * gmap string Z) (a : Auth) : Z * gmap string Z :=
  let '(totalWeight, cur) := acc in
  let weight := authSelectionWeight (Some a) in
  if weight <=? 0 then (totalWeight, cur)
  else (wrap64 (totalWeight + weight),
        <[au_ID a := wrap64 (score cur (au_ID a) + weight)]> cur).

Definition accumulate (available : list Auth) (cur : gmap string Z) : Z * gmap string Z :=
  foldl acc_step (0, cur) available.

(** Scores of accounts that are no longer candidates are dropped. *)
Definition prune (available : list Auth) (cur : gmap string Z) : gmap string Z :=
  filter (λ kv, kv.1 ∈ (au_ID <$> available)) cur.

(** Second loop: the highest score wins, scanning from [start] and wrapping
    around; an earlier offset wins a tie. *)
Definition best_step (available : list Auth) (cur : gmap string Z) (start : nat)
    (best : option nat * Z) (offset : nat) : option nat * Z :=
  let '(bestIndex, bestScore) := best in
  let index := ((start + offset) mod length available)%nat in
  let s := match available !! index with Some a => score cur (au_ID a) | None => 0 end in
  match bestIndex with
  | None => (Some index, s)
  | Some _ => if bestScore <? s then (Some index, s) else (bestIndex, bestScore)
  end.

Definition best_from (available : list Auth) (cur : gmap string Z) (start : nat) : option nat :=
  fst (foldl (best_step available cur start) (None, 0) (seq 0 (length available))).

Definition tieCursorMax : Z := 2147483640.

Definition pickWeighted (state : weightedCursorState) (available : list Auth)
    : option Auth * weightedCursorState :=
  match available with
  | [] => (None, state)
  | first :: _ =>
      let '(totalWeight, cur) := accumulate available (current state) in
      let cur := prune available cur in
      if totalWeight <=? 0 then (None, {| current := cur; tieCursor := tieCursor state |})
      else
        let start := (Z.to_nat (tieCursor state) mod length available)%nat in
        let selected :=
          match best_from available cur start with
          | Some i => default first (available !! i)
          | None => first
          end in
        let cur := <[au_ID selected := wrap64 (score cur (au_ID selected) - totalWeight)]> cur in
        let tie := if tieCursorMax <=? tieCursor state then 0 else tieCursor state in
        (Some selected, {| current := cur; tieCursor := tie + 1 |})
  end.

(** [pickWeightedAvailable] on the selector's map of cursor states. *)
Definition pickWeightedAvailable (states : gmap string weightedCursorState) (key : string)
    (available : list Auth) : option Auth * gmap string weightedCursorState :=
  match available with
  | [] => (None, states)
  | _ =>
      let '(sel, st) := pickWeighted (default cursor_new (states !! key)) available in
      (sel, <[key := st]> states)
  end.

(** [n] consecutive requests over the same candidates: the accounts selected, in
    order, and the final state. *)
Fixpoint picks (n : nat) (st : weightedCursorState) (available : list Auth)
    : list Auth * weightedCursorState :=
  match n with
  | O => ([], st)
  | S n =>
      match pickWeighted st available with
      | (Some b, st) => let '(bs, st) := picks n st available in (b :: bs, st)
      | (None, st) => picks n st available
      end
  end.

(** How often the account [id] occurs in a list of selections. *)
Definition times (id : string) (sel : list Auth) : Z :=
  zsum (λ b, if decide (au_ID b = id) then 1 else 0) sel.

(** ** Lemmas *)

Lemma score_insert_eq cur k v : score (<[k := v]> cur) k = v.
Proof. unfold score. by rewrite lookup_insert_eq. Qed.

Lemma score_insert_ne cur k j v : k ≠ j → score (<[k := v]> cur) j = score cur j.
Proof. intros. unfold score. by rewrite lookup_insert_ne. Qed.

Lemma score_ext cur cur' k : cur !! k = cur' !! k → score cur k = score cur' k.
Proof. unfold score. by intros ->. Qed.

Lemma fresh_id_ne (a b : Auth) (l : list Auth) : au_ID a ∉ (au_ID <$> l) → b ∈ l → au_ID a ≠ au_ID b.
Proof. intros Hna Hb Heq. apply Hna. rewrite Heq. by apply list_elem_of_fmap_2. Qed.

(** The successful branch of [pickWeighted], on any nonempty list. *)
Lemma pickWeighted_eq st l tot cur i b :
  accumulate l (current st) = (tot, cur) → 0 < tot →
  best_from l (prune l cur) (Z.to_nat (tieCursor st) mod length l) = Some i →
  l !! i = Some b →
  pickWeighted st l =
    (Some b, {| current := <[au_ID b := wrap64 (score (prune l cur) (au_ID b) - tot)]> (prune l cur);
                tieCursor := (if tieCursorMax <=? tieCursor st then 0 else tieCursor st) + 1 |}).
Proof.
  intros Hacc Htot Hbest Hb. unfold pickWeighted. destruct l as [|x l]; [done|].
  rewrite Hacc, (proj2 (Z.leb_gt tot 0)), Hbest, Hb by done. done.
Qed.

Section fixed_candidates.
Context (available : list Auth).
Let ids := au_ID <$> available.
Let weight (a : Auth) : Z := authSelectionWeight (Some a).
Let W : Z := zsum weight available.
Context (Hnodup : NoDup ids) (Hne : available ≠ [])
        (Hpos : Forall (λ a, 0 < weight a) available)
        (Hbound : Z.of_nat (length available) * W < two63).

Lemma weight_pos a : a ∈ available → 0 < weight a.
Proof. intros Ha. by eapply (proj1 (Forall_forall _ _)) in Hpos. Qed.

Lemma weight_nonneg a : 0 ≤ weight a.
Proof. unfold weight. auto with clirelay. Qed.

Lemma W_pos : 0 < W.
Proof.
  destruct (list_nonempty_elem _ Hne) as [a Ha].
  pose proof (weight_pos a Ha).
  pose proof (zsum_elem_le weight available a (λ y _, weight_nonneg y) Ha). unfold W. lia.
Qed.

Lemma W_lt : W < two63.
Proof.
  pose proof W_pos. assert (1 ≤ Z.of_nat (length available)).
  { idtac.
    destruct (length available) eqn:E; [|lia]. by apply nil_length_inv in E. }
  nia.
Qed.

(** Two candidates with the same ID are the same candidate. *)
Lemma id_inj a b : a ∈ available → b ∈ available → au_ID a = au_ID b → a = b.
Proof.
  intros Ha Hb Hid.
  apply list_elem_of_lookup in Ha as [i Hi]. apply list_elem_of_lookup in Hb as [j Hj].
  assert (i = j); [|congruence].
  eapply (NoDup_lookup ids); [exact Hnodup|unfold ids; rewrite list_lookup_fmap, Hi; simpl; done|].
  unfold ids. by rewrite list_lookup_fmap, Hj, Hid.
Qed.

Lemma accumulate_gen (l : list Auth) t0 cur :
  NoDup (au_ID <$> l) → Forall (λ a, 0 < weight a) l →
  0 ≤ t0 → t0 + zsum weight l < two63 →
  (∀ a, a ∈ l → in_int64 (score cur (au_ID a) + weight a)) →
  let r := foldl acc_step (t0, cur) l in
  r.1 = t0 + zsum weight l ∧
  (∀ a, a ∈ l → score r.2 (au_ID a) = score cur (au_ID a) + weight a) ∧
  (∀ k, k ∉ (au_ID <$> l) → r.2 !! k = cur !! k).
Proof.
  revert t0 cur. induction l as [|a l IH]; intros t0 cur Hnd Hw Ht0 Ht Hint.
  - simpl. split; [unfold zsum; simpl; lia|]. split; [intros a Ha; by apply elem_of_nil in Ha|done].
  - apply NoDup_cons in Hnd as [Hna Hnd]. apply Forall_cons in Hw as [Hwa Hw].
    rewrite zsum_cons in *. cbn [foldl].
    assert (0 ≤ zsum weight l).
    { apply zsum_nonneg. intros x _. apply weight_nonneg. }
    assert (Hstep : acc_step (t0, cur) a =
      (t0 + weight a, <[au_ID a := score cur (au_ID a) + weight a]> cur)).
    { unfold acc_step. fold (weight a). rewrite (proj2 (Z.leb_gt (weight a) 0)) by done.
      rewrite (wrap64_id (t0 + weight a)) by (unfold in_int64, two63 in *; lia).
      by rewrite (wrap64_id (score cur (au_ID a) + weight a)) by (apply Hint; left). }
    rewrite Hstep. clear Hstep.
    destruct (IH (t0 + weight a) (<[au_ID a := score cur (au_ID a) + weight a]> cur))
      as (H1 & H2 & H3); [done|done|lia|lia|..].
    { intros b Hb. rewrite score_insert_ne by eauto using fresh_id_ne. apply Hint. by right. }
    split; [rewrite H1; lia|]. split.
    + intros b Hb. apply elem_of_cons in Hb as [->|Hb].
      * rewrite (score_ext _ _ _ (H3 _ Hna)). apply score_insert_eq.
      * rewrite H2 by done. by rewrite score_insert_ne by eauto using fresh_id_ne.
    + intros k Hk. apply not_elem_of_cons in Hk as [Hk1 Hk2].
      rewrite H3 by done. by rewrite lookup_insert_ne.
Qed.

Lemma score_prune cur a : a ∈ available → score (prune available cur) (au_ID a) = score cur (au_ID a).
Proof.
  intros Ha. apply score_ext. unfold prune. rewrite map_lookup_filter.
  destruct (cur !! au_ID a); simpl; [|done]. rewrite option_guard_True; [done|].
  by apply list_elem_of_fmap_2.
Qed.

(** *** The scan *)

Lemma best_scan cur start (os : list nat) i s :
  (∃ a, available !! i = Some a ∧ s = score cur (au_ID a)) →
  ∃ j t a, foldl (best_step available cur start) (Some i, s) os = (Some j, t) ∧
    available !! j = Some a ∧ t = score cur (au_ID a) ∧ s ≤ t ∧
    ∀ o b, o ∈ os → available !! ((start + o) mod length available)%nat = Some b →
      score cur (au_ID b) ≤ t.
Proof.
  revert i s. induction os as [|o os IH]; intros i s (a & Ha & Hs).
  - exists i, s, a. repeat split; [done|done|lia|]. intros o b Ho. by apply elem_of_nil in Ho.
  - cbn [foldl].
    destruct (available !! ((start + o) mod length available)%nat) as [c|] eqn:Hc.
    2:{ exfalso. apply lookup_ge_None in Hc.
        pose proof (Nat.mod_upper_bound (start + o) (length available)).
        apply lookup_lt_Some in Ha. lia. }
    assert (Hstep : best_step available cur start (Some i, s) o =
      if s <? score cur (au_ID c)
      then (Some ((start + o) mod length available)%nat, score cur (au_ID c)) else (Some i, s)).
    { unfold best_step. by rewrite Hc. }
    rewrite Hstep. clear Hstep. destruct (Z.ltb_spec s (score cur (au_ID c))) as [Hlt|Hge].
    + destruct (IH ((start + o) mod length available)%nat (score cur (au_ID c)))
        as (j & t & d & -> & Hd & Ht & Hle & Hall); [by exists c|].
      exists j, t, d. repeat split; [done|done|lia|].
      intros o' b Ho' Hb. apply elem_of_cons in Ho' as [->|Ho']; [|by eauto].
      rewrite Hc in Hb. injection Hb as <-. lia.
    + destruct (IH i s) as (j & t & d & -> & Hd & Ht & Hle & Hall); [by exists a|].
      exists j, t, d. repeat split; [done|done|lia|].
      intros o' b Ho' Hb. apply elem_of_cons in Ho' as [->|Ho']; [|by eauto].
      rewrite Hc in Hb. injection Hb as <-. lia.
Qed.

(** Every position is visited: [start + offset] runs over all residues. *)
Lemma offset_reaches start i :
  (i < length available)%nat → ∃ o, o ∈ seq 0 (length available) ∧
  ((start + o) mod length available)%nat = i.
Proof.
  intros Hi. set (n := length available) in *.
  exists ((i + (n - start mod n)) mod n)%nat. split.
  - rewrite elem_of_seq. split; [lia|]. apply Nat.mod_upper_bound. lia.
  - rewrite Nat.Div0.add_mod_idemp_r.
    pose proof (Nat.div_mod_eq start n). pose proof (Nat.mod_upper_bound start n).
    replace (start + (i + (n - start mod n)))%nat with (i + (start / n + 1) * n)%nat by lia.
    rewrite Nat.Div0.mod_add. by apply Nat.mod_small.
Qed.

(** The scan returns a candidate of maximal score. *)
Lemma best_from_max cur start :
  ∃ i a, best_from available cur start = Some i ∧ available !! i = Some a ∧
    ∀ b, b ∈ available → score cur (au_ID b) ≤ score cur (au_ID a).
Proof.
  unfold best_from.
  destruct (length available) as [|n] eqn:En; [by apply nil_length_inv in En|].
  cbn [seq foldl]. set (i0 := ((start + 0) mod length available)%nat).
  destruct (available !! i0) as [c|] eqn:Hc.
  2:{ exfalso. apply lookup_ge_None in Hc.
      pose proof (Nat.mod_upper_bound (start + 0) (length available)). unfold i0 in Hc. lia. }
  assert (Hstep : best_step available cur start (None, 0) 0 = (Some i0, score cur (au_ID c))).
  { unfold best_step. fold i0. by rewrite Hc. }
  rewrite Hstep.
  destruct (best_scan cur start (seq 1 n) i0 (score cur (au_ID c)))
    as (j & t & d & -> & Hd & Ht & Hle & Hall); [by exists c|].
  exists j, d. repeat split; [done|]. intros b Hb. rewrite <- Ht.
  apply list_elem_of_lookup in Hb as [i Hi].
  destruct (offset_reaches start i) as (o & Ho & Heq); [by apply lookup_lt_Some in Hi|].
  rewrite En in Ho. cbn [seq] in Ho. apply elem_of_cons in Ho as [->|Ho].
  - fold i0 in Heq. rewrite <- Heq, Hc in Hi. injection Hi as <-. lia.
  - eapply Hall; [exact Ho|]. by rewrite Heq.
Qed.

(** *** One pick *)

Definition balanced (st : weightedCursorState) : Prop :=
  zsum (λ a, score (current st) (au_ID a)) available = 0 ∧
  ∀ a, a ∈ available → - W < score (current st) (au_ID a).

Lemma score_upper st a :
  balanced st → a ∈ available → score (current st) (au_ID a) + weight a < two63.
Proof.
  intros [Hsum Hlow] Ha.
  set (f := λ b : Auth, score (current st) (au_ID b) + W).
  assert (Hle : f a ≤ zsum f available).
  { apply zsum_elem_le; [|done]. intros y Hy. unfold f. specialize (Hlow y Hy). lia. }
  unfold f in Hle at 2. rewrite zsum_add, Hsum in Hle.
  rewrite zsum_const in Hle. unfold f in Hle.
  assert (weight a ≤ W) by (apply zsum_elem_le; [intros; apply weight_nonneg|done]). lia.
Qed.

(** The effect of one pick from a balanced state. *)
Lemma pickWeighted_step st :
  balanced st →
  ∃ b st', pickWeighted st available = (Some b, st') ∧ b ∈ available ∧
    (∀ a, a ∈ available → score (current st') (au_ID a) =
      score (current st) (au_ID a) + weight a - (if decide (a.(au_ID) = b.(au_ID)) then W else 0)) ∧
    (∀ a, a ∈ available → score (current st) (au_ID a) + weight a ≤
      score (current st) (au_ID b) + weight b) ∧
    0 < score (current st) (au_ID b) + weight b.
Proof.
  intros Hbal. pose proof W_pos as HW. pose proof W_lt as HW2.
  assert (Hrange : ∀ a, a ∈ available → in_int64 (score (current st) (au_ID a) + weight a)).
  { intros a Ha. pose proof (score_upper st a Hbal Ha). destruct Hbal as [_ Hlow].
    specialize (Hlow a Ha). pose proof (weight_pos a Ha). unfold in_int64, two63 in *. lia. }
  destruct (accumulate_gen available 0 (current st)) as (Htot & Hsc & _);
    [done|done|lia|fold W; lia|done|].
  fold (accumulate available (current st)) in Htot, Hsc.
  destruct (accumulate available (current st)) as [tot cur] eqn:Eacc. simpl in Htot, Hsc.
  fold W in Htot. rewrite Z.add_0_l in Htot. subst tot.
  destruct (best_from_max (prune available cur) (Z.to_nat (tieCursor st) mod length available))
    as (i & b & Hfrom & Hi & Hmax).
  rewrite (pickWeighted_eq st available W cur i b Eacc HW Hfrom Hi).
  assert (Hb : b ∈ available) by (by apply list_elem_of_lookup; eauto).
  assert (Hscore : ∀ a, a ∈ available →
    score (prune available cur) (au_ID a) = score (current st) (au_ID a) + weight a).
  { intros a Ha. rewrite score_prune by done. by apply Hsc. }
  assert (Hbest : ∀ a, a ∈ available → score (current st) (au_ID a) + weight a ≤
      score (current st) (au_ID b) + weight b).
  { intros a Ha. rewrite <- !Hscore by done. by apply Hmax. }
  assert (Hbpos : 0 < score (current st) (au_ID b) + weight b).
  { destruct (zsum_pos_exists (λ a, score (current st) (au_ID a) + weight a) available)
      as (a & Ha & Hap).
    - rewrite zsum_add. destruct Hbal as [-> _]. fold W. lia.
    - specialize (Hbest a Ha). lia. }
  eexists b, _. split; [reflexivity|]. split; [done|]. split; [|done].
  intros a Ha. simpl current. rewrite Hscore by done.
  assert (Hin : in_int64 (score (current st) (au_ID b) + weight b - W)).
  { specialize (Hrange b Hb). unfold in_int64, two63 in *. lia. }
  rewrite (wrap64_id _ Hin).
  destruct (decide (au_ID a = au_ID b)) as [Heq|Hneq].
  - rewrite Heq, score_insert_eq. rewrite (id_inj a b Ha Hb Heq). done.
  - rewrite score_insert_ne by done. rewrite Hscore by done. lia.
Qed.

Lemma balanced_pick st b st' :
  balanced st → pickWeighted st available = (Some b, st') → balanced st'.
Proof.
  intros Hbal Hp. destruct (pickWeighted_step st Hbal) as (b' & st'' & Hp' & Hb & Hs & _ & Hbp).
  rewrite Hp in Hp'. injection Hp' as <- <-. destruct Hbal as [Hsum Hlow]. split.
  - rewrite (zsum_ext _ (λ a, (score (current st) (au_ID a) + weight a) +
      (- W) * (if decide (au_ID a = au_ID b) then 1 else 0))).
    + rewrite zsum_add, zsum_add, zsum_scale, Hsum. fold W.
      enough (zsum (λ a, if decide (au_ID a = au_ID b) then 1 else 0) available = 1) by lia.
      pose proof (zsum_indicator (au_ID b) ids Hnodup) as Hind.
      unfold ids in Hind. rewrite zsum_fmap in Hind. apply Hind. by apply list_elem_of_fmap_2.
    + intros a Ha. rewrite Hs by done. destruct (decide _); lia.
  - intros a Ha. rewrite Hs by done. pose proof (weight_pos a Ha). specialize (Hlow a Ha).
    destruct (decide (au_ID a = au_ID b)) as [Heq|]; [|lia].
    rewrite (id_inj a b Ha Hb Heq). lia.
Qed.

(** *** Runs of picks *)

(** The invariant of a run: after [n] picks from [st0] every score is its initial
    value plus [n] times the weight minus [W] per selection received. *)
Lemma run_invariant n : ∀ st0, balanced st0 →
  let '(sel, st) := picks n st0 available in
  balanced st ∧ length sel = n ∧ Forall (λ b, b ∈ available) sel ∧
  ∀ a, a ∈ available → score (current st) (au_ID a) =
    score (current st0) (au_ID a) + Z.of_nat n * weight a - W * times (au_ID a) sel.
Proof.
  induction n as [|n IH]; intros st0 Hbal; simpl.
  - split; [done|]. split; [done|]. split; [constructor|]. intros a Ha. unfold times, zsum. simpl. lia.
  - destruct (pickWeighted_step st0 Hbal) as (b & st1 & Hp & Hb & Hs & _ & _). rewrite Hp.
    specialize (IH st1 (balanced_pick _ _ _ Hbal Hp)).
    destruct (picks n st1 available) as [sel st]. destruct IH as (Hbal' & Hlen & Hall & Hsc).
    split; [done|]. split; [simpl; lia|]. split; [by constructor|].
    intros a Ha. rewrite Hsc, Hs by done. unfold times. rewrite zsum_cons.
    destruct (decide (au_ID a = au_ID b)), (decide (au_ID b = au_ID a)); first [congruence | nia].
Qed.

Lemma times_total sel :
  Forall (λ b, b ∈ available) sel → zsum (λ a, times (au_ID a) sel) available = Z.of_nat (length sel).
Proof.
  induction 1 as [|b sel Hb Hall IH].
  - rewrite (zsum_ext _ (λ _, 0)), zsum_const by done. simpl. lia.
  - rewrite (zsum_ext _ (λ a, (if decide (au_ID a = au_ID b) then 1 else 0) + times (au_ID a) sel)).
    + rewrite zsum_add, IH. simpl length.
      pose proof (zsum_indicator (au_ID b) ids Hnodup) as Hind.
      unfold ids in Hind. rewrite zsum_fmap in Hind.
      rewrite Hind by (by apply list_elem_of_fmap_2). lia.
    + intros x _. unfold times. rewrite zsum_cons.
      destruct (decide (au_ID b = au_ID x)), (decide (au_ID x = au_ID b)); congruence.
Qed.

(** A run of [W] picks from a state whose scores are all zero is exactly fair. *)
Lemma run_fair st0 :
  (∀ a, a ∈ available → score (current st0) (au_ID a) = 0) →
  let '(sel, st) := picks (Z.to_nat W) st0 available in
  (∀ a, a ∈ available → times (au_ID a) sel = weight a) ∧
  (∀ a, a ∈ available → score (current st) (au_ID a) = 0).
Proof.
  intros Hz. pose proof W_pos as HW.
  assert (Hbal : balanced st0).
  { split; [|intros a Ha; rewrite Hz by done; lia].
    rewrite (zsum_ext _ (λ _, 0)), zsum_const by done. lia. }
  pose proof (run_invariant (Z.to_nat W) st0 Hbal) as H.
  destruct (picks (Z.to_nat W) st0 available) as [sel st].
  destruct H as ((_ & Hlow) & Hlen & Hall & Hsc).
  rewrite Z2Nat.id in Hsc by lia.
  assert (Hle : ∀ a, a ∈ available → times (au_ID a) sel ≤ weight a).
  { intros a Ha. specialize (Hlow a Ha). rewrite Hsc, Hz in Hlow by done. nia. }
  assert (Heq : ∀ a, a ∈ available → times (au_ID a) sel = weight a).
  { apply (zsum_le_eq (λ a, times (au_ID a) sel)); [done|].
    rewrite times_total by done. fold W. lia. }
  split; [done|]. intros a Ha. rewrite Hsc, Hz, Heq by done. lia.
Qed.
End fixed_candidates.

(** ** Theorems *)

(** [n] consecutive calls of [pickWeightedAvailable] on one key. *)
Fixpoint picks_on (n : nat) (states : gmap string weightedCursorState) (key : string)
    (available : list Auth) : list Auth * gmap string weightedCursorState :=
  match n with
  | O => ([], states)
  | S n =>
      match pickWeightedAvailable states key available with
      | (Some b, states) => let '(bs, states) := picks_on n states key available in (b :: bs, states)
      | (None, states) => picks_on n states key available
      end
  end.

Definition cursor_of (states : gmap string weightedCursorState) (key : string)
    : weightedCursorState := default cursor_new (states !! key).

Lemma picks_on_picks n states key available :
  available ≠ [] →
  let '(sel, states') := picks_on n states key available in
  let '(sel2, st2) := picks n (cursor_of states key) available in
  sel = sel2 ∧ cursor_of states' key = st2 ∧ (∀ k, k ≠ key → states' !! k = states !! k).
Proof.
  intros Hne. revert states. induction n as [|n IH]; intros states; simpl; [done|].
  assert (Heq : pickWeightedAvailable states key available =
    let '(sel, st) := pickWeighted (cursor_of states key) available in (sel, <[key := st]> states))
    by (unfold pickWeightedAvailable; by destruct available).
  rewrite Heq. destruct (pickWeighted (cursor_of states key) available) as [o st].
  specialize (IH (<[key := st]> states)).
  assert (Hc : cursor_of (<[key := st]> states) key = st)
    by (unfold cursor_of; by rewrite lookup_insert_eq).
  rewrite Hc in IH. destruct o as [b|].
  - destruct (picks_on n _ key available) as [sel states'].
    destruct (picks n st available) as [sel2 st2]. destruct IH as (-> & Hst & Hoth).
    split; [done|]. split; [done|]. intros k Hk. rewrite Hoth by done. by rewrite lookup_insert_ne.
  - destruct (picks_on n _ key available) as [sel states'].
    destruct (picks n st available) as [sel2 st2]. destruct IH as (-> & Hst & Hoth).
    split; [done|]. split; [done|]. intros k Hk. rewrite Hoth by done. by rewrite lookup_insert_ne.
Qed.

(** The sum of the selection weights of a candidate list. *)
Definition total_weight (available : list Auth) : Z :=
  zsum (λ a, authSelectionWeight (Some a)) available.

(** C25: smooth weighted round-robin is exactly proportional. Take candidates with
    distinct IDs and positive weights whose weights do not overflow 64 bits, and a
    cursor state in which every candidate's score is zero (in particular a fresh
    one), with any tie cursor. Then the next [total_weight available] calls of
    [pickWeightedAvailable] on that key select every account exactly
    [authSelectionWeight] times, leave all scores at zero again (so the property
    repeats for ever), and do not touch the state of any other key. *)
Theorem weighted_round_robin_fair (available : list Auth)
    (states : gmap string weightedCursorState) (key : string) :
  available ≠ [] →
  NoDup (au_ID <$> available) →
  Forall (λ a, 0 < authSelectionWeight (Some a)) available →
  Z.of_nat (length available) * total_weight available < two63 →
  (∀ a, a ∈ available → score (current (cursor_of states key)) (au_ID a) = 0) →
  let '(sel, states') := picks_on (Z.to_nat (total_weight available)) states key available in
  (∀ a, a ∈ available → times (au_ID a) sel = authSelectionWeight (Some a)) ∧
  (∀ a, a ∈ available → score (current (cursor_of states' key)) (au_ID a) = 0) ∧
  (∀ k, k ≠ key → states' !! k = states !! k).
Proof.
  intros Hne Hnd Hpos Hb Hz.
  pose proof (run_fair available Hnd Hne Hpos Hb (cursor_of states key) Hz) as Hfair.
  pose proof (picks_on_picks (Z.to_nat (total_weight available)) states key available Hne) as Heq.
  unfold total_weight in *.
  destruct (picks_on _ states key available) as [sel states'].
  destruct (picks _ (cursor_of states key) available) as [sel2 st2].
  destruct Heq as (-> & -> & Hoth). destruct Hfair as [H1 H2]. done.
Qed.

Definition wrr_example : list Auth :=
  [auth_new "a" "codex" {["selection_weight" := "2"]} ∅; auth_new "b" "codex" ∅ ∅].

(** The fairness theorem on two accounts of weights 2 and 1. *)
Lemma weighted_round_robin_fair_witness :
  let '(sel, states') := picks_on 3 ∅ "t:codex:m:" wrr_example in
  times "a" sel = 2 ∧ times "b" sel = 1.
Proof.
  assert (Hpos : Forall (λ a, 0 < authSelectionWeight (Some a)) wrr_example)
    by (repeat constructor; vm_compute; done).
  assert (Hnd : NoDup (au_ID <$> wrr_example))
    by by_decision.
  pose proof (weighted_round_robin_fair wrr_example ∅ "t:codex:m:" ltac:(discriminate) Hnd Hpos
    ltac:(vm_compute; reflexivity) ltac:(intros; reflexivity)) as H.
  replace (Z.to_nat (total_weight wrr_example)) with 3%nat in H by (vm_compute; reflexivity).
  destruct (picks_on 3 ∅ "t:codex:m:" wrr_example) as [sel states']. destruct H as (H & _).
  split.
  - exact (H (auth_new "a" "codex" {["selection_weight" := "2"]} ∅) ltac:(left)).
  - exact (H (auth_new "b" "codex" ∅ ∅) ltac:(right; left)).
Defined.

(** The memory of the weighted selector is bounded: with a positive limit,
    [ensureWeightedState] never leaves more than [limit] cursor states, always
    leaves one for the requested key, and never changes a state it keeps. *)
Lemma ensureWeightedState_bounded (states : gmap string weightedCursorState) (key : string)
    (limit : Z) :
  0 < limit → Z.of_nat (size states) ≤ limit →
  let states' := ensureWeightedState states key limit in
  Z.of_nat (size states') ≤ limit ∧ is_Some (states' !! key) ∧
  (∀ st, states !! key = Some st → states' = states) ∧
  (∀ k st, states' !! k = Some st → states !! k = Some st ∨ (k = key ∧ st = cursor_new)).
Proof.
  intros Hlim Hsz. unfold ensureWeightedState. cbv zeta.
  destruct (states !! key) as [st|] eqn:E.
  - rewrite (bool_decide_eq_false_2 (Some st = None)) by done. cbn [andb]. rewrite E.
    split; [done|]. split; [eauto|]. split; [done|]. by left.
  - rewrite (bool_decide_eq_true_2 (None = None)) by done. cbn [andb].
    destruct (Z.leb_spec limit (Z.of_nat (size states))).
    + rewrite lookup_empty. rewrite map_size_insert_None, map_size_empty by done.
      split; [lia|]. split; [rewrite lookup_insert_eq; eauto|]. split; [done|].
      intros k st. rewrite lookup_insert_Some, lookup_empty. intros [[<- <-]|[? ?]]; [by right|done].
    + rewrite E. rewrite map_size_insert_None by done.
      split; [lia|]. split; [rewrite lookup_insert_eq; eauto|]. split; [done|].
      intros k st. rewrite lookup_insert_Some. intros [[<- <-]|[? ?]]; [by right|by left].
Qed.

Lemma ensureWeightedState_bounded_witness :
  Z.of_nat (size (ensureWeightedState {["k" := cursor_new]} "j" 1)) ≤ 1.
Proof.
  exact (proj1 (ensureWeightedState_bounded {["k" := cursor_new]} "j" 1
    ltac:(reflexivity) ltac:(vm_compute; discriminate))).
Defined.
