(* ===== verification/Availability.v ===== *)
(** * Which credentials can serve a request now

    Models [src/sdk/cliproxy/auth/selector_availability.go] (all of it except the
    metadata scopes, which are in [Selectors]), the quota predicates of
    [conductor_result_state.go] and the error values of [selector_errors.go]. *)
From S2P Require Import Prelude GoModel AuthTypes ModelNames.

(** ** Quota predicates *)

Definition quotaNeedsConfirmedRecovery (q : QuotaState) (now : Time) : bool :=
  (q_Exceeded q && q_RecoveryRequired q && After (q_NextRecoverAt q) now).

Definition activeQuotaCooldown (q : QuotaState) (retryAfter now : Time) : bool :=
  if ! q_Exceeded q then false
  else if quotaNeedsConfirmedRecovery q now then true
  else if ! IsZero (q_NextRecoverAt q) then After (q_NextRecoverAt q) now
  else (! IsZero retryAfter && After retryAfter now).

Definition activeModelQuotaCooldown (s : ModelState) (now : Time) : bool :=
  activeQuotaCooldown (ms_Quota s) (ms_NextRetryAfter s) now.

Definition activeAuthQuotaCooldown (a : Auth) (now : Time) : bool :=
  activeQuotaCooldown (au_Quota a) (au_NextRetryAfter a) now.

(** ** Blocking *)

Inductive blockReason := blockReasonNone | blockReasonCooldown | blockReasonDisabled | blockReasonOther.

#[export] Instance blockReason_eq_dec : EqDecision blockReason.
Proof. solve_decision. Defined.

Definition reason_eqb (a b : blockReason) : bool := bool_decide (a = b).

(** [if retry.After(now) && (next.IsZero() || retry.Before(next)) { next = retry }] *)
Definition sooner_retry (next retry now : Time) : Time :=
  if (After retry now && (IsZero next || Before retry next)) then retry else next.

(** [if !next.After(now) { next = time.Time{} }] *)
Definition future_or_zero (next now : Time) : Time :=
  if ! After next now then time_zero else next.

Section blocking.
Context {RO : RangeOrder}.

(** Does this entry put the quota family [fam] into an active cooldown? *)
Definition family_cooling (fam : AntigravityQuotaFamily) (now : Time)
    (e : string * option ModelState) : bool :=
  match e.2 with
  | None => false
  | Some s =>
      if ! q_Exceeded (ms_Quota s) then false
      else (bool_decide (ModelAntigravityQuotaFamily e.1 = fam) && activeModelQuotaCooldown s now)
  end.

Definition isAntigravityExhaustedForModel (a : Auth) (model : string) (now : Time) : bool :=
  if String.eqb model "" then
    negb (existsb (λ e : string * option ModelState,
      match e.2 with Some s => ! activeModelQuotaCooldown s now | None => false end)
      (range_order 0 (au_ModelStates a)))
  else
    existsb (family_cooling (ModelAntigravityQuotaFamily model) now)
            (range_order 1 (au_ModelStates a)).

(** The per-model branch once the state of the model has been found. *)
Definition model_state_blocked (s : ModelState) (now : Time) : bool * blockReason * Time :=
  if status_eqb (ms_Status s) StatusDisabled then (true, blockReasonDisabled, time_zero)
  else if quotaNeedsConfirmedRecovery (ms_Quota s) now then
    let next := sooner_retry (q_NextRecoverAt (ms_Quota s)) (ms_NextRetryAfter s) now in
    (true, blockReasonCooldown, future_or_zero next now)
  else if (ms_Unavailable s && ! IsZero (ms_NextRetryAfter s) && After (ms_NextRetryAfter s) now) then
    let next := ms_NextRetryAfter s in
    let next := if (! IsZero (q_NextRecoverAt (ms_Quota s)) &&
                    After (q_NextRecoverAt (ms_Quota s)) now)
                then q_NextRecoverAt (ms_Quota s) else next in
    let next := if Before next now then now else next in
    if q_Exceeded (ms_Quota s) then (true, blockReasonCooldown, next)
    else (true, blockReasonOther, next)
  else (false, blockReasonNone, time_zero).

(** The state recorded for a model, or for its canonical name. *)
Definition lookup_model_state (ms : gmap string (option ModelState)) (model : string)
    : option ModelState :=
  match mjoin (ms !! model) with
  | Some s => Some s
  | None =>
      let baseModel := canonicalModelKey model in
      if (! String.eqb baseModel "" && ! String.eqb baseModel model)
      then mjoin (ms !! baseModel) else None
  end.

Definition isAuthBlockedForModel (auth : option Auth) (model : string) (now : Time)
    : bool * blockReason * Time :=
  match auth with
  | None => (true, blockReasonOther, time_zero)
  | Some a =>
      if (au_Disabled a || status_eqb (au_Status a) StatusDisabled)
      then (true, blockReasonDisabled, time_zero)
      else
        let next := q_NextRecoverAt (au_Quota a) in
        if (q_Exceeded (au_Quota a) &&
            (! IsAntigravityAuth a || isAntigravityExhaustedForModel a model now) &&
            (quotaNeedsConfirmedRecovery (au_Quota a) now || (! IsZero next && After next now)))
        then (true, blockReasonCooldown,
              future_or_zero (sooner_retry next (au_NextRetryAfter a) now) now)
        else if ! String.eqb model "" then
          if bool_decide (size (au_ModelStates a) = 0%nat) then (false, blockReasonNone, time_zero)
          else
            match lookup_model_state (au_ModelStates a) model with
            | Some s => model_state_blocked s now
            | None =>
                if IsAntigravityAuth a then
                  let fam := ModelAntigravityQuotaFamily model in
                  match List.find (family_cooling fam now) (range_order 2 (au_ModelStates a)) with
                  | Some (_, Some s) =>
                      (true, blockReasonCooldown,
                       sooner_retry (q_NextRecoverAt (ms_Quota s)) (ms_NextRetryAfter s) now)
                  | _ => (false, blockReasonNone, time_zero)
                  end
                else (false, blockReasonNone, time_zero)
            end
        else if (au_Unavailable a && After (au_NextRetryAfter a) now) then
          let next := au_NextRetryAfter a in
          let next := if (! IsZero (q_NextRecoverAt (au_Quota a)) &&
                          After (q_NextRecoverAt (au_Quota a)) now)
                      then q_NextRecoverAt (au_Quota a) else next in
          let next := if Before next now then now else next in
          if q_Exceeded (au_Quota a) then (true, blockReasonCooldown, next)
          else (true, blockReasonOther, next)
        else (false, blockReasonNone, time_zero)
  end.

(** ** Collecting candidates *)

Record collected := MkCollected {
  co_available : list Auth;
  co_cooldownCount : Z;
  co_cooldownEarliest : Time;
  co_temporaryCount : Z;
  co_temporaryEarliest : Time
}.

(** [if earliest.IsZero() || next.Before(earliest) { earliest = next }] *)
Definition earlier (earliest next : Time) : Time :=
  if (IsZero earliest || Before next earliest) then next else earliest.

Definition collect_step (model : string) (now : Time) (c : collected) (candidate : option Auth)
    : collected :=
  let '(blocked, reason, next) := isAuthBlockedForModel candidate model now in
  if ! blocked then
    {| co_available := match candidate with
                       | Some a => co_available c ++ [a]
                       | None => co_available c end;
       co_cooldownCount := co_cooldownCount c; co_cooldownEarliest := co_cooldownEarliest c;
       co_temporaryCount := co_temporaryCount c; co_temporaryEarliest := co_temporaryEarliest c |}
  else
    let cooling := reason_eqb reason blockReasonCooldown in
    let temporary := ((cooling || reason_eqb reason blockReasonOther) && ! IsZero next) in
    {| co_available := co_available c;
       co_cooldownCount := if cooling then co_cooldownCount c + 1 else co_cooldownCount c;
       co_cooldownEarliest :=
         if (cooling && ! IsZero next) then earlier (co_cooldownEarliest c) next
         else co_cooldownEarliest c;
       co_temporaryCount := if temporary then co_temporaryCount c + 1 else co_temporaryCount c;
       co_temporaryEarliest :=
         if temporary then earlier (co_temporaryEarliest c) next else co_temporaryEarliest c |}.

Definition collectAvailableAuths (auths : list (option Auth)) (model : string) (now : Time)
    : collected :=
  foldl (collect_step model now)
    {| co_available := []; co_cooldownCount := 0; co_cooldownEarliest := 0;
       co_temporaryCount := 0; co_temporaryEarliest := 0 |} auths.

(** ** The optimistic candidate *)

Definition optimisticRetryWindow : Duration := 10 * Second.

Definition optimistic_step (model : string) (now : Time) (best : option (Auth * Time))
    (candidate : option Auth) : option (Auth * Time) :=
  let '(blocked, reason, next) := isAuthBlockedForModel candidate model now in
  let deadline := time_Add now optimisticRetryWindow in
  if (! blocked || ! reason_eqb reason blockReasonOther) then best
  else if (IsZero next || After next deadline) then best
  else if ! authParticipatesInSelection candidate then best
  else match candidate, best with
       | None, _ => best
       | Some c, None => Some (c, next)
       | Some c, Some (b, bestNext) =>
           if (Before next bestNext || (time_Equal next bestNext && str_lt (au_ID c) (au_ID b)))
           then Some (c, next) else best
       end.

Definition earliestOptimisticCandidate (auths : list (option Auth)) (model : string) (now : Time)
    : option Auth :=
  fst <$> foldl (optimistic_step model now) None auths.

(** ** Results *)

Inductive SelectError :=
| SelError (e : Error)
| ModelCooldownError (model provider : string) (resetIn : Duration)
| ModelUnavailableError (model provider : string) (resetIn : Duration).

Definition plain_error (code message : string) : SelectError :=
  SelError {| er_Code := code; er_Message := message; er_Retryable := false; er_HTTPStatus := 0;
              er_QuotaWindow := ""; er_QuotaWindowMinutes := 0 |}.

(** [newModelCooldownError] and [newModelUnavailableError] clamp the wait again. *)
Definition newModelCooldownError (model provider : string) (resetIn : Duration) : SelectError :=
  ModelCooldownError model provider (if resetIn <? 0 then 0 else resetIn).

Definition newModelUnavailableError (model provider : string) (resetIn : Duration) : SelectError :=
  ModelUnavailableError model provider (if resetIn <? 0 then 0 else resetIn).

(** [StatusCode()] of the two error types. *)
Definition select_status (e : SelectError) : Z :=
  match e with
  | SelError e => er_HTTPStatus e
  | ModelCooldownError _ _ _ => 429
  | ModelUnavailableError _ _ _ => 503
  end.

(** [resetSeconds] as sent in the Retry-After header: the ceiling in seconds. *)
Definition retry_after_seconds (resetIn : Duration) : Z :=
  let s := - ((- resetIn) / Second) in if s <? 0 then 0 else s.

Definition provider_for_error (provider : string) : string :=
  if String.eqb provider "mixed" then "" else provider.

Definition getAvailableAuths (auths : list (option Auth)) (provider model : string) (now : Time)
    : SelectError + list Auth :=
  if bool_decide (length auths = 0%nat) then inl (plain_error "auth_not_found" "no auth candidates")
  else
    let c := collectAvailableAuths auths model now in
    if bool_decide (length (co_available c) = 0%nat) then
      if ((co_cooldownCount c =? Z.of_nat (length auths)) && ! IsZero (co_cooldownEarliest c)) then
        let resetIn := time_Sub (co_cooldownEarliest c) now in
        let resetIn := if resetIn <? 0 then 0 else resetIn in
        inl (newModelCooldownError model (provider_for_error provider) resetIn)
      else if ((co_temporaryCount c =? Z.of_nat (length auths)) && ! IsZero (co_temporaryEarliest c)) then
        match earliestOptimisticCandidate auths model now with
        | Some candidate => inr [candidate]
        | None =>
            let resetIn := time_Sub (co_temporaryEarliest c) now in
            let resetIn := if resetIn <? 0 then 0 else resetIn in
            inl (newModelUnavailableError model (provider_for_error provider) resetIn)
        end
      else inl (plain_error "auth_unavailable" "no auth available")
    else
      let scheduled := List.filter (λ a, authParticipatesInSelection (Some a)) (co_available c) in
      if bool_decide (length scheduled = 0%nat) then
        inl (plain_error "auth_excluded_by_weight"
               "every candidate in this routing scope is configured with weight 0")
      else inr (sort_by (λ a b, str_lt (au_ID a) (au_ID b)) scheduled).

End blocking.

(** ** Lemmas on blocking *)

Section blocking_lemmas.
Context {RO : RangeOrder}.

Lemma future_or_zero_spec next now : future_or_zero next now = 0 ∨ now < future_or_zero next now.
Proof. unfold future_or_zero, After, time_zero. destruct (Z.ltb_spec now next); simpl; auto. Qed.

Lemma active_sooner_retry q retry now :
  activeQuotaCooldown q retry now = true → now < sooner_retry (q_NextRecoverAt q) retry now.
Proof.
  unfold activeQuotaCooldown, quotaNeedsConfirmedRecovery, sooner_retry, After, Before, IsZero.
  destruct (q_Exceeded q); [|done]. simpl.
  destruct (q_RecoveryRequired q), (Z.ltb_spec now (q_NextRecoverAt q)),
    (Z.eqb_spec (q_NextRecoverAt q) 0), (Z.ltb_spec now retry), (Z.eqb_spec retry 0),
    (Z.ltb_spec retry (q_NextRecoverAt q)); simpl; intros; try done; lia.
Qed.

Lemma family_cooling_active fam now e :
  family_cooling fam now e = true → ∃ s, e.2 = Some s ∧ activeModelQuotaCooldown s now = true.
Proof.
  unfold family_cooling. destruct (e.2) as [s|]; [|done].
  destruct (q_Exceeded (ms_Quota s)); [|done]. simpl. intros H.
  apply andb_true_iff in H as [_ H]. eauto.
Qed.

Lemma model_state_blocked_next s now r next :
  model_state_blocked s now = (true, r, next) → next = 0 ∨ now < next.
Proof.
  unfold model_state_blocked. case_if; [intros [= _ <-]; auto|].
  case_if; [intros [= _ <-]; apply future_or_zero_spec|].
  case_if; [|done]. intros H. right. unfold After, Before in *. zbool.
  destruct (_ && (now <? q_NextRecoverAt (ms_Quota s)))%bool eqn:E2; zbool;
    destruct (Z.ltb_spec (q_NextRecoverAt (ms_Quota s)) now) in H || idtac;
    destruct (Z.ltb_spec (ms_NextRetryAfter s) now) in H || idtac;
    destruct (q_Exceeded (ms_Quota s)); simplify_eq; lia.
Qed.

(** The wait attached to a block is unknown (zero) or lies in the future. *)
Lemma blocked_next_future auth model now r next :
  isAuthBlockedForModel auth model now = (true, r, next) → next = 0 ∨ now < next.
Proof.
  unfold isAuthBlockedForModel. destruct auth as [a|]; [|intros [= _ <-]; auto].
  case_if; [intros [= _ <-]; auto|]. cbv zeta.
  case_if; [intros [= _ <-]; apply future_or_zero_spec|].
  case_if.
  - case_if; [done|].
    destruct (lookup_model_state _ _) as [s|]; [apply model_state_blocked_next|].
    case_if; [|done].
    destruct (List.find _ _) as [[k [s|]]|] eqn:F; [|done..].
    intros [= _ <-]. right. apply List.find_some in F as [_ F].
    apply family_cooling_active in F as (s' & [= <-] & Hact). by apply active_sooner_retry.
  - case_if; [|done]. intros H. right. unfold After, Before in *. zbool.
    destruct (_ && (now <? q_NextRecoverAt (au_Quota a)))%bool eqn:E3; zbool;
      destruct (Z.ltb_spec (q_NextRecoverAt (au_Quota a)) now) in H || idtac;
      destruct (Z.ltb_spec (au_NextRetryAfter a) now) in H || idtac;
      destruct (q_Exceeded (au_Quota a)); simplify_eq; lia.
Qed.

(** A credential held neither as disabled nor as cooling down is enabled and,
    unless it belongs to Antigravity, not inside an exhausted quota window. *)
Lemma not_held_sound a model now b r next :
  isAuthBlockedForModel (Some a) model now = (b, r, next) →
  r ≠ blockReasonDisabled → r ≠ blockReasonCooldown →
  au_Disabled a = false ∧ au_Status a ≠ StatusDisabled ∧
  (IsAntigravityAuth a = false → q_Exceeded (au_Quota a) = true →
   q_NextRecoverAt (au_Quota a) ≤ now ∨ q_NextRecoverAt (au_Quota a) = 0).
Proof.
  unfold isAuthBlockedForModel. case_if; [intros [= _ <- _]; done|].
  apply orb_false_iff in E as [Hd Hs]. unfold status_eqb in Hs. apply bool_decide_eq_false in Hs.
  cbv zeta. case_if; [intros [= _ <- _]; done|]. intros _ _ _. split; [done|]. split; [done|].
  intros Hanti Hex. rewrite Hanti, Hex in E. simpl in E.
  apply orb_false_iff in E as [_ E]. unfold IsZero, After in E.
  destruct (Z.eqb_spec (q_NextRecoverAt (au_Quota a)) 0); [by right|].
  simpl in E. zbool. left. lia.
Qed.

Lemma unblocked_reason auth model now r next :
  isAuthBlockedForModel auth model now = (false, r, next) → r = blockReasonNone.
Proof.
  unfold isAuthBlockedForModel, model_state_blocked. destruct auth as [a|]; [|congruence].
  repeat (case_match || case_if); intros; simplify_eq; done.
Qed.

(** The reason of a block is never "none". *)
Lemma blocked_reason auth model now r next :
  isAuthBlockedForModel auth model now = (true, r, next) → r ≠ blockReasonNone.
Proof.
  unfold isAuthBlockedForModel, model_state_blocked. destruct auth as [a|]; [|congruence].
  repeat (case_match || case_if); intros; simplify_eq; done.
Qed.

(** *** Candidate classification *)

Definition blocked_of (model : string) (now : Time) (c : option Auth) : bool :=
  (isAuthBlockedForModel c model now).1.1.
Definition reason_of (model : string) (now : Time) (c : option Auth) : blockReason :=
  (isAuthBlockedForModel c model now).1.2.
Definition next_of (model : string) (now : Time) (c : option Auth) : Time :=
  (isAuthBlockedForModel c model now).2.

Definition available_of (model : string) (now : Time) (c : option Auth) : option Auth :=
  if blocked_of model now c then None else c.

(** The wait of a candidate in cooldown. *)
Definition cooling_next (model : string) (now : Time) (c : option Auth) : option Time :=
  if (blocked_of model now c && reason_eqb (reason_of model now c) blockReasonCooldown)
  then Some (next_of model now c) else None.

(** The known wait of a candidate that is only temporarily blocked. *)
Definition temporary_next (model : string) (now : Time) (c : option Auth) : option Time :=
  if (blocked_of model now c &&
      ((reason_eqb (reason_of model now c) blockReasonCooldown ||
        reason_eqb (reason_of model now c) blockReasonOther) && ! IsZero (next_of model now c)))
  then Some (next_of model now c) else None.

Definition earliest_of (l : list Time) : Time := foldl earlier 0 (List.filter (λ t, ! IsZero t) l).

Lemma earliest_of_snoc l t :
  earliest_of (l ++ [t]) = if IsZero t then earliest_of l else earlier (earliest_of l) t.
Proof.
  unfold earliest_of. rewrite List.filter_app. simpl. destruct (IsZero t); simpl.
  - by rewrite app_nil_r.
  - by rewrite foldl_snoc.
Qed.

(** [collectAvailableAuths] computes these classes. *)
Lemma collect_spec auths model now :
  collectAvailableAuths auths model now =
  {| co_available := omap (available_of model now) auths;
     co_cooldownCount := Z.of_nat (length (omap (cooling_next model now) auths));
     co_cooldownEarliest := earliest_of (omap (cooling_next model now) auths);
     co_temporaryCount := Z.of_nat (length (omap (temporary_next model now) auths));
     co_temporaryEarliest := earliest_of (omap (temporary_next model now) auths) |}.
Proof.
  induction auths as [|c auths IH] using rev_ind; [done|].
  unfold collectAvailableAuths in *. rewrite foldl_snoc, IH, !omap_app. clear IH.
  destruct (isAuthBlockedForModel c model now) as [[b r] next] eqn:E.
  assert (Hb : blocked_of model now c = b) by (unfold blocked_of; by rewrite E).
  assert (Hr : reason_of model now c = r) by (unfold reason_of; by rewrite E).
  assert (Hn : next_of model now c = next) by (unfold next_of; by rewrite E).
  unfold collect_step. rewrite E. cbn [co_available co_cooldownCount co_cooldownEarliest
    co_temporaryCount co_temporaryEarliest].
  assert (Ha : omap (available_of model now) [c] = if b then [] else option_list c).
  { simpl. unfold available_of. rewrite Hb. by destruct b, c. }
  assert (Hc : omap (cooling_next model now) [c] =
    if (b && reason_eqb r blockReasonCooldown) then [next] else []).
  { simpl. unfold cooling_next. rewrite Hb, Hr, Hn. by destruct (b && _)%bool. }
  assert (Ht : omap (temporary_next model now) [c] =
    if (b && ((reason_eqb r blockReasonCooldown || reason_eqb r blockReasonOther) && ! IsZero next))
    then [next] else []).
  { simpl. unfold temporary_next. rewrite Hb, Hr, Hn. by destruct b, (reason_eqb r blockReasonCooldown), (reason_eqb r blockReasonOther), (IsZero next). }
  rewrite Ha, Hc, Ht. destruct b; simpl.
  - rewrite app_nil_r.
    destruct (reason_eqb r blockReasonCooldown), (reason_eqb r blockReasonOther), (IsZero next) eqn:Ez;
      simpl; rewrite ?earliest_of_snoc, ?app_nil_r, ?Ez, ?length_app; simpl; f_equal; lia.
  - rewrite !app_nil_r. by destruct c; simpl; rewrite ?app_nil_r.
Qed.

Lemma earliest_of_fold l t0 :
  Forall (λ t, t ≠ 0) l → t0 ≠ 0 →
  (foldl earlier t0 l = t0 ∨ foldl earlier t0 l ∈ l) ∧ foldl earlier t0 l ≤ t0 ∧
  (∀ t, t ∈ l → foldl earlier t0 l ≤ t).
Proof.
  intros Hl. revert t0. induction Hl as [|t l Ht Hl IH]; intros t0 Ht0; simpl.
  - split; [by left|]. split; [lia|]. intros t Hin. by apply elem_of_nil in Hin.
  - assert (He : earlier t0 t = Z.min t0 t).
    { unfold earlier, IsZero, Before. destruct (Z.eqb_spec t0 0); [done|].
      destruct (Z.ltb_spec t t0); simpl; lia. }
    rewrite He. destruct (IH (Z.min t0 t)) as ([H1|H1] & H2 & H3); [lia|..].
    + rewrite H1 in *. split.
      * destruct (Z.min_spec t0 t) as [[? ->]|[? ->]]; [by left|right; left].
      * split; [lia|]. intros u Hu. apply elem_of_cons in Hu as [->|Hu]; [lia|auto].
    + split; [right; by right|]. split; [lia|].
      intros u Hu. apply elem_of_cons in Hu as [->|Hu]; [lia|auto].
Qed.

(** [earliest_of] is the least nonzero time, or zero when there is none. *)
Lemma earliest_of_spec l :
  (earliest_of l = 0 ∧ ∀ t, t ∈ l → t = 0) ∨
  (earliest_of l ≠ 0 ∧ earliest_of l ∈ l ∧ ∀ t, t ∈ l → t ≠ 0 → earliest_of l ≤ t).
Proof.
  unfold earliest_of. set (k := List.filter (λ t, ! IsZero t) l).
  assert (Hk : ∀ t, t ∈ k ↔ t ∈ l ∧ t ≠ 0).
  { intros t. unfold k. rewrite !list_elem_of_In, List.filter_In. unfold IsZero.
    destruct (Z.eqb_spec t 0); simpl; naive_solver. }
  destruct k as [|t k'] eqn:Ek.
  - left. split; [done|]. intros t Ht. destruct (decide (t = 0)); [done|].
    exfalso. by apply (elem_of_nil t), Hk.
  - assert (Hnz : Forall (λ t, t ≠ 0) (t :: k')).
    { apply Forall_forall. intros u Hu. apply Hk in Hu. tauto. }
    apply Forall_cons in Hnz as [Ht Hk'].
    simpl. replace (earlier 0 t) with t by (unfold earlier, IsZero; done).
    destruct (earliest_of_fold k' t Hk' Ht) as (H1 & H2 & H3).
    assert (Hin : foldl earlier t k' ∈ t :: k') by (destruct H1 as [->|]; [left|by right]).
    apply Hk in Hin as [Hin Hne]. right. split; [done|]. split; [done|].
    intros u Hu Hu0. assert (u ∈ t :: k') as Huk by (by apply Hk).
    apply elem_of_cons in Huk as [->|Huk]; [done|auto].
Qed.

(** *** The optimistic candidate *)

(** Worth trying although blocked: a non-quota block that ends within the window. *)
Definition optimistic_ok (model : string) (now : Time) (c : option Auth) : bool :=
  (blocked_of model now c && reason_eqb (reason_of model now c) blockReasonOther &&
   ! IsZero (next_of model now c) &&
   ! After (next_of model now c) (time_Add now optimisticRetryWindow) &&
   authParticipatesInSelection c).

(** [a] recovers before [b], or at the same time with an ID that is not larger. *)
Definition recovers_first (model : string) (now : Time) (a b : Auth) : Prop :=
  next_of model now (Some a) < next_of model now (Some b) ∨
  (next_of model now (Some a) = next_of model now (Some b) ∧ str_lt (au_ID b) (au_ID a) = false).

Lemma optimistic_ok_Some model now c : optimistic_ok model now c = true → ∃ a, c = Some a.
Proof. destruct c as [a|]; [eauto|]. done. Qed.

Lemma optimistic_step_eq model now best c :
  optimistic_step model now best c =
  if optimistic_ok model now c then
    match c, best with
    | None, _ => best
    | Some c', None => Some (c', next_of model now c)
    | Some c', Some (b, bestNext) =>
        if (Before (next_of model now c) bestNext ||
            (time_Equal (next_of model now c) bestNext && str_lt (au_ID c') (au_ID b)))
        then Some (c', next_of model now c) else best
    end
  else best.
Proof.
  unfold optimistic_step, optimistic_ok, blocked_of, reason_of, next_of.
  destruct (isAuthBlockedForModel c model now) as [[b r] next]. simpl.
  destruct b, (reason_eqb r blockReasonOther), (IsZero next), (After next _),
    (authParticipatesInSelection c); done.
Qed.

Lemma optimistic_fold auths model now :
  match foldl (optimistic_step model now) None auths with
  | Some (a, next) =>
      Some a ∈ auths ∧ optimistic_ok model now (Some a) = true ∧ next = next_of model now (Some a) ∧
      ∀ b, Some b ∈ auths → optimistic_ok model now (Some b) = true → recovers_first model now a b
  | None => ∀ c, c ∈ auths → optimistic_ok model now c = false
  end.
Proof.
  induction auths as [|c auths IH] using rev_ind.
  { simpl. intros c Hc. by apply elem_of_nil in Hc. }
  rewrite foldl_snoc, optimistic_step_eq.
  destruct (optimistic_ok model now c) eqn:Hok; cycle 1.
  { destruct (foldl _ None auths) as [[a next]|].
    - destruct IH as (Hin & Ha & Hn & Hmin). split; [set_solver|]. split; [done|]. split; [done|].
      intros b Hb Hbok. apply Hmin; [|done]. apply elem_of_app in Hb as [Hb|Hb]; [done|].
      apply list_elem_of_singleton in Hb. congruence.
    - intros d Hd. apply elem_of_app in Hd as [Hd|Hd]; [by apply IH|].
      apply list_elem_of_singleton in Hd. congruence. }
  destruct (optimistic_ok_Some _ _ _ Hok) as [c' ->].
  destruct (foldl _ None auths) as [[a next]|].
  - destruct IH as (Hin & Ha & -> & Hmin). unfold Before, time_Equal.
    set (nc := next_of model now (Some c')). set (na := next_of model now (Some a)) in *.
    assert (Hsplit : ∀ b, Some b ∈ auths ++ [Some c'] → Some b ∈ auths ∨ b = c').
    { intros b Hb. apply elem_of_app in Hb as [Hb|Hb]; [by left|right].
      apply list_elem_of_singleton in Hb. congruence. }
    destruct ((nc <? na) || ((nc =? na) && str_lt (au_ID c') (au_ID a)))%bool eqn:E.
    + split; [set_solver|]. split; [done|]. split; [done|].
      intros b Hb Hbok. destruct (Hsplit b Hb) as [Hb'| ->]; [|right; split; [done|apply str_lt_irrefl]].
      specialize (Hmin b Hb' Hbok). unfold recovers_first in *. fold nc na in Hmin |- *.
      apply orb_true_iff in E as [E|E]; zbool; [left; lia|].
      destruct Hmin as [Hmin|[Hmin Hlt]]; [left; lia|right]. split; [lia|].
      apply (str_nlt_trans _ (au_ID a)); [by apply str_lt_asym|done].
    + split; [set_solver|]. split; [done|]. split; [done|].
      intros b Hb Hbok. destruct (Hsplit b Hb) as [Hb'| ->]; [by apply Hmin|].
      unfold recovers_first. fold nc na. apply orb_false_iff in E as [E1 E2]. zbool.
      destruct (Z.eqb_spec nc na) as [He|He]; [|left; lia]. right. split; [done|]. exact E2.
  - split; [set_solver|]. split; [done|]. split; [done|].
    intros b Hb Hbok. apply elem_of_app in Hb as [Hb|Hb]; [by rewrite IH in Hbok|].
    apply list_elem_of_singleton in Hb as [= ->]. right. split; [done|apply str_lt_irrefl].
Qed.

Lemma all_blocked auths model now :
  omap (available_of model now) auths = [] → ∀ c, c ∈ auths → blocked_of model now c = true.
Proof.
  intros Hnil c Hc. pose proof (omap_nil_all _ _ Hnil c Hc) as H. unfold available_of in H.
  destruct (blocked_of model now c) eqn:E; [done|]. subst c. discriminate.
Qed.
End blocking_lemmas.

(** ** Theorems *)

Section availability_theorems.
Context {RO : RangeOrder}.

Lemma earliest_wait l now t :
  earliest_of l = t → t ≠ 0 → (∀ u, u ∈ l → u = 0 ∨ now < u) →
  t ∈ l ∧ now < t ∧ (∀ u, u ∈ l → u ≠ 0 → t ≤ u).
Proof.
  intros Ht Hne Hfut. destruct (earliest_of_spec l) as [[H _]|(H1 & H2 & H3)]; [congruence|].
  rewrite Ht in *. split; [done|]. split; [|done]. destruct (Hfut t H2); lia.
Qed.

Lemma reset_positive t now : now < t →
  (if time_Sub t now <? 0 then 0 else time_Sub t now) = clamp64 (t - now) ∧ 0 < clamp64 (t - now).
Proof.
  intros H. unfold time_Sub.
  assert (0 < clamp64 (t - now)).
  { rewrite clamp64_spec. unfold two63. lia. }
  rewrite (proj2 (Z.ltb_ge _ 0)) by lia. done.
Qed.

(** What [getAvailableAuths] promises for each of its outcomes. *)
Definition availability_contract (auths : list (option Auth)) (provider model : string) (now : Time)
    (r : SelectError + list Auth) : Prop :=
  match r with
  | inr l =>
      l ≠ [] ∧ StronglySorted (λ a b, str_lt (au_ID b) (au_ID a) = false) l ∧
      Forall (λ a, 0 < authSelectionWeight (Some a)) l ∧
      (l ≡ₚ List.filter (λ a, authParticipatesInSelection (Some a)) (omap (available_of model now) auths)
       ∨ ((∀ c, c ∈ auths → blocked_of model now c = true) ∧
          ∃ a, l = [a] ∧ Some a ∈ auths ∧ optimistic_ok model now (Some a) = true ∧
               ∀ b, Some b ∈ auths → optimistic_ok model now (Some b) = true →
                    recovers_first model now a b))
  | inl (ModelCooldownError m p d) =>
      m = model ∧ p = provider_for_error provider ∧
      (∀ c, c ∈ auths → blocked_of model now c = true ∧ reason_of model now c = blockReasonCooldown) ∧
      ∃ c, c ∈ auths ∧ now < next_of model now c ∧ d = clamp64 (next_of model now c - now) ∧ 0 < d ∧
           ∀ c', c' ∈ auths → next_of model now c' ≠ 0 → next_of model now c ≤ next_of model now c'
  | inl (ModelUnavailableError m p d) =>
      m = model ∧ p = provider_for_error provider ∧
      (∀ c, c ∈ auths → blocked_of model now c = true ∧ reason_of model now c ≠ blockReasonDisabled ∧
                        now < next_of model now c ∧ optimistic_ok model now c = false) ∧
      ∃ c, c ∈ auths ∧ d = clamp64 (next_of model now c - now) ∧ 0 < d ∧
           ∀ c', c' ∈ auths → next_of model now c ≤ next_of model now c'
  | inl (SelError e) =>
      (er_Code e = "auth_not_found" ∧ auths = []) ∨
      (er_Code e = "auth_unavailable" ∧ auths ≠ [] ∧ ∀ c, c ∈ auths → blocked_of model now c = true) ∨
      (er_Code e = "auth_excluded_by_weight" ∧ omap (available_of model now) auths ≠ [] ∧
       ∀ a, a ∈ omap (available_of model now) auths → authSelectionWeight (Some a) = 0)
  end.

Lemma cooling_next_future (auths : list (option Auth)) model now u :
  u ∈ omap (cooling_next model now) auths → u = 0 ∨ now < u.
Proof.
  intros Hu. apply list_elem_of_omap in Hu as (c & _ & Hc). unfold cooling_next in Hc.
  destruct (blocked_of model now c) eqn:Hb; [|done]. simpl in Hc.
  destruct (reason_eqb _ _); [|done]. injection Hc as <-. unfold next_of, blocked_of in *.
  destruct (isAuthBlockedForModel c model now) as [[b r] n] eqn:E. simpl in *. subst b.
  by eapply blocked_next_future.
Qed.

Lemma temporary_next_future (auths : list (option Auth)) model now u :
  u ∈ omap (temporary_next model now) auths → u = 0 ∨ now < u.
Proof.
  intros Hu. apply list_elem_of_omap in Hu as (c & _ & Hc). unfold temporary_next in Hc.
  destruct (blocked_of model now c) eqn:Hb; [|done]. simpl in Hc.
  destruct (_ && _)%bool; [|done]. injection Hc as <-. unfold next_of, blocked_of in *.
  destruct (isAuthBlockedForModel c model now) as [[b r] n] eqn:E. simpl in *. subst b.
  by eapply blocked_next_future.
Qed.

Lemma cooldown_branch (auths : list (option Auth)) model now :
  length (omap (cooling_next model now) auths) = length auths →
  earliest_of (omap (cooling_next model now) auths) ≠ 0 →
  (∀ c, c ∈ auths → blocked_of model now c = true ∧ reason_of model now c = blockReasonCooldown) ∧
  ∃ c, c ∈ auths ∧ now < next_of model now c ∧
       earliest_of (omap (cooling_next model now) auths) = next_of model now c ∧
       ∀ c', c' ∈ auths → next_of model now c' ≠ 0 → next_of model now c ≤ next_of model now c'.
Proof.
  intros Hlen Hne.
  assert (Hall : ∀ c, c ∈ auths → blocked_of model now c = true ∧
    reason_of model now c = blockReasonCooldown ∧ cooling_next model now c = Some (next_of model now c)).
  { intros c Hc. destruct (length_omap_all _ _ Hlen c Hc) as [t Ht].
    unfold cooling_next in *. destruct (blocked_of model now c); [|done]. simpl in *.
    unfold reason_eqb in *. case_bool_decide; [|done]. done. }
  destruct (earliest_wait _ now _ eq_refl Hne (cooling_next_future auths model now)) as (Hin & Hlt & Hmin).
  split; [intros c Hc; destruct (Hall c Hc) as (? & ? & _); done|].
  apply list_elem_of_omap in Hin as (c & Hc & Hcn). destruct (Hall c Hc) as (_ & _ & Hs).
  rewrite Hs in Hcn. injection Hcn as Heq. exists c. rewrite Heq. split; [done|].
  split; [done|]. split; [done|]. intros c' Hc' Hn. apply Hmin; [|done].
  apply list_elem_of_omap. exists c'. split; [done|]. by destruct (Hall c' Hc') as (_ & _ & ->).
Qed.

Lemma temporary_branch (auths : list (option Auth)) model now :
  length (omap (temporary_next model now) auths) = length auths →
  earliest_of (omap (temporary_next model now) auths) ≠ 0 →
  (∀ c, c ∈ auths → blocked_of model now c = true ∧ reason_of model now c ≠ blockReasonDisabled ∧
                    now < next_of model now c) ∧
  ∃ c, c ∈ auths ∧ now < next_of model now c ∧
       earliest_of (omap (temporary_next model now) auths) = next_of model now c ∧
       ∀ c', c' ∈ auths → next_of model now c ≤ next_of model now c'.
Proof.
  intros Hlen Hne.
  assert (Hall : ∀ c, c ∈ auths → blocked_of model now c = true ∧
    reason_of model now c ≠ blockReasonDisabled ∧ next_of model now c ≠ 0 ∧
    temporary_next model now c = Some (next_of model now c)).
  { intros c Hc. destruct (length_omap_all _ _ Hlen c Hc) as [t Ht].
    unfold temporary_next in *. destruct (blocked_of model now c); [|done]. simpl in *.
    destruct (_ && _)%bool eqn:E; [|done]. apply andb_true_iff in E as [E1 E2].
    unfold IsZero in E2. zbool. unfold reason_eqb in *.
    split; [done|]. split; [|done]. intros Hr. rewrite Hr in E1. done. }
  assert (Hfut : ∀ c, c ∈ auths → now < next_of model now c).
  { intros c Hc. destruct (Hall c Hc) as (_ & _ & Hn0 & Hs).
    destruct (temporary_next_future auths model now (next_of model now c)); [|done|done].
    apply list_elem_of_omap. eauto. }
  destruct (earliest_wait _ now _ eq_refl Hne (temporary_next_future auths model now)) as (Hin & Hlt & Hmin).
  split; [intros c Hc; destruct (Hall c Hc) as (? & ? & _); eauto|].
  apply list_elem_of_omap in Hin as (c & Hc & Hcn). destruct (Hall c Hc) as (_ & _ & _ & Hs).
  rewrite Hs in Hcn. injection Hcn as Heq. exists c. rewrite Heq. split; [done|].
  split; [done|]. split; [done|]. intros c' Hc'. destruct (Hall c' Hc') as (_ & _ & Hn0 & Hs').
  apply Hmin; [|done]. apply list_elem_of_omap. eauto.
Qed.

Lemma getAvailableAuths_contract (auths : list (option Auth)) (provider model : string) (now : Time) :
  availability_contract auths provider model now (getAvailableAuths auths provider model now).
Proof.
  unfold getAvailableAuths, availability_contract, plain_error.
  destruct auths as [|c0 auths'] eqn:Eauths; [by left|]. rewrite <- Eauths.
  rewrite bool_decide_eq_false_2 by (by rewrite Eauths).
  assert (Hne : auths ≠ []) by (by rewrite Eauths). clear Eauths c0 auths'.
  rewrite collect_spec. cbn [co_available co_cooldownCount co_cooldownEarliest
    co_temporaryCount co_temporaryEarliest].
  case_bool_decide as Hnil.
  - apply nil_length_inv in Hnil. pose proof (all_blocked _ _ _ Hnil) as Hblk.
    destruct ((Z.of_nat (length (omap (cooling_next model now) auths)) =? Z.of_nat (length auths)) &&
      negb (IsZero (earliest_of (omap (cooling_next model now) auths))))%bool eqn:E1.
    { unfold IsZero in E1. zbool.
      destruct (cooldown_branch auths model now) as (Hall & c & Hc & Hlt & Heq & Hmin); [lia|lia|].
      rewrite Heq. destruct (reset_positive _ _ Hlt) as [-> Hpos].
      unfold newModelCooldownError. rewrite (proj2 (Z.ltb_ge (clamp64 _) 0)) by lia.
      split; [done|]. split; [done|]. split; [done|]. exists c. done. }
    destruct ((Z.of_nat (length (omap (temporary_next model now) auths)) =? Z.of_nat (length auths)) &&
      negb (IsZero (earliest_of (omap (temporary_next model now) auths))))%bool eqn:E2.
    2:{ right; left. split; [done|]. split; [done|]. done. }
    unfold IsZero in E2. zbool.
    destruct (temporary_branch auths model now) as (Hall & c & Hc & Hlt & Heq & Hmin); [lia|lia|].
    pose proof (optimistic_fold auths model now) as Hopt. unfold earliestOptimisticCandidate.
    destruct (foldl (optimistic_step model now) None auths) as [[a next]|]; simpl.
    + destruct Hopt as (Hin & Hok & _ & Hfirst). split; [done|].
      split; [by repeat constructor|]. split.
      * constructor; [|constructor]. unfold optimistic_ok in Hok. zbool.
        unfold authParticipatesInSelection in *. zbool. lia.
      * right. split; [done|]. by exists a.
    + rewrite Heq. destruct (reset_positive _ _ Hlt) as [-> Hpos].
      unfold newModelUnavailableError. rewrite (proj2 (Z.ltb_ge (clamp64 _) 0)) by lia.
      split; [done|]. split; [done|]. split; [|by exists c].
      intros d Hd. destruct (Hall d Hd) as (? & ? & ?). auto.
  - assert (Hav : omap (available_of model now) auths ≠ []) by (intros Hz; by rewrite Hz in Hnil).
    case_bool_decide as Hs.
    + cbv beta iota. right; right. split; [done|]. split; [done|]. intros a Ha.
      apply nil_length_inv in Hs.
      destruct (authParticipatesInSelection (Some a)) eqn:Ep.
      * exfalso. apply (List.in_nil (a := a)). rewrite <- Hs. apply List.filter_In.
        by rewrite <- list_elem_of_In.
      * unfold authParticipatesInSelection in Ep. zbool.
        pose proof (authSelectionWeight_nonneg (Some a)). lia.
    + set (sch := List.filter _ _) in *. split.
      { intros Hz. apply Hs. rewrite <- (length_sort_by (λ a b, str_lt (au_ID a) (au_ID b))).
        by rewrite Hz. }
      split.
      { apply sort_by_sorted.
        - intros a b c. apply str_nlt_trans.
        - intros a b. apply str_lt_asym. }
      split; [|left; apply sort_by_perm].
      rewrite sort_by_perm. apply Forall_forall. intros a Ha. apply list_elem_of_In in Ha.
      unfold sch in Ha. apply List.filter_In in Ha as [_ Ha].
      unfold authParticipatesInSelection in Ha. zbool. lia.
Qed.

(** C28: [getAvailableAuths] meets its contract on every branch: the candidates it
    returns are exactly the unblocked ones with a positive weight in ID order, or,
    when every candidate is parked only briefly, the one that recovers first within
    the ten-second window; each error is returned only in the situation it names,
    and the advertised wait is the positive wait of the candidate that recovers
    first. *)
Theorem getAvailableAuths_correct (auths : list (option Auth)) (provider model : string) (now : Time) :
  availability_contract auths provider model now (getAvailableAuths auths provider model now).
Proof. apply getAvailableAuths_contract. Qed.

Lemma getAvailableAuths_sound (auths : list (option Auth)) (provider model : string) (now : Time)
    (l : list Auth) (a : Auth) :
  getAvailableAuths auths provider model now = inr l → a ∈ l →
  Some a ∈ auths ∧ au_Disabled a = false ∧ au_Status a ≠ StatusDisabled ∧
  (IsAntigravityAuth a = false → q_Exceeded (au_Quota a) = true →
   q_NextRecoverAt (au_Quota a) ≤ now ∨ q_NextRecoverAt (au_Quota a) = 0).
Proof.
  intros Hget Ha. pose proof (getAvailableAuths_contract auths provider model now) as H.
  rewrite Hget in H. destruct H as (_ & _ & _ & [Hperm|(_ & b & -> & Hin & Hok & _)]).
  - rewrite Hperm in Ha. apply list_elem_of_In, List.filter_In in Ha as [Ha _].
    apply list_elem_of_In, list_elem_of_omap in Ha as (c & Hc & Hav).
    unfold available_of in Hav. destruct (blocked_of model now c) eqn:Hb; [done|]. subst c.
    split; [done|]. unfold blocked_of in Hb.
    destruct (isAuthBlockedForModel (Some a) model now) as [[b r] n] eqn:E. simpl in Hb. subst b.
    pose proof (unblocked_reason _ _ _ _ _ E) as ->. by eapply not_held_sound.
  - apply list_elem_of_singleton in Ha as ->. split; [done|].
    unfold optimistic_ok in Hok. zbool. unfold reason_eqb, reason_of in *.
    destruct (isAuthBlockedForModel (Some b) model now) as [[bb r] n] eqn:E. simpl in *.
    match goal with H : bool_decide _ = true |- _ => apply bool_decide_eq_true in H; subst r end.
    by eapply not_held_sound.
Qed.
Lemma getAvailableAuths_elem (auths : list (option Auth)) provider model now l a :
  getAvailableAuths auths provider model now = inr l → a ∈ l → Some a ∈ auths.
Proof. intros Hl Ha. by destruct (getAvailableAuths_sound auths provider model now l a Hl Ha). Qed.

Lemma getAvailableAuths_nonempty (auths : list (option Auth)) provider model now l :
  getAvailableAuths auths provider model now = inr l → l ≠ [].
Proof.
  intros Hl. pose proof (getAvailableAuths_contract auths provider model now) as H.
  rewrite Hl in H. by destruct H.
Qed.

End availability_theorems.

(** ** Iteration order *)

(** Blocking in terms of lookups only, for comparing two iteration orders. *)
Lemma exhausted_order (RO1 RO2 : RangeOrder) a model now :
  @isAntigravityExhaustedForModel RO1 a model now = @isAntigravityExhaustedForModel RO2 a model now.
Proof.
  unfold isAntigravityExhaustedForModel.
  destruct (String.eqb model ""); [f_equal|]; apply eq_true_iff_eq; by rewrite !existsb_range.
Qed.

Lemma find_order (RO1 RO2 : RangeOrder) {V} (f : string * V → bool) site (m : gmap string V) :
  List.find f (@range_order RO1 V site m) = None ↔ List.find f (@range_order RO2 V site m) = None.
Proof.
  assert (H : ∀ RO : RangeOrder, List.find f (@range_order RO V site m) = None ↔
    ∀ k v, m !! k = Some v → f (k, v) = false).
  { intros RO. split.
    - intros Hf k v Hm. eapply List.find_none; [exact Hf|].
      by apply list_elem_of_In, elem_of_range.
    - intros Hf. destruct (List.find f _) as [[k v]|] eqn:E; [|done].
      apply List.find_some in E as [Hin Hv]. apply list_elem_of_In, elem_of_range in Hin.
      by rewrite (Hf k v Hin) in Hv. }
  by rewrite !H.
Qed.

(** Whether a credential is blocked for a model, and why, does not depend on
    the order in which Go iterates over the per-model states (only the advertised
    retry time of an Antigravity pool may). *)
Lemma blocked_order_independent (RO1 RO2 : RangeOrder) (auth : option Auth) (model : string)
    (now : Time) :
  (@isAuthBlockedForModel RO1 auth model now).1 = (@isAuthBlockedForModel RO2 auth model now).1.
Proof.
  unfold isAuthBlockedForModel. destruct auth as [a|]; [|done].
  rewrite (exhausted_order RO1 RO2).
  case_if; [done|]. cbv zeta. case_if; [done|]. case_if; [|done]. case_if; [done|].
  destruct (lookup_model_state _ _); [done|]. case_if; [|done].
  pose proof (find_order RO1 RO2 (family_cooling (ModelAntigravityQuotaFamily model) now) 2
    (au_ModelStates a)) as Hf.
  assert (Hnone : ∀ RO : RangeOrder, ∀ k, List.find
    (family_cooling (ModelAntigravityQuotaFamily model) now)
    (@range_order RO _ 2 (au_ModelStates a)) ≠ Some (k, None)).
  { intros RO k Hk. apply List.find_some in Hk as [_ Hk]. done. }
  destruct (List.find _ (@range_order RO1 _ _ _)) as [[k1 [s1|]]|] eqn:F1;
    destruct (List.find _ (@range_order RO2 _ _ _)) as [[k2 [s2|]]|] eqn:F2;
    first [done | by (exfalso; eapply Hnone; eauto) | by (exfalso; naive_solver)].
Qed.

(** The two quota pools of an Antigravity account are isolated: if no model of
    the requested model's family is in an active quota cooldown and the requested
    model has no state of its own, the account is not blocked for it, whatever the
    account-level quota or the other pool say. *)
Lemma antigravity_pools_isolated {RO : RangeOrder} (a : Auth) (model : string) (now : Time) :
  IsAntigravityAuth a = true → au_Disabled a = false → au_Status a ≠ StatusDisabled →
  model ≠ "" → lookup_model_state (au_ModelStates a) model = None →
  (∀ k s, au_ModelStates a !! k = Some (Some s) →
    ModelAntigravityQuotaFamily k = ModelAntigravityQuotaFamily model →
    activeModelQuotaCooldown s now = false) →
  isAuthBlockedForModel (Some a) model now = (false, blockReasonNone, 0).
Proof.
  intros Hanti Hdis Hst Hm Hlk Hfam.
  assert (Hnot : ∀ k v, au_ModelStates a !! k = Some v →
    family_cooling (ModelAntigravityQuotaFamily model) now (k, v) = false).
  { intros k v Hk. unfold family_cooling. simpl. destruct v as [s|]; [|done].
    destruct (q_Exceeded (ms_Quota s)); [|done]. simpl. case_bool_decide as Hf; [|done].
    by rewrite (Hfam k s). }
  unfold isAuthBlockedForModel. rewrite Hdis. unfold status_eqb.
  rewrite bool_decide_eq_false_2 by done. cbn [orb]. rewrite Hanti. cbv zeta. cbn [negb orb].
  apply String.eqb_neq in Hm as Hm'.
  assert (Hex : isAntigravityExhaustedForModel a model now = false).
  { unfold isAntigravityExhaustedForModel. rewrite Hm'. apply not_true_iff_false.
    rewrite existsb_range. intros (k & v & Hk & Hv). by rewrite Hnot in Hv. }
  rewrite Hex, andb_false_r, Hm', Hlk. cbn [negb andb].
  case_bool_decide; [done|].
  destruct (List.find _ _) as [[k v]|] eqn:F; [|done].
  apply List.find_some in F as [Hin Hv]. apply list_elem_of_In, elem_of_range in Hin.
  by rewrite Hnot in Hv.
Qed.

(** ** Concrete runs *)



Definition exhausted_state : ModelState :=
  {| ms_Status := StatusError; ms_StatusMessage := "quota exhausted"; ms_Unavailable := true;
     ms_NextRetryAfter := 5000; ms_LastError := None;
     ms_Quota := {| q_Exceeded := true; q_RecoveryRequired := false; q_Reason := "quota";
                    q_Window := "week"; q_WindowMinutes := 10080; q_NextRecoverAt := 5000;
                    q_BackoffLevel := 1 |};
     ms_UpdatedAt := 0 |}.

Definition antigravity_example : Auth :=
  set_ModelStates {["claude-opus-4" := Some exhausted_state]} (auth_new "ag" "antigravity" ∅ ∅).

Lemma antigravity_pools_isolated_witness :
  isAuthBlockedForModel (RO := listing_order) (Some antigravity_example) "gemini-3-pro" 1000 =
    (false, blockReasonNone, 0) ∧
  (isAuthBlockedForModel (RO := listing_order) (Some antigravity_example) "claude-sonnet-4" 1000).1 =
    (true, blockReasonCooldown).
Proof.
  split; [|vm_compute; reflexivity].
  apply (antigravity_pools_isolated (RO := listing_order)); try (vm_compute; reflexivity).
  - discriminate.
  - discriminate.
  - intros k s Hk Hfam. cbn [antigravity_example set_ModelStates auth_with au_ModelStates] in Hk.
    apply lookup_singleton_Some in Hk as [<- [= <-]].
    vm_compute in Hfam. discriminate.
Defined.
