(* ===== verification/Limiter.v ===== *)
(** * Per-account concurrency limiter

    Models [src/sdk/cliproxy/auth/account_concurrency.go],
    [account_concurrency_queue.go] and [account_concurrency_cluster.go].

    The limiter is a monitor: every critical section of the source is one
    executable function on the record [limiter], and the requests that use it are
    threads of the step relation [step], so that critical sections of different
    requests interleave freely. A [slotWaiter] is a heap object (the heap is a
    list, a pointer its index) because one waiter may sit in several queues; its
    [granted] channel (buffered by one) is an [option]. Credentials are shared
    objects found by ID in [env_store], so a limit edited while requests are in
    flight is seen by the next critical section, as in the source. *)
From S2P Require Import Prelude GoModel AuthTypes.

(** ** Data *)

Record slotWaiter := MkWaiter {
  w_granted : option string;
  w_claimed : bool;
  w_authIDs : list string
}.

Record limiter := MkLimiter {
  l_active : gmap string Z;
  l_waiters : gmap string (list nat);
  l_heap : list slotWaiter;
  l_clustered : gmap string Z;
  l_unshared : gmap string Z
}.

Definition NewAccountConcurrencyLimiter : limiter :=
  {| l_active := ∅; l_waiters := ∅; l_heap := []; l_clustered := ∅; l_unshared := ∅ |}.

(** The coordinator as one critical section sees it. *)
Record CoordView := MkCoord { Shared : bool; NodeShare : Z → Z }.

Record Env := MkEnv { env_store : gmap string Auth; env_coord : option CoordView }.

Record AccountConcurrencyError := MkConcErr {
  ce_AuthID : string; ce_Active : Z; ce_Limit : Z; ce_Waited : Duration
}.

Definition with_active (f : gmap string Z → gmap string Z) (l : limiter) : limiter :=
  {| l_active := f (l_active l); l_waiters := l_waiters l; l_heap := l_heap l;
     l_clustered := l_clustered l; l_unshared := l_unshared l |}.
Definition with_queues (ws : gmap string (list nat)) (h : list slotWaiter) (l : limiter) : limiter :=
  {| l_active := l_active l; l_waiters := ws; l_heap := h;
     l_clustered := l_clustered l; l_unshared := l_unshared l |}.
Definition with_cluster (cl un : gmap string Z) (l : limiter) : limiter :=
  {| l_active := l_active l; l_waiters := l_waiters l; l_heap := l_heap l;
     l_clustered := cl; l_unshared := un |}.

(** [m[k]] on a map of counters and of queues. *)
Definition cnt (m : gmap string Z) (k : string) : Z := default 0 (m !! k).
Definition queue (m : gmap string (list nat)) (k : string) : list nat := default [] (m !! k).

(** ** Limits *)

Definition limit_of (e : Env) (id : string) : Z :=
  match env_store e !! id with Some a => ConcurrencyLimit a | None => 0 end.

Definition effectiveLimit (c : option CoordView) (limit : Z) : Z :=
  if limit <=? 0 then limit
  else match c with
       | Some c =>
           if ! Shared c then
             let share := NodeShare c limit in if 0 <? share then share else limit
           else limit
       | None => limit
       end.

Definition eff (e : Env) (id : string) : Z := effectiveLimit (env_coord e) (limit_of e id).

(** ** Queries *)

Definition GetInFlight (l : limiter) (authID : string) : Z :=
  if String.eqb authID "" then 0 else cnt (l_active l) authID.

Definition HasAvailableSlot (e : Env) (l : limiter) (id : string) : bool :=
  let limit := eff e id in
  if limit <=? 0 then true else cnt (l_active l) id <? limit.

Definition QueueDepth (l : limiter) (authID : string) : Z :=
  if String.eqb authID "" then 0 else Z.of_nat (length (queue (l_waiters l) authID)).

(** [FilterAvailableCandidates]; a nil candidate is [None]. *)
Definition FilterAvailableCandidates (e : Env) (l : limiter) (candidates : list (option string))
    : list (option string) :=
  if (length candidates <=? 1)%nat then candidates
  else
    let available := List.filter (λ c,
      match c with
      | None => false
      | Some id => let limit := eff e id in ((limit <=? 0) || (cnt (l_active l) id <? limit))
      end) candidates in
    match available with [] => candidates | _ => available end.

Definition saturatedErrorLocked (e : Env) (l : limiter) (id : string) (waited : Duration)
    : AccountConcurrencyError :=
  {| ce_AuthID := id; ce_Active := cnt (l_active l) id; ce_Limit := eff e id; ce_Waited := waited |}.

(** ** Taking a slot *)

Definition tryAcquireLocked (e : Env) (l : limiter) (id : string) : bool * limiter :=
  if String.eqb id "" then (false, l)
  else
    let limit := eff e id in
    if ((0 <? limit) && (limit <=? cnt (l_active l) id)) then (false, l)
    else (true, with_active (λ m, <[id := cnt m id + 1]> m) l).

(** [AcquireSlot] without a coordinator: the ID whose slot the caller now owns, or
    the error. *)
Definition AcquireSlot (e : Env) (l : limiter) (id : string)
    : (AccountConcurrencyError + string) * limiter :=
  match tryAcquireLocked e l id with
  | (true, l) => (inr id, l)
  | (false, l) => (inl (saturatedErrorLocked e l id 0), l)
  end.

Definition newSlotWaiter (ids : list string) : slotWaiter :=
  {| w_granted := None; w_claimed := false; w_authIDs := ids |}.

Definition enqueueLocked (e : Env) (l : limiter) (candidates : list string) (maxQueueDepth : Z)
    : (AccountConcurrencyError + nat) * limiter :=
  let queueable :=
    if 0 <? maxQueueDepth
    then List.filter (λ id, Z.of_nat (length (queue (l_waiters l) id)) <? maxQueueDepth) candidates
    else candidates in
  if ((0 <? maxQueueDepth) && (length queueable =? 0)%nat)
  then (inl (saturatedErrorLocked e l (default "" (head candidates)) 0), l)
  else
    let w := length (l_heap l) in
    (inr w,
     with_queues (foldl (λ ws id, <[id := queue ws id ++ [w]]> ws) (l_waiters l) queueable)
                 (l_heap l ++ [newSlotWaiter queueable]) l).

Inductive AcquireOutcome :=
| AcqSlot (id : string)
| AcqWaiter (w : nat)
| AcqError (err : AccountConcurrencyError).

(** First loop of [acquireOrEnqueue]: the first candidate with room. *)
Fixpoint acquire_first (e : Env) (l : limiter) (candidates : list string) : option string * limiter :=
  match candidates with
  | [] => (None, l)
  | id :: rest =>
      match tryAcquireLocked e l id with
      | (true, l) => (Some id, l)
      | (false, l) => acquire_first e l rest
      end
  end.

Definition acquireOrEnqueue (e : Env) (l : limiter) (candidates : list string) (timeout : Duration)
    (maxQueueDepth : Z) : AcquireOutcome * limiter :=
  match acquire_first e l candidates with
  | (Some id, l) => (AcqSlot id, l)
  | (None, l) =>
      if timeout <=? 0 then (AcqError (saturatedErrorLocked e l (default "" (head candidates)) 0), l)
      else match enqueueLocked e l candidates maxQueueDepth with
           | (inr w, l) => (AcqWaiter w, l)
           | (inl err, l) => (AcqError err, l)
           end
  end.

(** The head of [AcquireSlotWait]: nil candidates and empty IDs are dropped, and an
    empty list or a cancelled context is refused before the limiter is touched. *)
Definition usable_candidates (auths : list (option string)) : list string :=
  List.filter (λ id, ! String.eqb id "") (omap id auths).

Definition AcquireSlotWait_enter (e : Env) (l : limiter) (auths : list (option string))
    (ctx_err : bool) (timeout : Duration) (maxQueueDepth : Z) : option AcquireOutcome * limiter :=
  match usable_candidates auths with
  | [] => (Some (AcqError {| ce_AuthID := ""; ce_Active := 0; ce_Limit := 0; ce_Waited := 0 |}), l)
  | candidates =>
      if ctx_err then (None, l)
      else let '(o, l) := acquireOrEnqueue e l candidates timeout maxQueueDepth in (Some o, l)
  end.

(** ** Giving a slot back *)

Definition limitFor (e : Env) (w : slotWaiter) (authID : string) : Z :=
  if bool_decide (authID ∈ w_authIDs w) then limit_of e authID else 0.

(** [tryGrant]: compare-and-swap on [claimed], then send on [granted]. *)
Definition tryGrant (w : slotWaiter) (authID : string) : option slotWaiter :=
  if w_claimed w then None
  else Some {| w_granted := Some authID; w_claimed := true; w_authIDs := w_authIDs w |}.

(** The handoff loop of [ReleaseSlot] on one queue: whether a waiter took the slot,
    what is left of the queue, and the heap. *)
Fixpoint handoff (e : Env) (authID : string) (current : Z) (h : list slotWaiter) (q : list nat)
    : bool * list nat * list slotWaiter :=
  match q with
  | [] => (false, [], h)
  | p :: rest =>
      match h !! p with
      | None => (false, q, h)
      | Some w =>
          let limit := effectiveLimit (env_coord e) (limitFor e w authID) in
          if ((0 <? limit) && (limit <? current)) then (false, q, h)
          else match tryGrant w authID with
               | Some w' => (true, rest, <[p := w']> h)
               | None => handoff e authID current h rest
               end
      end
  end.

(** A queue is stored under its ID only while it is nonempty. *)
Definition put_queue (id : string) (q : list nat) (ws : gmap string (list nat)) : gmap string (list nat) :=
  match q with [] => delete id ws | _ => <[id := q]> ws end.

Definition decrementCount (counts : gmap string Z) (key : string) : bool * gmap string Z :=
  let n := cnt counts key in
  if n <=? 0 then (false, counts)
  else if n =? 1 then (true, delete key counts)
  else (true, <[key := n - 1]> counts).

(** [releaseClusterSlotLocked]; the flag says whether the coordinator's [Release]
    is called. *)
Definition releaseClusterSlotLocked (e : Env) (l : limiter) (authID : string) : bool * limiter :=
  match env_coord e with
  | None => (false, l)
  | Some _ =>
      match decrementCount (l_unshared l) authID with
      | (true, un) => (false, with_cluster (l_clustered l) un l)
      | (false, _) =>
          match decrementCount (l_clustered l) authID with
          | (true, cl) => (true, with_cluster cl (l_unshared l) l)
          | (false, _) => (false, l)
          end
      end
  end.

(** [if current <= 1 { delete } else { active[id] = current - 1 }] *)
Definition drop_active (id : string) (current : Z) (m : gmap string Z) : gmap string Z :=
  if current <=? 1 then delete id m else <[id := current - 1]> m.

Definition ReleaseSlot (e : Env) (l : limiter) (authID : string) : bool * limiter :=
  if String.eqb authID "" then (false, l)
  else
    let current := cnt (l_active l) authID in
    if current <=? 0 then (false, l)
    else
      let '(granted, q, h) := handoff e authID current (l_heap l) (queue (l_waiters l) authID) in
      let l := with_queues (put_queue authID q (l_waiters l)) h l in
      if granted then (false, l)
      else releaseClusterSlotLocked e (with_active (drop_active authID current) l) authID.

(** ** Waiting *)

(** [abandon] *)
Definition abandon (w : slotWaiter) : bool * slotWaiter :=
  if w_claimed w then (false, w)
  else (true, {| w_granted := w_granted w; w_claimed := true; w_authIDs := w_authIDs w |}).

(** Receive from [granted]. *)
Definition recv (w : slotWaiter) : option (string * slotWaiter) :=
  match w_granted w with
  | Some id => Some (id, {| w_granted := None; w_claimed := w_claimed w; w_authIDs := w_authIDs w |})
  | None => None
  end.

(** Removes the first occurrence of a pointer. *)
Fixpoint remove_first (p : nat) (q : list nat) : list nat :=
  match q with
  | [] => []
  | x :: q => if (x =? p)%nat then q else x :: remove_first p q
  end.

Definition dequeue (l : limiter) (p : nat) : limiter :=
  match l_heap l !! p with
  | None => l
  | Some w =>
      with_queues (foldl (λ ws id, put_queue id (remove_first p (queue ws id)) ws)
                         (l_waiters l) (w_authIDs w)) (l_heap l) l
  end.

Definition set_waiter (p : nat) (w : slotWaiter) (l : limiter) : limiter :=
  with_queues (l_waiters l) (<[p := w]> (l_heap l)) l.

(** ** Cluster-wide counting *)

Definition unreserveLocked (l : limiter) (id : string) : limiter :=
  with_active (λ m, drop_active id (cnt m id) m) l.

(** [claimClusterSlot] after a local reservation. [answer] is what the
    coordinator's [Acquire] returned: [None] for an error. *)
Definition claimClusterSlot (e : Env) (l : limiter) (id : string) (answer : option bool)
    : bool * limiter :=
  match env_coord e with
  | None => (true, l)
  | Some c =>
      let limit := limit_of e id in
      if limit <=? 0 then (true, l)
      else
        match (if Shared c then answer else None) with
        | Some true => (true, with_cluster (<[id := cnt (l_clustered l) id + 1]> (l_clustered l))
                                           (l_unshared l) l)
        | Some false => (false, unreserveLocked l id)
        | None =>
            if NodeShare c limit <? cnt (l_active l) id then (false, unreserveLocked l id)
            else (true, with_cluster (l_clustered l)
                                     (<[id := cnt (l_unshared l) id + 1]> (l_unshared l)) l)
        end
  end.

(** ** Requests as threads *)

Inductive thread :=
| TWait (p : nat)                        (** blocked in the select of its waiter *)
| TTaken (p : nat) (id : string)         (** owns a slot, must still leave the queues *)
| TAbandoned (p : nat)                   (** gave up, must still leave the queues *)
| TReserved (id : string)                (** cluster mode: local reservation made *)
| TPolling (p : nat) (id : string)       (** cluster mode: queued and holding a reservation *)
| TPolled (p : nat) (id : string)        (** cluster mode: queued and owning a polled slot *)
| TSurplus (p : nat) (g id : string)     (** was handed [g] while polling [id] *)
| TGiveBack (g id : string)              (** keeps [g], must release [id] *)
| THold (id : string)                    (** running the upstream request *)
| TDone.

Record sys := MkSys { s_lim : limiter; s_threads : list thread }.

Definition sys_init : sys := {| s_lim := NewAccountConcurrencyLimiter; s_threads := [] |}.

Definition set_thread (t : nat) (th : thread) (l : limiter) (s : sys) : sys :=
  {| s_lim := l; s_threads := <[t := th]> (s_threads s) |}.
Definition spawn (th : thread) (l : limiter) (s : sys) : sys :=
  {| s_lim := l; s_threads := s_threads s ++ [th] |}.

(** One critical section or one atomic operation of one request. *)
Inductive step (e : Env) : sys → sys → Prop :=
| st_acquire_now s id l :
    env_coord e = None → AcquireSlot e (s_lim s) id = (inr id, l) →
    step e s (spawn (THold id) l s)
| st_acquire_refused s id err l :
    env_coord e = None → AcquireSlot e (s_lim s) id = (inl err, l) →
    step e s (spawn TDone l s)
| st_enter s auths ctx timeout depth o l :
    env_coord e = None →
    AcquireSlotWait_enter e (s_lim s) auths ctx timeout depth = (o, l) →
    step e s (spawn (match o with
                     | Some (AcqSlot id) => THold id
                     | Some (AcqWaiter p) => TWait p
                     | _ => TDone
                     end) l s)
| st_receive s t p w id w' :
    s_threads s !! t = Some (TWait p) → l_heap (s_lim s) !! p = Some w → recv w = Some (id, w') →
    step e s (set_thread t (TTaken p id) (set_waiter p w' (s_lim s)) s)
| st_leave s t p id :
    s_threads s !! t = Some (TTaken p id) →
    step e s (set_thread t (THold id) (dequeue (s_lim s) p) s)
| st_give_up s t p w w' :
    s_threads s !! t = Some (TWait p) → l_heap (s_lim s) !! p = Some w → abandon w = (true, w') →
    step e s (set_thread t (TAbandoned p) (set_waiter p w' (s_lim s)) s)
| st_give_up_handed s t p w w1 id w' :
    s_threads s !! t = Some (TWait p) → l_heap (s_lim s) !! p = Some w → abandon w = (false, w1) →
    recv w1 = Some (id, w') →
    step e s (set_thread t (THold id) (set_waiter p w' (s_lim s)) s)
| st_abandoned s t p :
    s_threads s !! t = Some (TAbandoned p) →
    step e s (set_thread t TDone (dequeue (s_lim s) p) s)
| st_release s t id b l :
    s_threads s !! t = Some (THold id) → ReleaseSlot e (s_lim s) id = (b, l) →
    step e s (set_thread t TDone l s)
| st_reserve s id l :
    env_coord e ≠ None → tryAcquireLocked e (s_lim s) id = (true, l) →
    step e s (spawn (TReserved id) l s)
| st_claim s t id answer ok l :
    s_threads s !! t = Some (TReserved id) →
    claimClusterSlot e (s_lim s) id answer = (ok, l) →
    step e s (set_thread t (if ok then THold id else TDone) l s)
| st_cluster_enqueue s auths depth p l :
    env_coord e ≠ None →
    enqueueLocked e (s_lim s) (usable_candidates auths) depth = (inr p, l) →
    step e s (spawn (TWait p) l s)
| st_poll_reserve s t p id l :
    env_coord e ≠ None → s_threads s !! t = Some (TWait p) →
    tryAcquireLocked e (s_lim s) id = (true, l) →
    step e s (set_thread t (TPolling p id) l s)
| st_poll_claim s t p id answer ok l :
    s_threads s !! t = Some (TPolling p id) →
    claimClusterSlot e (s_lim s) id answer = (ok, l) →
    step e s (set_thread t (if ok then TPolled p id else TWait p) l s)
| st_polled_abandon s t p id w w' :
    s_threads s !! t = Some (TPolled p id) → l_heap (s_lim s) !! p = Some w →
    abandon w = (true, w') →
    step e s (set_thread t (TTaken p id) (set_waiter p w' (s_lim s)) s)
| st_polled_handed s t p id w w1 g w' :
    s_threads s !! t = Some (TPolled p id) → l_heap (s_lim s) !! p = Some w →
    abandon w = (false, w1) → recv w1 = Some (g, w') →
    step e s (set_thread t (TSurplus p g id) (set_waiter p w' (s_lim s)) s)
| st_surplus_leave s t p g id :
    s_threads s !! t = Some (TSurplus p g id) →
    step e s (set_thread t (TGiveBack g id) (dequeue (s_lim s) p) s)
| st_give_back s t g id b l :
    s_threads s !! t = Some (TGiveBack g id) → ReleaseSlot e (s_lim s) id = (b, l) →
    step e s (set_thread t (THold g) l s).

(** States reachable while limits and the coordinator may change at any time. *)
Inductive reach : sys → Prop :=
| reach_init : reach sys_init
| reach_step e s s' : reach s → step e s s' → reach s'.

(** States reachable under one fixed configuration. *)
Inductive reach_const (e : Env) : sys → Prop :=
| reachc_init : reach_const e sys_init
| reachc_step s s' : reach_const e s → step e s s' → reach_const e s'.

(** ** Slot conservation *)

Definition same (a b : string) : Z := if String.eqb a b then 1 else 0.

(** Slots of account [id] owned by a thread. *)
Definition owned (id : string) (t : thread) : Z :=
  match t with
  | THold i | TTaken _ i | TReserved i | TPolling _ i | TPolled _ i => same i id
  | TSurplus _ g i | TGiveBack g i => same g id + same i id
  | TWait _ | TAbandoned _ | TDone => 0
  end.

(** A slot handed over but not yet received. *)
Definition in_channel (id : string) (w : slotWaiter) : Z :=
  match w_granted w with Some i => same i id | None => 0 end.

Definition outstanding (s : sys) (id : string) : Z :=
  zsum (owned id) (s_threads s) + zsum (in_channel id) (l_heap (s_lim s)).

Record slots_inv (s : sys) : Prop := {
  inv_count : ∀ id, cnt (l_active (s_lim s)) id = outstanding s id;
  inv_empty : cnt (l_active (s_lim s)) "" = 0;
  inv_unclaimed : ∀ p w, l_heap (s_lim s) !! p = Some w → w_claimed w = false → w_granted w = None
}.

Lemma cnt_insert_eq m k v : cnt (<[k := v]> m) k = v.
Proof. unfold cnt. by rewrite lookup_insert_eq. Qed.

Lemma cnt_insert_ne m k j v : k ≠ j → cnt (<[k := v]> m) j = cnt m j.
Proof. intros. unfold cnt. by rewrite lookup_insert_ne. Qed.

Lemma same_eq a : same a a = 1.
Proof. unfold same. by rewrite String.eqb_refl. Qed.

Lemma same_ne a b : a ≠ b → same a b = 0.
Proof. intros H. unfold same. by rewrite (proj2 (String.eqb_neq a b)). Qed.

Lemma same_nonneg a b : 0 ≤ same a b.
Proof. unfold same. by destruct (String.eqb a b). Qed.

Lemma owned_nonneg id t : 0 ≤ owned id t.
Proof. destruct t; simpl; repeat match goal with |- context [same ?a ?b] =>
  pose proof (same_nonneg a b); generalize dependent (same a b); intros end; lia. Qed.

Lemma in_channel_nonneg id w : 0 ≤ in_channel id w.
Proof. unfold in_channel. destruct (w_granted w); [apply same_nonneg|lia]. Qed.

Lemma cnt_drop m id j :
  0 < cnt m id → cnt (drop_active id (cnt m id) m) j = cnt m j - same id j.
Proof.
  intros Hpos. unfold drop_active. destruct (decide (id = j)) as [<-|Hne].
  - rewrite same_eq. destruct (Z.leb_spec (cnt m id) 1).
    + unfold cnt at 1. rewrite lookup_delete_eq. simpl. lia.
    + rewrite cnt_insert_eq. lia.
  - rewrite same_ne by done. destruct (Z.leb_spec (cnt m id) 1).
    + unfold cnt. rewrite lookup_delete_ne by done. lia.
    + rewrite cnt_insert_ne by done. lia.
Qed.

(** *** Effect of each critical section on the counters *)

Lemma tryAcquire_spec e l id ok l' :
  tryAcquireLocked e l id = (ok, l') →
  l_waiters l' = l_waiters l ∧ l_heap l' = l_heap l ∧
  (ok = false → l' = l ∧ (id ≠ "" → 0 < eff e id ∧ eff e id ≤ cnt (l_active l) id)) ∧
  (ok = true → id ≠ "" ∧ (0 < eff e id → cnt (l_active l) id < eff e id) ∧
     ∀ j, cnt (l_active l') j = cnt (l_active l) j + same id j).
Proof.
  unfold tryAcquireLocked. destruct (String.eqb_spec id "").
  { intros [= <- <-]. done. }
  destruct ((0 <? eff e id) && (eff e id <=? cnt (l_active l) id))%bool eqn:E;
    intros [= <- <-].
  - zbool. done.
  - split; [done|]. split; [done|]. split; [done|]. intros _. split; [done|]. split.
    + intros Hp. apply andb_false_iff in E as [E|E]; zbool; lia.
    + intros j. simpl. destruct (decide (id = j)) as [<-|Hne].
      * rewrite cnt_insert_eq, same_eq. lia.
      * rewrite cnt_insert_ne, same_ne by done. lia.
Qed.

Lemma acquire_first_spec e l cands o l' :
  acquire_first e l cands = (o, l') →
  l_waiters l' = l_waiters l ∧ l_heap l' = l_heap l ∧
  match o with
  | None => l' = l ∧ ∀ id, id ∈ cands → id ≠ "" → 0 < eff e id ∧ eff e id ≤ cnt (l_active l) id
  | Some id => id ≠ "" ∧ (0 < eff e id → cnt (l_active l) id < eff e id) ∧
      ∀ j, cnt (l_active l') j = cnt (l_active l) j + same id j
  end.
Proof.
  revert l. induction cands as [|c cands IH]; intros l; simpl.
  { intros [= <- <-]. split; [done|]. split; [done|]. split; [done|].
    intros id Hid. by apply elem_of_nil in Hid. }
  destruct (tryAcquireLocked e l c) as [[] l1] eqn:E;
    apply tryAcquire_spec in E as (Hw & Hh & Hf & Ht).
  - intros [= <- <-]. destruct (Ht eq_refl) as (? & ? & ?). done.
  - destruct (Hf eq_refl) as [-> Hsat]. intros H. apply IH in H as (? & ? & H).
    split; [done|]. split; [done|]. destruct o; [done|]. destruct H as [-> Hall].
    split; [done|]. intros id Hid. apply elem_of_cons in Hid as [->|Hid]; auto.
Qed.

(** The pointers of a queue prefix whose waiters already have a slot or gave up. *)
Definition all_claimed (h : list slotWaiter) (q : list nat) : Prop :=
  ∀ p, p ∈ q → ∃ w, h !! p = Some w ∧ w_claimed w = true.

(** Handing over keeps the order of the queue: everything in front of the served
    waiter was already claimed. *)
Lemma handoff_spec e id cur h q g q' h' :
  handoff e id cur h q = (g, q', h') →
  ∃ pre, all_claimed h pre ∧
  match g with
  | true => ∃ p w, q = pre ++ p :: q' ∧ h !! p = Some w ∧ w_claimed w = false ∧
      h' = <[p := {| w_granted := Some id; w_claimed := true; w_authIDs := w_authIDs w |}]> h ∧
      (0 < effectiveLimit (env_coord e) (limitFor e w id) →
       cur ≤ effectiveLimit (env_coord e) (limitFor e w id))
  | false => q = pre ++ q' ∧ h' = h ∧
      (q' = [] ∨ ∃ p rest, q' = p :: rest ∧
        (h !! p = None ∨ ∃ w, h !! p = Some w ∧
          0 < effectiveLimit (env_coord e) (limitFor e w id) < cur))
  end.
Proof.
  induction q as [|p q IH]; simpl.
  { intros [= <- <- <-]. exists []. split; [intros p Hp; by apply elem_of_nil in Hp|].
    split; [done|]. split; [done|]. by left. }
  assert (Hnil : all_claimed h []) by (intros x Hx; by apply elem_of_nil in Hx).
  destruct (h !! p) as [w|] eqn:Hp.
  2:{ intros [= <- <- <-]. exists []. split; [done|]. split; [done|]. split; [done|]. right.
      exists p, q. split; [done|]. by left. }
  destruct (_ && _)%bool eqn:E.
  { intros [= <- <- <-]. exists []. split; [done|]. split; [done|]. split; [done|]. right.
    exists p, q. split; [done|]. right. exists w. zbool. done. }
  unfold tryGrant. destruct (w_claimed w) eqn:Hc.
  - intros H. destruct (IH H) as (pre & Hpre & Hres). exists (p :: pre). split.
    { intros x Hx. apply elem_of_cons in Hx as [->|Hx]; [eauto|by apply Hpre]. }
    destruct g.
    + destruct Hres as (p' & w' & -> & Hw' & Hc' & Hh & Hl). exists p', w'. done.
    + destruct Hres as (-> & Hh & Hq). done.
  - intros [= <- <- <-]. exists []. split; [done|]. exists p, w.
    split; [done|]. split; [done|]. split; [done|]. split; [done|].
    intros Hl. apply andb_false_iff in E as [E|E]; zbool; lia.
Qed.

Lemma cluster_release_frame e l id b l' :
  releaseClusterSlotLocked e l id = (b, l') →
  l_active l' = l_active l ∧ l_waiters l' = l_waiters l ∧ l_heap l' = l_heap l.
Proof.
  unfold releaseClusterSlotLocked. destruct (env_coord e); [|by intros [= <- <-]].
  destruct (decrementCount (l_unshared l) id) as [[] un]; [by intros [= <- <-]|].
  destruct (decrementCount (l_clustered l) id) as [[] cl]; by intros [= <- <-].
Qed.

(** Releasing a slot either hands it to the first live waiter or frees it. *)
Lemma ReleaseSlot_spec e l id b l' :
  ReleaseSlot e l id = (b, l') → id ≠ "" → 0 < cnt (l_active l) id →
  ∃ q', l_waiters l' = put_queue id q' (l_waiters l) ∧
  ((∃ pre p w, queue (l_waiters l) id = pre ++ p :: q' ∧ all_claimed (l_heap l) pre ∧
      l_heap l !! p = Some w ∧ w_claimed w = false ∧ l_active l' = l_active l ∧
      l_heap l' = <[p := {| w_granted := Some id; w_claimed := true; w_authIDs := w_authIDs w |}]> (l_heap l) ∧
      (0 < effectiveLimit (env_coord e) (limitFor e w id) →
       cnt (l_active l) id ≤ effectiveLimit (env_coord e) (limitFor e w id))) ∨
   (∃ pre, queue (l_waiters l) id = pre ++ q' ∧ all_claimed (l_heap l) pre ∧
      l_heap l' = l_heap l ∧
      (∀ j, cnt (l_active l') j = cnt (l_active l) j - same id j) ∧
      (q' = [] ∨ ∃ p rest, q' = p :: rest ∧
        (l_heap l !! p = None ∨ ∃ w, l_heap l !! p = Some w ∧
          0 < effectiveLimit (env_coord e) (limitFor e w id) < cnt (l_active l) id)))).
Proof.
  intros H Hid Hpos. unfold ReleaseSlot in H.
  rewrite (proj2 (String.eqb_neq id "")) in H by done.
  rewrite (proj2 (Z.leb_gt (cnt (l_active l) id) 0)) in H by done.
  destruct (handoff e id _ (l_heap l) (queue (l_waiters l) id)) as [[g q'] h'] eqn:Hh.
  apply handoff_spec in Hh as (pre & Hpre & Hres). exists q'. destruct g.
  - injection H as <- <-. split; [done|]. left.
    destruct Hres as (p & w & Hq & Hw & Hc & -> & Hl). by exists pre, p, w.
  - apply cluster_release_frame in H as (Ha & Hw & Hhp).
    destruct Hres as (Hq & -> & Hrest). rewrite Hw. split; [done|]. right.
    exists pre. split; [done|]. split; [done|]. split; [by rewrite Hhp|]. split; [|done].
    intros j. rewrite Ha. simpl. by apply cnt_drop.
Qed.

Lemma dequeue_frame l p :
  l_active (dequeue l p) = l_active l ∧ l_heap (dequeue l p) = l_heap l.
Proof. unfold dequeue. by destruct (l_heap l !! p). Qed.

Lemma enqueue_spec e l cands depth r l' :
  enqueueLocked e l cands depth = (r, l') →
  l_active l' = l_active l ∧
  match r with
  | inl _ => l' = l
  | inr p => ∃ ids, (∀ id, id ∈ ids → id ∈ cands) ∧ p = length (l_heap l) ∧
      l_heap l' = l_heap l ++ [newSlotWaiter ids] ∧
      l_waiters l' = foldl (λ ws id, <[id := queue ws id ++ [p]]> ws) (l_waiters l) ids
  end.
Proof.
  unfold enqueueLocked. cbv zeta.
  set (qs := if 0 <? depth then _ else cands).
  assert (Hqs : ∀ id, id ∈ qs → id ∈ cands).
  { intros id. unfold qs. destruct (0 <? depth); [|done].
    rewrite !list_elem_of_In, List.filter_In. tauto. }
  clearbody qs. destruct (_ && _)%bool; intros [= <- <-]; [done|].
  split; [done|]. by exists qs.
Qed.

Lemma claim_frame e l id ans ok l' :
  claimClusterSlot e l id ans = (ok, l') → 0 < cnt (l_active l) id →
  l_waiters l' = l_waiters l ∧ l_heap l' = l_heap l ∧
  ∀ j, cnt (l_active l') j = cnt (l_active l) j - (if ok then 0 else same id j).
Proof.
  intros H Hpos. unfold claimClusterSlot in H.
  assert (Hdrop : ∀ j, cnt (l_active (unreserveLocked l id)) j = cnt (l_active l) j - same id j).
  { intros j. simpl. by apply cnt_drop. }
  destruct (env_coord e) as [c|]; [|simplify_eq; split; [done|split; [done|intros; lia]]].
  destruct (limit_of e id <=? 0); [simplify_eq; split; [done|split; [done|intros; lia]]|].
  destruct (if Shared c then ans else None) as [[]|]; [..|destruct (NodeShare c _ <? _)];
    simplify_eq; (split; [done|split; [done|intros j; first [apply Hdrop | simpl; lia]]]).
Qed.

(** *** Preservation *)

Lemma outstanding_spawn th l s id :
  outstanding (spawn th l s) id =
  zsum (owned id) (s_threads s) + owned id th + zsum (in_channel id) (l_heap l).
Proof. unfold outstanding, spawn. simpl. rewrite zsum_snoc. lia. Qed.

Lemma outstanding_set t th0 th l s id :
  s_threads s !! t = Some th0 →
  outstanding (set_thread t th l s) id =
  zsum (owned id) (s_threads s) - owned id th0 + owned id th + zsum (in_channel id) (l_heap l).
Proof. intros H. unfold outstanding, set_thread. simpl. rewrite (zsum_insert _ _ _ _ _ H). lia. Qed.

Lemma channel_set p w w' (h : list slotWaiter) id :
  h !! p = Some w →
  zsum (in_channel id) (<[p := w']> h) = zsum (in_channel id) h - in_channel id w + in_channel id w'.
Proof. apply zsum_insert. Qed.

(** An owned slot is counted, and its account ID is not empty. *)
Lemma owned_counted s t th id :
  slots_inv s → s_threads s !! t = Some th → 0 < owned id th →
  0 < cnt (l_active (s_lim s)) id ∧ id ≠ "".
Proof.
  intros [Hc He _] Ht Hpos. rewrite Hc. unfold outstanding.
  pose proof (zsum_lookup_le (owned id) _ _ _ (λ y _, owned_nonneg id y) Ht).
  pose proof (zsum_nonneg (in_channel id) (l_heap (s_lim s)) (λ y _, in_channel_nonneg id y)).
  split; [lia|]. intros ->. rewrite Hc in He. unfold outstanding in He. lia.
Qed.

Lemma unclaimed_insert (h : list slotWaiter) p w' :
  (∀ q w, h !! q = Some w → w_claimed w = false → w_granted w = None) →
  (w_claimed w' = false → w_granted w' = None) →
  ∀ q w, <[p := w']> h !! q = Some w → w_claimed w = false → w_granted w = None.
Proof.
  intros Hh Hw q w Hq. destruct (decide (p = q)) as [<-|Hne].
  - destruct (decide (p < length h)%nat).
    + rewrite list_lookup_insert_eq in Hq by done. by injection Hq as <-.
    + rewrite list_insert_ge in Hq by lia. by eapply Hh.
  - rewrite list_lookup_insert_ne in Hq by done. by eapply Hh.
Qed.

(** Moving a thread whose account counters follow its owned slots. *)
Lemma inv_set s t th0 th l :
  slots_inv s → s_threads s !! t = Some th0 →
  (∀ id, cnt (l_active l) id - zsum (in_channel id) (l_heap l) =
         cnt (l_active (s_lim s)) id - zsum (in_channel id) (l_heap (s_lim s))
         - owned id th0 + owned id th) →
  cnt (l_active l) "" = 0 →
  (∀ p w, l_heap l !! p = Some w → w_claimed w = false → w_granted w = None) →
  slots_inv (set_thread t th l s).
Proof.
  intros [Hc He Hu] Ht Hcnt He' Hu'. split; [|done|done].
  intros id. rewrite (outstanding_set _ _ _ _ _ _ Ht). specialize (Hcnt id).
  rewrite Hc in Hcnt. unfold outstanding in Hcnt. simpl. lia.
Qed.

Lemma inv_spawn s th l :
  slots_inv s →
  (∀ id, cnt (l_active l) id - zsum (in_channel id) (l_heap l) =
         cnt (l_active (s_lim s)) id - zsum (in_channel id) (l_heap (s_lim s)) + owned id th) →
  cnt (l_active l) "" = 0 →
  (∀ p w, l_heap l !! p = Some w → w_claimed w = false → w_granted w = None) →
  slots_inv (spawn th l s).
Proof.
  intros [Hc He Hu] Hcnt He' Hu'. split; [|done|done].
  intros id. rewrite outstanding_spawn. specialize (Hcnt id).
  rewrite Hc in Hcnt. unfold outstanding in Hcnt. simpl. lia.
Qed.

(** A waiter is received from or abandoned: the channel and the thread trade a slot. *)
Lemma inv_waiter s t th0 th p w w' :
  slots_inv s → s_threads s !! t = Some th0 → l_heap (s_lim s) !! p = Some w →
  (∀ id, in_channel id w' + owned id th = in_channel id w + owned id th0) →
  (w_claimed w' = false → w_granted w' = None) →
  slots_inv (set_thread t th (set_waiter p w' (s_lim s)) s).
Proof.
  intros Hinv Ht Hp Hch Hw'. apply (inv_set s t th0); [done|done|..].
  - intros id. simpl. rewrite (channel_set _ _ _ _ _ Hp). specialize (Hch id). lia.
  - apply Hinv.
  - simpl. apply unclaimed_insert; [apply Hinv|done].
Qed.

Lemma inv_release s t th0 th id e b l :
  slots_inv s → s_threads s !! t = Some th0 → 0 < owned id th0 →
  (∀ j, owned j th = owned j th0 - same id j) →
  ReleaseSlot e (s_lim s) id = (b, l) → slots_inv (set_thread t th l s).
Proof.
  intros Hinv Ht Hown Hth Hrel.
  destruct (owned_counted s t th0 id Hinv Ht Hown) as [Hpos Hid].
  destruct (ReleaseSlot_spec _ _ _ _ _ Hrel Hid Hpos) as (q' & _ & H).
  apply (inv_set s t th0); [done|done|..].
  - intros j. rewrite Hth. destruct H as [H|H].
    + destruct H as (pre & p & w & _ & _ & Hw & Hcl & -> & -> & _).
      rewrite (channel_set _ _ _ _ _ Hw).
      assert (in_channel j w = 0) as -> by (unfold in_channel; by rewrite (inv_unclaimed s Hinv p w)).
      unfold in_channel at 2. simpl. lia.
    + destruct H as (pre & _ & _ & -> & Hact & _). rewrite Hact. lia.
  - destruct H as [H|H].
    + destruct H as (pre & p & w & _ & _ & _ & _ & -> & _). apply Hinv.
    + destruct H as (pre & _ & _ & _ & Hact & _). rewrite Hact, same_ne by done.
      pose proof (inv_empty s Hinv). lia.
  - destruct H as [H|H].
    + destruct H as (pre & p & w & _ & _ & Hw & _ & _ & -> & _).
      apply unclaimed_insert; [apply Hinv|done].
    + destruct H as (pre & _ & _ & -> & _). apply Hinv.
Qed.

Lemma inv_claim s t th0 th id e ans (ok : bool) l :
  slots_inv s → s_threads s !! t = Some th0 → 0 < owned id th0 →
  (∀ j, owned j th = owned j th0 - (if ok then 0 else same id j)) →
  claimClusterSlot e (s_lim s) id ans = (ok, l) → slots_inv (set_thread t th l s).
Proof.
  intros Hinv Ht Hown Hth Hcl.
  destruct (owned_counted s t th0 id Hinv Ht Hown) as [Hpos Hid].
  destruct (claim_frame _ _ _ _ _ _ Hcl Hpos) as (_ & Hh & Hact).
  apply (inv_set s t th0); [done|done|..].
  - intros j. rewrite Hact, Hh, Hth. lia.
  - rewrite Hact, (inv_empty s Hinv). destruct ok; [lia|]. rewrite same_ne by done. lia.
  - rewrite Hh. apply Hinv.
Qed.

Lemma heap_snoc_unclaimed (h : list slotWaiter) ids :
  (∀ p w, h !! p = Some w → w_claimed w = false → w_granted w = None) →
  ∀ p w, (h ++ [newSlotWaiter ids]) !! p = Some w → w_claimed w = false → w_granted w = None.
Proof.
  intros Hh p w Hp. apply lookup_app_Some in Hp as [Hp|[_ Hp]]; [by eapply Hh|].
  destruct (p - length h)%nat; [|done]. by injection Hp as <-.
Qed.

Lemma inv_enqueued s e cands depth p l :
  slots_inv s → enqueueLocked e (s_lim s) cands depth = (inr p, l) → slots_inv (spawn (TWait p) l s).
Proof.
  intros Hinv H. apply enqueue_spec in H as (Ha & ids & _ & _ & Hh & _).
  apply inv_spawn; [done|..].
  - intros id. rewrite Ha, Hh, zsum_snoc. unfold in_channel at 2. simpl. lia.
  - rewrite Ha. apply Hinv.
  - rewrite Hh. apply heap_snoc_unclaimed, Hinv.
Qed.

Lemma inv_acquired s id l :
  slots_inv s → id ≠ "" → l_heap l = l_heap (s_lim s) →
  (∀ j, cnt (l_active l) j = cnt (l_active (s_lim s)) j + same id j) →
  ∀ th, (∀ j, owned j th = same id j) → slots_inv (spawn th l s).
Proof.
  intros Hinv Hid Hh Hact th Hth. apply inv_spawn; [done|..].
  - intros j. rewrite Hact, Hh, Hth. lia.
  - rewrite Hact, same_ne by done. pose proof (inv_empty s Hinv). lia.
  - rewrite Hh. apply Hinv.
Qed.

Lemma inv_idle s : slots_inv s → slots_inv (spawn TDone (s_lim s) s).
Proof.
  intros Hinv. apply inv_spawn; [done|intros; simpl; lia|apply Hinv|apply Hinv].
Qed.

(** What entering [AcquireSlotWait] can do. *)
Lemma enter_cases e l auths ctx timeout depth o l' :
  AcquireSlotWait_enter e l auths ctx timeout depth = (o, l') →
  (l' = l ∧ (o = None ∨ ∃ err, o = Some (AcqError err))) ∨
  (∃ id, o = Some (AcqSlot id) ∧ acquire_first e l (usable_candidates auths) = (Some id, l')) ∨
  (∃ p, o = Some (AcqWaiter p) ∧ acquire_first e l (usable_candidates auths) = (None, l) ∧
        enqueueLocked e l (usable_candidates auths) depth = (inr p, l')).
Proof.
  unfold AcquireSlotWait_enter. destruct (usable_candidates auths) as [|c cs].
  { intros [= <- <-]. left. split; [done|]. right. eauto. }
  destruct ctx; [intros [= <- <-]; left; split; [done|by left]|].
  unfold acquireOrEnqueue. destruct (acquire_first e l (c :: cs)) as [[id|] l1] eqn:E.
  { intros [= <- <-]. right; left. eauto. }
  apply acquire_first_spec in E as E'. destruct E' as (_ & _ & -> & _).
  destruct (timeout <=? 0). { intros [= <- <-]. left. split; [done|]. right. eauto. }
  destruct (enqueueLocked e l (c :: cs) depth) as [[err|p] l2] eqn:E2; intros [= <- <-].
  - apply enqueue_spec in E2 as [_ ->]. left. split; [done|]. right. eauto.
  - right; right. eauto.
Qed.

Lemma inv_dequeue s t th0 th p :
  slots_inv s → s_threads s !! t = Some th0 → (∀ j, owned j th = owned j th0) →
  slots_inv (set_thread t th (dequeue (s_lim s) p) s).
Proof.
  intros Hinv Ht Hth. destruct (dequeue_frame (s_lim s) p) as [Ha Hh].
  apply (inv_set s t th0); [done|done|..]; rewrite ?Ha, ?Hh; try apply Hinv.
  intros j. rewrite Hth. lia.
Qed.

Lemma slots_inv_step e s s' : slots_inv s → step e s s' → slots_inv s'.
Proof.
  intros Hinv Hstep. destruct Hstep.
  - unfold AcquireSlot in *.
    destruct (tryAcquireLocked e (s_lim s) id) as [[] l1] eqn:E; simplify_eq.
    apply tryAcquire_spec in E as (_ & Hh & _ & Ht). destruct (Ht eq_refl) as (? & _ & ?).
    by eapply inv_acquired.
  - unfold AcquireSlot in *.
    destruct (tryAcquireLocked e (s_lim s) id) as [[] l1] eqn:E; simplify_eq.
    apply tryAcquire_spec in E as (_ & _ & Hf & _). destruct (Hf eq_refl) as [-> _].
    by apply inv_idle.
  - apply enter_cases in H0 as [[-> [->|[err ->]]]|[(id & -> & Hacq)|(p & -> & _ & Henq)]].
    + by apply inv_idle.
    + by apply inv_idle.
    + apply acquire_first_spec in Hacq as (_ & Hh & ? & _ & ?). by eapply inv_acquired.
    + by eapply inv_enqueued.
  - unfold recv in *. destruct (w_granted w) eqn:Hg; simplify_eq.
    eapply inv_waiter; [done..| |].
    + intros j. unfold in_channel. rewrite Hg. simpl. lia.
    + done.
  - by eapply inv_dequeue.
  - unfold abandon in *. destruct (w_claimed w) eqn:Hc; simplify_eq.
    eapply inv_waiter; [done..| |done]. intros j. simpl. unfold in_channel. simpl. lia.
  - unfold abandon in *. destruct (w_claimed w) eqn:Hc; simplify_eq.
    unfold recv in *. destruct (w_granted w1) eqn:Hg; simplify_eq.
    eapply inv_waiter; [done..| |].
    + intros j. unfold in_channel. rewrite Hg. simpl. lia.
    + simpl. congruence.
  - by eapply inv_dequeue.
  - eapply inv_release; [done|done| | |done]; simpl.
    + rewrite same_eq. lia.
    + intros j. lia.
  - apply tryAcquire_spec in H0 as (_ & Hh & _ & Ht). destruct (Ht eq_refl) as (? & _ & ?).
    by eapply inv_acquired.
  - eapply inv_claim; [done|done| | |done]; simpl.
    + rewrite same_eq. lia.
    + intros j. destruct ok; simpl; lia.
  - by eapply inv_enqueued.
  - apply tryAcquire_spec in H1 as (_ & Hh & _ & Ht). destruct (Ht eq_refl) as (? & _ & Hact).
    apply (inv_set s t (TWait p)); [done|done|..].
    + intros j. rewrite Hact, Hh. simpl. lia.
    + rewrite Hact, same_ne by done. pose proof (inv_empty s Hinv). lia.
    + rewrite Hh. apply Hinv.
  - eapply inv_claim; [done|done| | |done]; simpl.
    + rewrite same_eq. lia.
    + intros j. destruct ok; simpl; lia.
  - unfold abandon in *. destruct (w_claimed w) eqn:Hc; simplify_eq.
    eapply inv_waiter; [done..| |done]. intros j. simpl. unfold in_channel. simpl. lia.
  - unfold abandon in *. destruct (w_claimed w) eqn:Hc; simplify_eq.
    unfold recv in *. destruct (w_granted w1) eqn:Hg; simplify_eq.
    eapply inv_waiter; [done..| |].
    + intros j. unfold in_channel. rewrite Hg. simpl. lia.
    + simpl. congruence.
  - by eapply inv_dequeue.
  - eapply inv_release; [done|done| | |done]; simpl.
    + rewrite same_eq. pose proof (same_nonneg g id). lia.
    + intros j. lia.
Qed.

Lemma slots_inv_init : slots_inv sys_init.
Proof. split; [done|done|]. intros p w Hp. by destruct p. Qed.

Lemma slots_inv_reach s : reach s → slots_inv s.
Proof. induction 1; [apply slots_inv_init|by eapply slots_inv_step]. Qed.

(** ** The limit *)

(** A step never raises an account's in-flight count above its current limit. *)
Lemma step_bound e s s' id :
  slots_inv s → step e s s' → 0 < eff e id →
  cnt (l_active (s_lim s')) id ≤ cnt (l_active (s_lim s)) id ∨
  cnt (l_active (s_lim s')) id ≤ eff e id.
Proof.
  intros Hinv Hstep Hpos.
  assert (Hacq : ∀ i l, (0 < eff e i → cnt (l_active (s_lim s)) i < eff e i) →
    (∀ j, cnt (l_active l) j = cnt (l_active (s_lim s)) j + same i j) →
    cnt (l_active l) id ≤ cnt (l_active (s_lim s)) id ∨ cnt (l_active l) id ≤ eff e id).
  { intros i l Hroom Hact. rewrite Hact. destruct (decide (i = id)) as [->|Hne].
    - right. rewrite same_eq. specialize (Hroom Hpos). lia.
    - left. rewrite same_ne by done. lia. }
  assert (Hrel : ∀ i b l th t, s_threads s !! t = Some th → 0 < owned i th →
    ReleaseSlot e (s_lim s) i = (b, l) → cnt (l_active l) id ≤ cnt (l_active (s_lim s)) id).
  { intros i b l th t Ht Hown H. destruct (owned_counted s t th i Hinv Ht Hown) as [Hc Hi].
    apply ReleaseSlot_spec in H as (q' & _ & [H|H]); [|..|done|done].
    - destruct H as (? & ? & ? & _ & _ & _ & _ & -> & _). lia.
    - destruct H as (? & _ & _ & _ & -> & _). pose proof (same_nonneg i id). lia. }
  assert (Hclaim : ∀ i ans ok l th t, s_threads s !! t = Some th → 0 < owned i th →
    claimClusterSlot e (s_lim s) i ans = (ok, l) →
    cnt (l_active l) id ≤ cnt (l_active (s_lim s)) id).
  { intros i ans ok l th t Ht Hown H. destruct (owned_counted s t th i Hinv Ht Hown) as [Hc Hi].
    apply claim_frame in H as (_ & _ & Hact); [|done]. rewrite Hact.
    pose proof (same_nonneg i id). destruct ok; lia. }
  assert (Hown1 : ∀ i, 0 < same i i) by (intros; rewrite same_eq; lia).
  destruct Hstep; simpl; try (left; lia).
  - unfold AcquireSlot in *.
    destruct (tryAcquireLocked e (s_lim s) id0) as [[] l1] eqn:E; simplify_eq.
    apply tryAcquire_spec in E as (_ & _ & _ & Ht). destruct (Ht eq_refl) as (_ & ? & ?). eauto.
  - unfold AcquireSlot in *.
    destruct (tryAcquireLocked e (s_lim s) id0) as [[] l1] eqn:E; simplify_eq.
    apply tryAcquire_spec in E as (_ & _ & Hf & _). destruct (Hf eq_refl) as [-> _]. left; lia.
  - apply enter_cases in H0 as [[-> _]|[(i & -> & Ha)|(p & -> & _ & Henq)]]; [left; lia|..].
    + apply acquire_first_spec in Ha as (_ & _ & _ & ? & ?). eauto.
    + apply enqueue_spec in Henq as [-> _]. left; lia.
  - rewrite (proj1 (dequeue_frame (s_lim s) p)). left; lia.
  - rewrite (proj1 (dequeue_frame (s_lim s) p)). left; lia.
  - left. eapply Hrel; [done| |done]. apply Hown1.
  - apply tryAcquire_spec in H0 as (_ & _ & _ & Ht). destruct (Ht eq_refl) as (_ & ? & ?). eauto.
  - left. eapply Hclaim; [done| |done]. apply Hown1.
  - apply enqueue_spec in H0 as [-> _]. left; lia.
  - apply tryAcquire_spec in H1 as (_ & _ & _ & Ht). destruct (Ht eq_refl) as (_ & ? & ?). eauto.
  - left. eapply Hclaim; [done| |done]. apply Hown1.
  - rewrite (proj1 (dequeue_frame (s_lim s) p)). left; lia.
  - left. eapply Hrel; [done| |done]. simpl. pose proof (same_nonneg g id0). specialize (Hown1 id0). lia.
Qed.

Lemma reach_const_inv e s : reach_const e s → slots_inv s.
Proof. induction 1; [apply slots_inv_init|by eapply slots_inv_step]. Qed.

(** ** Nobody waits while there is room *)

Record queues_inv (e : Env) (s : sys) : Prop := {
  qi_valid : ∀ id p, p ∈ queue (l_waiters (s_lim s)) id →
    ∃ w, l_heap (s_lim s) !! p = Some w ∧ id ∈ w_authIDs w;
  qi_busy : ∀ id p w, p ∈ queue (l_waiters (s_lim s)) id → l_heap (s_lim s) !! p = Some w →
    w_claimed w = false → 0 < eff e id ∧ eff e id ≤ cnt (l_active (s_lim s)) id
}.

Lemma queue_insert_eq ws id q : queue (<[id := q]> ws) id = q.
Proof. unfold queue. by rewrite lookup_insert_eq. Qed.

Lemma queue_insert_ne ws id j q : id ≠ j → queue (<[id := q]> ws) j = queue ws j.
Proof. intros. unfold queue. by rewrite lookup_insert_ne. Qed.

Lemma queue_put ws id q j : queue (put_queue id q ws) j = if decide (id = j) then q else queue ws j.
Proof.
  unfold put_queue, queue. destruct (decide (id = j)) as [<-|Hne], q.
  - by rewrite lookup_delete_eq.
  - by rewrite lookup_insert_eq.
  - by rewrite lookup_delete_ne.
  - by rewrite lookup_insert_ne.
Qed.

Lemma elem_of_remove_first x p q : x ∈ remove_first p q → x ∈ q.
Proof.
  induction q as [|y q IH]; simpl; [done|]. destruct (y =? p)%nat; [by right|].
  intros Hx. apply elem_of_cons in Hx as [->|Hx]; [left|right; auto].
Qed.

Lemma dequeue_queue_sub l p id x :
  x ∈ queue (l_waiters (dequeue l p)) id → x ∈ queue (l_waiters l) id.
Proof.
  unfold dequeue. destruct (l_heap l !! p) as [w|]; [|done]. simpl.
  generalize (l_waiters l) as ws. induction (w_authIDs w) as [|i ids IH]; intros ws; simpl; [done|].
  intros Hx. apply IH in Hx. rewrite queue_put in Hx. destruct (decide (i = id)) as [<-|]; [|done].
  by eapply elem_of_remove_first.
Qed.

(** Queues after enqueuing the new pointer [p]. *)
Lemma enqueue_queue ids ws (p : nat) id x :
  x ∈ queue (foldl (λ ws id, <[id := queue ws id ++ [p]]> ws) ws ids) id →
  x ∈ queue ws id ∨ (x = p ∧ id ∈ ids).
Proof.
  revert ws. induction ids as [|i ids IH]; intros ws; simpl; [by left|].
  intros Hx. apply IH in Hx as [Hx|[-> Hx]]; [|right; split; [done|by right]].
  destruct (decide (i = id)) as [<-|Hne].
  - rewrite queue_insert_eq in Hx. apply elem_of_app in Hx as [Hx|Hx]; [by left|].
    apply list_elem_of_singleton in Hx as ->. right. split; [done|left].
  - rewrite queue_insert_ne in Hx by done. by left.
Qed.

(** Steps that only change threads, or shrink queues, or change the claim of a
    waiter that stays or becomes claimed, preserve the queue invariant. *)
Lemma queues_inv_mono e s l th :
  queues_inv e s →
  (∀ id x, x ∈ queue (l_waiters l) id → x ∈ queue (l_waiters (s_lim s)) id) →
  (∀ p w', l_heap l !! p = Some w' → ∃ w, l_heap (s_lim s) !! p = Some w ∧
     w_authIDs w' = w_authIDs w ∧ (w_claimed w' = false → w_claimed w = false)) →
  (∀ p w, l_heap (s_lim s) !! p = Some w → is_Some (l_heap l !! p)) →
  (∀ id, cnt (l_active (s_lim s)) id ≤ cnt (l_active l) id) →
  queues_inv e {| s_lim := l; s_threads := th |}.
Proof.
  intros [Hv Hb] Hq Hh Hh2 Ha. split; simpl.
  - intros id p Hp. destruct (Hv id p (Hq _ _ Hp)) as (w & Hw & Hid).
    destruct (Hh2 p w Hw) as [w' Hw']. exists w'. split; [done|].
    destruct (Hh p w' Hw') as (w2 & Hw2 & -> & _). congruence.
  - intros id p w' Hp Hw' Hc. destruct (Hh p w' Hw') as (w & Hw & _ & Hcl).
    destruct (Hb id p w (Hq _ _ Hp) Hw (Hcl Hc)). specialize (Ha id). lia.
Qed.

Lemma limitFor_queued e s id p w :
  queues_inv e s → p ∈ queue (l_waiters (s_lim s)) id → l_heap (s_lim s) !! p = Some w →
  effectiveLimit (env_coord e) (limitFor e w id) = eff e id.
Proof.
  intros [Hv _] Hp Hw. destruct (Hv id p Hp) as (w' & Hw' & Hid). simplify_eq.
  unfold limitFor, eff. by rewrite bool_decide_true.
Qed.

(** Releasing a slot keeps everyone who still waits behind a full account. *)
Lemma queues_inv_release e s th id b l :
  queues_inv e s → 0 < cnt (l_active (s_lim s)) id → id ≠ "" →
  ReleaseSlot e (s_lim s) id = (b, l) → queues_inv e {| s_lim := l; s_threads := th |}.
Proof.
  intros Hq Hpos Hid H.
  apply ReleaseSlot_spec in H as (q' & Hws & [H|H]); [|..|done|done].
  - destruct H as (pre & p & w & Hqq & _ & Hw & Hc & Ha & Hh & _).
    eapply queues_inv_mono; [exact Hq|..].
    + intros j x. rewrite Hws, queue_put. destruct (decide (id = j)) as [<-|]; [|done].
      rewrite Hqq. intros Hx. apply elem_of_app. right. by right.
    + intros x w'. rewrite Hh. destruct (decide (p = x)) as [<-|Hne].
      * rewrite list_lookup_insert_eq by (by eapply lookup_lt_Some). intros [= <-]. eauto.
      * rewrite list_lookup_insert_ne by done. eauto.
    + intros x w' Hx. rewrite Hh. apply lookup_lt_is_Some.
      rewrite length_insert. by eapply lookup_lt_Some.
    + intros j. rewrite Ha. done.
  - destruct H as (pre & Hqq & _ & Hh & Hact & Hhead).
    assert (Hsub : ∀ j x, x ∈ queue (l_waiters l) j → x ∈ queue (l_waiters (s_lim s)) j).
    { intros j x. rewrite Hws, queue_put. destruct (decide (id = j)) as [<-|]; [|done].
      rewrite Hqq. intros Hx. apply elem_of_app. by right. }
    split; simpl; intros j p.
    + intros Hp. rewrite Hh. apply (qi_valid _ _ Hq). by apply Hsub.
    + intros w Hp. rewrite Hh. intros Hw Hc.
      pose proof (qi_busy _ _ Hq j p w (Hsub _ _ Hp) Hw Hc) as [H1 H2]. rewrite Hact.
      destruct (decide (id = j)) as [<-|Hne]; [|rewrite same_ne by done; lia].
      rewrite same_eq. rewrite Hws, queue_put, decide_True in Hp by done.
      destruct Hhead as [->|(x & rest & -> & Hx)]; [by apply elem_of_nil in Hp|].
      assert (Hxq : x ∈ queue (l_waiters (s_lim s)) id).
      { rewrite Hqq. apply elem_of_app. right. left. }
      destruct (qi_valid _ _ Hq id x Hxq) as (wx & Hwx & _).
      destruct Hx as [Hx|(w' & Hw' & Hl)]; [congruence|].
      rewrite (limitFor_queued e s id x w' Hq Hxq Hw') in Hl. lia.
Qed.

(** A caller is queued only where every candidate was full. *)
Lemma queues_inv_enqueue e s th cands depth p l :
  queues_inv e s → (∀ id, id ∈ cands → 0 < eff e id ∧ eff e id ≤ cnt (l_active (s_lim s)) id) →
  enqueueLocked e (s_lim s) cands depth = (inr p, l) →
  queues_inv e {| s_lim := l; s_threads := th |}.
Proof.
  intros Hq Hfull H. apply enqueue_spec in H as (Ha & ids & Hids & -> & Hh & Hws).
  assert (Hold : ∀ x w, l_heap (s_lim s) !! x = Some w → l_heap l !! x = Some w).
  { intros x w Hx. rewrite Hh. by apply lookup_app_l_Some. }
  assert (Hnew : l_heap l !! length (l_heap (s_lim s)) = Some (newSlotWaiter ids)).
  { rewrite Hh. by apply list_lookup_middle. }
  split; simpl; intros j x.
  - rewrite Hws. intros [Hx|[-> Hj]]%enqueue_queue; [|eauto].
    destruct (qi_valid _ _ Hq j x Hx) as (w & Hw & ?). eauto.
  - intros w. rewrite Hws, Ha. intros [Hx|[-> Hj]]%enqueue_queue Hw Hc; [|auto].
    destruct (qi_valid _ _ Hq j x Hx) as (w' & Hw' & ?).
    apply Hold in Hw' as Hw2. simplify_eq. by apply (qi_busy _ _ Hq j x w).
Qed.

Lemma queues_inv_waiter e s th p w w' :
  queues_inv e s → l_heap (s_lim s) !! p = Some w → w_authIDs w' = w_authIDs w →
  (w_claimed w' = false → w_claimed w = false) →
  queues_inv e {| s_lim := set_waiter p w' (s_lim s); s_threads := th |}.
Proof.
  intros Hq Hp Hids Hc. eapply queues_inv_mono; [exact Hq|done| | |done]; simpl.
  - intros x wx. destruct (decide (p = x)) as [<-|Hne].
    + rewrite list_lookup_insert_eq by (by eapply lookup_lt_Some). intros [= <-]. eauto.
    + rewrite list_lookup_insert_ne by done. eauto.
  - intros x wx Hx. apply lookup_lt_is_Some. rewrite length_insert. by eapply lookup_lt_Some.
Qed.

Lemma queues_inv_dequeue e s th p :
  queues_inv e s → queues_inv e {| s_lim := dequeue (s_lim s) p; s_threads := th |}.
Proof.
  intros Hq. destruct (dequeue_frame (s_lim s) p) as [Ha Hh].
  eapply queues_inv_mono; [exact Hq|..]; rewrite ?Ha, ?Hh.
  - intros id x. apply dequeue_queue_sub.
  - eauto.
  - eauto.
  - done.
Qed.

Lemma queues_inv_acquire e s th l i :
  queues_inv e s → l_waiters l = l_waiters (s_lim s) → l_heap l = l_heap (s_lim s) →
  (∀ j, cnt (l_active l) j = cnt (l_active (s_lim s)) j + same i j) →
  queues_inv e {| s_lim := l; s_threads := th |}.
Proof.
  intros Hq Hw Hh Ha. eapply queues_inv_mono; [exact Hq|..]; rewrite ?Hw, ?Hh; [done|by eauto|by eauto|].
  intros id. rewrite Ha. pose proof (same_nonneg i id). lia.
Qed.

Lemma usable_nonempty auths id : id ∈ usable_candidates auths → id ≠ "".
Proof.
  unfold usable_candidates. rewrite list_elem_of_In, List.filter_In. intros [_ H] ->. done.
Qed.

Lemma queues_inv_step e s s' :
  env_coord e = None → slots_inv s → queues_inv e s → step e s s' → queues_inv e s'.
Proof.
  intros Hn Hs Hq Hstep. pose proof Hq as [Hv Hb]. destruct Hstep; try congruence;
    unfold spawn, set_thread; try (by apply queues_inv_dequeue).
  - unfold AcquireSlot in *.
    destruct (tryAcquireLocked e (s_lim s) id) as [[] l1] eqn:E; simplify_eq.
    apply tryAcquire_spec in E as (? & ? & _ & Ht). destruct (Ht eq_refl) as (_ & _ & ?).
    by eapply queues_inv_acquire.
  - unfold AcquireSlot in *.
    destruct (tryAcquireLocked e (s_lim s) id) as [[] l1] eqn:E; simplify_eq.
    apply tryAcquire_spec in E as (_ & _ & Hf & _). destruct (Hf eq_refl) as [-> _]. done.
  - apply enter_cases in H0 as [[-> _]|[(i & -> & Ha)|(p & -> & Ha & Henq)]]; [done|..].
    + apply acquire_first_spec in Ha as (? & ? & _ & _ & ?). by eapply queues_inv_acquire.
    + apply acquire_first_spec in Ha as (_ & _ & _ & Hfull).
      eapply queues_inv_enqueue; [done| |done]. intros id Hid. apply Hfull; [done|].
      by eapply usable_nonempty.
  - unfold recv in *. destruct (w_granted w); simplify_eq. by eapply queues_inv_waiter.
  - unfold abandon in *. destruct (w_claimed w) eqn:?; simplify_eq. by eapply queues_inv_waiter.
  - unfold abandon in *. destruct (w_claimed w) eqn:?; simplify_eq.
    unfold recv in *. destruct (w_granted w1); simplify_eq. by eapply queues_inv_waiter.
  - destruct (owned_counted s t (THold id) id Hs H) as [? ?]; [simpl; rewrite same_eq; lia|].
    by eapply queues_inv_release.
  - destruct (owned_counted s t (TReserved id) id Hs H) as [Hc ?]; [simpl; rewrite same_eq; lia|].
    unfold claimClusterSlot in *. rewrite Hn in *. by simplify_eq.
  - unfold claimClusterSlot in *. rewrite Hn in *. by simplify_eq.
  - unfold abandon in *. destruct (w_claimed w) eqn:?; simplify_eq. by eapply queues_inv_waiter.
  - unfold abandon in *. destruct (w_claimed w) eqn:?; simplify_eq.
    unfold recv in *. destruct (w_granted w1); simplify_eq. by eapply queues_inv_waiter.
  - destruct (owned_counted s t (TGiveBack g id) id Hs H) as [? ?];
      [simpl; rewrite same_eq; pose proof (same_nonneg g id); lia|].
    by eapply queues_inv_release.
Qed.

Lemma queues_inv_reach e s : env_coord e = None → reach_const e s → queues_inv e s.
Proof.
  intros Hn H. induction H as [|s s' Hr IH Hstep].
  - split; simpl; intros id p; [|intros w]; intros Hp; by apply elem_of_nil in Hp.
  - eapply queues_inv_step; [done| |done|done]. by eapply reach_const_inv.
Qed.

(** Handing over serves the first live waiter when the account is within its limit. *)
Lemma handoff_serves e id cur (h : list slotWaiter) pre p w post :
  all_claimed h pre → h !! p = Some w → w_claimed w = false →
  (∀ x v, x ∈ pre ++ [p] → h !! x = Some v → id ∈ w_authIDs v) →
  (0 < eff e id → cur ≤ eff e id) →
  handoff e id cur h (pre ++ p :: post) =
    (true, post, <[p := {| w_granted := Some id; w_claimed := true; w_authIDs := w_authIDs w |}]> h).
Proof.
  intros Hpre Hp Hc Hids Hlim.
  assert (Hgo : ∀ x v, x ∈ pre ++ [p] → h !! x = Some v →
    ((0 <? effectiveLimit (env_coord e) (limitFor e v id)) &&
     (effectiveLimit (env_coord e) (limitFor e v id) <? cur))%bool = false).
  { intros x v Hx Hv. unfold limitFor. rewrite bool_decide_true by eauto.
    change (effectiveLimit (env_coord e) (limit_of e id)) with (eff e id).
    apply andb_false_iff. destruct (Z.ltb_spec 0 (eff e id)); [right|by left].
    apply Z.ltb_ge. auto. }
  clear Hids. induction pre as [|x pre IH]; simpl.
  - rewrite Hp, (Hgo p w) by (done || left). unfold tryGrant. by rewrite Hc.
  - destruct (Hpre x) as (v & Hv & Hcv); [left|]. rewrite Hv, (Hgo x v) by (done || left).
    unfold tryGrant. rewrite Hcv. apply IH.
    + intros y Hy. apply Hpre. by right.
    + intros y u Hy. apply Hgo. by right.
Qed.

(** ** Theorems *)

(** C4: in every state the limiter can reach, whatever interleaving of requests,
    timeouts, handoffs, cluster polls and edits of the limits led to it, the
    in-flight count of an account is exactly the number of slots that are owned by a
    request or sit in a waiter's channel: slots neither leak nor are they handed out
    twice. *)
Theorem limiter_conserves_slots s id :
  reach s → GetInFlight (s_lim s) id = outstanding s id.
Proof.
  intros H. apply slots_inv_reach in H. unfold GetInFlight.
  destruct (String.eqb_spec id "") as [->|_]; [|apply H].
  rewrite <- (inv_count s H). symmetry. apply H.
Qed.

(** C5: under a fixed configuration no interleaving of requests takes an account
    with a positive effective limit above that limit. *)
Theorem limiter_respects_limit e s id :
  reach_const e s → 0 < eff e id → GetInFlight (s_lim s) id ≤ eff e id.
Proof.
  intros H Hpos. unfold GetInFlight. destruct (String.eqb id ""); [lia|].
  induction H as [|s s' Hr IH Hstep]; [simpl; unfold cnt; rewrite lookup_empty; simpl; lia|].
  destruct (step_bound e s s' id (reach_const_inv e s Hr) Hstep Hpos); lia.
Qed.

(** When limits or the coordinator are changed while requests run, each step
    taken under the new configuration leaves the in-flight count of a limited account
    at or below the larger of its old value and the new limit: an account above a
    lowered limit drains and never grows. *)
Lemma limiter_drains_to_lowered_limit e s s' id :
  reach s → step e s s' → 0 < eff e id →
  GetInFlight (s_lim s') id ≤ Z.max (GetInFlight (s_lim s) id) (eff e id).
Proof.
  intros Hr Hstep Hpos. unfold GetInFlight. destruct (String.eqb id ""); [lia|].
  destruct (step_bound e s s' id (slots_inv_reach s Hr) Hstep Hpos); lia.
Qed.

(** [ReleaseSlot] is first-in first-out: while the account is within its limit,
    the freed slot goes to the first waiter of its queue that has neither been served
    nor given up; the in-flight count is unchanged, the entries in front of that
    waiter leave the queue and the ones behind it keep their order. *)
Lemma release_serves_longest_waiting e l id pre p w post :
  id ≠ "" → 0 < cnt (l_active l) id →
  (0 < eff e id → cnt (l_active l) id ≤ eff e id) →
  queue (l_waiters l) id = pre ++ p :: post → all_claimed (l_heap l) pre →
  l_heap l !! p = Some w → w_claimed w = false →
  (∀ x v, x ∈ queue (l_waiters l) id → l_heap l !! x = Some v → id ∈ w_authIDs v) →
  ∃ l', ReleaseSlot e l id = (false, l') ∧ l_active l' = l_active l ∧
    queue (l_waiters l') id = post ∧
    (∀ j, j ≠ id → queue (l_waiters l') j = queue (l_waiters l) j) ∧
    l_heap l' = <[p := {| w_granted := Some id; w_claimed := true; w_authIDs := w_authIDs w |}]> (l_heap l).
Proof.
  intros Hid Hpos Hlim Hq Hpre Hp Hc Hids. unfold ReleaseSlot.
  rewrite (proj2 (String.eqb_neq id "")), (proj2 (Z.leb_gt (cnt (l_active l) id) 0)) by done.
  rewrite Hq, (handoff_serves e id _ (l_heap l) pre p w post); [|done..| |done].
  2:{ intros x v Hx. apply Hids. rewrite Hq. apply elem_of_app in Hx as [Hx|Hx];
        apply elem_of_app; [by left|right]. apply list_elem_of_singleton in Hx as ->. left. }
  eexists. split; [done|]. simpl. split; [done|]. split.
  - by rewrite queue_put, decide_True.
  - split; [|done]. intros j Hj. by rewrite queue_put, decide_False.
Qed.

(** Without a coordinator nobody waits while there is room: in every reachable
    state, an account whose queue holds a caller that is still waiting has no
    available slot. *)
Lemma no_waiting_with_room e s id p w :
  env_coord e = None → reach_const e s →
  p ∈ queue (l_waiters (s_lim s)) id → l_heap (s_lim s) !! p = Some w → w_claimed w = false →
  HasAvailableSlot e (s_lim s) id = false.
Proof.
  intros Hn Hr Hp Hw Hc. apply queues_inv_reach in Hr; [|done].
  destruct (qi_busy _ _ Hr id p w Hp Hw Hc) as [H1 H2]. unfold HasAvailableSlot.
  rewrite (proj2 (Z.leb_gt (eff e id) 0)) by done. by apply Z.ltb_ge.
Qed.

(** ** A run of two accounts with one slot each

    Two requests occupy both accounts and a third one waits for either; the first
    request releases its slot, which is handed to the third one at the moment its
    timeout fires. *)

Definition demo_auth (id : string) : Auth :=
  auth_new id "codex" {["concurrency_limit" := "1"]} ∅.
Definition demo_env : Env :=
  {| env_store := {["a" := demo_auth "a"; "b" := demo_auth "b"]}; env_coord := None |}.

Definition demo_a : sys :=
  spawn (THold "a") (snd (AcquireSlot demo_env (s_lim sys_init) "a")) sys_init.
Definition demo_ab : sys :=
  spawn (THold "b") (snd (AcquireSlot demo_env (s_lim demo_a) "b")) demo_a.
Definition demo_wait : sys :=
  spawn (TWait 0) (snd (AcquireSlotWait_enter demo_env (s_lim demo_ab) [Some "a"; Some "b"] false 1000 1))
        demo_ab.
Definition demo_release : sys :=
  set_thread 0 TDone (snd (ReleaseSlot demo_env (s_lim demo_wait) "a")) demo_wait.
Definition demo_taken : sys :=
  set_thread 2 (THold "a")
    (set_waiter 0 {| w_granted := None; w_claimed := true; w_authIDs := ["a"; "b"] |} (s_lim demo_release))
    demo_release.

Lemma demo_a_reach : reach_const demo_env demo_a.
Proof.
  eapply reachc_step; [apply reachc_init|]. apply st_acquire_now; [done|]. by vm_compute.
Qed.

Lemma demo_ab_reach : reach_const demo_env demo_ab.
Proof.
  eapply reachc_step; [apply demo_a_reach|]. apply st_acquire_now; [done|]. by vm_compute.
Qed.

Lemma demo_wait_reach : reach_const demo_env demo_wait.
Proof.
  eapply reachc_step; [apply demo_ab_reach|].
  apply (st_enter demo_env demo_ab [Some "a"; Some "b"] false 1000 1 (Some (AcqWaiter 0))); [done|].
  by vm_compute.
Qed.

Lemma demo_release_step : step demo_env demo_wait demo_release.
Proof. apply (st_release demo_env demo_wait 0 "a" false); by vm_compute. Qed.

Lemma demo_release_reach : reach_const demo_env demo_release.
Proof. eapply reachc_step; [apply demo_wait_reach|apply demo_release_step]. Qed.

Lemma demo_taken_reach : reach_const demo_env demo_taken.
Proof.
  eapply reachc_step; [apply demo_release_reach|].
  set (w := {| w_granted := Some "a"; w_claimed := true; w_authIDs := ["a"; "b"] |}).
  apply (st_give_up_handed demo_env demo_release 2 0 w w); by vm_compute.
Qed.

Lemma reach_const_reach e s : reach_const e s → reach s.
Proof. induction 1; [apply reach_init|by eapply reach_step]. Qed.

(** A request whose timeout fires just as a slot is handed to it keeps that
    slot, but [giveUp] then leaves its waiter in the queues of its other candidates:
    there is a reachable state in which no request is waiting, account [b] still has a
    queue depth of one, and with a queue cap of one the next caller that asks for [b]
    is refused instead of queued. *)
Lemma giveUp_leaves_stale_entry :
  ∃ e s, reach_const e s ∧
    Forall (λ t, t = TDone ∨ ∃ id, t = THold id) (s_threads s) ∧
    QueueDepth (s_lim s) "b" = 1 ∧
    ∃ err, acquireOrEnqueue e (s_lim s) ["b"] 1000 1 = (AcqError err, s_lim s).
Proof.
  exists demo_env, demo_taken. split; [apply demo_taken_reach|]. split; [|split].
  - apply Forall_forall. intros t Ht. vm_compute in Ht.
    repeat (apply elem_of_cons in Ht as [->|Ht]; [by eauto|]). by apply elem_of_nil in Ht.
  - by vm_compute.
  - eexists. by vm_compute.
Qed.

Lemma limiter_conserves_slots_witness :
  GetInFlight (s_lim demo_release) "a" = outstanding demo_release "a" ∧
  outstanding demo_release "a" = 1.
Proof.
  split; [|by vm_compute].
  apply limiter_conserves_slots, (reach_const_reach demo_env), demo_release_reach.
Defined.

Lemma limiter_respects_limit_witness :
  0 < eff demo_env "a" ∧ GetInFlight (s_lim demo_wait) "a" ≤ eff demo_env "a".
Proof.
  assert (H : 0 < eff demo_env "a") by by vm_compute.
  split; [exact H|]. exact (limiter_respects_limit demo_env demo_wait "a" demo_wait_reach H).
Defined.

Lemma limiter_drains_to_lowered_limit_witness :
  GetInFlight (s_lim demo_release) "a" ≤
  Z.max (GetInFlight (s_lim demo_wait) "a") (eff demo_env "a").
Proof.
  apply (limiter_drains_to_lowered_limit demo_env demo_wait).
  - apply (reach_const_reach demo_env), demo_wait_reach.
  - apply demo_release_step.
  - by vm_compute.
Defined.

Lemma release_serves_longest_waiting_witness :
  ∃ l', ReleaseSlot demo_env (s_lim demo_wait) "a" = (false, l') ∧
    l_active l' = l_active (s_lim demo_wait).
Proof.
  destruct (release_serves_longest_waiting demo_env (s_lim demo_wait) "a" [] 0%nat
    (newSlotWaiter ["a"; "b"]) []) as (l' & H1 & H2 & _); [..|by exists l'].
  - done.
  - by vm_compute.
  - by vm_compute.
  - by vm_compute.
  - intros x Hx. by apply elem_of_nil in Hx.
  - by vm_compute.
  - done.
  - intros x v Hx Hv.
    assert (Hq : queue (l_waiters (s_lim demo_wait)) "a" = [0%nat]) by by vm_compute.
    rewrite Hq in Hx. apply list_elem_of_singleton in Hx as ->.
    assert (Hh : l_heap (s_lim demo_wait) !! 0%nat = Some (newSlotWaiter ["a"; "b"])) by by vm_compute.
    rewrite Hh in Hv. injection Hv as <-. left.
Defined.

Lemma no_waiting_with_room_witness : HasAvailableSlot demo_env (s_lim demo_wait) "b" = false.
Proof.
  apply (no_waiting_with_room demo_env demo_wait "b" 0 (newSlotWaiter ["a"; "b"])).
  - done.
  - apply demo_wait_reach.
  - assert (Hq : queue (l_waiters (s_lim demo_wait)) "b" = [0%nat]) by by vm_compute.
    rewrite Hq. left.
  - by vm_compute.
  - done.
Defined.
