(* ===== verification/Aggregate.v ===== *)
(** * Per-model state and its aggregation to the credential

    Models [src/sdk/cliproxy/auth/conductor_result_state.go] (its quota predicates
    are in [Availability]). The loop of [updateAggregatedAvailability] does two
    things to each state: it reads it into the accumulators ([agg_step]) and it
    writes to it ([agg_state]); what it writes to one state is never read for
    another, so the writes are one map over the table. *)
From S2P Require Import Prelude GoModel AuthTypes ModelNames Availability.

(** ** Assignment to the fields of a model state *)

Definition ms_with (s : ModelState) (st : Status) (msg : string) (unav : bool) (next : Time)
    (err : option Error) (q : QuotaState) (upd : Time) : ModelState :=
  {| ms_Status := st; ms_StatusMessage := msg; ms_Unavailable := unav; ms_NextRetryAfter := next;
     ms_LastError := err; ms_Quota := q; ms_UpdatedAt := upd |}.

Definition mset_Unavailable (v : bool) (s : ModelState) : ModelState :=
  ms_with s (ms_Status s) (ms_StatusMessage s) v (ms_NextRetryAfter s) (ms_LastError s)
    (ms_Quota s) (ms_UpdatedAt s).
Definition mset_NextRetryAfter (v : Time) (s : ModelState) : ModelState :=
  ms_with s (ms_Status s) (ms_StatusMessage s) (ms_Unavailable s) v (ms_LastError s)
    (ms_Quota s) (ms_UpdatedAt s).
Definition mset_Status (v : Status) (s : ModelState) : ModelState :=
  ms_with s v (ms_StatusMessage s) (ms_Unavailable s) (ms_NextRetryAfter s) (ms_LastError s)
    (ms_Quota s) (ms_UpdatedAt s).
Definition mset_StatusMessage (v : string) (s : ModelState) : ModelState :=
  ms_with s (ms_Status s) v (ms_Unavailable s) (ms_NextRetryAfter s) (ms_LastError s)
    (ms_Quota s) (ms_UpdatedAt s).
Definition mset_LastError (v : option Error) (s : ModelState) : ModelState :=
  ms_with s (ms_Status s) (ms_StatusMessage s) (ms_Unavailable s) (ms_NextRetryAfter s) v
    (ms_Quota s) (ms_UpdatedAt s).
Definition mset_Quota (v : QuotaState) (s : ModelState) : ModelState :=
  ms_with s (ms_Status s) (ms_StatusMessage s) (ms_Unavailable s) (ms_NextRetryAfter s)
    (ms_LastError s) v (ms_UpdatedAt s).
Definition mset_UpdatedAt (v : Time) (s : ModelState) : ModelState :=
  ms_with s (ms_Status s) (ms_StatusMessage s) (ms_Unavailable s) (ms_NextRetryAfter s)
    (ms_LastError s) (ms_Quota s) v.

(** ** Operations on one state *)

(** [ensureModelState] for a nonempty model: the state and the credential that now
    holds it. *)
Definition ensureModelState (a : Auth) (model : string) : ModelState * Auth :=
  match mjoin (au_ModelStates a !! model) with
  | Some s => (s, a)
  | None => (model_state_new, set_ModelStates (<[model := Some model_state_new]> (au_ModelStates a)) a)
  end.

(** Writing through the pointer [ensureModelState] returned. *)
Definition put_state (model : string) (s : ModelState) (a : Auth) : Auth :=
  set_ModelStates (<[model := Some s]> (au_ModelStates a)) a.

Definition resetModelState (s : ModelState) (now : Time) : ModelState :=
  {| ms_Status := StatusActive; ms_StatusMessage := ""; ms_Unavailable := false;
     ms_NextRetryAfter := time_zero; ms_LastError := None; ms_Quota := quota_zero;
     ms_UpdatedAt := now |}.

Section aggregate.
Context {RO : RangeOrder}.

(** ** Aggregation *)

Record agg := MkAgg {
  ag_allUnavailable : bool;
  ag_earliestRetry : Time;
  ag_quotaExceeded : bool;
  ag_quotaRecover : Time;
  ag_quotaWindow : string;
  ag_quotaWindowMinutes : Z;
  ag_quotaRecoveryRequired : bool;
  ag_maxBackoffLevel : Z
}.

Definition agg_init : agg :=
  {| ag_allUnavailable := true; ag_earliestRetry := time_zero; ag_quotaExceeded := false;
     ag_quotaRecover := time_zero; ag_quotaWindow := ""; ag_quotaWindowMinutes := 0;
     ag_quotaRecoveryRequired := false; ag_maxBackoffLevel := 0 |}.

(** [stateUnavailable] and [earliestRetry] after one state. *)
Definition agg_retry (now : Time) (s : ModelState) (earliest : Time) : bool * Time :=
  if status_eqb (ms_Status s) StatusDisabled then (true, earliest)
  else if quotaNeedsConfirmedRecovery (ms_Quota s) now then
    (true, if (After (ms_NextRetryAfter s) now &&
               (IsZero earliest || Before (ms_NextRetryAfter s) earliest))
           then ms_NextRetryAfter s else earliest)
  else if ms_Unavailable s then
    if IsZero (ms_NextRetryAfter s) then (false, earliest)
    else if After (ms_NextRetryAfter s) now then
      (true, if (IsZero earliest || Before (ms_NextRetryAfter s) earliest)
             then ms_NextRetryAfter s else earliest)
    else (false, earliest)
  else (false, earliest).

Definition agg_step (now : Time) (g : agg) (e : string * option ModelState) : agg :=
  match e.2 with
  | None => g
  | Some s =>
      let '(unavailable, earliest) := agg_retry now s (ag_earliestRetry g) in
      let all := if ! unavailable then false else ag_allUnavailable g in
      let q := ms_Quota s in
      if q_Exceeded q then
        let sooner := (IsZero (ag_quotaRecover g) ||
                       (! IsZero (q_NextRecoverAt q) && Before (q_NextRecoverAt q) (ag_quotaRecover g))) in
        let take := (sooner || String.eqb (ag_quotaWindow g) "") in
        {| ag_allUnavailable := all; ag_earliestRetry := earliest; ag_quotaExceeded := true;
           ag_quotaRecover := if sooner then q_NextRecoverAt q else ag_quotaRecover g;
           ag_quotaWindow := if take then q_Window q else ag_quotaWindow g;
           ag_quotaWindowMinutes := if take then q_WindowMinutes q else ag_quotaWindowMinutes g;
           ag_quotaRecoveryRequired := (ag_quotaRecoveryRequired g || q_RecoveryRequired q);
           ag_maxBackoffLevel := if ag_maxBackoffLevel g <? q_BackoffLevel q
                                 then q_BackoffLevel q else ag_maxBackoffLevel g |}
      else
        {| ag_allUnavailable := all; ag_earliestRetry := earliest;
           ag_quotaExceeded := ag_quotaExceeded g; ag_quotaRecover := ag_quotaRecover g;
           ag_quotaWindow := ag_quotaWindow g; ag_quotaWindowMinutes := ag_quotaWindowMinutes g;
           ag_quotaRecoveryRequired := ag_quotaRecoveryRequired g;
           ag_maxBackoffLevel := ag_maxBackoffLevel g |}
  end.

(** What the loop writes to a state: a probe-gated one is marked unavailable, an
    elapsed retry deadline is cleared. *)
Definition agg_state (now : Time) (s : ModelState) : ModelState :=
  if status_eqb (ms_Status s) StatusDisabled then s
  else if quotaNeedsConfirmedRecovery (ms_Quota s) now then mset_Unavailable true s
  else if ms_Unavailable s then
    if IsZero (ms_NextRetryAfter s) then s
    else if After (ms_NextRetryAfter s) now then s
    else mset_NextRetryAfter time_zero (mset_Unavailable false s)
  else s.

Definition quotaOnlyModelUnavailability (a : Auth) (now : Time) : bool :=
  forallb (λ e : string * option ModelState,
    match e.2 with
    | None => true
    | Some s =>
        if status_eqb (ms_Status s) StatusDisabled then false
        else if (ms_Unavailable s && ! activeModelQuotaCooldown s now) then false
        else true
    end) (range_order 4 (au_ModelStates a)).

(** The Antigravity part, after the loop's results are on the credential: the
    credential and [quotaExceeded]. *)
Definition aggregate_antigravity (a : Auth) (allUnavailable : bool) (now : Time) : Auth * bool :=
  let cooling fam := existsb (family_cooling fam now) (range_order 5 (au_ModelStates a)) in
  let allFamiliesExceeded := (cooling FamilyGemini && cooling FamilyClaude) in
  if ! allFamiliesExceeded then
    let quotaOnly := quotaOnlyModelUnavailability a now in
    let allUnavailable := if quotaOnly then false else allUnavailable in
    let a := if quotaOnly then set_NextRetryAfter time_zero (set_Unavailable false a) else a in
    let a := if (status_eqb (au_Status a) StatusError && ! allUnavailable)
             then set_LastError None (set_StatusMessage "" (set_Status StatusActive a)) else a in
    (a, false)
  else (a, true).

(** The credential after the loop and the assignments that follow it. *)
Definition agg_base (a : Auth) (now : Time) (g : agg) : Auth :=
  set_NextRetryAfter (if ag_allUnavailable g then ag_earliestRetry g else time_zero)
    (set_Unavailable (ag_allUnavailable g)
      (set_ModelStates (fmap (M := gmap string) (fmap (agg_state now)) (au_ModelStates a)) a)).

Definition agg_quota (g : agg) : QuotaState :=
  {| q_Exceeded := true; q_RecoveryRequired := ag_quotaRecoveryRequired g; q_Reason := "quota";
     q_Window := ag_quotaWindow g; q_WindowMinutes := ag_quotaWindowMinutes g;
     q_NextRecoverAt := ag_quotaRecover g; q_BackoffLevel := ag_maxBackoffLevel g |}.

Definition updateAggregatedAvailability (a : Auth) (now : Time) : Auth :=
  if bool_decide (size (au_ModelStates a) = 0%nat) then a
  else
    let g := foldl (agg_step now) agg_init (range_order 3 (au_ModelStates a)) in
    let a := agg_base a now g in
    let '(a, quotaExceeded) :=
      if IsAntigravityAuth a then aggregate_antigravity a (ag_allUnavailable g) now
      else (a, ag_quotaExceeded g) in
    set_Quota (if quotaExceeded then agg_quota g else quota_zero) a.

(** ** Other readings of the state *)

Definition activeModelRuntimeState (s : ModelState) (now : Time) : bool :=
  if activeModelQuotaCooldown s now then true
  else if ms_Unavailable s then (IsZero (ms_NextRetryAfter s) || After (ms_NextRetryAfter s) now)
  else if (status_eqb (ms_Status s) StatusError && bool_decide (ms_LastError s ≠ None))
       then (IsZero (ms_NextRetryAfter s) || After (ms_NextRetryAfter s) now)
  else false.

Definition activeAuthRuntimeState (a : Auth) (now : Time) : bool :=
  if activeAuthQuotaCooldown a now then true
  else if au_Unavailable a then (IsZero (au_NextRetryAfter a) || After (au_NextRetryAfter a) now)
  else if (status_eqb (au_Status a) StatusError && bool_decide (au_LastError a ≠ None))
       then (IsZero (au_NextRetryAfter a) || After (au_NextRetryAfter a) now)
  else false.

(** One state counts as an error. *)
Definition state_has_error (now : Time) (s : ModelState) : bool :=
  if bool_decide (ms_LastError s ≠ None) then true
  else (status_eqb (ms_Status s) StatusError &&
        (quotaNeedsConfirmedRecovery (ms_Quota s) now ||
         (ms_Unavailable s && (IsZero (ms_NextRetryAfter s) || After (ms_NextRetryAfter s) now)))).

Definition hasModelError (a : Auth) (now : Time) : bool :=
  existsb (λ e : string * option ModelState,
    match e.2 with Some s => state_has_error now s | None => false end)
    (range_order 6 (au_ModelStates a)).

Definition clearAuthStateOnSuccess (a : Auth) (now : Time) : Auth :=
  set_UpdatedAt now (set_NextRetryAfter time_zero (set_LastError None (set_Quota quota_zero
    (set_StatusMessage "" (set_Status StatusActive (set_Unavailable false a)))))).

End aggregate.

(** ** What the loop computes *)

(** A state that keeps its model from being used at [now]. *)
Definition held_down (now : Time) (s : ModelState) : bool :=
  (status_eqb (ms_Status s) StatusDisabled || quotaNeedsConfirmedRecovery (ms_Quota s) now ||
   (ms_Unavailable s && ! IsZero (ms_NextRetryAfter s) && After (ms_NextRetryAfter s) now)).

(** The moment at which a held-down model is to be retried, if it has one. *)
Definition retry_deadline (now : Time) (s : ModelState) : option Time :=
  if status_eqb (ms_Status s) StatusDisabled then None
  else if (quotaNeedsConfirmedRecovery (ms_Quota s) now || ms_Unavailable s)
       then if After (ms_NextRetryAfter s) now then Some (ms_NextRetryAfter s) else None
  else None.

Definition recover_deadline (s : ModelState) : option Time :=
  if q_Exceeded (ms_Quota s) then Some (q_NextRecoverAt (ms_Quota s)) else None.

(** The states of a table, without the nil entries. *)
Definition states (l : list (string * option ModelState)) : list ModelState := omap snd l.

Lemma agg_retry_spec now s earliest :
  0 ≤ now →
  agg_retry now s earliest =
  (held_down now s,
   match retry_deadline now s with Some t => earlier earliest t | None => earliest end).
Proof.
  intros Hnow. unfold agg_retry, held_down, retry_deadline, earlier, After, IsZero.
  destruct (status_eqb (ms_Status s) StatusDisabled); [done|]. simpl.
  destruct (quotaNeedsConfirmedRecovery (ms_Quota s) now); simpl.
  { by destruct (Z.ltb_spec now (ms_NextRetryAfter s)); simpl. }
  destruct (ms_Unavailable s); simpl; [|done].
  destruct (Z.eqb_spec (ms_NextRetryAfter s) 0) as [->|].
  { destruct (Z.ltb_spec now 0); [lia|done]. }
  by destruct (Z.ltb_spec now (ms_NextRetryAfter s)).
Qed.

Lemma states_snoc l e :
  states (l ++ [e]) = states l ++ match e.2 with Some s => [s] | None => [] end.
Proof. unfold states. rewrite omap_app. simpl. by destruct (e.2). Qed.

Lemma retry_deadline_pos now s t : 0 ≤ now → retry_deadline now s = Some t → IsZero t = false.
Proof.
  unfold retry_deadline, After, IsZero. intros Hn. case_if; [done|]. case_if; [|done].
  case_if; [|done]. intros [= <-]. zbool. apply Z.eqb_neq. lia.
Qed.

Lemma recover_merge r t :
  (if (IsZero r || (! IsZero t && Before t r))%bool then t else r) =
  (if IsZero t then r else earlier r t).
Proof.
  unfold earlier, IsZero, Before.
  destruct (Z.eqb_spec r 0), (Z.eqb_spec t 0), (Z.ltb_spec t r); simpl; congruence.
Qed.

(** The accumulators as functions of the list of states. *)
Lemma agg_fold_spec now l :
  0 ≤ now →
  let g := foldl (agg_step now) agg_init l in
  ag_allUnavailable g = forallb (held_down now) (states l) ∧
  ag_earliestRetry g = earliest_of (omap (retry_deadline now) (states l)) ∧
  ag_quotaExceeded g = existsb (λ s, q_Exceeded (ms_Quota s)) (states l) ∧
  ag_quotaRecover g = earliest_of (omap recover_deadline (states l)) ∧
  ag_quotaRecoveryRequired g =
    existsb (λ s, (q_Exceeded (ms_Quota s) && q_RecoveryRequired (ms_Quota s))) (states l) ∧
  0 ≤ ag_maxBackoffLevel g ∧
  ∀ s, s ∈ states l → q_Exceeded (ms_Quota s) = true →
    q_BackoffLevel (ms_Quota s) ≤ ag_maxBackoffLevel g.
Proof.
  intros Hn. induction l as [|e l IH] using rev_ind; intros g.
  { split; [done|]. split; [done|]. split; [done|]. split; [done|]. split; [done|].
    split; [done|]. intros s Hs. by apply elem_of_nil in Hs. }
  unfold g. rewrite foldl_snoc, states_snoc. clear g.
  destruct IH as (H1 & H2 & H3 & H4 & H5 & H6 & H7).
  set (g := foldl (agg_step now) agg_init l) in *.
  unfold agg_step. destruct e as [k [s|]]; simpl; [|rewrite app_nil_r; done].
  rewrite agg_retry_spec by done.
  rewrite forallb_app, !existsb_app, !omap_app. simpl. rewrite !orb_false_r, andb_true_r.
  rewrite <- H1, <- H3, <- H5.
  assert (Hr : match retry_deadline now s with
      Some t => earlier (ag_earliestRetry g) t | None => ag_earliestRetry g end =
      earliest_of (omap (retry_deadline now) (states l) ++
        match retry_deadline now s with Some y => [y] | None => [] end)).
  { destruct (retry_deadline now s) as [t|] eqn:E; [|by rewrite app_nil_r].
    by rewrite earliest_of_snoc, (retry_deadline_pos now s t Hn E), H2. }
  assert (Hrec : recover_deadline s =
    if q_Exceeded (ms_Quota s) then Some (q_NextRecoverAt (ms_Quota s)) else None) by done.
  rewrite Hrec. destruct (q_Exceeded (ms_Quota s)) eqn:Hex; simpl.
  - rewrite recover_merge, earliest_of_snoc, <- H4, Hr.
    split; [by destruct (held_down now s), (ag_allUnavailable g)|].
    split; [done|]. split; [by rewrite orb_true_r|].
    split; [done|]. split; [done|]. split; [case_if; zbool; lia|].
    intros x Hx Hxe. apply elem_of_app in Hx as [Hx|Hx].
    + specialize (H7 x Hx Hxe). case_if; zbool; lia.
    + apply list_elem_of_singleton in Hx as ->. case_if; zbool; lia.
  - rewrite app_nil_r, <- H4, Hr, !orb_false_r.
    split; [by destruct (held_down now s), (ag_allUnavailable g)|].
    split; [done|]. split; [done|]. split; [done|]. split; [done|]. split; [done|].
    intros x Hx Hxe. apply elem_of_app in Hx as [Hx|Hx]; [auto|].
    apply list_elem_of_singleton in Hx as ->. congruence.
Qed.

(** ** Order and framing *)

Lemma earliest_of_ext l l' : (∀ t, t ∈ l ↔ t ∈ l') → earliest_of l = earliest_of l'.
Proof.
  intros Hl. destruct (earliest_of_spec l) as [[H1 H2]|(H1 & H2 & H3)],
    (earliest_of_spec l') as [[H1' H2']|(H1' & H2' & H3')].
  - congruence.
  - apply Hl in H2'. by apply H2 in H2'.
  - apply Hl in H2. by apply H2' in H2.
  - apply Z.le_antisymm; [apply H3|apply H3']; try done; by apply Hl.
Qed.

(** The states a credential records. *)
Definition model_states (a : Auth) : list ModelState := states (map_to_list (au_ModelStates a)).

Section aggregate_lemmas.
Context {RO : RangeOrder}.

Lemma elem_of_states site (ms : gmap string (option ModelState)) s :
  s ∈ states (range_order site ms) ↔ ∃ m, ms !! m = Some (Some s).
Proof.
  unfold states. rewrite list_elem_of_omap. split.
  - intros ([m o] & Hin & Ho). simpl in Ho. subst. exists m. by apply (elem_of_range site).
  - intros (m & Hm). exists (m, Some s). split; [|done]. by apply elem_of_range.
Qed.

Lemma elem_of_model_states a s :
  s ∈ model_states a ↔ ∃ m, au_ModelStates a !! m = Some (Some s).
Proof.
  unfold model_states, states. rewrite list_elem_of_omap. split.
  - intros ([m o] & Hin & Ho). simpl in Ho. subst. exists m. by apply elem_of_map_to_list.
  - intros (m & Hm). exists (m, Some s). split; [|done]. by apply elem_of_map_to_list.
Qed.

Lemma states_range site a s : s ∈ states (range_order site (au_ModelStates a)) ↔ s ∈ model_states a.
Proof. by rewrite elem_of_states, elem_of_model_states. Qed.

Lemma earliest_range (f : ModelState → option Time) site a :
  earliest_of (omap f (states (range_order site (au_ModelStates a)))) =
  earliest_of (omap f (model_states a)).
Proof.
  apply earliest_of_ext. intros t. rewrite !list_elem_of_omap.
  split; intros (s & Hs & Hf); exists s; (split; [|done]); by apply (states_range site).
Qed.

Lemma existsb_states f site a :
  existsb f (states (range_order site (au_ModelStates a))) = true ↔
  ∃ s, s ∈ model_states a ∧ f s = true.
Proof.
  rewrite existsb_exists. split; intros (s & Hs & Hf); exists s; (split; [|done]).
  - by apply (states_range site), list_elem_of_In.
  - by apply list_elem_of_In, states_range.
Qed.

Lemma forallb_states f site a :
  forallb f (states (range_order site (au_ModelStates a))) = true ↔
  ∀ s, s ∈ model_states a → f s = true.
Proof.
  rewrite forallb_forall. split; intros H s Hs; apply H.
  - by apply list_elem_of_In, states_range.
  - by apply (states_range site), list_elem_of_In.
Qed.

Lemma antigravity_frame a allU now :
  let a' := (aggregate_antigravity a allU now).1 in
  au_ID a' = au_ID a ∧ au_Provider a' = au_Provider a ∧ au_Disabled a' = au_Disabled a ∧
  au_Attributes a' = au_Attributes a ∧ au_Metadata a' = au_Metadata a ∧
  au_ModelStates a' = au_ModelStates a ∧ au_UpdatedAt a' = au_UpdatedAt a ∧
  au_NextRefreshAfter a' = au_NextRefreshAfter a ∧
  (au_Status a' = au_Status a ∨ au_Status a' = StatusActive).
Proof.
  unfold aggregate_antigravity. cbv zeta. case_if; [|repeat split; by left].
  case_if; case_if; repeat split; auto.
Qed.

(** Aggregation writes only the availability fields. *)
Lemma aggregate_frame a now :
  let a' := updateAggregatedAvailability a now in
  au_ID a' = au_ID a ∧ au_Provider a' = au_Provider a ∧ au_Disabled a' = au_Disabled a ∧
  au_Attributes a' = au_Attributes a ∧ au_Metadata a' = au_Metadata a ∧
  au_ModelStates a' = fmap (M := gmap string) (fmap (agg_state now)) (au_ModelStates a) ∧
  au_UpdatedAt a' = au_UpdatedAt a ∧ au_NextRefreshAfter a' = au_NextRefreshAfter a ∧
  (au_Status a' = au_Status a ∨ au_Status a' = StatusActive).
Proof.
  unfold updateAggregatedAvailability. destruct (bool_decide _) eqn:Hs.
  { apply bool_decide_eq_true, map_size_empty_inv in Hs. rewrite Hs, fmap_empty.
    repeat split; by left. }
  cbv zeta. set (g := foldl _ _ _).
  destruct (IsAntigravityAuth (agg_base a now g)).
  - pose proof (antigravity_frame (agg_base a now g) (ag_allUnavailable g) now) as H.
    by destruct (aggregate_antigravity _ _ _).
  - simpl. repeat split; by left.
Qed.

Lemma aggregate_antigravity_iff a now :
  IsAntigravityAuth (updateAggregatedAvailability a now) = IsAntigravityAuth a.
Proof.
  destruct (aggregate_frame a now) as (_ & Hp & _ & Ha & Hm & _).
  unfold IsAntigravityAuth. by rewrite Hp, ?Ha, ?Hm.
Qed.

Lemma agg_state_quota now s : ms_Quota (agg_state now s) = ms_Quota s.
Proof. unfold agg_state. repeat case_if; done. Qed.

Lemma agg_state_cooldown now s :
  activeModelQuotaCooldown (agg_state now s) now = activeModelQuotaCooldown s now.
Proof.
  unfold activeModelQuotaCooldown. rewrite agg_state_quota. unfold agg_state.
  repeat (case_if; try done). unfold activeQuotaCooldown. simpl.
  repeat (case_if; try done). unfold IsZero, After in *. simpl.
  destruct (ms_NextRetryAfter s =? 0); [done|]. simpl.
  by destruct (now <? ms_NextRetryAfter s).
Qed.

Lemma agg_cooling fam now site a :
  existsb (family_cooling fam now)
    (range_order site (fmap (M := gmap string) (fmap (agg_state now)) (au_ModelStates a))) = true ↔
  ∃ m s, au_ModelStates a !! m = Some (Some s) ∧ ModelAntigravityQuotaFamily m = fam ∧
    q_Exceeded (ms_Quota s) = true ∧ activeModelQuotaCooldown s now = true.
Proof.
  rewrite existsb_range. unfold family_cooling. split.
  - intros (m & o & Hm & Hf). rewrite lookup_fmap in Hm.
    destruct (au_ModelStates a !! m) as [[s|]|] eqn:E; simplify_eq/=; [|done..].
    rewrite agg_state_quota, agg_state_cooldown in Hf.
    destruct (q_Exceeded (ms_Quota s)) eqn:Hx; [|done]. simpl in Hf.
    apply andb_true_iff in Hf as [H1 H2]. apply bool_decide_eq_true in H1. eauto 6.
  - intros (m & s & Hm & Hfam & Hx & Hact). exists m, (Some (agg_state now s)).
    rewrite lookup_fmap, Hm. split; [done|]. simpl.
    by rewrite agg_state_quota, agg_state_cooldown, Hx, bool_decide_true, Hact.
Qed.
End aggregate_lemmas.

(** ** Theorems *)

Section aggregate_theorems.
Context {RO : RangeOrder}.

Lemma base_antigravity a now g : IsAntigravityAuth (agg_base a now g) = IsAntigravityAuth a.
Proof. done. Qed.

(** Availability of a credential outside Antigravity, from the states of its models. *)
Lemma aggregate_spec a now :
  0 ≤ now → au_ModelStates a ≠ ∅ → IsAntigravityAuth a = false →
  let a' := updateAggregatedAvailability a now in
  (au_Unavailable a' = true ↔ ∀ s, s ∈ model_states a → held_down now s = true) ∧
  au_NextRetryAfter a' =
    (if au_Unavailable a' then earliest_of (omap (retry_deadline now) (model_states a)) else 0) ∧
  (q_Exceeded (au_Quota a') = true ↔ ∃ s, s ∈ model_states a ∧ q_Exceeded (ms_Quota s) = true) ∧
  q_NextRecoverAt (au_Quota a') = earliest_of (omap recover_deadline (model_states a)) ∧
  (q_RecoveryRequired (au_Quota a') = true ↔ ∃ s, s ∈ model_states a ∧
     q_Exceeded (ms_Quota s) = true ∧ q_RecoveryRequired (ms_Quota s) = true).
Proof.
  intros Hn Hne Hanti. cbv zeta. unfold updateAggregatedAvailability.
  destruct (bool_decide _) eqn:Hs.
  { by apply bool_decide_eq_true, map_size_empty_inv in Hs. }
  cbv zeta. set (g := foldl _ _ _). rewrite base_antigravity, Hanti.
  destruct (agg_fold_spec now (range_order 3 (au_ModelStates a)) Hn) as (H1 & H2 & H3 & H4 & H5 & _).
  fold g in H1, H2, H3, H4, H5. rewrite earliest_range in H2, H4. simpl.
  split; [by rewrite H1, forallb_states|]. split; [by rewrite H2|].
  destruct (ag_quotaExceeded g) eqn:Eq; simpl.
  - symmetry in H3. apply existsb_states in H3.
    split; [done|]. split; [done|]. rewrite H5, existsb_states.
    setoid_rewrite andb_true_iff. done.
  - assert (Hno : ∀ s, s ∈ model_states a → q_Exceeded (ms_Quota s) = false).
    { intros s Hin. destruct (q_Exceeded (ms_Quota s)) eqn:E; [|done]. symmetry in H3.
      apply not_true_iff_false in H3. destruct H3. apply existsb_states. eauto. }
    split; [|split].
    + split; [done|]. intros (s & Hin & Hx). rewrite Hno in Hx; done.
    + rewrite (earliest_of_ext _ []); [done|]. intros t. rewrite list_elem_of_omap.
      split; [|intros Ht; by apply elem_of_nil in Ht].
      intros (s & Hin & Hx). unfold recover_deadline in Hx. rewrite Hno in Hx; done.
    + split; [done|]. intros (s & Hin & Hx & _). rewrite Hno in Hx; done.
Qed.

(** The recorded states after aggregation carry the same quota deadlines. *)
Lemma aggregate_recover a now :
  0 ≤ now → au_ModelStates a ≠ ∅ → IsAntigravityAuth a = false →
  q_NextRecoverAt (au_Quota (updateAggregatedAvailability a now)) =
  earliest_of (omap recover_deadline (model_states (updateAggregatedAvailability a now))).
Proof.
  intros Hn Hne Hanti. destruct (aggregate_spec a now Hn Hne Hanti) as (_ & _ & _ & -> & _).
  destruct (aggregate_frame a now) as (_ & _ & _ & _ & _ & Hms & _).
  assert (Hrec : ∀ s, recover_deadline (agg_state now s) = recover_deadline s).
  { intros s. unfold recover_deadline. by rewrite agg_state_quota. }
  apply earliest_of_ext. intros t. rewrite !list_elem_of_omap.
  split; intros (s & Hs & Ht).
  - apply elem_of_model_states in Hs as [m Hm]. exists (agg_state now s). rewrite Hrec.
    split; [|done]. apply elem_of_model_states. exists m. by rewrite Hms, lookup_fmap, Hm.
  - apply elem_of_model_states in Hs as [m Hm]. rewrite Hms, lookup_fmap in Hm.
    destruct (au_ModelStates a !! m) as [[s0|]|] eqn:E; simplify_eq/=.
    rewrite Hrec in Ht. exists s0. split; [|done]. apply elem_of_model_states. eauto.
Qed.

(** C30: [updateAggregatedAvailability] on a credential outside Antigravity with at
    least one recorded model, in whatever order the map is walked: the credential is
    unavailable exactly when every model is disabled, behind a probe-confirmed quota
    gate or waiting for a retry; its retry time is then the earliest of its models'
    and zero otherwise; its quota is exceeded exactly when some model's is, with the
    earliest known recovery time, and it needs a confirmed recovery exactly when one
    of those models does. *)
Theorem updateAggregatedAvailability_correct a now :
  0 ≤ now → au_ModelStates a ≠ ∅ → IsAntigravityAuth a = false →
  let a' := updateAggregatedAvailability a now in
  (au_Unavailable a' = true ↔ ∀ s, s ∈ model_states a → held_down now s = true) ∧
  au_NextRetryAfter a' =
    (if au_Unavailable a' then earliest_of (omap (retry_deadline now) (model_states a)) else 0) ∧
  (q_Exceeded (au_Quota a') = true ↔ ∃ s, s ∈ model_states a ∧ q_Exceeded (ms_Quota s) = true) ∧
  q_NextRecoverAt (au_Quota a') = earliest_of (omap recover_deadline (model_states a)) ∧
  (q_RecoveryRequired (au_Quota a') = true ↔ ∃ s, s ∈ model_states a ∧
     q_Exceeded (ms_Quota s) = true ∧ q_RecoveryRequired (ms_Quota s) = true).
Proof. apply aggregate_spec. Qed.

(** An Antigravity credential counts as out of quota only when a Gemini model
    and a Claude model are both in an active quota cooldown; while one of the two
    pools can still serve and every model that is down is down for quota, the
    credential is available, has no retry time and does not report an error. *)
Lemma antigravity_partial_exhaustion a now :
  au_ModelStates a ≠ ∅ → IsAntigravityAuth a = true →
  let a' := updateAggregatedAvailability a now in
  let exhausted fam := ∃ m s, au_ModelStates a !! m = Some (Some s) ∧
    ModelAntigravityQuotaFamily m = fam ∧ q_Exceeded (ms_Quota s) = true ∧
    activeModelQuotaCooldown s now = true in
  (q_Exceeded (au_Quota a') = true ↔ exhausted FamilyGemini ∧ exhausted FamilyClaude) ∧
  (q_Exceeded (au_Quota a') = false → quotaOnlyModelUnavailability a' now = true →
   au_Unavailable a' = false ∧ au_NextRetryAfter a' = 0 ∧ au_Status a' ≠ StatusError).
Proof.
  intros Hne Hanti. cbv zeta.
  pose proof (aggregate_frame a now) as (_ & _ & _ & _ & _ & Hms & _).
  unfold quotaOnlyModelUnavailability. rewrite Hms. clear Hms.
  unfold updateAggregatedAvailability. destruct (bool_decide _) eqn:Hs.
  { by apply bool_decide_eq_true, map_size_empty_inv in Hs. }
  cbv zeta. set (g := foldl _ _ _). rewrite base_antigravity, Hanti.
  unfold aggregate_antigravity, quotaOnlyModelUnavailability. cbv zeta. simpl au_ModelStates.
  rewrite <- (agg_cooling FamilyGemini now 5 a), <- (agg_cooling FamilyClaude now 5 a).
  set (G := existsb (family_cooling FamilyGemini now) _).
  set (C := existsb (family_cooling FamilyClaude now) _).
  set (Q := forallb _ _). destruct G, C; simpl; (split; [intuition congruence|]); try done.
  all: intros _ ->; simpl; rewrite andb_true_r; unfold status_eqb;
    (destruct (bool_decide (au_Status a = StatusError)) eqn:E; [done|]);
    by apply bool_decide_eq_false in E.
Qed.

End aggregate_theorems.

(** ** Concrete credentials *)

Definition cooling_state (until : Time) (quota : bool) : ModelState :=
  {| ms_Status := StatusError; ms_StatusMessage := "quota exhausted"; ms_Unavailable := true;
     ms_NextRetryAfter := until; ms_LastError := None;
     ms_Quota := {| q_Exceeded := quota; q_RecoveryRequired := false; q_Reason := "quota"; q_Window := "";
                    q_WindowMinutes := 0; q_NextRecoverAt := if quota then until else 0;
                    q_BackoffLevel := 1 |};
     ms_UpdatedAt := 0 |}.

Definition two_models (provider : string) : Auth :=
  set_Status StatusError (set_ModelStates
    {["gemini-2.5-pro" := Some (cooling_state 500 true); "gpt-5" := Some (cooling_state 300 false)]}
    (auth_new "acct" provider ∅ ∅)).

Lemma updateAggregatedAvailability_correct_witness :
  let a' := @updateAggregatedAvailability listing_order (two_models "codex") 100 in
  au_NextRetryAfter a' = 300 ∧ q_NextRecoverAt (au_Quota a') = 500.
Proof.
  destruct (@updateAggregatedAvailability_correct listing_order (two_models "codex") 100)
    as (_ & H2 & _ & H4 & _); [done|done|by vm_compute|].
  split; [rewrite H2|rewrite H4]; by vm_compute.
Defined.

Definition one_pool : Auth :=
  set_Status StatusError (set_ModelStates
    {["gemini-2.5-pro" := Some (cooling_state 500 true)]} (auth_new "acct" "antigravity" ∅ ∅)).

Lemma antigravity_partial_exhaustion_witness :
  let a' := @updateAggregatedAvailability listing_order one_pool 100 in
  au_Unavailable a' = false ∧ au_NextRetryAfter a' = 0 ∧ au_Status a' ≠ StatusError.
Proof.
  destruct (@antigravity_partial_exhaustion listing_order one_pool 100) as [_ H];
    [done|by vm_compute|]. apply H; by vm_compute.
Defined.
