(* ===== verification/QuotaPersist.v ===== *)
(** * Quota gates that survive a restart

    Models [src/sdk/cliproxy/auth/quota_persistence.go] and the decision of
    [conductor_persistence.go] whether a credential is saved. The snapshot is kept in
    the credential's metadata as the JSON object its Go struct marshals to: a time is
    [ATime], a nested object [AMap]. A credential with nil metadata is never saved;
    the metadata of the model is never nil. *)
From S2P Require Import Prelude GoModel AuthTypes ModelNames Availability Aggregate.

Definition persistedQuotaRuntimeMetadataKey : string := "_cli_proxy_runtime_quota".

(** [quotaRecoveryGateArmed] *)
Definition quotaRecoveryGateArmed (q : QuotaState) : bool := (q_Exceeded q && q_RecoveryRequired q).

Record persistedQuotaModelRuntime := MkPersistedModel {
  pe_Status : Status; pe_StatusMessage : string; pe_NextRetryAfter : Time; pe_Quota : QuotaState
}.

Record persistedQuotaRuntime := MkPersisted {
  pq_self : persistedQuotaModelRuntime;
  pq_ModelStates : gmap string persistedQuotaModelRuntime
}.

(** ** JSON *)

Definition status_string (s : Status) : string :=
  match s with
  | StatusUnknown => "unknown" | StatusActive => "active" | StatusPending => "pending"
  | StatusRefreshing => "refreshing" | StatusError => "error" | StatusDisabled => "disabled"
  | StatusOther s => s
  end.

Definition status_of_string (s : string) : Status :=
  if String.eqb s "unknown" then StatusUnknown else if String.eqb s "active" then StatusActive
  else if String.eqb s "pending" then StatusPending else if String.eqb s "refreshing" then StatusRefreshing
  else if String.eqb s "error" then StatusError else if String.eqb s "disabled" then StatusDisabled
  else StatusOther s.

(** A member dropped by [omitempty] when it is empty. *)
Definition member (omit : bool) (k : string) (v : GoAny) (m : gmap string GoAny) : gmap string GoAny :=
  if omit then m else <[k := v]> m.

Definition quota_json (q : QuotaState) : gmap string GoAny :=
  member false "exceeded" (ABool (q_Exceeded q))
  (member (! q_RecoveryRequired q) "recovery_required" (ABool true)
  (member (String.eqb (q_Reason q) "") "reason" (AString (q_Reason q))
  (member (String.eqb (q_Window q) "") "window" (AString (q_Window q))
  (member (q_WindowMinutes q =? 0) "window_minutes" (AInt (q_WindowMinutes q))
  (member false "next_recover_at" (ATime (q_NextRecoverAt q))
  (member (q_BackoffLevel q =? 0) "backoff_level" (AInt (q_BackoffLevel q)) ∅)))))).

Definition model_json (p : persistedQuotaModelRuntime) : gmap string GoAny :=
  member (String.eqb (status_string (pe_Status p)) "") "status" (AString (status_string (pe_Status p)))
  (member (String.eqb (pe_StatusMessage p) "") "status_message" (AString (pe_StatusMessage p))
  (member false "next_retry_after" (ATime (pe_NextRetryAfter p))
  (member false "quota" (AMap (quota_json (pe_Quota p))) ∅))).

Definition runtime_json (p : persistedQuotaRuntime) : gmap string GoAny :=
  member (bool_decide (size (pq_ModelStates p) = 0%nat)) "model_states"
    (AMap (fmap (M := gmap string) (λ x, AMap (model_json x)) (pq_ModelStates p)))
    (model_json (pq_self p)).

(** Decoding one member into a typed field; [None] is an error of [json.Unmarshal]. *)
Definition json_string (v : option GoAny) : option string :=
  match v with None | Some ANil => Some "" | Some (AString s) => Some s | _ => None end.
Definition json_bool (v : option GoAny) : option bool :=
  match v with None | Some ANil => Some false | Some (ABool b) => Some b | _ => None end.
Definition json_time (v : option GoAny) : option Time :=
  match v with None | Some ANil => Some time_zero | Some (ATime t) => Some t | _ => None end.
Definition json_int (v : option GoAny) : option Z :=
  match v with
  | None | Some ANil => Some 0
  | Some (AInt z) | Some (AInt64 z) => Some z
  | Some (AFloat f) =>
      let z := int_of_f64 f in
      if (f64_ge f (f64_of_int z) && f64_ge (f64_of_int z) f) then Some z else None
  | _ => None
  end.

Definition quota_of_json (v : option GoAny) : option QuotaState :=
  match v with
  | None | Some ANil => Some quota_zero
  | Some (AMap m) =>
      e ← json_bool (m !! "exceeded"); r ← json_bool (m !! "recovery_required");
      rs ← json_string (m !! "reason"); w ← json_string (m !! "window");
      wm ← json_int (m !! "window_minutes"); t ← json_time (m !! "next_recover_at");
      l ← json_int (m !! "backoff_level");
      Some {| q_Exceeded := e; q_RecoveryRequired := r; q_Reason := rs; q_Window := w;
              q_WindowMinutes := wm; q_NextRecoverAt := t; q_BackoffLevel := l |}
  | _ => None
  end.

Definition model_of_json (m : gmap string GoAny) : option persistedQuotaModelRuntime :=
  s ← json_string (m !! "status"); msg ← json_string (m !! "status_message");
  t ← json_time (m !! "next_retry_after"); q ← quota_of_json (m !! "quota");
  Some {| pe_Status := status_of_string s; pe_StatusMessage := msg; pe_NextRetryAfter := t; pe_Quota := q |}.

Definition model_of_any (v : GoAny) : option persistedQuotaModelRuntime :=
  match v with AMap m => model_of_json m | ANil => model_of_json ∅ | _ => None end.

Definition models_of_json (v : option GoAny) : option (gmap string persistedQuotaModelRuntime) :=
  match v with
  | None | Some ANil => Some ∅
  | Some (AMap m) =>
      if forallb (λ e : string * GoAny, bool_decide (is_Some (model_of_any e.2))) (map_to_list m)
      then Some (omap (M := gmap string) model_of_any m) else None
  | _ => None
  end.

Definition runtime_of_json (v : GoAny) : option persistedQuotaRuntime :=
  match v with
  | AMap m => p ← model_of_json m; ms ← models_of_json (m !! "model_states");
              Some {| pq_self := p; pq_ModelStates := ms |}
  | _ => None
  end.

(** ** Saving and restoring *)

Definition persisted_state (s : ModelState) : persistedQuotaModelRuntime :=
  {| pe_Status := ms_Status s; pe_StatusMessage := ms_StatusMessage s;
     pe_NextRetryAfter := ms_NextRetryAfter s; pe_Quota := ms_Quota s |}.

Definition persisted_entry (o : option ModelState) : option persistedQuotaModelRuntime :=
  match o with
  | Some s => if quotaRecoveryGateArmed (ms_Quota s) then Some (persisted_state s) else None
  | None => None
  end.

Definition runtime_of (a : Auth) : persistedQuotaRuntime :=
  {| pq_self := {| pe_Status := au_Status a; pe_StatusMessage := au_StatusMessage a;
                   pe_NextRetryAfter := au_NextRetryAfter a; pe_Quota := au_Quota a |};
     pq_ModelStates := omap (M := gmap string) persisted_entry (au_ModelStates a) |}.

Definition syncPersistedQuotaRuntime (a : Auth) : Auth :=
  let runtime := runtime_of a in
  if (! quotaRecoveryGateArmed (pe_Quota (pq_self runtime)) &&
      bool_decide (size (pq_ModelStates runtime) = 0%nat))
  then set_Metadata (delete persistedQuotaRuntimeMetadataKey (au_Metadata a)) a
  else set_Metadata (<[persistedQuotaRuntimeMetadataKey := AMap (runtime_json runtime)]> (au_Metadata a)) a.

Definition idle_status (s : Status) : bool :=
  (String.eqb (status_string s) "" || status_eqb s StatusActive || status_eqb s StatusUnknown).

Definition restored_status (s : Status) : Status := if idle_status s then StatusError else s.
Definition restored_message (m : string) : string := if String.eqb m "" then "quota exhausted" else m.

Definition restored_state (p : persistedQuotaModelRuntime) : ModelState :=
  {| ms_Status := restored_status (pe_Status p); ms_StatusMessage := restored_message (pe_StatusMessage p);
     ms_Unavailable := true; ms_NextRetryAfter := pe_NextRetryAfter p; ms_LastError := None;
     ms_Quota := pe_Quota p; ms_UpdatedAt := time_zero |}.

(** The states the loop assigns: those whose gate is armed. *)
Definition restored_states (ms : gmap string persistedQuotaModelRuntime)
    : gmap string (option ModelState) :=
  omap (M := gmap string)
    (λ p, if quotaRecoveryGateArmed (pe_Quota p) then Some (Some (restored_state p)) else None) ms.

Section persist.
Context {RO : RangeOrder}.

Definition restorePersistedQuotaRuntime (a : Auth) (now : Time) : Auth :=
  if (au_Disabled a || status_eqb (au_Status a) StatusDisabled) then a
  else
    match au_Metadata a !! persistedQuotaRuntimeMetadataKey ≫= runtime_of_json with
    | None => a
    | Some runtime =>
        let noModels := bool_decide (size (pq_ModelStates runtime) = 0%nat) in
        let self := pq_self runtime in
        if (! quotaRecoveryGateArmed (pe_Quota self) && noModels) then a
        else
          let a :=
            if quotaRecoveryGateArmed (pe_Quota self) then
              set_StatusMessage (restored_message (pe_StatusMessage self))
                (set_Status (restored_status (pe_Status self)) (set_Unavailable true
                  (set_NextRetryAfter (pe_NextRetryAfter self) (set_Quota (pe_Quota self) a))))
            else a in
          if noModels then a
          else updateAggregatedAvailability
                 (set_ModelStates (restored_states (pq_ModelStates runtime) ∪ au_ModelStates a) a) now
    end.
End persist.

(** [shouldPersist], given whether there is a store and the context skips it. *)
Definition shouldPersist (store skip : bool) (a : Auth) : bool :=
  if ! store then false
  else if skip then false
  else ! String.eqb (ToLower (TrimSpace (attr (au_Attributes a) "runtime_only"))) "true".

(** [persist] on the credential: the snapshot is taken when it is saved. *)
Definition persist (store skip : bool) (a : Auth) : Auth :=
  if shouldPersist store skip a then syncPersistedQuotaRuntime a else a.

(** ** Round trip *)

Lemma status_roundtrip s :
  (∀ x, s = StatusOther x → status_of_string x = s) → status_of_string (status_string s) = s.
Proof. destruct s; try done. intros H. by apply H. Qed.

Ltac look := repeat first [ rewrite lookup_insert_eq | rewrite lookup_insert_ne by done | rewrite lookup_empty ].

Lemma member_eq o k v m : member o k v m !! k = if o then m !! k else Some v.
Proof. destruct o; simpl; [done|apply lookup_insert_eq]. Qed.

Lemma member_ne o k j v m : k ≠ j → member o k v m !! j = m !! j.
Proof. intros H. destruct o; simpl; [done|by apply lookup_insert_ne]. Qed.

Lemma omit_string s : json_string (if String.eqb s "" then None else Some (AString s)) = Some s.
Proof. by destruct (String.eqb_spec s "") as [->|]. Qed.

Lemma omit_int z : json_int (if z =? 0 then None else Some (AInt z)) = Some z.
Proof. by destruct (Z.eqb_spec z 0) as [->|]. Qed.

Lemma omit_true b : json_bool (if negb b then None else Some (ABool true)) = Some b.
Proof. by destruct b. Qed.

Ltac look_members :=
  repeat first [ rewrite member_eq | rewrite member_ne by done ]; rewrite ?lookup_empty.

Lemma quota_roundtrip q : quota_of_json (Some (AMap (quota_json q))) = Some q.
Proof.
  destruct q as [e r rs w wm t l]. unfold quota_json, quota_of_json.
  look_members. by rewrite !omit_string, !omit_int, omit_true.
Qed.

Definition canonical_status (s : Status) : Prop := status_of_string (status_string s) = s.

Lemma model_json_lookups p :
  json_string (model_json p !! "status") = Some (status_string (pe_Status p)) ∧
  json_string (model_json p !! "status_message") = Some (pe_StatusMessage p) ∧
  json_time (model_json p !! "next_retry_after") = Some (pe_NextRetryAfter p) ∧
  quota_of_json (model_json p !! "quota") = Some (pe_Quota p) ∧
  model_json p !! "model_states" = None.
Proof.
  unfold model_json, member.
  destruct (String.eqb_spec (status_string (pe_Status p)) "") as [->|],
    (String.eqb_spec (pe_StatusMessage p) "") as [->|];
    split_and!; look; try done; apply quota_roundtrip.
Qed.

Lemma model_roundtrip p : canonical_status (pe_Status p) → model_of_json (model_json p) = Some p.
Proof.
  intros Hc. destruct (model_json_lookups p) as (H1 & H2 & H3 & H4 & _).
  unfold model_of_json. rewrite H1, H2, H3, H4. simpl. rewrite Hc. by destruct p.
Qed.

(** Every status in a snapshot is one Go would write back unchanged. *)
Definition canonical_runtime (p : persistedQuotaRuntime) : Prop :=
  canonical_status (pe_Status (pq_self p)) ∧
  ∀ k x, pq_ModelStates p !! k = Some x → canonical_status (pe_Status x).

Lemma runtime_roundtrip p : canonical_runtime p → runtime_of_json (AMap (runtime_json p)) = Some p.
Proof.
  intros [Hself Hall]. unfold runtime_of_json, runtime_json, member.
  destruct (model_json_lookups (pq_self p)) as (H1 & H2 & H3 & H4 & H5).
  destruct (bool_decide _) eqn:E.
  - apply bool_decide_eq_true, map_size_empty_inv in E.
    rewrite model_roundtrip by done. simpl. rewrite H5. simpl. f_equal. clear -E. destruct p as [self ms]. simpl in *. by rewrite E.
  - unfold model_of_json. look. rewrite H1, H2, H3, H4. simpl. rewrite Hself. look. simpl.
    set (m := fmap _ (pq_ModelStates p)).
    assert (Hm : ∀ k, m !! k ≫= model_of_any = pq_ModelStates p !! k).
    { intros k. unfold m. rewrite lookup_fmap. destruct (pq_ModelStates p !! k) as [x|] eqn:Ex; [|done].
      simpl. apply model_roundtrip. by eapply Hall. }
    rewrite (proj2 (forallb_forall _ _)).
    2:{ intros [k v] Hk. apply list_elem_of_In, elem_of_map_to_list in Hk. simpl.
        apply bool_decide_eq_true. specialize (Hm k). rewrite Hk in Hm. simpl in Hm. rewrite Hm.
        unfold m in Hk. rewrite lookup_fmap in Hk. by destruct (pq_ModelStates p !! k). }
    simpl. f_equal. destruct p as [self ms]. simpl in *. f_equal; [by destruct self|].
    apply map_eq. intros k. rewrite lookup_omap. apply Hm.
Qed.

(** ** Theorems *)

(** Every status on a credential is one Go would write back unchanged. *)
Definition canonical_auth (a : Auth) : Prop :=
  canonical_status (au_Status a) ∧ ∀ s, s ∈ model_states a → canonical_status (ms_Status s).

Lemma canonical_runtime_of a : canonical_auth a → canonical_runtime (runtime_of a).
Proof.
  intros [H1 H2]. split; [done|]. intros k x. simpl. rewrite lookup_omap.
  destruct (au_ModelStates a !! k) as [[s|]|] eqn:E; [|done..]. simpl.
  case_if; [|done]. intros [= <-]. simpl. apply H2, elem_of_model_states. eauto.
Qed.

Lemma armed_needs q t : quotaNeedsConfirmedRecovery q t = true → quotaRecoveryGateArmed q = true.
Proof. unfold quotaNeedsConfirmedRecovery, quotaRecoveryGateArmed. intros H. by apply andb_true_iff in H as [H _]. Qed.

Lemma restore_state {RO : RangeOrder} a b now model s :
  canonical_auth a → au_ModelStates a !! model = Some (Some s) →
  quotaRecoveryGateArmed (ms_Quota s) = true →
  au_Disabled b = false → au_Status b ≠ StatusDisabled →
  au_Metadata b = au_Metadata (syncPersistedQuotaRuntime a) →
  au_ModelStates (restorePersistedQuotaRuntime b now) !! model =
    Some (Some (agg_state now (restored_state (persisted_state s)))).
Proof.
  intros Hc Hs Harmed Hd Hst Hmeta. unfold restorePersistedQuotaRuntime.
  rewrite Hd. unfold status_eqb at 1. rewrite bool_decide_false by done. simpl.
  assert (Hin : pq_ModelStates (runtime_of a) !! model = Some (persisted_state s)).
  { simpl. rewrite lookup_omap, Hs. simpl. by rewrite Harmed. }
  assert (Hsize : bool_decide (size (pq_ModelStates (runtime_of a)) = 0%nat) = false).
  { apply bool_decide_eq_false. intros Hz. apply map_size_empty_inv in Hz. by rewrite Hz in Hin. }
  assert (Hdec : au_Metadata b !! persistedQuotaRuntimeMetadataKey ≫= runtime_of_json = Some (runtime_of a)).
  { rewrite Hmeta. unfold syncPersistedQuotaRuntime. rewrite Hsize, andb_false_r. simpl au_Metadata.
    rewrite lookup_insert_eq. by apply runtime_roundtrip, canonical_runtime_of. }
  rewrite Hdec. cbv iota beta zeta. rewrite Hsize, andb_false_r.
  match goal with |- au_ModelStates (updateAggregatedAvailability ?x now) !! _ = _ =>
    destruct (aggregate_frame x now) as (_ & _ & _ & _ & _ & -> & _) end.
  rewrite lookup_fmap. simpl. rewrite lookup_union. unfold restored_states.
  rewrite lookup_omap. change (omap persisted_entry (au_ModelStates a)) with (pq_ModelStates (runtime_of a)).
  rewrite Hin. simpl. rewrite Harmed. by rewrite union_Some_l.
Qed.

(** C29: a quota gate survives a restart: when a credential with a probe-confirmed
    gate on a model is saved and its metadata is loaded into a fresh record, the
    restored model has the same quota state and retry time, and at every later moment
    at which the gate was active the model is blocked. *)
Theorem quota_gate_survives_restart {RO : RangeOrder} a b now model s :
  canonical_auth a → model ≠ "" → au_ModelStates a !! model = Some (Some s) →
  quotaNeedsConfirmedRecovery (ms_Quota s) now = true →
  au_Disabled b = false → au_Status b ≠ StatusDisabled →
  au_Metadata b = au_Metadata (syncPersistedQuotaRuntime a) →
  let b' := restorePersistedQuotaRuntime b now in
  (∃ s', au_ModelStates b' !! model = Some (Some s') ∧ ms_Quota s' = ms_Quota s ∧
     ms_NextRetryAfter s' = ms_NextRetryAfter s ∧ ms_Unavailable s' = true) ∧
  ∀ t, quotaNeedsConfirmedRecovery (ms_Quota s) t = true →
    (isAuthBlockedForModel (Some b') model t).1.1 = true.
Proof.
  intros Hc Hm Hs Hgate Hd Hst Hmeta b'.
  pose proof (restore_state a b now model s Hc Hs (armed_needs _ _ Hgate) Hd Hst Hmeta) as Hr.
  fold b' in Hr. set (s1 := agg_state now (restored_state (persisted_state s))) in *.
  assert (Hq : ms_Quota s1 = ms_Quota s) by (unfold s1; by rewrite agg_state_quota).
  split.
  - exists s1. split; [done|]. split; [done|]. unfold s1, agg_state. simpl. rewrite Hgate.
    by destruct (status_eqb (restored_status (ms_Status s)) StatusDisabled).
  - intros t Ht. unfold isAuthBlockedForModel. case_if; [done|]. cbv zeta. case_if; [done|].
    rewrite (proj2 (String.eqb_neq model "")) by done. simpl.
    rewrite bool_decide_false.
    2:{ intros Hz. apply map_size_empty_inv in Hz. by rewrite Hz in Hr. }
    assert (lookup_model_state (au_ModelStates b') model = Some s1) as ->.
    { unfold lookup_model_state. by rewrite Hr. }
    unfold model_state_blocked. case_if; [done|]. by rewrite Hq, Ht.
Qed.

(** The snapshot is read back as it was written, omitted members included. *)
Lemma quota_snapshot_roundtrip a :
  canonical_auth a → runtime_of_json (AMap (runtime_json (runtime_of a))) = Some (runtime_of a).
Proof. intros H. by apply runtime_roundtrip, canonical_runtime_of. Qed.

Definition gated_state : ModelState :=
  {| ms_Status := StatusError; ms_StatusMessage := "usage balance exhausted"; ms_Unavailable := true;
     ms_NextRetryAfter := 5000; ms_LastError := None;
     ms_Quota := {| q_Exceeded := true; q_RecoveryRequired := true; q_Reason := "quota";
                    q_Window := "week"; q_WindowMinutes := 10080; q_NextRecoverAt := 5000;
                    q_BackoffLevel := 0 |};
     ms_UpdatedAt := 0 |}.

Definition gated : Auth :=
  set_ModelStates {["grok-4" := Some gated_state]} (auth_new "acct" "xai" ∅ {["type" := AString "xai"]}).

Definition reloaded : Auth :=
  auth_new "acct" "xai" ∅ (au_Metadata (syncPersistedQuotaRuntime gated)).

Lemma gated_canonical : canonical_auth gated.
Proof.
  split; [done|]. intros s Hs. apply elem_of_model_states in Hs as [m Hm].
  change (({["grok-4" := Some gated_state]} : gmap string (option ModelState)) !! m = Some (Some s)) in Hm.
  apply lookup_singleton_Some in Hm as [_ [= <-]]. done.
Qed.

Lemma quota_snapshot_roundtrip_witness :
  runtime_of_json (AMap (runtime_json (runtime_of gated))) = Some (runtime_of gated).
Proof. apply quota_snapshot_roundtrip, gated_canonical. Defined.

Lemma quota_gate_survives_restart_witness :
  (isAuthBlockedForModel (RO := listing_order)
     (Some (@restorePersistedQuotaRuntime listing_order reloaded 1000)) "grok-4" 4000).1.1 = true.
Proof.
  apply (@quota_gate_survives_restart listing_order gated reloaded 1000 "grok-4" gated_state).
  - apply gated_canonical.
  - done.
  - by vm_compute.
  - by vm_compute.
  - done.
  - done.
  - done.
  - by vm_compute.
Defined.
