(* ===== verification/ClaudeHealth.v ===== *)
(** * Claude OAuth health

    Models [src/sdk/cliproxy/auth/claude_oauth_health.go] and the token lookup of
    [conductor_refresh_recovery.go]. The health projection is the map stored in the
    credential's metadata under [claude_oauth_health]; cloning it is the identity on
    values. *)
From S2P Require Import Prelude GoModel AuthTypes Availability Aggregate.

(** ** Tokens *)

Fixpoint tokenValueFromMap (meta : gmap string GoAny) (keys : list string) : string :=
  match keys with
  | [] => ""
  | key :: keys =>
      match meta !! key with
      | Some (AString raw) | Some (ABytes raw) =>
          if ! String.eqb (TrimSpace raw) "" then TrimSpace raw else tokenValueFromMap meta keys
      | _ => tokenValueFromMap meta keys
      end
  end.

Definition nested_token (meta : gmap string GoAny) (keys : list string) (nestedKey : string) : string :=
  match meta !! nestedKey with Some (AMap m) => tokenValueFromMap m keys | _ => "" end.

Definition authTokenValue (a : Auth) (keys : list string) : string :=
  let v := tokenValueFromMap (au_Metadata a) keys in
  if ! String.eqb v "" then v
  else let v := nested_token (au_Metadata a) keys "token" in
       if ! String.eqb v "" then v else nested_token (au_Metadata a) keys "Token".

Definition authRefreshToken (a : Auth) : string := authTokenValue a ["refresh_token"; "refreshToken"].

(** [m[k].(string)]: the zero string when it is not one. *)
Definition meta_string (m : gmap string GoAny) (k : string) : string :=
  match m !! k with Some (AString s) => s | _ => "" end.

Definition hasKimiOAuthTokenMetadata (m : gmap string GoAny) : bool :=
  existsb (λ k, ! String.eqb (TrimSpace (meta_string m k)) "") ["refresh_token"; "access_token"].

(** [AccountInfo] *)
Definition AccountInfo (a : Auth) : string * string :=
  let email := TrimSpace (meta_string (au_Metadata a) "email") in
  let p := TrimSpace (meta_string (au_Metadata a) "project_id") in
  if (String.eqb (ToLower (au_Provider a)) "gemini-cli" && ! String.eqb email "") then
    if ! String.eqb p "" then ("oauth", email +:+ " (" +:+ p +:+ ")") else ("oauth", email)
  else if (String.eqb (ToLower (au_Provider a)) "iflow" && ! String.eqb email "")
  then ("oauth", email)
  else if ! String.eqb email "" then ("oauth", email)
  else if (EqualFold (TrimSpace (au_Provider a)) "kimi" && hasKimiOAuthTokenMetadata (au_Metadata a))
  then ("oauth", "kimi")
  else if ! String.eqb (attr (au_Attributes a) "api_key") ""
  then ("api_key", attr (au_Attributes a) "api_key")
  else ("", "").

Definition isClaudeOAuthAuth (a : Auth) : bool :=
  if ! EqualFold (TrimSpace (au_Provider a)) "claude" then false
  else if (! String.eqb (authRefreshToken a) "" ||
           ! String.eqb (authTokenValue a ["access_token"; "accessToken"]) "") then true
  else if EqualFold (TrimSpace (meta_string (au_Metadata a) "type")) "claude" then true
  else EqualFold (AccountInfo a).1 "oauth".

(** ** The rate-limit windows *)

Record claudeOAuthRateLimitSpec := MkWindowSpec {
  sp_headerKey : string; sp_payloadKey : string; sp_window : string;
  sp_minutes : Z; sp_maxFuture : Duration; sp_reason : string
}.

Record claudeOAuthWindowDecision := MkDecision {
  de_window : string; de_minutes : Z; de_reason : string; de_resetAt : Time
}.

Definition claudeOAuthReasonAnthropic5H : string := "anthropic_5h_window_exhausted".
Definition claudeOAuthReasonAnthropic7D : string := "anthropic_7d_window_exhausted".
Definition claudeOAuthReasonOAuth401 : string := "oauth_401".
Definition claudeOAuthRefreshPendingMessage : string := "claude_oauth_refresh_pending".
Definition claudeOAuth401Cooldown : Duration := 10 * Minute.
Definition ClaudeOAuthHealthMetadataKey : string := "claude_oauth_health".

Definition claudeOAuthRateLimitSpecs : list claudeOAuthRateLimitSpec :=
  [{| sp_headerKey := "5h"; sp_payloadKey := "five_hour"; sp_window := "5h"; sp_minutes := 300;
      sp_maxFuture := 6 * Hour; sp_reason := claudeOAuthReasonAnthropic5H |};
   {| sp_headerKey := "7d"; sp_payloadKey := "seven_day"; sp_window := "7d";
      sp_minutes := 7 * 24 * 60; sp_maxFuture := 8 * 24 * Hour;
      sp_reason := claudeOAuthReasonAnthropic7D |}].

Definition formatClaudeOAuthHealthTime (t : Time) : GoAny :=
  if IsZero t then AString "" else ATime t.

(** [parseClaudeOAuthReset]; [None] is [(time.Time{}, false)]. *)
Definition parseClaudeOAuthReset (raw : string) (now : Time) (maxFuture : Duration) : option Time :=
  let raw := TrimSpace raw in
  if String.eqb raw "" then None
  else match Atoi raw with
       | None => None
       | Some parsed =>
           if parsed <=? 0 then None
           else
             let parsed := if 100000000000 <? parsed then Z.quot parsed 1000 else parsed in
             let resetAt := time_Unix parsed in
             if ! After resetAt now then None
             else if ((0 <? maxFuture) && (maxFuture <? time_Sub resetAt now)) then None
             else Some resetAt
       end.

Definition parseClaudeOAuthUtilization (raw : string) : option float64 :=
  let raw := TrimSpace raw in if String.eqb raw "" then None else ParseFloat raw.

Definition parseClaudeOAuthBool (raw : string) : option bool :=
  let v := ToLower (TrimSpace raw) in
  if existsb (String.eqb v) ["true"; "1"; "yes"] then Some true
  else if existsb (String.eqb v) ["false"; "0"; "no"] then Some false
  else None.

Definition insert_opt (k : string) (v : option GoAny) (m : gmap string GoAny) : gmap string GoAny :=
  match v with Some v => <[k := v]> m | None => m end.

(** [parseClaudeOAuthWindow]: the window, whether it is exceeded and its reset time
    (zero when unknown). *)
Definition parseClaudeOAuthWindow (headers : gmap string (list string))
    (spec : claudeOAuthRateLimitSpec) (now : Time) : option (gmap string GoAny * bool * Time) :=
  let get k := TrimSpace (header_Get headers
    ("anthropic-ratelimit-unified-" +:+ sp_headerKey spec +:+ "-" +:+ k)) in
  let status := ToLower (get "status") in
  let resetRaw := get "reset" in
  let utilRaw := get "utilization" in
  let surpassedRaw := get "surpassed-threshold" in
  if (String.eqb status "" && String.eqb resetRaw "" && String.eqb utilRaw "" &&
      String.eqb surpassedRaw "") then None
  else
    let reset := parseClaudeOAuthReset resetRaw now (sp_maxFuture spec) in
    let utilization := parseClaudeOAuthUtilization utilRaw in
    let surpassed := parseClaudeOAuthBool surpassedRaw in
    let exceeded := (String.eqb status "rejected" ||
                     match utilization with Some u => f64_ge u (f64_of_int 1) | None => false end ||
                     match surpassed with Some b => b | None => false end) in
    let status := if String.eqb status "" then "unknown" else status in
    let out := <["status" := AString status]> (<["exceeded" := ABool exceeded]>
                 (<["updated_at" := formatClaudeOAuthHealthTime now]> ∅)) in
    let out := insert_opt "reset_at" (formatClaudeOAuthHealthTime <$> reset) out in
    let out := insert_opt "utilization" (AFloat <$> utilization) out in
    let out := insert_opt "surpassed_threshold" (ABool <$> surpassed) out in
    Some (out, exceeded, default time_zero reset).

Definition window_step (headers : gmap string (list string)) (now : Time)
    (acc : gmap string GoAny * option claudeOAuthWindowDecision) (spec : claudeOAuthRateLimitSpec)
    : gmap string GoAny * option claudeOAuthWindowDecision :=
  let '(windows, decision) := acc in
  match parseClaudeOAuthWindow headers spec now with
  | None => acc
  | Some (window, exceeded, resetAt) =>
      let windows := <[sp_payloadKey spec := AMap window]> windows in
      if (! exceeded || IsZero resetAt) then (windows, decision)
      else
        let current := {| de_window := sp_window spec; de_minutes := sp_minutes spec;
                          de_reason := sp_reason spec; de_resetAt := resetAt |} in
        (windows, match decision with
                  | None => Some current
                  | Some d => if String.eqb (sp_window spec) "7d" then Some current else Some d
                  end)
  end.

Definition parseClaudeOAuthRateLimitHeaders (headers : gmap string (list string)) (now : Time)
    : gmap string GoAny * option claudeOAuthWindowDecision :=
  if bool_decide (size headers = 0%nat) then (∅, None)
  else foldl (window_step headers now) (∅, None) claudeOAuthRateLimitSpecs.

(** ** The health projection *)

(** [cloneAnyMap] *)
Definition cloneAnyMap (v : option GoAny) : gmap string GoAny :=
  match v with Some (AMap m) => m | _ => ∅ end.

Definition cloneClaudeOAuthHealth (a : Auth) : gmap string GoAny :=
  cloneAnyMap (au_Metadata a !! ClaudeOAuthHealthMetadataKey).

Definition put_health (h : gmap string GoAny) (a : Auth) : Auth :=
  set_Metadata (<[ClaudeOAuthHealthMetadataKey := AMap h]> (au_Metadata a)) a.

Definition claudeOAuthRuntimeProfile (a : Auth) : gmap string GoAny :=
  let egress := if ! String.eqb (TrimSpace (au_ProxyID a)) "" then "proxy_pool"
                else if ! String.eqb (TrimSpace (au_ProxyURL a)) "" then "proxy_url"
                else "direct_or_global" in
  <["name" := AString "claude_oauth_runtime"]> (<["identity_fingerprint" := AString "claude_headers"]>
    (<["transport" := AString "go_http_transport"]> (<["egress" := AString egress]> ∅))).

Definition ensureClaudeOAuthHealth (a : Auth) (now : Time) : gmap string GoAny :=
  <["runtime_profile" := AMap (claudeOAuthRuntimeProfile a)]>
    (<["refresh_available" := ABool (! String.eqb (authRefreshToken a) "")]>
      (<["updated_at" := formatClaudeOAuthHealthTime now]>
        (<["enabled" := ABool true]> (cloneClaudeOAuthHealth a)))).

Section health.
Context {RO : RangeOrder}.

Definition mergeClaudeOAuthWindowHealth (health : gmap string GoAny)
    (headers : gmap string (list string)) (now : Time)
    : gmap string GoAny * option claudeOAuthWindowDecision :=
  let '(windows, decision) := parseClaudeOAuthRateLimitHeaders headers now in
  if bool_decide (size windows = 0%nat) then (health, decision)
  else
    let existing := foldl (λ m e, <[e.1 := e.2]> m) (cloneAnyMap (health !! "windows"))
                          (range_order 7 windows) in
    (<["windows" := AMap existing]> health, decision).

Definition claudeOAuthRefreshPending (a : Auth) : bool :=
  if (! isClaudeOAuthAuth a || String.eqb (authRefreshToken a) "") then false
  else
    let health := cloneClaudeOAuthHealth a in
    if bool_decide (size health = 0%nat) then false
    else (EqualFold (TrimSpace (meta_string health "status")) "refresh_pending" ||
          EqualFold (TrimSpace (meta_string health "temporary_unschedulable_reason"))
                    claudeOAuthReasonOAuth401).

Definition unschedulable_keys (h : gmap string GoAny) : gmap string GoAny :=
  delete "temporary_unschedulable_reason" (delete "temporary_unschedulable_until" h).

Definition markClaudeOAuthHealthSuccessLocked (a : Auth) (result : Result) (now : Time) : Auth :=
  if ! isClaudeOAuthAuth a then a
  else
    let health := unschedulable_keys (<["last_runtime_at" := formatClaudeOAuthHealthTime now]>
      (<["status" := AString "active"]> (ensureClaudeOAuthHealth a now))) in
    put_health (mergeClaudeOAuthWindowHealth health (re_Headers result) now).1 a.

Definition markClaudeOAuthHealthRefreshSuccessLocked (a : Auth) (now : Time) : Auth :=
  if ! isClaudeOAuthAuth a then a
  else put_health (unschedulable_keys (<["last_refresh_at" := formatClaudeOAuthHealthTime now]>
         (<["status" := AString "active"]> (ensureClaudeOAuthHealth a now)))) a.

Definition clearClaudeOAuthRuntimeRestrictionLocked (a : Auth) (now : Time) : bool * Auth :=
  match au_Metadata a !! ClaudeOAuthHealthMetadataKey with
  | None => (false, a)
  | Some _ =>
      let health := cloneClaudeOAuthHealth a in
      let inactive := ! EqualFold (TrimSpace (meta_string health "status")) "active" in
      let changed := (inactive || bool_decide (is_Some (health !! "temporary_unschedulable_until")) ||
                      bool_decide (is_Some (health !! "temporary_unschedulable_reason"))) in
      if ! changed then (false, a)
      else
        let health := if inactive then <["status" := AString "active"]> health else health in
        (true, put_health (<["updated_at" := formatClaudeOAuthHealthTime now]>
                             (unschedulable_keys health)) a)
  end.

(** ** Failures *)

Definition trimClaudeOAuthHealthMessage (message : string) : string :=
  let message := TrimSpace message in
  if (str_len message <=? 512)%nat then message else slice message 0 512 +:+ "...".

Definition suspend_effects (reason : string) (setQuota : bool) (ef : resultStateEffects)
    : resultStateEffects :=
  {| ef_shouldResumeModel := ef_shouldResumeModel ef; ef_shouldSuspendModel := true;
     ef_suspendReason := reason; ef_clearModelQuota := ef_clearModelQuota ef;
     ef_setModelQuota := (setQuota || ef_setModelQuota ef) |}.

Definition applyClaudeOAuthTemporaryFailureLocked (a : Auth) (result : Result) (now next : Time)
    (message reason : string) (ef : resultStateEffects) : Auth * resultStateEffects :=
  if ! String.eqb (re_Model result) "" then
    let '(state, a) := ensureModelState a (re_Model result) in
    let state := {| ms_Status := StatusActive; ms_StatusMessage := message; ms_Unavailable := true;
                    ms_NextRetryAfter := next; ms_LastError := cloneError (re_Error result);
                    ms_Quota := quota_zero; ms_UpdatedAt := now |} in
    let a := put_state (re_Model result) state a in
    let a := set_UpdatedAt now (set_Status StatusActive (set_StatusMessage message
               (set_LastError (cloneError (re_Error result)) a))) in
    (updateAggregatedAvailability a now, suspend_effects reason false ef)
  else
    (set_UpdatedAt now (set_LastError (cloneError (re_Error result)) (set_NextRetryAfter next
       (set_StatusMessage message (set_Status StatusActive (set_Unavailable true a))))), ef).

Definition window_quota (d : claudeOAuthWindowDecision) (level : Z) : QuotaState :=
  {| q_Exceeded := true; q_RecoveryRequired := false; q_Reason := "quota"; q_Window := de_window d;
     q_WindowMinutes := de_minutes d; q_NextRecoverAt := de_resetAt d; q_BackoffLevel := level |}.

Definition applyClaudeOAuthQuotaFailureLocked (a : Auth) (result : Result) (now : Time)
    (d : claudeOAuthWindowDecision) (ef : resultStateEffects) : Auth * resultStateEffects :=
  if ! String.eqb (re_Model result) "" then
    let '(state, a) := ensureModelState a (re_Model result) in
    let state := {| ms_Status := StatusError; ms_StatusMessage := de_reason d; ms_Unavailable := true;
                    ms_NextRetryAfter := de_resetAt d; ms_LastError := cloneError (re_Error result);
                    ms_Quota := window_quota d (q_BackoffLevel (ms_Quota state));
                    ms_UpdatedAt := now |} in
    let a := put_state (re_Model result) state a in
    let a := set_UpdatedAt now (set_Status StatusError (set_StatusMessage (de_reason d)
               (set_LastError (cloneError (re_Error result)) a))) in
    (updateAggregatedAvailability a now, suspend_effects (de_reason d) true ef)
  else
    (set_UpdatedAt now (set_Quota (window_quota d (q_BackoffLevel (au_Quota a)))
       (set_LastError (cloneError (re_Error result)) (set_NextRetryAfter (de_resetAt d)
         (set_StatusMessage (de_reason d) (set_Status StatusError (set_Unavailable true a)))))), ef).

(** [applyClaudeOAuthFailureLocked]; the flag says whether the failure was handled. *)
Definition applyClaudeOAuthFailureLocked (a : Auth) (result : Result) (now : Time)
    (ef : resultStateEffects) : bool * Auth * resultStateEffects :=
  if ! isClaudeOAuthAuth a then (false, a, ef)
  else
    let statusCode := statusCodeFromResult (re_Error result) in
    if (! (statusCode =? 401) && ! (statusCode =? 429)) then (false, a, ef)
    else
      let health := <["last_runtime_at" := formatClaudeOAuthHealthTime now]>
        (<["last_runtime_status" := AInt statusCode]> (ensureClaudeOAuthHealth a now)) in
      let '(health, decision) := mergeClaudeOAuthWindowHealth health (re_Headers result) now in
      if statusCode =? 401 then
        let health := <["last_401_at" := formatClaudeOAuthHealthTime now]> health in
        let health := match re_Error result with
          | Some e => if ! String.eqb (TrimSpace (er_Message e)) ""
                      then <["last_401_message" := AString (trimClaudeOAuthHealthMessage (er_Message e))]> health
                      else health
          | None => health end in
        if String.eqb (authRefreshToken a) "" then
          (false, put_health (<["refresh_available" := ABool false]>
                    (<["status" := AString "unauthorized"]> health)) a, ef)
        else
          let next := time_Add now claudeOAuth401Cooldown in
          let health := <["temporary_unschedulable_reason" := AString claudeOAuthReasonOAuth401]>
            (<["temporary_unschedulable_until" := formatClaudeOAuthHealthTime next]>
              (<["status" := AString "refresh_pending"]> health)) in
          let '(a, ef) := applyClaudeOAuthTemporaryFailureLocked (put_health health a) result now next
                            claudeOAuthRefreshPendingMessage claudeOAuthReasonOAuth401 ef in
          (true, set_NextRefreshAfter time_zero a, ef)
      else
        match decision with
        | None => (false, put_health (<["status" := AString "rate_limited"]> health) a, ef)
        | Some d =>
            let health := <["temporary_unschedulable_reason" := AString (de_reason d)]>
              (<["temporary_unschedulable_until" := formatClaudeOAuthHealthTime (de_resetAt d)]>
                (<["status" := AString "exhausted"]> health)) in
            let '(a, ef) := applyClaudeOAuthQuotaFailureLocked (put_health health a) result now d ef in
            (true, a, ef)
        end.

End health.
