(* ===== verification/Cooldown.v ===== *)
(** * Cooldowns: what a result does to a credential

    Models [src/sdk/cliproxy/auth/conductor_failure_state.go], the result half of
    [conductor_cooldown_service.go] ([applyResultLocked] and everything it calls)
    and the classification of errors in [conductor_error_helpers.go]. The process
    flag [quotaCooldownDisabled] is the section variable [global]. *)
From S2P Require Import Prelude GoModel AuthTypes ModelNames Availability Aggregate ClaudeHealth.

(** ** Errors *)

(** What the modelled code asks of a Go error: [StatusCode()], the [*Error] in its
    chain and [Error()]. *)
Record GoError := MkGoError { ge_Status : Z; ge_Auth : option Error; ge_Text : string }.

Definition of_Error (e : Error) : GoError :=
  {| ge_Status := er_HTTPStatus e; ge_Auth := Some e; ge_Text := Error_Error e |}.

(** [encoding/json] decoding of an object and [fmt.Sprint]. *)
Class GoJSON := {
  json_object : string → option (gmap string GoAny);
  fmt_Sprint : GoAny → string
}.

(** A decoder that rejects everything, for messages that are not JSON. *)
Definition no_json : GoJSON := {| json_object := λ _, None; fmt_Sprint := λ _, "" |}.

Definition stringValue {J : GoJSON} (value : option GoAny) : string :=
  match value with
  | None | Some ANil => ""
  | Some (AString s) => TrimSpace s
  | Some (ABytes s) => TrimSpace s
  | Some v => TrimSpace (fmt_Sprint v)
  end.

(** [nestedString payload keys] *)
Definition nestedString {J : GoJSON} (payload : gmap string GoAny) (keys : list string) : string :=
  if bool_decide (size payload = 0%nat) then ""
  else
    (fix go (current : option GoAny) (keys : list string) {struct keys} : string :=
      match keys with
      | [] => stringValue current
      | key :: keys =>
          match current with Some (AMap m) => go (m !! key) keys | _ => "" end
      end) (Some (AMap payload)) keys.

Definition isInvalidRequestSignal (raw : string) : bool :=
  let signal := ToLower (TrimSpace raw) in
  let has := Contains signal in
  if String.eqb signal "" then false
  else
    (has "invalid_request_error" || has "invalid-argument" || has "invalid_argument" ||
     has "invalid request" || has "model is not supported" || has "model not supported" ||
     has "not supported when using codex with a chatgpt account" ||
     (has "below the minimum of" && has "pixels") || (has "total pixels" && has "minimum") ||
     has "context_length_exceeded" || has "prompt_too_long" || has "maximum context length" ||
     has "maximum prompt length" || has "prompt is too long" || has "prompt too long" ||
     has "too many tokens" || has "tokens > max" || has "tokens exceeds" ||
     (has "maximum prompt" && has "tokens") || (has "prompt length" && has "tokens")).

Definition payload_signals {J : GoJSON} (payload : gmap string GoAny) : list string :=
  [stringValue (payload !! "code"); stringValue (payload !! "type"); stringValue (payload !! "status");
   stringValue (payload !! "detail"); stringValue (payload !! "error"); stringValue (payload !! "message");
   nestedString payload ["error"; "type"]; nestedString payload ["error"; "code"];
   nestedString payload ["error"; "status"]; nestedString payload ["error"; "message"]].

Definition isRequestInvalidError {J : GoJSON} (err : GoError) : bool :=
  if ! (ge_Status err =? 400) then false
  else if match ge_Auth err with
          | Some e => (isInvalidRequestSignal (er_Code e) || isInvalidRequestSignal (er_Message e))
          | None => false
          end then true
  else
    let message := TrimSpace (ge_Text err) in
    if String.eqb message "" then false
    else if isInvalidRequestSignal message then true
    else match json_object message with
         | None => false
         | Some payload => existsb isInvalidRequestSignal (payload_signals payload)
         end.

Definition contentPolicyViolationCode : string := "content_policy_violation".

Definition isContentPolicyViolation (err : GoError) : bool :=
  match ge_Auth err with Some e => String.eqb (er_Code e) contentPolicyViolationCode | None => false end.

Definition isResponseStreamIncompleteError (err : option Error) : bool :=
  match err with Some e => String.eqb (TrimSpace (er_Code e)) "response_stream_incomplete" | None => false end.

Definition isUsageBalanceExhaustedMessage (message : string) : bool :=
  let lower := ToLower (TrimSpace message) in
  if String.eqb lower "" then false
  else (Contains lower "usage balance exhausted" || Contains lower "balance exhausted").

Definition isQuotaExhaustionError (err : option Error) (retryAfter : option Duration) : bool :=
  match err with
  | None => false
  | Some e =>
      if (! String.eqb (er_QuotaWindow e) "" || (0 <? er_QuotaWindowMinutes e)) then true
      else if match retryAfter with
              | Some r => ((0 <? r) && isUsageBalanceExhaustedMessage (er_Message e))
              | None => false end then true
      else isUsageBalanceExhaustedMessage (er_Message e)
  end.

Definition isTransientRateLimitError (err : option Error) : bool :=
  match err with
  | None => false
  | Some e =>
      let body := ToLower (er_Message e) in
      if String.eqb body "" then false
      else if existsb (Contains body)
                ["quota_exhausted"; "quotaresetdelay"; "quota reset"; "quota limit"; "daily quota";
                 "usage balance exhausted"; "balance exhausted"] then false
      else (Contains body "resource has been exhausted" || Contains body "resource_exhausted" ||
            Contains body "rate limit" || Contains body "too many requests")
  end.

Definition isTransientUpstreamOverloadError (err : option Error) : bool :=
  match err with
  | None => false
  | Some e =>
      let haystack := ToLower (er_Code e +:+ " " +:+ er_Message e) in
      if String.eqb (TrimSpace haystack) "" then false
      else existsb (Contains haystack) ["server_is_overloaded"; "service_unavailable_error"; "overloaded"]
  end.

Definition isXAIWeekBalanceExhaustedError (err : option Error) : bool :=
  match err with
  | None => false
  | Some e =>
      if ! isUsageBalanceExhaustedMessage (er_Message e) then false
      else (EqualFold (TrimSpace (er_QuotaWindow e)) "week" || (er_QuotaWindowMinutes e =? 10080))
  end.

(** ** Durations *)

Definition quotaBackoffBase : Duration := Second.
Definition quotaBackoffMax : Duration := 30 * Minute.
Definition quotaWindowMaxCooldown : Duration := 7 * 24 * Hour.
Definition transientRateLimitCooldown : Duration := Minute.
Definition transientUpstreamOverloadCooldown : Duration := 5 * Second.

(** [time.Duration(1 << n)]: the shift of a 64-bit integer. *)
Definition shl1 (n : Z) : Z := if 64 <=? n then 0 else wrap64 (Z.shiftl 1 n).

Definition nextQuotaCooldown (prevLevel : Z) (disableCooling : bool) : Duration * Z :=
  let prevLevel := if prevLevel <? 0 then 0 else prevLevel in
  if disableCooling then (0, prevLevel)
  else
    let cooldown := wrap64 (quotaBackoffBase * shl1 prevLevel) in
    let cooldown := if cooldown <? quotaBackoffBase then quotaBackoffBase else cooldown in
    if quotaBackoffMax <=? cooldown then (quotaBackoffMax, prevLevel)
    else (cooldown, wrap64 (prevLevel + 1)).

Definition quotaWindowFallbackCooldown (err : option Error) : Duration :=
  match err with
  | Some e =>
      if 0 <? er_QuotaWindowMinutes e then
        let window := wrap64 (er_QuotaWindowMinutes e * Minute) in
        if window <? quotaWindowMaxCooldown then window else quotaWindowMaxCooldown
      else quotaWindowMaxCooldown
  | None => quotaWindowMaxCooldown
  end.

Definition quotaFailureCooldown (err : option Error) (retryAfter : option Duration)
    (prevLevel : Z) (disableCooling : bool) : Duration * Z :=
  match retryAfter with
  | Some r => (r, prevLevel)
  | None =>
      if disableCooling then (0, prevLevel)
      else if isXAIWeekBalanceExhaustedError err then (quotaWindowFallbackCooldown err, prevLevel)
      else nextQuotaCooldown prevLevel false
  end.

(** [var next time.Time; if cooldown > 0 { next = now.Add(cooldown) }] *)
Definition deadline_after (now : Time) (cooldown : Duration) : Time :=
  if 0 <? cooldown then time_Add now cooldown else time_zero.

(** [resultErr != nil && resultErr.Message != ""] *)
Definition message_or (err : option Error) (d : string) : string :=
  match err with
  | Some e => if ! String.eqb (er_Message e) "" then er_Message e else d
  | None => d
  end.

Section cooldown.
Context {RO : RangeOrder} {J : GoJSON}.
Variable global : bool.

(** ** Failures of a whole credential *)

Definition applyAuthQuotaFailureState (a : Auth) (err : option Error) (retryAfter : option Duration)
    (now : Time) : Auth :=
  let a := set_StatusMessage (message_or err "quota exhausted") a in
  let disableCooling := quotaCooldownDisabledForAuth global a in
  let q := au_Quota a in
  let '(cooldown, nextLevel) := quotaFailureCooldown err retryAfter (q_BackoffLevel q) disableCooling in
  let next := deadline_after now cooldown in
  let q := {| q_Exceeded := true;
              q_RecoveryRequired := (! disableCooling && isXAIWeekBalanceExhaustedError err);
              q_Reason := "quota";
              q_Window := match err with Some e => er_QuotaWindow e | None => q_Window q end;
              q_WindowMinutes := match err with
                                 | Some e => er_QuotaWindowMinutes e
                                 | None => q_WindowMinutes q end;
              q_NextRecoverAt := next; q_BackoffLevel := nextLevel |} in
  set_NextRetryAfter next (set_Quota q a).

Definition transient_status (code : Z) : bool :=
  ((code =? 408) || (code =? 500) || (code =? 502) || (code =? 503) || (code =? 504)).

Definition applyAuthFailureState (a : Auth) (err : option Error) (retryAfter : option Duration)
    (now : Time) : Auth :=
  let a := set_UpdatedAt now (set_Status StatusError (set_Unavailable true a)) in
  let a := match err with
           | Some e => let a := set_LastError (cloneError err) a in
                       if ! String.eqb (er_Message e) "" then set_StatusMessage (er_Message e) a else a
           | None => a
           end in
  let statusCode := statusCodeFromResult err in
  if ((statusCode =? 402) && isQuotaExhaustionError err retryAfter)
  then applyAuthQuotaFailureState a err retryAfter now
  else if statusCode =? 401 then
    set_NextRetryAfter (time_Add now (30 * Minute)) (set_StatusMessage "unauthorized" a)
  else if ((statusCode =? 402) || (statusCode =? 403)) then
    set_NextRetryAfter (time_Add now (30 * Minute)) (set_StatusMessage "payment_required" a)
  else if statusCode =? 404 then
    set_NextRetryAfter (time_Add now (12 * Hour)) (set_StatusMessage "not_found" a)
  else if statusCode =? 429 then applyAuthQuotaFailureState a err retryAfter now
  else if transient_status statusCode then
    let a := set_StatusMessage "transient upstream error" a in
    if quotaCooldownDisabledForAuth global a then set_NextRetryAfter time_zero a
    else set_NextRetryAfter (time_Add now (1 * Minute)) a
  else if String.eqb (au_StatusMessage a) "" then set_StatusMessage "request failed" a
  else a.

(** ** Failures of one model *)

(** [applyModelQuotaFailureLocked]: the new state of the model and the effects. *)
Definition applyModelQuotaFailureLocked (a : Auth) (state : ModelState) (result : Result) (now : Time)
    (ef : resultStateEffects) : ModelState * resultStateEffects :=
  let '(cooldown, nextLevel) :=
    quotaFailureCooldown (re_Error result) (re_RetryAfter result) (q_BackoffLevel (ms_Quota state))
      (quotaCooldownDisabledForAuth global a) in
  let next := deadline_after now cooldown in
  let q := {| q_Exceeded := true;
              q_RecoveryRequired := isXAIWeekBalanceExhaustedError (re_Error result);
              q_Reason := "quota";
              q_Window := match re_Error result with Some e => er_QuotaWindow e | None => "" end;
              q_WindowMinutes := match re_Error result with
                                 | Some e => er_QuotaWindowMinutes e
                                 | None => 0 end;
              q_NextRecoverAt := next; q_BackoffLevel := nextLevel |} in
  (mset_StatusMessage (message_or (re_Error result) "quota exhausted")
     (mset_Quota q (mset_NextRetryAfter next state)),
   {| ef_shouldResumeModel := ef_shouldResumeModel ef; ef_shouldSuspendModel := true;
      ef_suspendReason := "quota"; ef_clearModelQuota := ef_clearModelQuota ef;
      ef_setModelQuota := true |}).

(** The cooldown of a throttled request. *)
Definition transient_cooldown (a : Auth) (result : Result) : Duration :=
  let cooldown := match re_RetryAfter result with
                  | Some r => if 0 <? r then r else transientRateLimitCooldown
                  | None => transientRateLimitCooldown end in
  if quotaCooldownDisabledForAuth global a then 0 else cooldown.

Definition applyTransientRateLimitLocked (a : Auth) (state : ModelState) (result : Result) (now : Time)
    (ef : resultStateEffects) : Auth * resultStateEffects :=
  let state := mset_Quota quota_zero
    (mset_NextRetryAfter (deadline_after now (transient_cooldown a result)) state) in
  let a := set_UpdatedAt now (set_Status StatusError (put_state (re_Model result) state a)) in
  (updateAggregatedAvailability a now,
   {| ef_shouldResumeModel := ef_shouldResumeModel ef; ef_shouldSuspendModel := ef_shouldSuspendModel ef;
      ef_suspendReason := ef_suspendReason ef; ef_clearModelQuota := true;
      ef_setModelQuota := ef_setModelQuota ef |}).

(** The switch on the status code of [applyModelFailureLocked]: the credential, with
    the model's state written to it, and the effects. *)
Definition model_failure_switch (a : Auth) (state : ModelState) (result : Result) (now : Time)
    (ef : resultStateEffects) : Auth * resultStateEffects :=
  let statusCode := statusCodeFromResult (re_Error result) in
  let put s := put_state (re_Model result) s a in
  let suspended d reason :=
    (put (mset_NextRetryAfter (time_Add now d) state), suspend_effects reason false ef) in
  let quota := let '(s, ef) := applyModelQuotaFailureLocked a state result now ef in (put s, ef) in
  if ((statusCode =? 402) && isQuotaExhaustionError (re_Error result) (re_RetryAfter result)) then quota
  else if statusCode =? 401 then suspended (30 * Minute) "unauthorized"
  else if ((statusCode =? 402) || (statusCode =? 403)) then suspended (30 * Minute) "payment_required"
  else if statusCode =? 404 then suspended (12 * Hour) "not_found"
  else if statusCode =? 429 then
    if isTransientRateLimitError (re_Error result)
    then applyTransientRateLimitLocked a state result now ef
    else quota
  else if transient_status statusCode then
    (put (mset_NextRetryAfter
            (if quotaCooldownDisabledForAuth global a then time_zero
             else if isTransientUpstreamOverloadError (re_Error result)
             then time_Add now transientUpstreamOverloadCooldown
             else time_Add now (1 * Minute)) state), ef)
  else (put (mset_NextRetryAfter time_zero state), ef).

Definition applyModelFailureLocked (a : Auth) (result : Result) (now : Time) (ef : resultStateEffects)
    : Auth * resultStateEffects :=
  let '(state, a) := ensureModelState a (re_Model result) in
  let state := mset_UpdatedAt now (mset_Status StatusError (mset_Unavailable true state)) in
  let state := match re_Error result with
               | Some e => mset_StatusMessage (er_Message e) (mset_LastError (cloneError (re_Error result)) state)
               | None => state end in
  let a := match re_Error result with
           | Some e => set_StatusMessage (er_Message e) (set_LastError (cloneError (re_Error result)) a)
           | None => a end in
  if isResponseStreamIncompleteError (re_Error result) then
    let state := mset_NextRetryAfter time_zero (mset_Unavailable false state) in
    let a := put_state (re_Model result) state a in
    (updateAggregatedAvailability (set_UpdatedAt now (set_Status StatusError a)) now, ef)
  else
    let '(a, ef) := model_failure_switch a state result now ef in
    (updateAggregatedAvailability (set_UpdatedAt now (set_Status StatusError a)) now, ef).

(** ** Results *)

Definition applyFailureLocked (a : Auth) (result : Result) (now : Time) (ef : resultStateEffects)
    : Auth * resultStateEffects :=
  if match re_Error result with Some e => isRequestInvalidError (of_Error e) | None => false end
  then (a, ef)
  else
    let '(handled, a, ef) := applyClaudeOAuthFailureLocked a result now ef in
    if handled then (a, ef)
    else if ! String.eqb (re_Model result) "" then applyModelFailureLocked a result now ef
    else (applyAuthFailureState a (re_Error result) (re_RetryAfter result) now, ef).

Definition applySuccessLocked (a : Auth) (result : Result) (now : Time) (ef : resultStateEffects)
    : Auth * resultStateEffects :=
  let a := markClaudeOAuthHealthSuccessLocked a result now in
  if ! String.eqb (re_Model result) "" then
    let '(state, a) := ensureModelState a (re_Model result) in
    if (activeModelQuotaCooldown state now && ! quotaNeedsConfirmedRecovery (ms_Quota state) now)
    then (set_UpdatedAt now (updateAggregatedAvailability a now), ef)
    else
      let a := put_state (re_Model result) (resetModelState state now) a in
      let a := updateAggregatedAvailability a now in
      let a := if ! hasModelError a now
               then set_Status StatusActive (set_StatusMessage "" (set_LastError None a)) else a in
      (set_UpdatedAt now a,
       {| ef_shouldResumeModel := true; ef_shouldSuspendModel := ef_shouldSuspendModel ef;
          ef_suspendReason := ef_suspendReason ef; ef_clearModelQuota := true;
          ef_setModelQuota := ef_setModelQuota ef |})
  else if (activeAuthQuotaCooldown a now && ! quotaNeedsConfirmedRecovery (au_Quota a) now)
  then (set_UpdatedAt now (updateAggregatedAvailability a now), ef)
  else (clearAuthStateOnSuccess a now, ef).

Definition applyResultLocked (a : Auth) (result : Result) (now : Time) : Auth * resultStateEffects :=
  if re_Success result then applySuccessLocked a result now no_effects
  else applyFailureLocked a result now no_effects.

End cooldown.

(** ** Backoff *)

Lemma shl1_small n : 0 ≤ n < 63 → shl1 n = 2 ^ n.
Proof.
  intros Hn. unfold shl1. rewrite (proj2 (Z.leb_gt 64 n)) by lia.
  rewrite Z.shiftl_1_l. apply wrap64_id. unfold in_int64, two63.
  pose proof (Z.pow_pos_nonneg 2 n ltac:(lia) ltac:(lia)).
  assert (2 ^ n < 2 ^ 63) by (apply Z.pow_lt_mono_r; lia).
  change (2 ^ 63) with 9223372036854775808 in *. lia.
Qed.

(** The level after [n] quota failures in a row without a hint from upstream. *)
Fixpoint backoff_level (n : nat) : Z :=
  match n with
  | O => 0
  | S n => (nextQuotaCooldown (backoff_level n) false).2
  end.

Lemma nextQuotaCooldown_table l :
  0 ≤ l ≤ 11 → nextQuotaCooldown l false = (Z.min (2 ^ l * Second) quotaBackoffMax, Z.min (l + 1) 11).
Proof.
  intros Hl. assert (Hc : l = 0 ∨ l = 1 ∨ l = 2 ∨ l = 3 ∨ l = 4 ∨ l = 5 ∨ l = 6 ∨ l = 7 ∨ l = 8 ∨
    l = 9 ∨ l = 10 ∨ l = 11) by lia.
  destruct_or! Hc; subst; by vm_compute.
Qed.

Lemma backoff_level_min n : backoff_level n = Z.min (Z.of_nat n) 11.
Proof.
  induction n as [|n IH]; [done|].
  change (backoff_level (S n)) with ((nextQuotaCooldown (backoff_level n) false).2).
  rewrite IH, nextQuotaCooldown_table by lia. simpl. lia.
Qed.

(** Without a hint from upstream the wait after the [n]-th quota failure in a row
    is 2^n seconds capped at thirty minutes, the level stops at eleven, and so the
    64-bit shift and product never overflow. *)
Lemma quota_backoff_doubles n :
  nextQuotaCooldown (backoff_level n) false =
    (Z.min (2 ^ Z.of_nat n * Second) quotaBackoffMax, backoff_level (S n)) ∧
  0 ≤ backoff_level n ≤ 11.
Proof.
  assert (Hr : 0 ≤ backoff_level n ≤ 11) by (rewrite backoff_level_min; lia).
  split; [|done]. rewrite nextQuotaCooldown_table by done. rewrite !backoff_level_min.
  f_equal; [|lia].
  destruct (Z.le_ge_cases (Z.of_nat n) 11) as [Hn|Hn]; [by rewrite (Z.min_l (Z.of_nat n) 11)|].
  rewrite (Z.min_r (Z.of_nat n) 11) by lia.
  assert (2 ^ 11 ≤ 2 ^ Z.of_nat n) by (apply Z.pow_le_mono_r; lia).
  change (2 ^ 11) with 2048 in *. unfold quotaBackoffMax, Minute, Second in *. lia.
Qed.

Section cooldown_lemmas.
Context {RO : RangeOrder} {J : GoJSON}.
Variable global : bool.

Definition quota_failure (result : Result) : bool :=
  let code := statusCodeFromResult (re_Error result) in
  (((code =? 402) && isQuotaExhaustionError (re_Error result) (re_RetryAfter result)) ||
   ((code =? 429) && ! isTransientRateLimitError (re_Error result))).

(** When a model that failed with [result] may be tried again; zero for at once.
    [level] is its backoff level before the failure. *)
Definition model_retry_at (a : Auth) (level : Z) (result : Result) (now : Time) : Time :=
  let code := statusCodeFromResult (re_Error result) in
  let disabled := quotaCooldownDisabledForAuth global a in
  if quota_failure result then
    deadline_after now (quotaFailureCooldown (re_Error result) (re_RetryAfter result) level disabled).1
  else if ((code =? 401) || (code =? 402) || (code =? 403)) then time_Add now (30 * Minute)
  else if code =? 404 then time_Add now (12 * Hour)
  else if code =? 429 then deadline_after now (transient_cooldown global a result)
  else if (transient_status code && ! disabled) then
    time_Add now (if isTransientUpstreamOverloadError (re_Error result)
                  then transientUpstreamOverloadCooldown else Minute)
  else 0.

Lemma deadline_after_future now d : deadline_after now d = 0 ∨ now < deadline_after now d.
Proof. unfold deadline_after, time_Add, time_zero. destruct (Z.ltb_spec 0 d); [right; lia|by left]. Qed.

Lemma model_retry_at_future a level result now :
  model_retry_at a level result now = 0 ∨ now < model_retry_at a level result now.
Proof.
  unfold model_retry_at, time_Add, transientUpstreamOverloadCooldown, Minute, Hour, Second.
  repeat case_if; try apply deadline_after_future; auto; right; lia.
Qed.

Lemma agg_state_fix now s :
  ms_Unavailable s = true → (ms_NextRetryAfter s = 0 ∨ now < ms_NextRetryAfter s) →
  agg_state now s = s.
Proof.
  intros Hu Hn. unfold agg_state. case_if; [done|].
  case_if; [destruct s; simpl in *; by subst|]. rewrite Hu. case_if; [done|].
  unfold After, IsZero in *. case_if; [done|]. zbool. lia.
Qed.

Lemma put_lookup model s a : au_ModelStates (put_state model s a) !! model = Some (Some s).
Proof. simpl. apply lookup_insert_eq. Qed.

Lemma aggregate_lookup a now model s :
  au_ModelStates a !! model = Some (Some s) →
  au_ModelStates (updateAggregatedAvailability a now) !! model = Some (Some (agg_state now s)).
Proof.
  intros H. destruct (aggregate_frame a now) as (_ & _ & _ & _ & _ & -> & _).
  by rewrite lookup_fmap, H.
Qed.

(** The state [applyModelFailureLocked] has prepared when it reaches the switch. *)
Definition failing_state (a : Auth) (result : Result) (now : Time) : ModelState :=
  let s := mset_UpdatedAt now (mset_Status StatusError
             (mset_Unavailable true (ensureModelState a (re_Model result)).1)) in
  match re_Error result with
  | Some e => mset_StatusMessage (er_Message e) (mset_LastError (cloneError (re_Error result)) s)
  | None => s end.

Definition prev_level (a : Auth) (model : string) : Z :=
  q_BackoffLevel (ms_Quota (ensureModelState a model).1).

Lemma failing_state_fields a result now :
  ms_Unavailable (failing_state a result now) = true ∧
  ms_Status (failing_state a result now) = StatusError ∧
  ms_Quota (failing_state a result now) = ms_Quota (ensureModelState a (re_Model result)).1.
Proof. unfold failing_state. destruct (re_Error result); done. Qed.

(** What a failure leaves for the model, [s] being its prepared state. *)
Definition parked (a : Auth) (s : ModelState) (result : Result) (now : Time) (a' : Auth) : Prop :=
  ∃ s', au_ModelStates a' !! re_Model result = Some (Some s') ∧ agg_state now s' = s' ∧
    ms_Unavailable s' = true ∧ ms_Status s' = StatusError ∧
    ms_NextRetryAfter s' = model_retry_at a (q_BackoffLevel (ms_Quota s)) result now ∧
    (quota_failure result = true → q_Exceeded (ms_Quota s') = true ∧
       q_NextRecoverAt (ms_Quota s') = ms_NextRetryAfter s') ∧
    (quota_failure result = false → ms_Quota s' = quota_zero ∨ ms_Quota s' = ms_Quota s) ∧
    (∀ m, m ≠ re_Model result → au_ModelStates a !! m = None → au_ModelStates a' !! m = None) ∧
    au_Disabled a' = au_Disabled a ∧ au_Provider a' = au_Provider a ∧
    au_Attributes a' = au_Attributes a ∧ au_Metadata a' = au_Metadata a.

Lemma put_other model s a m :
  m ≠ model → au_ModelStates a !! m = None → au_ModelStates (put_state model s a) !! m = None.
Proof. intros Hm Hn. simpl. by rewrite lookup_insert_ne. Qed.

Section switch.
Variables (a : Auth) (s : ModelState) (result : Result) (now : Time).
Hypothesis Hu : ms_Unavailable s = true.
Hypothesis Hst : ms_Status s = StatusError.
Let at_ := model_retry_at a (q_BackoffLevel (ms_Quota s)) result now.

Lemma parked_quota ef a' ef' :
  at_ = deadline_after now (quotaFailureCooldown (re_Error result) (re_RetryAfter result)
          (q_BackoffLevel (ms_Quota s)) (quotaCooldownDisabledForAuth global a)).1 →
  quota_failure result = true →
  (let '(s', ef0) := applyModelQuotaFailureLocked global a s result now ef in
     (put_state (re_Model result) s' a, ef0)) = (a', ef') →
  parked a s result now a'.
Proof.
  intros Hr Hq. pose proof (model_retry_at_future a (q_BackoffLevel (ms_Quota s)) result now) as Hfut.
  fold at_ in Hfut. unfold applyModelQuotaFailureLocked, parked.
  destruct (quotaFailureCooldown _ _ _ _) as [d lv]. intros [= <- _]. simpl in Hr. fold at_.
  eexists. split; [apply put_lookup|]. rewrite Hr in Hfut |- *.
  split; [by apply agg_state_fix|]. rewrite Hq. split_and!; try done. intros. by apply put_other.
Qed.

Lemma parked_plain t :
  t = at_ → quota_failure result = false →
  parked a s result now (put_state (re_Model result) (mset_NextRetryAfter t s) a).
Proof.
  intros -> Hq. eexists. split; [apply put_lookup|].
  split; [apply agg_state_fix; [done|apply model_retry_at_future]|].
  simpl. rewrite Hq. split_and!; try done; [by right|]. intros. by apply (put_other _ (mset_NextRetryAfter at_ s) a).
Qed.

Lemma parked_throttled :
  let s' := mset_Quota quota_zero
    (mset_NextRetryAfter (deadline_after now (transient_cooldown global a result)) s) in
  let a0 := set_UpdatedAt now (set_Status StatusError (put_state (re_Model result) s' a)) in
  at_ = deadline_after now (transient_cooldown global a result) → quota_failure result = false →
  parked a s result now (updateAggregatedAvailability a0 now).
Proof.
  intros s' a0 Hr Hq. pose proof (model_retry_at_future a (q_BackoffLevel (ms_Quota s)) result now) as Hfut.
  fold at_ in Hfut. rewrite Hr in Hfut.
  destruct (aggregate_frame a0 now) as (_ & Hp & Hd & Hat & Hm & Hms & _).
  eexists. split; [apply aggregate_lookup, (put_lookup _ s' a)|]. fold at_. rewrite Hr.
  rewrite !(agg_state_fix now s') by done.
  split_and!; try done; [congruence|by left|].
  intros m Hne Hno. rewrite Hms, lookup_fmap.
  change (au_ModelStates a0) with (au_ModelStates (put_state (re_Model result) s' a)).
  by rewrite put_other.
Qed.

(** One status code of the switch that only parks the model. *)
Ltac plain_case Hcd Hplain :=
  rewrite ?Hcd in *; simpl in *; simplify_eq; by apply Hplain.

Lemma switch_parks ef a' ef' :
  model_failure_switch global a s result now ef = (a', ef') → parked a s result now a'.
Proof.
  pose proof parked_quota as Hquota. pose proof parked_plain as Hplain.
  pose proof parked_throttled as Hthr.
  unfold model_failure_switch. cbv zeta. intros H. unfold at_, model_retry_at, quota_failure in *.
  remember (statusCodeFromResult (re_Error result)) as code eqn:Hcode in *. clear Hcode at_.
  destruct ((code =? 402) && isQuotaExhaustionError _ _)%bool eqn:E402; simpl in *.
  { by eapply Hquota. }
  destruct (Z.eqb_spec code 401) as [Hcd|]; simpl in *; [plain_case Hcd Hplain|].
  destruct (Z.eqb_spec code 402) as [Hcd|]; simpl in *; [plain_case Hcd Hplain|].
  destruct (Z.eqb_spec code 403) as [Hcd|]; simpl in *; [plain_case Hcd Hplain|].
  destruct (Z.eqb_spec code 404) as [Hcd|]; simpl in *; [plain_case Hcd Hplain|].
  destruct (Z.eqb_spec code 429) as [Hcd|]; simpl in *.
  - destruct (isTransientRateLimitError (re_Error result)); simpl in *; [|by eapply Hquota].
    unfold applyTransientRateLimitLocked in H. injection H as <- _.
    by apply Hthr.
  - destruct (transient_status code); simpl in *; simplify_eq; apply Hplain; try done.
    destruct (quotaCooldownDisabledForAuth global a); [done|]. simpl. by case_if.
Qed.
End switch.

Definition prepared (a : Auth) (result : Result) : Auth :=
  let a := (ensureModelState a (re_Model result)).2 in
  match re_Error result with
  | Some e => set_StatusMessage (er_Message e) (set_LastError (cloneError (re_Error result)) a)
  | None => a end.

Lemma prepared_frame a result :
  au_Disabled (prepared a result) = au_Disabled a ∧ au_Provider (prepared a result) = au_Provider a ∧
  au_Attributes (prepared a result) = au_Attributes a ∧ au_Metadata (prepared a result) = au_Metadata a ∧
  (∀ m, m ≠ re_Model result → au_ModelStates a !! m = None → au_ModelStates (prepared a result) !! m = None).
Proof.
  unfold prepared, ensureModelState.
  destruct (mjoin _), (re_Error result); simpl; split_and!; try done;
    intros m Hm Hn; by rewrite lookup_insert_ne.
Qed.

(** The model a failure was reported for waits until [model_retry_at]. *)
Lemma model_failure_parks a result now ef a' ef' :
  applyModelFailureLocked global a result now ef = (a', ef') →
  isResponseStreamIncompleteError (re_Error result) = false →
  parked a (failing_state a result now) result now a' ∧ au_Status a' ≠ StatusDisabled ∧
  ∃ a0, a' = updateAggregatedAvailability a0 now.
Proof.
  intros H Hinc. destruct (failing_state_fields a result now) as (Hu & Hst & Hq).
  unfold applyModelFailureLocked in H. rewrite Hinc in H. fold (prepared a result) in H.
  assert (Hprep : ∃ s2 a2 e2, s2 = failing_state a result now ∧ a2 = prepared a result ∧
    model_failure_switch global a2 s2 result now ef = e2 ∧
    a' = updateAggregatedAvailability (set_UpdatedAt now (set_Status StatusError e2.1)) now).
  { unfold failing_state, prepared. destruct (ensureModelState a (re_Model result)) as [s0 a0].
    destruct (model_failure_switch _ _ _ _ _ _) as [a2 ef2] eqn:E. simplify_eq. eauto 8. }
  destruct Hprep as (s2 & a2 & [a3 ef3] & -> & -> & Hsw & ->). clear H. simpl.
  apply switch_parks in Hsw as (s' & Hs' & Hfix & Hu' & Hst' & Hn' & Hq1 & Hq2 & Ho & Hd & Hp & Hat & Hm);
    [|done|done].
  destruct (prepared_frame a result) as (Hd0 & Hp0 & Hat0 & Hm0 & Ho0).
  set (a4 := set_UpdatedAt now (set_Status StatusError a3)).
  destruct (aggregate_frame a4 now) as (_ & Hp4 & Hd4 & Hat4 & Hm4 & Hms4 & _ & _ & Hst4).
  split; [|split; [destruct Hst4 as [->| ->]; done|by eexists]].
  exists s'. split_and!; try done.
  - pose proof (aggregate_lookup a4 now _ s' Hs') as Hl. by rewrite Hfix in Hl.
  - rewrite Hn'. unfold model_retry_at, transient_cooldown, quotaCooldownDisabledForAuth, DisableCoolingOverride.
    by rewrite Hm0.
  - intros m Hne Hno. rewrite Hms4, lookup_fmap. simpl. rewrite Ho; auto.
  - rewrite Hd4. simpl. congruence.
  - rewrite Hp4. simpl. congruence.
  - rewrite Hat4. simpl. congruence.
  - rewrite Hm4. simpl. congruence.
Qed.
End cooldown_lemmas.

(** ** Theorems *)

Section cooldown_theorems.
Context {RO : RangeOrder} {J : GoJSON}.
Variable global : bool.

Lemma state_blocks a m s t :
  m ≠ "" → au_ModelStates a !! m = Some (Some s) → ms_Unavailable s = true → 0 ≤ t →
  t < ms_NextRetryAfter s → (isAuthBlockedForModel (Some a) m t).1.1 = true.
Proof.
  intros Hm Hs Hu Ht Hlt. unfold isAuthBlockedForModel. case_if; [done|]. cbv zeta. case_if; [done|].
  rewrite (proj2 (String.eqb_neq m "")) by done. simpl.
  rewrite bool_decide_false.
  2:{ intros Hz. apply map_size_empty_inv in Hz. by rewrite Hz in Hs. }
  assert (lookup_model_state (au_ModelStates a) m = Some s) as ->.
  { unfold lookup_model_state. by rewrite Hs. }
  unfold model_state_blocked. case_if; [done|]. case_if; [done|].
  rewrite Hu. unfold IsZero, After. rewrite (proj2 (Z.eqb_neq (ms_NextRetryAfter s) 0)) by lia.
  rewrite (proj2 (Z.ltb_lt t _)) by done. simpl. by case_if.
Qed.

(** The result reaches [applyModelFailureLocked]. *)
Definition plain_model_failure (a : Auth) (result : Result) : Prop :=
  re_Success result = false ∧ re_Model result ≠ "" ∧ isClaudeOAuthAuth a = false ∧
  isResponseStreamIncompleteError (re_Error result) = false ∧
  match re_Error result with Some e => isRequestInvalidError (of_Error e) = false | None => True end.

Lemma plain_model_failure_eq a result now :
  plain_model_failure a result →
  applyResultLocked global a result now = applyModelFailureLocked global a result now no_effects.
Proof.
  intros (Hs & Hm & Hc & Hi & He). unfold applyResultLocked, applyFailureLocked. rewrite Hs.
  assert (Hr : match re_Error result with
    Some e => isRequestInvalidError (of_Error e) | None => false end = false).
  { by destruct (re_Error result). }
  rewrite Hr. unfold applyClaudeOAuthFailureLocked. rewrite Hc. simpl.
  by rewrite (proj2 (String.eqb_neq _ _) Hm).
Qed.

Lemma parks_model a result now a' ef t :
  0 ≤ now → plain_model_failure a result →
  applyResultLocked global a result now = (a', ef) →
  now ≤ t < model_retry_at global a (prev_level a (re_Model result)) result now →
  (isAuthBlockedForModel (Some a') (re_Model result) t).1.1 = true.
Proof.
  intros Hn Hp H Ht. rewrite plain_model_failure_eq in H by done. destruct Hp as (_ & Hm & _ & Hi & _).
  apply model_failure_parks in H as [(s' & Hs' & _ & Hu & _ & Hr & _) _]; [|done].
  destruct (failing_state_fields a result now) as (_ & _ & Hq).
  eapply state_blocks; [done|done|done|lia|]. rewrite Hr, Hq. apply Ht.
Qed.

(** What the failure leaves for its model. *)
Definition prev_quota (a : Auth) (model : string) : QuotaState := ms_Quota (ensureModelState a model).1.

Lemma parked_state a result now a' ef :
  plain_model_failure a result → applyResultLocked global a result now = (a', ef) →
  ∃ s', au_ModelStates a' !! re_Model result = Some (Some s') ∧ ms_Unavailable s' = true ∧
    ms_NextRetryAfter s' = model_retry_at global a (prev_level a (re_Model result)) result now ∧
    (quota_failure result = true → q_Exceeded (ms_Quota s') = true) ∧
    (quota_failure result = false → ms_Quota s' = quota_zero ∨ ms_Quota s' = prev_quota a (re_Model result)).
Proof.
  intros Hp H. rewrite plain_model_failure_eq in H by done. destruct Hp as (_ & _ & _ & Hi & _).
  apply model_failure_parks in H as [(s' & Hs' & _ & Hu & _ & Hr & Hq1 & Hq2 & _) _]; [|done].
  destruct (failing_state_fields a result now) as (_ & _ & Hq). rewrite Hq in Hr, Hq2.
  exists s'. split_and!; try done. intros E. by apply Hq1.
Qed.

(** A blocked credential is only handed out by the optimistic retry. *)
Lemma picked_while_blocked auths provider model t l (a : Auth) :
  getAvailableAuths auths provider model t = inr l → a ∈ l →
  (isAuthBlockedForModel (Some a) model t).1.1 = true →
  l = [a] ∧ (∀ c, c ∈ auths → (isAuthBlockedForModel c model t).1.1 = true) ∧
  optimistic_ok model t (Some a) = true.
Proof.
  intros Hget Hin Hb. pose proof (getAvailableAuths_contract auths provider model t) as H. rewrite Hget in H.
  destruct H as (_ & _ & _ & [Hperm|(Hall & b & -> & _ & Hok & _)]).
  - rewrite Hperm in Hin. apply list_elem_of_In, List.filter_In in Hin as [Hin _].
    apply list_elem_of_In, list_elem_of_omap in Hin as (c & _ & Hav). unfold available_of, blocked_of in Hav.
    destruct (isAuthBlockedForModel c model t).1.1 eqn:E; [done|]. subst c. congruence.
  - apply list_elem_of_singleton in Hin as ->. done.
Qed.

(** When the optimistic retry takes a model whose wait is running. *)
Lemma optimistic_end a m s t :
  m ≠ "" → au_ModelStates a !! m = Some (Some s) → optimistic_ok m t (Some a) = true →
  ms_Unavailable s = true →
  q_Exceeded (ms_Quota s) = false ∧
  (ms_NextRetryAfter s ≤ t + optimisticRetryWindow ∨
   t < q_NextRecoverAt (ms_Quota s) ≤ t + optimisticRetryWindow).
Proof.
  intros Hm Hs Hok Hu. unfold optimistic_ok, reason_of, next_of in Hok. zbool.
  assert (Hst : isAuthBlockedForModel (Some a) m t = model_state_blocked s t ∨
    (isAuthBlockedForModel (Some a) m t).1.2 ≠ blockReasonOther).
  { unfold isAuthBlockedForModel. case_if; [by right|]. cbv zeta. case_if; [by right|].
    rewrite (proj2 (String.eqb_neq m "")) by done. cbn [negb]. rewrite bool_decide_false.
    2:{ intros Hz. apply map_size_empty_inv in Hz. by rewrite Hz in Hs. }
    unfold lookup_model_state. rewrite Hs. by left. }
  unfold reason_eqb in *. match goal with H : bool_decide _ = true |- _ => apply bool_decide_eq_true in H; rename H into Hr end.
  destruct Hst as [E|E]; [|congruence]. rewrite E in *. unfold model_state_blocked, After, Before, IsZero, time_Add in *.
  repeat case_if_in Hr; cbn [fst snd] in *; try discriminate; zbool.
  all: repeat match goal with H : context [if ?b then _ else _] |- _ => destruct b eqn:?; cbn [fst snd] in * end; zbool; try done; split; try done; lia.
Qed.

(** A credential nothing has been recorded for yet. *)
Definition fresh (a : Auth) : Prop :=
  au_ModelStates a = ∅ ∧ au_Disabled a = false ∧ IsAntigravityAuth a = false.

Lemma model_states_singleton a m s s0 :
  au_ModelStates a = {[m := Some s]} → s0 ∈ model_states a ↔ s0 = s.
Proof.
  intros H. rewrite elem_of_model_states, H. split.
  - intros [k Hk]. by apply lookup_singleton_Some in Hk as [_ [= <-]].
  - intros ->. exists m. apply lookup_singleton_eq.
Qed.

(** A quota deadline that is the only one on record is the credential's. *)
Lemma recover_singleton a m s :
  au_ModelStates a = {[m := Some s]} →
  earliest_of (omap recover_deadline (model_states a)) =
  if q_Exceeded (ms_Quota s) then q_NextRecoverAt (ms_Quota s) else 0.
Proof.
  intros H. rewrite (earliest_of_ext _ (omap recover_deadline [s])).
  - simpl. unfold recover_deadline. destruct (q_Exceeded (ms_Quota s)); [|done].
    unfold earliest_of. simpl. destruct (IsZero (q_NextRecoverAt (ms_Quota s))) eqn:E; simpl.
    + unfold IsZero in E. by zbool.
    + done.
  - intros t. rewrite !list_elem_of_omap. split; intros (x & Hx & Ht); exists x; (split; [|done]).
    + apply (model_states_singleton a m s x H) in Hx as ->. left.
    + apply list_elem_of_singleton in Hx as ->. by apply (model_states_singleton a m s s H).
Qed.

(** A credential with one recorded state that no longer holds anything down. *)
Lemma one_state_open a m s t :
  m ≠ "" → au_ModelStates a = {[m := Some s]} → au_Disabled a = false → au_Status a ≠ StatusDisabled →
  IsAntigravityAuth a = false → q_NextRecoverAt (au_Quota a) ≤ t → ms_Status s = StatusError →
  ms_NextRetryAfter s ≤ t → (q_Exceeded (ms_Quota s) = true → q_NextRecoverAt (ms_Quota s) ≤ t) →
  (isAuthBlockedForModel (Some a) m t).1.1 = false.
Proof.
  intros Hm Hone Hd Hst Hanti Hq Hse Hnext Hmq. unfold isAuthBlockedForModel.
  rewrite Hd. unfold status_eqb. rewrite bool_decide_false by done. simpl.
  rewrite Hanti. simpl. unfold quotaNeedsConfirmedRecovery, After.
  rewrite (proj2 (Z.ltb_ge t (q_NextRecoverAt (au_Quota a)))) by done.
  rewrite !andb_false_r. simpl. rewrite (proj2 (String.eqb_neq m "")) by done. simpl.
  rewrite bool_decide_false by (rewrite Hone, map_size_singleton; done).
  assert (lookup_model_state (au_ModelStates a) m = Some s) as ->.
  { unfold lookup_model_state. by rewrite Hone, lookup_singleton_eq. }
  unfold model_state_blocked, status_eqb. rewrite Hse, bool_decide_false by done.
  unfold quotaNeedsConfirmedRecovery, After.
  rewrite (proj2 (Z.ltb_ge t (ms_NextRetryAfter s))), andb_false_r by done.
  destruct (q_Exceeded (ms_Quota s)); [|done].
  by rewrite (proj2 (Z.ltb_ge t (q_NextRecoverAt (ms_Quota s)))), andb_false_r by auto.
Qed.

Lemma fresh_parks_exactly a result now a' ef t :
  0 ≤ now → fresh a → plain_model_failure a result →
  applyResultLocked global a result now = (a', ef) → now ≤ t →
  model_retry_at global a (prev_level a (re_Model result)) result now ≤ t →
  (isAuthBlockedForModel (Some a') (re_Model result) t).1.1 = false.
Proof.
  intros Hn (Hms & Hdis & Hanti) Hp H Ht Hd. rewrite plain_model_failure_eq in H by done.
  destruct Hp as (_ & Hm & _ & Hi & _).
  apply model_failure_parks in H as [Hpk (Hst & a0 & Ha0)]; [|done].
  destruct Hpk as (s' & Hs' & _ & Hu & Hse & Hr & Hq1 & Hq2 & Ho & Hd' & Hp' & Hat & Hmt).
  destruct (failing_state_fields a result now) as (_ & _ & Hq). rewrite Hq in Hr, Hq2.
  fold (prev_level a (re_Model result)) in Hr. rewrite <- Hr in Hd.
  assert (Hone : au_ModelStates a' = {[re_Model result := Some s']}).
  { apply map_eq. intros m. destruct (decide (m = re_Model result)) as [->|Hne].
    - by rewrite lookup_singleton_eq.
    - rewrite lookup_singleton_ne by done. apply Ho; [done|]. by rewrite Hms. }
  assert (Hanti' : IsAntigravityAuth a' = false).
  { unfold IsAntigravityAuth in *. by rewrite Hp', ?Hat, ?Hmt. }
  assert (Hdl : q_Exceeded (ms_Quota s') = true → q_NextRecoverAt (ms_Quota s') ≤ t).
  { intros Hx. destruct (quota_failure result); [destruct (Hq1 eq_refl) as [_ ->]; done|].
    destruct (Hq2 eq_refl) as [Hz|Hz]; rewrite Hz in Hx; [done|].
    unfold ensureModelState in Hx. by rewrite Hms in Hx. }
  assert (Hauth : q_NextRecoverAt (au_Quota a') ≤ t).
  { rewrite Ha0, aggregate_recover; [|done|..].
    - rewrite <- Ha0, (recover_singleton a' _ _ Hone).
      destruct (q_Exceeded (ms_Quota s')); [by apply Hdl|lia].
    - intros Hz. rewrite Ha0 in Hone.
      destruct (aggregate_frame a0 now) as (_ & _ & _ & _ & _ & Hf & _).
      rewrite Hf, Hz, fmap_empty in Hone. symmetry in Hone. by apply map_non_empty_singleton in Hone.
    - by rewrite <- (aggregate_antigravity_iff a0 now), <- Ha0. }
  rewrite Hdis in Hd'. by eapply one_state_open.
Qed.

(** C11: a failure reported for a model, on a credential that is not a Claude OAuth account
    (those have a ladder of their own), blocks the model from now until the deadline its
    status code stands for ([model_retry_at]: 30 minutes for 401, 402 and 403, 12 hours for
    404, the quota cooldown for an exhausted 402 or 429, a minute or the upstream hint for a
    throttled 429, a minute or five seconds for 408 and 5xx unless cooling is disabled),
    whatever else is recorded on the credential. In that time selection hands the credential
    out for the model in one case only: every candidate is blocked, the failure was not one
    of quota, and the wait (or what is left of an older recovery time) ends within the ten
    seconds of the optimistic retry; then it is the only credential offered. *)
Theorem failure_parks_model a result now a' ef t :
  0 ≤ now → plain_model_failure a result →
  applyResultLocked global a result now = (a', ef) →
  let model := re_Model result in
  let deadline := model_retry_at global a (prev_level a model) result now in
  now ≤ t < deadline →
  (isAuthBlockedForModel (Some a') model t).1.1 = true ∧
  ∀ auths provider l, getAvailableAuths auths provider model t = inr l → a' ∈ l →
    l = [a'] ∧ (∀ c, c ∈ auths → (isAuthBlockedForModel c model t).1.1 = true) ∧
    quota_failure result = false ∧
    (deadline ≤ t + optimisticRetryWindow ∨
     t < q_NextRecoverAt (prev_quota a model) ≤ t + optimisticRetryWindow).
Proof.
  intros Hn Hp H model deadline Ht. pose proof (parks_model a result now a' ef t Hn Hp H Ht) as Hb.
  split; [done|]. intros auths provider l Hget Hin.
  destruct (picked_while_blocked auths provider model t l a' Hget Hin Hb) as (-> & Hall & Hok).
  split; [done|]. split; [done|].
  destruct (parked_state a result now a' ef Hp H) as (s' & Hs' & Hu & Hr & Hq1 & Hq2).
  pose proof (proj1 (proj2 Hp)) as Hm.
  destruct (optimistic_end a' model s' t Hm Hs') as (Hx & Hw); [done|done|].
  assert (Hqf : quota_failure result = false) by (apply not_true_iff_false; intros E; by rewrite (Hq1 E) in Hx).
  split; [done|]. rewrite Hr in Hw. destruct Hw as [Hw|Hw]; [by left|].
  destruct (Hq2 Hqf) as [E|E]; rewrite E in Hw; [cbn in Hw; lia|by right].
Qed.

(** And it comes back on time: for a credential without history the model is
    blocked at [t] exactly while [t] is before that deadline, so that a failure with
    no deadline (an unknown status, or a transient one with cooling disabled) does
    not take the model out at all. *)
Lemma failure_parks_exactly a result now a' ef t :
  0 ≤ now → fresh a → plain_model_failure a result →
  applyResultLocked global a result now = (a', ef) → now ≤ t →
  (isAuthBlockedForModel (Some a') (re_Model result) t).1.1 = true ↔
  t < model_retry_at global a (prev_level a (re_Model result)) result now.
Proof.
  intros Hn Hf Hp H Ht.
  pose proof (fresh_parks_exactly a result now a' ef t Hn Hf Hp H Ht) as Hopen.
  split; [|intros; by eapply parks_model].
  intros Hb. destruct (Z.lt_ge_cases t (model_retry_at global a (prev_level a (re_Model result)) result now))
    as [|Hge]; [done|]. rewrite Hopen in Hb; done.
Qed.

(** *** Success *)

Lemma success_model_state a result now a' ef :
  re_Success result = true → re_Model result ≠ "" →
  applyResultLocked global a result now = (a', ef) →
  let s := (ensureModelState a (re_Model result)).1 in
  if (activeModelQuotaCooldown s now && ! quotaNeedsConfirmedRecovery (ms_Quota s) now)
  then au_ModelStates a' !! re_Model result = Some (Some (agg_state now s)) ∧ ef = no_effects
  else au_ModelStates a' !! re_Model result = Some (Some (resetModelState s now)) ∧
       ef_shouldResumeModel ef = true ∧ ef_clearModelQuota ef = true ∧
       ef_shouldSuspendModel ef = false ∧ ef_setModelQuota ef = false.
Proof.
  intros Hs Hm H. unfold applyResultLocked, applySuccessLocked in H. rewrite Hs in H.
  rewrite (proj2 (String.eqb_neq _ _) Hm) in H. simpl in H.
  set (a1 := markClaudeOAuthHealthSuccessLocked a result now) in *.
  assert (Hms : au_ModelStates a1 = au_ModelStates a).
  { unfold a1, markClaudeOAuthHealthSuccessLocked. by case_if. }
  assert (Hst : (ensureModelState a1 (re_Model result)).1 = (ensureModelState a (re_Model result)).1).
  { unfold ensureModelState. rewrite Hms. by destruct (mjoin _). }
  assert (Hin : au_ModelStates (ensureModelState a1 (re_Model result)).2 !! re_Model result =
    Some (Some (ensureModelState a1 (re_Model result)).1)).
  { unfold ensureModelState. rewrite Hms.
    destruct (au_ModelStates a !! re_Model result) as [[s|]|] eqn:E; simpl;
      [by rewrite Hms|apply lookup_insert_eq|apply lookup_insert_eq]. }
  destruct (ensureModelState a1 (re_Model result)) as [s a2]. simpl in Hst, Hin. rewrite <- Hst.
  cbv zeta. destruct (_ && _)%bool.
  - injection H as <- <-. split; [|done]. by apply (aggregate_lookup _ now).
  - injection H as <- <-. split; [|done]. set (b := put_state _ _ _).
    assert (Hb : au_ModelStates (updateAggregatedAvailability b now) !! re_Model result =
      Some (Some (resetModelState s now))).
    { rewrite (aggregate_lookup b now _ (resetModelState s now)); [done|apply put_lookup]. }
    by destruct (hasModelError _ _).
Qed.

(** A success reported for a model brings the model back at once: its state
    blocks it at no time any more, and the registry is asked to resume it and to clear
    its quota flag. The exception is a quota cooldown that is still running and that
    does not wait for a probe: a request that was in flight when the quota ran out does
    not end it. *)
Lemma success_resumes_model a result now a' ef :
  re_Success result = true → re_Model result ≠ "" →
  applyResultLocked global a result now = (a', ef) →
  let s := (ensureModelState a (re_Model result)).1 in
  ∃ s', au_ModelStates a' !! re_Model result = Some (Some s') ∧
  if (activeModelQuotaCooldown s now && ! quotaNeedsConfirmedRecovery (ms_Quota s) now)
  then activeModelQuotaCooldown s' now = true ∧ ef = no_effects
  else (∀ t, (model_state_blocked s' t).1.1 = false) ∧
       ef_shouldResumeModel ef = true ∧ ef_clearModelQuota ef = true ∧
       ef_shouldSuspendModel ef = false ∧ ef_setModelQuota ef = false.
Proof.
  intros Hs Hm H. apply success_model_state in H; [|done|done]. cbv zeta in *.
  set (s := (ensureModelState a (re_Model result)).1) in *.
  destruct (activeModelQuotaCooldown s now) eqn:Ha; [destruct (quotaNeedsConfirmedRecovery _ _)|]; simpl in *.
  - destruct H as (H & Hef). by exists (resetModelState s now).
  - destruct H as [H ->]. eexists. split; [done|]. by rewrite agg_state_cooldown.
  - destruct H as (H & Hef). by exists (resetModelState s now).
Qed.

(** *** Throttling is not exhaustion *)

(** A 429 whose body describes short-term throttling never marks the model as out
    of quota: whatever was recorded before, its quota state is empty afterwards, and
    the registry is told to clear the quota flag, not to set it or to suspend the
    model. *)
Lemma throttling_is_not_exhaustion a result now a' ef :
  plain_model_failure a result → statusCodeFromResult (re_Error result) = 429 →
  isTransientRateLimitError (re_Error result) = true →
  applyResultLocked global a result now = (a', ef) →
  (∃ s', au_ModelStates a' !! re_Model result = Some (Some s') ∧ ms_Quota s' = quota_zero) ∧
  ef_clearModelQuota ef = true ∧ ef_setModelQuota ef = false ∧ ef_shouldSuspendModel ef = false.
Proof.
  intros Hp Hc Htr H. rewrite plain_model_failure_eq in H by done. destruct Hp as (_ & _ & _ & Hi & _).
  unfold applyModelFailureLocked in H. rewrite Hi in H.
  destruct (ensureModelState a (re_Model result)) as [s0 a0].
  unfold model_failure_switch in H. rewrite Hc, Htr in H. simpl in H. injection H as <- <-.
  split; [|done]. eexists. split.
  - apply (aggregate_lookup _ now), (aggregate_lookup _ now), put_lookup.
  - by rewrite !agg_state_quota.
Qed.

End cooldown_theorems.

(** ** Concrete results *)

Definition failure (status : Z) (message window : string) (minutes : Z) (retry : option Duration) : Result :=
  {| re_AuthID := "acct"; re_Model := "grok-4"; re_Success := false; re_RetryAfter := retry;
     re_Headers := ∅;
     re_Error := Some {| er_Code := ""; er_Message := message; er_Retryable := false;
                         er_HTTPStatus := status; er_QuotaWindow := window;
                         er_QuotaWindowMinutes := minutes |} |}.

Definition success : Result :=
  {| re_AuthID := "acct"; re_Model := "grok-4"; re_Success := true; re_RetryAfter := None;
     re_Headers := ∅; re_Error := None |}.

Definition xai : Auth := auth_new "acct" "xai" ∅ ∅.
Definition xai_no_cooling : Auth := auth_new "acct" "xai" ∅ {["disable_cooling" := ABool true]}.

Definition week_exhausted : Result :=
  failure 402 "usage balance exhausted" "week" 10080 (Some (5 * Minute)).

Lemma plain_failure_example status : 
  status ≠ 400 → plain_model_failure (J := no_json) xai (failure status "slow down" "" 0 None).
Proof.
  intros H. split_and!; [done|done|by vm_compute|by vm_compute|]. simpl.
  unfold isRequestInvalidError. simpl. by rewrite (proj2 (Z.eqb_neq status 400) H).
Qed.

(** The per-model path sets the probe-confirmed gate for an exhausted week even
    on a credential with [disable_cooling], where the per-credential path leaves it
    off, as the comment there demands; aggregation then puts the gate on the whole
    credential. *)
Lemma model_gate_ignores_disable_cooling :
  quotaCooldownDisabledForAuth false xai_no_cooling = true ∧
  q_RecoveryRequired (au_Quota (applyAuthFailureState false xai_no_cooling
    (re_Error week_exhausted) (re_RetryAfter week_exhausted) 1000)) = false ∧
  q_RecoveryRequired (au_Quota (@applyResultLocked listing_order no_json false
    xai_no_cooling week_exhausted 1000).1) = true.
Proof. split_and!; by vm_compute. Qed.

(** Half an hour of 403: a pool of this credential alone offers nothing, 29 minutes in. *)
Lemma failure_parks_model_witness :
  let a' := (@applyResultLocked listing_order no_json false xai (failure 403 "slow down" "" 0 None) 1000).1 in
  (isAuthBlockedForModel (RO := listing_order) (Some a') "grok-4" (1000 + 29 * Minute)).1.1 = true ∧
  ∀ l, getAvailableAuths (RO := listing_order) [Some a'] "xai" "grok-4" (1000 + 29 * Minute) = inr l → a' ∉ l.
Proof.
  intros a'.
  destruct (@failure_parks_model listing_order no_json false xai (failure 403 "slow down" "" 0 None) 1000 a'
    (@applyResultLocked listing_order no_json false xai (failure 403 "slow down" "" 0 None) 1000).2
    (1000 + 29 * Minute)) as [Hb Hp].
  - done.
  - by apply plain_failure_example.
  - unfold a'. by destruct (applyResultLocked _ _ _ _).
  - by vm_compute.
  - split; [exact Hb|]. intros l Hget Hin. destruct (Hp _ _ l Hget Hin) as (_ & _ & _ & H).
    revert H. vm_compute. intros [H|[H _]]; [by apply H|discriminate H].
Defined.

Lemma failure_parks_exactly_witness :
  (isAuthBlockedForModel (RO := listing_order)
     (Some (@applyResultLocked listing_order no_json false xai (failure 500 "slow down" "" 0 None) 1000).1)
     "grok-4" (1000 + 59 * Second)).1.1 = true.
Proof.
  apply (@failure_parks_exactly listing_order no_json false xai (failure 500 "slow down" "" 0 None) 1000 _
    (@applyResultLocked listing_order no_json false xai (failure 500 "slow down" "" 0 None) 1000).2).
  - done.
  - split_and!; by vm_compute.
  - by apply plain_failure_example.
  - by destruct (applyResultLocked _ _ _ _).
  - by vm_compute.
  - by vm_compute.
Defined.

Lemma success_resumes_model_witness :
  ∃ s', au_ModelStates (@applyResultLocked listing_order no_json false xai success 1000).1 !! "grok-4"
    = Some (Some s') ∧ (∀ t, (model_state_blocked s' t).1.1 = false).
Proof.
  destruct (@success_resumes_model listing_order no_json false xai success 1000
    (@applyResultLocked listing_order no_json false xai success 1000).1
    (@applyResultLocked listing_order no_json false xai success 1000).2)
    as (s' & H1 & H2); [done|done|by destruct (applyResultLocked _ _ _ _)|].
  exists s'. split; [exact H1|]. exact (proj1 H2).
Defined.

Lemma throttling_is_not_exhaustion_witness :
  ef_setModelQuota (@applyResultLocked listing_order no_json false xai
    (failure 429 "Resource has been exhausted" "" 0 None) 1000).2 = false.
Proof.
  set (r := failure 429 "Resource has been exhausted" "" 0 None).
  destruct (@throttling_is_not_exhaustion listing_order no_json false xai r 1000
    (@applyResultLocked listing_order no_json false xai r 1000).1
    (@applyResultLocked listing_order no_json false xai r 1000).2) as (_ & _ & H & _).
  - split_and!; by vm_compute.
  - done.
  - by vm_compute.
  - by destruct (applyResultLocked _ _ _ _).
  - exact H.
Defined.
