(* ===== verification/Conductor.v ===== *)
(** * The conductor: results, cooldowns across processes and retries

    Models [src/sdk/cliproxy/auth/conductor_cooldown_service.go] ([markResult],
    [closestWait], [shouldRetryAfterError], [applyRegistryEffects]) and
    [conductor_cooldown_cluster.go]. The manager's table of credentials is a map;
    calls to the model registry are recorded as [RegistryCall]s. *)
From S2P Require Import Prelude GoModel AuthTypes ModelNames Availability Aggregate QuotaPersist ClaudeHealth Cooldown.
From stdpp Require Import pretty.
Local Open Scope Z_scope.
Local Open Scope go_scope.

Abbreviation auths := (gmap string (option Auth)) (only parsing).

(** ** Registry calls *)

Inductive RegistryCall :=
| ClearModelQuotaExceeded (authID model : string)
| SetModelQuotaExceeded (authID model : string)
| ResumeClientModel (authID model : string)
| SuspendClientModel (authID model reason : string).

Definition applyRegistryEffects (result : Result) (ef : resultStateEffects) : list RegistryCall :=
  let id := re_AuthID result in let model := re_Model result in
  (if (ef_clearModelQuota ef && ! String.eqb model "") then [ClearModelQuotaExceeded id model] else []) ++
  (if (ef_setModelQuota ef && ! String.eqb model "") then [SetModelQuotaExceeded id model] else []) ++
  (if ef_shouldResumeModel ef then [ResumeClientModel id model]
   else if ef_shouldSuspendModel ef then [SuspendClientModel id model (ef_suspendReason ef)] else []).

(** ** Cooldown notices *)

Record CooldownNotice := MkNotice {
  cn_AuthID : string; cn_Model : string; cn_Until : Time; cn_StatusCode : Z;
  cn_Reason : string; cn_Quota : bool; cn_Origin : string
}.

Definition maxPeerCooldown : Duration := 30 * Minute.

(** The deadline and quota flag of one holder of availability state. *)
Definition deadline_of (unavailable : bool) (next : Time) (q : QuotaState) : Time * bool :=
  let until := if unavailable then next else time_zero in
  if q_Exceeded q then
    (if After (q_NextRecoverAt q) until then q_NextRecoverAt q else until, true)
  else (until, false).

Definition cooldownDeadline (a : Auth) (model : string) (now : Time) : Time * bool :=
  let result :=
    if ! String.eqb model "" then
      match mjoin (au_ModelStates a !! model) with
      | None => None
      | Some s => Some (deadline_of (ms_Unavailable s) (ms_NextRetryAfter s) (ms_Quota s))
      end
    else Some (deadline_of (au_Unavailable a) (au_NextRetryAfter a) (au_Quota a)) in
  match result with
  | None => (time_zero, false)
  | Some (until, quota) => if ! After until now then (time_zero, false) else (until, quota)
  end.

Definition cooldownBeforeLocked (publishing : bool) (a : Auth) (result : Result) (now : Time) : Time :=
  if (! publishing || re_Success result) then time_zero
  else (cooldownDeadline a (re_Model result) now).1.

Definition cooldownNoticeLocked (publishing : bool) (a : Auth) (result : Result)
    (ef : resultStateEffects) (before now : Time) : option CooldownNotice :=
  if (! publishing || re_Success result) then None
  else
    let '(until, quota) := cooldownDeadline a (re_Model result) now in
    if (IsZero until || ! After until before) then None
    else Some {| cn_AuthID := au_ID a; cn_Model := re_Model result; cn_Until := until;
                 cn_StatusCode := statusCodeFromResult (re_Error result);
                 cn_Reason := ef_suspendReason ef; cn_Quota := quota; cn_Origin := "" |}.

Definition peerCooldownMessage (n : CooldownNotice) : string :=
  let cause := cn_Reason n in
  let cause := if (String.eqb cause "" && (0 <? cn_StatusCode n))
               then "upstream status " +:+ pretty_Z (cn_StatusCode n) else cause in
  let cause := if String.eqb cause "" then "upstream failure" else cause in
  if ! String.eqb (cn_Origin n) ""
  then "cooling down: " +:+ cause +:+ " (reported by node " +:+ cn_Origin n +:+ ")"
  else "cooling down: " +:+ cause +:+ " (reported by another node)".

Definition peerCooldownError (n : CooldownNotice) (message : string) : Error :=
  {| er_Code := "peer_cooldown"; er_Message := message; er_Retryable := true;
     er_HTTPStatus := cn_StatusCode n; er_QuotaWindow := ""; er_QuotaWindowMinutes := 0 |}.

(** The quota of a peer's notice. *)
Definition extend_quota (n : CooldownNotice) (until : Time) (q : QuotaState) : QuotaState :=
  if cn_Quota n then
    {| q_Exceeded := true; q_RecoveryRequired := q_RecoveryRequired q; q_Reason := "quota";
       q_Window := q_Window q; q_WindowMinutes := q_WindowMinutes q;
       q_NextRecoverAt := if After until (q_NextRecoverAt q) then until else q_NextRecoverAt q;
       q_BackoffLevel := q_BackoffLevel q |}
  else q.

Definition or_error (e : option Error) (d : Error) : option Error :=
  match e with Some e => Some e | None => Some d end.

Section conductor.
Context {RO : RangeOrder} {J : GoJSON}.
Variable global : bool.

Definition peerCooldownSuppressed (a : Auth) (n : CooldownNotice) : bool :=
  if ! quotaCooldownDisabledForAuth global a then false
  else if cn_Quota n then true
  else ((cn_StatusCode n =? 429) || transient_status (cn_StatusCode n)).

Definition extendModelCooldownLocked (a : Auth) (n : CooldownNotice) (until now : Time) : bool * Auth :=
  let '(state, a) := ensureModelState a (cn_Model n) in
  if status_eqb (ms_Status state) StatusDisabled then (false, a)
  else if ! After until (cooldownDeadline a (cn_Model n) now).1 then (false, a)
  else
    let message := peerCooldownMessage n in
    let state :=
      {| ms_Status := StatusError; ms_StatusMessage := message; ms_Unavailable := true;
         ms_NextRetryAfter := until;
         ms_LastError := or_error (ms_LastError state) (peerCooldownError n message);
         ms_Quota := extend_quota n until (ms_Quota state); ms_UpdatedAt := now |} in
    let a := set_UpdatedAt now (set_Status StatusError (put_state (cn_Model n) state a)) in
    (true, updateAggregatedAvailability a now).

Definition extendAuthCooldownLocked (a : Auth) (n : CooldownNotice) (until now : Time) : bool * Auth :=
  if ! After until (cooldownDeadline a "" now).1 then (false, a)
  else
    let message := peerCooldownMessage n in
    (true,
     set_UpdatedAt now (set_Quota (extend_quota n until (au_Quota a))
       (set_LastError (or_error (au_LastError a) (peerCooldownError n message))
         (set_StatusMessage message (set_Status StatusError
           (set_NextRetryAfter until (set_Unavailable true a))))))).

(** [if limit := now.Add(maxPeerCooldown); until.After(limit) { until = limit }] *)
Definition capped_until (n : CooldownNotice) (now : Time) : Time :=
  if After (cn_Until n) (time_Add now maxPeerCooldown) then time_Add now maxPeerCooldown else cn_Until n.

(** The part of [ApplyPeerCooldown] under the manager's lock, on one credential. *)
Definition apply_peer (a : Auth) (n : CooldownNotice) (until now : Time) : bool * Auth :=
  if (! au_Disabled a && ! status_eqb (au_Status a) StatusDisabled && ! peerCooldownSuppressed a n) then
    if ! String.eqb (cn_Model n) "" then extendModelCooldownLocked a n until now
    else extendAuthCooldownLocked a n until now
  else (false, a).

Definition ApplyPeerCooldown (m : gmap string (option Auth)) (n : CooldownNotice) (now : Time)
    : bool * gmap string (option Auth) * list RegistryCall :=
  if String.eqb (TrimSpace (cn_AuthID n)) "" then (false, m, [])
  else
    let until := capped_until n now in
    if ! After until now then (false, m, [])
    else
      match mjoin (m !! cn_AuthID n) with
      | None => (false, m, [])
      | Some a =>
          let '(changed, a) := apply_peer a n until now in
          (changed, <[cn_AuthID n := Some a]> m,
           if (changed && ! String.eqb (cn_Model n) "") then
             (if cn_Quota n then [SetModelQuotaExceeded (cn_AuthID n) (cn_Model n)] else []) ++
             (if ! String.eqb (cn_Reason n) ""
              then [SuspendClientModel (cn_AuthID n) (cn_Model n) (cn_Reason n)] else [])
           else [])
      end.

(** ** Recording a result *)

(** [markResult]: the table, the registry calls, the notice to publish and whether a
    quota probe is started. [store] and [skip] say whether the manager has a store and
    whether the context skips it; the store's answer is ignored by the source. *)
Definition markResult (publishing store skip : bool) (m : gmap string (option Auth)) (result : Result) (now : Time)
    : gmap string (option Auth) * list RegistryCall * option CooldownNotice * bool :=
  if String.eqb (re_AuthID result) "" then (m, [], None, false)
  else
    let '(m, ef, notice) :=
      match mjoin (m !! re_AuthID result) with
      | None => (m, no_effects, None)
      | Some a =>
          let before := cooldownBeforeLocked publishing a result now in
          let '(a, ef) := applyResultLocked global a result now in
          (<[re_AuthID result := Some (persist store skip a)]> m, ef, cooldownNoticeLocked publishing a result ef before now)
      end in
    (m, applyRegistryEffects result ef, notice,
     (! re_Success result && bool_decide (re_RetryAfter result = None) &&
      isXAIWeekBalanceExhaustedError (re_Error result))).

(** ** Retrying a request *)

(** The wait one credential offers to a request that failed [attempt] times. *)
Definition retry_wait (providers : list string) (model : string) (attempt defaultRetry : Z) (now : Time)
    (candidate : option Auth) : option Duration :=
  match candidate with
  | None => None
  | Some a =>
      let providerKey := TrimSpace (ToLower (au_Provider a)) in
      if ! existsb (String.eqb providerKey)
             (List.filter (λ k, ! String.eqb k "") (map (λ p, TrimSpace (ToLower p)) providers)) then None
      else
        let effectiveRetry := match RequestRetryOverride a with Some o => o | None => defaultRetry end in
        let effectiveRetry := if effectiveRetry <? 0 then 0 else effectiveRetry in
        if effectiveRetry <=? attempt then None
        else
          let '(blocked, reason, next) := isAuthBlockedForModel candidate model now in
          if (! blocked || IsZero next || reason_eqb reason blockReasonDisabled) then None
          else
            let wait := time_Sub next now in
            if wait <? 0 then None else Some wait
  end.

Definition closest_step (providers : list string) (model : string) (attempt defaultRetry : Z) (now : Time)
    (best : option Duration) (e : string * option Auth) : option Duration :=
  match retry_wait providers model attempt defaultRetry now e.2 with
  | None => best
  | Some wait =>
      match best with
      | None => Some wait
      | Some b => if wait <? b then Some wait else Some b
      end
  end.

(** [closestWait]; [None] is [(_, false)]. *)
Definition closestWait (m : gmap string (option Auth)) (requestRetry : Z) (providers : list string)
    (model : string) (attempt : Z) (now : Time) : option Duration :=
  if bool_decide (length providers = 0%nat) then None
  else
    let defaultRetry := if requestRetry <? 0 then 0 else requestRetry in
    foldl (closest_step providers model attempt defaultRetry now) None (range_order 8 m).

Definition pinnedAuthIDFromMetadata (meta : gmap string GoAny) : string :=
  match meta !! "pinned_auth_id" with
  | Some (AString s) | Some (ABytes s) => TrimSpace s
  | _ => ""
  end.

Definition isSinglePickRouteRequest (meta : gmap string GoAny) : bool :=
  if ! String.eqb (pinnedAuthIDFromMetadata meta) "" then true
  else match meta !! "single_pick" with
       | None | Some ANil => false
       | Some raw => default false (parseBoolAny raw)
       end.

Definition shouldRetryAfterError (m : gmap string (option Auth)) (requestRetry : Z)
    (err : option GoError) (attempt : Z) (providers : list string) (model : string)
    (maxWait : Duration) (meta : gmap string GoAny) (now : Time) : option Duration :=
  match err with
  | None => None
  | Some err =>
      if maxWait <=? 0 then None
      else if isSinglePickRouteRequest meta then None
      else if ge_Status err =? 200 then None
      else if isRequestInvalidError err then None
      else if isContentPolicyViolation err then None
      else match closestWait m requestRetry providers model attempt now with
           | None => None
           | Some wait => if maxWait <? wait then None else Some wait
           end
  end.

(** The loop of [runExecutionWithRetry]: [executeOnce n] is what the [n]-th round of
    failover returned, [world n] the table and the time after it and [interrupted n]
    the context's error if it ended the wait; [None] means that [fuel] rounds did not
    end the loop. *)
Fixpoint runExecutionWithRetry {T : Type} (executeOnce : nat → GoError + T)
    (world : nat → gmap string (option Auth) * Time) (interrupted : nat → option GoError)
    (requestRetry : Z) (providers : list string) (model : string) (maxWait : Duration)
    (meta : gmap string GoAny) (fuel : nat) (attempt : nat) : option (GoError + T) :=
  match fuel with
  | O => None
  | S fuel =>
      match executeOnce attempt with
      | inr resp => Some (inr resp)
      | inl err =>
          match shouldRetryAfterError (world attempt).1 requestRetry (Some err) (Z.of_nat attempt)
                  providers model maxWait meta (world attempt).2 with
          | None => Some (inl err)
          | Some _ =>
              match interrupted attempt with
              | Some errWait => Some (inl errWait)
              | None => runExecutionWithRetry executeOnce world interrupted requestRetry providers
                          model maxWait meta fuel (S attempt)
              end
          end
      end
  end.

End conductor.

(** ** The closest wait *)

Section retry.
Context {RO : RangeOrder} {J : GoJSON}.

Lemma closest_fold providers model attempt dr now (l : list (string * option Auth)) best :
  let ws := omap (λ e, retry_wait providers model attempt dr now e.2) l in
  match foldl (closest_step providers model attempt dr now) best l with
  | None => best = None ∧ ws = []
  | Some w => (best = Some w ∨ w ∈ ws) ∧ (∀ b, best = Some b → w ≤ b) ∧ (∀ x, x ∈ ws → w ≤ x)
  end.
Proof.
  revert best. induction l as [|e l IH]; intros best ws.
  { simpl. destruct best as [b|]; [|done]. split; [by left|]. split; [by intros ? [= <-]|].
    intros x Hx. by apply elem_of_nil in Hx. }
  unfold ws. clear ws. simpl. unfold closest_step at 2.
  destruct (retry_wait providers model attempt dr now e.2) as [x|]; [|apply IH].
  specialize (IH (match best with None => Some x | Some b => if x <? b then Some x else Some b end)).
  cbv zeta in IH. destruct (foldl _ _ l) as [w|] eqn:E.
  - destruct IH as (H1 & H2 & H3). assert (Hmin : w ≤ x ∧ ∀ b, best = Some b → w ≤ b).
    { destruct best as [b|]; [|split; [by apply H2|done]].
      destruct (Z.ltb_spec x b); specialize (H2 _ eq_refl); (split; [lia|intros ? [= <-]; lia]). }
    split; [|split; [exact (proj2 Hmin)|]].
    + destruct H1 as [H1|H1]; [|right; by right].
      destruct best as [b|]; [|injection H1 as ->; right; left].
      destruct (x <? b); injection H1 as ->; [right; left|by left].
    + intros y Hy. apply elem_of_cons in Hy as [->|Hy]; [exact (proj1 Hmin)|auto].
  - destruct IH as [H _]. destruct best as [b|]; [|done]. by destruct (x <? b).
Qed.

Lemma retry_wait_pos providers model attempt dr now c w :
  retry_wait providers model attempt dr now c = Some w → 0 < w.
Proof.
  unfold retry_wait. destruct c as [a|]; [|done]. case_if; [done|]. cbv zeta.
  destruct (_ <=? attempt); [done|].
  destruct (isAuthBlockedForModel (Some a) model now) as [[b r] next] eqn:Eb.
  case_if; [done|]. case_if; [done|]. intros [= <-]. apply orb_false_iff in E0 as [E0 _].
  apply orb_false_iff in E0 as [Hb Hz]. apply negb_false_iff in Hb as ->.
  apply blocked_next_future in Eb as [->|Hlt]; [done|].
  unfold time_Sub. rewrite clamp64_spec. unfold two63. lia.
Qed.

(** [closestWait] is the shortest wait that any credential of the requested
    providers with retries left offers, whatever the order in which the table is
    walked: it is offered by one of them, undercut by none, always positive, and absent
    exactly when none offers a wait. *)
Lemma closestWait_shortest m requestRetry providers model attempt now :
  providers ≠ [] →
  let offers w := ∃ k c, m !! k = Some c ∧
    retry_wait providers model attempt (if requestRetry <? 0 then 0 else requestRetry) now c = Some w in
  match closestWait m requestRetry providers model attempt now with
  | Some w => offers w ∧ 0 < w ∧ ∀ w', offers w' → w ≤ w'
  | None => ∀ w, ¬ offers w
  end.
Proof.
  intros Hp. cbv zeta. unfold closestWait. rewrite bool_decide_false by (by destruct providers).
  set (dr := if requestRetry <? 0 then 0 else requestRetry).
  pose proof (closest_fold providers model attempt dr now (range_order 8 m) None) as H. cbv zeta in H.
  assert (Hin : ∀ w, w ∈ omap (λ e, retry_wait providers model attempt dr now e.2) (range_order 8 m) ↔
    ∃ k c, m !! k = Some c ∧ retry_wait providers model attempt dr now c = Some w).
  { intros w. rewrite list_elem_of_omap. split.
    - intros ([k c] & Hk & Hw). exists k, c. split; [|done]. by apply (elem_of_range 8).
    - intros (k & c & Hk & Hw). exists (k, c). split; [|done]. by apply elem_of_range. }
  destruct (foldl _ None _) as [w|].
  - destruct H as ([H|H] & _ & Hmin); [done|]. apply Hin in H as Hoff.
    split; [done|]. split; [|intros w' Hw'; apply Hmin; by apply Hin].
    destruct Hoff as (k & c & _ & Hw). by eapply retry_wait_pos.
  - destruct H as [_ H]. intros w Hw. apply Hin in Hw. rewrite H in Hw. by apply elem_of_nil in Hw.
Qed.

(** No credential of a table allows more than [R] retries. *)
Definition retries_bounded (R : nat) (requestRetry : Z) (m : gmap string (option Auth)) : Prop :=
  ∀ k a, m !! k = Some (Some a) →
    match RequestRetryOverride a with Some o => o | None => requestRetry end ≤ Z.of_nat R.

Lemma no_retry_left R requestRetry m providers model (attempt : nat) now :
  retries_bounded R requestRetry m → (R ≤ attempt)%nat →
  closestWait m requestRetry providers model (Z.of_nat attempt) now = None.
Proof.
  intros HR Ha. unfold closestWait. case_if; [done|]. cbv zeta.
  set (dr := if requestRetry <? 0 then 0 else requestRetry).
  assert (Hall : ∀ k c, (k, c) ∈ range_order 8 m →
    retry_wait providers model (Z.of_nat attempt) dr now c = None).
  { intros k c Hk. apply elem_of_range in Hk. unfold retry_wait. destruct c as [a|]; [|done].
    case_if; [done|]. cbv zeta. specialize (HR k a Hk). unfold dr.
    rewrite (proj2 (Z.leb_le _ (Z.of_nat attempt))); [done|].
    destruct (RequestRetryOverride a); repeat case_if; lia. }
  generalize dependent (range_order 8 m). intros l Hall. induction l as [|[k c] l IH]; [done|].
  simpl. unfold closest_step at 2. simpl. rewrite (Hall k c) by left.
  apply IH. intros. eapply Hall. by right.
Qed.

(** The retry loop ends: when no credential ever allows more than [R] retries,
    [R + 1] rounds are enough, whatever the rounds return and however the credentials'
    state changes in between. *)
Lemma retry_loop_terminates {T : Type} (executeOnce : nat → GoError + T) world interrupted
    requestRetry providers model maxWait meta R :
  (∀ n, retries_bounded R requestRetry (world n).1) →
  ∃ r, runExecutionWithRetry executeOnce world interrupted requestRetry providers model maxWait meta
         (S R) 0 = Some r.
Proof.
  intros HR. assert (H : ∀ fuel attempt, (R < fuel + attempt)%nat → fuel ≠ 0%nat →
    ∃ r, runExecutionWithRetry executeOnce world interrupted requestRetry providers model maxWait meta
           fuel attempt = Some r); [|apply H; lia].
  induction fuel as [|fuel IH]; intros attempt Hlt Hne; [done|]. simpl.
  destruct (executeOnce attempt) as [err|resp]; [|eauto].
  match goal with |- context [match ?x with Some _ => _ | None => Some (inl err) end] => destruct x eqn:E end; [|eauto].
  destruct (interrupted attempt); [eauto|].
  destruct (decide (R ≤ attempt)%nat) as [Hle|Hle].
  - unfold shouldRetryAfterError in E. rewrite (no_retry_left R) in E by auto.
    repeat case_if_in E; done.
  - apply IH; [lia|]. intros ->. lia.
Qed.
End retry.

(** ** Cooldowns reported by peers *)

Section peers.
Context {RO : RangeOrder} {J : GoJSON}.
Variable global : bool.

(** The deadline in force for a credential, or for one of its models. *)
Definition in_force (a : Auth) (model : string) (now : Time) : Time := (cooldownDeadline a model now).1.

(** A quota that is not exceeded has no recovery time. *)
Definition quota_wf (q : QuotaState) : Prop := q_Exceeded q = false → q_NextRecoverAt q = 0.

(** A credential that takes notices for [model]. *)
Record takes_notices (a : Auth) (model : string) : Prop := {
  tn_enabled : au_Disabled a = false;
  tn_status : au_Status a ≠ StatusDisabled;
  tn_cooling : quotaCooldownDisabledForAuth global a = false;
  tn_model : model ≠ "" → ∀ s, mjoin (au_ModelStates a !! model) = Some s →
    ms_Status s ≠ StatusDisabled ∧ quota_wf (ms_Quota s);
  tn_auth : model = "" → quota_wf (au_Quota a)
}.

(** The deadline a notice may ask for, zero when it has already passed. *)
Definition asked (now : Time) (n : CooldownNotice) : Time :=
  let until := Z.min (cn_Until n) (now + 30 * Minute) in if now <? until then until else 0.

Lemma asked_eq now n :
  asked now n = if now <? capped_until n now then capped_until n now else 0.
Proof.
  assert (capped_until n now = Z.min (cn_Until n) (now + 30 * Minute)) as ->; [|done].
  unfold capped_until, After, time_Add. change maxPeerCooldown with (30 * Minute).
  destruct (Z.ltb_spec (now + 30 * Minute) (cn_Until n)); lia.
Qed.

Lemma extend_quota_wf n until q : quota_wf q → quota_wf (extend_quota n until q).
Proof. unfold extend_quota. by destruct (cn_Quota n). Qed.

Lemma deadline_extended n until now q :
  0 ≤ now → now < until → quota_wf q →
  (q_Exceeded q = true → q_NextRecoverAt q ≤ until) →
  (if ! After (deadline_of true until (extend_quota n until q)).1 now
   then time_zero else (deadline_of true until (extend_quota n until q)).1) = until.
Proof.
  intros Hn Hu Hwf Hle. unfold deadline_of, extend_quota, After, time_zero in *.
  destruct (cn_Quota n); simpl.
  - assert (q_NextRecoverAt q ≤ until) as Hq.
    { unfold quota_wf in Hwf. destruct (q_Exceeded q); [by apply Hle|rewrite Hwf by done; lia]. }
    destruct (Z.ltb_spec (q_NextRecoverAt q) until); simpl.
    + rewrite Z.ltb_irrefl. simpl. by rewrite (proj2 (Z.ltb_lt _ _) Hu).
    + rewrite (proj2 (Z.ltb_ge until (q_NextRecoverAt q))) by lia. simpl.
      by rewrite (proj2 (Z.ltb_lt _ _) Hu).
  - destruct (q_Exceeded q) eqn:E; simpl.
    + rewrite (proj2 (Z.ltb_ge until (q_NextRecoverAt q))) by auto. simpl.
      by rewrite (proj2 (Z.ltb_lt _ _) Hu).
    + by rewrite (proj2 (Z.ltb_lt _ _) Hu).
Qed.

(** What is in force bounds the quota deadline of its holder. *)
Lemma deadline_of_recover u next q now until :
  now < until → (if ! After (deadline_of u next q).1 now then time_zero else (deadline_of u next q).1) < until →
  q_Exceeded q = true → q_NextRecoverAt q ≤ until.
Proof.
  unfold deadline_of, After, time_zero. intros Hu H Hx. rewrite Hx in H. simpl in H.
  destruct (Z.ltb_spec (if u then next else 0) (q_NextRecoverAt q)); simpl in H.
  - destruct (Z.ltb_spec now (q_NextRecoverAt q)); simpl in H; lia.
  - destruct (Z.ltb_spec now (if u then next else 0)); simpl in H; destruct u; lia.
Qed.

Lemma in_force_auth a now :
  in_force a "" now =
  let d := (deadline_of (au_Unavailable a) (au_NextRetryAfter a) (au_Quota a)).1 in
  if ! After d now then time_zero else d.
Proof.
  unfold in_force, cooldownDeadline. simpl.
  destruct (deadline_of _ _ _) as [d q]. simpl. by destruct (negb (After d now)).
Qed.

Lemma in_force_model a model now s :
  model ≠ "" → mjoin (au_ModelStates a !! model) = Some s →
  in_force a model now =
  let d := (deadline_of (ms_Unavailable s) (ms_NextRetryAfter s) (ms_Quota s)).1 in
  if ! After d now then time_zero else d.
Proof.
  intros Hm Hs. unfold in_force, cooldownDeadline.
  rewrite (proj2 (String.eqb_neq model "")) by done. simpl. rewrite Hs.
  destruct (deadline_of _ _ _) as [d q]. simpl. by destruct (negb (After d now)).
Qed.

Lemma in_force_none a model now :
  model ≠ "" → mjoin (au_ModelStates a !! model) = None → in_force a model now = 0.
Proof.
  intros Hm Hs. unfold in_force, cooldownDeadline.
  rewrite (proj2 (String.eqb_neq model "")) by done. simpl. by rewrite Hs.
Qed.

Lemma extend_auth_spec a n until now :
  0 ≤ now → now < until → takes_notices a "" →
  let a' := (extendAuthCooldownLocked a n until now).2 in
  takes_notices a' "" ∧ in_force a' "" now = Z.max (in_force a "" now) until.
Proof.
  intros Hn Hu [H1 H2 H3 _ H5]. specialize (H5 eq_refl). unfold extendAuthCooldownLocked.
  change (cooldownDeadline a "" now).1 with (in_force a "" now).
  unfold After. destruct (Z.ltb_spec (in_force a "" now) until) as [Hlt|Hge]; simpl.
  2:{ split; [by split|lia]. }
  split.
  - split; try done. intros _. by apply extend_quota_wf.
  - rewrite !in_force_auth. cbv zeta. rewrite in_force_auth in Hlt. cbv zeta in Hlt. simpl.
    rewrite deadline_extended; [lia|done|done|done|]. exact (deadline_of_recover _ _ _ now until Hu Hlt).
Qed.

Lemma ensure_state a model :
  let '(s, a1) := ensureModelState a model in
  mjoin (au_ModelStates a1 !! model) = Some s ∧
  match mjoin (au_ModelStates a !! model) with
  | Some s0 => s = s0 ∧ a1 = a
  | None => s = model_state_new ∧ a1 = put_state model model_state_new a
  end.
Proof.
  unfold ensureModelState. destruct (mjoin (au_ModelStates a !! model)) as [s|] eqn:E; [done|].
  simpl. by rewrite lookup_insert_eq.
Qed.

Lemma extend_model_spec a n until now :
  0 ≤ now → now < until → cn_Model n ≠ "" → takes_notices a (cn_Model n) →
  let a' := (extendModelCooldownLocked a n until now).2 in
  takes_notices a' (cn_Model n) ∧
  in_force a' (cn_Model n) now = Z.max (in_force a (cn_Model n) now) until.
Proof.
  intros Hn Hu Hm [H1 H2 H3 H4 _]. specialize (H4 Hm). unfold extendModelCooldownLocked.
  pose proof (ensure_state a (cn_Model n)) as He.
  destruct (ensureModelState a (cn_Model n)) as [s a1]. destruct He as [Hs Hold].
  assert (Hcase : ms_Status s ≠ StatusDisabled ∧ quota_wf (ms_Quota s) ∧
    in_force a1 (cn_Model n) now = in_force a (cn_Model n) now ∧
    au_Disabled a1 = false ∧ au_Status a1 ≠ StatusDisabled ∧ au_Metadata a1 = au_Metadata a).
  { destruct (mjoin (au_ModelStates a !! cn_Model n)) as [s0|] eqn:E.
    - destruct Hold as [-> ->]. destruct (H4 s0 eq_refl). done.
    - destruct Hold as [-> ->]. rewrite (in_force_none a) by done.
      rewrite (in_force_model _ _ _ _ Hm Hs).
      split_and!; try done. cbn. case_if; done. }
  destruct Hcase as (Hsd & Hwf & Hsame & Hd & Hst & Hmeta).
  unfold status_eqb. rewrite bool_decide_false by done.
  change (cooldownDeadline a1 (cn_Model n) now).1 with (in_force a1 (cn_Model n) now).
  unfold After. rewrite Hsame.
  assert (Hcool : ∀ b, au_Metadata b = au_Metadata a → quotaCooldownDisabledForAuth global b = false).
  { intros b Hb. rewrite <- H3. unfold quotaCooldownDisabledForAuth, DisableCoolingOverride. by rewrite Hb. }
  destruct (Z.ltb_spec (in_force a (cn_Model n) now) until) as [Hlt|Hge]; simpl.
  - set (s' := MkModelState _ _ _ _ _ _ _). set (b := set_UpdatedAt now _).
    destruct (aggregate_frame b now) as (_ & _ & Hd' & _ & Hm' & _ & _ & _ & Hst').
    assert (Hl : mjoin (au_ModelStates (updateAggregatedAvailability b now) !! cn_Model n) = Some s').
    { rewrite (aggregate_lookup b now _ s') by apply put_lookup. simpl. f_equal.
      apply agg_state_fix; [done|by right]. }
    split.
    + split; [by rewrite Hd'|by destruct Hst' as [->| ->]|apply Hcool; rewrite Hm'; exact Hmeta| |done].
      intros _ x. rewrite Hl. intros [= <-]. split; [done|]. by apply extend_quota_wf.
    + rewrite (in_force_model _ _ _ _ Hm Hl). rewrite <- Hsame, (in_force_model _ _ _ _ Hm Hs) in Hlt |- *.
      cbv zeta in Hlt |- *. simpl. rewrite deadline_extended; [lia|done|done|done|].
      exact (deadline_of_recover _ _ _ now until Hu Hlt).
  - split; [|rewrite Hsame; lia]. split; [done|done|by apply Hcool| |done].
    intros _ x. rewrite Hs. by intros [= <-].
Qed.

Lemma apply_peer_spec a n now :
  0 ≤ now → takes_notices a (cn_Model n) →
  now < capped_until n now →
  let a' := (apply_peer global a n (capped_until n now) now).2 in
  takes_notices a' (cn_Model n) ∧
  in_force a' (cn_Model n) now = Z.max (in_force a (cn_Model n) now) (capped_until n now).
Proof.
  intros Hn Ht Hu. pose proof Ht as [H1 H2 H3 _ _]. unfold apply_peer, peerCooldownSuppressed.
  rewrite H1, H3. unfold status_eqb. rewrite bool_decide_false by done. simpl.
  destruct (String.eqb_spec (cn_Model n) "") as [Hm|Hm]; simpl.
  - rewrite Hm in *. by apply extend_auth_spec.
  - by apply extend_model_spec.
Qed.

(** C12: cooldowns reported by peers converge: after any sequence of notices about one
    credential (or one of its models) the deadline in force is the latest of the one
    that was in force and those the notices ask for, each capped at thirty minutes from
    now. Hence notices may arrive in any order and any number of times, never shorten a
    cooldown and cannot extend it past the cap. *)
Theorem peer_cooldowns_converge m id a model ns now :
  0 ≤ now → TrimSpace id ≠ "" → m !! id = Some (Some a) → takes_notices a model →
  Forall (λ n, cn_AuthID n = id ∧ cn_Model n = model) ns →
  ∃ a', foldl (λ m n, (ApplyPeerCooldown global m n now).1.2) m ns !! id = Some (Some a') ∧
    in_force a' model now = foldr Z.max (in_force a model now) (map (asked now) ns).
Proof.
  intros Hn Hid Ha Ht Hns.
  assert (Hmax : ∀ l x y, foldr Z.max (Z.max x y) l = Z.max y (foldr Z.max x l)).
  { intros l x y. induction l as [|z l IH]; simpl; lia. }
  assert (Hnn : ∀ b, 0 ≤ in_force b model now).
  { intros b. unfold in_force, cooldownDeadline, After, time_zero.
    destruct (if ! String.eqb model "" then _ else _) as [[d q]|]; [|simpl; lia].
    destruct (Z.ltb_spec now d); simpl; lia. }
  revert m a Ha Ht. induction Hns as [|n ns [Hni Hnm] Hns IH]; intros m a Ha Ht; simpl; [eauto|].
  assert (Hstep : ∃ a1, (ApplyPeerCooldown global m n now).1.2 !! id = Some (Some a1) ∧
    takes_notices a1 model ∧ in_force a1 model now = Z.max (in_force a model now) (asked now n)).
  { rewrite asked_eq. unfold ApplyPeerCooldown. rewrite Hni, (proj2 (String.eqb_neq _ _) Hid).
    unfold After. destruct (Z.ltb_spec now (capped_until n now)) as [Hu|Hu]; simpl.
    - rewrite Ha. simpl. subst model. pose proof (apply_peer_spec a n now Hn Ht Hu) as H.
      destruct (apply_peer _ _ _ _ _) as [ch a1]. simpl in *. exists a1.
      by rewrite lookup_insert_eq.
    - exists a. split; [done|]. split; [done|]. specialize (Hnn a). lia. }
  destruct Hstep as (a1 & Ha1 & Ht1 & Hf1). destruct (IH _ a1 Ha1 Ht1) as (a' & H1 & H2).
  exists a'. split; [done|]. by rewrite H2, Hf1, Hmax.
Qed.
End peers.

(** ** Concrete runs *)

Definition notice (model : string) (until : Time) (quota : bool) : CooldownNotice :=
  {| cn_AuthID := "acct"; cn_Model := model; cn_Until := until; cn_StatusCode := 429;
     cn_Reason := ""; cn_Quota := quota; cn_Origin := "node-b" |}.

Definition two_notices : list CooldownNotice := [notice "grok-4" 2000 true; notice "grok-4" 1500 false].

Lemma peer_cooldowns_converge_witness :
  ∃ a', foldl (λ m n, (@ApplyPeerCooldown listing_order false m n 1000).1.2)
          {["acct" := Some xai]} two_notices !! "acct" = Some (Some a') ∧
    in_force a' "grok-4" 1000 = 2000.
Proof.
  destruct (@peer_cooldowns_converge listing_order false {["acct" := Some xai]} "acct" xai "grok-4"
    two_notices 1000) as (a' & H1 & H2).
  - done.
  - done.
  - by vm_compute.
  - split; [done|done|by vm_compute| |done]. intros _ s Hs. by vm_compute in Hs.
  - by repeat constructor.
  - exists a'. split; [exact H1|]. rewrite H2. by vm_compute.
Defined.

Definition cooling_xai : Auth :=
  (@applyResultLocked listing_order no_json false xai (failure 429 "quota limit" "" 0 None) 1000).1.

Lemma closestWait_shortest_witness :
  @closestWait listing_order {["acct" := Some cooling_xai]} 3 ["xai"] "grok-4" 0 1000 = Some Second ∧
  0 < Second.
Proof.
  assert (E : @closestWait listing_order {["acct" := Some cooling_xai]} 3 ["xai"] "grok-4" 0 1000
              = Some Second) by by vm_compute.
  split; [exact E|].
  pose proof (@closestWait_shortest listing_order {["acct" := Some cooling_xai]} 3 ["xai"]
    "grok-4" 0 1000 ltac:(done)) as H.
  cbv zeta in H. rewrite E in H. exact (proj1 (proj2 H)).
Defined.

Lemma retry_loop_terminates_witness :
  ∃ r, @runExecutionWithRetry listing_order no_json unit
    (λ _, inl {| ge_Status := 503; ge_Auth := None; ge_Text := "" |})
    (λ _, ({["acct" := Some cooling_xai]}, 1000)) (λ _, None) 3 ["xai"] "grok-4" Minute ∅ 4 0 = Some r.
Proof.
  apply (@retry_loop_terminates listing_order no_json unit
    (λ _, inl {| ge_Status := 503; ge_Auth := None; ge_Text := "" |})
    (λ _, ({["acct" := Some cooling_xai]}, 1000)) (λ _, None) 3 ["xai"] "grok-4" Minute ∅ 3).
  intros n k a Hk. cbn [fst] in Hk. apply lookup_singleton_Some in Hk as [_ Hk]. apply (inj Some) in Hk.
  rewrite <- Hk. by vm_compute.
Defined.
