(* ===== verification/RegistryQueries.v ===== *)
(** * Queries of the model registry

    Models [src/internal/registry/model_registry_queries.go] and [ClientSupportsModel]: what
    the registry answers to the selection of credentials, to the listings of models and to
    the choice of a default model. [sort.Slice] may put equal elements in any order: it is
    the class [SortSlice]. *)
From S2P Require Import Prelude GoModel AuthTypes ModelNames Availability Aggregate QuotaPersist ClaudeHealth Cooldown Conductor Registry.

Class SortSlice := {
  sort_slice : ∀ {A : Type}, (A → A → bool) → list A → list A;
  sort_slice_perm : ∀ {A : Type} (less : A → A → bool) l, sort_slice less l ≡ₚ l }.

Definition stable_sort : SortSlice :=
  {| sort_slice := λ A, sort_by; sort_slice_perm := λ A less l, sort_by_perm less l |}.

Section queries.
Context {RO : RangeOrder}.

(** ** Clients *)

Definition ClientSupportsModel (r : ModelRegistry) (clientID0 modelID0 : string) : bool :=
  let clientID := TrimSpace clientID0 in
  let modelID := TrimSpace modelID0 in
  if (String.eqb clientID "" || String.eqb modelID "") then false
  else match clientModels r !! clientID with
  | None => false
  | Some ids => existsb (λ id, EqualFold (TrimSpace id) modelID) ids
  end.

(** One model of [GetModelsForClient]: a name is taken once. *)
Definition client_model_step (r : ModelRegistry) (infos : gmap string ModelInfo)
    (acc : gset string * list ModelInfo) (modelID : string) : gset string * list ModelInfo :=
  let '(seen, result) := acc in
  if bool_decide (modelID ∈ seen) then acc
  else
    ({[modelID]} ∪ seen,
     match infos !! modelID with
     | Some info => result ++ [info]
     | None => match models r !! modelID with Some reg => result ++ [rg_Info reg] | None => result end
     end).

Definition GetModelsForClient (r : ModelRegistry) (clientID : string) : list ModelInfo :=
  match clientModels r !! clientID with
  | None => []
  | Some ids => (foldl (client_model_step r (default ∅ (clientModelInfos r !! clientID))) (∅, []) ids).2
  end.

(** ** Availability *)

Definition in_quota_window (now : Time) (quotaTime : Time) : bool := time_Sub now quotaTime <? quotaExpiredDuration.

Definition expired_clients (now : Time) (marks : gmap string Time) : Z :=
  zsum (λ entry : string * Time, if in_quota_window now entry.2 then 1 else 0) (range_order 55 marks).

Definition cooldown_suspended (marks : gmap string string) : Z :=
  zsum (λ entry : string * string, if EqualFold entry.2 "quota" then 1 else 0) (range_order 56 marks).

Definition other_suspended (marks : gmap string string) : Z :=
  zsum (λ entry : string * string, if EqualFold entry.2 "quota" then 0 else 1) (range_order 56 marks).

Definition listed (availableClients expiredClients cooldownSuspended otherSuspended : Z) : bool :=
  let effectiveClients := availableClients - expiredClients - otherSuspended in
  let effectiveClients := if effectiveClients <? 0 then 0 else effectiveClients in
  ((0 <? effectiveClients) ||
   ((0 <? availableClients) && ((0 <? expiredClients) || (0 <? cooldownSuspended)) && (otherSuspended =? 0))).

Definition put_if (b : bool) (key : string) (v : GoAny) (m : gmap string GoAny) : gmap string GoAny :=
  if b then <[key := v]> m else m.

Definition nonempty (s : string) : bool := ! String.eqb s "".
Definition some_listed (l : list string) : bool := ! bool_decide (l = []).

Definition convertModelToMap (model : ModelInfo) (handlerType : string) : gmap string GoAny :=
  if String.eqb handlerType "openai" then
    put_if (some_listed (in_SupportedParameters model)) "supported_parameters" (AStrings (in_SupportedParameters model))
      (put_if (0 <? in_MaxCompletionTokens model) "max_completion_tokens" (AInt (in_MaxCompletionTokens model))
      (put_if (0 <? in_ContextLength model) "context_length" (AInt (in_ContextLength model))
      (put_if (nonempty (in_Description model)) "description" (AString (in_Description model))
      (put_if (nonempty (in_Version model)) "version" (AString (in_Version model))
      (put_if (nonempty (in_DisplayName model)) "display_name" (AString (in_DisplayName model))
      (put_if (nonempty (in_Type model)) "type" (AString (in_Type model))
      (put_if (0 <? in_Created model) "created" (AInt64 (in_Created model))
        {["id" := AString (in_ID model); "object" := AString "model"; "owned_by" := AString (in_OwnedBy model)]})))))))
  else if String.eqb handlerType "claude" then
    put_if (nonempty (in_DisplayName model)) "display_name" (AString (in_DisplayName model))
      (put_if (nonempty (in_Type model)) "type" (AString "model")
      (put_if (0 <? in_Created model) "created_at" (AInt64 (in_Created model))
        {["id" := AString (in_ID model); "object" := AString "model"; "owned_by" := AString (in_OwnedBy model)]}))
  else if String.eqb handlerType "gemini" then
    put_if (some_listed (in_SupportedGenerationMethods model)) "supportedGenerationMethods"
      (AStrings (in_SupportedGenerationMethods model))
      (put_if (0 <? in_OutputTokenLimit model) "outputTokenLimit" (AInt (in_OutputTokenLimit model))
      (put_if (0 <? in_InputTokenLimit model) "inputTokenLimit" (AInt (in_InputTokenLimit model))
      (put_if (nonempty (in_Description model)) "description" (AString (in_Description model))
      (put_if (nonempty (in_DisplayName model)) "displayName" (AString (in_DisplayName model))
      (put_if (nonempty (in_Version model)) "version" (AString (in_Version model))
        {["name" := AString (if nonempty (in_Name model) then in_Name model else in_ID model)]})))))
  else
    put_if (! (in_Created model =? 0)) "created" (AInt64 (in_Created model))
      (put_if (nonempty (in_Type model)) "type" (AString (in_Type model))
      (put_if (nonempty (in_OwnedBy model)) "owned_by" (AString (in_OwnedBy model))
        {["id" := AString (in_ID model); "object" := AString "model"]})).

Definition GetAvailableModels (r : ModelRegistry) (handlerType : string) (now : Time) : list (gmap string GoAny) :=
  omap (λ entry : string * ModelRegistration,
    let reg := entry.2 in
    if listed (rg_Count reg) (expired_clients now (rg_QuotaExceededClients reg))
         (cooldown_suspended (rg_SuspendedClients reg)) (other_suspended (rg_SuspendedClients reg))
    then Some (convertModelToMap (rg_Info reg) handlerType) else None) (range_order 54 (models r)).

Definition GetModelCount (r : ModelRegistry) (modelID : string) (now : Time) : Z :=
  match models r !! modelID with
  | None => 0
  | Some reg =>
      let result := rg_Count reg - expired_clients now (rg_QuotaExceededClients reg)
                      - Z.of_nat (size (rg_SuspendedClients reg)) in
      if result <? 0 then 0 else result
  end.

(** ** Providers *)

Definition provider_less (x y : string * Z) : bool :=
  if (x.2 =? y.2) then str_lt x.1 y.1 else y.2 <? x.2.

Definition GetModelProviders (r : ModelRegistry) (modelID : string) : list string :=
  match models r !! modelID with
  | None => []
  | Some reg =>
      map fst (sort_by provider_less
        (List.filter (λ entry : string * Z, ! (entry.2 <=? 0)) (range_order 57 (rg_Providers reg))))
  end.

Definition GetModelInfo (r : ModelRegistry) (modelID provider : string) : option ModelInfo :=
  match models r !! modelID with
  | None => None
  | Some reg =>
      let specific :=
        if ! String.eqb provider "" then
          match rg_Providers reg !! provider with
          | Some count => if 0 <? count then rg_InfoByProvider reg !! provider else None
          | None => None
          end
        else None in
      match specific with Some info => Some info | None => Some (rg_Info reg) end
  end.

Record providerModel := MkProviderModel { pm_count : Z; pm_info : option ModelInfo }.

(** One model of one client of the provider. *)
Definition provider_model_step (r : ModelRegistry) (infos : gmap string ModelInfo)
    (acc : gmap string providerModel) (modelID0 : string) : gmap string providerModel :=
  let modelID := TrimSpace modelID0 in
  if String.eqb modelID "" then acc
  else
    let entry := default (MkProviderModel 0 None) (acc !! modelID) in
    let info := match pm_info entry with
      | Some info => Some info
      | None => match infos !! modelID with
                | Some info => Some info
                | None => rg_Info <$> models r !! modelID
                end
      end in
    <[modelID := MkProviderModel (pm_count entry + 1) info]> acc.

Definition provider_models (r : ModelRegistry) (provider : string) : gmap string providerModel :=
  foldl (λ acc (entry : string * string),
    if ! String.eqb entry.2 provider then acc
    else foldl (provider_model_step r (default ∅ (clientModelInfos r !! entry.1))) acc
           (default [] (clientModels r !! entry.1)))
    ∅ (range_order 58 (clientProviders r)).

(** The marks of the clients of one provider. *)
Definition of_provider {V} (r : ModelRegistry) (provider : string) (marks : gmap string V) : gmap string V :=
  filter (λ entry : string * V, entry.1 ≠ "" ∧ clientProviders r !! entry.1 = Some provider) marks.

Definition GetAvailableModelsByProvider (r : ModelRegistry) (provider0 : string) (now : Time) : list ModelInfo :=
  let provider := ToLower (TrimSpace provider0) in
  if String.eqb provider "" then []
  else
    omap (λ entry : string * providerModel,
      let '(modelID, pm) := entry in
      if pm_count pm <=? 0 then None
      else
        let registration := models r !! modelID in
        let quota := of_provider r provider (default ∅ (rg_QuotaExceededClients <$> registration)) in
        let suspended := of_provider r provider (default ∅ (rg_SuspendedClients <$> registration)) in
        if listed (pm_count pm) (expired_clients now quota) (cooldown_suspended suspended) (other_suspended suspended) then
          match pm_info pm with Some info => Some info | None => rg_Info <$> registration end
        else None) (range_order 59 (provider_models r provider)).

(** ** The default model *)

Definition created_less (x y : gmap string GoAny) : bool :=
  match x !! "created", y !! "created" with
  | Some (AInt64 i), Some (AInt64 j) => j <? i
  | _, _ => false
  end.

(** [None] is the error that no model has an available client. *)
Definition GetFirstAvailableModel {SS : SortSlice} (r : ModelRegistry) (handlerType : string) (now : Time) : option string :=
  let ids := omap (λ model : gmap string GoAny, match model !! "id" with Some (AString id) => Some id | _ => None end)
               (sort_slice created_less (GetAvailableModels r handlerType now)) in
  find (λ id, 0 <? GetModelCount r id now) ids.

End queries.

(** ** The calls of a result *)

Definition apply_call (now : Time) (r : ModelRegistry) (call : RegistryCall) : ModelRegistry :=
  match call with
  | Conductor.ClearModelQuotaExceeded c id => Registry.ClearModelQuotaExceeded c id r
  | Conductor.SetModelQuotaExceeded c id => Registry.SetModelQuotaExceeded c id now r
  | Conductor.ResumeClientModel c id => Registry.ResumeClientModel c id now r
  | Conductor.SuspendClientModel c id reason => Registry.SuspendClientModel c id reason now r
  end.

(** ** What a client registered is what it serves *)

Section lookups.
Context {RO : RangeOrder}.

(** The first model of each name, without nameless ones. *)
Fixpoint first_of_each (seen : gset string) (ms : list (option ModelInfo)) : list ModelInfo :=
  match ms with
  | [] => []
  | Some model :: rest =>
      if bool_decide (in_ID model = "" ∨ in_ID model ∈ seen) then first_of_each seen rest
      else model :: first_of_each ({[in_ID model]} ∪ seen) rest
  | None :: rest => first_of_each seen rest
  end.

(** Every client's models are described. *)
Definition described (r : ModelRegistry) : Prop :=
  ∀ c ids, clientModels r !! c = Some ids →
    ∃ infos, clientModelInfos r !! c = Some infos ∧ ∀ id, id ∈ ids → is_Some (infos !! id).

Lemma client_models_infos r infos ids seen out : (∀ id, id ∈ ids → is_Some (infos !! id)) →
  foldl (client_model_step r infos) (seen, out) ids =
  foldl (client_model_step NewModelRegistry infos) (seen, out) ids.
Proof.
  revert seen out. induction ids as [|id ids IH]; intros seen out Hi; [done|]. cbn [foldl].
  unfold client_model_step at 2 4. destruct (bool_decide _); [apply IH; set_solver|].
  destruct (Hi id ltac:(set_solver)) as [info ->]. apply IH. set_solver.
Qed.

Lemma offer_keeps ms o id mi : of_models o !! id = Some mi → of_models (foldl offer_step o ms) !! id = Some mi.
Proof.
  revert o. induction ms as [|x ms IH]; intros o H; [done|]. cbn [foldl]. apply IH. unfold offer_step.
  destruct x as [m|]; [|done]. destruct (String.eqb _ _); [done|]. destruct (of_models o !! in_ID m) eqn:E; [done|].
  cbn. rewrite lookup_insert_ne; [done|]. intros E'. by rewrite E', H in E.
Qed.

(** The names and descriptions that a list of models leaves, read back in order. *)
Lemma read_back ms o seen out infos :
  (∀ id, id ∈ seen ↔ is_Some (of_models o !! id)) →
  (∀ id mi, of_models (foldl offer_step o ms) !! id = Some mi → infos !! id = Some mi) →
  ∃ rest, of_raw (foldl offer_step o ms) = of_raw o ++ rest ∧
    (foldl (client_model_step NewModelRegistry infos) (seen, out) rest).2 = out ++ first_of_each seen ms.
Proof.
  revert o seen out. induction ms as [|x ms IH]; intros o seen out Hs Hi.
  { exists []. cbn. by rewrite !app_nil_r. }
  cbn [foldl] in *. destruct x as [mi|]; cbn [first_of_each]; [|by apply IH].
  destruct (String.eqb_spec (in_ID mi) "") as [E|E].
  { assert (Ho : offer_step o (Some mi) = o) by (unfold offer_step; by rewrite E). rewrite Ho in *.
    rewrite bool_decide_eq_true_2 by (by left). by apply IH. }
  apply String.eqb_neq in E as E'. destruct (of_models o !! in_ID mi) as [m0|] eqn:Em.
  - assert (Ho : offer_step o (Some mi) = MkOffered (of_unique o) (of_raw o ++ [in_ID mi]) (of_models o)
      (<[in_ID mi := count_of (of_counts o) (in_ID mi) + 1]> (of_counts o))) by (unfold offer_step; by rewrite E', Em).
    match type of Ho with _ = ?o' => rewrite Ho in *; destruct (IH o' seen out Hs Hi) as (rest & Hraw & Hrest) end. exists (in_ID mi :: rest).
    split; [rewrite Hraw; cbn; by rewrite <-app_assoc|]. assert (Hin : in_ID mi ∈ seen) by (apply Hs; by rewrite Em).
    rewrite bool_decide_eq_true_2 by (by right). cbn [foldl]. unfold client_model_step at 2.
    by rewrite bool_decide_eq_true_2.
  - assert (Ho : offer_step o (Some mi) = MkOffered (of_unique o ++ [in_ID mi]) (of_raw o ++ [in_ID mi])
      (<[in_ID mi := mi]> (of_models o)) (<[in_ID mi := count_of (of_counts o) (in_ID mi) + 1]> (of_counts o)))
      by (unfold offer_step; by rewrite E', Em).
    match type of Ho with _ = ?o' => rewrite Ho in *;
      destruct (IH o' ({[in_ID mi]} ∪ seen) (out ++ [mi])) as (rest & Hraw & Hrest) end; [|done|].
    { intros id. cbn. destruct (decide (in_ID mi = id)) as [<-|Hne].
      - rewrite lookup_insert_eq. split; [by eexists|set_solver].
      - rewrite lookup_insert_ne, <-Hs by done. set_solver. }
    exists (in_ID mi :: rest). split; [rewrite Hraw; cbn; by rewrite <-app_assoc|].
    assert (Hin : in_ID mi ∉ seen) by (rewrite Hs, Em; by intros [? ?]).
    rewrite bool_decide_eq_false_2 by (by intros [|]). cbn [foldl]. unfold client_model_step at 2.
    rewrite bool_decide_eq_false_2 by done. rewrite (Hi (in_ID mi) mi).
    + rewrite Hrest. by rewrite <-app_assoc.
    + apply offer_keeps. apply lookup_insert_eq.
Qed.

Lemma offered_described ms id : id ∈ of_raw (offered ms) → is_Some (of_models (offered ms) !! id).
Proof. apply offered_spec. Qed.

(** Every registered client's models are described. *)
Lemma reach_described r : registry_reach r → described r.
Proof.
  assert (Hdel : ∀ c r m p, described r → described (MkModelRegistry m (delete c (clientModels r)) (delete c (clientModelInfos r)) p)).
  { intros c r0 m p Hd c' ids. cbn. intros [Hne Hc]%lookup_delete_Some. destruct (Hd _ _ Hc) as (infos & Hi & H). exists infos.
    split; [|done]. by apply lookup_delete_Some. }
  assert (Hun : ∀ c now r, described r → described (unregisterClientInternal c now r)).
  { intros c now r0 Hd. unfold unregisterClientInternal. destruct (clientModels r0 !! c); [by apply Hdel|done]. }
  assert (Hwith : ∀ id f r, described r → described (with_registration id f r)).
  { intros id f r0 Hd. unfold with_registration. by destruct (models r0 !! id). }
  induction 1; [done| |by apply Hun|by apply Hwith|by apply Hwith| | |done].
  - unfold RegisterClient. destruct (bool_decide _); [by apply Hdel, Hun|].
    intros c' ids. cbn. destruct (decide (c = c')) as [<-|Hne].
    + rewrite !lookup_insert_eq. intros [= <-]. eexists. split; [done|]. apply offered_described.
    + rewrite !lookup_insert_ne by done. apply IHregistry_reach.
  - unfold SuspendClientModel. destruct (_ || _); [done|by apply Hwith].
  - unfold ResumeClientModel. destruct (_ || _); [done|by apply Hwith].
Qed.

(** What a client serves depends only on its own entries. *)
Lemma served_described r c : described r →
  GetModelsForClient r c =
  match clientModels r !! c with
  | None => []
  | Some ids => (foldl (client_model_step NewModelRegistry (default ∅ (clientModelInfos r !! c))) (∅, []) ids).2
  end.
Proof.
  intros Hd. unfold GetModelsForClient. destruct (clientModels r !! c) as [ids|] eqn:E; [|done].
  destruct (Hd _ _ E) as (infos & -> & Hi). cbn [default from_option]. by rewrite client_models_infos.
Qed.

Lemma first_of_each_nil seen ms : (∀ mi, Some mi ∈ ms → in_ID mi = "") → first_of_each seen ms = [].
Proof.
  induction ms as [|[mi|] ms IH]; intros H; cbn [first_of_each]; [done| |apply IH; set_solver].
  rewrite bool_decide_eq_true_2 by (left; apply H; set_solver). apply IH. set_solver.
Qed.

(** What a client registers is what it serves. After a registration the client serves
    the models of the list, each name once with its first description and in order, and
    accepts a request for each of them whatever its case; every other client serves what it
    served before. A client that left serves nothing. *)
Lemma registered_models_are_served c provider ms now r : registry_reach r →
  let r' := RegisterClient c provider ms now r in
  GetModelsForClient r' c = first_of_each ∅ ms ∧
  (c ≠ "" → TrimSpace c = c → ∀ mi id, Some mi ∈ ms → in_ID mi ≠ "" → TrimSpace (in_ID mi) ≠ "" →
     EqualFold (TrimSpace (in_ID mi)) (TrimSpace id) = true → ClientSupportsModel r' c id = true) ∧
  (∀ c', c' ≠ c → GetModelsForClient r' c' = GetModelsForClient r c') ∧
  GetModelsForClient (UnregisterClient c now r) c = [].
Proof.
  intros Hr r'. assert (Hd : described r) by (by apply reach_described).
  assert (Hd' : described r') by (by apply reach_described, reach_register).
  assert (Hdu : described (UnregisterClient c now r)) by (by apply reach_described, reach_unregister).
  assert (Hu : ∀ c', clientModels (UnregisterClient c now r) !! c' = (if decide (c' = c) then None else clientModels r !! c') ∧
    (c' ≠ c → clientModelInfos (UnregisterClient c now r) !! c' = clientModelInfos r !! c')).
  { intros c'. unfold UnregisterClient, unregisterClientInternal. destruct (clientModels r !! c) eqn:E; cbn;
      destruct (decide (c' = c)) as [->|Hne]; rewrite ?lookup_delete_eq, ?lookup_delete_ne by done; done. }
  destruct (offered_spec ms) as (Eraw & _ & Hnd & Hun & Hm).
  assert (Hme : clientModels r' !! c = (if bool_decide (of_unique (offered ms) = []) then None else Some (of_raw (offered ms)))
    ∧ (of_unique (offered ms) ≠ [] → clientModelInfos r' !! c = Some (of_models (offered ms)))).
  { unfold r', RegisterClient. destruct (bool_decide_reflect (of_unique (offered ms) = [])); cbn.
    - split; [apply lookup_delete_eq|done].
    - by rewrite !lookup_insert_eq. }
  destruct Hme as [Hme Hmi]. split; [|split; [|split]].
  - rewrite served_described, Hme by done. destruct (bool_decide_reflect (of_unique (offered ms) = [])) as [E|E].
    + symmetry. apply first_of_each_nil. intros mi Hin. destruct (String.eqb_spec (in_ID mi) "") as [|Hne]; [done|].
      exfalso. assert (Hx : in_ID mi ∈ of_unique (offered ms)).
      { apply Hun. rewrite Eraw. unfold names. apply list_elem_of_In, filter_In. split; [|by apply String.eqb_neq in Hne as ->].
        apply list_elem_of_In, list_elem_of_omap. by exists (Some mi). }
      rewrite E in Hx. by apply not_elem_of_nil in Hx.
    + rewrite (Hmi E). cbn [default from_option]. unfold offered at 2.
      destruct (read_back ms (MkOffered [] [] ∅ ∅) ∅ [] (of_models (offered ms))) as (rest & Hraw & Hrest).
      * intros id. cbn. rewrite lookup_empty. split; [set_solver|by intros [? ?]].
      * done.
      * rewrite Hraw. exact Hrest.
  - intros Hc Ht mi id Hin Hne Htr Hfold. unfold ClientSupportsModel. rewrite Ht. apply String.eqb_neq in Hc as ->.
    assert (Hx : in_ID mi ∈ of_raw (offered ms)).
    { rewrite Eraw. unfold names. apply list_elem_of_In, filter_In. split; [|by apply String.eqb_neq in Hne as ->].
      apply list_elem_of_In, list_elem_of_omap. by exists (Some mi). }
    assert (Hid : String.eqb (TrimSpace id) "" = false).
    { apply String.eqb_neq. intros E. unfold EqualFold in Hfold. rewrite E in Hfold. apply String.eqb_eq in Hfold.
      by destruct (TrimSpace (in_ID mi)). }
    rewrite Hid, Hme. cbn [orb]. rewrite bool_decide_eq_false_2.
    + apply existsb_exists. exists (in_ID mi). split; [by apply list_elem_of_In|done].
    + intros E. apply Hun in Hx. rewrite E in Hx. by apply not_elem_of_nil in Hx.
  - intros c' Hne. rewrite !served_described by done.
    assert (clientModels r' !! c' = clientModels r !! c' ∧ clientModelInfos r' !! c' = clientModelInfos r !! c') as [-> ->]; [|done].
    unfold r', RegisterClient. destruct (bool_decide _); cbn; rewrite ?lookup_delete_ne, ?lookup_insert_ne by done; [|done].
    destruct (Hu c') as [H1 H2]. rewrite decide_False in H1 by done. split; [exact H1|by apply H2].
  - rewrite served_described by done. destruct (Hu c) as [-> _]. by rewrite decide_True.
Qed.

(** ** Providers of a model *)

Lemma in_held_by cm cp p id : 0 < held_by cm cp p id ↔ ∃ c ids, cm !! c = Some ids ∧ cp !! c = Some p ∧ id ∈ ids.
Proof.
  split.
  - intros ([c ids] & Hin%elem_of_map_to_list & Hp)%zsum_pos_exists. cbn in Hp.
    case_bool_decide; [|lia]. apply offers_elem in Hp. eauto.
  - intros (c & ids & Hc & Hp & Hin%offers_elem). rewrite (held_by_split _ _ p c), Hc, bool_decide_eq_true_2 by done.
    pose proof (held_by_nonneg (delete c cm) cp p id). change (default [] (Some ids)) with ids. lia.
Qed.

(** The providers of a model are exactly the providers of the clients that offer it, each
    once, in whatever order clients came, changed their provider and left. *)
Lemma model_providers_exact r id p : registry_reach r →
  NoDup (GetModelProviders r id) ∧
  (p ∈ GetModelProviders r id ↔ ∃ c ids, clientModels r !! c = Some ids ∧ clientProviders r !! c = Some p ∧ id ∈ ids).
Proof.
  intros Hr%reach_counts. pose proof (ce_models _ Hr id) as Hs. rewrite <-in_held_by. unfold GetModelProviders.
  destruct (models r !! id) as [reg|]; cbn in Hs.
  - destruct Hs as (_ & _ & HP). set (l := List.filter _ _).
    assert (Hl : ∀ p n, (p, n) ∈ l ↔ rg_Providers reg !! p = Some n ∧ 0 < n).
    { intros q n. unfold l. rewrite list_elem_of_In, filter_In, <-list_elem_of_In, elem_of_range. cbn.
      rewrite negb_true_iff, Z.leb_gt. done. }
    assert (Hperm : map fst (sort_by provider_less l) ≡ₚ l.*1) by (rewrite sort_by_perm; done).
    split.
    + rewrite Hperm. apply (sublist_NoDup _ (range_order 57 (rg_Providers reg)).*1); [apply NoDup_range_keys|].
      unfold l. clear. induction (range_order 57 (rg_Providers reg)) as [|x xs IH]; [constructor|].
      cbn. by destruct (! _); constructor.
    + rewrite Hperm. rewrite list_elem_of_fmap, <-HP. unfold count_of. split.
      * intros ([q n] & -> & [Hq Hn]%Hl). cbn. by rewrite Hq.
      * destruct (rg_Providers reg !! p) as [n|] eqn:E; cbn; [|lia]. intros Hn. exists (p, n). split; [done|]. by apply Hl.
  - destruct Hs as [_ HP]. rewrite HP. split; [by apply NoDup_nil_2|]. split; [intros H; by apply not_elem_of_nil in H|lia].
Qed.

End lookups.

(** ** A client in quota cooldown *)

Section quota.
#[local] Existing Instances listing_order no_json stable_sort.

Definition grok_failure : Result := failure 429 "quota limit" "" 0 None.

(** The calls that the conductor makes for a quota failure of the account [xai]. *)
Definition quota_calls : list RegistryCall := applyRegistryEffects grok_failure (applyResultLocked false xai grok_failure 1000).2.

(** Two accounts serve one model; one of them runs out of quota. *)
Definition after_quota_failure : ModelRegistry :=
  foldl (apply_call 1000)
    (RegisterClient "healthy" "xai" [Some (model_named (re_Model grok_failure))] 900
      (RegisterClient (re_AuthID grok_failure) "xai" [Some (model_named (re_Model grok_failure))] 900 NewModelRegistry))
    quota_calls.

(** An account that runs out of quota is taken off the count of its model twice, once as
    exhausted and once as suspended. With two accounts, one of which fails for quota, the
    count of available clients is zero and no default model is found, although the other
    account bears no mark and the listing still shows the model. *)
Lemma quota_failure_counted_twice :
  let r := after_quota_failure in
  let id := re_Model grok_failure in
  (∃ reg, models r !! id = Some reg ∧ rg_Count reg = 2 ∧
     rg_QuotaExceededClients reg !! "healthy" = None ∧ rg_SuspendedClients reg !! "healthy" = None) ∧
  length (GetAvailableModels r "" 1000) = 1%nat ∧
  GetModelCount r id 1000 = 0 ∧ GetFirstAvailableModel r "" 1000 = None.
Proof. split; [eexists; split; [vm_compute; reflexivity|]|]; vm_compute; repeat split. Qed.

Lemma model_providers_exact_witness : "xai" ∈ GetModelProviders after_quota_failure "grok-4".
Proof.
  assert (Hr : registry_reach after_quota_failure).
  { change after_quota_failure with (SuspendClientModel "acct" "grok-4" "quota" 1000 (SetModelQuotaExceeded "acct" "grok-4" 1000
      (RegisterClient "healthy" "xai" [Some (model_named "grok-4")] 900
        (RegisterClient "acct" "xai" [Some (model_named "grok-4")] 900 NewModelRegistry)))).
    apply reach_suspended, reach_exceeded, reach_register, reach_register, reach_new. }
  apply (model_providers_exact after_quota_failure "grok-4" "xai" Hr).
  exists "healthy", ["grok-4"]. split; [vm_compute; reflexivity|]. split; [vm_compute; reflexivity|left].
Defined.

Lemma registered_models_are_served_witness :
  GetModelsForClient (RegisterClient "a" "codex" [Some (model_named "gpt-5"); None; Some (model_named "gpt-5")] 1 NewModelRegistry) "a"
    = [model_named "gpt-5"].
Proof.
  destruct (registered_models_are_served "a" "codex" [Some (model_named "gpt-5"); None; Some (model_named "gpt-5")] 1
    NewModelRegistry reach_new) as [H _].
  rewrite H. reflexivity.
Defined.

End quota.
