(* ===== verification/RegistryLock.v ===== *)
(** * The lock of the model registry

    Models how the operations of [src/internal/registry/model_registry.go] and
    [model_registry_queries.go] use [r.mutex], a [sync.RWMutex] shared by every request and
    by the reconciliation of clients. The mutex follows its documentation: a pending
    [Lock] keeps later calls of [RLock] out until it has been served.

    Every operation but one takes the lock once, and such operations never deadlock.
    [GetFirstAvailableModel] holds the read lock while it calls [GetAvailableModels] and
    [GetModelCount], which take it again. *)
From S2P Require Import Prelude.

(** ** The mutex *)

(** [Lock] is two steps: it announces itself and then waits for the readers. *)
Inductive lock_op := RLock | RUnlock | LockAnnounce | LockAcquire | Unlock.

Record RWMutex := MkMutex { mu_readers : nat; mu_pending : bool }.

Definition idle_mutex : RWMutex := MkMutex 0 false.

(** The mutex after an operation; [None] when the caller blocks. *)
Definition fires (op : lock_op) (m : RWMutex) : option RWMutex :=
  match op with
  | RLock => if mu_pending m then None else Some (MkMutex (S (mu_readers m)) (mu_pending m))
  | RUnlock => match mu_readers m with 0%nat => None | S n => Some (MkMutex n (mu_pending m)) end
  | LockAnnounce => if mu_pending m then None else Some (MkMutex (mu_readers m) true)
  | LockAcquire => if (mu_readers m =? 0)%nat then Some m else None
  | Unlock => Some (MkMutex (mu_readers m) false)
  end.

Abbreviation Thread := (list lock_op) (only parsing).

(** Any thread may take its next step. *)
Inductive lock_step : RWMutex * list (list lock_op) → RWMutex * list (list lock_op) → Prop :=
| lock_fires op m m' p l r :
    fires op m = Some m' → lock_step (m, l ++ (op :: p) :: r) (m', l ++ p :: r).

(** ** The operations *)

Inductive registry_op :=
| ReturnsEarly
| SetHook | RegisterClient | UnregisterClient | SetModelQuotaExceeded | ClearModelQuotaExceeded
| SuspendClientModel | ResumeClientModel | CleanupExpiredQuotas
| ClientSupportsModel | GetAvailableModels | GetAvailableModelsByProvider | GetModelCount
| GetModelProviders | GetModelClientSources | GetModelInfo | GetModelsForClient
| GetFirstAvailableModel (counted : nat).

Definition read_locked : Thread := [RLock; RUnlock].
Definition write_locked : Thread := [LockAnnounce; LockAcquire; Unlock].

(** The lock operations of a call, in order; [counted] models are asked for their count. *)
Definition lock_program (op : registry_op) : Thread :=
  match op with
  | ReturnsEarly => []
  | SetHook | RegisterClient | UnregisterClient | SetModelQuotaExceeded | ClearModelQuotaExceeded
  | SuspendClientModel | ResumeClientModel | CleanupExpiredQuotas => write_locked
  | ClientSupportsModel | GetAvailableModels | GetAvailableModelsByProvider | GetModelCount
  | GetModelProviders | GetModelClientSources | GetModelInfo | GetModelsForClient => read_locked
  | GetFirstAvailableModel counted =>
      RLock :: read_locked ++ concat (replicate counted read_locked) ++ [RUnlock]
  end.

(** A goroutine makes one call after the other. *)
Definition goroutine (ops : list registry_op) : Thread := concat (map lock_program ops).

Definition nested (op : registry_op) : bool :=
  match op with GetFirstAvailableModel _ => true | _ => false end.

(** ** Calls that lock once *)

Inductive flat : list lock_op → Prop :=
| flat_nil : flat []
| flat_read p : flat p → flat (RLock :: RUnlock :: p)
| flat_write p : flat p → flat (LockAnnounce :: LockAcquire :: Unlock :: p).

(** What is left of a flat program. *)
Inductive ongoing : list lock_op → Prop :=
| on_flat p : flat p → ongoing p
| on_reading p : flat p → ongoing (RUnlock :: p)
| on_waiting p : flat p → ongoing (LockAcquire :: Unlock :: p)
| on_writing p : flat p → ongoing (Unlock :: p).

Definition reading (p : list lock_op) : nat := match p with RUnlock :: _ => 1 | _ => 0 end.
Definition writing (p : list lock_op) : nat := match p with (LockAcquire | Unlock) :: _ => 1 | _ => 0 end.
Definition total (f : list lock_op → nat) (ts : list (list lock_op)) : nat := foldr (λ p n, f p + n)%nat 0%nat ts.

Record lock_inv (s : RWMutex * list (list lock_op)) : Prop := {
  li_ongoing : Forall ongoing s.2;
  li_readers : mu_readers s.1 = total reading s.2;
  li_writer : (if mu_pending s.1 then 1 else 0)%nat = total writing s.2 }.

Lemma total_app f l r : total f (l ++ r) = (total f l + total f r)%nat.
Proof. induction l as [|p l IH]; simpl; lia. Qed.

Lemma total_middle f l p r : total f (l ++ p :: r) = (f p + total f (l ++ r))%nat.
Proof. rewrite !total_app. simpl. lia. Qed.

Lemma flat_idle p : flat p → reading p = 0%nat ∧ writing p = 0%nat.
Proof. by destruct 1. Qed.

#[local] Hint Resolve on_flat on_reading on_waiting on_writing : core.

(** The first operation of a flat program in progress, and the rest of it. *)
Lemma ongoing_cons op p : ongoing (op :: p) →
  ongoing p ∧ reading (op :: p) = (match op with RUnlock => 1 | _ => 0 end)%nat ∧
  reading p = (match op with RLock => 1 | _ => 0 end)%nat ∧
  writing p = (match op with LockAnnounce | LockAcquire => 1 | _ => 0 end)%nat.
Proof.
  inversion 1 as [? Hf|? Hf|? Hf|? Hf]; subst; [inversion Hf; subst|..];
    try (destruct (flat_idle p) as [-> ->]; [done|]); split_and!; auto.
Qed.

Lemma lock_inv_step s s' : lock_inv s → lock_step s s' → lock_inv s'.
Proof.
  intros [Ho Hr Hw] Hs. destruct Hs as [op m m' p l r Hf]. cbn [fst snd] in *.
  apply Forall_app in Ho as [Hl [Hp Hrs]%Forall_cons].
  destruct (ongoing_cons _ _ Hp) as (Hp' & Hrop & Hrp & Hwp).
  rewrite total_middle, Hrop in Hr. rewrite total_middle in Hw.
  split; cbn [fst snd]; [by apply Forall_app; split; [|constructor]| |]; rewrite total_middle, ?Hrp, ?Hwp.
  - unfold fires in Hf. destruct m as [n b]; cbn in *.
    destruct op; repeat case_match; simplify_eq; cbn in *; lia.
  - unfold fires in Hf. destruct m as [n b]; cbn in *.
    destruct op; repeat case_match; simplify_eq; cbn in *; lia.
Qed.

Lemma total_pos f ts : (0 < total f ts)%nat → ∃ l p r, ts = l ++ p :: r ∧ (0 < f p)%nat.
Proof.
  induction ts as [|p ts IH]; simpl; [lia|]. intros H. destruct (decide (0 < f p)%nat) as [Hp|Hp].
  - by exists [], p, ts.
  - destruct IH as (l & q & r & -> & Hq); [lia|]. by exists (p :: l), q, r.
Qed.

Definition lengths (ts : list (list lock_op)) : nat := total length ts.

(** A thread that has not ended can take a step, unless another one can. *)
Lemma lock_progress s : lock_inv s → (0 < lengths s.2)%nat → ∃ s', lock_step s s'.
Proof.
  intros [Ho Hr Hw] Hlen. destruct s as [[n b] ts]. cbn [fst snd mu_readers mu_pending] in *.
  assert (Hgo : ∀ l op p r m', ts = l ++ (op :: p) :: r → fires op (MkMutex n b) = Some m' → ∃ s', lock_step (MkMutex n b, ts) s').
  { intros l op p r m' -> Hf. eexists. by constructor. }
  destruct n as [|n].
  2: { destruct (total_pos reading ts) as (l & p & r & E & Hp); [lia|].
       destruct p as [|[] p]; cbn in Hp; try lia. by eapply Hgo. }
  destruct b.
  - destruct (total_pos writing ts) as (l & p & r & E & Hp); [lia|].
    destruct p as [|[] p]; cbn in Hp; try lia; by eapply Hgo.
  - destruct (total_pos length ts Hlen) as (l & p & r & E & Hp). destruct p as [|op p]; [simpl in Hp; lia|].
    subst ts. rewrite total_middle in Hr, Hw. destruct op; cbn in Hr, Hw; try lia; by eapply Hgo.
Qed.

Lemma lengths_step s s' : lock_step s s' → lengths s.2 = S (lengths s'.2).
Proof. destruct 1. unfold lengths. cbn [snd]. rewrite !total_middle. simpl. lia. Qed.

Definition ended (s : RWMutex * list (list lock_op)) : Prop := Forall (λ p, p = []) s.2.

Lemma lengths_zero ts : lengths ts = 0%nat → Forall (λ p, p = []) ts.
Proof.
  unfold lengths. induction ts as [|p ts IH]; simpl; [constructor|]. intros H.
  constructor; [destruct p; simpl in *; [done|lia]|apply IH; lia].
Qed.

Lemma flat_app p q : flat p → flat q → flat (p ++ q).
Proof. induction 1; simpl; auto using flat. Qed.

Lemma goroutine_flat ops : Forall (λ op, nested op = false) ops → flat (goroutine ops).
Proof.
  unfold goroutine. induction 1 as [|op ops Hop _ IH]; simpl; [constructor|]. apply flat_app; [|done].
  destruct op; try done; repeat constructor.
Qed.

Lemma lock_inv_start calls : Forall (Forall (λ op, nested op = false)) calls → lock_inv (idle_mutex, map goroutine calls).
Proof.
  intros H. assert (Hf : Forall flat (map goroutine calls)).
  { apply Forall_map. eapply Forall_impl; [exact H|]. apply goroutine_flat. }
  split; cbn; [eapply Forall_impl; [exact Hf|]; auto| |];
    (induction Hf as [|p ts Hp _ IH]; simpl; [done|]); destruct (flat_idle p Hp) as [H1 H2]; lia.
Qed.

(** C34: Operations that take the registry's lock once never deadlock: from every state that
    any number of goroutines can reach, whatever the interleaving so far, the calls can all
    be finished, and every step brings the end nearer, so that no schedule avoids it. *)
Theorem registry_calls_finish calls s : Forall (Forall (λ op, nested op = false)) calls →
  rtc lock_step (idle_mutex, map goroutine calls) s →
  (∃ s', rtc lock_step s s' ∧ ended s') ∧
  (ended s ∨ ∃ s', lock_step s s') ∧ ∀ s', lock_step s s' → lengths s.2 = S (lengths s'.2).
Proof.
  intros Hc Hr. assert (Hi : lock_inv s).
  { pose proof (lock_inv_start calls Hc) as H0. revert H0. induction Hr as [s|s t u Hst _ IH]; [done|].
    intros H0. apply IH. by eapply lock_inv_step. }
  clear Hr. split_and!; [|destruct (decide (lengths s.2 = 0%nat)); [by left; apply lengths_zero|
    right; apply lock_progress; [done|lia]]|apply lengths_step].
  remember (lengths s.2) as n eqn:Hn. revert s Hi Hn. induction n as [|n IH]; intros s Hi Hn.
  - exists s. split; [apply rtc_refl|by apply lengths_zero].
  - destruct (lock_progress s Hi) as [t Ht]; [lia|]. pose proof (lengths_step _ _ Ht).
    destruct (IH t) as (u & Hu & He); [by eapply lock_inv_step|lia|]. exists u. split; [by eapply rtc_l|done].
Qed.

(** The first available model can stop the registry for good. A request for it holds
    the read lock; a registration announces itself; the request asks for the read lock
    again and waits for the registration, which waits for the request. Neither can ever
    take another step, and every later call waits behind them. *)
Lemma first_available_model_deadlocks counted : ∃ s,
  rtc lock_step (idle_mutex, [goroutine [GetFirstAvailableModel counted]; goroutine [RegisterClient]]) s ∧
  ¬ ended s ∧ (∀ s', ¬ lock_step s s') ∧
  ∀ op, op ≠ ReturnsEarly → match lock_program op with [] => False | first :: _ => fires first s.1 = None end.
Proof.
  set (rest := RLock :: RUnlock :: concat (replicate counted read_locked) ++ [RUnlock]).
  exists (MkMutex 1 true, [rest; [LockAcquire; Unlock]]). split_and!.
  - apply (rtc_l _ _ (MkMutex 1 false, [rest; write_locked])).
    { unfold goroutine. cbn [map concat]. rewrite !app_nil_r.
      apply (lock_fires RLock idle_mutex _ rest [] [write_locked]). done. }
    apply rtc_once. apply (lock_fires LockAnnounce (MkMutex 1 false) _ [LockAcquire; Unlock] [rest] []). done.
  - intros H. by apply Forall_cons in H as [? _].
  - intros s' Hs. inversion Hs as [op m m' p l r Hf E]; subst. destruct l as [|x [|y l]]; simplify_eq/=.
    by destruct l.
  - by intros [].
Qed.

Lemma registry_calls_finish_witness :
  let calls := [[GetModelCount; RegisterClient]; [GetAvailableModels]] in
  Forall (Forall (λ op, nested op = false)) calls ∧ ∃ s', rtc lock_step (idle_mutex, map goroutine calls) s' ∧ ended s'.
Proof.
  assert (H : Forall (Forall (λ op, nested op = false)) [[GetModelCount; RegisterClient]; [GetAvailableModels]])
    by repeat constructor.
  split; [exact H|]. apply (registry_calls_finish _ _ H (rtc_refl _ _)).
Defined.
