(* ===== verification/QuotaReconcile.v ===== *)
(** * Quota reconciliation

    Models [src/sdk/cliproxy/auth/quota_reconcile.go]: what an upstream quota probe and an operator reset do to a
    credential, and when the next probe is due. The probe itself (an optional
    capability of an executor) and persistence are outside the model. *)
From S2P Require Import Prelude GoModel AuthTypes ModelNames Availability Aggregate QuotaPersist ClaudeHealth Cooldown.

Definition quotaProbePendingBackoff : Duration := 30 * Second.
Definition quotaProbeFailureBackoff : Duration := 2 * Minute.
Definition quotaProbeMinInterval : Duration := Minute.
Definition quotaProbeMaxInterval : Duration := 15 * Minute.

Record QuotaProbeModelResult := MkProbeModel { pm_Recovered : bool; pm_NextRecoverAt : Time }.

Record QuotaProbeResult := MkProbe {
  pr_Recovered : bool; pr_WindowExhausted : bool; pr_Window : string; pr_WindowMinutes : Z;
  pr_NextRecoverAt : Time; pr_Models : gmap string QuotaProbeModelResult
}.

Definition probeWindowFallbackCooldown (windowMinutes : Z) : Duration :=
  if 0 <? windowMinutes then
    let window := wrap64 (windowMinutes * Minute) in
    if window <? quotaWindowMaxCooldown then window else quotaWindowMaxCooldown
  else quotaWindowMaxCooldown.

(** ** One state *)

Definition some_error (e : option Error) : bool := match e with Some _ => true | None => false end.

Definition clearQuotaModelState (s : ModelState) (now : Time) : bool * ModelState :=
  ((ms_Unavailable s || ! status_eqb (ms_Status s) StatusActive || ! String.eqb (ms_StatusMessage s) "" ||
    ! IsZero (ms_NextRetryAfter s) || some_error (ms_LastError s) || ! bool_decide (ms_Quota s = quota_zero)),
   {| ms_Status := StatusActive; ms_StatusMessage := ""; ms_Unavailable := false;
      ms_NextRetryAfter := time_zero; ms_LastError := None; ms_Quota := quota_zero; ms_UpdatedAt := now |}).

Definition clearManualModelRuntimeState (s : ModelState) (now : Time) : bool * ModelState :=
  let preserveDisabled := status_eqb (ms_Status s) StatusDisabled in
  let changed := (ms_Unavailable s || ! IsZero (ms_NextRetryAfter s) || some_error (ms_LastError s) ||
                  ! bool_decide (ms_Quota s = quota_zero)) in
  let changed := (changed || (! preserveDisabled && (! status_eqb (ms_Status s) StatusActive ||
                                                      ! String.eqb (ms_StatusMessage s) ""))) in
  if ! changed then (false, s)
  else (true, {| ms_Status := if preserveDisabled then ms_Status s else StatusActive;
                 ms_StatusMessage := if preserveDisabled then ms_StatusMessage s else "";
                 ms_Unavailable := false; ms_NextRetryAfter := time_zero; ms_LastError := None;
                 ms_Quota := quota_zero; ms_UpdatedAt := now |}).

Definition with_recover_at (next : Time) (q : QuotaState) : QuotaState :=
  {| q_Exceeded := q_Exceeded q; q_RecoveryRequired := q_RecoveryRequired q; q_Reason := q_Reason q;
     q_Window := q_Window q; q_WindowMinutes := q_WindowMinutes q; q_NextRecoverAt := next;
     q_BackoffLevel := q_BackoffLevel q |}.
Definition quota_until (next : Time) (q : QuotaState) : QuotaState :=
  {| q_Exceeded := true; q_RecoveryRequired := q_RecoveryRequired q; q_Reason := "quota";
     q_Window := q_Window q; q_WindowMinutes := q_WindowMinutes q; q_NextRecoverAt := next;
     q_BackoffLevel := q_BackoffLevel q |}.

Definition updateQuotaModelRecoverAt (s : ModelState) (next now : Time) : bool * ModelState :=
  let q := ms_Quota s in
  if IsZero next then
    if ! quotaRecoveryGateArmed q then (false, s)
    else
      let deadline := time_Add now (probeWindowFallbackCooldown (q_WindowMinutes q)) in
      ((! ms_Unavailable s || ! time_Equal (q_NextRecoverAt q) deadline),
       mset_UpdatedAt now (mset_Quota (with_recover_at deadline q)
         (mset_NextRetryAfter deadline (mset_Unavailable true s))))
  else
    ((! time_Equal (ms_NextRetryAfter s) next || ! time_Equal (q_NextRecoverAt q) next ||
      ! ms_Unavailable s || ! q_Exceeded q || ! String.eqb (q_Reason q) "quota"),
     mset_UpdatedAt now (mset_Quota (quota_until next q)
       (mset_NextRetryAfter next (mset_Unavailable true s)))).

(** ** The credential *)

Definition clearQuotaAuthState (a : Auth) (now : Time) : bool * Auth :=
  ((au_Unavailable a || ! status_eqb (au_Status a) StatusActive || ! String.eqb (au_StatusMessage a) "" ||
    ! IsZero (au_NextRetryAfter a) || some_error (au_LastError a) || ! bool_decide (au_Quota a = quota_zero)),
   set_UpdatedAt now (set_Quota quota_zero (set_LastError None (set_NextRetryAfter time_zero
     (set_StatusMessage "" (set_Status StatusActive (set_Unavailable false a))))))).

Definition clearManualAuthRuntimeState (a : Auth) (now : Time) : bool * Auth :=
  let preserveDisabled := status_eqb (au_Status a) StatusDisabled in
  let changed := (au_Unavailable a || ! IsZero (au_NextRetryAfter a) || ! IsZero (au_NextRefreshAfter a) ||
                  some_error (au_LastError a) || ! bool_decide (au_Quota a = quota_zero)) in
  let changed := (changed || (! preserveDisabled && (! status_eqb (au_Status a) StatusActive ||
                                                      ! String.eqb (au_StatusMessage a) ""))) in
  if ! changed then (false, a)
  else
    let a := set_Quota quota_zero (set_LastError None (set_NextRefreshAfter time_zero
               (set_NextRetryAfter time_zero (set_Unavailable false a)))) in
    let a := if preserveDisabled then a else set_StatusMessage "" (set_Status StatusActive a) in
    (true, set_UpdatedAt now a).

Definition updateQuotaAuthRecoverAt (a : Auth) (next now : Time) : bool * Auth :=
  let q := au_Quota a in
  if IsZero next then
    if ! quotaRecoveryGateArmed q then (false, a)
    else
      let deadline := time_Add now (probeWindowFallbackCooldown (q_WindowMinutes q)) in
      ((! au_Unavailable a || ! time_Equal (q_NextRecoverAt q) deadline),
       set_UpdatedAt now (set_Quota (with_recover_at deadline q)
         (set_NextRetryAfter deadline (set_Unavailable true a))))
  else
    ((! time_Equal (au_NextRetryAfter a) next || ! time_Equal (q_NextRecoverAt q) next ||
      ! au_Unavailable a || ! q_Exceeded q || ! String.eqb (q_Reason q) "quota"),
     set_UpdatedAt now (set_Quota (quota_until next q)
       (set_NextRetryAfter next (set_Unavailable true a)))).

Section reconcile.
Context {RO : RangeOrder}.

Definition hasQuotaExceededModel (a : Auth) : bool :=
  existsb (λ e : string * option ModelState,
    match e.2 with Some s => q_Exceeded (ms_Quota s) | None => false end)
    (range_order 9 (au_ModelStates a)).

Definition normalize_step (out : gmap string QuotaProbeModelResult) (e : string * QuotaProbeModelResult)
    : gmap string QuotaProbeModelResult :=
  let key := canonicalModelKey e.1 in
  if String.eqb key "" then out else <[key := e.2]> out.

Definition normalizeQuotaProbeModels (m : gmap string QuotaProbeModelResult)
    : gmap string QuotaProbeModelResult :=
  foldl normalize_step ∅ (range_order 10 m).

(** What the probe says about one exceeded model, if anything. *)
Definition model_outcome (results : gmap string QuotaProbeModelResult) (authWide : QuotaProbeModelResult)
    (modelID : string) : option QuotaProbeModelResult :=
  match results !! canonicalModelKey modelID with
  | Some o => Some o
  | None => if bool_decide (size results = 0%nat) then Some authWide else None
  end.

Definition exhausted_window (result : QuotaProbeResult) (s : ModelState) (now : Time) : bool * ModelState :=
  let q := ms_Quota s in
  if (pr_WindowExhausted result &&
      (! q_RecoveryRequired q || ! String.eqb (q_Window q) (pr_Window result) ||
       ! (q_WindowMinutes q =? pr_WindowMinutes result)))
  then (true, mset_UpdatedAt now (mset_Quota
          {| q_Exceeded := q_Exceeded q; q_RecoveryRequired := true; q_Reason := q_Reason q;
             q_Window := pr_Window result; q_WindowMinutes := pr_WindowMinutes result;
             q_NextRecoverAt := q_NextRecoverAt q; q_BackoffLevel := q_BackoffLevel q |} s))
  else (false, s).

(** The loop of [applyQuotaProbeResult] on one model: whether something changed,
    whether the model recovered, and its state. *)
Definition probe_state (result : QuotaProbeResult) (results : gmap string QuotaProbeModelResult)
    (modelID : string) (s : ModelState) (now : Time) : bool * bool * ModelState :=
  if ! q_Exceeded (ms_Quota s) then (false, false, s)
  else
    let authWide := {| pm_Recovered := pr_Recovered result; pm_NextRecoverAt := pr_NextRecoverAt result |} in
    match model_outcome results authWide modelID with
    | None => (false, false, s)
    | Some outcome =>
        if pm_Recovered outcome then
          let '(changed, s) := clearQuotaModelState s now in (changed, true, s)
        else
          let '(c1, s) := exhausted_window result s now in
          let '(c2, s) := updateQuotaModelRecoverAt s (pm_NextRecoverAt outcome) now in
          ((c1 || c2), false, s)
    end.

Definition probe_entry (result : QuotaProbeResult) (results : gmap string QuotaProbeModelResult)
    (now : Time) (modelID : string) (o : option ModelState) : option ModelState :=
  match o with Some s => Some (probe_state result results modelID s now).2 | None => None end.

Definition applyQuotaProbeResult (a : Auth) (result : QuotaProbeResult) (now : Time)
    : bool * list string * Auth :=
  let modelResults := normalizeQuotaProbeModels (pr_Models result) in
  if (pr_WindowExhausted result && ! hasQuotaExceededModel a) then
    let recoverAt := if IsZero (pr_NextRecoverAt result)
                     then time_Add now (probeWindowFallbackCooldown (pr_WindowMinutes result))
                     else pr_NextRecoverAt result in
    let q := au_Quota a in
    let changed := (! au_Unavailable a || ! status_eqb (au_Status a) StatusError ||
                    ! String.eqb (au_StatusMessage a) "quota exhausted" ||
                    ! time_Equal (au_NextRetryAfter a) recoverAt || ! q_Exceeded q ||
                    ! q_RecoveryRequired q || ! String.eqb (q_Reason q) "quota" ||
                    ! String.eqb (q_Window q) (pr_Window result) ||
                    ! (q_WindowMinutes q =? pr_WindowMinutes result) ||
                    ! time_Equal (q_NextRecoverAt q) recoverAt) in
    let q := {| q_Exceeded := true; q_RecoveryRequired := true; q_Reason := "quota";
                q_Window := pr_Window result; q_WindowMinutes := pr_WindowMinutes result;
                q_NextRecoverAt := recoverAt; q_BackoffLevel := 0 |} in
    (changed, [],
     set_UpdatedAt now (set_Quota q (set_NextRetryAfter recoverAt
       (set_StatusMessage "quota exhausted" (set_Status StatusError (set_Unavailable true a))))))
  else if hasQuotaExceededModel a then
    let before := a in
    let l := range_order 11 (au_ModelStates a) in
    let changed := existsb (λ e : string * option ModelState,
      match e.2 with Some s => (probe_state result modelResults e.1 s now).1.1 | None => false end) l in
    let recovered := (List.filter (λ e : string * option ModelState,
      match e.2 with Some s => (probe_state result modelResults e.1 s now).1.2 | None => false end) l).*1 in
    let a := set_ModelStates (map_imap (λ k o, Some (probe_entry result modelResults now k o))
                                       (au_ModelStates a)) a in
    let a := updateAggregatedAvailability a now in
    let changed := (changed || negb (Bool.eqb (au_Unavailable a) (au_Unavailable before)) ||
                    ! time_Equal (au_NextRetryAfter a) (au_NextRetryAfter before) ||
                    ! bool_decide (au_Quota a = au_Quota before)) in
    let a := if ! hasModelError a now
             then set_LastError None (set_StatusMessage "" (set_Status StatusActive a)) else a in
    let changed := (changed || ! status_eqb (au_Status a) (au_Status before) ||
                    ! String.eqb (au_StatusMessage a) (au_StatusMessage before) ||
                    ! errorsEqual (au_LastError a) (cloneError (au_LastError before))) in
    (changed, recovered, a)
  else if ! q_Exceeded (au_Quota a) then (false, [], a)
  else if pr_Recovered result then
    let '(changed, a) := clearQuotaAuthState a now in (changed, [], a)
  else
    let '(changed, a) := updateQuotaAuthRecoverAt a (pr_NextRecoverAt result) now in (changed, [], a).

(** [clearManualRuntimeStatusForAuth] *)
Definition clearManualRuntimeStatusForAuth (a : Auth) (now : Time) : bool * list string * Auth :=
  let l := range_order 12 (au_ModelStates a) in
  let clears (e : string * option ModelState) :=
    match e.2 with Some s => (clearManualModelRuntimeState s now).1 | None => false end in
  let changed := existsb clears l in
  let recovered := (List.filter (λ e : string * option ModelState,
    (clears e && match e.2 with
                 | Some s => ! status_eqb (ms_Status (clearManualModelRuntimeState s now).2) StatusDisabled
                 | None => false end)) l).*1 in
  let a := set_ModelStates (fmap (M := gmap string)
             (fmap (λ s, (clearManualModelRuntimeState s now).2)) (au_ModelStates a)) a in
  let '(c1, a) := clearManualAuthRuntimeState a now in
  let '(c2, a) := clearClaudeOAuthRuntimeRestrictionLocked a now in
  ((changed || c1 || c2), recovered, a).

Definition authHasActiveQuotaCooldown (a : Auth) (now : Time) : bool :=
  if au_Disabled a then false
  else if activeAuthQuotaCooldown a now then true
  else existsb (λ e : string * option ModelState,
         match e.2 with Some s => activeModelQuotaCooldown s now | None => false end)
         (range_order 13 (au_ModelStates a)).

(** The earlier of the future ones among a retry time and a recovery time. *)
Definition probe_candidate (next : Time) (q : QuotaState) (now : Time) : Time :=
  let candidate := if After next now then next else time_zero in
  if (After (q_NextRecoverAt q) now && (IsZero candidate || Before (q_NextRecoverAt q) candidate))
  then q_NextRecoverAt q else candidate.

Definition probe_step (now : Time) (nextRecover : Time) (e : string * option ModelState) : Time :=
  match e.2 with
  | None => nextRecover
  | Some s =>
      if ! activeModelQuotaCooldown s now then nextRecover
      else
        let candidate := probe_candidate (ms_NextRetryAfter s) (ms_Quota s) now in
        if (! IsZero candidate && (IsZero nextRecover || Before candidate nextRecover))
        then candidate else nextRecover
  end.

Definition nextQuotaProbeTime (a : Auth) (now : Time) : Time :=
  let nextRecover := if activeAuthQuotaCooldown a now
                     then probe_candidate (au_NextRetryAfter a) (au_Quota a) now else time_zero in
  let nextRecover := foldl (probe_step now) nextRecover (range_order 14 (au_ModelStates a)) in
  if IsZero nextRecover then time_Add now quotaProbeMinInterval
  else if quotaRecoveryGateArmed (au_Quota a) then time_Add now quotaProbeMinInterval
  else
    let remaining := time_Sub nextRecover now in
    if remaining <=? 0 then time_Add now quotaProbeMinInterval
    else
      let interval := Z.quot remaining 4 in
      let interval := if interval <? quotaProbeMinInterval then quotaProbeMinInterval else interval in
      let interval := if quotaProbeMaxInterval <? interval then quotaProbeMaxInterval else interval in
      time_Add now interval.

(** [shouldProbeQuota], given whether the executor can probe. *)
Definition shouldProbeQuota (a : Auth) (canProbe : bool) (probeAfter : gmap string Time) (now : Time) : bool :=
  if (au_Disabled a || String.eqb (TrimSpace (au_ID a)) "") then false
  else if ! authHasActiveQuotaCooldown a now then false
  else if ! canProbe then false
  else let next := default time_zero (probeAfter !! au_ID a) in (IsZero next || ! After next now).

(** [UpdateQuotaFromProbe] on the manager's two tables: whether the credential was
    updated, the models to resume, and the tables. *)
Definition UpdateQuotaFromProbe (m : gmap string (option Auth)) (probeAfter : gmap string Time)
    (id : string) (result : option QuotaProbeResult) (now : Time)
    : bool * list string * gmap string (option Auth) * gmap string Time :=
  let id := TrimSpace id in
  match result with
  | None => (false, [], m, probeAfter)
  | Some result =>
      if String.eqb id "" then (false, [], m, probeAfter)
      else match mjoin (m !! id) with
           | None => (false, [], m, delete id probeAfter)
           | Some current =>
               let '(changed, models, a) := applyQuotaProbeResult current result now in
               let probeAfter := if authHasActiveQuotaCooldown a now
                                 then <[id := nextQuotaProbeTime a now]> probeAfter
                                 else delete id probeAfter in
               let a := if changed then syncPersistedQuotaRuntime (set_UpdatedAt now a) else a in
               (changed, models, <[id := Some a]> m, probeAfter)
           end
  end.

(** [ClearQuotaStatus] *)
Definition ClearQuotaStatus (m : gmap string (option Auth)) (probeAfter : gmap string Time)
    (id : string) (now : Time)
    : bool * list string * gmap string (option Auth) * gmap string Time :=
  let id := TrimSpace id in
  if String.eqb id "" then (false, [], m, probeAfter)
  else match mjoin (m !! id) with
       | None => (false, [], m, delete id probeAfter)
       | Some current =>
           let '(changed, models, a) := clearManualRuntimeStatusForAuth current now in
           let a := if changed then syncPersistedQuotaRuntime (set_UpdatedAt now a) else a in
           (changed, models, <[id := Some a]> m, delete id probeAfter)
       end.

(** [probeQuotaRecovery]: the first critical section (whether the probe is sent),
    and the one after the probe, with the answer it got: an error or no result, or a
    result. *)
Definition probe_begin (m : gmap string (option Auth)) (probeAfter : gmap string Time) (id : string)
    (force canProbe : bool) (now : Time) : bool * gmap string Time :=
  let id := TrimSpace id in
  if String.eqb id "" then (false, probeAfter)
  else match mjoin (m !! id) with
       | None => (false, delete id probeAfter)
       | Some _ =>
           let next := default time_zero (probeAfter !! id) in
           if (! force && ! IsZero next && After next now) then (false, probeAfter)
           else if ! canProbe then (false, delete id probeAfter)
           else (true, <[id := time_Add now quotaProbePendingBackoff]> probeAfter)
       end.

Definition probe_end (m : gmap string (option Auth)) (probeAfter : gmap string Time) (id : string)
    (answer : option QuotaProbeResult) (now : Time)
    : bool * list string * gmap string (option Auth) * gmap string Time :=
  match answer with
  | None => (false, [], m, <[TrimSpace id := time_Add now quotaProbeFailureBackoff]> probeAfter)
  | Some _ => UpdateQuotaFromProbe m probeAfter id answer now
  end.

End reconcile.

(** ** Theorems *)

Section reconcile_theorems.
Context {RO : RangeOrder}.

(** Whatever is recorded on the credential, the next quota probe is due no sooner
    than one minute and no later than fifteen minutes from now, and exactly one minute
    from now while a probe-confirmed gate holds the credential. *)
Lemma nextQuotaProbeTime_bounds a now :
  now + quotaProbeMinInterval ≤ nextQuotaProbeTime a now ≤ now + quotaProbeMaxInterval ∧
  (quotaRecoveryGateArmed (au_Quota a) = true → nextQuotaProbeTime a now = now + quotaProbeMinInterval).
Proof.
  unfold nextQuotaProbeTime. cbv zeta. set (r := foldl _ _ _).
  assert (quotaProbeMinInterval ≤ quotaProbeMaxInterval) by by vm_compute.
  unfold time_Add. destruct (IsZero r); [lia|].
  destruct (quotaRecoveryGateArmed (au_Quota a)); [lia|].
  destruct (time_Sub r now <=? 0); [lia|]. split; [|done].
  destruct (Z.ltb_spec (Z.quot (time_Sub r now) 4) quotaProbeMinInterval);
    [destruct (Z.ltb_spec quotaProbeMaxInterval quotaProbeMinInterval)|
     destruct (Z.ltb_spec quotaProbeMaxInterval (Z.quot (time_Sub r now) 4))]; lia.
Qed.

(** The fallback deadline of an exhausted window always lies ahead, and at most a
    week: for every window of fewer than 153722868 minutes (292 years, the range of
    a 64-bit duration) it is the length of the window, at most seven days. *)
Lemma window_fallback_bounds w :
  w ≤ 153722867 →
  0 < probeWindowFallbackCooldown w ≤ quotaWindowMaxCooldown ∧
  (0 < w → probeWindowFallbackCooldown w = Z.min (w * Minute) quotaWindowMaxCooldown).
Proof.
  intros Hw. unfold probeWindowFallbackCooldown, quotaWindowMaxCooldown, Hour, Minute.
  destruct (Z.ltb_spec 0 w); [|lia].
  rewrite wrap64_id by (unfold in_int64, two63; lia).
  destruct (Z.ltb_spec (w * 60000000000) (7 * 24 * 3600000000000)); lia.
Qed.

(** *** Operator reset *)

(** Nothing on this holder is left for an operator to clear. *)
Definition nothing_to_clear (unav : bool) (next : Time) (err : option Error) (q : QuotaState)
    (st : Status) (msg : string) : Prop :=
  unav = false ∧ next = 0 ∧ err = None ∧ q = quota_zero ∧
  (st ≠ StatusDisabled → st = StatusActive ∧ msg = "").

Lemma clear_test unav next err q st msg :
  ((unav || ! IsZero next || some_error err || ! bool_decide (q = quota_zero)) ||
   (! status_eqb st StatusDisabled && (! status_eqb st StatusActive || ! String.eqb msg ""))) = false ↔
  nothing_to_clear unav next err q st msg.
Proof.
  unfold nothing_to_clear, some_error, status_eqb, IsZero.
  destruct (Z.eqb_spec next 0), (String.eqb_spec msg ""), unav, err;
    repeat case_bool_decide; simpl; intuition congruence.
Qed.

Lemma manual_state_clear s now :
  let s' := (clearManualModelRuntimeState s now).2 in
  nothing_to_clear (ms_Unavailable s') (ms_NextRetryAfter s') (ms_LastError s') (ms_Quota s')
    (ms_Status s') (ms_StatusMessage s') ∧
  (ms_Status s' = StatusDisabled ↔ ms_Status s = StatusDisabled) ∧
  clearManualModelRuntimeState s' now = (false, s').
Proof.
  assert (Hfix : ∀ x, nothing_to_clear (ms_Unavailable x) (ms_NextRetryAfter x) (ms_LastError x)
    (ms_Quota x) (ms_Status x) (ms_StatusMessage x) → clearManualModelRuntimeState x now = (false, x)).
  { intros x Hx. unfold clearManualModelRuntimeState. cbv zeta.
    by rewrite (proj2 (clear_test _ _ _ _ _ _) Hx). }
  cbv zeta. destruct (clearManualModelRuntimeState s now) as [c s'] eqn:E. simpl.
  unfold clearManualModelRuntimeState in E. cbv zeta in E.
  case_if_in E; injection E as <- <-.
  - apply negb_true_iff, clear_test in E0. split; [done|]. split; [done|]. by apply Hfix.
  - match goal with |- nothing_to_clear _ _ _ _ ?st ?msg ∧ _ =>
      assert (Hn : nothing_to_clear false 0 None quota_zero st msg) end.
    { split_and!; try done. simpl. unfold status_eqb. destruct (bool_decide (ms_Status s = StatusDisabled)) eqn:Ed; [|by intros _].
      apply bool_decide_eq_true in Ed. intros Hne. by destruct Hne. }
    split; [done|]. split; [|by apply Hfix]. simpl. unfold status_eqb.
    destruct (bool_decide (ms_Status s = StatusDisabled)) eqn:Ed; [done|].
    apply bool_decide_eq_false in Ed. by split.
Qed.

Lemma manual_auth_clear a now :
  let a' := (clearManualAuthRuntimeState a now).2 in
  nothing_to_clear (au_Unavailable a') (au_NextRetryAfter a') (au_LastError a') (au_Quota a')
    (au_Status a') (au_StatusMessage a') ∧ au_NextRefreshAfter a' = 0 ∧
  (au_Status a' = StatusDisabled ↔ au_Status a = StatusDisabled) ∧
  au_Disabled a' = au_Disabled a ∧ au_ModelStates a' = au_ModelStates a.
Proof.
  cbv zeta. unfold clearManualAuthRuntimeState. cbv zeta.
  set (c := ((_ || _) || _)%bool).
  assert (Hc : c = false → nothing_to_clear (au_Unavailable a) (au_NextRetryAfter a) (au_LastError a)
    (au_Quota a) (au_Status a) (au_StatusMessage a) ∧ au_NextRefreshAfter a = 0).
  { intros Hf. unfold c in Hf. rewrite <- clear_test. unfold IsZero in *.
    destruct (Z.eqb_spec (au_NextRefreshAfter a) 0), (au_Unavailable a), (au_NextRetryAfter a =? 0),
      (some_error (au_LastError a)), (bool_decide (au_Quota a = quota_zero)); done. }
  destruct c; simpl; [|by destruct (Hc eq_refl)].
  unfold status_eqb. destruct (bool_decide (au_Status a = StatusDisabled)) eqn:Ed; simpl.
  - apply bool_decide_eq_true in Ed. split_and!; try done.
  - apply bool_decide_eq_false in Ed. split_and!; done.
Qed.

Lemma claude_clear_frame a now :
  let a' := (clearClaudeOAuthRuntimeRestrictionLocked a now).2 in
  au_Unavailable a' = au_Unavailable a ∧ au_NextRetryAfter a' = au_NextRetryAfter a ∧
  au_LastError a' = au_LastError a ∧ au_Quota a' = au_Quota a ∧ au_Status a' = au_Status a ∧
  au_StatusMessage a' = au_StatusMessage a ∧ au_Disabled a' = au_Disabled a ∧
  au_ModelStates a' = au_ModelStates a ∧ au_NextRefreshAfter a' = au_NextRefreshAfter a.
Proof.
  cbv zeta. unfold clearClaudeOAuthRuntimeRestrictionLocked.
  destruct (au_Metadata a !! _); [|done]. cbv zeta. by case_if.
Qed.

(** What an operator reset leaves. *)
Lemma manual_clear_spec a now :
  let a' := (clearManualRuntimeStatusForAuth a now).2 in
  nothing_to_clear (au_Unavailable a') (au_NextRetryAfter a') (au_LastError a') (au_Quota a')
    (au_Status a') (au_StatusMessage a') ∧ au_NextRefreshAfter a' = 0 ∧
  (au_Status a' = StatusDisabled ↔ au_Status a = StatusDisabled) ∧ au_Disabled a' = au_Disabled a ∧
  au_ModelStates a' = fmap (M := gmap string) (fmap (λ s, (clearManualModelRuntimeState s now).2))
                           (au_ModelStates a).
Proof.
  cbv zeta. unfold clearManualRuntimeStatusForAuth. cbv zeta. set (b := set_ModelStates _ a).
  pose proof (manual_auth_clear b now) as H1. destruct (clearManualAuthRuntimeState b now) as [c1 b1].
  pose proof (claude_clear_frame b1 now) as H2.
  destruct (clearClaudeOAuthRuntimeRestrictionLocked b1 now) as [c2 b2]. simpl in *.
  destruct H1 as (H1 & Hr & Hs & Hd & Hm), H2 as (-> & -> & -> & -> & -> & -> & -> & -> & ->).
  by rewrite Hd, Hm.
Qed.

(** An operator reset makes an enabled credential schedulable at once: afterwards
    neither the credential nor any of its models that is not disabled is held back, now
    or at any later time, and its refresh backoff is gone. *)
Lemma manual_reset_unblocks a now model t :
  au_Disabled a = false → au_Status a ≠ StatusDisabled →
  (∀ s, s ∈ model_states a → ms_Status s ≠ StatusDisabled) →
  let a' := (clearManualRuntimeStatusForAuth a now).2 in
  isAuthBlockedForModel (Some a') model t = (false, blockReasonNone, time_zero) ∧
  au_NextRefreshAfter a' = 0.
Proof.
  intros Hd Hst Hms a'. destruct (manual_clear_spec a now) as ((Hu & _ & _ & Hq & _) & Hr & Hsd & Hdis & Hm).
  fold a' in Hu, Hq, Hr, Hsd, Hdis, Hm. split; [|done].
  assert (Hall : ∀ m s', au_ModelStates a' !! m = Some (Some s') →
    ms_Status s' ≠ StatusDisabled ∧ ms_Unavailable s' = false ∧ ms_Quota s' = quota_zero).
  { intros m s' Hl. rewrite Hm, lookup_fmap in Hl.
    destruct (au_ModelStates a !! m) as [[s|]|] eqn:E; simplify_eq/=.
    destruct (manual_state_clear s now) as ((H1 & _ & _ & H4 & _) & H6 & _).
    split; [|done]. rewrite H6. apply Hms, elem_of_model_states. eauto. }
  unfold isAuthBlockedForModel. rewrite Hdis, Hd. unfold status_eqb at 1.
  rewrite bool_decide_false by (by rewrite Hsd). simpl. rewrite Hq, Hu. simpl.
  destruct (String.eqb model ""); [done|]. simpl.
  destruct (bool_decide _); [done|].
  assert (Hone : ∀ m s', mjoin (au_ModelStates a' !! m) = Some s' →
    model_state_blocked s' t = (false, blockReasonNone, time_zero)).
  { intros m s' Hl. destruct (Hall m s') as (H1 & H2 & H3).
    { by destruct (au_ModelStates a' !! m) as [[x|]|]; simplify_eq/=. }
    unfold model_state_blocked, status_eqb. rewrite bool_decide_false by done. by rewrite H2, H3. }
  destruct (lookup_model_state (au_ModelStates a') model) as [s'|] eqn:El.
  - unfold lookup_model_state in El. destruct (mjoin (au_ModelStates a' !! model)) eqn:E1; simplify_eq.
    + by eapply Hone.
    + case_if_in El; [|done]. by eapply Hone.
  - destruct (IsAntigravityAuth a'); [|done].
    destruct (List.find _ _) as [[k [s'|]]|] eqn:F; [|done..].
    apply List.find_some in F as [Hin F]. apply list_elem_of_In, elem_of_range in Hin.
    destruct (Hall k s' Hin) as (_ & _ & Hz). unfold family_cooling in F. simpl in F. by rewrite Hz in F.
Qed.

(** *** A confirmed recovery *)

Lemma aggregate_no_quota a now :
  0 ≤ now → au_ModelStates a ≠ ∅ → (∀ s, s ∈ model_states a → q_Exceeded (ms_Quota s) = false) →
  au_Quota (updateAggregatedAvailability a now) = quota_zero.
Proof.
  intros Hn Hne Hno. unfold updateAggregatedAvailability. destruct (bool_decide _) eqn:Hs.
  { by apply bool_decide_eq_true, map_size_empty_inv in Hs. }
  cbv zeta. set (g := foldl _ _ _).
  assert (Hg : ag_quotaExceeded g = false).
  { destruct (agg_fold_spec now (range_order 3 (au_ModelStates a)) Hn) as (_ & _ & H3 & _).
    unfold g. rewrite H3. apply not_true_iff_false. rewrite existsb_states.
    intros (s & Hin & Hx). by rewrite Hno in Hx. }
  rewrite base_antigravity. destruct (IsAntigravityAuth a); [|simpl; by rewrite Hg].
  unfold aggregate_antigravity. cbv zeta. simpl au_ModelStates.
  assert (Hf : ∀ fam, existsb (family_cooling fam now)
    (range_order 5 (fmap (M := gmap string) (fmap (agg_state now)) (au_ModelStates a))) = false).
  { intros fam. apply not_true_iff_false. rewrite agg_cooling. intros (m & s & Hm & _ & Hx & _).
    rewrite Hno in Hx; [done|]. apply elem_of_model_states. eauto. }
  rewrite !Hf. done.
Qed.

Lemma has_exceeded_iff a :
  hasQuotaExceededModel a = true ↔ ∃ m s, au_ModelStates a !! m = Some (Some s) ∧ q_Exceeded (ms_Quota s) = true.
Proof.
  unfold hasQuotaExceededModel. rewrite existsb_range. split.
  - intros (m & [s|] & Hm & Hx); [|done]. eauto.
  - intros (m & s & Hm & Hx). exists m, (Some s). done.
Qed.

(** The auth-wide recovery on one state. *)
Lemma probe_state_recovered result now m s :
  pr_Recovered result = true →
  probe_state result ∅ m s now =
  if q_Exceeded (ms_Quota s)
  then ((clearQuotaModelState s now).1, true, (clearQuotaModelState s now).2) else (false, false, s).
Proof.
  intros Hr. unfold probe_state, model_outcome. destruct (q_Exceeded (ms_Quota s)); [|done]. simpl.
  rewrite lookup_empty. simpl. by rewrite Hr.
Qed.

(** A probe that reports the whole credential recovered ends every quota cooldown
    on it: none is active any more on the credential or on a model, and the models to
    resume are exactly those that were marked as out of quota. *)
Lemma recovered_probe_ends_quota a result now changed recovered a' :
  0 ≤ now → pr_Recovered result = true → pr_WindowExhausted result = false → pr_Models result = ∅ →
  applyQuotaProbeResult a result now = (changed, recovered, a') →
  authHasActiveQuotaCooldown a' now = false ∧
  ∀ m, m ∈ recovered ↔ ∃ s, au_ModelStates a !! m = Some (Some s) ∧ q_Exceeded (ms_Quota s) = true.
Proof.
  intros Hn Hr Hw Hm H. unfold applyQuotaProbeResult in H.
  rewrite Hw, Hm in H. unfold normalizeQuotaProbeModels in H. rewrite range_empty in H. simpl in H.
  assert (Hend : ∀ b, au_Quota b = quota_zero →
    (∀ m s, au_ModelStates b !! m = Some (Some s) → q_Exceeded (ms_Quota s) = false) →
    authHasActiveQuotaCooldown b now = false).
  { intros b Hq Hs. unfold authHasActiveQuotaCooldown, activeAuthQuotaCooldown. rewrite Hq. simpl.
    destruct (au_Disabled b); [done|]. apply not_true_iff_false. rewrite existsb_range.
    intros (m & [s|] & Hl & Hx); [|done].
    simpl in Hx. unfold activeModelQuotaCooldown, activeQuotaCooldown in Hx.
    by rewrite (Hs m s Hl) in Hx. }
  destruct (hasQuotaExceededModel a) eqn:Ha.
  - apply has_exceeded_iff in Ha as (m0 & s0 & Hm0 & Hx0).
    set (b := set_ModelStates _ a) in H. set (l := range_order 11 (au_ModelStates a)) in H.
    assert (Hb : ∀ m s', au_ModelStates b !! m = Some (Some s') → q_Exceeded (ms_Quota s') = false).
    { intros m s' Hl. simpl in Hl. rewrite map_lookup_imap in Hl.
      destruct (au_ModelStates a !! m) as [[s|]|]; simplify_eq/=.
      rewrite probe_state_recovered by done. by destruct (q_Exceeded (ms_Quota s)) eqn:E. }
    assert (Hbne : au_ModelStates b ≠ ∅).
    { intros Hz. assert (au_ModelStates b !! m0 = None) as Hno by (by rewrite Hz).
      simpl in Hno. rewrite map_lookup_imap, Hm0 in Hno. done. }
    assert (Hq : au_Quota (updateAggregatedAvailability b now) = quota_zero).
    { apply aggregate_no_quota; [done|done|]. intros s Hs. apply elem_of_model_states in Hs as [m Hs].
      by eapply Hb. }
    assert (Hs' : ∀ m s, au_ModelStates (updateAggregatedAvailability b now) !! m = Some (Some s) →
      q_Exceeded (ms_Quota s) = false).
    { intros m s Hl. destruct (aggregate_frame b now) as (_ & _ & _ & _ & _ & Hf & _).
      rewrite Hf, lookup_fmap in Hl. destruct (au_ModelStates b !! m) as [[x|]|] eqn:E; simplify_eq/=.
      rewrite agg_state_quota. by eapply Hb. }
    injection H as _ <- <-.
    split; [by destruct (hasModelError (updateAggregatedAvailability b now) now); apply Hend|].
    intros m. rewrite list_elem_of_fmap. split.
    + intros ([k o] & -> & Hin). apply list_elem_of_In, List.filter_In in Hin as [Hin Hx]. simpl in *.
      apply list_elem_of_In, elem_of_range in Hin. destruct o as [s|]; [|done].
      rewrite probe_state_recovered in Hx by done. exists s. by destruct (q_Exceeded (ms_Quota s)).
    + intros (s & Hs & Hx). exists (m, Some s). split; [done|].
      apply list_elem_of_In, List.filter_In. split; [by apply list_elem_of_In, elem_of_range|].
      simpl. by rewrite probe_state_recovered, Hx.
  - assert (Hno : ∀ m s, au_ModelStates a !! m = Some (Some s) → q_Exceeded (ms_Quota s) = false).
    { intros m s Hl. destruct (q_Exceeded (ms_Quota s)) eqn:E; [|done].
      apply not_true_iff_false in Ha. destruct Ha. apply has_exceeded_iff. eauto. }
    assert (Hnil : ∀ m : string, m ∈ @nil string ↔
      ∃ s, au_ModelStates a !! m = Some (Some s) ∧ q_Exceeded (ms_Quota s) = true).
    { intros m. split; [intros Hin; by apply elem_of_nil in Hin|].
      intros (s & Hl & Hx). by rewrite (Hno m s Hl) in Hx. }
    destruct (q_Exceeded (au_Quota a)) eqn:Hq; simpl in H.
    + rewrite Hr in H. simplify_eq/=. split; [|done]. by apply Hend.
    + simplify_eq. split; [|done]. unfold authHasActiveQuotaCooldown, activeAuthQuotaCooldown, activeQuotaCooldown.
      rewrite Hq. simpl. destruct (au_Disabled a'); [done|]. apply not_true_iff_false.
      rewrite existsb_range. intros (m & [s|] & Hl & Hx); [|done].
      simpl in Hx. unfold activeModelQuotaCooldown, activeQuotaCooldown in Hx. by rewrite (Hno m s Hl) in Hx.
Qed.
End reconcile_theorems.

(** ** Concrete probes *)

Definition recovered_probe : QuotaProbeResult :=
  {| pr_Recovered := true; pr_WindowExhausted := false; pr_Window := ""; pr_WindowMinutes := 0;
     pr_NextRecoverAt := 0; pr_Models := ∅ |}.

Lemma window_fallback_bounds_witness : probeWindowFallbackCooldown 300 = Z.min (300 * Minute) quotaWindowMaxCooldown.
Proof. apply window_fallback_bounds; lia. Defined.

Lemma manual_reset_unblocks_witness :
  isAuthBlockedForModel (RO := listing_order)
    (Some (@clearManualRuntimeStatusForAuth listing_order gated 1000).2) "grok-4" 2000
  = (false, blockReasonNone, time_zero).
Proof.
  apply (@manual_reset_unblocks listing_order gated 1000 "grok-4" 2000); [done|done|].
  intros s Hs. apply elem_of_model_states in Hs as [m Hm].
  change (({["grok-4" := Some gated_state]} : gmap string (option ModelState)) !! m = Some (Some s)) in Hm.
  apply lookup_singleton_Some in Hm as [_ [= <-]]. done.
Defined.

Lemma recovered_probe_ends_quota_witness :
  authHasActiveQuotaCooldown (RO := listing_order)
    (@applyQuotaProbeResult listing_order gated recovered_probe 1000).2 1000 = false.
Proof.
  apply (@recovered_probe_ends_quota listing_order gated recovered_probe 1000
    (@applyQuotaProbeResult listing_order gated recovered_probe 1000).1.1
    (@applyQuotaProbeResult listing_order gated recovered_probe 1000).1.2);
    [lia|reflexivity|reflexivity|reflexivity|].
  destruct (applyQuotaProbeResult _ _ _) as [[c l] b]. reflexivity.
Defined.
