(* ===== verification/Selectors.v ===== *)
(** * The selectors

    Models [src/sdk/cliproxy/auth/selector.go] (round-robin with virtual parents,
    fill-first), [selector_least_load.go], [account_load.go] (the pressure tracker),
    [selector_session_sticky.go] and [selector_session_sticky_shared.go] (bindings of
    sessions to accounts), [scheduling_metadata.go] and the metadata scopes of
    [selector_availability.go] and [conductor_selector_service.go].

    A selector is an instance of the class [Selector]; what the conductor relies on
    is the class [SelectorOK], and the session-sticky selector is proved against the
    interface of whatever selector it delegates to. What a call of [Pick] reads from
    outside (clock, random numbers, limiter, quota source, downstream transport) is
    the record [PickEnv]. The value of [math.Exp2] is the class [MathExp2] (its last
    bits depend on the platform), and the session key found in a request body is a
    field of [Options]. *)
From S2P Require Import Prelude GoModel AuthTypes ModelNames Weighted Availability Limiter Aggregate ClaudeHealth Cooldown.
From Stdlib Require Import Ascii SpecFloat.

(** ** Metadata *)

Record Options := MkOptions {
  op_Metadata : gmap string GoAny; op_SourceFormat : string; op_bodyKey : string; op_Alt : string }.

Fixpoint metadataStringValue (meta : gmap string GoAny) (keys : list string) : string :=
  match keys with
  | [] => ""
  | key :: keys =>
      match meta !! key with
      | Some (AString value) =>
          let trimmed := TrimSpace value in
          if ! String.eqb trimmed "" then trimmed else metadataStringValue meta keys
      | _ => metadataStringValue meta keys
      end
  end.

Definition defaultTenantID : string := "00000000-0000-0000-0000-000000000001".

Definition normalizedTenantID (tenantID : string) : string :=
  let tenantID := TrimSpace tenantID in
  if String.eqb tenantID "" then defaultTenantID else tenantID.

Definition tenantIDFromMetadata (meta : gmap string GoAny) : string :=
  normalizedTenantID (metadataStringValue meta ["tenant_id"]).

Definition tenantSelectionPrefix (meta : gmap string GoAny) : string :=
  tenantIDFromMetadata meta +:+ ":".

Definition routeGroupSelectionScope (meta : gmap string GoAny) : string :=
  match meta !! "route_group" with
  | Some (AString raw) | Some (ABytes raw) => TrimSpace raw
  | _ => ""
  end.

(** The loop that trims, lower-cases and deduplicates the groups. *)
Definition group_step (normalized : list string) (value : string) : list string :=
  let value := TrimByte "/"%char (ToLower (TrimSpace value)) in
  if String.eqb value "" || existsb (String.eqb value) normalized then normalized
  else normalized ++ [value].

Definition allowedChannelGroupsSelectionScope {J : GoJSON} (meta : gmap string GoAny) : string :=
  let values := match meta !! "allowed-channel-groups" with
    | Some (AString v) | Some (ABytes v) => SplitByte ","%char v
    | Some (AStrings v) => v
    | Some (AList v) => map fmt_Sprint v
    | _ => []
    end in
  Join (sort_by str_lt (foldl group_step [] values)) ",".

Definition weightedSelectionScope {J : GoJSON} (meta : gmap string GoAny) : string :=
  let routeGroup := routeGroupSelectionScope meta in
  if ! String.eqb routeGroup "" then "route:" +:+ routeGroup
  else
    let allowedGroups := allowedChannelGroupsSelectionScope meta in
    if ! String.eqb allowedGroups "" then "allowed:" +:+ allowedGroups else "".

Definition weightedSelectionKey {J : GoJSON} (provider model : string) (opts : Options) : string :=
  tenantSelectionPrefix (op_Metadata opts) +:+ provider +:+ ":" +:+ canonicalModelKey model +:+ ":" +:+
  weightedSelectionScope (op_Metadata opts).

Record stickyLimits := MkLimits { maxRequests : Z; releaseAtLoad : float64 }.

Definition stickyLimitsFromMetadata (meta : gmap string GoAny) : stickyLimits :=
  let raw := TrimSpace (metadataStringValue meta ["sticky_max_requests"]) in
  let n := match Atoi raw with Some n => if 0 <? n then n else 0 | None => 0 end in
  let raw := TrimSpace (metadataStringValue meta ["sticky_release_at_load"]) in
  let f := match ParseFloat raw with
           | Some f => if f64_lt f64_zero f then f else f64_zero
           | None => f64_zero end in
  {| maxRequests := n; releaseAtLoad := f |}.

(** Distribution modes ([NormalizeDistribution] of the configuration). *)
Inductive Distribution := DistributionWeighted | DistributionLeastLoad | DistributionFillFirst.

Definition NormalizeDistribution (value : string) : Distribution :=
  let v := TrimSpace (ToLower value) in
  if existsb (String.eqb v) ["least-load"; "leastload"; "ll"] then DistributionLeastLoad
  else if existsb (String.eqb v) ["fill-first"; "fillfirst"; "ff"] then DistributionFillFirst
  else DistributionWeighted.

Definition distributionFromMetadata (meta : gmap string GoAny) : Distribution :=
  NormalizeDistribution (metadataStringValue meta ["scheduling_distribution"]).

(** ** Load *)

Class MathExp2 := Exp2 : float64 → float64.

Definition f64_lit (n d : Z) : float64 := f64_div (f64_of_int n) (f64_of_int d).

(** [Duration.Seconds] *)
Definition dur_Seconds (d : Duration) : float64 :=
  f64_add (f64_of_int (Z.quot d Second))
          (f64_div (f64_of_int (Z.rem d Second)) (f64_of_int 1000000000)).

Definition selectionDecayHalfLife : Duration := 5 * Minute.
Definition selectionTrackerMaxKeys : Z := 4096.

Record decayCounter := MkCounter { dc_value : float64; dc_updatedAt : Time }.
Record selectionPressureTracker := MkTracker {
  tr_counters : gmap string decayCounter; tr_maxKeys : Z }.

Definition counter_zero : decayCounter := MkCounter f64_zero time_zero.

Section load.
Context {RO : RangeOrder} {X : MathExp2}.

Definition decayedValue (c : decayCounter) (now : Time) : float64 :=
  if ! f64_nonzero (dc_value c) || IsZero (dc_updatedAt c) then f64_zero
  else
    let elapsed := time_Sub now (dc_updatedAt c) in
    if elapsed <=? 0 then dc_value c
    else f64_mul (dc_value c)
           (Exp2 (f64_div (SFopp (dur_Seconds elapsed)) (dur_Seconds selectionDecayHalfLife))).

(** The loop of [evictIfNeededLocked]: cold entries are dropped as they are met, the
    oldest of the others is remembered. *)
Definition evict_step (now : Time) (acc : gmap string decayCounter * string * Time)
    (e : string * decayCounter) : gmap string decayCounter * string * Time :=
  let '(counters, oldestID, oldestAt) := acc in
  if f64_lt (decayedValue e.2 now) (f64_lit 1 100) then (delete e.1 counters, oldestID, oldestAt)
  else if String.eqb oldestID "" || Before (dc_updatedAt e.2) oldestAt
  then (counters, e.1, dc_updatedAt e.2)
  else acc.

Definition tracker_evict (t : selectionPressureTracker) (incoming : string) (now : Time)
    : gmap string decayCounter :=
  let limit := if tr_maxKeys t <=? 0 then selectionTrackerMaxKeys else tr_maxKeys t in
  if bool_decide (is_Some (tr_counters t !! incoming)) || (Z.of_nat (size (tr_counters t)) <? limit)
  then tr_counters t
  else
    let '(counters, oldestID, _) :=
      foldl (evict_step now) (tr_counters t, "", time_zero) (range_order 20 (tr_counters t)) in
    if (limit <=? Z.of_nat (size counters)) && ! String.eqb oldestID ""
    then delete oldestID counters else counters.

(** [observe]; a nil tracker is [None]. *)
Definition observe (t : option selectionPressureTracker) (authID : string) (now : Time)
    : option selectionPressureTracker :=
  match t with
  | None => None
  | Some tr =>
      if String.eqb authID "" then t
      else
        let counters := tracker_evict tr authID now in
        let current := default counter_zero (counters !! authID) in
        Some (MkTracker
          (<[authID := MkCounter (f64_add (decayedValue current now) (f64_of_int 1)) now]> counters)
          (tr_maxKeys tr))
  end.

Definition pressure (t : option selectionPressureTracker) (authID : string) (now : Time) : float64 :=
  match t with
  | None => f64_zero
  | Some tr =>
      if String.eqb authID "" then f64_zero
      else decayedValue (default counter_zero (tr_counters tr !! authID)) now
  end.

(** [schedulerDeps] without the tracker: the limiter and the quota source. *)
Record SchedulerView := MkView {
  sv_limiter : option limiter; sv_quota : option (Auth → option float64) }.

Definition GetLoadRate (l : limiter) (authID : string) (maxLimit : Z) : float64 :=
  if maxLimit <=? 0 then f64_zero
  else f64_div (f64_of_int (GetInFlight l authID)) (f64_of_int maxLimit).

Definition accountLoadRatio (a : Auth) (v : SchedulerView) : float64 :=
  let ratio := match sv_limiter v with
    | Some l => GetLoadRate l (au_ID a) (ConcurrencyLimit a) | None => f64_zero end in
  let ratio := match sv_quota v with
    | Some quota =>
        match quota a with
        | Some quotaRatio => if f64_lt ratio quotaRatio then quotaRatio else ratio
        | None => ratio
        end
    | None => ratio
    end in
  if f64_lt ratio f64_zero then f64_zero
  else if f64_lt (f64_of_int 1) ratio then f64_of_int 1
  else ratio.

Definition loadRatio (d : option SchedulerView) (a : Auth) : float64 :=
  match d with None => f64_zero | Some v => accountLoadRatio a v end.

End load.

(** ** The interface *)

(** What one call of [Pick] reads: the context's transport, the clock, the clock as a
    delegate reads it later, the random generator and the scheduler's signals. *)
Record PickEnv := MkEnvP {
  pe_ws : bool; pe_now : Time; pe_later : Time; pe_IntN : Z → Z;
  pe_deps : option SchedulerView }.

Definition delegate_env (e : PickEnv) : PickEnv :=
  MkEnvP (pe_ws e) (pe_later e) (pe_later e) (pe_IntN e) (pe_deps e).

Abbreviation Tracker := (option selectionPressureTracker) (only parsing).

Class Selector (S : Type) :=
  Pick : PickEnv → string → string → Options → list (option Auth) → S → Tracker →
         (SelectError + Auth) * S * Tracker.

Definition authWebsocketsEnabled (a : Auth) : bool :=
  let raw := TrimSpace (attr (au_Attributes a) "websockets") in
  match (if String.eqb raw "" then None else ParseBool raw) with
  | Some parsed => parsed
  | None =>
      match au_Metadata a !! "websockets" with
      | Some (ABool v) => v
      | Some (AString v) => default false (ParseBool (TrimSpace v))
      | _ => false
      end
  end.

Definition preferCodexWebsocketAuths (ws : bool) (provider : string) (available : list Auth)
    : list Auth :=
  if bool_decide (length available = 0%nat) then available
  else if ! ws then available
  else if ! EqualFold (TrimSpace provider) "codex" then available
  else
    let wsEnabled := List.filter authWebsocketsEnabled available in
    if bool_decide (length wsEnabled = 0%nat) then available else wsEnabled.

Section selectors.
Context {RO : RangeOrder} {X : MathExp2} {J : GoJSON}.

(** [observeSelection]: nothing without scheduler signals. *)
Definition observeSelection (e : PickEnv) (a : Auth) (t : Tracker) : Tracker :=
  match pe_deps e with None => t | Some _ => observe t (au_ID a) (pe_now e) end.

(** ** Round-robin *)

Record RoundRobinSelector := MkRR {
  rr_cursors : gmap string Z; rr_weighted : gmap string weightedCursorState; rr_maxKeys : Z }.

Definition rr_new : RoundRobinSelector := MkRR ∅ ∅ 0.

Definition virtual_parent (a : Auth) : string :=
  TrimSpace (attr (au_Attributes a) "gemini_virtual_parent").

(** [groups[parent] = append(groups[parent], a)] *)
Definition group_add (groups : gmap string (list Auth)) (a : Auth) : gmap string (list Auth) :=
  <[virtual_parent a := default [] (groups !! virtual_parent a) ++ [a]]> groups.

Definition groupByVirtualParent (auths : list Auth) : gmap string (list Auth) * list string :=
  if existsb (λ a, String.eqb (virtual_parent a) "") auths then (∅, [])
  else
    let groups := foldl group_add ∅ auths in
    (groups, sort_by str_lt (range_order 21 groups).*1).

Definition ensureCursorKey (cursors : gmap string Z) (key : string) (limit : Z) : gmap string Z :=
  if negb (bool_decide (is_Some (cursors !! key))) && (limit <=? Z.of_nat (size cursors))
  then ∅ else cursors.

Definition cursorMax : Z := 2147483640.

(** Reading a cursor and advancing it. *)
Definition take_cursor (cursors : gmap string Z) (key : string) : Z * gmap string Z :=
  let index := default 0 (cursors !! key) in
  let index := if cursorMax <=? index then 0 else index in
  (index, <[key := index + 1]> cursors).

Definition nth_mod {A} (index : Z) (l : list A) : option A :=
  l !! (Z.to_nat (Z.rem index (Z.of_nat (length l)))).

(** The two-level round-robin over credential groups. *)
Definition pick_grouped (e : PickEnv) (key : string) (limit : Z)
    (groups : gmap string (list Auth)) (parentOrder : list string) (cursors : gmap string Z)
    : option Auth * gmap string Z :=
  let groupKey := key +:+ "::group" in
  let cursors := ensureCursorKey cursors groupKey limit in
  let cursors := if bool_decide (is_Some (cursors !! groupKey)) then cursors
                 else <[groupKey := pe_IntN e (Z.of_nat (length parentOrder))]> cursors in
  let '(groupIndex, cursors) := take_cursor cursors groupKey in
  match nth_mod groupIndex parentOrder with
  | None => (None, cursors)
  | Some selectedParent =>
      let group := default [] (groups !! selectedParent) in
      let innerKey := key +:+ "::cred:" +:+ selectedParent in
      let cursors := ensureCursorKey cursors innerKey limit in
      let '(innerIndex, cursors) := take_cursor cursors innerKey in
      (nth_mod innerIndex group, cursors)
  end.

Definition no_auth_error : SelectError := plain_error "auth_not_found" "selector returned no auth".

Definition rr_Pick : Selector RoundRobinSelector :=
  λ e provider model opts auths s t,
  match getAvailableAuths auths provider model (pe_now e) with
  | inl err => (inl err, s, t)
  | inr available =>
      let available := preferCodexWebsocketAuths (pe_ws e) provider available in
      let key := tenantSelectionPrefix (op_Metadata opts) +:+ provider +:+ ":" +:+ canonicalModelKey model in
      let limit := if rr_maxKeys s <=? 0 then 4096 else rr_maxKeys s in
      let '(groups, parentOrder) := groupByVirtualParent available in
      if (1 <? length parentOrder)%nat then
        let '(selected, cursors) := pick_grouped e key limit groups parentOrder (rr_cursors s) in
        let s := MkRR cursors (rr_weighted s) (rr_maxKeys s) in
        match selected with
        | Some a => (inr a, s, observeSelection e a t)
        | None => (inl no_auth_error, s, t)
        end
      else
        let weightedKey := weightedSelectionKey provider model opts in
        let weighted := ensureWeightedState (rr_weighted s) weightedKey limit in
        let '(selected, weighted) := pickWeightedAvailable weighted weightedKey available in
        let s := MkRR (rr_cursors s) weighted (rr_maxKeys s) in
        match selected with
        | Some a => (inr a, s, observeSelection e a t)
        | None => (inl no_auth_error, s, t)
        end
  end.
#[export] Existing Instance rr_Pick.

(** ** Fill-first *)

Definition fillFirstSwitchLoad : float64 := f64_lit 9 10.

Inductive FillFirstSelector := FillFirst.

(** The scan over the ordered candidates. *)
Fixpoint fill_scan (load : Auth → float64) (l : list Auth) (fallback : option (Auth * float64))
    : option Auth :=
  match l with
  | [] => fst <$> fallback
  | candidate :: rest =>
      if f64_lt (load candidate) fillFirstSwitchLoad then Some candidate
      else fill_scan load rest
        (match fallback with
         | None => Some (candidate, load candidate)
         | Some (_, fallbackLoad) =>
             if f64_lt (load candidate) fallbackLoad then Some (candidate, load candidate) else fallback
         end)
  end.

Definition heavier (a b : Auth) : bool := authSelectionWeight (Some b) <? authSelectionWeight (Some a).

Definition ff_Pick : Selector FillFirstSelector :=
  λ e provider model opts auths s t,
  match getAvailableAuths auths provider model (pe_now e) with
  | inl err => (inl err, s, t)
  | inr available =>
      let available := preferCodexWebsocketAuths (pe_ws e) provider available in
      let ordered := sort_by heavier available in
      match fill_scan (loadRatio (pe_deps e)) ordered None with
      | Some a => (inr a, s, observeSelection e a t)
      | None => (inl no_auth_error, s, t)
      end
  end.
#[export] Existing Instance ff_Pick.

(** ** Least load *)

Inductive LeastLoadSelector := LeastLoad.

Definition quotaLoadPenalty : float64 := f64_of_int 4.

Definition least_score (e : PickEnv) (t : Tracker) (candidate : Auth) : float64 :=
  let weight := authSelectionWeight (Some candidate) in
  let weight := if weight <=? 0 then 1 else weight in
  let load := match pe_deps e with
    | None => f64_zero | Some _ => pressure t (au_ID candidate) (pe_now e) end in
  let load := match pe_deps e with
    | Some {| sv_limiter := Some l |} => f64_add load (f64_of_int (GetInFlight l (au_ID candidate)))
    | _ => load end in
  f64_mul (f64_div load (f64_of_int weight))
          (f64_add (f64_of_int 1) (f64_mul quotaLoadPenalty (loadRatio (pe_deps e) candidate))).

Definition least_step (score : Auth → float64) (best : option (Auth * float64)) (candidate : Auth)
    : option (Auth * float64) :=
  match best with
  | None => Some (candidate, score candidate)
  | Some (_, bestScore) =>
      if f64_lt (score candidate) bestScore then Some (candidate, score candidate) else best
  end.

Definition ll_Pick : Selector LeastLoadSelector :=
  λ e provider model opts auths s t,
  match getAvailableAuths auths provider model (pe_now e) with
  | inl err => (inl err, s, t)
  | inr available =>
      let available := preferCodexWebsocketAuths (pe_ws e) provider available in
      match foldl (least_step (least_score e t)) None available with
      | Some (best, _) => (inr best, s, observeSelection e best t)
      | None => (inl no_auth_error, s, t)
      end
  end.
#[export] Existing Instance ll_Pick.

(** ** Distribution

    [distributionSelectorLocked]: the manager's singletons, chosen by the mode in the
    request's metadata. *)
Record DistributionSelectors := MkDistribution {
  ds_roundRobin : RoundRobinSelector; ds_fillFirst : FillFirstSelector;
  ds_leastLoad : LeastLoadSelector }.

Definition distribution_as (d : Distribution) : Selector DistributionSelectors :=
  λ e provider model opts auths s t,
  match d with
  | DistributionFillFirst =>
      let '(r, ff, t) := Pick e provider model opts auths (ds_fillFirst s) t in
      (r, MkDistribution (ds_roundRobin s) ff (ds_leastLoad s), t)
  | DistributionLeastLoad =>
      let '(r, ll, t) := Pick e provider model opts auths (ds_leastLoad s) t in
      (r, MkDistribution (ds_roundRobin s) (ds_fillFirst s) ll, t)
  | DistributionWeighted =>
      let '(r, rr, t) := Pick e provider model opts auths (ds_roundRobin s) t in
      (r, MkDistribution rr (ds_fillFirst s) (ds_leastLoad s), t)
  end.

Definition distribution_Pick : Selector DistributionSelectors :=
  λ e provider model opts auths s t,
  distribution_as (distributionFromMetadata (op_Metadata opts)) e provider model opts auths s t.
#[export] Existing Instance distribution_Pick.

End selectors.

(** ** What the conductor relies on

    A selector only hands out credentials that [getAvailableAuths] admits at one of
    the two readings of the clock, and refuses, without touching its state, when it
    admits none at either. *)
Class SelectorOK (S : Type) {RO : RangeOrder} {Sel : Selector S} : Prop := {
  pick_available : ∀ e provider model opts auths (s : S) t a s' t',
    Pick e provider model opts auths s t = (inr a, s', t') →
    ∃ now l, (now = pe_now e ∨ now = pe_later e) ∧
      getAvailableAuths auths provider model now = inr l ∧ a ∈ l;
  pick_refused : ∀ e provider model opts auths (s : S) t,
    (∀ now, now = pe_now e ∨ now = pe_later e →
       ∃ err, getAvailableAuths auths provider model now = inl err) →
    ∃ err, Pick e provider model opts auths s t = (inl err, s, t)
}.

Section selector_lemmas.
Context {RO : RangeOrder} {X : MathExp2} {J : GoJSON}.

Lemma prefer_subset ws provider l a : a ∈ preferCodexWebsocketAuths ws provider l → a ∈ l.
Proof.
  unfold preferCodexWebsocketAuths. do 4 (case_if; [done|]).
  intros Ha%list_elem_of_In%List.filter_In. apply list_elem_of_In. tauto.
Qed.

Lemma prefer_nonempty ws provider l : l ≠ [] → preferCodexWebsocketAuths ws provider l ≠ [].
Proof.
  intros Hl. unfold preferCodexWebsocketAuths. do 3 (case_if; [done|]).
  destruct (List.filter authWebsocketsEnabled l) eqn:Ef; by case_if.
Qed.

Lemma prefer_sorted (R : Auth → Auth → Prop) ws provider l :
  StronglySorted R l → StronglySorted R (preferCodexWebsocketAuths ws provider l).
Proof.
  intros Hl. unfold preferCodexWebsocketAuths. do 4 (case_if; [done|]). clear -Hl.
  induction Hl as [|x l Hl IH Hall]; simpl; [constructor|].
  destruct (authWebsocketsEnabled x); [|done]. constructor; [done|].
  apply Forall_forall. intros y Hy%list_elem_of_In%List.filter_In.
  apply (proj1 (Forall_forall _ _) Hall). apply list_elem_of_In. tauto.
Qed.

Lemma nth_mod_elem {A} i (l : list A) a : nth_mod i l = Some a → a ∈ l.
Proof. apply list_elem_of_lookup_2. Qed.

Lemma groups_elem (l : list Auth) (groups : gmap string (list Auth)) p (g : list Auth) a :
  (∀ q h b, groups !! q = Some h → b ∈ h → b ∈ l) →
  ∀ rest : list Auth, (∀ b, b ∈ rest → b ∈ l) →
  foldl group_add groups rest !! p = Some g → a ∈ g → a ∈ l.
Proof.
  intros Hg rest. revert groups Hg. induction rest as [|x rest IH]; intros groups Hg Hr Hp Ha; simpl in *.
  - by eapply Hg.
  - eapply IH; [|intros; apply Hr; by right|exact Hp|exact Ha].
    intros q h b Hq Hb. unfold group_add in Hq.
    destruct (decide (q = virtual_parent x)) as [->|Hne].
    + rewrite lookup_insert_eq in Hq. injection Hq as <-.
      apply elem_of_app in Hb as [Hb| ->%list_elem_of_singleton]; [|apply Hr; left].
      destruct (groups !! virtual_parent x) eqn:E; [by eapply Hg|by apply elem_of_nil in Hb].
    + rewrite lookup_insert_ne in Hq by done. by eapply Hg.
Qed.

Lemma pick_grouped_elem e key limit l groups order cursors a cursors' :
  groupByVirtualParent l = (groups, order) →
  pick_grouped e key limit groups order cursors = (Some a, cursors') → a ∈ l.
Proof.
  unfold groupByVirtualParent, pick_grouped. intros Hg Hp.
  destruct (existsb _ l).
  { injection Hg as <- <-. by destruct (take_cursor _ _). }
  injection Hg as Hg _. destruct (take_cursor _ _) as [i c].
  destruct (nth_mod i order) as [p|]; [|done].
  destruct (take_cursor _ (key +:+ "::cred:" +:+ p)) as [j c']. injection Hp as Hp _.
  apply nth_mod_elem in Hp. destruct (groups !! p) as [g|] eqn:E; [|by apply elem_of_nil in Hp].
  rewrite <- Hg in E.
  eapply (groups_elem l ∅ p g a); [intros q h b Hq; by rewrite lookup_empty in Hq|done|exact E|exact Hp].
Qed.

Lemma pickWeighted_elem st l a st' : pickWeighted st l = (Some a, st') → a ∈ l.
Proof.
  unfold pickWeighted. destruct l as [|x l]; [done|].
  destruct (accumulate _ _) as [tot cur]. destruct (tot <=? 0); [done|]. intros H.
  destruct (best_from _ _ _) as [i|]; injection H as <- _; [|left].
  destruct ((x :: l) !! i) eqn:E; simpl; [by eapply list_elem_of_lookup_2|left].
Qed.

Lemma pickWeightedAvailable_elem states key l a states' :
  pickWeightedAvailable states key l = (Some a, states') → a ∈ l.
Proof.
  unfold pickWeightedAvailable. intros H. destruct l as [|x l]; [done|].
  destruct (pickWeighted _ _) as [sel st] eqn:E. injection H as -> _.
  by eapply pickWeighted_elem.
Qed.

#[export] Instance rr_ok : SelectorOK RoundRobinSelector.
Proof.
  split.
  - intros e provider model opts auths s t a s' t'. unfold Pick, rr_Pick.
    destruct (getAvailableAuths auths provider model (pe_now e)) as [|l] eqn:El; [done|].
    intros H. exists (pe_now e), l. split; [by left|]. split; [done|].
    apply (prefer_subset (pe_ws e) provider). revert H.
    set (l' := preferCodexWebsocketAuths _ _ _).
    destruct (groupByVirtualParent l') as [groups order] eqn:Eg.
    destruct (1 <? length order)%nat.
    + destruct (pick_grouped _ _ _ _ _ _) as [[b|] c] eqn:Ep; [|done].
      intros [= <- <- <-]. by eapply pick_grouped_elem.
    + destruct (pickWeightedAvailable _ _ _) as [[b|] c] eqn:Ep; [|done].
      intros [= <- <- <-]. by eapply pickWeightedAvailable_elem.
  - intros e provider model opts auths s t H. destruct (H (pe_now e)) as [err Herr]; [by left|].
    exists err. unfold Pick, rr_Pick. by rewrite Herr.
Qed.

(** The scan of fill-first: the first account below the threshold, else the first
    of the least loaded ones. *)
Lemma fill_scan_spec (load : Auth → float64) l fb r :
  (∀ b, b ∈ l → is_NaN (load b) = false) →
  match fb with Some (b, f) => f = load b ∧ is_NaN f = false | None => True end →
  fill_scan load l fb = Some r →
  (∃ l1 l2, l = l1 ++ r :: l2 ∧ f64_lt (load r) fillFirstSwitchLoad = true ∧
     ∀ b, b ∈ l1 → f64_lt (load b) fillFirstSwitchLoad = false) ∨
  ((∀ b, b ∈ l → f64_lt (load b) fillFirstSwitchLoad = false ∧ f64_lt (load b) (load r) = false) ∧
   (r ∈ l ∨ ∃ f, fb = Some (r, f)) ∧
   match fb with Some (b, f) => f64_lt f (load r) = false | None => True end).
Proof.
  revert fb. induction l as [|x l IH]; intros fb Hnan Hfb H; simpl in H.
  - right. split; [by intros b Hb%elem_of_nil|]. destruct fb as [[b f]|]; [|done].
    simpl in H. injection H as ->. destruct Hfb as [-> Hf]. split; [right; eauto|]. apply f64_lt_irrefl.
  - destruct (f64_lt (load x) fillFirstSwitchLoad) eqn:Ex.
    { injection H as ->. left. exists [], l. split; [done|]. split; [done|]. by intros b Hb%elem_of_nil. }
    assert (Hx : is_NaN (load x) = false) by (apply Hnan; left).
    assert (Hl : ∀ b, b ∈ l → is_NaN (load b) = false) by (intros; apply Hnan; by right).
    set (fb' := match fb with None => _ | Some _ => _ end) in H.
    assert (Hfb' : ∃ b, fb' = Some (b, load b) ∧ is_NaN (load b) = false ∧
      f64_lt (load x) (load b) = false ∧ (b = x ∨ fb = Some (b, load b)) ∧
      match fb with Some (c, f) => f64_lt f (load b) = false | None => True end).
    { unfold fb'. destruct fb as [[c f]|]; [|exists x; split; [done|]; split; [done|];
        split; [apply f64_lt_irrefl|]; auto].
      destruct Hfb as [-> Hf]. destruct (f64_lt (load x) (load c)) eqn:E.
      - exists x. split; [done|]. split; [done|]. split; [apply f64_lt_irrefl|]. split; [by left|].
        apply not_true_iff_false. intros Hc. pose proof (f64_lt_trans _ _ _ E Hc) as Hxx.
        by rewrite f64_lt_irrefl in Hxx.
      - exists c. split; [done|]. split; [done|]. split; [done|]. split; [by right|]. apply f64_lt_irrefl. }
    destruct Hfb' as (b & Hb & Hbn & Hxb & Hsrc & Hfb2). rewrite Hb in H.
    destruct (IH (Some (b, load b)) Hl (conj eq_refl Hbn) H)
      as [(l1 & l2 & -> & Hr & H1)|(Hall & Hin & Hbr)].
    + left. exists (x :: l1), l2. split; [done|]. split; [done|].
      intros c [->|Hc]%elem_of_cons; [done|by apply H1].
    + right. split.
      { intros c [->|Hc]%elem_of_cons; [|by apply Hall]. split; [done|].
        by apply (f64_nlt_trans (load r) (load b) (load x)). }
      split.
      * destruct Hin as [Hin|[f [= <- _]]]; [left; by right|].
        destruct Hsrc as [->|Hsrc]; [left; left|right; eauto].
      * destruct fb as [[c f]|]; [|done]. by apply (f64_nlt_trans (load r) (load b) f).
Qed.

Lemma fill_scan_elem load l fb r :
  fill_scan load l fb = Some r → r ∈ l ∨ ∃ f, fb = Some (r, f).
Proof.
  revert fb. induction l as [|x l IH]; intros fb H; simpl in H.
  - destruct fb as [[b f]|]; [|done]. injection H as ->. eauto.
  - destruct (f64_lt (load x) _); [injection H as ->; left; left|].
    apply IH in H as [H|[f H]]; [left; by right|].
    destruct fb as [[c g]|]; [destruct (f64_lt (load x) g)|]; simplify_eq; eauto;
      left; left.
Qed.

Lemma fill_scan_None load l fb : fill_scan load l fb = None → l = [] ∧ fb = None.
Proof.
  revert fb. induction l as [|x l IH]; intros fb H; simpl in H; [by destruct fb|].
  destruct (f64_lt _ _); [done|]. apply IH in H as [_ H].
  destruct fb as [[c f]|]; [by destruct (f64_lt (load x) f)|done].
Qed.

#[export] Instance ff_ok : SelectorOK FillFirstSelector.
Proof.
  split.
  - intros e provider model opts auths s t a s' t'. unfold Pick, ff_Pick.
    destruct (getAvailableAuths auths provider model (pe_now e)) as [|l] eqn:El; [done|].
    intros H. exists (pe_now e), l. split; [by left|]. split; [done|].
    apply (prefer_subset (pe_ws e) provider).
    destruct (fill_scan _ _ _) as [b|] eqn:Ef; [|done]. inversion H; subst.
    apply fill_scan_elem in Ef as [Hb|[f ?]]; [by apply elem_of_sort_by in Hb|done].
  - intros e provider model opts auths s t H. destruct (H (pe_now e)) as [err Herr]; [by left|].
    exists err. unfold Pick, ff_Pick. by rewrite Herr.
Qed.

(** The scan of least-load: the first of the lowest scores. *)
Lemma least_fold_spec (score : Auth → float64) l best :
  (∀ b, b ∈ l → is_NaN (score b) = false) →
  match best with Some (b, f) => f = score b ∧ is_NaN f = false | None => True end →
  match foldl (least_step score) best l with
  | None => best = None ∧ l = []
  | Some (r, f) =>
      f = score r ∧ is_NaN f = false ∧ (∀ b, b ∈ l → f64_lt (score b) (score r) = false) ∧
      (best = Some (r, score r) ∨
       (∃ l1 l2, l = l1 ++ r :: l2 ∧ (∀ b, b ∈ l1 → f64_lt (score r) (score b) = true) ∧
         match best with Some (b, _) => f64_lt (score r) (score b) = true | None => True end)) ∧
      match best with Some (b, _) => f64_lt (score b) (score r) = false | None => True end
  end.
Proof.
  revert best. induction l as [|x l IH]; intros best Hnan Hbest; simpl.
  - destruct best as [[b f]|]; [|done]. destruct Hbest as [-> Hf]. split; [done|]. split; [done|].
    split; [by intros c Hc%elem_of_nil|]. split; [by left|]. apply f64_lt_irrefl.
  - assert (Hx : is_NaN (score x) = false) by (apply Hnan; left).
    assert (Hl : ∀ b, b ∈ l → is_NaN (score b) = false) by (intros; apply Hnan; by right).
    assert (Hstep : ∃ b, least_step score best x = Some (b, score b) ∧ is_NaN (score b) = false ∧
      f64_lt (score x) (score b) = false ∧
      ((best = Some (b, score b)) ∨
       (b = x ∧ match best with Some (c, _) => f64_lt (score x) (score c) = true | None => True end))).
    { unfold least_step. destruct best as [[c f]|].
      - destruct Hbest as [-> Hf]. destruct (f64_lt (score x) (score c)) eqn:E.
        + exists x. repeat split; try done; [apply f64_lt_irrefl|by right].
        + exists c. repeat split; try done. by left.
      - exists x. repeat split; try done; [apply f64_lt_irrefl|by right]. }
    destruct Hstep as (b & -> & Hbn & Hxb & Hsrc).
    specialize (IH (Some (b, score b)) Hl (conj eq_refl Hbn)).
    destruct (foldl (least_step score) (Some (b, score b)) l) as [[r f]|]; [|by destruct IH].
    destruct IH as (-> & Hrn & Hall & Hwhere & Hbr). split; [done|]. split; [done|].
    split.
    { intros c [->|Hc]%elem_of_cons; [|by apply Hall].
      by apply (f64_nlt_trans (score r) (score b) (score x)). }
    assert (Hold : match best with Some (c, _) => f64_lt (score c) (score r) = false | None => True end).
    { destruct best as [[c g]|]; [|done]. destruct Hsrc as [[= <- _]|[-> Hc]]; [done|].
      apply not_true_iff_false. intros Hcr. pose proof (f64_lt_trans _ _ _ Hc Hcr) as Hxr. congruence. }
    split; [|done]. destruct Hwhere as [[= <-]|(l1 & l2 & -> & H1 & H2)].
    + destruct Hsrc as [?|[-> Hc]]; [by left|]. right. exists [], l. split; [done|]. split; [|done].
      by intros c Hc'%elem_of_nil.
    + right. exists (x :: l1), l2. split; [done|].
      assert (Hrx : f64_lt (score r) (score x) = true).
      { destruct Hsrc as [_|[-> _]]; [|done].
        destruct (f64_lt (score r) (score x)) eqn:E; [done|].
        exfalso. assert (f64_lt (score r) (score b) = false); [|congruence].
        by apply (f64_nlt_trans (score b) (score x) (score r)). }
      split.
      * intros c [->|Hc]%elem_of_cons; [done|by apply H1].
      * destruct best as [[c g]|]; [|done]. destruct Hsrc as [[= <- _]|[-> Hc]]; [done|].
        by apply (f64_lt_trans _ (score x)).
Qed.

Lemma least_fold_elem score l best r f :
  foldl (least_step score) best l = Some (r, f) → r ∈ l ∨ ∃ g, best = Some (r, g).
Proof.
  revert best. induction l as [|x l IH]; intros best H; simpl in H; [eauto|].
  apply IH in H as [H|[g H]]; [left; by right|]. unfold least_step in H.
  destruct best as [[c h]|]; [destruct (f64_lt (score x) h)|]; simplify_eq; eauto; left; left.
Qed.

#[export] Instance ll_ok : SelectorOK LeastLoadSelector.
Proof.
  split.
  - intros e provider model opts auths s t a s' t'. unfold Pick, ll_Pick.
    destruct (getAvailableAuths auths provider model (pe_now e)) as [|l] eqn:El; [done|].
    intros H. exists (pe_now e), l. split; [by left|]. split; [done|].
    apply (prefer_subset (pe_ws e) provider).
    destruct (foldl _ _ _) as [[b f]|] eqn:Ef; [|done]. inversion H; subst.
    by apply least_fold_elem in Ef as [Hb|[g ?]].
  - intros e provider model opts auths s t H. destruct (H (pe_now e)) as [err Herr]; [by left|].
    exists err. unfold Pick, ll_Pick. by rewrite Herr.
Qed.

Lemma distribution_as_ok d : SelectorOK DistributionSelectors (Sel := distribution_as d).
Proof.
  split.
  - intros e provider model opts auths s t a s' t'. unfold Pick, distribution_as.
    destruct d.
    1: destruct (Pick e provider model opts auths (ds_roundRobin s) t) as [[r x] t1] eqn:E.
    2: destruct (Pick e provider model opts auths (ds_leastLoad s) t) as [[r x] t1] eqn:E.
    3: destruct (Pick e provider model opts auths (ds_fillFirst s) t) as [[r x] t1] eqn:E.
    all: intros H; inversion H; subst.
    + exact (pick_available (S := RoundRobinSelector) _ _ _ _ _ _ _ _ _ _ E).
    + exact (pick_available (S := LeastLoadSelector) _ _ _ _ _ _ _ _ _ _ E).
    + exact (pick_available (S := FillFirstSelector) _ _ _ _ _ _ _ _ _ _ E).
  - intros e provider model opts auths s t H. unfold Pick, distribution_as.
    destruct s as [rr ff ll], d; simpl.
    1: destruct (pick_refused e provider model opts auths rr t H) as [err E].
    2: destruct (pick_refused e provider model opts auths ll t H) as [err E].
    3: destruct (pick_refused e provider model opts auths ff t H) as [err E].
    all: rewrite E; by exists err.
Qed.

#[export] Instance distribution_ok : SelectorOK DistributionSelectors.
Proof.
  split; intros e provider model opts;
    [exact (pick_available (SelectorOK := distribution_as_ok _) e provider model opts)|
     exact (pick_refused (SelectorOK := distribution_as_ok _) e provider model opts)].
Qed.

(** The order of fill-first: heavier accounts first, by ID among equals. *)
Lemma heavier_order l :
  StronglySorted (λ a b, str_lt (au_ID b) (au_ID a) = false) l →
  StronglySorted (stably heavier (λ a b, str_lt (au_ID b) (au_ID a) = false)) (sort_by heavier l).
Proof.
  intros Hl. apply sort_by_stable; [| |done]; unfold heavier.
  - intros a b c. rewrite !Z.ltb_ge. lia.
  - intros a b. rewrite Z.ltb_lt, Z.ltb_ge. lia.
Qed.

(** ** Theorems *)

(** The candidates a selector chooses from. *)
Definition candidates (e : PickEnv) (provider model : string) (auths : list (option Auth)) : list Auth :=
  match getAvailableAuths auths provider model (pe_now e) with
  | inr l => preferCodexWebsocketAuths (pe_ws e) provider l
  | inl _ => []
  end.

Lemma candidates_sorted e provider model auths :
  StronglySorted (λ a b, str_lt (au_ID b) (au_ID a) = false) (candidates e provider model auths).
Proof.
  unfold candidates. pose proof (getAvailableAuths_contract auths provider model (pe_now e)) as H.
  destruct (getAvailableAuths _ _ _ _) as [|l]; [constructor|]. apply prefer_sorted.
  by destruct H as (_ & H & _).
Qed.

(** Fill-first sends traffic to the heaviest account that still has headroom: the
    account it picks is below the switching load and every other candidate below it is
    lighter, or as heavy with a larger ID; only when no candidate has headroom does it
    fall back, and then to a least loaded one. *)
Lemma fill_first_order e provider model opts auths s t a s' t' :
  (∀ b, b ∈ candidates e provider model auths → is_NaN (loadRatio (pe_deps e) b) = false) →
  Pick e provider model opts auths (s : FillFirstSelector) t = (inr a, s', t') →
  let load := loadRatio (pe_deps e) in
  a ∈ candidates e provider model auths ∧
  if f64_lt (load a) fillFirstSwitchLoad
  then ∀ b, b ∈ candidates e provider model auths → f64_lt (load b) fillFirstSwitchLoad = true → b ≠ a →
       authSelectionWeight (Some b) < authSelectionWeight (Some a) ∨
       authSelectionWeight (Some b) = authSelectionWeight (Some a) ∧ str_lt (au_ID b) (au_ID a) = false
  else ∀ b, b ∈ candidates e provider model auths →
       f64_lt (load b) fillFirstSwitchLoad = false ∧ f64_lt (load b) (load a) = false.
Proof.
  intros Hnan. unfold Pick, ff_Pick. pose proof (candidates_sorted e provider model auths) as Hsort.
  unfold candidates in *. destruct (getAvailableAuths _ _ _ _) as [|l]; [done|].
  set (c := preferCodexWebsocketAuths _ _ _) in *. intros H.
  destruct (fill_scan _ _ _) as [r|] eqn:Ef; [|done]. inversion H; subst.
  apply heavier_order in Hsort.
  apply fill_scan_spec in Ef as [(l1 & l2 & Hl & Hr & H1)|(Hall & Hin & _)]; [| |by
    intros b Hb; rewrite elem_of_sort_by in Hb; apply Hnan|done].
  - rewrite Hl in Hsort. apply StronglySorted_split in Hsort as [_ Hafter].
    assert (Hc : ∀ b, b ∈ c ↔ b ∈ l1 ++ a :: l2) by (intros b; rewrite <- Hl; symmetry; apply elem_of_sort_by).
    split; [apply Hc, elem_of_app; right; left|]. rewrite Hr. intros b Hb Hlb Hne.
    apply Hc, elem_of_app in Hb as [Hb|[->|Hb]%elem_of_cons]; [|done|].
    + apply H1 in Hb. congruence.
    + apply Hafter in Hb as [Hb1 Hb2]. unfold not_above, heavier in *. zbool.
      destruct (Z.eq_dec (authSelectionWeight (Some b)) (authSelectionWeight (Some a))) as [Heq|];
        [right; split; [done|]|left; lia].
      apply Hb2. apply Z.ltb_ge. lia.
  - assert (Hain : a ∈ sort_by heavier c) by (destruct Hin as [?|[f ?]]; done).
    split; [by apply elem_of_sort_by in Hain|].
    rewrite (proj1 (Hall a Hain)). intros b Hb. apply Hall. by apply elem_of_sort_by.
Qed.

(** Least-load picks a candidate of least score, and of those the one with the
    smallest ID: no candidate scores lower, and every candidate before it in the ID
    order scores strictly higher. *)
Lemma least_load_minimal e provider model opts auths s t a s' t' :
  (∀ b, b ∈ candidates e provider model auths → is_NaN (least_score e t b) = false) →
  Pick e provider model opts auths (s : LeastLoadSelector) t = (inr a, s', t') →
  ∃ l1 l2, candidates e provider model auths = l1 ++ a :: l2 ∧
    (∀ b, b ∈ candidates e provider model auths → f64_lt (least_score e t b) (least_score e t a) = false) ∧
    (∀ b, b ∈ l1 → f64_lt (least_score e t a) (least_score e t b) = true ∧
                   str_lt (au_ID a) (au_ID b) = false).
Proof.
  intros Hnan. unfold Pick, ll_Pick. pose proof (candidates_sorted e provider model auths) as Hsort.
  unfold candidates in *. destruct (getAvailableAuths _ _ _ _) as [|l]; [done|].
  set (c := preferCodexWebsocketAuths _ _ _) in *. intros H.
  pose proof (least_fold_spec (least_score e t) c None Hnan I) as Hf.
  destruct (foldl _ _ _) as [[r f]|]; [|done]. inversion H; subst.
  destruct Hf as (_ & _ & Hall & [?|(l1 & l2 & Hl & H1 & _)] & _); [done|].
  exists l1, l2. split; [done|]. split; [done|]. intros b Hb. split; [by apply H1|].
  rewrite Hl in Hsort. apply StronglySorted_split in Hsort as [Hs _]. by apply Hs.
Qed.

End selector_lemmas.

(** ** Concrete runs *)

Definition constant_exp2 : MathExp2 := λ _, f64_of_int 1.

Definition plain_env : PickEnv := MkEnvP false 1000 1000 (λ _, 0) None.
Definition plain_options : Options := MkOptions ∅ "openai" "" "".

Definition light_and_heavy : list (option Auth) :=
  [Some (auth_new "a" "codex" ∅ ∅); Some (auth_new "b" "codex" {["selection_weight" := "3"]} ∅)].

Lemma fill_first_order_witness :
  auth_new "b" "codex" {["selection_weight" := "3"]} ∅ ∈
    @candidates listing_order plain_env "codex" "gpt-5" light_and_heavy.
Proof.
  refine (proj1 (@fill_first_order listing_order constant_exp2 plain_env "codex" "gpt-5"
    plain_options light_and_heavy FillFirst None _ FillFirst None _ _)).
  - intros b _. reflexivity.
  - vm_compute. reflexivity.
Defined.

Lemma least_load_minimal_witness :
  ∃ l1 l2, @candidates listing_order plain_env "codex" "gpt-5" light_and_heavy =
    l1 ++ auth_new "a" "codex" ∅ ∅ :: l2.
Proof.
  destruct (@least_load_minimal listing_order constant_exp2 plain_env "codex" "gpt-5"
    plain_options light_and_heavy LeastLoad None (auth_new "a" "codex" ∅ ∅) LeastLoad None)
    as (l1 & l2 & H & _).
  - intros b Hb. vm_compute in Hb. apply list_elem_of_In in Hb.
    destruct Hb as [<-|[<-|[]]]; reflexivity.
  - vm_compute. reflexivity.
  - exists l1, l2. exact H.
Defined.
