(* ===== verification/SessionSticky.v ===== *)
(** * Session affinity

    Models [src/sdk/cliproxy/auth/selector_session_sticky.go] (bindings of sessions to
    accounts and the selector on top of them; the key found in a request body is the
    field [op_bodyKey]) and [selector_session_sticky_shared.go] (bindings shared
    between processes).

    The selector is written against two interfaces: the [Selector] it delegates new
    conversations to, and the [AffinityStore] that shares bindings. The latter's laws
    ([AffinityStoreOK]) are the comments of the Go interface; [SharedState] shows that
    the cluster's Redis scripts satisfy them. The opaque account reference (a hash) is
    the class [AffinityRef].

    [sessions_agree]: processes that race for a session serve it from one account.
    [sticky_table_bounded], [session_pinned_at_most]: the table and the requests of one
    binding are bounded. *)
From S2P Require Import Prelude GoModel AuthTypes ModelNames Weighted Availability Limiter Aggregate ClaudeHealth Cooldown Selectors.
From Stdlib Require Import SpecFloat.

(** ** Interfaces *)

Record SessionAffinityBinding := MkAffinity {
  ab_AccountRef : string; ab_Served : Z; ab_Found : bool }.

(** [SessionAffinityStore] over a store state [W]; [None] is an error. The store
    tells the time itself; the last argument of an operation is its clock. *)
Class AffinityStore (W : Type) := {
  Lookup : string → Duration → Time → W → option SessionAffinityBinding * W;
  Bind : string → string → Duration → Time → W → option SessionAffinityBinding * W;
  Release : string → string → Time → W → W
}.

(** [AffinityAccountRef]: SHA-256 of the prefixed ID, as text. *)
Class AffinityRef := AffinityAccountRef : string → string.

(** ** State *)

Definition sessionStickyTTL : Duration := Hour.
Definition sessionStickyMaxKeys : Z := 4096.

Record sessionStickyBinding := MkBinding {
  sb_authID : string; sb_expiresAt : Time; sb_requests : Z; sb_lastUsedAt : Time }.

Record SessionStickySelector (S : Type) := MkSticky {
  ss_bindings : gmap string sessionStickyBinding; ss_inner : S; ss_maxKeys : Z }.
Arguments MkSticky {S} _ _ _.
Arguments ss_bindings {S} _.
Arguments ss_inner {S} _.
Arguments ss_maxKeys {S} _.

Definition with_bindings {S} (f : gmap string sessionStickyBinding → gmap string sessionStickyBinding)
    (s : SessionStickySelector S) : SessionStickySelector S :=
  MkSticky (f (ss_bindings s)) (ss_inner s) (ss_maxKeys s).

Definition binding_expired (b : sessionStickyBinding) (now : Time) : bool :=
  ! IsZero (sb_expiresAt b) && After now (sb_expiresAt b).

(** ** Keys *)

Definition sessionStickySelectionKey (provider : string) (opts : Options) (sessionKey0 : string)
    : string :=
  let sessionKey := TrimSpace sessionKey0 in
  if String.eqb sessionKey "" then ""
  else
    let scope := TrimSpace (metadataStringValue (op_Metadata opts) ["route_group"]) in
    let scope := if String.eqb scope ""
                 then TrimSpace (metadataStringValue (op_Metadata opts) ["allowed-channel-groups"])
                 else scope in
    let scope := if String.eqb scope "" then "default" else scope in
    tenantIDFromMetadata (op_Metadata opts) +:+ "|" +:+ ToLower (TrimSpace provider) +:+ "|" +:+
    TrimSpace (op_SourceFormat opts) +:+ "|" +:+ scope +:+ "|" +:+ sessionKey.

Definition sessionStickyKey (opts : Options) : string :=
  let key := metadataStringValue (op_Metadata opts) ["session_sticky_key"] in
  if ! String.eqb key "" then key
  else
    let key := metadataStringValue (op_Metadata opts) ["execution_session_id"] in
    if ! String.eqb key "" then "execution:" +:+ key else op_bodyKey opts.

Section sticky.
Context {RO : RangeOrder} {X : MathExp2} {J : GoJSON} {AR : AffinityRef}.
Context {S : Type} {Inner : Selector S} {W : Type} {AS : AffinityStore W}.
Implicit Types s : SessionStickySelector S.

(** ** The local table *)

(** The loop of [evictIfNeededLocked]: expired bindings are dropped as they are met,
    the least recently used of the others is remembered. *)
Definition sticky_evict_step (now : Time)
    (acc : gmap string sessionStickyBinding * string * Time)
    (e : string * sessionStickyBinding) : gmap string sessionStickyBinding * string * Time :=
  let '(bindings, oldestKey, oldestAt) := acc in
  if binding_expired e.2 now then (delete e.1 bindings, oldestKey, oldestAt)
  else if String.eqb oldestKey "" || Before (sb_lastUsedAt e.2) oldestAt
  then (bindings, e.1, sb_lastUsedAt e.2)
  else acc.

Definition sticky_limit (maxKeys : Z) : Z := if maxKeys <=? 0 then sessionStickyMaxKeys else maxKeys.

Definition evictIfNeededLocked (maxKeys : Z) (incoming : string) (now : Time)
    (bindings : gmap string sessionStickyBinding) : gmap string sessionStickyBinding :=
  let limit := sticky_limit maxKeys in
  if bool_decide (is_Some (bindings !! incoming)) || (Z.of_nat (size bindings) <? limit)
  then bindings
  else
    let '(rest, oldestKey, _) :=
      foldl (sticky_evict_step now) (bindings, "", time_zero) (range_order 22 bindings) in
    if (limit <=? Z.of_nat (size rest)) && ! String.eqb oldestKey ""
    then delete oldestKey rest else rest.

Definition bind (key authID : string) (now : Time) (s : SessionStickySelector S)
    : SessionStickySelector S :=
  if String.eqb key "" || String.eqb authID "" then s
  else with_bindings (λ b,
    <[key := MkBinding authID (time_Add now sessionStickyTTL) 1 now]>
      (evictIfNeededLocked (ss_maxKeys s) key now b)) s.

Definition deleteBinding (key : string) (s : SessionStickySelector S) : SessionStickySelector S :=
  if String.eqb key "" then s else with_bindings (delete key) s.

Definition mirrorBinding (key authID : string) (requests : Z) (now : Time)
    (s : SessionStickySelector S) : SessionStickySelector S :=
  let s := bind key authID now s in
  with_bindings (alter (λ b, MkBinding (sb_authID b) (sb_expiresAt b) requests (sb_lastUsedAt b)) key) s.

Definition findAuthByRef (auths : list Auth) (ref : string) : option Auth :=
  if String.eqb ref "" then None
  else List.find (λ a, String.eqb (AffinityAccountRef (au_ID a)) ref) auths.

(** The limit [sticky-release-at-load]. *)
Definition too_loaded (e : PickEnv) (limits : stickyLimits) (a : Auth) : bool :=
  f64_lt f64_zero (releaseAtLoad limits) && f64_ge (loadRatio (pe_deps e) a) (releaseAtLoad limits).

Definition spent (limits : stickyLimits) (requests : Z) : bool :=
  (0 <? maxRequests limits) && (maxRequests limits <=? requests).

Definition honourBinding (e : PickEnv) (key : string) (available : list Auth)
    (limits : stickyLimits) (s : SessionStickySelector S) (t : option selectionPressureTracker)
    : option Auth * SessionStickySelector S * option selectionPressureTracker :=
  if String.eqb key "" then (None, s, t)
  else
    let release := with_bindings (delete key) s in
    match ss_bindings s !! key with
    | None => (None, s, t)
    | Some binding =>
        if binding_expired binding (pe_now e) then (None, release, t)
        else if spent limits (sb_requests binding) then (None, release, t)
        else
          match List.find (λ a, String.eqb (au_ID a) (sb_authID binding)) available with
          | None => (None, release, t)
          | Some bound =>
              if too_loaded e limits bound then (None, release, t)
              else
                let binding := MkBinding (sb_authID binding) (time_Add (pe_now e) sessionStickyTTL)
                                 (sb_requests binding + 1) (pe_now e) in
                (Some bound, with_bindings <[key := binding]> s, observeSelection e bound t)
          end
    end.

(** ** The shared table *)

(** [bindShared]; [clock] is the clock of the store. *)
Definition bindShared (e : PickEnv) (clock : Time) (key : string) (picked : Auth) (available : list Auth)
    (s : SessionStickySelector S) (t : option selectionPressureTracker) (w : W)
    : Auth * SessionStickySelector S * option selectionPressureTracker * W :=
  let ref := AffinityAccountRef (au_ID picked) in
  let '(answer, w) := Bind key ref sessionStickyTTL clock w in
  match answer with
  | None => (picked, bind key (au_ID picked) (pe_now e) s, t, w)
  | Some winner =>
      if String.eqb (ab_AccountRef winner) "" || String.eqb (ab_AccountRef winner) ref
      then (picked, bind key (au_ID picked) (pe_now e) s, t, w)
      else
        match findAuthByRef available (ab_AccountRef winner) with
        | Some other =>
            (other, mirrorBinding key (au_ID other) (ab_Served winner + 1) (pe_now e) s,
             observeSelection e other t, w)
        | None => (picked, deleteBinding key s, t, w)
        end
  end.

(** [honour]; without a store [w] is [None]. *)
Definition honour (e : PickEnv) (key : string) (available : list Auth) (limits : stickyLimits)
    (s : SessionStickySelector S) (t : option selectionPressureTracker) (w : option W)
    : option Auth * SessionStickySelector S * option selectionPressureTracker * option W :=
  match w with
  | None => let '(bound, s, t) := honourBinding e key available limits s t in (bound, s, t, None)
  | Some w =>
      let '(answer, w) := Lookup key sessionStickyTTL (pe_now e) w in
      match answer with
      | None => let '(bound, s, t) := honourBinding e key available limits s t in (bound, s, t, Some w)
      | Some binding =>
          if ! ab_Found binding then
            let '(bound, s, t) := honourBinding e key available limits s t in
            match bound with
            | None => (None, s, t, Some w)
            | Some bound =>
                let '(a, s, t, w) := bindShared e (pe_now e) key bound available s t w in (Some a, s, t, Some w)
            end
          else
            match findAuthByRef available (ab_AccountRef binding) with
            | Some bound =>
                if spent limits (ab_Served binding) || too_loaded e limits bound
                then (None, deleteBinding key s, t,
                      Some (Release key (ab_AccountRef binding) (pe_now e) w))
                else (Some bound, mirrorBinding key (au_ID bound) (ab_Served binding + 1) (pe_now e) s,
                      observeSelection e bound t, Some w)
            | None =>
                (None, deleteBinding key s, t,
                 Some (Release key (ab_AccountRef binding) (pe_now e) w))
            end
      end
  end.

(** [bindSelected] *)
Definition bindSelected (e : PickEnv) (key : string) (selected : Auth) (available : list Auth)
    (s : SessionStickySelector S) (t : option selectionPressureTracker) (w : option W)
    : Auth * SessionStickySelector S * option selectionPressureTracker * option W :=
  match w with
  | None => (selected, bind key (au_ID selected) (pe_now e) s, t, None)
  | Some w => let '(a, s, t, w) := bindShared e (pe_now e) key selected available s t w in (a, s, t, Some w)
  end.

(** ** Pick *)

Definition pickFallback (e : PickEnv) (provider model : string) (opts : Options)
    (auths : list (option Auth)) (s : SessionStickySelector S) (t : option selectionPressureTracker)
    : (SelectError + Auth) * SessionStickySelector S * option selectionPressureTracker :=
  let '(r, inner, t) := Pick (delegate_env e) provider model opts auths (ss_inner s) t in
  (r, MkSticky (ss_bindings s) inner (ss_maxKeys s), t).

Definition sticky_pick (e : PickEnv) (provider model : string) (opts : Options)
    (auths : list (option Auth)) (s : SessionStickySelector S) (t : option selectionPressureTracker)
    (w : option W)
    : (SelectError + Auth) * SessionStickySelector S * option selectionPressureTracker * option W :=
  let key := sessionStickySelectionKey provider opts (sessionStickyKey opts) in
  if String.eqb key "" then
    let '(r, s, t) := pickFallback e provider model opts auths s t in (r, s, t, w)
  else
    match getAvailableAuths auths provider model (pe_now e) with
    | inl err => (inl err, s, t, w)
    | inr available =>
        let available := preferCodexWebsocketAuths (pe_ws e) provider available in
        let limits := stickyLimitsFromMetadata (op_Metadata opts) in
        let '(bound, s, t, w) := honour e key available limits s t w in
        match bound with
        | Some bound => (inr bound, s, t, w)
        | None =>
            let '(r, s, t) := pickFallback e provider model opts (Some <$> available) s t in
            match r with
            | inl err => (inl err, s, t, w)
            | inr selected =>
                if String.eqb (TrimSpace (au_ID selected)) "" then (inr selected, s, t, w)
                else
                  let '(a, s, t, w) := bindSelected e key selected available s t w in
                  (inr a, s, t, w)
            end
        end
    end.

(** The selector as the conductor sees it; the store is part of the state. *)
Definition sticky_Pick : Selector (SessionStickySelector S * option W) :=
  λ e provider model opts auths sw t,
  let '(r, s, t, w) := sticky_pick e provider model opts auths (fst sw) t (snd sw) in
  (r, (s, w), t).
#[export] Existing Instance sticky_Pick.

End sticky.

(** ** The size of the table *)

Section capacity.
Context {RO : RangeOrder}.
Implicit Types m : gmap string sessionStickyBinding.

Lemma sticky_evict_fold now l m key at_ :
  NoDup l.*1 → "" ∉ l.*1 → key ∉ l.*1 → (key ≠ "" → is_Some (m !! key)) →
  (∀ k v, (k, v) ∈ l → is_Some (m !! k)) →
  let '(m', key', _) := foldl (sticky_evict_step now) (m, key, at_) l in
  m' ⊆ m ∧ (key' ≠ "" → is_Some (m' !! key')) ∧
  (key' = "" → key = "" ∧ ∀ k v, (k, v) ∈ l → m' !! k = None) ∧
  (∀ k, k ∉ l.*1 → m' !! k = m !! k).
Proof.
  revert m key at_. induction l as [|[k v] l IH]; intros m key at_ Hnd Hne Hkey Hm Hl; simpl.
  - split; [done|]. split; [done|]. split; [|done]. intros ->. split; [done|].
    by intros k v Hk%elem_of_nil.
  - simpl in *. apply NoDup_cons in Hnd as [Hk Hnd].
    rewrite not_elem_of_cons in Hne, Hkey. destruct Hne as [Hne1 Hne], Hkey as [Hkey1 Hkey].
    destruct (binding_expired v now).
    + specialize (IH (delete k m) key at_ Hnd Hne Hkey).
      destruct (foldl _ _ l) as [[m' key'] at'].
      destruct IH as (H1 & H2 & H3 & H4).
      * intros Hn. rewrite lookup_delete_ne by done. auto.
      * intros k' v' Hk'. rewrite lookup_delete_ne; [by apply (Hl k' v'); right|].
        intros <-. apply Hk. apply list_elem_of_fmap. by exists (k, v').
      * split; [etrans; [exact H1|apply delete_subseteq]|]. split; [done|].
        split; [|intros k' [Hk1 Hk2]%not_elem_of_cons; rewrite H4 by done; by apply lookup_delete_ne].
        intros Hz. destruct (H3 Hz) as [? Hall]. split; [done|].
        intros k' v' [[= -> ->]|Hk']%elem_of_cons; [|by eapply Hall].
        rewrite H4 by done. apply lookup_delete_eq.
    + assert (Hstep : ∃ key2 at2,
        (if String.eqb key "" || Before (sb_lastUsedAt v) at_ then (m, k, sb_lastUsedAt v)
         else (m, key, at_)) = (m, key2, at2) ∧ (key2 = k ∨ key2 = key ∧ key ≠ "")).
      { destruct (String.eqb_spec key ""); simpl; [by repeat econstructor|].
        destruct (Before _ _); [by repeat econstructor|]. exists key, at_. split; [done|]. by right. }
      destruct Hstep as (key2 & at2 & -> & Hk2).
      assert (Hsome : is_Some (m !! k)) by (apply (Hl k v); left).
      assert (key2 ≠ "") by (destruct Hk2 as [->|[-> ?]]; done).
      specialize (IH m key2 at2 Hnd Hne).
      destruct (foldl _ _ l) as [[m' key'] at'].
      destruct IH as (H1 & H2 & H3 & H4).
      * destruct Hk2 as [->|[-> ?]]; done.
      * intros _. destruct Hk2 as [->|[-> ?]]; auto.
      * intros k' v' Hk'. apply (Hl k' v'). by right.
      * split; [done|]. split; [done|].
        split; [intros Hz; by destruct (H3 Hz)|].
        intros k' [??]%not_elem_of_cons. by apply H4.
Qed.

Lemma no_empty_key m : m !! "" = None → "" ∉ (range_order 22 m).*1.
Proof.
  intros Hm ([k v] & E & Hk)%list_elem_of_fmap. simpl in E. subst k.
  apply elem_of_range in Hk. congruence.
Qed.

Lemma evict_makes_room maxKeys incoming now m :
  m !! "" = None → Z.of_nat (size m) ≤ sticky_limit maxKeys →
  let m' := evictIfNeededLocked maxKeys incoming now m in
  m' ⊆ m ∧ (is_Some (m' !! incoming) ∨ Z.of_nat (size m') < sticky_limit maxKeys).
Proof.
  intros Hm0 Hsize. unfold evictIfNeededLocked.
  destruct (bool_decide _ || _)%bool eqn:E.
  { split; [done|]. apply orb_true_iff in E as [E|E]; [left|right].
    - by apply bool_decide_eq_true in E.
    - by apply Z.ltb_lt. }
  pose proof (sticky_evict_fold now (range_order 22 m) m "" time_zero (NoDup_range_keys 22 m)) as H.
  destruct (foldl _ _ _) as [[rest oldest] at_].
  destruct H as (Hsub & Hold & Hnone & _).
  { by apply no_empty_key. }
  { by apply no_empty_key. }
  { done. }
  { intros k v Hk%elem_of_range. by exists v. }
  assert (Hpos : 0 < sticky_limit maxKeys).
  { unfold sticky_limit, sessionStickyMaxKeys. destruct (Z.leb_spec maxKeys 0); lia. }
  pose proof (map_subseteq_size _ _ Hsub) as Hrest.
  destruct (Z.leb_spec (sticky_limit maxKeys) (Z.of_nat (size rest))); simpl; [|split; [done|by right]].
  destruct (String.eqb_spec oldest "") as [->|Hne]; simpl.
  - exfalso. destruct (Hnone eq_refl) as [_ Hall].
    assert (rest = ∅) as ->; [|rewrite map_size_empty in *; lia].
    apply map_eq. intros k. rewrite lookup_empty. destruct (rest !! k) as [v|] eqn:Ek; [|done].
    assert (m !! k = Some v) as Hk by (by eapply lookup_weaken).
    rewrite (Hall k v) in Ek; [done|]. by apply elem_of_range.
  - destruct (Hold Hne) as [v Hv]. split; [etrans; [apply delete_subseteq|done]|].
    right. rewrite map_size_delete_Some by eauto.
    assert (size rest ≠ 0%nat); [|lia]. intros Hz. apply map_size_empty_iff in Hz as ->. done.
Qed.

(** The table of a selector within its bound. *)
Definition table_ok {S} (s : SessionStickySelector S) : Prop :=
  ss_bindings s !! "" = None ∧ Z.of_nat (size (ss_bindings s)) ≤ sticky_limit (ss_maxKeys s).

Lemma bind_ok {S} key id now (s : SessionStickySelector S) : table_ok s → table_ok (bind key id now s).
Proof.
  intros [H0 Hs]. unfold bind. destruct (String.eqb_spec key ""); [done|]. simpl.
  destruct (String.eqb id ""); [done|]. unfold table_ok, with_bindings. simpl.
  destruct (evict_makes_room (ss_maxKeys s) key now _ H0 Hs) as [Hsub Hroom].
  set (m := evictIfNeededLocked _ _ _ _) in *. split.
  - rewrite lookup_insert_ne by done. by eapply lookup_weaken_None.
  - pose proof (map_subseteq_size _ _ Hsub). destruct Hroom as [Hin|Hlt].
    + rewrite map_size_insert_Some by done. lia.
    + destruct (m !! key) eqn:E; [rewrite map_size_insert_Some by eauto|rewrite map_size_insert_None by done]; lia.
Qed.

Lemma delete_ok {S} key (s : SessionStickySelector S) :
  table_ok s → table_ok (with_bindings (delete key) s).
Proof.
  intros [H0 Hs]. split; simpl.
  - destruct (decide (key = "")) as [->|]; [apply lookup_delete_eq|by rewrite lookup_delete_ne].
  - pose proof (map_subseteq_size _ _ (delete_subseteq (ss_bindings s) key)). lia.
Qed.

Lemma deleteBinding_ok {S} key (s : SessionStickySelector S) : table_ok s → table_ok (deleteBinding key s).
Proof. intros H. unfold deleteBinding. destruct (String.eqb key ""); [done|by apply delete_ok]. Qed.

Lemma mirror_ok {S} key id n now (s : SessionStickySelector S) :
  table_ok s → table_ok (mirrorBinding key id n now s).
Proof.
  intros H. apply (bind_ok key id now) in H as [H0 Hs]. unfold mirrorBinding, table_ok. simpl.
  set (m := ss_bindings (bind key id now s)) in *. split.
  - by rewrite lookup_alter_None.
  - assert (∀ f, dom (alter f key m) = dom m) as Hd by (intros; apply dom_alter_L).
    rewrite <- size_dom, Hd, size_dom. exact Hs.
Qed.

End capacity.

(** ** One call *)

Section sticky_lemmas.
Context {RO : RangeOrder} {X : MathExp2} {J : GoJSON} {AR : AffinityRef}.
Context {S : Type} {Inner : Selector S} {W : Type} {AS : AffinityStore W}.
Implicit Types s : SessionStickySelector S.

Lemma findAuthByRef_elem l ref a : findAuthByRef l ref = Some a → a ∈ l ∧ AffinityAccountRef (au_ID a) = ref.
Proof.
  unfold findAuthByRef. destruct (String.eqb ref ""); [done|]. intros H.
  apply List.find_some in H as [Hin Heq]. split; [by apply list_elem_of_In|by apply String.eqb_eq].
Qed.

(** What a call of [honourBinding] does: it releases the binding, or honours it and
    counts the request. *)
Lemma honourBinding_cases e key l limits s t :
  let '(r, s', t') := honourBinding e key l limits s t in
  match r with
  | None => (s' = s ∧ (key = "" ∨ ss_bindings s !! key = None) ∨ s' = with_bindings (delete key) s) ∧ t' = t
  | Some a => key ≠ "" ∧ a ∈ l ∧ ∃ b, ss_bindings s !! key = Some b ∧ au_ID a = sb_authID b ∧
      binding_expired b (pe_now e) = false ∧ spent limits (sb_requests b) = false ∧
      too_loaded e limits a = false ∧
      s' = with_bindings <[key := MkBinding (sb_authID b) (time_Add (pe_now e) sessionStickyTTL)
                                    (sb_requests b + 1) (pe_now e)]> s
  end.
Proof.
  unfold honourBinding. destruct (String.eqb_spec key ""); [by auto|].
  destruct (ss_bindings s !! key) as [b|] eqn:Eb; [|by auto].
  destruct (binding_expired b _) eqn:E1; [by auto|].
  destruct (spent limits _) eqn:E2; [by auto|].
  destruct (List.find _ l) as [a|] eqn:E3; [|by auto].
  destruct (too_loaded e limits a) eqn:E4; [by auto|].
  apply List.find_some in E3 as [Hin Heq%String.eqb_eq].
  split; [done|]. split; [by apply list_elem_of_In|]. by exists b.
Qed.

Lemma honourBinding_ok e key l limits s t :
  table_ok s → table_ok (honourBinding e key l limits s t).1.2.
Proof.
  intros H. pose proof (honourBinding_cases e key l limits s t) as Hc.
  destruct (honourBinding _ _ _ _ _ _) as [[[a|] s'] t']; simpl.
  - destruct Hc as (Hk & _ & b & Hb & _ & _ & _ & _ & ->). destruct H as [H0 Hs]. split; simpl.
    + by rewrite lookup_insert_ne.
    + by rewrite map_size_insert_Some by eauto.
  - destruct Hc as [[[-> _]| ->] _]; [done|by apply delete_ok].
Qed.

Lemma bindShared_spec e clock key picked l s t w :
  let '(a, s', t', w') := bindShared e clock key picked l s t w in
  (a = picked ∨ a ∈ l) ∧ (table_ok s → table_ok s').
Proof.
  unfold bindShared. destruct (Bind _ _ _ _ _) as [[win|] w']; [|split; [by left|apply bind_ok]].
  destruct (_ || _)%bool; [split; [by left|apply bind_ok]|].
  destruct (findAuthByRef l _) as [o|] eqn:Eo.
  - split; [right; by apply findAuthByRef_elem in Eo as [? _]|apply mirror_ok].
  - split; [by left|apply deleteBinding_ok].
Qed.

Lemma honour_spec e key l limits s t w :
  let '(r, s', t', w') := honour e key l limits s t w in
  (∀ a, r = Some a → a ∈ l) ∧ (table_ok s → table_ok s').
Proof.
  unfold honour. pose proof (honourBinding_cases e key l limits s t) as Hc.
  pose proof (honourBinding_ok e key l limits s t) as Hok.
  destruct (honourBinding e key l limits s t) as [[r s1] t1]. simpl in Hok.
  assert (Hr : ∀ a, r = Some a → a ∈ l) by (intros a ->; by destruct Hc as (_ & ? & _)).
  destruct w as [w|]; [|done].
  destruct (Lookup _ _ _ _) as [[b|] w']; [|done].
  destruct (ab_Found b); simpl.
  - destruct (findAuthByRef l _) as [o|] eqn:Eo; [|split; [done|apply deleteBinding_ok]].
    destruct (_ || _)%bool; [split; [done|apply deleteBinding_ok]|].
    split; [intros a [= <-]; by apply findAuthByRef_elem in Eo as [? _]|apply mirror_ok].
  - destruct r as [a|]; [|done].
    pose proof (bindShared_spec e (pe_now e) key a l s1 t1 w') as Hb.
    destruct (bindShared _ _ _ _ _ _ _ _) as [[[a' s2] t2] w2]. destruct Hb as [Ha Hs2].
    split; [|auto]. intros a0 [= <-]. destruct Ha as [->|?]; auto.
Qed.

Lemma bindSelected_spec e key a0 l s t w :
  let '(a, s', t', w') := bindSelected e key a0 l s t w in
  (a = a0 ∨ a ∈ l) ∧ (table_ok s → table_ok s').
Proof.
  unfold bindSelected. destruct w as [w|]; [|split; [by left|apply bind_ok]].
  pose proof (bindShared_spec e (pe_now e) key a0 l s t w) as H. by destruct (bindShared _ _ _ _ _ _ _ _) as [[[??]?]?].
Qed.

Lemma pickFallback_bindings e provider model opts auths s t :
  let '(r, s', t') := pickFallback e provider model opts auths s t in
  ss_bindings s' = ss_bindings s ∧ ss_maxKeys s' = ss_maxKeys s ∧
  Pick (delegate_env e) provider model opts auths (ss_inner s) t = (r, ss_inner s', t').
Proof. unfold pickFallback. by destruct (Pick _ _ _ _ _ _ _) as [[r i] t'] eqn:E. Qed.

Context {IOK : SelectorOK S}.

(** The session-sticky selector keeps the promise of the selector it delegates to. *)
#[export] Instance sticky_ok : SelectorOK (SessionStickySelector S * option W).
Proof.
  split.
  - intros e provider model opts auths [s w] t a [s' w'] t'. unfold Pick at 1, sticky_Pick, sticky_pick.
    simpl. destruct (String.eqb _ "").
    { pose proof (pickFallback_bindings e provider model opts auths s t) as Hf.
      destruct (pickFallback _ _ _ _ _ _ _) as [[r s1] t1]. destruct Hf as (_ & _ & Hf).
      intros H. inversion H; subst.
      apply (pick_available (S := S)) in Hf as (now & l & Hnow & Hl). exists now, l.
      split; [|done]. right. by destruct Hnow. }
    destruct (getAvailableAuths auths provider model (pe_now e)) as [|l] eqn:El; [done|]. intros H.
    exists (pe_now e), l. split; [by left|]. split; [done|].
    apply (prefer_subset (pe_ws e) provider). revert H. set (c := preferCodexWebsocketAuths _ _ _).
    pose proof (honour_spec e (sessionStickySelectionKey provider opts (sessionStickyKey opts)) c
      (stickyLimitsFromMetadata (op_Metadata opts)) s t w) as Hh.
    destruct (honour _ _ _ _ _ _ _) as [[[[b|] s1] t1] w1].
    { intros H. inversion H; subst. by apply Hh. }
    pose proof (pickFallback_bindings e provider model opts (Some <$> c) s1 t1) as Hf.
    destruct (pickFallback _ _ _ _ _ _ _) as [[[err|sel] s2] t2]; [done|].
    destruct Hf as (_ & _ & Hf). apply (pick_available (S := S)) in Hf as (now & l2 & _ & Hl2 & Hsel).
    pose proof (getAvailableAuths_elem _ _ _ _ _ _ Hl2 Hsel) as Hin.
    apply list_elem_of_fmap in Hin as (b & [= <-] & Hb).
    destruct (String.eqb _ ""); [intros H; by inversion H; subst|].
    pose proof (bindSelected_spec e (sessionStickySelectionKey provider opts (sessionStickyKey opts))
      sel c s2 t2 w1) as Hbs.
    destruct (bindSelected _ _ _ _ _ _ _) as [[[a3 s3] t3] w3].
    intros H. inversion H; subst. by destruct Hbs as [[->|?] _].
  - intros e provider model opts auths [s w] t H. unfold Pick at 1, sticky_Pick, sticky_pick. simpl.
    destruct (String.eqb _ "").
    + destruct (pick_refused (delegate_env e) provider model opts auths (ss_inner s) t) as [err Herr].
      { intros now Hnow. apply H. right. by destruct Hnow. }
      unfold pickFallback. rewrite Herr. exists err. by destruct s.
    + destruct (H (pe_now e)) as [err Herr]; [by left|]. rewrite Herr. by exists err.
Qed.

Lemma sticky_pick_table e provider model opts auths s t w :
  table_ok s → table_ok (sticky_pick e provider model opts auths s t w).1.1.2.
Proof.
  intros Hok. unfold sticky_pick. destruct (String.eqb _ "").
  { pose proof (pickFallback_bindings e provider model opts auths s t) as Hf.
    destruct (pickFallback _ _ _ _ _ _ _) as [[r s1] t1]. destruct Hf as (H1 & H2 & _).
    unfold table_ok in *. simpl. by rewrite H1, H2. }
  destruct (getAvailableAuths auths provider model (pe_now e)) as [|l]; [done|].
  set (c := preferCodexWebsocketAuths _ _ _).
  pose proof (honour_spec e (sessionStickySelectionKey provider opts (sessionStickyKey opts)) c
    (stickyLimitsFromMetadata (op_Metadata opts)) s t w) as Hh.
  destruct (honour _ _ _ _ _ _ _) as [[[[b|] s1] t1] w1]; destruct Hh as [_ Hh]; specialize (Hh Hok); [done|].
  pose proof (pickFallback_bindings e provider model opts (Some <$> c) s1 t1) as Hf.
  destruct (pickFallback _ _ _ _ _ _ _) as [[r s2] t2]. destruct Hf as (H1 & H2 & _).
  assert (Hok2 : table_ok s2) by (unfold table_ok in *; by rewrite H1, H2).
  destruct r as [err|sel]; [done|]. destruct (String.eqb _ ""); [done|].
  pose proof (bindSelected_spec e (sessionStickySelectionKey provider opts (sessionStickyKey opts))
    sel c s2 t2 w1) as Hbs.
  destruct (bindSelected _ _ _ _ _ _ _) as [[[a3 s3] t3] w3]. destruct Hbs as [_ Hbs]. auto.
Qed.

(** No operation changes the configured size. *)
Lemma bind_maxKeys key id now s : ss_maxKeys (bind key id now s) = ss_maxKeys s.
Proof. unfold bind. by destruct (_ || _)%bool. Qed.

Lemma deleteBinding_maxKeys key s : ss_maxKeys (deleteBinding key s) = ss_maxKeys s.
Proof. unfold deleteBinding. by destruct (String.eqb key ""). Qed.

Lemma bindShared_maxKeys e clock key a l s t w : ss_maxKeys (bindShared e clock key a l s t w).1.1.2 = ss_maxKeys s.
Proof.
  unfold bindShared. destruct (Bind _ _ _ _ _) as [[win|] w']; [|apply bind_maxKeys].
  destruct (_ || _)%bool; [apply bind_maxKeys|].
  destruct (findAuthByRef _ _); [apply bind_maxKeys|apply deleteBinding_maxKeys].
Qed.

Lemma honour_maxKeys e key l limits s t w : ss_maxKeys (honour e key l limits s t w).1.1.2 = ss_maxKeys s.
Proof.
  unfold honour. pose proof (honourBinding_cases e key l limits s t) as Hc.
  destruct (honourBinding e key l limits s t) as [[r s1] t1].
  assert (H1 : ss_maxKeys s1 = ss_maxKeys s).
  { destruct r; [destruct Hc as (_ & _ & ? & _ & _ & _ & _ & _ & ->); done|].
    by destruct Hc as [[[-> _]| ->] _]. }
  destruct w as [w|]; [|done]. destruct (Lookup _ _ _ _) as [[b|] w']; [|done].
  destruct (ab_Found b); simpl.
  - destruct (findAuthByRef _ _); [|apply deleteBinding_maxKeys].
    destruct (_ || _)%bool; [apply deleteBinding_maxKeys|apply bind_maxKeys].
  - destruct r as [a|]; [|done]. pose proof (bindShared_maxKeys e (pe_now e) key a l s1 t1 w') as H.
    destruct (bindShared _ _ _ _ _ _ _ _) as [[[a' s2] t2] w2]. simpl in *. congruence.
Qed.

Lemma sticky_pick_maxKeys e provider model opts auths s t w :
  ss_maxKeys (sticky_pick e provider model opts auths s t w).1.1.2 = ss_maxKeys s.
Proof.
  unfold sticky_pick. destruct (String.eqb _ "").
  { pose proof (pickFallback_bindings e provider model opts auths s t) as Hf.
    destruct (pickFallback _ _ _ _ _ _ _) as [[r s1] t1]. by destruct Hf as (_ & H2 & _). }
  destruct (getAvailableAuths auths provider model (pe_now e)) as [|l]; [done|].
  set (c := preferCodexWebsocketAuths _ _ _).
  pose proof (honour_maxKeys e (sessionStickySelectionKey provider opts (sessionStickyKey opts)) c
    (stickyLimitsFromMetadata (op_Metadata opts)) s t w) as Hh.
  destruct (honour _ _ _ _ _ _ _) as [[[[b|] s1] t1] w1]; simpl in *; [done|].
  pose proof (pickFallback_bindings e provider model opts (Some <$> c) s1 t1) as Hf.
  destruct (pickFallback _ _ _ _ _ _ _) as [[r s2] t2]. destruct Hf as (_ & H2 & _).
  destruct r as [err|sel]; simpl; [congruence|]. destruct (String.eqb _ ""); simpl; [congruence|].
  unfold bindSelected. destruct w1 as [w1|]; simpl; [|rewrite bind_maxKeys; congruence].
  pose proof (bindShared_maxKeys e (pe_now e) (sessionStickySelectionKey provider opts (sessionStickyKey opts))
    sel c s2 t2 w1) as Hbs.
  destruct (bindShared _ _ _ _ _ _ _ _) as [[[a3 s3] t3] w3]. simpl in *. congruence.
Qed.

End sticky_lemmas.

(** ** Shared bindings

    The laws of a reachable store: [bound_to w key u] is the account reference the
    binding of [key] names at time [u]. Every operation that reads or makes a binding
    keeps it for its TTL, less two milliseconds: a store that counts in milliseconds
    rounds the clock and the TTL. *)
Class AffinityStoreOK (W : Type) {AS : AffinityStore W} := {
  bound_to : W → string → Time → option string;
  lookup_ok : ∀ key ttl now w b w', 0 ≤ ttl → Lookup key ttl now w = (Some b, w') →
    if ab_Found b
    then bound_to w key now = Some (ab_AccountRef b) ∧
         ∀ u, now ≤ u → u + 2 * Millisecond ≤ now + ttl → bound_to w' key u = Some (ab_AccountRef b)
    else bound_to w key now = None ∧ ∀ u, now ≤ u → bound_to w' key u = None;
  bind_store_ok : ∀ key ref ttl now w b w', 0 ≤ ttl → Bind key ref ttl now w = (Some b, w') →
    ab_AccountRef b = default ref (bound_to w key now) ∧
    ∀ u, now ≤ u → u + 2 * Millisecond ≤ now + ttl → bound_to w' key u = Some (ab_AccountRef b)
}.

Section shared_lemmas.
Context {RO : RangeOrder} {X : MathExp2} {J : GoJSON} {AR : AffinityRef}.
Context {S : Type} {Inner : Selector S} {W : Type} {AS : AffinityStore W} {OK : AffinityStoreOK W}.
Implicit Types s : SessionStickySelector S.

Lemma sessionStickyTTL_nonneg : 0 ≤ sessionStickyTTL.
Proof. done. Qed.

(** A store that answers at a time: its operations do not fail. *)
Definition answers (w : W) (key : string) (now : Time) : Prop :=
  ∃ b w', Lookup key sessionStickyTTL now w = (Some b, w') ∧
    ∀ ref, ∃ b' w'', Bind key ref sessionStickyTTL now w' = (Some b', w'').

(** Binding a session nobody has bound. *)
Lemma bindShared_fresh e key picked l s t w b w' :
  bound_to w key (pe_now e) = None →
  Bind key (AffinityAccountRef (au_ID picked)) sessionStickyTTL (pe_now e) w = (Some b, w') →
  ∃ s' t', bindShared e (pe_now e) key picked l s t w = (picked, s', t', w') ∧
    ∀ u, pe_now e ≤ u → u + 2 * Millisecond ≤ pe_now e + sessionStickyTTL →
      bound_to w' key u = Some (AffinityAccountRef (au_ID picked)).
Proof.
  intros Hn Hb. destruct (bind_store_ok _ _ _ _ _ _ _ sessionStickyTTL_nonneg Hb) as [Href Hw]. rewrite Hn in Href. simpl in Href.
  unfold bindShared. rewrite Hb, Href, String.eqb_refl, orb_true_r.
  eexists _, _. split; [done|]. by rewrite Href in Hw.
Qed.

(** A session that is bound in the store goes to the bound account. *)
Lemma honour_bound e key l limits s t w b w' a :
  Lookup key sessionStickyTTL (pe_now e) w = (Some b, w') →
  bound_to w key (pe_now e) = Some (AffinityAccountRef (au_ID a)) →
  AffinityAccountRef (au_ID a) ≠ "" →
  a ∈ l → (∀ c, c ∈ l → AffinityAccountRef (au_ID c) = AffinityAccountRef (au_ID a) → c = a) →
  maxRequests limits ≤ 0 → f64_lt f64_zero (releaseAtLoad limits) = false →
  ∃ s' t', honour e key l limits s t (Some w) = (Some a, s', t', Some w').
Proof.
  intros Hl Hb Hne Ha Huniq Hmax Hload. pose proof (lookup_ok _ _ _ _ _ _ sessionStickyTTL_nonneg Hl) as H.
  unfold honour. rewrite Hl. destruct (ab_Found b); simpl; [|destruct H; congruence].
  destruct H as [H _]. assert (Href : ab_AccountRef b = AffinityAccountRef (au_ID a)) by congruence.
  assert (Hfind : findAuthByRef l (ab_AccountRef b) = Some a).
  { unfold findAuthByRef. rewrite Href, (proj2 (String.eqb_neq _ _) Hne).
    destruct (List.find _ l) as [c|] eqn:Ef.
    - apply List.find_some in Ef as [Hc Heq%String.eqb_eq]. f_equal. apply Huniq; [|done].
      by apply list_elem_of_In.
    - exfalso. apply list_elem_of_In in Ha. pose proof (List.find_none _ _ Ef a Ha) as Hf. simpl in Hf.
      by rewrite String.eqb_refl in Hf. }
  rewrite Hfind. unfold spent, too_loaded. rewrite Hload, (proj2 (Z.ltb_ge _ _) Hmax). simpl. eauto.
Qed.

End shared_lemmas.

(** ** Theorems *)

Section sticky_theorems.
Context {RO : RangeOrder} {X : MathExp2} {J : GoJSON} {AR : AffinityRef}.
Context {S : Type} {Inner : Selector S} {W : Type} {AS : AffinityStore W}.
Implicit Types s : SessionStickySelector S.

(** A request as the selector sees it. *)
Record StickyCall := MkCall {
  ca_env : PickEnv; ca_provider : string; ca_model : string; ca_opts : Options;
  ca_auths : list (option Auth) }.

Definition call_key (c : StickyCall) : string :=
  sessionStickySelectionKey (ca_provider c) (ca_opts c) (sessionStickyKey (ca_opts c)).

Definition call_limits (c : StickyCall) : stickyLimits :=
  stickyLimitsFromMetadata (op_Metadata (ca_opts c)).

Definition sticky_call (c : StickyCall) (s : SessionStickySelector S)
    (t : option selectionPressureTracker) (w : option W) :=
  sticky_pick (ca_env c) (ca_provider c) (ca_model c) (ca_opts c) (ca_auths c) s t w.

Fixpoint sticky_run (calls : list StickyCall) (s : SessionStickySelector S)
    (t : option selectionPressureTracker) (w : option W) : SessionStickySelector S :=
  match calls with
  | [] => s
  | c :: calls => let '(_, s, t, w) := sticky_call c s t w in sticky_run calls s t w
  end.

(** The table of bindings is bounded: starting within its bound, no sequence of
    requests, with a shared store or without, takes it past the configured number of
    keys. *)
Lemma sticky_table_bounded calls s t w :
  table_ok s → Z.of_nat (size (ss_bindings (sticky_run calls s t w))) ≤ sticky_limit (ss_maxKeys s).
Proof.
  assert (Hkeys : ∀ c s t w, ss_maxKeys (sticky_call c s t w).1.1.2 = ss_maxKeys s).
  { intros c s0 t0 w0. unfold sticky_call. apply sticky_pick_maxKeys. }
  intros Hok. revert s t w Hok. induction calls as [|c calls IH]; intros s t w Hok; simpl; [apply Hok|].
  pose proof (sticky_pick_table (ca_env c) (ca_provider c) (ca_model c) (ca_opts c) (ca_auths c) s t w Hok).
  specialize (Hkeys c s t w). unfold sticky_call in *.
  destruct (sticky_pick _ _ _ _ _ _ _ _) as [[[r s1] t1] w1]. simpl in *. rewrite <- Hkeys. by apply IH.
Qed.

(** The requests that a sequence of calls serves from the binding of [key]. *)
Fixpoint honoured (key : string) (limits : stickyLimits) (calls : list (PickEnv * list Auth))
    (s : SessionStickySelector S) (t : option selectionPressureTracker) : Z :=
  match calls with
  | [] => 0
  | (e, l) :: calls =>
      let '(r, s, t) := honourBinding e key l limits s t in
      (if r then 1 else 0) + honoured key limits calls s t
  end.

Lemma honoured_bound key limits calls s t :
  0 < maxRequests limits →
  honoured key limits calls s t ≤
    match ss_bindings s !! key with Some b => Z.max 0 (maxRequests limits - sb_requests b) | None => 0 end.
Proof.
  intros HN. revert s t. induction calls as [|[e l] calls IH]; intros s t; simpl.
  { destruct (ss_bindings s !! key); lia. }
  pose proof (honourBinding_cases e key l limits s t) as Hc.
  destruct (honourBinding e key l limits s t) as [[[a|] s1] t1]; specialize (IH s1 t1).
  - destruct Hc as (_ & _ & b & Hb & _ & _ & Hsp & _ & ->). simpl in IH.
    rewrite lookup_insert_eq in IH. simpl in IH. rewrite Hb. unfold spent in Hsp.
    rewrite (proj2 (Z.ltb_lt _ _) HN) in Hsp. simpl in Hsp. zbool. lia.
  - destruct Hc as [[[-> _]| ->] _].
    + destruct (ss_bindings s !! key); lia.
    + simpl in IH. rewrite lookup_delete_eq in IH. destruct (ss_bindings s !! key); lia.
Qed.

(** One conversation pins one account for at most [sticky_max_requests] requests:
    after a binding is made, whatever calls follow, at whatever times and with
    whatever candidates, at most [maxRequests - 1] of them are served from it, so that
    with the request that made it the limit is never exceeded. *)
Lemma session_pinned_at_most key id now limits calls s t :
  0 < maxRequests limits → key ≠ "" → id ≠ "" →
  honoured key limits calls (bind key id now s) t ≤ maxRequests limits - 1.
Proof.
  intros HN Hk Hid. etrans; [by apply honoured_bound|]. unfold bind.
  rewrite (proj2 (String.eqb_neq _ _) Hk), (proj2 (String.eqb_neq _ _) Hid). simpl.
  rewrite lookup_insert_eq. simpl. lia.
Qed.

Context {OK : AffinityStoreOK W}.

(** The first request of a session leaves its account in the store. *)
Lemma first_pick_binds c1 s1 t1 w a s1' t1' w' u :
  call_key c1 ≠ "" → bound_to w (call_key c1) (pe_now (ca_env c1)) = None →
  answers w (call_key c1) (pe_now (ca_env c1)) →
  sticky_call c1 s1 t1 (Some w) = (inr a, s1', t1', Some w') → TrimSpace (au_ID a) ≠ "" →
  pe_now (ca_env c1) ≤ u → u + 2 * Millisecond ≤ pe_now (ca_env c1) + sessionStickyTTL →
  bound_to w' (call_key c1) u = Some (AffinityAccountRef (au_ID a)).
Proof.
  intros Hk Hfree Hans H Hid Hu Hu'. unfold sticky_call, sticky_pick in H.
  fold (call_key c1) in H. fold (call_limits c1) in H.
  rewrite (proj2 (String.eqb_neq _ _) Hk) in H.
  destruct (getAvailableAuths _ _ _ _) as [|l]; [done|].
  set (c := preferCodexWebsocketAuths _ _ _) in *.
  destruct Hans as (b & w1 & Hl & Hb).
  pose proof (lookup_ok _ _ _ _ _ _ sessionStickyTTL_nonneg Hl) as Hlk. unfold honour in H. rewrite Hl in H.
  destruct (ab_Found b); simpl in H, Hlk; [destruct Hlk; congruence|].
  assert (Hfree1 : bound_to w1 (call_key c1) (pe_now (ca_env c1)) = None) by (apply Hlk; lia).
  destruct (honourBinding _ _ _ _ _ _) as [[[bound|] s2] t2].
  - destruct (Hb (AffinityAccountRef (au_ID bound))) as (b' & w2 & Hb').
    destruct (bindShared_fresh (ca_env c1) (call_key c1) bound c s2 t2 w1 b' w2 Hfree1 Hb')
      as (s3 & t3 & E & Hw). rewrite E in H. inversion H; subst. by apply Hw.
  - destruct (pickFallback _ _ _ _ _ _ _) as [[[err|sel] s3] t3]; [done|].
    destruct (String.eqb_spec (TrimSpace (au_ID sel)) ""); [inversion H; subst; done|].
    destruct (Hb (AffinityAccountRef (au_ID sel))) as (b' & w2 & Hb').
    destruct (bindShared_fresh (ca_env c1) (call_key c1) sel c s3 t3 w1 b' w2 Hfree1 Hb')
      as (s4 & t4 & E & Hw). simpl in H. rewrite E in H. inversion H; subst. by apply Hw.
Qed.

(** When one process has answered the first request of a session, a later request of the session within
    the hour, on whatever process and whatever that process's own table says, goes to the same account,
    as long as the account is a candidate there and no release limit is configured. *)
Lemma bound_session_followed c1 c2 s1 t1 w a s1' t1' w' s2 t2 :
  call_key c1 = call_key c2 → call_key c1 ≠ "" →
  bound_to w (call_key c1) (pe_now (ca_env c1)) = None →
  answers w (call_key c1) (pe_now (ca_env c1)) →
  sticky_call c1 s1 t1 (Some w) = (inr a, s1', t1', Some w') →
  TrimSpace (au_ID a) ≠ "" →
  pe_now (ca_env c1) ≤ pe_now (ca_env c2) →
  pe_now (ca_env c2) + 2 * Millisecond ≤ pe_now (ca_env c1) + sessionStickyTTL →
  answers w' (call_key c2) (pe_now (ca_env c2)) →
  AffinityAccountRef (au_ID a) ≠ "" →
  a ∈ candidates (ca_env c2) (ca_provider c2) (ca_model c2) (ca_auths c2) →
  (∀ c, c ∈ candidates (ca_env c2) (ca_provider c2) (ca_model c2) (ca_auths c2) →
     AffinityAccountRef (au_ID c) = AffinityAccountRef (au_ID a) → c = a) →
  maxRequests (call_limits c2) ≤ 0 → f64_lt f64_zero (releaseAtLoad (call_limits c2)) = false →
  (sticky_call c2 s2 t2 (Some w')).1.1.1 = inr a.
Proof.
  intros Hkk Hk Hfree Hans H1 Hid Htime Htime' Hans' Hne Ha Huniq Hmax Hload.
  assert (Hbound : bound_to w' (call_key c2) (pe_now (ca_env c2)) = Some (AffinityAccountRef (au_ID a))).
  { rewrite <- Hkk. by apply (first_pick_binds c1 s1 t1 w a s1' t1' w'). }
  unfold sticky_call, sticky_pick. fold (call_key c2). fold (call_limits c2).
  rewrite <- Hkk, (proj2 (String.eqb_neq _ _) Hk). unfold candidates in *.
  destruct (getAvailableAuths _ _ _ (pe_now (ca_env c2))) as [|l]; [by apply elem_of_nil in Ha|].
  rewrite <- Hkk in Hans', Hbound.
  destruct Hans' as (b & w2 & Hl & _).
  destruct (honour_bound (ca_env c2) (call_key c1) (preferCodexWebsocketAuths (pe_ws (ca_env c2)) (ca_provider c2) l)
    (call_limits c2) s2 t2 w' b w2 a Hl Hbound Hne Ha Huniq Hmax Hload) as (s3 & t3 & ->). done.
Qed.

(** ** Processes that race for a session

    Between the [Lookup] and the [Bind] of a request no lock is held, and other processes use the store.
    [sticky_begin] is a request up to its [Bind]: the answer, or the pick that is to be bound and the
    candidates. *)
Definition honour_begin (e : PickEnv) (key : string) (available : list Auth) (limits : stickyLimits)
    (s : SessionStickySelector S) (t : option selectionPressureTracker) (w : W)
    : option (Auth * bool) * SessionStickySelector S * option selectionPressureTracker * W :=
  let '(answer, w) := Lookup key sessionStickyTTL (pe_now e) w in
  match answer with
  | None => let '(bound, s, t) := honourBinding e key available limits s t in ((λ b, (b, false)) <$> bound, s, t, w)
  | Some binding =>
      if ! ab_Found binding then
        let '(bound, s, t) := honourBinding e key available limits s t in ((λ b, (b, true)) <$> bound, s, t, w)
      else
        match findAuthByRef available (ab_AccountRef binding) with
        | Some bound =>
            if spent limits (ab_Served binding) || too_loaded e limits bound
            then (None, deleteBinding key s, t, Release key (ab_AccountRef binding) (pe_now e) w)
            else (Some (bound, false), mirrorBinding key (au_ID bound) (ab_Served binding + 1) (pe_now e) s,
                  observeSelection e bound t, w)
        | None => (None, deleteBinding key s, t, Release key (ab_AccountRef binding) (pe_now e) w)
        end
  end.

Definition sticky_begin (c : StickyCall) (s : SessionStickySelector S) (t : option selectionPressureTracker) (w : W)
    : ((SelectError + Auth) + Auth * list Auth) * SessionStickySelector S * option selectionPressureTracker * W :=
  let e := ca_env c in
  match getAvailableAuths (ca_auths c) (ca_provider c) (ca_model c) (pe_now e) with
  | inl err => (inl (inl err), s, t, w)
  | inr available =>
      let available := preferCodexWebsocketAuths (pe_ws e) (ca_provider c) available in
      let '(bound, s, t, w) := honour_begin e (call_key c) available (call_limits c) s t w in
      match bound with
      | Some (bound, false) => (inl (inr bound), s, t, w)
      | Some (bound, true) => (inr (bound, available), s, t, w)
      | None =>
          let '(r, s, t) := pickFallback e (ca_provider c) (ca_model c) (ca_opts c) (Some <$> available) s t in
          match r with
          | inl err => (inl (inl err), s, t, w)
          | inr selected =>
              if String.eqb (TrimSpace (au_ID selected)) "" then (inl (inr selected), s, t, w)
              else (inr (selected, available), s, t, w)
          end
      end
  end.

(** A request is its beginning and, if that leaves a pick to bind, the [bindShared] of the pick. *)
Lemma sticky_pick_split c s t w : call_key c ≠ "" →
  sticky_call c s t (Some w) =
    let '(r, s, t, w) := sticky_begin c s t w in
    match r with
    | inl r => (r, s, t, Some w)
    | inr (picked, available) =>
        let '(a, s, t, w) := bindShared (ca_env c) (pe_now (ca_env c)) (call_key c) picked available s t w in (inr a, s, t, Some w)
    end.
Proof.
  intros Hk. unfold sticky_call, sticky_pick, sticky_begin. fold (call_key c). fold (call_limits c).
  rewrite (proj2 (String.eqb_neq _ _) Hk). destruct (getAvailableAuths _ _ _ _) as [|l]; [done|].
  set (avail := preferCodexWebsocketAuths _ _ l). unfold honour, honour_begin.
  assert (Hfall : ∀ (r : SelectError + Auth) s t w, (match r with
      | inl err => (inl err, s, t, Some w)
      | inr selected => if String.eqb (TrimSpace (au_ID selected)) "" then (inr selected, s, t, Some w)
          else let '(a, s, t, w) := bindSelected (ca_env c) (call_key c) selected avail s t (Some w) in (inr a, s, t, w)
      end) =
      let '(r, s, t, w) := match r with
        | inl err => (inl (inl err), s, t, w)
        | inr selected => if String.eqb (TrimSpace (au_ID selected)) "" then (inl (inr selected), s, t, w) else (inr (selected, avail), s, t, w)
        end : ((SelectError + Auth) + Auth * list Auth) * _ * _ * W in
      match r with
      | inl r => (r, s, t, Some w)
      | inr (picked, available) =>
          let '(a, s, t, w) := bindShared (ca_env c) (pe_now (ca_env c)) (call_key c) picked available s t w in (inr a, s, t, Some w)
      end).
  { intros [err|sel] s1 t1 w0; [done|]. destruct (String.eqb _ ""); [done|].
    cbn [bindSelected]. by destruct (bindShared _ _ _ _ _ _ _ _) as [[[a s2] t2] w2]. }
  destruct (Lookup _ _ _ _) as [[b|] w1].
  - destruct (ab_Found b); cbn [negb].
    + destruct (findAuthByRef _ _) as [bound|]; [destruct (_ || _); [|done]|];
        destruct (pickFallback _ _ _ _ _ _ _) as [[r s1] t1]; apply Hfall.
    + destruct (honourBinding _ _ _ _ _ _) as [[[bound|] s1] t1]; cbn [fmap option_fmap option_map].
      * by destruct (bindShared _ _ _ _ _ _ _ _) as [[[a s2] t2] w2].
      * destruct (pickFallback _ _ _ _ _ _ _) as [[r s2] t2]; apply Hfall.
  - destruct (honourBinding _ _ _ _ _ _) as [[[bound|] s1] t1]; [done|]. cbn [fmap option_fmap option_map].
    destruct (pickFallback _ _ _ _ _ _ _) as [[r s2] t2]; apply Hfall.
Qed.

(** A request of the session [key] where the accounts [ids] are candidates and no release limit is set. *)
Record session_call (key : string) (ids : list string) (c : StickyCall) : Prop := {
  sc_key : call_key c = key;
  sc_pool : ∀ id, id ∈ ids ↔ ∃ a, a ∈ candidates (ca_env c) (ca_provider c) (ca_model c) (ca_auths c) ∧ au_ID a = id;
  sc_requests : maxRequests (call_limits c) ≤ 0;
  sc_load : f64_lt f64_zero (releaseAtLoad (call_limits c)) = false
}.

(** The store, the instant of its last operation, the picks that wait to be bound, and the answers. *)
Record race := MkRace {
  ra_store : W; ra_clock : Time; ra_pending : list (StickyCall * Auth * list Auth); ra_answers : list (SelectError + Auth) }.

(** The next operation of the store comes before a binding lapses. *)
Definition in_time (clock now : Time) : Prop := clock ≤ now ∧ now + 2 * Millisecond ≤ clock + sessionStickyTTL.

(** Any process, with any table of its own, begins a request or binds the pick of one it has begun. *)
Inductive race_step (key : string) (ids : list string) : race → race → Prop :=
| race_begin g c s t x s' t' w' : session_call key ids c → in_time (ra_clock g) (pe_now (ca_env c)) →
    (Lookup key sessionStickyTTL (pe_now (ca_env c)) (ra_store g)).1 ≠ None →
    sticky_begin c s t (ra_store g) = (x, s', t', w') →
    race_step key ids g (MkRace w' (pe_now (ca_env c))
      (match x with inl _ => ra_pending g | inr (picked, l) => (c, picked, l) :: ra_pending g end)
      (match x with inl r => r :: ra_answers g | inr _ => ra_answers g end))
| race_bind g before c picked l after now s t a s' t' w' :
    ra_pending g = before ++ (c, picked, l) :: after → in_time (ra_clock g) now →
    (Bind key (AffinityAccountRef (au_ID picked)) sessionStickyTTL now (ra_store g)).1 ≠ None →
    bindShared (ca_env c) now key picked l s t (ra_store g) = (a, s', t', w') →
    race_step key ids g (MkRace w' now (before ++ after) (inr a :: ra_answers g)).

(** A pick that waits is one of the accounts, and so are the candidates it comes with. *)
Definition pending_ok (ids : list string) (p : StickyCall * Auth * list Auth) : Prop :=
  au_ID p.1.2 ∈ ids ∧ ∀ id, id ∈ ids ↔ ∃ a, a ∈ p.2 ∧ au_ID a = id.

(** Nobody is bound and nobody answered, or all answers are the account that the store names. *)
Definition bound_everywhere (key id : string) (g : race) : Prop :=
  (∀ u, in_time (ra_clock g) u → bound_to (ra_store g) key u = Some (AffinityAccountRef id)) ∧
  ∀ a, inr a ∈ ra_answers g → au_ID a = id.
Definition agreed (key : string) (ids : list string) (g : race) : Prop :=
  Forall (pending_ok ids) (ra_pending g) ∧
  ((∀ u, ra_clock g ≤ u → bound_to (ra_store g) key u = None) ∧ (∀ a, inr a ∉ ra_answers g) ∨
   ∃ id, id ∈ ids ∧ bound_everywhere key id g).

(** References tell the accounts apart, and no account has a blank name. *)
Definition names_ok (ids : list string) : Prop :=
  (∀ id id', id ∈ ids → id' ∈ ids → AffinityAccountRef id = AffinityAccountRef id' → id = id') ∧
  ∀ id, id ∈ ids → AffinityAccountRef id ≠ "" ∧ TrimSpace id ≠ "".

Section races.
Context {IOK : SelectorOK S} (key : string) (ids : list string) (Hkey : key ≠ "") (Hnames : names_ok ids).

Lemma fallback_in e provider model opts l s t a s' t' :
  pickFallback e provider model opts (Some <$> l) s t = (inr a, s', t') → a ∈ l.
Proof.
  intros H. pose proof (pickFallback_bindings e provider model opts (Some <$> l) s t) as Hf. rewrite H in Hf.
  destruct Hf as (_ & _ & Hf). apply (pick_available (S := S)) in Hf as (now & l2 & _ & Hl2 & Hsel).
  pose proof (getAvailableAuths_elem _ _ _ _ _ _ Hl2 Hsel) as Hin. by apply list_elem_of_fmap in Hin as (b & [= <-] & Hb).
Qed.

(** A session nobody has bound: a request that begins leaves a pick to bind, or fails. *)
Lemma begin_unbound c s t w x s' t' w' : session_call key ids c →
  (Lookup key sessionStickyTTL (pe_now (ca_env c)) w).1 ≠ None → sticky_begin c s t w = (x, s', t', w') →
  (∀ u, pe_now (ca_env c) ≤ u → bound_to w key u = None) →
  (∀ u, pe_now (ca_env c) ≤ u → bound_to w' key u = None) ∧
  match x with inl (inr _) => False | inl (inl _) => True | inr (picked, l) => pending_ok ids (c, picked, l) end.
Proof.
  intros [Hk Hpool _ _] Hans H Hfree. unfold sticky_begin, candidates in *.
  destruct (getAvailableAuths _ _ _ _) as [err|l] eqn:El.
  { by inversion H; subst. }
  set (avail := preferCodexWebsocketAuths _ _ l) in *. unfold honour_begin in H. rewrite Hk in H.
  destruct (Lookup _ _ _ _) as [[b|] w1] eqn:El1; [|done].
  pose proof (lookup_ok _ _ _ _ _ _ sessionStickyTTL_nonneg El1) as Hlk.
  destruct (ab_Found b); cbn [negb] in H; [destruct Hlk as [Hlk _]; rewrite Hfree in Hlk; [done|lia]|]. destruct Hlk as [_ Hlk].
  assert (Hin : ∀ a, a ∈ avail → pending_ok ids (c, a, avail)).
  { intros a Ha. split; [|exact Hpool]. apply Hpool. by exists a. }
  pose proof (honourBinding_cases (ca_env c) key avail (call_limits c) s t) as Hc.
  destruct (honourBinding _ _ _ _ _ _) as [[[bound|] s1] t1]; cbn [fmap option_fmap option_map] in H.
  - inversion H; subst. split; [done|]. by apply Hin, Hc.
  - destruct (pickFallback _ _ _ _ _ _ _) as [[[err|sel] s2] t2] eqn:Ef; [by inversion H; subst|].
    apply fallback_in in Ef. destruct (Hin sel Ef) as [Hid _]. apply (proj2 Hnames) in Hid as [_ Hid]. cbn [fst snd] in Hid.
    rewrite (proj2 (String.eqb_neq _ _) Hid) in H. inversion H; subst. split; [done|by apply Hin].
Qed.

(** The accounts of a pool by their references. *)
Lemma find_named l id : id ∈ ids → (∀ i, i ∈ ids ↔ ∃ a, a ∈ l ∧ au_ID a = i) →
  ∃ a, findAuthByRef l (AffinityAccountRef id) = Some a ∧ au_ID a = id.
Proof.
  intros Hid Hpool. destruct (proj1 (Hpool id) Hid) as (b & Hb & Eb).
  destruct (proj2 Hnames id Hid) as [Hne _]. destruct (findAuthByRef l (AffinityAccountRef id)) as [a|] eqn:E.
  - exists a. split; [done|]. apply findAuthByRef_elem in E as [Ha Er]. apply (proj1 Hnames); [apply Hpool; by exists a|done..].
  - exfalso. unfold findAuthByRef in E. rewrite (proj2 (String.eqb_neq _ _) Hne) in E.
    apply list_elem_of_In in Hb. pose proof (List.find_none _ _ E b Hb) as Hf. cbn in Hf. by rewrite Eb, String.eqb_refl in Hf.
Qed.

(** A session that is bound: the request that begins is answered by the bound account. *)
Lemma begin_bound c s t w x s' t' w' id : session_call key ids c → id ∈ ids →
  (Lookup key sessionStickyTTL (pe_now (ca_env c)) w).1 ≠ None → sticky_begin c s t w = (x, s', t', w') →
  bound_to w key (pe_now (ca_env c)) = Some (AffinityAccountRef id) →
  (∀ u, in_time (pe_now (ca_env c)) u → bound_to w' key u = Some (AffinityAccountRef id)) ∧
  ∃ a, x = inl (inr a) ∧ au_ID a = id.
Proof.
  intros [Hk Hpool Hreq Hload] Hid Hans H Hb. unfold sticky_begin, candidates in *.
  destruct (getAvailableAuths _ _ _ _) as [err|l].
  { destruct (proj1 (Hpool id) Hid) as (a & Ha & _). by apply elem_of_nil in Ha. }
  set (avail := preferCodexWebsocketAuths _ _ l) in *. unfold honour_begin in H. rewrite Hk in H.
  destruct (Lookup _ _ _ _) as [[b|] w1] eqn:El1; [|done].
  pose proof (lookup_ok _ _ _ _ _ _ sessionStickyTTL_nonneg El1) as Hlk.
  destruct (ab_Found b); cbn [negb] in H; [|destruct Hlk; congruence]. destruct Hlk as [Href Hlk].
  assert (Eref : ab_AccountRef b = AffinityAccountRef id) by congruence. rewrite Eref in H, Hlk.
  destruct (find_named avail id Hid Hpool) as (a & Ea & Eid). rewrite Ea in H.
  unfold spent, too_loaded in H. rewrite Hload, (proj2 (Z.ltb_ge _ _) Hreq) in H. cbn [andb orb] in H.
  inversion H; subst. split; [by intros u [? ?]; apply Hlk|by exists a].
Qed.

(** Binding a pick: it wins where nobody is bound, and yields to the account that is. *)
Lemma bind_pending c picked l clock s t w a s' t' w' : pending_ok ids (c, picked, l) →
  (Bind key (AffinityAccountRef (au_ID picked)) sessionStickyTTL clock w).1 ≠ None →
  bindShared (ca_env c) clock key picked l s t w = (a, s', t', w') →
  bound_to w key clock = None ∨ (∃ id, id ∈ ids ∧ bound_to w key clock = Some (AffinityAccountRef id)) →
  (∀ u, in_time clock u → bound_to w' key u = Some (AffinityAccountRef (au_ID a))) ∧ au_ID a ∈ ids ∧
  ∀ id, id ∈ ids → bound_to w key clock = Some (AffinityAccountRef id) → au_ID a = id.
Proof.
  intros [Hp Hpool] Hans H Hb. unfold bindShared in H. destruct (Bind _ _ _ _ _) as [[b|] w1] eqn:Eb; [|done].
  destruct (bind_store_ok _ _ _ _ _ _ _ sessionStickyTTL_nonneg Eb) as [Href Hw].
  assert (Hin : ∀ u, in_time clock u → bound_to w1 key u = Some (ab_AccountRef b)) by (intros u [? ?]; by apply Hw).
  cbn [fst snd] in *. destruct Hb as [Hb|(id & Hid & Hb)]; rewrite Hb in *; cbn in Href.
  - rewrite Href, String.eqb_refl, orb_true_r in H. rewrite Href in Hin. inversion H; subst. split; [done|]. by split.
  - rewrite Href in Hin, H. destruct (proj2 Hnames id Hid) as [Hne _]. rewrite (proj2 (String.eqb_neq _ _) Hne) in H. cbn [orb] in H.
    destruct (String.eqb_spec (AffinityAccountRef id) (AffinityAccountRef (au_ID picked))) as [E|E].
    + apply (proj1 Hnames) in E; [|done..]. inversion H; subst. split; [done|]. split; [done|].
      intros id' Hid' [= E]. by apply (proj1 Hnames).
    + destruct (find_named l id Hid Hpool) as (o & Eo & Eid). rewrite Eo in H. inversion H; subst. split; [done|]. split; [done|].
      intros id' Hid' [= E']. by apply (proj1 Hnames).
Qed.

Lemma agreed_step g g' : race_step key ids g g' → agreed key ids g → agreed key ids g'.
Proof.
  intros Hs [Hpend Hphase]. destruct Hs as [g c s t x s' t' w' Hc Htime Hans H|g before c picked l after now s t a s' t' w' Hp Htime Hans H].
  - destruct Hphase as [[Hfree Hno]|(id & Hid & Hb & Ha)].
    + destruct (begin_unbound c s t (ra_store g) x s' t' w' Hc Hans H) as [Hfree' Hx]; [intros u Hu; apply Hfree; destruct Htime; lia|].
      destruct x as [[err|a]|[picked l]]; [|done|]; (split; cbn [ra_pending ra_answers ra_store ra_clock]; [|left; split; [done|]]).
      * done.
      * intros a [[=]|Hin]%elem_of_cons. by apply (Hno a).
      * by constructor.
      * done.
    + destruct (begin_bound c s t (ra_store g) x s' t' w' id Hc Hid Hans H) as [Hb' (a & -> & Ea)]; [by apply Hb|].
      split; [done|]. right. exists id. split; [done|]. split; cbn [ra_pending ra_answers ra_store ra_clock]; [done|].
      intros a' [[= ->]|Hin]%elem_of_cons; [done|by apply Ha].
  - rewrite Hp in Hpend. apply Forall_app in Hpend as [Hbef Hpend]. apply Forall_cons in Hpend as [Hpk Haft].
    pose proof (bind_pending c picked l now s t (ra_store g) a s' t' w' Hpk Hans H) as Hbind.
    split; [by apply Forall_app|right]. destruct Hphase as [[Hfree Hno]|(id & Hid & Hb & Ha)].
    + destruct Hbind as (Hb' & Hin & _); [left; apply Hfree, Htime|]. exists (au_ID a). split; [done|]. split; [done|].
      cbn [ra_answers]. intros a' [[= ->]|Hin']%elem_of_cons; [done|by destruct (Hno a')].
    + destruct Hbind as (Hb' & Hin & Hsame); [right; exists id; split; [done|by apply Hb]|].
      rewrite <- (Hsame id Hid (Hb now Htime)) in *. exists (au_ID a). split; [done|]. split; [done|].
      cbn [ra_answers]. intros a' [[= ->]|Hin']%elem_of_cons; [done|by apply Ha].
Qed.
End races.

(** C31: in a cluster every process serves a conversation from the same account, also where processes
    race for it. Let any number of processes, whatever their own tables say, serve requests of one
    session nobody has bound, their [Lookup]s and [Bind]s in any order, each within the hour of the one
    before; let the store answer, the same accounts be candidates everywhere and no release limit be
    configured. Then all requests that are answered go to one account: the first [Bind] decides, and
    those that picked another account in the meantime join it. *)
Theorem sessions_agree key ids w clock g a a' : SelectorOK S → key ≠ "" → names_ok ids →
  (∀ u, clock ≤ u → bound_to w key u = None) →
  rtc (race_step key ids) (MkRace w clock [] []) g → inr a ∈ ra_answers g → inr a' ∈ ra_answers g →
  au_ID a = au_ID a'.
Proof.
  intros IOK Hkey Hnames Hfree Hrun Ha Ha'. assert (agreed key ids g) as [_ Hphase].
  { assert (agreed key ids (MkRace w clock [] [])) as H0.
    { split; [constructor|]. left. split; [done|]. intros x Hx. by apply elem_of_nil in Hx. }
    clear Ha Ha'. revert H0. induction Hrun as [|x y z Hstep _ IH]; [done|]. intros H0. apply IH.
    by eapply agreed_step. }
  destruct Hphase as [[_ Hno]|(id & _ & _ & Hall)]; [by destruct (Hno a)|]. by rewrite (Hall a Ha), (Hall a' Ha').
Qed.

End sticky_theorems.

(** ** Concrete runs *)

(** A store that is always out of reach. *)
#[export] Instance unreachable : AffinityStore unit := {|
  Lookup := λ _ _ _ w, (None, w); Bind := λ _ _ _ _ w, (None, w); Release := λ _ _ _ w, w |}.

Definition plain_ref : AffinityRef := λ id, "ref:" +:+ id.

#[local] Existing Instances listing_order constant_exp2 plain_ref.

Definition sticky_options : Options :=
  MkOptions {["session_sticky_key" := AString "conversation"]} "openai" "" "".

Definition sticky_empty : SessionStickySelector FillFirstSelector := MkSticky ∅ FillFirst 1.

Definition sticky_request : StickyCall :=
  MkCall plain_env "codex" "gpt-5" sticky_options light_and_heavy.

Lemma sticky_table_bounded_witness :
  Z.of_nat (size (ss_bindings (sticky_run (W:=unit)
    [sticky_request; sticky_request] sticky_empty None None))) ≤ 1.
Proof.
  refine (sticky_table_bounded (W:=unit) [sticky_request; sticky_request] sticky_empty None None _).
  split; vm_compute; [reflexivity|discriminate].
Defined.

Lemma session_pinned_at_most_witness :
  honoured "k" (MkLimits 2 f64_zero) (replicate 3 (plain_env, omap id light_and_heavy))
    (bind "k" "a" 1000 sticky_empty) None ≤ 1.
Proof.
  refine (session_pinned_at_most "k" "a" 1000 (MkLimits 2 f64_zero)
    (replicate 3 (plain_env, omap id light_and_heavy)) sticky_empty None _ _ _);
    [reflexivity|discriminate|discriminate].
Defined.
