(* ===== verification/ModelAlias.v ===== *)
(** * Model aliases

    Models [src/sdk/cliproxy/auth/oauth_model_alias.go] (aliases per OAuth channel),
    [conductor_api_key_alias.go] (aliases of configured API keys), the alias table of
    [conductor_runtime_config.go] and the credential part of the configuration snapshot
    of [conductor_runtime_snapshot.go]. The theorems show that an alias resolves to the
    upstream name with the thinking suffix of the request, and that the precompiled
    table answers as the scan of the configuration does. *)
From S2P Require Import Prelude GoModel AuthTypes ModelNames GroupModels Availability Aggregate ClaudeHealth Cooldown Selectors.
From Stdlib Require Import Ascii.

(** ** Configuration *)

Record runtimeModelAliasEntry := MkAliasEntry { ma_Name : string; ma_Alias : string }.

Record runtimeAPIKeyModelConfig := MkKeyConfig {
  ak_APIKey : string; ak_BaseURL : string; ak_Models : list runtimeModelAliasEntry }.

Record runtimeBedrockKeyConfig := MkBedrockConfig {
  bk_AuthMode : string; bk_APIKey : string; bk_AccessKeyID : string; bk_BaseURL : string;
  bk_Region : string; bk_Models : list runtimeModelAliasEntry }.

Record runtimeOpenAICompatibilityConfig := MkCompatConfig {
  oc_Name : string; oc_Models : list runtimeModelAliasEntry }.

(** The credential part of [runtimeConfigSnapshot]. *)
Record runtimeKeyConfig := MkKeys {
  kc_GeminiKey : list runtimeAPIKeyModelConfig; kc_ClaudeKey : list runtimeAPIKeyModelConfig;
  kc_CodexKey : list runtimeAPIKeyModelConfig; kc_ClineKey : list runtimeAPIKeyModelConfig;
  kc_OllamaCloudKey : list runtimeAPIKeyModelConfig; kc_CommandCodeKey : list runtimeAPIKeyModelConfig;
  kc_BedrockKey : list runtimeBedrockKeyConfig; kc_VertexCompatAPIKey : list runtimeAPIKeyModelConfig;
  kc_OpenAICompatibility : list runtimeOpenAICompatibilityConfig }.

(** ** Suffixes *)

(** What every resolution does with the upstream name: a suffix of the configuration
    wins, else the suffix of the request is kept. *)
Definition preserveSuffix (request : modelSuffixResult) (resolved0 : string) : string :=
  let resolved := TrimSpace resolved0 in
  if String.eqb resolved "" then ""
  else if HasSuf (parseModelSuffix resolved) then resolved
  else if (HasSuf request && ! String.eqb (RawSuffix request) "") then with_suffix resolved (RawSuffix request)
  else resolved.

(** The base name of the request, and the request itself when it has a suffix. *)
Definition alias_candidates (requestedModel : string) : list string :=
  let base := ModelName (parseModelSuffix requestedModel) in
  if String.eqb base requestedModel then [base] else [base; requestedModel].

(** ** OAuth channels *)

(** One entry of a channel against the reverse table. *)
Definition alias_step (rev : gmap string string) (entry : runtimeModelAliasEntry) : gmap string string :=
  let name := TrimSpace (ma_Name entry) in
  let alias := TrimSpace (ma_Alias entry) in
  if (String.eqb name "" || String.eqb alias "") then rev
  else if EqualFold name alias then rev
  else match rev !! ToLower alias with
       | Some _ => rev
       | None => <[ToLower alias := name]> rev
       end.

Definition compile_channel (entries : list runtimeModelAliasEntry) : gmap string string :=
  foldl alias_step ∅ entries.

Section oauth.
Context {RO : RangeOrder}.

(** [oauthModelAliasTable.reverse] *)
Definition compileOAuthModelAliasTable (aliases : gmap string (list runtimeModelAliasEntry))
    : gmap string (gmap string string) :=
  foldl (λ out entry,
    let channel := ToLower (TrimSpace entry.1) in
    if (String.eqb channel "" || bool_decide (entry.2 = [])) then out
    else
      let rev := compile_channel entry.2 in
      if bool_decide (rev = ∅) then out else <[channel := rev]> out)
    ∅ (range_order 45 aliases).

End oauth.

Definition OAuthModelAliasChannel (provider0 authKind0 : string) : string :=
  let provider := ToLower (TrimSpace provider0) in
  let authKind := ToLower (TrimSpace authKind0) in
  if existsb (String.eqb provider) ["vertex"; "claude"; "codex"] then
    if String.eqb authKind "apikey" then "" else provider
  else if existsb (String.eqb provider) ["gemini-cli"; "aistudio"; "antigravity"; "qwen"; "xai"; "iflow"; "kimi"]
  then provider else "".

Definition modelAliasChannel (a : Auth) : string :=
  let provider := ToLower (TrimSpace (au_Provider a)) in
  let authKind := ToLower (TrimSpace (attr (au_Attributes a) "auth_kind")) in
  let authKind := if String.eqb authKind "" then
                    (if EqualFold (AccountInfo a).1 "api_key" then "apikey" else "") else authKind in
  OAuthModelAliasChannel provider authKind.

(** The loop over the candidates of a request, on the table of one channel. *)
Fixpoint lookup_candidates (rev : gmap string string) (request : modelSuffixResult)
    (candidates : list string) : string :=
  match candidates with
  | [] => ""
  | candidate :: rest =>
      let key := ToLower (TrimSpace candidate) in
      if String.eqb key "" then lookup_candidates rev request rest
      else
        let original := TrimSpace (attr rev key) in
        if String.eqb original "" then lookup_candidates rev request rest
        else if EqualFold original (ModelName request) then ""
        else if HasSuf (parseModelSuffix original) then original
        else if (HasSuf request && ! String.eqb (RawSuffix request) "")
             then with_suffix original (RawSuffix request)
        else original
  end.

Abbreviation AliasTables := (gmap string (gmap string (gmap string string))) (only parsing).

Definition resolveUpstreamModelFromAliasTable (tables : AliasTables) (a : Auth)
    (requestedModel channel : string) : string :=
  if String.eqb channel "" then ""
  else
    match tables !! normalizedTenantID (au_TenantID a) with
    | None => ""
    | Some reverse =>
        match reverse !! channel with
        | None => ""
        | Some rev => lookup_candidates rev (parseModelSuffix requestedModel) (alias_candidates requestedModel)
        end
    end.

Definition resolveOAuthUpstreamModel (tables : AliasTables) (a : Auth) (requestedModel : string) : string :=
  resolveUpstreamModelFromAliasTable tables a requestedModel (modelAliasChannel a).

(** The two built-in aliases, of one provider each. *)
Definition builtin_alias (provider model upstream : string) (a : Auth) (requestedModel0 : string) : string :=
  if ! EqualFold (TrimSpace (au_Provider a)) provider then ""
  else
    let requestedModel := TrimSpace requestedModel0 in
    if String.eqb requestedModel "" then ""
    else
      let parsed := parseModelSuffix requestedModel in
      if ! EqualFold (TrimSpace (ModelName parsed)) model then ""
      else if (HasSuf parsed && ! String.eqb (RawSuffix parsed) "") then with_suffix upstream (RawSuffix parsed)
      else upstream.

Definition resolveBuiltInCodexModelAlias : Auth → string → string :=
  builtin_alias "codex" "codex-auto-review" "gpt-5.5".
Definition resolveBuiltInXAIModelAlias : Auth → string → string :=
  builtin_alias "xai" "grok-build" "grok-build-0.1".

(** The first answer that is not empty. *)
Definition or_else (x y : string) : string := if ! String.eqb x "" then x else y.

Definition applyOAuthModelAlias (tables : AliasTables) (a : Auth) (requestedModel : string) : string :=
  let upstreamModel := resolveOAuthUpstreamModel tables a requestedModel in
  if String.eqb upstreamModel "" then
    if ! String.eqb (modelAliasChannel a) "" then
      or_else (resolveBuiltInCodexModelAlias a requestedModel)
        (or_else (resolveBuiltInXAIModelAlias a requestedModel) requestedModel)
    else requestedModel
  else upstreamModel.

(** ** API keys *)

(** The first candidate that an entry names, by alias or by name. *)
Fixpoint entry_match (request : modelSuffixResult) (name alias : string) (candidates : list string)
    : option string :=
  match candidates with
  | [] => None
  | candidate :: rest =>
      if String.eqb candidate "" then entry_match request name alias rest
      else if (! String.eqb alias "" && EqualFold alias candidate) then
        Some (preserveSuffix request (if ! String.eqb name "" then name else candidate))
      else if (! String.eqb name "" && EqualFold name candidate) then Some (preserveSuffix request name)
      else entry_match request name alias rest
  end.

Fixpoint scan_models (request : modelSuffixResult) (candidates : list string)
    (models : list runtimeModelAliasEntry) : string :=
  match models with
  | [] => ""
  | entry :: rest =>
      match entry_match request (TrimSpace (ma_Name entry)) (TrimSpace (ma_Alias entry)) candidates with
      | Some resolved => resolved
      | None => scan_models request candidates rest
      end
  end.

Definition resolveModelAliasFromConfigModels (requestedModel0 : string) (models : list runtimeModelAliasEntry)
    : string :=
  let requestedModel := TrimSpace requestedModel0 in
  if String.eqb requestedModel "" then ""
  else scan_models (parseModelSuffix requestedModel) (alias_candidates requestedModel) models.

(** The first loop of [resolveAPIKeyConfig]: key and base URL, as far as given. *)
Definition key_entry_matches (attrKey attrBase : string) (entry : runtimeAPIKeyModelConfig) : bool :=
  let cfgKey := TrimSpace (ak_APIKey entry) in
  let cfgBase := TrimSpace (ak_BaseURL entry) in
  if (! String.eqb attrKey "" && ! String.eqb attrBase "") then EqualFold cfgKey attrKey && EqualFold cfgBase attrBase
  else if (! String.eqb attrKey "" && EqualFold cfgKey attrKey && (String.eqb cfgBase "" || EqualFold cfgBase attrBase))
  then true
  else (String.eqb attrKey "" && ! String.eqb attrBase "" && EqualFold cfgBase attrBase).

Definition resolveAPIKeyConfig (entries : list runtimeAPIKeyModelConfig) (a : Auth) : option runtimeAPIKeyModelConfig :=
  let attrKey := TrimSpace (attr (au_Attributes a) "api_key") in
  let attrBase := TrimSpace (attr (au_Attributes a) "base_url") in
  match find (key_entry_matches attrKey attrBase) entries with
  | Some entry => Some entry
  | None =>
      if ! String.eqb attrKey "" then find (λ entry, EqualFold (TrimSpace (ak_APIKey entry)) attrKey) entries
      else None
  end.

Definition normalize_mode (mode : string) : string :=
  if (String.eqb mode "apikey" || String.eqb mode "api_key") then "api-key" else mode.

Definition bedrock_matches (a : Auth) (entry : runtimeBedrockKeyConfig) : bool :=
  let at_ k := TrimSpace (attr (au_Attributes a) k) in
  let attrKey := at_ "api_key" in
  let attrAccessKeyID := at_ "access_key_id" in
  let attrBase := at_ "base_url" in
  let attrRegion := at_ "region" in
  let attrMode := normalize_mode (ToLower (at_ "auth_mode")) in
  let cfgMode := ToLower (TrimSpace (bk_AuthMode entry)) in
  let cfgMode := normalize_mode (if String.eqb cfgMode "" then "sigv4" else cfgMode) in
  let cfgRegion := TrimSpace (bk_Region entry) in
  let cfgRegion := if String.eqb cfgRegion "" then "us-east-1" else cfgRegion in
  let cfgAccessKeyID := TrimSpace (bk_AccessKeyID entry) in
  if (! String.eqb attrMode "" && ! String.eqb cfgMode attrMode) then false
  else if (! String.eqb attrBase "" && ! EqualFold (TrimSpace (bk_BaseURL entry)) attrBase) then false
  else if (! String.eqb attrRegion "" && ! EqualFold cfgRegion attrRegion) then false
  else if String.eqb cfgMode "api-key" then
    ! String.eqb attrKey "" && EqualFold (TrimSpace (bk_APIKey entry)) attrKey
  else if (! String.eqb attrAccessKeyID "" && EqualFold cfgAccessKeyID attrAccessKeyID) then true
  else ! String.eqb attrKey "" && EqualFold cfgAccessKeyID attrKey.

Definition resolveOpenAICompatConfig (cfg : runtimeKeyConfig) (providerKey compatName authProvider : string)
    : option runtimeOpenAICompatibilityConfig :=
  let candidates := List.filter (λ v, ! String.eqb v "")
    [TrimSpace compatName; TrimSpace providerKey; TrimSpace authProvider] in
  find (λ compat, existsb (λ candidate, EqualFold (TrimSpace candidate) (oc_Name compat)) candidates)
    (kc_OpenAICompatibility cfg).

(** The models of the configuration entry of a credential, by provider; [cline] is not
    among the providers whose models are scanned. *)
Definition compat_models (cfg : runtimeKeyConfig) (a : Auth) : option (list runtimeModelAliasEntry) :=
  let providerKey := TrimSpace (attr (au_Attributes a) "provider_key") in
  let compatName := TrimSpace (attr (au_Attributes a) "compat_name") in
  if (String.eqb compatName "" && ! EqualFold (TrimSpace (au_Provider a)) "openai-compatibility") then None
  else oc_Models <$> resolveOpenAICompatConfig cfg providerKey compatName (au_Provider a).

Definition config_models (cline : bool) (cfg : runtimeKeyConfig) (a : Auth) : option (list runtimeModelAliasEntry) :=
  let provider := ToLower (TrimSpace (au_Provider a)) in
  let keyed entries := ak_Models <$> resolveAPIKeyConfig entries a in
  if String.eqb provider "gemini" then keyed (kc_GeminiKey cfg)
  else if String.eqb provider "claude" then keyed (kc_ClaudeKey cfg)
  else if String.eqb provider "codex" then keyed (kc_CodexKey cfg)
  else if String.eqb provider "cline" then (if cline then keyed (kc_ClineKey cfg) else None)
  else if String.eqb provider "ollama-cloud" then keyed (kc_OllamaCloudKey cfg)
  else if String.eqb provider "commandcode" then keyed (kc_CommandCodeKey cfg)
  else if String.eqb provider "bedrock" then bk_Models <$> find (bedrock_matches a) (kc_BedrockKey cfg)
  else if String.eqb provider "vertex" then keyed (kc_VertexCompatAPIKey cfg)
  else compat_models cfg a.

(** ** The precompiled table of API keys *)

(** [if _, exists := out[key]; !exists { out[key] = name }] *)
Definition put_new (key name : string) (out : gmap string string) : gmap string string :=
  match out !! key with Some _ => out | None => <[key := name]> out end.

Definition lower_base (model : string) : string :=
  let key := ToLower (ModelName (parseModelSuffix model)) in
  if String.eqb key "" then ToLower model else key.

Definition compile_step (out : gmap string string) (entry : runtimeModelAliasEntry) : gmap string string :=
  let alias := TrimSpace (ma_Alias entry) in
  let name := TrimSpace (ma_Name entry) in
  if (String.eqb alias "" || String.eqb name "") then out
  else
    let aliasKey := lower_base alias in
    match out !! aliasKey with
    | Some _ => out
    | None =>
        let out := <[aliasKey := name]> out in
        let nameKey := lower_base name in
        let out := if ! String.eqb nameKey "" then put_new nameKey name out else out in
        let nameResult := parseModelSuffix name in
        if HasSuf nameResult then
          let baseKey := ToLower (TrimSpace (ModelName nameResult)) in
          if ! String.eqb baseKey "" then put_new baseKey name out else out
        else out
    end.

Definition compileAPIKeyModelAliasForModels (out : gmap string string) (models : list runtimeModelAliasEntry)
    : gmap string string := foldl compile_step out models.

(** [rebuildAPIKeyModelAliasLocked]; [cfg] is the configuration of a tenant. *)
Definition rebuildAPIKeyModelAliasLocked {RO : RangeOrder} (cfg : string → runtimeKeyConfig)
    (auths : gmap string (option Auth)) : gmap string (gmap string string) :=
  foldl (λ out (entry : string * option Auth),
    match entry.2 with
    | None => out
    | Some a =>
        if String.eqb (TrimSpace (au_ID a)) "" then out
        else if ! EqualFold (TrimSpace (AccountInfo a).1) "api_key" then out
        else
          let byAlias := match config_models true (cfg (au_TenantID a)) a with
            | Some models => compileAPIKeyModelAliasForModels ∅ models
            | None => ∅
            end in
          if bool_decide (byAlias = ∅) then out else <[au_ID a := byAlias]> out
    end) ∅ (range_order 46 auths).

Definition lookupAPIKeyUpstreamModel (table : gmap string (gmap string string)) (authID0 requestedModel0 : string)
    : string :=
  let authID := TrimSpace authID0 in
  let requestedModel := TrimSpace requestedModel0 in
  if (String.eqb authID "" || String.eqb requestedModel "") then ""
  else
    match table !! authID with
    | None => ""
    | Some byAlias =>
        preserveSuffix (parseModelSuffix requestedModel) (attr byAlias (lower_base requestedModel))
    end.

Definition applyAPIKeyModelAlias (table : gmap string (gmap string string)) (cfg : string → runtimeKeyConfig)
    (a : Auth) (requestedModel0 : string) : string :=
  if ! EqualFold (TrimSpace (AccountInfo a).1) "api_key" then requestedModel0
  else
    let requestedModel := TrimSpace requestedModel0 in
    if String.eqb requestedModel "" then requestedModel
    else
      let resolved := lookupAPIKeyUpstreamModel table (au_ID a) requestedModel in
      if ! String.eqb resolved "" then resolved
      else
        let upstreamModel := match config_models false (cfg (au_TenantID a)) a with
          | Some models => resolveModelAliasFromConfigModels requestedModel models
          | None => ""
          end in
        or_else upstreamModel (or_else (resolveBuiltInCodexModelAlias a requestedModel) requestedModel).

(** ** Lemmas *)

(** A model name without suffix or marker, as it is stored after trimming. *)
Record plain (model : string) : Prop := {
  pl_trimmed : TrimSpace model = model;
  pl_nonempty : model ≠ "";
  pl_no_marker : StripBracketSuffix model = model;
  pl_no_suffix : LastIndexByte model "(" = None }.

Lemma parse_plain model : plain model → parseModelSuffix model = MkSuffix model false "".
Proof.
  intros [_ _ Hm Hs]. rewrite <-ParseSuffix_parseModelSuffix. unfold ParseSuffix. by rewrite Hm, Hs.
Qed.

Lemma parse_suffixed model raw : plain model → LastIndexByte raw "(" = None →
  parseModelSuffix (with_suffix model raw) = MkSuffix model true raw.
Proof. intros [_ _ Hm _] Hr. rewrite <-ParseSuffix_parseModelSuffix. by apply ParseSuffix_with_suffix. Qed.

Lemma with_suffix_ne model raw : with_suffix model raw ≠ model.
Proof.
  intros E. apply (f_equal String.length) in E. unfold with_suffix in E.
  rewrite str_app_length in E. simpl in E. lia.
Qed.

Lemma ToLower_nonempty s : s ≠ "" → String.eqb (ToLower s) "" = false.
Proof. by destruct s. Qed.

(** The alias key of an entry that the OAuth table takes. *)
Definition takes_alias (entry : runtimeModelAliasEntry) (key : string) : bool :=
  let name := TrimSpace (ma_Name entry) in
  let alias := TrimSpace (ma_Alias entry) in
  ! String.eqb name "" && ! String.eqb alias "" && ! EqualFold name alias && String.eqb (ToLower alias) key.

Lemma alias_step_lookup rev entry key :
  alias_step rev entry !! key =
    match rev !! key with
    | Some n => Some n
    | None => if takes_alias entry key then Some (TrimSpace (ma_Name entry)) else None
    end.
Proof.
  unfold alias_step, takes_alias.
  destruct (String.eqb (TrimSpace (ma_Name entry)) ""), (String.eqb (TrimSpace (ma_Alias entry)) ""),
    (EqualFold (TrimSpace (ma_Name entry)) (TrimSpace (ma_Alias entry))); cbn [negb andb orb];
    try (by destruct (rev !! key)).
  destruct (String.eqb_spec (ToLower (TrimSpace (ma_Alias entry))) key) as [<-|Hne].
  - destruct (rev !! _) eqn:E; [by rewrite E|]. by rewrite lookup_insert_eq.
  - destruct (rev !! ToLower _); [by destruct (rev !! key)|].
    rewrite lookup_insert_ne by done. by destruct (rev !! key).
Qed.

(** The table of a channel: the first entry of an alias wins. *)
Lemma compile_channel_lookup entries key :
  compile_channel entries !! key =
    (λ entry, TrimSpace (ma_Name entry)) <$> find (λ entry, takes_alias entry key) entries.
Proof.
  unfold compile_channel. assert (H : ∀ rev, foldl alias_step rev entries !! key =
    match rev !! key with
    | Some n => Some n
    | None => (λ entry, TrimSpace (ma_Name entry)) <$> find (λ entry, takes_alias entry key) entries
    end); [|by rewrite H, lookup_empty].
  induction entries as [|entry entries IH]; intros rev; cbn [foldl find]; [by destruct (rev !! key)|].
  rewrite IH, alias_step_lookup. destruct (rev !! key); [done|]. by destruct (takes_alias entry key).
Qed.

(** A model alias of an OAuth channel resolves to the upstream name of the first entry
    that declares it, and the thinking suffix of the request goes with it: parsing the
    resolved model gives the upstream name and the suffix the client wrote. *)
Lemma alias_keeps_thinking_suffix (tables : gmap string (gmap string (gmap string string))) a reverse entries
    entry alias raw :
  modelAliasChannel a ≠ "" →
  tables !! normalizedTenantID (au_TenantID a) = Some reverse →
  reverse !! modelAliasChannel a = Some (compile_channel entries) →
  find (λ e, takes_alias e (ToLower alias)) entries = Some entry →
  plain alias → plain (TrimSpace (ma_Name entry)) → raw ≠ "" → LastIndexByte raw "(" = None →
  applyOAuthModelAlias tables a alias = TrimSpace (ma_Name entry) ∧
  parseModelSuffix (applyOAuthModelAlias tables a (with_suffix alias raw))
    = MkSuffix (TrimSpace (ma_Name entry)) true raw.
Proof.
  intros Hch Ht Hr Hf Ha Hn Hraw Hopen. set (name := TrimSpace (ma_Name entry)) in *.
  assert (Hlook : compile_channel entries !! ToLower alias = Some name) by (by rewrite compile_channel_lookup, Hf).
  assert (Hfold : EqualFold name alias = false).
  { apply find_some in Hf as [_ Hf]. unfold takes_alias in Hf. rewrite !andb_true_iff, String.eqb_eq in Hf.
    destruct Hf as [[_ Hf] Hk]. apply negb_true_iff in Hf. unfold EqualFold in *. by rewrite Hk in Hf. }
  assert (Hres : ∀ req, ModelName (parseModelSuffix req) = alias →
    resolveOAuthUpstreamModel tables a req =
      if HasSuf (parseModelSuffix req) && negb (String.eqb (RawSuffix (parseModelSuffix req)) "")
      then with_suffix name (RawSuffix (parseModelSuffix req)) else name).
  { intros req Hb. unfold resolveOAuthUpstreamModel, resolveUpstreamModelFromAliasTable.
    apply String.eqb_neq in Hch. rewrite Hch, Ht, Hr. unfold alias_candidates. rewrite Hb.
    assert (E : ∀ rest, lookup_candidates (compile_channel entries) (parseModelSuffix req) (alias :: rest) =
      if HasSuf (parseModelSuffix req) && negb (String.eqb (RawSuffix (parseModelSuffix req)) "")
      then with_suffix name (RawSuffix (parseModelSuffix req)) else name).
    { intros rest. cbn [lookup_candidates]. rewrite (pl_trimmed _ Ha), ToLower_nonempty by apply Ha.
      unfold attr. rewrite Hlook. cbn [default]. unfold default, from_option, id. rewrite (pl_trimmed _ Hn).
      rewrite (proj2 (String.eqb_neq _ _) (pl_nonempty _ Hn)), Hb, Hfold, (parse_plain _ Hn). done. }
    destruct (String.eqb alias req); apply E. }
  assert (Happ : ∀ req, resolveOAuthUpstreamModel tables a req ≠ "" →
    applyOAuthModelAlias tables a req = resolveOAuthUpstreamModel tables a req).
  { intros req Hne%String.eqb_neq. unfold applyOAuthModelAlias. by rewrite Hne. }
  split.
  - rewrite Happ; rewrite Hres; rewrite parse_plain by done; try done. apply Hn.
  - rewrite Happ; rewrite Hres; rewrite (parse_suffixed alias raw) by done; try done; cbn [HasSuf RawSuffix andb ModelName];
      rewrite (proj2 (String.eqb_neq _ _) Hraw); cbn [negb]; [by apply parse_suffixed|].
    unfold with_suffix. by destruct name.
Qed.

Definition claude_entries : list runtimeModelAliasEntry :=
  [MkAliasEntry "claude-sonnet-4-5" " Sonnet "; MkAliasEntry "claude-old" "sonnet"].

Lemma alias_keeps_thinking_suffix_witness :
  applyOAuthModelAlias {[defaultTenantID := {["claude" := compile_channel claude_entries]}]}
    (auth_new "a" "claude" ∅ ∅) "sonnet" = "claude-sonnet-4-5".
Proof.
  refine (proj1 (alias_keeps_thinking_suffix {[defaultTenantID := {["claude" := compile_channel claude_entries]}]}
    (auth_new "a" "claude" ∅ ∅) {["claude" := compile_channel claude_entries]} claude_entries
    (MkAliasEntry "claude-sonnet-4-5" " Sonnet ") "sonnet" "high" _ _ _ _ _ _ _ _));
    try (vm_compute; reflexivity); try (vm_compute; discriminate);
    split; vm_compute; try reflexivity; discriminate.
Defined.

(** ** The precompiled table answers as the scan does *)

Definition entry_name (e : runtimeModelAliasEntry) : string := TrimSpace (ma_Name e).
Definition entry_alias (e : runtimeModelAliasEntry) : string := TrimSpace (ma_Alias e).

(** An entry that a request for [key] finds. *)
Definition answers_key (key : string) (e : runtimeModelAliasEntry) : bool :=
  String.eqb (ToLower (entry_alias e)) key || String.eqb (ToLower (entry_name e)) key.

(** Names and aliases are plain, no alias is declared twice or is another entry's name. *)
Record unambiguous (models : list runtimeModelAliasEntry) : Prop := {
  un_plain : ∀ e, e ∈ models → plain (entry_name e) ∧ plain (entry_alias e);
  un_aliases : NoDup (map (λ e, ToLower (entry_alias e)) models);
  un_names : ∀ e e', e ∈ models → e' ∈ models →
    ToLower (entry_alias e) = ToLower (entry_name e') → e = e' }.

Lemma unambiguous_tail e models : unambiguous (e :: models) → unambiguous models.
Proof.
  intros [Hp Hd Hn]. split; [|by inversion Hd|].
  - intros e' He'. apply Hp. by right.
  - intros x y Hx Hy. apply Hn; by right.
Qed.

Lemma lower_base_plain x : plain x → lower_base x = ToLower x.
Proof.
  intros Hx. unfold lower_base. rewrite (parse_plain _ Hx). cbn [ModelName].
  by rewrite ToLower_nonempty by apply Hx.
Qed.

Lemma put_new_lookup key name out k :
  put_new key name out !! k =
    match out !! k with Some n => Some n | None => if String.eqb key k then Some name else None end.
Proof.
  unfold put_new. destruct (String.eqb_spec key k) as [<-|Hne].
  - destruct (out !! key) eqn:E; [by rewrite E|]. by rewrite lookup_insert_eq.
  - destruct (out !! key); [by destruct (out !! k)|]. rewrite lookup_insert_ne by done. by destruct (out !! k).
Qed.

Lemma compile_step_plain out e k : plain (entry_name e) → plain (entry_alias e) →
  out !! ToLower (entry_alias e) = None →
  compile_step out e !! k =
    match out !! k with
    | Some n => Some n
    | None => if answers_key k e then Some (entry_name e) else None
    end.
Proof.
  intros Hn Ha Hout. unfold compile_step. fold (entry_name e) (entry_alias e).
  rewrite (proj2 (String.eqb_neq _ _) (pl_nonempty _ Hn)), (proj2 (String.eqb_neq _ _) (pl_nonempty _ Ha)).
  cbn [orb]. rewrite (lower_base_plain _ Ha), (lower_base_plain _ Hn), Hout.
  rewrite (ToLower_nonempty _ (pl_nonempty _ Hn)), (parse_plain _ Hn). cbn [negb HasSuf].
  rewrite put_new_lookup. unfold answers_key.
  destruct (String.eqb_spec (ToLower (entry_alias e)) k) as [<-|Hne].
  - by rewrite lookup_insert_eq, Hout.
  - rewrite lookup_insert_ne by done. by destruct (out !! k).
Qed.

Lemma compile_lookup models out k : unambiguous models →
  (∀ e, e ∈ models → out !! ToLower (entry_alias e) = None) →
  compileAPIKeyModelAliasForModels out models !! k =
    match out !! k with Some n => Some n | None => entry_name <$> find (answers_key k) models end.
Proof.
  unfold compileAPIKeyModelAliasForModels. revert out. induction models as [|e models IH]; intros out Hu Hout.
  { cbn. by destruct (out !! k). }
  cbn [foldl find]. destruct (un_plain _ Hu e ltac:(left)) as [Hn Ha].
  rewrite IH; [|by eapply unambiguous_tail|].
  - rewrite compile_step_plain by (try done; apply Hout; left). destruct (out !! k); [done|].
    by destruct (answers_key k e).
  - intros e' He'. rewrite compile_step_plain by (try done; apply Hout; left).
    rewrite Hout by by right. unfold answers_key.
    pose proof (un_aliases _ Hu) as Hd. cbn [map] in Hd. apply NoDup_cons in Hd as [Hd _].
    assert (Hne : ToLower (entry_alias e) ≠ ToLower (entry_alias e')).
    { intros E. apply Hd. rewrite E. by apply (list_elem_of_fmap_2 (λ e, ToLower (entry_alias e))). }
    rewrite (proj2 (String.eqb_neq _ _) Hne). cbn [orb].
    destruct (String.eqb_spec (ToLower (entry_name e)) (ToLower (entry_alias e'))) as [E|]; [|done].
    assert (e' = e) as -> by (apply (un_names _ Hu); [by right|left|done]). done.
Qed.

(** Lowering keeps the place of the opening bracket. *)
Lemma LastIndexByte_ToLower s : LastIndexByte (ToLower s) "(" = LastIndexByte s "(".
Proof.
  induction s as [|c s IH]; [done|]. cbn [ToLower LastIndexByte]. rewrite IH.
  destruct (LastIndexByte s "("); [done|].
  by destruct c as [[] [] [] [] [] [] [] []].
Qed.

Lemma plain_not_suffixed x base raw : plain x → EqualFold x (with_suffix base raw) = false.
Proof.
  intros Hx. apply String.eqb_neq. intros E. apply (f_equal (λ s, LastIndexByte s "(")) in E.
  rewrite !LastIndexByte_ToLower, (pl_no_suffix _ Hx) in E.
  assert (H : ∀ b, LastIndexByte (with_suffix b raw) "(" ≠ None); [|by apply (H base)].
  intros b. unfold with_suffix. induction b as [|c b IH].
  - change ("" +:+ "(" +:+ raw +:+ ")") with (String "(" (raw +:+ ")")). cbn [LastIndexByte].
    destruct (LastIndexByte (raw +:+ ")") "("); [done|]. by rewrite Ascii.eqb_refl.
  - change (String c b +:+ "(" +:+ raw +:+ ")") with (String c (b +:+ "(" +:+ raw +:+ ")")). cbn [LastIndexByte].
    by destruct (LastIndexByte (b +:+ "(" +:+ raw +:+ ")") "(").
Qed.

(** A request for a plain model, with or without a thinking suffix. *)
Inductive request_for_model (base : string) : string → Prop :=
  | req_base : request_for_model base base
  | req_suffixed raw : LastIndexByte raw "(" = None → request_for_model base (with_suffix base raw).

Lemma scan_plain base req models : plain base → request_for_model base req → unambiguous models →
  scan_models (parseModelSuffix req) (alias_candidates req) models =
    match find (answers_key (ToLower base)) models with
    | Some e => preserveSuffix (parseModelSuffix req) (entry_name e)
    | None => ""
    end.
Proof.
  intros Hb Hr. assert (Hcand : alias_candidates req = [base] ∨
      ∃ raw, alias_candidates req = [base; with_suffix base raw]).
  { unfold alias_candidates. destruct Hr as [|raw Hraw].
    - left. rewrite (parse_plain _ Hb). cbn [ModelName]. by rewrite String.eqb_refl.
    - right. exists raw. rewrite (parse_suffixed _ _ Hb Hraw). cbn [ModelName].
      by rewrite (proj2 (String.eqb_neq _ _) (not_eq_sym (with_suffix_ne base raw))). }
  induction models as [|e models IH]; intros Hu; cbn [scan_models find]; [done|].
  destruct (un_plain _ Hu e ltac:(left)) as [Hn Ha]. fold (entry_name e) (entry_alias e).
  assert (Hm : entry_match (parseModelSuffix req) (entry_name e) (entry_alias e) (alias_candidates req) =
    if answers_key (ToLower base) e then Some (preserveSuffix (parseModelSuffix req) (entry_name e)) else None).
  { unfold answers_key. assert (Hfirst : ∀ rest,
      entry_match (parseModelSuffix req) (entry_name e) (entry_alias e) rest = None →
      entry_match (parseModelSuffix req) (entry_name e) (entry_alias e) (base :: rest) =
        if String.eqb (ToLower (entry_alias e)) (ToLower base) || String.eqb (ToLower (entry_name e)) (ToLower base)
        then Some (preserveSuffix (parseModelSuffix req) (entry_name e)) else None).
    { intros rest Hrest. cbn [entry_match]. rewrite (proj2 (String.eqb_neq _ _) (pl_nonempty _ Hb)).
      rewrite (proj2 (String.eqb_neq _ _) (pl_nonempty _ Ha)), (proj2 (String.eqb_neq _ _) (pl_nonempty _ Hn)).
      cbn [negb andb]. unfold EqualFold. destruct (String.eqb (ToLower (entry_alias e)) _); [done|].
      by destruct (String.eqb (ToLower (entry_name e)) _). }
    destruct Hcand as [->|[raw ->]]; apply Hfirst; [done|]. cbn [entry_match].
    rewrite !plain_not_suffixed, !andb_false_r by done. by destruct (String.eqb (with_suffix base raw) ""). }
  rewrite Hm. destruct (answers_key (ToLower base) e); [done|]. apply IH. by eapply unambiguous_tail.
Qed.

(** For an API key whose configuration is unambiguous the precompiled alias table, which
    serves requests, and the scan of the configuration, which serves them when the table has
    no answer, resolve every model alike, with the thinking suffix of the request. *)
Lemma alias_table_agrees models base req :
  unambiguous models → plain base → request_for_model base req → TrimSpace req = req →
  preserveSuffix (parseModelSuffix req) (attr (compileAPIKeyModelAliasForModels ∅ models) (lower_base req))
    = resolveModelAliasFromConfigModels req models.
Proof.
  intros Hu Hb Hr Ht. unfold resolveModelAliasFromConfigModels. rewrite Ht.
  assert (Hk : lower_base req = ToLower base ∧ req ≠ "").
  { destruct Hr as [|raw Hraw]; [by split; [apply lower_base_plain|apply Hb]|].
    unfold lower_base. rewrite (parse_suffixed _ _ Hb Hraw). cbn [ModelName].
    rewrite (ToLower_nonempty _ (pl_nonempty _ Hb)). split; [done|]. unfold with_suffix. by destruct base. }
  destruct Hk as [-> Hne]. rewrite (proj2 (String.eqb_neq _ _) Hne), (scan_plain base req models Hb Hr Hu).
  unfold attr. rewrite compile_lookup by (try done; intros; apply lookup_empty). rewrite lookup_empty.
  by destruct (find _ _).
Qed.

Definition key_entries : list runtimeModelAliasEntry :=
  [MkAliasEntry "gpt-5.5" "best"; MkAliasEntry "gpt-5.5-mini" "fast"].

Lemma alias_table_agrees_witness :
  preserveSuffix (parseModelSuffix "Fast(high)")
    (attr (compileAPIKeyModelAliasForModels ∅ key_entries) (lower_base "Fast(high)"))
    = resolveModelAliasFromConfigModels "Fast(high)" key_entries.
Proof.
  apply (alias_table_agrees key_entries "Fast" "Fast(high)"); [|split; vm_compute; congruence| |reflexivity].
  - split.
    + intros e He. apply list_elem_of_In in He. destruct He as [<-|[<-|[]]]; split; split; vm_compute; congruence.
    + vm_compute. apply NoDup_cons. split; [|apply NoDup_singleton]. intros H%list_elem_of_singleton. discriminate.
    + intros e e' He He'. apply list_elem_of_In in He, He'.
      destruct He as [<-|[<-|[]]], He' as [<-|[<-|[]]]; vm_compute; congruence.
  - exact (req_suffixed "Fast" "high" eq_refl).
Defined.
