(* ===== verification/RoutingGroups.v ===== *)
(** * Channel groups and the gates of a request

    Models [src/sdk/cliproxy/auth/routing_groups_metadata.go] (tags, groups and the
    restrictions a request carries), [routing_groups_display_tags.go],
    [routing_groups_scope.go] (membership, scheduling, weights and model gates of
    channel groups), the channel names of [types.go], the routing part of
    [conductor_runtime_snapshot.go] and [alpha_search.go].

    A [map[string]struct{}] is a [gset string]; a nil set is the empty one, which is
    how the source treats it. A loop over such a set here only looks for one member,
    so it is written over [elements]; the loop over the weights of a group, which
    keeps a running best, goes through [range_order]. The registry of models is the Go
    interface [ModelRegistry], here a record of the two queries that selection makes. *)
From stdpp Require Import pretty.
From S2P Require Import Prelude GoModel Strconv AuthTypes ModelNames GroupModels Weighted Availability Limiter Aggregate ClaudeHealth QuotaPersist Cooldown Conductor Selectors.
From Stdlib Require Import Ascii.

(** ** Text *)

(** [strings.Fields] *)
Fixpoint fields_from (word : string) (s : string) : list string :=
  match s with
  | EmptyString => if String.eqb word "" then [] else [word]
  | String c s' =>
      if is_space c then
        (if String.eqb word "" then fields_from "" s' else word :: fields_from "" s')
      else fields_from (str_snoc word c) s'
  end.
Definition Fields (s : string) : list string := fields_from "" s.

Definition normalizeRoutingTag (value : string) : string :=
  let trimmed := TrimSpace (ToLower value) in
  if String.eqb trimmed "" then "" else Join (Fields trimmed) "-".

Definition normalizeGroupName (value : string) : string :=
  TrimByte "/"%char (ToLower (TrimSpace value)).

Definition normalizeRouteFallback (value : string) : string :=
  let v := ToLower (TrimSpace value) in
  if (String.eqb v "" || String.eqb v "none") then "none"
  else if String.eqb v "default" then "default" else "none".

(** ** Metadata *)

Section metadata.
Context {J : GoJSON}.

(** The list a metadata entry holds; [None] when its type is not one of a list. *)
Definition listed_values (raw : GoAny) : option (list string) :=
  match raw with
  | AString typed => Some (SplitByte ","%char typed)
  | AStrings typed => Some typed
  | AList typed => Some (map fmt_Sprint typed)
  | _ => None
  end.

Definition nonempty_set (l : list string) : gset string :=
  list_to_set (List.filter (λ v, ! String.eqb v "") l).

Definition metadataStringSet (meta : gmap string GoAny) (key : string) (normalizer : string → string)
    : gset string :=
  match meta !! key with
  | None => ∅
  | Some raw =>
      match listed_values raw with
      | None => ∅
      | Some values => nonempty_set (map (λ v, normalizer (TrimSpace v)) values)
      end
  end.

(** One step of the loop that keeps the first occurrence of each tag. *)
Definition tag_step (out : list string) (value : string) : list string :=
  let tag := normalizeRoutingTag value in
  if (String.eqb tag "" || existsb (String.eqb tag) out) then out else out ++ [tag].

Definition metadataTagList (meta : gmap string GoAny) (key : string) : list string * bool :=
  match meta !! key with
  | None => ([], false)
  | Some raw =>
      match listed_values raw with
      | None => ([], true)
      | Some values => (foldl tag_step [] values, true)
      end
  end.

Definition appendUniqueTag (values : list string) (tag : string) : list string :=
  let normalized := normalizeRoutingTag tag in
  if String.eqb normalized "" then values
  else if existsb (String.eqb normalized) values then values else values ++ [normalized].

Definition allowedChannelGroupsFromMetadata (meta : gmap string GoAny) : gset string :=
  metadataStringSet meta "allowed-channel-groups" normalizeGroupName.

Definition allowedChannelsFromMetadata (meta : gmap string GoAny) : gset string :=
  match meta !! "allowed-channels" with
  | None => ∅
  | Some raw =>
      match listed_values raw with
      | None => ∅
      | Some values => nonempty_set (map (λ v, ToLower (TrimSpace v)) values)
      end
  end.

Definition routeGroupFromMetadata (meta : gmap string GoAny) : string :=
  match meta !! "route_group" with
  | Some (AString raw) | Some (ABytes raw) => normalizeGroupName raw
  | _ => ""
  end.

Definition routeFallbackFromMetadata (meta : gmap string GoAny) : string :=
  match meta !! "route_fallback" with
  | Some (AString raw) | Some (ABytes raw) => normalizeRouteFallback raw
  | _ => "none"
  end.

(** ** Tags of a credential *)

Definition routingCodexPlanDisplayTags : list string :=
  ["business"; "edu"; "enterprise"; "free"; "plus"; "pro"; "team"].

Definition isStaleCodexRoutingPlanDisplayTag (providerTag currentPlan tag : string) : bool :=
  if (! String.eqb providerTag "codex" || String.eqb currentPlan "" || String.eqb tag currentPlan) then false
  else if ! existsb (String.eqb currentPlan) routingCodexPlanDisplayTags then false
  else existsb (String.eqb tag) routingCodexPlanDisplayTags.

Definition default_tags (a : Auth) : list string :=
  let provider := normalizeRoutingTag (au_Provider a) in
  let tags := if (! String.eqb provider "" && ! String.eqb provider "unknown")
              then appendUniqueTag [] provider else [] in
  let planType := normalizeRoutingTag (metadataStringValue (au_Metadata a) ["plan_type"; "planType"]) in
  if ! String.eqb planType "" then appendUniqueTag tags planType else tags.

(** The loop over the explicit display tags. *)
Definition display_step (allowed : list string) (providerTag currentPlan : string)
    (out : list string) (tag : string) : list string :=
  if existsb (String.eqb tag) allowed then appendUniqueTag out tag
  else if (isStaleCodexRoutingPlanDisplayTag providerTag currentPlan tag &&
           existsb (String.eqb currentPlan) allowed)
       then appendUniqueTag out currentPlan else out.

Definition authDisplayTags (a : Auth) : list string :=
  let defaultTags := default_tags a in
  let customTags := (metadataTagList (au_Metadata a) "custom_tags").1 in
  let hidden := (metadataTagList (au_Metadata a) "hidden_default_tags").1 in
  let '(explicitDisplayTags, hasExplicitDisplayTags) := metadataTagList (au_Metadata a) "display_tags" in
  if hasExplicitDisplayTags then
    let providerTag := normalizeRoutingTag (au_Provider a) in
    let currentPlan := normalizeRoutingTag (metadataStringValue (au_Metadata a) ["plan_type"; "planType"]) in
    foldl (display_step (defaultTags ++ customTags) providerTag currentPlan) [] explicitDisplayTags
  else
    foldl appendUniqueTag []
      (List.filter (λ tag, ! existsb (String.eqb tag) hidden) (defaultTags ++ customTags)).

Definition authMatchesAnyTag (a : Auth) (tags : list string) : bool :=
  let displayTags := nonempty_set (map normalizeRoutingTag (authDisplayTags a)) in
  existsb (λ tag, bool_decide (normalizeRoutingTag tag ∈ displayTags)) tags.

End metadata.

(** ** Channel names *)

Definition metadata_text (a : Auth) (key : string) : option string :=
  match au_Metadata a !! key with Some (AString raw) => Some raw | _ => None end.

Definition ChannelName (a : Auth) : string :=
  let label := TrimSpace (au_Label a) in
  if ! String.eqb label "" then label
  else
    let label := TrimSpace (default "" (metadata_text a "label")) in
    if ! String.eqb label "" then label
    else
      let email := TrimSpace (default "" (metadata_text a "email")) in
      if ! String.eqb email "" then email else TrimSpace (au_Provider a).

(** [appendValue]: identifiers that differ only in case are one. *)
Definition append_identifier (out : list string) (value : string) : list string :=
  let value := TrimSpace value in
  if (String.eqb value "" || existsb (λ seen, String.eqb (ToLower seen) (ToLower value)) out)
  then out else out ++ [value].

Definition ChannelIdentifiers (a : Auth) : list string :=
  let out := append_identifier [] (ChannelName a) in
  match metadata_text a "email" with Some raw => append_identifier out raw | None => out end.

Definition authMatchesChannelName (a : Auth) (candidate : string) : bool :=
  let candidate := TrimSpace candidate in
  if String.eqb candidate "" then false
  else existsb (λ identifier, EqualFold identifier candidate) (ChannelIdentifiers a).

Definition authAllowedByChannels (a : Auth) (allowed : gset string) : bool :=
  if bool_decide (allowed = ∅) then true
  else existsb (λ identifier, bool_decide (ToLower (TrimSpace identifier) ∈ allowed)) (ChannelIdentifiers a).

(** ** Configuration *)

Record runtimeGroupScheduling := MkScheduling {
  sc_Distribution : string; sc_StickyEnabled : bool; sc_StickyMax : Z; sc_StickyRelease : float64;
  sc_ChannelWeights : gmap string Z }.

Record runtimeChannelGroupMatch := MkMatch {
  ma_Prefixes : list string; ma_Channels : list string; ma_Tags : list string }.

Record runtimeRoutingChannelGroup := MkGroup {
  gr_Name : string; gr_Scheduling : runtimeGroupScheduling; gr_Match : runtimeChannelGroupMatch;
  gr_ExcludeFromDefault : bool; gr_AllowedModels : list string; gr_ExcludedModels : list string }.

(** [cfg.Routing]; a nil snapshot is [None]. *)
Record runtimeRoutingConfig := MkRouting {
  rt_Strategy : string; rt_IncludeDefaultGroup : bool;
  rt_ChannelGroups : list runtimeRoutingChannelGroup }.

Definition emptyRuntimeConfig : runtimeRoutingConfig := MkRouting "" false [].

Definition scheduling_of (distribution : string) (sticky : bool) (stickyMax : Z) : runtimeGroupScheduling :=
  MkScheduling distribution sticky stickyMax f64_zero ∅.

Definition defaultStickyMaxRequests : Z := 200.

(** ** Scheduling *)

Definition group_named (groupName : string) (group : runtimeRoutingChannelGroup) : bool :=
  String.eqb (normalizeGroupName (gr_Name group)) groupName.

Definition channelGroupScheduling (cfg : option runtimeRoutingConfig) (groupName : string)
    : option runtimeGroupScheduling :=
  match cfg with
  | None => None
  | Some cfg =>
      let groupName := normalizeGroupName groupName in
      if String.eqb groupName "" then None
      else gr_Scheduling <$> find (group_named groupName) (rt_ChannelGroups cfg)
  end.

Definition onlyAllowedGroupName (allowedGroups : gset string) : string :=
  match elements allowedGroups with
  | [group] => normalizeGroupName group
  | _ => ""
  end.

Definition globalScheduling (cfg : option runtimeRoutingConfig) : runtimeGroupScheduling :=
  match cfg with
  | None => scheduling_of "weighted" false 0
  | Some cfg =>
      let strategy := TrimSpace (rt_Strategy cfg) in
      if String.eqb strategy "session-sticky" then scheduling_of "weighted" true defaultStickyMaxRequests
      else if String.eqb strategy "fill-first" then scheduling_of "fill-first" false 0
      else scheduling_of "weighted" false 0
  end.

Definition scopedScheduling (cfg : option runtimeRoutingConfig) (routeGroup : string)
    (allowedGroups : gset string) : runtimeGroupScheduling :=
  let routeGroup := normalizeGroupName routeGroup in
  if ! String.eqb routeGroup "" then
    default (globalScheduling cfg) (channelGroupScheduling cfg routeGroup)
  else
    let allowedGroup := onlyAllowedGroupName allowedGroups in
    if ! String.eqb allowedGroup "" then
      default (globalScheduling cfg) (channelGroupScheduling cfg allowedGroup)
    else globalScheduling cfg.

(** ** Membership *)

Definition includeDefaultGroup (cfg : option runtimeRoutingConfig) : bool :=
  match cfg with None => true | Some cfg => rt_IncludeDefaultGroup cfg end.

Section groups.
Context {J : GoJSON}.

Definition routingChannelGroupMatchesAuth (a : Auth) (group : runtimeRoutingChannelGroup)
    (authPrefix : string) : bool :=
  let authPrefix := if String.eqb authPrefix "" then normalizeGroupName (au_Prefix a) else authPrefix in
  if existsb (λ prefix, ! String.eqb authPrefix "" && String.eqb (normalizeGroupName prefix) authPrefix)
       (ma_Prefixes (gr_Match group)) then true
  else if existsb (authMatchesChannelName a) (ma_Channels (gr_Match group)) then true
  else authMatchesAnyTag a (ma_Tags (gr_Match group)).

(** The loop over the configured groups: the groups that match, and whether one of
    them takes the credential out of the default group. *)
Definition group_match_step (a : Auth) (authPrefix : string)
    (acc : gset string * bool) (group : runtimeRoutingChannelGroup) : gset string * bool :=
  let '(explicitGroups, excludeFromDefault) := acc in
  let groupName := normalizeGroupName (gr_Name group) in
  if String.eqb groupName "" then acc
  else if routingChannelGroupMatchesAuth a group authPrefix then
    ({[groupName]} ∪ explicitGroups,
     excludeFromDefault || (! String.eqb groupName "default" && gr_ExcludeFromDefault group))
  else acc.

Definition authGroups (cfg : option runtimeRoutingConfig) (a : Auth) : gset string :=
  let authPrefix := normalizeGroupName (au_Prefix a) in
  match cfg with
  | None =>
      if ! String.eqb authPrefix "" then {[authPrefix]}
      else if includeDefaultGroup cfg then {["default"]} else ∅
  | Some c =>
      let '(explicitGroups, excludeFromDefault) :=
        foldl (group_match_step a authPrefix) (∅, false) (rt_ChannelGroups c) in
      let out := if ! String.eqb authPrefix "" then {[authPrefix]}
                 else if (includeDefaultGroup cfg && ! excludeFromDefault) then {["default"]} else ∅ in
      out ∪ explicitGroups
  end.

Definition authAllowedByGroups (cfg : option runtimeRoutingConfig) (a : Auth) (allowed : gset string) : bool :=
  if bool_decide (allowed = ∅) then true
  else existsb (λ group, bool_decide (group ∈ allowed)) (elements (authGroups cfg a)).

Definition authInRouteGroup (cfg : option runtimeRoutingConfig) (a : Auth) (group : string) : bool :=
  let group := normalizeGroupName group in
  if String.eqb group "" then true else bool_decide (group ∈ authGroups cfg a).

End groups.

Definition requestedModelHasRoutingPrefix (model : string) : bool :=
  let model := TrimSpace model in
  if String.eqb model "" then false
  else match Index model "/" with
       | None => false
       | Some i => ! String.eqb (normalizeGroupName (str_to i model)) "" &&
                   ! String.eqb (TrimSpace (str_from (i + 1) model)) ""
       end.

Definition defaultRouteGroupForSelection (cfg : option runtimeRoutingConfig) (model : string) : string :=
  match cfg with
  | None => ""
  | Some c => if (! rt_IncludeDefaultGroup c || requestedModelHasRoutingPrefix model) then "" else "default"
  end.

Definition effectiveRouteGroupForSelection (cfg : option runtimeRoutingConfig) (routeGroup : string)
    (allowedGroups : gset string) (model : string) : string :=
  let routeGroup := normalizeGroupName routeGroup in
  if ! String.eqb routeGroup "" then routeGroup
  else if ! bool_decide (allowedGroups = ∅) then ""
  else defaultRouteGroupForSelection cfg model.

(** ** Weights *)

Definition priorityScopeGroups (routeGroup : string) (allowedGroups : gset string) : gset string :=
  let routeGroup := normalizeGroupName routeGroup in
  if ! String.eqb routeGroup "" then {[routeGroup]}
  else nonempty_set (map normalizeGroupName (elements allowedGroups)).

Section weights.
Context {RO : RangeOrder} {J : GoJSON}.

(** One entry of [ChannelWeights] against the best weight so far. *)
Definition weight_step (a : Auth) (best : option Z) (entry : string * Z) : option Z :=
  let '(name, weight) := entry in
  if (authMatchesChannelName a name &&
      match best with None => true | Some b => b <? weight end)
  then Some weight else best.

Definition group_weight_step (a : Auth) (groups scopedGroups : gset string) (best : option Z)
    (group : runtimeRoutingChannelGroup) : option Z :=
  let groupName := normalizeGroupName (gr_Name group) in
  if ! bool_decide (groupName ∈ groups) then best
  else if ! bool_decide (groupName ∈ scopedGroups) then best
  else foldl (weight_step a) best (range_order 40 (sc_ChannelWeights (gr_Scheduling group))).

Definition derivedGroupWeight (cfg : option runtimeRoutingConfig) (a : Auth) (scopedGroups : gset string)
    : option Z :=
  match cfg with
  | None => None
  | Some c =>
      if bool_decide (scopedGroups = ∅) then None
      else
        let groups := authGroups cfg a in
        if bool_decide (groups = ∅) then None
        else foldl (group_weight_step a groups scopedGroups) None (rt_ChannelGroups c)
  end.

Definition set_Attributes (v : gmap string string) (a : Auth) : Auth :=
  {| au_ID := au_ID a; au_TenantID := au_TenantID a; au_Provider := au_Provider a;
     au_Prefix := au_Prefix a; au_Label := au_Label a;
     au_ProxyID := au_ProxyID a; au_ProxyURL := au_ProxyURL a;
     au_Disabled := au_Disabled a; au_Attributes := v; au_Metadata := au_Metadata a;
     au_Status := au_Status a; au_StatusMessage := au_StatusMessage a;
     au_Unavailable := au_Unavailable a; au_Quota := au_Quota a;
     au_LastError := au_LastError a; au_UpdatedAt := au_UpdatedAt a;
     au_LastRefreshedAt := au_LastRefreshedAt a; au_NextRefreshAfter := au_NextRefreshAfter a;
     au_NextRetryAfter := au_NextRetryAfter a; au_ModelStates := au_ModelStates a |}.

Definition prepareCandidateForSelection (cfg : option runtimeRoutingConfig) (a : Auth)
    (routeGroup : string) (allowedGroups : gset string) : Auth :=
  match derivedGroupWeight cfg a (priorityScopeGroups routeGroup allowedGroups) with
  | None => a
  | Some weight => set_Attributes (<[selectionWeightAttribute := Itoa weight]> (au_Attributes a)) a
  end.

End weights.

(** ** Model gates *)

(** The two queries of the [ModelRegistry] interface. *)
Record ModelRegistry := MkRegistry {
  GetModelsForClient : string → list string;
  ClientSupportsModel : string → string → bool }.

Definition authHasDisableAllModelsRule (a : Auth) : bool :=
  existsb (λ key, existsb (λ raw, String.eqb (TrimSpace raw) "*")
                    (SplitByte ","%char (attr (au_Attributes a) key)))
    ["excluded_models"; "excluded-models"].

Definition routingGroupAllowsModel (groupName : string) (allowedModels : list string) (modelID : string) : bool :=
  let modelID := TrimSpace modelID in
  if String.eqb modelID "" then false
  else
    let prefix := groupName +:+ "/" in
    let unprefixed :=
      if (! String.eqb groupName "" && HasPrefix (ToLower modelID) (ToLower prefix))
      then str_from (String.length prefix) modelID else modelID in
    existsb (λ allowed,
      let allowed := TrimSpace allowed in
      ! String.eqb allowed "" && (EqualFold allowed modelID || EqualFold allowed unprefixed)) allowedModels.

Section gates.
Context {J : GoJSON} {MD : ModelDiscovery}.

Definition routingGroupModelAllowed (groupName : string) (allowedModels excludedModels : list string)
    (modelID tenantID : string) : bool :=
  if ChannelGroupExcludesModel excludedModels modelID then false
  else if bool_decide (allowedModels = []) then ! String.eqb (TrimSpace modelID) ""
  else if routingGroupAllowsModel groupName allowedModels modelID then true
  else String.eqb (normalizeGroupName groupName) "default" && DiscoveredModel tenantID modelID.

(** The groups whose model lists govern a candidate: its route group and the groups
    the caller is restricted to. *)
Definition scopedRouteGroupNames (candidateGroups : gset string) (routeGroup : string)
    (allowedGroups : gset string) : gset string :=
  let normalized := normalizeGroupName routeGroup in
  (if (! String.eqb routeGroup "" && bool_decide (normalized ∈ candidateGroups))
   then {[normalized]} else ∅) ∪ (candidateGroups ∩ allowedGroups).

(** The loop over the configured groups; the flag is [foundRestrictedGroup]. *)
Fixpoint model_gate (scopedGroups : gset string) (modelID tenantID : string) (found : bool)
    (groups : list runtimeRoutingChannelGroup) : bool :=
  match groups with
  | [] => ! found
  | group :: rest =>
      let groupName := normalizeGroupName (gr_Name group) in
      if ! bool_decide (groupName ∈ scopedGroups) then model_gate scopedGroups modelID tenantID found rest
      else if (bool_decide (gr_AllowedModels group = []) && bool_decide (gr_ExcludedModels group = [])) then true
      else if routingGroupModelAllowed groupName (gr_AllowedModels group) (gr_ExcludedModels group) modelID tenantID
      then true
      else model_gate scopedGroups modelID tenantID true rest
  end.

Definition modelAllowedByRoutingGroupScopes (cfg : option runtimeRoutingConfig) (tenantID modelID : string)
    (candidateGroups : gset string) (routeGroup : string) (allowedGroups : gset string) : bool :=
  let modelID := TrimSpace modelID in
  match cfg with
  | None => true
  | Some c =>
      if (String.eqb modelID "" || bool_decide (candidateGroups = ∅)) then true
      else
        let scopedGroups := scopedRouteGroupNames candidateGroups routeGroup allowedGroups in
        if bool_decide (scopedGroups = ∅) then true
        else model_gate scopedGroups modelID tenantID false (rt_ChannelGroups c)
  end.

(** The groups under whose prefix the registry may list the model. *)
Definition groups_to_try (groups : gset string) (routeGroup : string) (allowedGroups : gset string) : gset string :=
  let tryGroups :=
    (if (! String.eqb routeGroup "" && bool_decide (routeGroup ∈ groups)) then {[routeGroup]} else ∅)
    ∪ (groups ∩ allowedGroups) in
  if bool_decide (tryGroups = ∅) then groups else tryGroups.

Definition candidateSupportsModelOpts (cfg : option runtimeRoutingConfig) (registryRef : option ModelRegistry)
    (a : Auth) (modelID0 routeGroup : string) (allowedGroups : gset string) (ignoreGroupAllowedModels : bool) : bool :=
  let modelID := TrimSpace modelID0 in
  if String.eqb modelID "" then false
  else
    let groups := authGroups cfg a in
    if (! ignoreGroupAllowedModels &&
        ! modelAllowedByRoutingGroupScopes cfg (au_TenantID a) modelID groups routeGroup allowedGroups) then false
    else match registryRef with
    | None => true
    | Some r =>
        if bool_decide (GetModelsForClient r (au_ID a) = []) then ! authHasDisableAllModelsRule a
        else if ClientSupportsModel r (au_ID a) modelID then true
        else if bool_decide (groups = ∅) then false
        else existsb (λ group, ! String.eqb group "default" &&
                               ClientSupportsModel r (au_ID a) (group +:+ "/" +:+ modelID))
               (elements (groups_to_try groups routeGroup allowedGroups))
    end.

Definition candidateSupportsModel (cfg : option runtimeRoutingConfig) (registryRef : option ModelRegistry)
    (a : Auth) (modelID routeGroup : string) (allowedGroups : gset string) : bool :=
  candidateSupportsModelOpts cfg registryRef a modelID routeGroup allowedGroups false.

End gates.

(** ** Codex Alpha Search *)

Definition SupportsCodexAlphaSearch (a : Auth) : bool :=
  if ! String.eqb (au_Provider a) "codex" then false
  else if ! String.eqb (TrimSpace (attr (au_Attributes a) "api_key")) "" then
    String.eqb (attr (au_Attributes a) "alpha_search") "true" &&
    ! String.eqb (TrimSpace (attr (au_Attributes a) "base_url")) ""
  else ! String.eqb (TrimSpace (default "" (metadata_text a "access_token"))) "".

(** ** Lemmas *)

(** A printed number has no space around it. *)
Lemma digit_not_space c : is_digit c = true → is_space c = false.
Proof. unfold is_digit, is_space. rewrite andb_true_iff, !Nat.leb_le. intros. apply orb_false_iff.
  split; [apply Nat.eqb_neq; lia|]. apply andb_false_iff. right. apply Nat.leb_gt. lia. Qed.

Lemma TrimSpace_solid c r r' d : String c r = str_snoc r' d → is_space c = false → is_space d = false →
  TrimSpace (String c r) = String c r.
Proof.
  intros E Hc Hd. unfold TrimSpace, TrimFunc.
  assert (Hl : TrimLeft is_space (String c r) = String c r) by (simpl; by rewrite Hc).
  assert (Hr : TrimLeft is_space (String d (str_rev r')) = String d (str_rev r')) by (simpl; by rewrite Hd).
  rewrite Hl, E, str_snoc_app, str_rev_app. change (str_rev (String d "") +:+ str_rev r') with (String d (str_rev r')).
  rewrite Hr. change (str_rev (String d (str_rev r'))) with (str_snoc (str_rev (str_rev r')) d).
  by rewrite str_rev_rev, str_snoc_app.
Qed.

Lemma Itoa_solid z : TrimSpace (Itoa z) = Itoa z ∧ Itoa z ≠ "".
Proof.
  destruct z as [|p|p]; [done|rewrite Itoa_pos|rewrite Itoa_neg].
  - destruct (pretty_N_head (N.pos p)) as (c & r & E & Hc), (pretty_N_last (N.pos p)) as (r' & d & E' & Hd).
    rewrite E in *. split; [|done]. by eapply TrimSpace_solid; eauto using digit_not_space.
  - destruct (pretty_N_last (N.pos p)) as (r' & d & E' & Hd). split; [|done].
    eapply (TrimSpace_solid _ _ (String "-"%char r') d); [simpl; by rewrite E'|done|by apply digit_not_space].
Qed.

(** ** The weight of a credential in its groups *)

Section group_weight.
Context {RO : RangeOrder} {J : GoJSON}.

(** [w] is configured for the credential by one of the groups in scope. *)
Definition weighs (c : runtimeRoutingConfig) (a : Auth) (scopedGroups : gset string) (w : Z) : Prop :=
  ∃ group name, group ∈ rt_ChannelGroups c ∧
    normalizeGroupName (gr_Name group) ∈ authGroups (Some c) a ∧
    normalizeGroupName (gr_Name group) ∈ scopedGroups ∧
    sc_ChannelWeights (gr_Scheduling group) !! name = Some w ∧ authMatchesChannelName a name = true.

(** A running best is the greatest of what was offered and of what there was. *)
Definition best_of (P : Z → Prop) (best : option Z) : Prop :=
  match best with
  | None => ∀ w, ¬ P w
  | Some b => P b ∧ ∀ w, P w → w ≤ b
  end.

Lemma best_of_ext P Q best : (∀ w, P w ↔ Q w) → best_of P best → best_of Q best.
Proof. intros H. destruct best; simpl; [|naive_solver]. intros [Hb Hm]. split; naive_solver. Qed.

Lemma weight_fold a l P best : best_of P best →
  best_of (λ w, P w ∨ ∃ name, (name, w) ∈ l ∧ authMatchesChannelName a name = true)
    (foldl (weight_step a) best l).
Proof.
  revert P best. induction l as [|[name weight] l IH]; intros P best Hb; cbn [foldl].
  { eapply best_of_ext; [|done]. set_solver. }
  eapply best_of_ext; [|apply (IH (λ w, P w ∨ (w = weight ∧ authMatchesChannelName a name = true)))].
  - intros w. setoid_rewrite elem_of_cons. naive_solver.
  - unfold weight_step. destruct (authMatchesChannelName a name); cbn [andb].
    + destruct best as [b|]; simpl in *.
      * destruct Hb as [Hp Hb]. destruct (Z.ltb_spec b weight); simpl; (split; [naive_solver|]).
        all: intros w [Hw|[-> _]]; [apply Hb in Hw|]; lia.
      * split; [naive_solver|]. intros w [Hw|[-> _]]; [by destruct (Hb w)|lia].
    + eapply best_of_ext; [|done]. naive_solver.
Qed.

Lemma group_fold a groups scoped l P best : best_of P best →
  best_of (λ w, P w ∨ ∃ group name, group ∈ l ∧ normalizeGroupName (gr_Name group) ∈ groups ∧
      normalizeGroupName (gr_Name group) ∈ scoped ∧
      sc_ChannelWeights (gr_Scheduling group) !! name = Some w ∧ authMatchesChannelName a name = true)
    (foldl (group_weight_step a groups scoped) best l).
Proof.
  revert P best. induction l as [|g l IH]; intros P best Hb; cbn [foldl].
  { eapply best_of_ext; [|done]. set_solver. }
  set (Q := λ w, P w ∨ ∃ name, normalizeGroupName (gr_Name g) ∈ groups ∧
      normalizeGroupName (gr_Name g) ∈ scoped ∧
      sc_ChannelWeights (gr_Scheduling g) !! name = Some w ∧ authMatchesChannelName a name = true).
  eapply best_of_ext; [|apply (IH Q)].
  - intros w. subst Q. setoid_rewrite elem_of_cons. naive_solver.
  - unfold group_weight_step. destruct (bool_decide_reflect (normalizeGroupName (gr_Name g) ∈ groups)); cbn [negb];
      [|eapply best_of_ext; [|done]; subst Q; naive_solver].
    destruct (bool_decide_reflect (normalizeGroupName (gr_Name g) ∈ scoped)); cbn [negb];
      [|eapply best_of_ext; [|done]; subst Q; naive_solver].
    eapply best_of_ext; [|by apply weight_fold]. intros w. subst Q. simpl. setoid_rewrite elem_of_range. naive_solver.
Qed.

Lemma derivedGroupWeight_best c a scoped : best_of (weighs c a scoped) (derivedGroupWeight (Some c) a scoped).
Proof.
  unfold derivedGroupWeight. destruct (bool_decide_reflect (scoped = ∅)) as [->|Hs].
  { intros w (? & ? & _ & _ & H & _). set_solver. }
  destruct (bool_decide_reflect (authGroups (Some c) a = ∅)) as [E|Hg].
  { intros w (? & ? & _ & H & _). rewrite E in H. set_solver. }
  eapply best_of_ext; [|apply (group_fold a _ _ _ (λ _, False)); simpl; naive_solver].
  unfold weighs. naive_solver.
Qed.

(** The weight an operator gives a credential in the channel groups of a request
    decides its share, whatever weight is written on the credential: selection sees the
    largest weight that the groups in scope configure for one of its channel names, in
    whatever order the map of weights is read, and a negative weight counts as zero. *)
Lemma group_weight_governs c a routeGroup allowedGroups w :
  in_int64 w → weighs c a (priorityScopeGroups routeGroup allowedGroups) w →
  (∀ w', weighs c a (priorityScopeGroups routeGroup allowedGroups) w' → w' ≤ w) →
  authSelectionWeight (Some (prepareCandidateForSelection (Some c) a routeGroup allowedGroups)) = Z.max 0 w.
Proof.
  intros Hr Hw Hmax. unfold prepareCandidateForSelection.
  pose proof (derivedGroupWeight_best c a (priorityScopeGroups routeGroup allowedGroups)) as Hb.
  destruct (derivedGroupWeight _ _ _) as [b|]; [|by destruct (Hb w)].
  assert (b = w) as -> by (destruct Hb as [Hb1 Hb2]; apply Z.le_antisymm; auto).
  unfold authSelectionWeight, parseWeightAttribute, attr. cbn [set_Attributes au_Attributes].
  rewrite lookup_insert_eq. destruct (Itoa_solid w) as [Hs Hne%String.eqb_neq].
  change (default EmptyString (Some (Itoa w))) with (Itoa w).
  rewrite Hs, Hne, (Atoi_Itoa w Hr). destruct (Z.leb_spec w 0); lia.
Qed.

End group_weight.

Definition weights (l : list (string * Z)) : runtimeGroupScheduling :=
  MkScheduling "weighted" false 0 f64_zero (list_to_map l).

(** Two groups weigh one account; its own attribute says 9. *)
Definition weighted_routing : runtimeRoutingConfig :=
  MkRouting "" true
    [MkGroup "team" (weights [("alice", 5); ("bob", 7)]) (MkMatch [] ["alice"] []) false [] [];
     MkGroup "default" (weights [("Alice", 3)]) (MkMatch [] [] []) false [] []].

Definition alice : Auth :=
  auth_new "a" "alice" {["selection_weight" := "9"]} ∅.

Lemma group_weight_governs_witness :
  authSelectionWeight (Some (prepareCandidateForSelection (RO := listing_order) (J := no_json)
    (Some weighted_routing) alice "" {["team"; "default"]})) = 5.
Proof.
  apply (group_weight_governs (RO := listing_order) (J := no_json) weighted_routing alice "" {["team"; "default"]} 5).
  - unfold in_int64, two63. lia.
  - exists (MkGroup "team" (weights [("alice", 5); ("bob", 7)]) (MkMatch [] ["alice"] []) false [] []), "alice".
    split; [left|]. vm_compute. done.
  - intros w (g & n & Hg & _ & _ & Hn & Hm). unfold weighted_routing in Hg. cbn [rt_ChannelGroups] in Hg.
    apply elem_of_cons in Hg as [->|[->|[]%not_elem_of_nil]%elem_of_cons]; cbn [sc_ChannelWeights gr_Scheduling weights] in Hn.
    + apply elem_of_list_to_map_2 in Hn. apply elem_of_cons in Hn as [[= -> ->]|[[= -> ->]|[]%not_elem_of_nil]%elem_of_cons];
        [lia|]. vm_compute in Hm. discriminate.
    + apply elem_of_list_to_map_2 in Hn. apply elem_of_cons in Hn as [[= -> ->]|[]%not_elem_of_nil]. lia.
Defined.
