(* ===== verification/RoutingConfig.v ===== *)
(** * The routing section of the configuration

    Models [src/internal/config/routing_groups.go] and [routing_scheduling.go]: what
    [SanitizeRouting] makes of the channel groups and path routes an operator wrote, the
    upgrade of groups that predate the scheduling block, and the part of
    [newRuntimeConfigSnapshot] ([conductor_runtime_snapshot.go]) that hands the result to
    the selectors. A sanitized configuration is well formed, and sanitizing it again
    changes nothing but the limit of an unbounded sticky session.

    [NormalizeNamespacePath] reads URLs: [url.Parse] and the letters of Unicode above
    ASCII are the class [RouteURL]. *)
From S2P Require Import Prelude GoModel ModelNames AuthTypes GroupModels RoutingGroups.
From Stdlib Require Import Ascii SpecFloat.

(** ** The data *)

Record GroupStickyConfig := MkSticky { st_Enabled : bool; st_MaxRequests : Z; st_ReleaseAtLoad : float64 }.

Record GroupScheduling := MkGroupScheduling {
  gs_Distribution : string; gs_Sticky : GroupStickyConfig; gs_ChannelWeights : gmap string Z }.

Record ChannelGroupMatch := MkGroupMatch {
  cm_Prefixes : list string; cm_Channels : list string; cm_Tags : list string }.

Record RoutingChannelGroup := MkChannelGroup {
  cg_Name : string; cg_Description : string; cg_Strategy : string; cg_Scheduling : GroupScheduling;
  cg_Match : ChannelGroupMatch; cg_ExcludeFromDefault : bool; cg_Priority : Z;
  cg_ChannelPriorities : gmap string Z; cg_AllowedModels : list string; cg_ExcludedModels : list string }.

Record RoutingPathRoute := MkPathRoute {
  pr_Path : string; pr_Group : string; pr_StripPrefix : bool; pr_Fallback : string }.

Record RoutingConfig := MkRoutingConfig {
  rc_Strategy : string; rc_IncludeDefaultGroup : bool;
  rc_ChannelGroups : list RoutingChannelGroup; rc_PathRoutes : list RoutingPathRoute }.

(** The zero value of [GroupStickyConfig]. *)
Definition no_sticky : GroupStickyConfig := MkSticky false 0 f64_zero.

Definition DistributionWeighted : string := "weighted".
Definition DistributionLeastLoad : string := "least-load".
Definition DistributionFillFirst : string := "fill-first".
Definition DefaultStickyMaxRequests : Z := 200.

(** ** Lists without repetitions

    The loop that keeps the first element of each key; [keep] is the guard before it. *)
Fixpoint keep_first {A} (keep : A → bool) (key : A → string) (seen : gset string) (l : list A) : list A :=
  match l with
  | [] => []
  | x :: l =>
      if ! keep x then keep_first keep key seen l
      else if bool_decide (key x ∈ seen) then keep_first keep key seen l
      else x :: keep_first keep key ({[key x]} ∪ seen) l
  end.

Section keep_first.
Context {A : Type} (keep : A → bool) (key : A → string).

Lemma keep_first_sound seen l :
  NoDup (map key (keep_first keep key seen l)) ∧
  Forall (λ x, x ∈ l ∧ keep x = true ∧ key x ∉ seen) (keep_first keep key seen l).
Proof.
  revert seen. induction l as [|x l IH]; intros seen; simpl; [by split; constructor|].
  destruct (keep x) eqn:Hk; simpl; [|destruct (IH seen) as [H1 H2]; split; [done|];
    eapply Forall_impl; [exact H2|]; intros y (?&?&?); split_and!; [by right|done|done]].
  destruct (bool_decide_reflect (key x ∈ seen)) as [Hs|Hs].
  - destruct (IH seen) as [H1 H2]. split; [done|]. eapply Forall_impl; [exact H2|].
    intros y (?&?&?). split_and!; [by right|done|done].
  - destruct (IH ({[key x]} ∪ seen)) as [H1 H2]. simpl. split.
    + constructor; [|done]. intros Hin. apply list_elem_of_fmap in Hin as (y & Hy & Hin).
      rewrite Forall_forall in H2. destruct (H2 y Hin) as (_ & _ & H). set_solver.
    + constructor; [split_and!; [by left|done|done]|]. eapply Forall_impl; [exact H2|].
      intros y (?&?&H). split_and!; [by right|done|set_solver].
Qed.

Lemma keep_first_whole seen l :
  NoDup (map key l) → Forall (λ x, keep x = true ∧ key x ∉ seen) l → keep_first keep key seen l = l.
Proof.
  revert seen. induction l as [|x l IH]; intros seen Hn Hf; simpl; [done|].
  apply NoDup_cons in Hn as [Hx Hn]. apply Forall_cons in Hf as [[Hk Hs] Hf]. rewrite Hk. simpl.
  rewrite bool_decide_false by done. f_equal. apply IH; [done|].
  apply Forall_forall. intros y Hy. rewrite Forall_forall in Hf. destruct (Hf y Hy) as [? ?].
  split; [done|]. apply not_elem_of_union. split; [|done]. rewrite not_elem_of_singleton.
  intros E. apply Hx. rewrite <-E. apply list_elem_of_fmap. by exists y.
Qed.

(** Every key of a kept element survives. *)
Lemma keep_first_complete seen l x : x ∈ l → keep x = true → key x ∉ seen →
  ∃ y, y ∈ keep_first keep key seen l ∧ key y = key x.
Proof.
  revert seen. induction l as [|z l IH]; intros seen Hin Hk Hs; [by apply not_elem_of_nil in Hin|]. simpl.
  apply elem_of_cons in Hin as [<-|Hin].
  - rewrite Hk. simpl. rewrite bool_decide_false by done. exists x. split; [by left|done].
  - destruct (keep z) eqn:Ez; simpl; [|by apply IH].
    destruct (bool_decide_reflect (key z ∈ seen)) as [Hz|Hz]; [by apply IH|].
    destruct (decide (key x = key z)) as [E|E]; [exists z; split; [by left|done]|].
    destruct (IH ({[key z]} ∪ seen) Hin Hk ltac:(set_solver)) as (y & Hy & E'). exists y. split; [by right|done].
Qed.

End keep_first.

Definition nonblank (s : string) : bool := ! String.eqb s "".

Definition normalizeStringList (values : list string) (normalizer : string → string) : list string :=
  keep_first nonblank ToLower ∅ (map (λ value, normalizer (TrimSpace value)) values).

(** ** Weights *)

Section sanitize.
Context {RO : RangeOrder}.

(** One entry: blank names and negative weights are dropped, the greater of two wins. *)
Definition weight_step (out : gmap string Z) (entry : string * Z) : gmap string Z :=
  let '(key, weight) := entry in
  let name := TrimSpace key in
  if (String.eqb name "" || (weight <? 0)) then out
  else match out !! name with
       | Some existing => if weight <=? existing then out else <[name := weight]> out
       | None => <[name := weight]> out
       end.

Definition normalizeChannelWeights (values : gmap string Z) : gmap string Z :=
  foldl weight_step ∅ (range_order 60 values).

Definition priority_step (out : gmap string Z) (entry : string * Z) : gmap string Z :=
  let '(key, priority) := entry in
  let name := TrimSpace key in
  if (String.eqb name "" || (priority <? 0)) then out
  else match out !! name with
       | Some existing => if existing <? priority then <[name := priority]> out else out
       | None => <[name := priority]> out
       end.

Definition normalizeChannelPriorities (values : gmap string Z) : gmap string Z :=
  foldl priority_step ∅ (range_order 61 values).

Definition MigrateLegacyPriorities (priorities : gmap string Z) : gmap string Z :=
  if existsb (λ entry, 0 <? snd entry) (range_order 62 priorities) then priorities else ∅.

Definition ExplicitWeightsAllZero (scheduling : GroupScheduling) : bool :=
  if bool_decide (gs_ChannelWeights scheduling = ∅) then false
  else ! existsb (λ entry, 0 <? snd entry) (range_order 63 (gs_ChannelWeights scheduling)).

(** ** Strategies and distributions *)

Definition NormalizeDistribution (value : string) : string :=
  let v := TrimSpace (ToLower value) in
  if (String.eqb v "least-load" || String.eqb v "leastload" || String.eqb v "ll") then DistributionLeastLoad
  else if (String.eqb v "fill-first" || String.eqb v "fillfirst" || String.eqb v "ff") then DistributionFillFirst
  else DistributionWeighted.

Definition NormalizeRoutingStrategy (strategy : string) : string :=
  let v := TrimSpace (ToLower strategy) in
  if (String.eqb v "session-sticky" || String.eqb v "sessionsticky" || String.eqb v "sticky" ||
      String.eqb v "ss") then "session-sticky"
  else if (String.eqb v "fill-first" || String.eqb v "fillfirst" || String.eqb v "ff") then "fill-first"
  else "round-robin".

Definition NormalizeRoutingTag (value : string) : string :=
  let trimmed := TrimSpace (ToLower value) in
  if String.eqb trimmed "" then "" else Join (Fields trimmed) "-".

Definition normalizeOptionalRoutingStrategy (strategy : string) : string :=
  if String.eqb (TrimSpace strategy) "" then "" else NormalizeRoutingStrategy strategy.

Definition legacyStrategyForScheduling (scheduling : GroupScheduling) : string :=
  if st_Enabled (gs_Sticky scheduling) then "session-sticky"
  else if String.eqb (gs_Distribution scheduling) DistributionFillFirst then "fill-first"
  else "round-robin".

Definition schedulingFromLegacy (strategy : string) (priorities : gmap string Z) : GroupScheduling :=
  let weights := MigrateLegacyPriorities priorities in
  let strategy := NormalizeRoutingStrategy strategy in
  if String.eqb strategy "session-sticky" then
    MkGroupScheduling DistributionWeighted (MkSticky true 0 f64_zero) weights
  else if String.eqb strategy "fill-first" then MkGroupScheduling DistributionFillFirst no_sticky weights
  else MkGroupScheduling DistributionWeighted no_sticky weights.

Definition with_max (max : Z) (s : GroupScheduling) : GroupScheduling :=
  MkGroupScheduling (gs_Distribution s)
    (MkSticky (st_Enabled (gs_Sticky s)) max (st_ReleaseAtLoad (gs_Sticky s))) (gs_ChannelWeights s).

Definition SchedulingFromLegacyGroup (group : RoutingChannelGroup) : GroupScheduling :=
  let scheduling := schedulingFromLegacy (cg_Strategy group) (cg_ChannelPriorities group) in
  if (st_Enabled (gs_Sticky scheduling) && (st_MaxRequests (gs_Sticky scheduling) =? 0))
  then with_max DefaultStickyMaxRequests scheduling else scheduling.

(** The scheduling block of a group is absent. *)
Definition no_scheduling (s : GroupScheduling) : bool :=
  (String.eqb (TrimSpace (gs_Distribution s)) "" && (! st_Enabled (gs_Sticky s)) &&
   bool_decide (gs_ChannelWeights s = ∅)).

Definition sanitizeSticky (s : GroupStickyConfig) : GroupStickyConfig :=
  if ! st_Enabled s then no_sticky
  else
    let max := if st_MaxRequests s =? 0 then DefaultStickyMaxRequests else st_MaxRequests s in
    let max := if max <? 0 then 0 else max in
    let r := st_ReleaseAtLoad s in
    let r := if (f64_lt r f64_zero || is_NaN r) then f64_zero else r in
    let r := if f64_lt (f64_of_int 1) r then f64_of_int 1 else r in
    MkSticky (st_Enabled s) max r.

Definition sanitizeScheduling (group : RoutingChannelGroup) : RoutingChannelGroup :=
  let migrated := no_scheduling (cg_Scheduling group) in
  let scheduling := if migrated
    then schedulingFromLegacy (cg_Strategy group) (cg_ChannelPriorities group) else cg_Scheduling group in
  let weights := normalizeChannelWeights (gs_ChannelWeights scheduling) in
  let weights :=
    if ((! migrated) && bool_decide (weights = ∅) && (! bool_decide (cg_ChannelPriorities group = ∅)))
    then normalizeChannelWeights (MigrateLegacyPriorities (cg_ChannelPriorities group)) else weights in
  let scheduling := MkGroupScheduling (NormalizeDistribution (gs_Distribution scheduling))
    (sanitizeSticky (gs_Sticky scheduling)) weights in
  MkChannelGroup (cg_Name group) (cg_Description group) (legacyStrategyForScheduling scheduling) scheduling
    (cg_Match group) (cg_ExcludeFromDefault group) (cg_Priority group)
    (normalizeChannelWeights weights) (cg_AllowedModels group) (cg_ExcludedModels group).

(** ** Paths *)

(** [url_path s] is [Some p] when [url.Parse] reads a scheme and a host in [s], with [p]
    the path after [url.PathUnescape]; [wide_letters s] says that the runes of [s] above
    ASCII are letters or digits. A URL with a scheme starts with a letter. *)
Class RouteURL := {
  url_path : string → option string;
  wide_letters : string → bool;
  url_path_rooted : ∀ s, url_path (String "/"%char s) = None }.

Definition wide (c : ascii) : bool := (128 <=? nat_of_ascii c)%nat.

Definition path_char (c : ascii) : bool :=
  let n := nat_of_ascii c in
  (((65 <=? n)%nat && (n <=? 90)%nat) || ((97 <=? n)%nat && (n <=? 122)%nat) || is_digit c ||
   Ascii.eqb c "_" || Ascii.eqb c "-").

Context {RU : RouteURL}.

Definition segment_ok (segment : string) : bool :=
  ((! String.eqb segment "") && all_chars (λ c, (wide c || path_char c)) segment && wide_letters segment).

Definition NormalizeNamespacePath (value : string) : string :=
  let trimmed := TrimSpace value in
  if String.eqb trimmed "" then ""
  else
    let trimmed := default trimmed (url_path trimmed) in
    let trimmed := fst (split_at (λ c, (Ascii.eqb c "?" || Ascii.eqb c "#")) trimmed) in
    let trimmed := TrimByte "/"%char trimmed in
    if String.eqb trimmed "" then ""
    else if forallb segment_ok (SplitByte "/"%char trimmed) then String "/"%char trimmed else "".

Definition NormalizeFallback (value : string) : string :=
  let v := ToLower (TrimSpace value) in
  if (String.eqb v "" || String.eqb v "none") then "none"
  else if String.eqb v "default" then "default" else "none".

(** ** The whole section *)

Definition sanitize_match (m : ChannelGroupMatch) : ChannelGroupMatch :=
  MkGroupMatch (normalizeStringList (cm_Prefixes m) normalizeGroupName)
    (normalizeStringList (cm_Channels m) TrimSpace) (normalizeStringList (cm_Tags m) NormalizeRoutingTag).

(** The body of the loop over the groups: the assignments before [sanitizeScheduling],
    and the whole of it up to the checks of the name. *)
Definition normalize_fields (group : RoutingChannelGroup) : RoutingChannelGroup :=
  let name := normalizeGroupName (cg_Name group) in
  MkChannelGroup name (TrimSpace (cg_Description group)) (normalizeOptionalRoutingStrategy (cg_Strategy group))
    (cg_Scheduling group) (sanitize_match (cg_Match group))
    (if String.eqb name "default" then false else cg_ExcludeFromDefault group) (cg_Priority group)
    (normalizeChannelPriorities (cg_ChannelPriorities group)) (cg_AllowedModels group)
    (cg_ExcludedModels group).

Definition sanitize_group (group : RoutingChannelGroup) : RoutingChannelGroup :=
  let group := sanitizeScheduling (normalize_fields group) in
  MkChannelGroup (cg_Name group) (cg_Description group) (cg_Strategy group) (cg_Scheduling group)
    (cg_Match group) (cg_ExcludeFromDefault group) (cg_Priority group) (cg_ChannelPriorities group)
    (normalizeStringList (cg_AllowedModels group) TrimSpace)
    (normalizeStringList (cg_ExcludedModels group) TrimSpace).

Definition sanitize_route (route : RoutingPathRoute) : RoutingPathRoute :=
  MkPathRoute (NormalizeNamespacePath (pr_Path route)) (normalizeGroupName (pr_Group route))
    (pr_StripPrefix route) (NormalizeFallback (pr_Fallback route)).

Definition SanitizeRouting (cfg : RoutingConfig) : RoutingConfig :=
  MkRoutingConfig (NormalizeRoutingStrategy (rc_Strategy cfg)) (rc_IncludeDefaultGroup cfg)
    (keep_first (λ g, nonblank (cg_Name g)) cg_Name ∅ (map sanitize_group (rc_ChannelGroups cfg)))
    (keep_first (λ r, (nonblank (pr_Path r) && nonblank (pr_Group r))) pr_Path ∅
       (map sanitize_route (rc_PathRoutes cfg))).

(** [SanitizeAPIKeyEntries], for the groups of one key. *)
Definition sanitizeAllowedGroups (groups : list string) : list string :=
  normalizeStringList groups normalizeGroupName.

(** ** The snapshot the selectors read *)

Definition normalizeOptionalRuntimeRoutingStrategy (strategy : string) : string :=
  let v := ToLower (TrimSpace strategy) in
  if String.eqb v "" then ""
  else if (String.eqb v "session-sticky" || String.eqb v "sessionsticky" || String.eqb v "sticky" ||
           String.eqb v "ss") then "session-sticky"
  else if (String.eqb v "fill-first" || String.eqb v "fillfirst" || String.eqb v "ff") then "fill-first"
  else "round-robin".

Definition cloneRuntimeGroupScheduling (group : RoutingChannelGroup) : runtimeGroupScheduling :=
  let s := cg_Scheduling group in
  let s := if no_scheduling s then
      let strategy := normalizeOptionalRuntimeRoutingStrategy (cg_Strategy group) in
      let weights := MigrateLegacyPriorities (cg_ChannelPriorities group) in
      if String.eqb strategy "session-sticky" then
        MkGroupScheduling DistributionWeighted
          (MkSticky true DefaultStickyMaxRequests (st_ReleaseAtLoad (gs_Sticky s))) weights
      else if String.eqb strategy "fill-first" then MkGroupScheduling DistributionFillFirst (gs_Sticky s) weights
      else MkGroupScheduling DistributionWeighted (gs_Sticky s) weights
    else s in
  MkScheduling (NormalizeDistribution (gs_Distribution s)) (st_Enabled (gs_Sticky s))
    (st_MaxRequests (gs_Sticky s)) (st_ReleaseAtLoad (gs_Sticky s)) (gs_ChannelWeights s).

(** The fields that nothing reads from the snapshot (strategy, priority, legacy
    priorities) are left out of [runtimeRoutingChannelGroup]. *)
Definition cloneRuntimeRoutingChannelGroup (group : RoutingChannelGroup) : runtimeRoutingChannelGroup :=
  MkGroup (cg_Name group) (cloneRuntimeGroupScheduling group)
    (MkMatch (cm_Prefixes (cg_Match group)) (cm_Channels (cg_Match group)) (cm_Tags (cg_Match group)))
    (cg_ExcludeFromDefault group) (cg_AllowedModels group) (cg_ExcludedModels group).

(** [newRuntimeConfigSnapshot(cfg).Routing] *)
Definition runtime_routing (cfg : RoutingConfig) : runtimeRoutingConfig :=
  MkRouting (normalizeOptionalRuntimeRoutingStrategy (rc_Strategy cfg)) (rc_IncludeDefaultGroup cfg)
    (map cloneRuntimeRoutingChannelGroup (rc_ChannelGroups cfg)).

End sanitize.

(** ** Weights: the greatest of the entries of a name, in whatever order they come *)

Section weights.
Context {RO : RangeOrder}.

Lemma priority_step_weight out e : priority_step out e = weight_step out e.
Proof.
  destruct e as [k w]. unfold priority_step, weight_step. destruct (_ || _); [done|].
  destruct (out !! TrimSpace k) as [x|]; [|done].
  by destruct (Z.ltb_spec x w), (Z.leb_spec w x); [lia| | |lia].
Qed.

Definition heaviest (l : list (string * Z)) (out : gmap string Z) : Prop :=
  (∀ n w, out !! n = Some w → n ≠ "" ∧ 0 ≤ w ∧ ∃ k, (k, w) ∈ l ∧ TrimSpace k = n) ∧
  (∀ k w, (k, w) ∈ l → TrimSpace k ≠ "" → 0 ≤ w → ∃ w', out !! TrimSpace k = Some w' ∧ w ≤ w').

Lemma heaviest_fold l : heaviest l (foldl weight_step ∅ l).
Proof.
  induction l as [|[k w] l [IH1 IH2]] using rev_ind.
  { simpl. split; [by intros n w; rewrite lookup_empty|]. intros k w H. destruct (not_elem_of_nil _ H). }
  rewrite foldl_app. simpl. set (out := foldl weight_step ∅ l) in *.
  assert (Hold : ∀ n v, out !! n = Some v → n ≠ "" ∧ 0 ≤ v ∧ ∃ k', (k', v) ∈ l ++ [(k, w)] ∧ TrimSpace k' = n).
  { intros n v H. destruct (IH1 n v H) as (?&?&k'&?&?). split_and!; [done|done|]. exists k'. set_solver. }
  assert (Hset : TrimSpace k ≠ "" → 0 ≤ w → (∀ v, out !! TrimSpace k = Some v → v ≤ w) →
      heaviest (l ++ [(k, w)]) (<[TrimSpace k := w]> out)).
  { intros Hn Hw Hmax. split.
    - intros n v. rewrite lookup_insert_Some. intros [[<- <-]|[_ H]]; [|by apply Hold].
      split_and!; [done|done|]. exists k. set_solver.
    - intros k' v Hin Hk' Hv. destruct (decide (TrimSpace k' = TrimSpace k)) as [E|E].
      + rewrite E, lookup_insert_eq. exists w. split; [done|].
        apply elem_of_app in Hin as [Hin|Hin]; [|apply list_elem_of_singleton in Hin; by simplify_eq].
        destruct (IH2 k' v Hin Hk' Hv) as (v' & Hv' & ?). rewrite E in Hv'. specialize (Hmax _ Hv'). lia.
      + rewrite lookup_insert_ne by done. apply IH2; [|done|done].
        apply elem_of_app in Hin as [Hin|Hin]; [done|]. apply list_elem_of_singleton in Hin. by simplify_eq. }
  assert (Hkeep : (TrimSpace k ≠ "" → 0 ≤ w → ∃ v, out !! TrimSpace k = Some v ∧ w ≤ v) →
      heaviest (l ++ [(k, w)]) out).
  { intros H. split; [done|]. intros k' v Hin Hk' Hv. apply elem_of_app in Hin as [Hin|Hin]; [by apply IH2|].
    apply list_elem_of_singleton in Hin. simplify_eq. by apply H. }
  destruct (String.eqb_spec (TrimSpace k) "") as [E|E]; simpl; [by apply Hkeep|].
  destruct (Z.ltb_spec w 0) as [Hw|Hw]; [apply Hkeep; lia|].
  destruct (out !! TrimSpace k) as [v|] eqn:Ev; [|by apply Hset].
  destruct (Z.leb_spec w v) as [Hv|Hv]; [apply Hkeep; eauto|]. apply Hset; [done|done|]. intros ? [= <-]. lia.
Qed.

(** Names without blanks at their ends, and weights that are not negative. *)
Definition ok_weights (m : gmap string Z) : Prop :=
  ∀ k v, m !! k = Some v → TrimSpace k = k ∧ k ≠ "" ∧ 0 ≤ v.

Lemma heaviest_ok l out : heaviest l out → ok_weights out.
Proof. intros [H _] k v Hk. destruct (H k v Hk) as (?&?&k'&_&<-). by rewrite TrimSpace_idem. Qed.

Lemma normalizeChannelWeights_heaviest m : heaviest (range_order 60 m) (normalizeChannelWeights m).
Proof. apply heaviest_fold. Qed.

Lemma normalizeChannelPriorities_eq m :
  normalizeChannelPriorities m = foldl weight_step ∅ (range_order 61 m).
Proof.
  unfold normalizeChannelPriorities. generalize (∅ : gmap string Z) as out.
  induction (range_order 61 m) as [|e l IH]; intros out; simpl; [done|]. by rewrite priority_step_weight.
Qed.

Lemma heaviest_id site m out : ok_weights m → heaviest (range_order site m) out → out = m.
Proof.
  intros Hm [H1 H2]. apply map_eq. intros n.
  assert (Hin : ∀ w, out !! n = Some w → m !! n = Some w).
  { intros w Hw. destruct (H1 n w Hw) as (_&_&k&Hk&E). apply elem_of_range in Hk.
    destruct (Hm k w Hk) as [Ek _]. congruence. }
  destruct (m !! n) as [w|] eqn:E.
  - destruct (Hm n w E) as (En & Hn & Hw).
    destruct (H2 n w) as (w' & Hw' & _); [by apply elem_of_range|congruence|done|].
    rewrite En in Hw'. rewrite Hw'. symmetry. by rewrite <-(Hin w' Hw').
  - destruct (out !! n) as [w|]; [|done]. by specialize (Hin w eq_refl).
Qed.

Lemma normalizeChannelWeights_ok m : ok_weights (normalizeChannelWeights m).
Proof. eapply heaviest_ok, normalizeChannelWeights_heaviest. Qed.

Lemma normalizeChannelWeights_id m : ok_weights m → normalizeChannelWeights m = m.
Proof. intros H. by apply (heaviest_id 60), normalizeChannelWeights_heaviest. Qed.

Lemma normalizeChannelPriorities_id m : ok_weights m → normalizeChannelPriorities m = m.
Proof. intros H. apply (heaviest_id 61); [done|]. rewrite normalizeChannelPriorities_eq. apply heaviest_fold. Qed.

End weights.

(** ** Texts all of whose bytes satisfy a test *)

Section all_chars.
Variable p : ascii → bool.

Lemma all_chars_fields word s : all_chars p word = true → all_chars p s = true →
  Forall (λ f, all_chars p f = true) (fields_from word s).
Proof.
  revert word. induction s as [|c s IH]; intros word Hw Hs; simpl in *.
  - destruct (String.eqb word ""); by repeat constructor.
  - apply andb_true_iff in Hs as [Hc Hs]. destruct (is_space c).
    + destruct (String.eqb word ""); [by apply IH|]. constructor; [done|by apply IH].
    + apply IH; [|done]. rewrite str_snoc_app, all_chars_app. simpl. by rewrite Hw, Hc.
Qed.

Lemma all_chars_Split c s : forallb (all_chars p) (SplitByte c s) = true →
  all_chars (λ d, Ascii.eqb c d || p d)%bool s = true.
Proof.
  induction s as [|d s IH]; [done|]. simpl. destruct (Ascii.eqb c d) eqn:E; simpl; [by apply IH|].
  destruct (SplitByte_cons c s) as (x & xs & Hx). rewrite Hx in *. simpl in *.
  rewrite !andb_true_iff. intros [[Hd Hx'] Hxs]. split; [done|]. apply IH. by rewrite Hx', Hxs.
Qed.

Lemma split_at_whole s : all_chars (λ c, negb (p c)) s = true → fst (split_at p s) = s.
Proof.
  induction s as [|c s IH]; [done|]. simpl. intros [Hc H]%andb_true_iff. specialize (IH H).
  destruct (p c); [done|]. destruct (split_at p s) as [a b]. simpl in *. by rewrite IH.
Qed.

End all_chars.

Definition lowered (s : string) : bool := all_chars (λ c, Ascii.eqb (lower_ascii c) c) s.

Lemma fields_spaceless word s : spaceless s = true → word +:+ s ≠ "" → fields_from word s = [word +:+ s].
Proof.
  revert word. induction s as [|c s IH]; intros word Hs Hne; simpl.
  - rewrite str_app_nil_r in *. by destruct (String.eqb_spec word "").
  - unfold spaceless in Hs. simpl in Hs. apply andb_true_iff in Hs as [Hc Hs]. destruct (is_space c); [done|].
    rewrite str_snoc_app, (IH _ Hs); rewrite str_app_assoc; [done|done].
Qed.

Lemma lower_ascii_idem c : lower_ascii (lower_ascii c) = lower_ascii c.
Proof. by destruct c as [[] [] [] [] [] [] [] []]. Qed.

Lemma lowered_ToLower s : lowered (ToLower s) = true.
Proof. unfold lowered. induction s as [|c s IH]; [done|]. simpl.
  by rewrite lower_ascii_idem, (proj2 (Ascii.eqb_eq _ _) eq_refl), IH. Qed.

Lemma lowered_fixed s : lowered s = true → ToLower s = s.
Proof.
  unfold lowered. induction s as [|c s IH]; [done|]. simpl. intros [->%Ascii.eqb_eq H]%andb_true_iff.
  by rewrite (IH H).
Qed.

Lemma fields_from_spaceless word s : spaceless word = true → Forall (λ f, spaceless f = true) (fields_from word s).
Proof.
  revert word. induction s as [|c s IH]; intros word Hw; simpl.
  - destruct (String.eqb word ""); by repeat constructor.
  - destruct (is_space c) eqn:Hc.
    + destruct (String.eqb word ""); [by apply IH|]. constructor; [done|by apply IH].
    + apply IH. unfold spaceless in *. rewrite str_snoc_app, all_chars_app. simpl. by rewrite Hw, Hc.
Qed.

(** A tag is lower-case and holds no blank. *)
Lemma tag_solid value :
  spaceless (NormalizeRoutingTag value) = true ∧ lowered (NormalizeRoutingTag value) = true.
Proof.
  unfold NormalizeRoutingTag. destruct (String.eqb _ ""); [done|]. split.
  - apply all_chars_Join; [done|]. by apply fields_from_spaceless.
  - apply all_chars_Join; [done|]. apply all_chars_fields; [done|].
    apply all_chars_TrimFunc, lowered_ToLower.
Qed.

Lemma tag_fixed value :
  NormalizeRoutingTag (TrimSpace (NormalizeRoutingTag value)) = NormalizeRoutingTag value.
Proof.
  destruct (tag_solid value) as [Hs Hl]. set (t := NormalizeRoutingTag value) in *. clearbody t.
  rewrite (spaceless_TrimSpace _ Hs). unfold NormalizeRoutingTag. rewrite (lowered_fixed _ Hl), (spaceless_TrimSpace _ Hs).
  destruct (String.eqb_spec t "") as [->|Ht]; [done|]. unfold Fields. by rewrite (fields_spaceless "" t Hs Ht).
Qed.

(** ** Lists of the match and of the models *)

Definition no_repeats (l : list string) : Prop := NoDup (map ToLower l) ∧ Forall (λ v, v ≠ "") l.

Lemma normalizeStringList_no_repeats f l : no_repeats (normalizeStringList l f).
Proof.
  unfold normalizeStringList. edestruct (keep_first_sound nonblank ToLower ∅) as [H1 H2].
  split; [exact H1|]. eapply Forall_impl; [exact H2|]. intros v (_ & Hv & _). unfold nonblank in Hv.
  intros ->. done.
Qed.

Lemma normalizeStringList_from f l v : v ∈ normalizeStringList l f → ∃ w, w ∈ l ∧ v = f (TrimSpace w).
Proof.
  unfold normalizeStringList. intros Hv.
  edestruct (keep_first_sound nonblank ToLower ∅ (map (λ value, f (TrimSpace value)) l)) as [_ H2].
  rewrite Forall_forall in H2. destruct (H2 v Hv) as (Hin & _). by apply list_elem_of_fmap in Hin as (w & -> & Hw); eauto.
Qed.

Lemma normalizeStringList_id f l : no_repeats l → Forall (λ v, f (TrimSpace v) = v) l → normalizeStringList l f = l.
Proof.
  intros [Hn Hb] Hf. unfold normalizeStringList.
  assert (map (λ v, f (TrimSpace v)) l = l) as ->.
  { clear Hn Hb. induction Hf as [|v l Hv _ IH]; simpl; [done|]. by rewrite Hv, IH. }
  apply keep_first_whole; [done|]. eapply Forall_impl; [exact Hb|]. intros v Hv. split; [|set_solver].
  unfold nonblank. by destruct (String.eqb_spec v "").
Qed.

(** ** Normal forms *)

Definition strategies : list string := ["session-sticky"; "fill-first"; "round-robin"].
Definition distributions : list string := [DistributionWeighted; DistributionLeastLoad; DistributionFillFirst].

Lemma NormalizeRoutingStrategy_in s : NormalizeRoutingStrategy s ∈ strategies.
Proof. unfold NormalizeRoutingStrategy, strategies. repeat case_match; set_solver. Qed.

Lemma NormalizeDistribution_in s : NormalizeDistribution s ∈ distributions.
Proof. unfold NormalizeDistribution, distributions. repeat case_match; set_solver. Qed.

Lemma strategy_fixed s : s ∈ strategies →
  NormalizeRoutingStrategy s = s ∧ normalizeOptionalRoutingStrategy s = s ∧
  normalizeOptionalRuntimeRoutingStrategy s = s.
Proof. unfold strategies. rewrite !elem_of_cons, elem_of_nil. by intros [->|[->|[->|[]]]]. Qed.

Lemma distribution_fixed d : d ∈ distributions →
  NormalizeDistribution d = d ∧ String.eqb (TrimSpace d) "" = false.
Proof. unfold distributions. rewrite !elem_of_cons, elem_of_nil. by intros [->|[->|[->|[]]]]. Qed.

Lemma legacyStrategy_in s : legacyStrategyForScheduling s ∈ strategies.
Proof. unfold legacyStrategyForScheduling, strategies. repeat case_match; set_solver. Qed.

Lemma NormalizeFallback_in s : NormalizeFallback s ∈ ["none"; "default"].
Proof. unfold NormalizeFallback. repeat case_match; set_solver. Qed.

Lemma fallback_fixed s : s ∈ ["none"; "default"] → NormalizeFallback s = s.
Proof. rewrite !elem_of_cons, elem_of_nil. by intros [->|[->|[]]]. Qed.

(** A share of a quota window: a number between 0 and 1. *)
Definition ratio (f : float64) : Prop :=
  is_NaN f = false ∧ f64_lt f f64_zero = false ∧ f64_lt (f64_of_int 1) f = false.

Record sane_scheduling (s : GroupScheduling) : Prop := {
  sane_distribution : gs_Distribution s ∈ distributions;
  sane_weights : ok_weights (gs_ChannelWeights s);
  sane_max : 0 ≤ st_MaxRequests (gs_Sticky s);
  sane_release : ratio (st_ReleaseAtLoad (gs_Sticky s));
  sane_off : st_Enabled (gs_Sticky s) = false → gs_Sticky s = no_sticky }.

Record sane_group (g : RoutingChannelGroup) : Prop := {
  sane_name : cg_Name g ≠ "" ∧ lowered (cg_Name g) = true ∧ TrimByte "/"%char (cg_Name g) = cg_Name g;
  sane_block : sane_scheduling (cg_Scheduling g);
  sane_mirror : cg_Strategy g = legacyStrategyForScheduling (cg_Scheduling g) ∧
    cg_ChannelPriorities g = gs_ChannelWeights (cg_Scheduling g);
  sane_default : cg_Name g = "default" → cg_ExcludeFromDefault g = false;
  sane_lists : Forall no_repeats [cm_Prefixes (cg_Match g); cm_Channels (cg_Match g); cm_Tags (cg_Match g);
    cg_AllowedModels g; cg_ExcludedModels g] }.

Section sane.
Context {RU : RouteURL}.

Record sane_route (r : RoutingPathRoute) : Prop := {
  sane_path : ∃ t, pr_Path r = String "/"%char t ∧ forallb segment_ok (SplitByte "/"%char t) = true;
  sane_target : pr_Group r ≠ "";
  sane_fallback : pr_Fallback r ∈ ["none"; "default"] }.

Record sane_routing (cfg : RoutingConfig) : Prop := {
  sane_strategy : rc_Strategy cfg ∈ strategies;
  sane_groups : Forall sane_group (rc_ChannelGroups cfg) ∧ NoDup (map cg_Name (rc_ChannelGroups cfg));
  sane_routes : Forall sane_route (rc_PathRoutes cfg) ∧ NoDup (map pr_Path (rc_PathRoutes cfg)) }.

End sane.

(** ** Sanitizing gives a well-formed configuration *)

Section sanitized.
Context {RO : RangeOrder} {RU : RouteURL}.

Lemma sanitizeSticky_sane s :
  0 ≤ st_MaxRequests (sanitizeSticky s) ∧ ratio (st_ReleaseAtLoad (sanitizeSticky s)) ∧
  (st_Enabled (sanitizeSticky s) = false → sanitizeSticky s = no_sticky).
Proof.
  unfold sanitizeSticky. destruct (st_Enabled s); cbn [negb]; [|by split_and!].
  cbn [st_Enabled st_MaxRequests st_ReleaseAtLoad]. split_and!; [|unfold ratio|done].
  { unfold DefaultStickyMaxRequests. destruct (Z.eqb_spec (st_MaxRequests s) 0); [done|].
    destruct (Z.ltb_spec (st_MaxRequests s) 0); lia. }
  destruct (f64_lt (st_ReleaseAtLoad s) f64_zero) eqn:E1; cbn [orb]; [by vm_compute|].
  destruct (is_NaN (st_ReleaseAtLoad s)) eqn:E2; [by vm_compute|].
  destruct (f64_lt (f64_of_int 1) (st_ReleaseAtLoad s)) eqn:E3; [by vm_compute|done].
Qed.

Lemma sanitizeScheduling_sane g :
  let g' := sanitizeScheduling g in
  sane_scheduling (cg_Scheduling g') ∧ cg_Strategy g' = legacyStrategyForScheduling (cg_Scheduling g') ∧
  cg_ChannelPriorities g' = gs_ChannelWeights (cg_Scheduling g').
Proof.
  unfold sanitizeScheduling. cbn -[normalizeChannelWeights NormalizeDistribution sanitizeSticky].
  set (s := if no_scheduling _ then _ else _). set (w := if _ && _ && _ then _ else _).
  assert (Hw : ok_weights w) by (unfold w; case_match; apply normalizeChannelWeights_ok).
  destruct (sanitizeSticky_sane (gs_Sticky s)) as (?&?&?).
  split_and!; [|done|by apply normalizeChannelWeights_id].
  constructor; cbn -[normalizeChannelWeights NormalizeDistribution sanitizeSticky]; try done.
  apply NormalizeDistribution_in.
Qed.

Lemma normalizeGroupName_shape v :
  lowered (normalizeGroupName v) = true ∧
  TrimByte "/"%char (normalizeGroupName v) = normalizeGroupName v.
Proof.
  unfold normalizeGroupName, TrimByte. split; [|apply TrimFunc_idem].
  apply all_chars_TrimFunc, lowered_ToLower.
Qed.

Lemma sanitize_group_name g : cg_Name (sanitize_group g) = normalizeGroupName (cg_Name g).
Proof. done. Qed.

Lemma sanitize_group_sane g : nonblank (cg_Name (sanitize_group g)) = true → sane_group (sanitize_group g).
Proof.
  rewrite sanitize_group_name. intros Hn. destruct (normalizeGroupName_shape (cg_Name g)) as [H1 H2].
  unfold nonblank in Hn. apply negb_true_iff, String.eqb_neq in Hn.
  destruct (sanitizeScheduling_sane (normalize_fields g)) as (?&?&?). constructor.
  - by split_and!.
  - done.
  - by split.
  - intros E. cbn in E |- *. by rewrite E.
  - simpl. repeat constructor; apply normalizeStringList_no_repeats.
Qed.

Lemma NormalizeNamespacePath_shape v : NormalizeNamespacePath v ≠ "" →
  ∃ t, NormalizeNamespacePath v = String "/"%char t ∧ TrimByte "/"%char t = t ∧
    forallb segment_ok (SplitByte "/"%char t) = true.
Proof.
  unfold NormalizeNamespacePath. destruct (String.eqb (TrimSpace v) ""); [done|].
  set (t0 := fst _). destruct (String.eqb _ ""); [done|].
  destruct (forallb segment_ok _) eqn:E; [|done]. intros _. eexists. split; [done|].
  split; [apply TrimFunc_idem|done].
Qed.

Lemma sanitize_route_sane r :
  nonblank (pr_Path (sanitize_route r)) && nonblank (pr_Group (sanitize_route r)) = true →
  sane_route (sanitize_route r).
Proof.
  rewrite andb_true_iff. unfold nonblank. rewrite !negb_true_iff, !String.eqb_neq. intros [Hp Hg].
  constructor; [|done|apply NormalizeFallback_in].
  destruct (NormalizeNamespacePath_shape (pr_Path r) Hp) as (t & Ht & _ & Hs). by exists t.
Qed.

(** What the two loops keep. *)
Lemma sanitized_groups cfg : let gs := rc_ChannelGroups (SanitizeRouting cfg) in
  NoDup (map cg_Name gs) ∧
  Forall (λ g, nonblank (cg_Name g) = true ∧ ∃ g0, g0 ∈ rc_ChannelGroups cfg ∧ g = sanitize_group g0) gs.
Proof.
  edestruct (keep_first_sound (λ g, nonblank (cg_Name g)) cg_Name ∅) as [H1 H2]. split; [exact H1|].
  eapply Forall_impl; [exact H2|]. intros g (Hin & Hk & _). split; [done|].
  apply list_elem_of_fmap in Hin as (g0 & -> & Hin). by exists g0.
Qed.

Lemma sanitized_routes cfg : let rs := rc_PathRoutes (SanitizeRouting cfg) in
  NoDup (map pr_Path rs) ∧
  Forall (λ r, nonblank (pr_Path r) && nonblank (pr_Group r) = true ∧
    ∃ r0, r0 ∈ rc_PathRoutes cfg ∧ r = sanitize_route r0) rs.
Proof.
  edestruct (keep_first_sound (λ r, (nonblank (pr_Path r) && nonblank (pr_Group r))%bool) pr_Path ∅) as [H1 H2].
  split; [exact H1|].
  eapply Forall_impl; [exact H2|]. intros r (Hin & Hk & _). split; [done|].
  apply list_elem_of_fmap in Hin as (r0 & -> & Hin). by exists r0.
Qed.

(** C22: Whatever an operator wrote, the sanitized routing section is well formed: the
    strategy and every distribution are one of the three known names; group names are
    distinct, lower-case, without slashes at their ends and never empty; weights belong to
    trimmed names and are not negative; a disabled sticky block is zero, the limits of an
    enabled one are in range and its early release is a number in [0, 1] (a NaN included);
    the fields of older binaries mirror the block; the default group is not excluded from
    itself; lists repeat no entry whatever its case; routes have distinct absolute paths of
    plain segments, a target and a known fallback. *)
Theorem sanitized_routing_well_formed cfg : sane_routing (SanitizeRouting cfg).
Proof.
  destruct (sanitized_groups cfg) as [Hg1 Hg2], (sanitized_routes cfg) as [Hr1 Hr2].
  constructor; [apply NormalizeRoutingStrategy_in| |]; (split; [|done]).
  - eapply Forall_impl; [exact Hg2|]. intros g (Hn & g0 & _ & ->). by apply sanitize_group_sane.
  - eapply Forall_impl; [exact Hr2|]. intros r (Hn & r0 & _ & ->). by apply sanitize_route_sane.
Qed.

End sanitized.

(** ** Sanitizing again *)

(** Zero means "no limit" before the second pass and "the default limit" after it. *)
Definition bound_sticky (s : GroupScheduling) : GroupScheduling :=
  if (st_Enabled (gs_Sticky s) && (st_MaxRequests (gs_Sticky s) =? 0))
  then with_max DefaultStickyMaxRequests s else s.

Definition bound_group (g : RoutingChannelGroup) : RoutingChannelGroup :=
  MkChannelGroup (cg_Name g) (cg_Description g) (cg_Strategy g) (bound_sticky (cg_Scheduling g)) (cg_Match g)
    (cg_ExcludeFromDefault g) (cg_Priority g) (cg_ChannelPriorities g) (cg_AllowedModels g) (cg_ExcludedModels g).

Definition bound_stickies (cfg : RoutingConfig) : RoutingConfig :=
  MkRoutingConfig (rc_Strategy cfg) (rc_IncludeDefaultGroup cfg) (map bound_group (rc_ChannelGroups cfg))
    (rc_PathRoutes cfg).

(** Texts that the second pass leaves alone. *)
Definition fixed_by (f : string → string) (l : list string) : Prop := Forall (λ v, f (TrimSpace v) = v) l.

Record fixed_texts (g : RoutingChannelGroup) : Prop := {
  fixed_name : normalizeGroupName (cg_Name g) = cg_Name g;
  fixed_description : TrimSpace (cg_Description g) = cg_Description g;
  fixed_prefixes : fixed_by normalizeGroupName (cm_Prefixes (cg_Match g));
  fixed_channels : fixed_by TrimSpace (cm_Channels (cg_Match g));
  fixed_tags : fixed_by NormalizeRoutingTag (cm_Tags (cg_Match g));
  fixed_allowed : fixed_by TrimSpace (cg_AllowedModels g);
  fixed_excluded : fixed_by TrimSpace (cg_ExcludedModels g) }.

(** The name of a group keeps its value when it is normalized again. It does not when
    blanks follow a slash at one of its ends: [/ pro] becomes [ pro], and then [pro]. *)
Definition settled (v : string) : Prop := normalizeGroupName (normalizeGroupName v) = normalizeGroupName v.

Definition settled_names (cfg : RoutingConfig) : Prop :=
  Forall (λ g, settled (cg_Name g) ∧ Forall settled (cm_Prefixes (cg_Match g))) (rc_ChannelGroups cfg) ∧
  Forall (λ r, settled (pr_Group r)) (rc_PathRoutes cfg).

(** Read the fields of explicit records. *)
Ltac fields :=
  cbn [cg_Name cg_Description cg_Strategy cg_Scheduling cg_Match cg_ExcludeFromDefault cg_Priority
    cg_ChannelPriorities cg_AllowedModels cg_ExcludedModels cm_Prefixes cm_Channels cm_Tags
    pr_Path pr_Group pr_StripPrefix pr_Fallback] in *.

Section resanitized.
Context {RO : RangeOrder} {RU : RouteURL}.

Lemma sanitizeSticky_sane_id s : sane_scheduling s → sanitizeSticky (gs_Sticky s) = gs_Sticky (bound_sticky s).
Proof.
  intros [_ _ Hm (Hn & Hl & Hh) Hoff]. unfold sanitizeSticky, bound_sticky.
  destruct (gs_Sticky s) as [e m r] eqn:E. cbn [st_Enabled st_MaxRequests st_ReleaseAtLoad] in *.
  destruct e; cbn [negb andb]; [|by rewrite E, Hoff]. rewrite Hl, Hn. cbn [orb]. rewrite Hh.
  destruct (Z.eqb_spec m 0) as [->|Hne]; [by unfold with_max; rewrite E|]. rewrite E.
  by destruct (Z.ltb_spec m 0); [lia|].
Qed.

Lemma sanitizeScheduling_id g : sane_scheduling (cg_Scheduling g) →
  cg_ChannelPriorities g = gs_ChannelWeights (cg_Scheduling g) →
  cg_Strategy g = legacyStrategyForScheduling (cg_Scheduling g) →
  sanitizeScheduling g = bound_group g.
Proof.
  intros Hs Hp Hst. unfold sanitizeScheduling, bound_group.
  destruct (distribution_fixed _ (sane_distribution _ Hs)) as [Hd Hd'].
  assert (no_scheduling (cg_Scheduling g) = false) as -> by (unfold no_scheduling; by rewrite Hd').
  rewrite Hd, (normalizeChannelWeights_id _ (sane_weights _ Hs)), (sanitizeSticky_sane_id _ Hs), Hp.
  assert (∀ (w : gmap string Z) (x y : gmap string Z),
    (if (negb false && bool_decide (w = ∅) && negb (bool_decide (w = ∅)))%bool then x else y) = y) as ->
    by (intros w x y; by destruct (bool_decide (w = ∅))).
  rewrite (normalizeChannelWeights_id _ (sane_weights _ Hs)).
  destruct g as [nm ds st [d [e m r] w] mt ex pr cp al xl]. cbn in *. unfold bound_sticky. cbn. subst.
  destruct e; cbn; [|done]. by destruct (m =? 0).
Qed.

Lemma sanitize_group_id g : sane_group g → fixed_texts g → sanitize_group g = bound_group g.
Proof.
  intros [_ Hs [Hm1 Hm2] Hdef Hl] [Fn Fd Fp Fc Ft Fa Fx].
  rewrite !Forall_cons in Hl. destruct Hl as (Lp & Lc & Lt & La & Lx & _).
  assert (normalize_fields g = g) as E.
  { destruct g as [nm ds st sc [mp mc mt] ex pr cp al xl]. unfold normalize_fields, sanitize_match. fields.
    rewrite Fn, Fd, !normalizeStringList_id by done. subst cp st.
    rewrite (proj1 (proj2 (strategy_fixed _ (legacyStrategy_in _)))).
    rewrite normalizeChannelPriorities_id by apply (sane_weights _ Hs).
    destruct (String.eqb_spec nm "default"); [by rewrite Hdef|done]. }
  unfold sanitize_group. rewrite E, sanitizeScheduling_id by done. unfold bound_group. fields.
  by rewrite !normalizeStringList_id by done.
Qed.

Lemma normalizeGroupName_TrimSpace v : normalizeGroupName (TrimSpace v) = normalizeGroupName v.
Proof. unfold normalizeGroupName. by rewrite TrimSpace_idem. Qed.

Lemma fixed_by_idem f l : (∀ v, v ∈ l → f (TrimSpace (f (TrimSpace v))) = f (TrimSpace v)) →
  fixed_by f (normalizeStringList l f).
Proof. intros H. apply Forall_forall. intros v Hv. apply normalizeStringList_from in Hv as (w & Hw & ->). auto. Qed.

Lemma fixed_by_TrimSpace l : fixed_by TrimSpace (normalizeStringList l TrimSpace).
Proof. apply fixed_by_idem. intros v _. by rewrite !TrimSpace_idem. Qed.

Lemma sanitize_group_fixed g : settled (cg_Name g) → Forall settled (cm_Prefixes (cg_Match g)) →
  fixed_texts (sanitize_group g).
Proof.
  intros Hn Hp. constructor; cbn -[normalizeStringList TrimSpace].
  - done.
  - apply TrimSpace_idem.
  - apply fixed_by_idem. intros v Hv. rewrite !normalizeGroupName_TrimSpace. rewrite Forall_forall in Hp. by apply Hp.
  - apply fixed_by_TrimSpace.
  - apply fixed_by_idem. intros v _. apply tag_fixed.
  - apply fixed_by_TrimSpace.
  - apply fixed_by_TrimSpace.
Qed.

Lemma word_path t : forallb segment_ok (SplitByte "/"%char t) = true →
  all_chars (λ c, (Ascii.eqb "/" c || (wide c || path_char c)))%bool t = true.
Proof.
  intros H. apply all_chars_Split. rewrite forallb_forall in H |- *. intros x Hx. specialize (H x Hx).
  unfold segment_ok in H. by apply andb_true_iff in H as [[_ H]%andb_true_iff _].
Qed.

Lemma NormalizeNamespacePath_id t : TrimByte "/"%char t = t → t ≠ "" →
  forallb segment_ok (SplitByte "/"%char t) = true →
  NormalizeNamespacePath (String "/"%char t) = String "/"%char t.
Proof.
  intros Ht Hne Hs. pose proof (word_path t Hs) as Hw. unfold NormalizeNamespacePath.
  assert (Hc : all_chars (λ c, (Ascii.eqb "/" c || (wide c || path_char c)))%bool (String "/"%char t) = true) by done.
  rewrite spaceless_TrimSpace; [|eapply all_chars_impl; [|exact Hc]; by intros [[] [] [] [] [] [] [] []]].
  rewrite url_path_rooted. change (default ?x None) with x. cbn [String.eqb].
  rewrite split_at_whole; [|eapply all_chars_impl; [|exact Hc]; by intros [[] [] [] [] [] [] [] []]].
  change (TrimByte "/"%char (String "/"%char t)) with (TrimByte "/"%char t). rewrite Ht, Hs.
  by destruct (String.eqb_spec t "").
Qed.

Lemma sanitize_route_id r : nonblank (pr_Path (sanitize_route r)) = true → settled (pr_Group r) →
  sanitize_route (sanitize_route r) = sanitize_route r.
Proof.
  unfold nonblank. rewrite negb_true_iff, String.eqb_neq. intros Hp Hg. unfold sanitize_route in *. fields.
  rewrite Hg, (fallback_fixed _ (NormalizeFallback_in _)). f_equal.
  destruct (NormalizeNamespacePath_shape _ Hp) as (t & -> & Ht & Hs). apply NormalizeNamespacePath_id; [done| |done].
  intros ->. by vm_compute in Hs.
Qed.

(** Sanitizing is not idempotent, but it settles: a second pass changes a sanitized
    section in exactly one way, however the maps are ranged over. The unlimited sticky
    sessions of the first pass get the default limit; every group, weight, list and route
    stays as it is. *)
Lemma sanitize_settles cfg : settled_names cfg →
  SanitizeRouting (SanitizeRouting cfg) = bound_stickies (SanitizeRouting cfg).
Proof.
  intros [Hsg Hsr]. destruct (sanitized_groups cfg) as [Hg1 Hg2], (sanitized_routes cfg) as [Hr1 Hr2].
  rewrite Forall_forall in Hsg. rewrite Forall_forall in Hsr.
  set (c := SanitizeRouting cfg) in *. unfold SanitizeRouting at 1, bound_stickies.
  assert (NormalizeRoutingStrategy (rc_Strategy c) = rc_Strategy c) as ->
    by apply strategy_fixed, NormalizeRoutingStrategy_in.
  f_equal.
  - replace (map sanitize_group (rc_ChannelGroups c)) with (map bound_group (rc_ChannelGroups c)).
    2: { apply map_ext_Forall. eapply Forall_impl; [exact Hg2|]. intros g (Hn & g0 & Hin & ->). symmetry.
         destruct (Hsg g0 Hin). by apply sanitize_group_id; [apply sanitize_group_sane|apply sanitize_group_fixed]. }
    apply keep_first_whole; [by rewrite map_map|]. apply Forall_map. eapply Forall_impl; [exact Hg2|].
    intros g (Hn & _). split; [done|set_solver].
  - replace (map sanitize_route (rc_PathRoutes c)) with (rc_PathRoutes c).
    2: { rewrite <-(map_id (rc_PathRoutes c)) at 1. apply map_ext_Forall. eapply Forall_impl; [exact Hr2|].
         intros r ([Hn _]%andb_true_iff & r0 & Hin & ->). symmetry. by apply sanitize_route_id; [|apply Hsr]. }
    apply keep_first_whole; [done|]. eapply Forall_impl; [exact Hr2|]. intros r (Hn & _). split; [done|set_solver].
Qed.

End resanitized.

(** ** Witnesses *)

Section witnesses.
#[local] Existing Instance listing_order.

(** A URL reader that knows no scheme. *)
#[local] Instance no_urls : RouteURL := {| url_path _ := None; wide_letters _ := true; url_path_rooted _ := eq_refl |}.

Definition pro_group : RoutingChannelGroup :=
  MkChannelGroup "Pro" " paid " "" (MkGroupScheduling "ll" (MkSticky true (-1) f64_zero) {["a" := 2]})
    (MkGroupMatch ["Pro"; "pro"] [] ["Team A"]) false 0 ∅ [] [].
Definition pro_body : RoutingConfig :=
  MkRoutingConfig "ss" true [pro_group] [MkPathRoute "pro/" "PRO" true "x"].

Lemma pro_settled : settled_names pro_body.
Proof. split; repeat constructor. Qed.

Lemma sanitize_settles_witness : settled_names pro_body ∧
  SanitizeRouting (SanitizeRouting pro_body) = bound_stickies (SanitizeRouting pro_body).
Proof. split; [apply pro_settled|apply (sanitize_settles pro_body), pro_settled]. Defined.

End witnesses.
