(* ===== verification/RoutingStore.v ===== *)
(** * The stored routing section

    Models [src/internal/storage/sqlstore/routing/store.go] and [store_cas.go]: one row per
    tenant with a payload and a version, written by compare-and-swap, and the update loop
    that applies a change to what it read and retries when another writer came first. The
    saving half of [PutRoutingConfig] ([handlers/management/routing_config.go]) shows what
    becomes of an unlimited sticky session.

    A transaction is one function on the row; it may fail ([fault]) and then leaves the row
    alone. What the other writers leave between two steps of [Update] is an argument.
    [encoding/json] on the section is the class [RoutingJSON].

    [saved_routing_read_back]: what is saved is read back. [update_replaces_what_it_read]: no
    update is lost. [failed_reads_conflict]: failing reads are told as a conflict.
    [unlimited_sticky_lost]: an unlimited sticky session does not survive a save. *)
From S2P Require Import Prelude GoModel ModelNames AuthTypes GroupModels RoutingGroups RoutingConfig.
From Stdlib Require Import Ascii SpecFloat.

Class RoutingJSON := {
  json_Marshal : RoutingConfig → option string;
  json_Unmarshal : string → option RoutingConfig }.

(** The row of the tenant: payload and version. *)
Abbreviation Row := (option (string * Z)) (only parsing).

Definition AnyVersion : Z := -1.

Inductive save_result :=
| Saved (version : Z)
| VersionConflict (expected current : Z)
| SaveFailed.

Section store.
Context {RO : RangeOrder} {RU : RouteURL} {RJ : RoutingJSON}.

Definition normalize (input : RoutingConfig) : RoutingConfig := SanitizeRouting input.

Definition meaningful (cfg : RoutingConfig) : bool :=
  ((! String.eqb (rc_Strategy cfg) "") || (! rc_IncludeDefaultGroup cfg) ||
   (! bool_decide (rc_ChannelGroups cfg = [])) || (! bool_decide (rc_PathRoutes cfg = []))).

Definition GetWithVersion (db fault : bool) (row : Row) : option RoutingConfig * Z :=
  if ! db then (None, 0)
  else if fault then (None, 0)
  else match row with
       | None => (None, 0)
       | Some (payload, version) =>
           let payload := TrimSpace payload in
           if String.eqb payload "" then (None, version)
           else match json_Unmarshal payload with
                | None => (None, version)
                | Some cfg => (Some (normalize cfg), version)
                end
       end.

Definition row_version (row : Row) : Z := match row with Some (_, version) => version | None => 0 end.

Definition CompareAndSwap (db fault : bool) (cfg : RoutingConfig) (expected : Z) (row : Row)
    : Row * save_result :=
  if ! db then (row, SaveFailed)
  else match json_Marshal (normalize cfg) with
       | None => (row, SaveFailed)
       | Some payload =>
           if fault then (row, SaveFailed)
           else if expected <? 0 then
             let version := match row with None => 1 | Some (_, version) => version + 1 end in
             (Some (payload, version), Saved version)
           else if expected =? 0 then
             match row with
             | None => (Some (payload, 1), Saved 1)
             | Some (_, current) => (row, VersionConflict expected current)
             end
           else match row with
                | Some (_, version) =>
                    if version =? expected then (Some (payload, version + 1), Saved (version + 1))
                    else (row, VersionConflict expected version)
                | None => (row, VersionConflict expected 0)
                end
       end.

Definition Upsert (db fault : bool) (cfg : RoutingConfig) (row : Row) : Row * bool :=
  if ! db then (row, true)
  else match CompareAndSwap db fault cfg AnyVersion row with
       | (row, Saved _) => (row, true)
       | (row, _) => (row, false)
       end.

(** [ApplyToConfig]: the routing section of the configuration and whether it was stored. *)
Definition ApplyToConfig (db fault : bool) (row : Row) (routing : RoutingConfig) : RoutingConfig * bool :=
  if ! db then (routing, false)
  else match fst (GetWithVersion db fault row) with
       | None => (routing, false)
       | Some stored => (stored, true)
       end.

(** [MigrateFromConfig]: the row, [migrated] and [hadStored]. The row may change between
    the read ([row]) and the write ([row']). *)
Definition MigrateFromConfig (db fault fault' : bool) (routing : RoutingConfig) (row row' : Row)
    : Row * bool * bool :=
  if ! db then (row', false, false)
  else match fst (GetWithVersion db fault row) with
       | Some _ => (row', false, true)
       | None =>
           if ! meaningful routing then (row', false, false)
           else match CompareAndSwap db fault' routing 0 row' with
                | (row', Saved _) => (row', true, false)
                | (row', VersionConflict _ _) => (row', false, true)
                | (row', SaveFailed) => (row', false, false)
                end
       end.

(** ** The update loop *)

(** What one attempt meets: whether the read fails and the row it sees, then whether the
    write fails and the row at that time. *)
Record attempt_env := MkAttempt {
  at_read_fault : bool; at_read : Row; at_write_fault : bool; at_write : Row }.

Inductive update_result :=
| Unchanged (current : RoutingConfig)
| Updated (current : RoutingConfig)
| UpdateFailed (current : RoutingConfig)
| UpdateConflict (fallback : RoutingConfig).

Section update.
(** The caller's change: the new section, and whether it differs. [shared fallback c] is
    what the caller's [fallback] shows once a copy of it that shares its slices has been
    changed into [c]. *)
Variable mutate : RoutingConfig → RoutingConfig * bool.
Variable shared : RoutingConfig → RoutingConfig → RoutingConfig.
Variable db : bool.

Fixpoint update_loop (env : nat → attempt_env) (attempts attempt : nat) (fallback : RoutingConfig) (row : Row)
    : Row * update_result :=
  match attempts with
  | 0%nat => (row, UpdateConflict fallback)
  | S attempts =>
      let e := env attempt in
      let '(stored, version) := GetWithVersion db (at_read_fault e) (at_read e) in
      let '(current, changed) := mutate (default fallback stored) in
      let fallback := if stored then fallback else shared fallback current in
      if ! changed then (at_read e, Unchanged current)
      else match CompareAndSwap db (at_write_fault e) current version (at_write e) with
           | (row, Saved _) => (row, Updated (normalize current))
           | (row, VersionConflict _ _) => update_loop env attempts (S attempt) fallback row
           | (row, SaveFailed) => (row, UpdateFailed current)
           end
  end.

Definition Update (env : nat → attempt_env) (fallback : RoutingConfig) (row : Row) : Row * update_result :=
  update_loop env 3 0 fallback row.

End update.

(** ** Saving from the panel

    [PutRoutingConfig] between the decoding of the body and the answer; [canonicalize] is
    the renaming of channels and the validation ([None]: refused). The second component is
    the section this node goes on with. *)
Definition PutRoutingConfig (canonicalize : RoutingConfig → option RoutingConfig) (db fault : bool)
    (body : RoutingConfig) (expected : Z) (row : Row) : Row * option (RoutingConfig * Z) :=
  match canonicalize (SanitizeRouting body) with
  | None => (row, None)
  | Some candidate =>
      match CompareAndSwap db fault candidate expected row with
      | (row, Saved version) => (row, Some (candidate, version))
      | (row, _) => (row, None)
      end
  end.

End store.

(** ** Proofs *)

Section store_proofs.
Context {RO : RangeOrder} {RU : RouteURL} {RJ : RoutingJSON}.

(** The text of [c] reads back as [c]; it holds no blank at its ends. *)
Definition roundtrips (c : RoutingConfig) : Prop :=
  ∃ payload, json_Marshal c = Some payload ∧ TrimSpace payload = payload ∧ payload ≠ "" ∧
    json_Unmarshal payload = Some c.

Lemma CompareAndSwap_saved db fault cfg expected row row' v :
  CompareAndSwap db fault cfg expected row = (row', Saved v) →
  db = true ∧ fault = false ∧ v = row_version row + 1 ∧
  (∃ payload, json_Marshal (normalize cfg) = Some payload ∧ row' = Some (payload, v)) ∧
  (expected < 0 ∨ (expected = 0 ∧ row = None) ∨ (expected ≠ 0 ∧ row_version row = expected ∧ row ≠ None)).
Proof.
  unfold CompareAndSwap, row_version. destruct db; [|done]. simpl. destruct (json_Marshal _) as [p|]; [|done].
  destruct fault; [done|]. destruct (Z.ltb_spec expected 0).
  { destruct row as [[? ?]|]; intros [= <- <-]; split_and!; eauto. }
  destruct (Z.eqb_spec expected 0).
  { destruct row as [[? ?]|]; [done|]. intros [= <- <-]. split_and!; eauto. }
  destruct row as [[? w]|]; [|done]. destruct (Z.eqb_spec w expected); [|done].
  intros [= <- <-]. split_and!; eauto.
Qed.

(** A refused or failed write leaves the row alone, and a refusal says that the version is
    not the expected one. *)
Lemma CompareAndSwap_refused db fault cfg expected row :
  match CompareAndSwap db fault cfg expected row with
  | (_, Saved _) => True
  | (row', VersionConflict e current) => row' = row ∧ e = expected ∧ current = row_version row ∧
      0 ≤ expected ∧ (expected = 0 → row ≠ None) ∧ (expected ≠ 0 → row_version row ≠ expected)
  | (row', SaveFailed) => row' = row
  end.
Proof.
  unfold CompareAndSwap, row_version. destruct db; [|done]. simpl. destruct (json_Marshal _); [|done].
  destruct fault; [done|]. destruct (Z.ltb_spec expected 0); [done|].
  destruct (Z.eqb_spec expected 0) as [->|]; [by destruct row as [[? ?]|]|].
  destruct row as [[? w]|]; [|by split_and!]. by destruct (Z.eqb_spec w expected).
Qed.

Lemma GetWithVersion_row c payload v :
  json_Unmarshal payload = Some c → TrimSpace payload = payload → payload ≠ "" →
  GetWithVersion true false (Some (payload, v)) = (Some (normalize c), v).
Proof. intros Hu Ht Hne. unfold GetWithVersion. cbn [negb]. rewrite Ht, Hu. by destruct (String.eqb_spec payload ""). Qed.

(** C37: What was saved is what every node reads: after a successful compare-and-swap the
    stored section is the sanitized one at the version the caller was told, the unlimited
    sticky sessions now at the default limit, and the version is one more than before. *)
Theorem saved_routing_read_back cfg expected row row' v :
  settled_names cfg → roundtrips (normalize cfg) →
  CompareAndSwap true false cfg expected row = (row', Saved v) →
  GetWithVersion true false row' = (Some (bound_stickies (SanitizeRouting cfg)), v) ∧ v = row_version row + 1.
Proof.
  intros Hs (p & Hp & Ht & Hne & Hu) H.
  apply CompareAndSwap_saved in H as (_ & _ & Hv & (p' & Hp' & ->) & _). rewrite Hp in Hp'. simplify_eq.
  split; [|done]. rewrite (GetWithVersion_row _ _ _ Hu Ht Hne). unfold normalize. by rewrite sanitize_settles.
Qed.

(** ** The update loop *)

Section update.
Variable mutate : RoutingConfig → RoutingConfig * bool.
Variable shared : RoutingConfig → RoutingConfig → RoutingConfig.

Definition read_of (e : attempt_env) : option RoutingConfig * Z :=
  GetWithVersion true (at_read_fault e) (at_read e).

(** The caller's fallback after some rounds: a round that read no section has changed what the copy
    shares with it. *)
Fixpoint fallback_after (env : nat → attempt_env) (fallback : RoutingConfig) (rounds : nat) : RoutingConfig :=
  match rounds with
  | 0%nat => fallback
  | S k => let f := fallback_after env fallback k in
      match (read_of (env k)).1 with Some _ => f | None => shared f (mutate f).1 end
  end.

(** What a round changes: the section it read, or the fallback when it read none. *)
Definition base_at (env : nat → attempt_env) (fallback : RoutingConfig) (i : nat) : RoutingConfig :=
  default (fallback_after env fallback i) (read_of (env i)).1.

(** The round comes too late: another writer came between its read and its write; or its read failed,
    which the code takes for a missing row, and there is one. *)
Definition beaten (e : attempt_env) : Prop :=
  if at_read_fault e then at_write e ≠ None else row_version (at_write e) ≠ row_version (at_read e).

(** Rows have positive versions. *)
Definition numbered (row : Row) : Prop := match row with Some (_, v) => 0 < v | None => True end.

(** The last of some rounds, all earlier ones were beaten. *)
Definition decided (env : nat → attempt_env) (from attempts i : nat) : Prop :=
  (from ≤ i < from + attempts)%nat ∧ ∀ j, (from ≤ j < i)%nat → beaten (env j).

Definition outcome (env : nat → attempt_env) (fallback : RoutingConfig) (from attempts : nat) (row : Row)
    (result : Row * update_result) : Prop :=
  match result with
  | (row', Updated c) => ∃ i payload, decided env from attempts i ∧ ¬ beaten (env i) ∧
      snd (mutate (base_at env fallback i)) = true ∧ c = SanitizeRouting (fst (mutate (base_at env fallback i))) ∧
      json_Marshal c = Some payload ∧ row' = Some (payload, row_version (at_write (env i)) + 1)
  | (row', Unchanged c) => ∃ i, decided env from attempts i ∧ mutate (base_at env fallback i) = (c, false) ∧ row' = at_read (env i)
  | (row', UpdateFailed c) => ∃ i, decided env from attempts i ∧ mutate (base_at env fallback i) = (c, true) ∧
      (at_write_fault (env i) = true ∨ json_Marshal (SanitizeRouting c) = None) ∧ row' = at_write (env i)
  | (row', UpdateConflict c) => (∀ i, (from ≤ i < from + attempts)%nat → beaten (env i) ∧ snd (mutate (base_at env fallback i)) = true) ∧
      c = fallback_after env fallback (from + attempts) ∧
      row' = match attempts with 0%nat => row | S n => at_write (env (from + n)%nat) end
  end.

(** A read that does not fail sees the version of the row, one that fails none. *)
Lemma read_version e : snd (read_of e) = if at_read_fault e then 0 else row_version (at_read e).
Proof.
  unfold read_of, GetWithVersion. cbn [negb]. destruct (at_read_fault e); [done|]. destruct (at_read e) as [[p v]|]; [|done].
  cbn. by repeat case_match.
Qed.

Lemma row_version_zero row : numbered row → row_version row = 0 ↔ row = None.
Proof. destruct row as [[p v]|]; cbn; [|done]. split; [lia|done]. Qed.

(** The version checked at the write. *)
Lemma beaten_version e : numbered (at_write e) → beaten e ↔ row_version (at_write e) ≠ snd (read_of e).
Proof.
  intros H. unfold beaten. rewrite read_version. destruct (at_read_fault e); [|done]. by rewrite row_version_zero.
Qed.

Lemma read_version_nonneg e : numbered (at_read e) → 0 ≤ snd (read_of e).
Proof.
  intros H. rewrite read_version. destruct (at_read_fault e); [done|]. destruct (at_read e) as [[p v]|]; cbn in *; lia.
Qed.

(** One write against the version that was read. *)
Lemma write_outcome e cfg : numbered (at_read e) → numbered (at_write e) →
  match CompareAndSwap true (at_write_fault e) cfg (snd (read_of e)) (at_write e) with
  | (row', Saved _) => ¬ beaten e ∧ ∃ payload, json_Marshal (SanitizeRouting cfg) = Some payload ∧
      row' = Some (payload, row_version (at_write e) + 1)
  | (row', VersionConflict _ _) => beaten e ∧ row' = at_write e
  | (row', SaveFailed) => (at_write_fault e = true ∨ json_Marshal (SanitizeRouting cfg) = None) ∧ row' = at_write e
  end.
Proof.
  intros Hr Hw. pose proof (beaten_version e Hw) as Hb. pose proof (read_version_nonneg e Hr) as Hnn.
  set (version := snd (read_of e)) in *. pose proof (row_version_zero _ Hw) as Hz.
  unfold CompareAndSwap, normalize in *. cbn [negb]. destruct (json_Marshal _) as [payload|]; [|by split; [right|]].
  destruct (at_write_fault e); [by split; [left|]|]. rewrite (proj2 (Z.ltb_ge _ _)) by done.
  destruct (Z.eqb_spec version 0) as [E|E]; destruct (at_write e) as [[p w]|]; cbn [row_version numbered] in *.
  - rewrite Hb. split; [lia|done].
  - rewrite Hb. split; [lia|]. by exists payload.
  - destruct (Z.eqb_spec w version); rewrite Hb; [split; [lia|]; by exists payload|by split].
  - rewrite Hb. by split; [lia|].
Qed.

Lemma decided_later env from attempts i : beaten (env from) → decided env (S from) attempts i → decided env from (S attempts) i.
Proof.
  intros Hb [Hi Hj]. split; [lia|]. intros j Hji. destruct (decide (j = from)) as [->|]; [done|]. apply Hj. lia.
Qed.

Lemma decided_now env from attempts : decided env from (S attempts) from.
Proof. split; lia. Qed.

(** The outcome of the rounds after one that was beaten is that of all. *)
Lemma outcome_later env fallback from attempts row row' result : beaten (env from) →
  snd (mutate (base_at env fallback from)) = true → row' = at_write (env from) →
  outcome env fallback (S from) attempts row' result → outcome env fallback from (S attempts) row result.
Proof.
  intros Hb Hm ->. destruct result as [r [c|c|c|c]]; cbn [outcome].
  - intros (i & Hd & H). exists i. split; [by apply decided_later|done].
  - intros (i & p & Hd & H). exists i, p. split; [by apply decided_later|done].
  - intros (i & Hd & H). exists i. split; [by apply decided_later|done].
  - intros (Hall & Hc & Hr). split; [|split].
    + intros i Hi. destruct (decide (i = from)) as [->|]; [done|]. apply Hall. lia.
    + rewrite Hc. f_equal. lia.
    + rewrite Hr. destruct attempts; do 2 f_equal; lia.
Qed.

Lemma update_loop_outcome env attempts from fallback row :
  (∀ i, numbered (at_read (env i)) ∧ numbered (at_write (env i))) →
  outcome env fallback from attempts row
    (update_loop mutate shared true env attempts from (fallback_after env fallback from) row).
Proof.
  intros Hnum. revert from row. induction attempts as [|n IH]; intros from row.
  { cbn [update_loop outcome]. split; [lia|]. by rewrite Nat.add_0_r. }
  cbn [update_loop]. fold (read_of (env from)). destruct (Hnum from) as [Hr Hw].
  pose proof (write_outcome (env from)) as Hwrite.
  assert (Hnext : fallback_after env fallback (S from) = match (read_of (env from)).1 with Some _ => fallback_after env fallback from
    | None => shared (fallback_after env fallback from) (fst (mutate (fallback_after env fallback from))) end) by done.
  unfold base_at in *. destruct (read_of (env from)) as [stored version] eqn:Er. cbn [fst snd] in *.
  assert (Hbase : base_at env fallback from = default (fallback_after env fallback from) stored) by (unfold base_at; by rewrite Er).
  rewrite <- Hbase. destruct (mutate (base_at env fallback from)) as [current changed] eqn:Em. destruct changed; cbn [negb].
  2: { exists from. split; [apply decided_now|done]. }
  specialize (Hwrite current Hr Hw). destruct (CompareAndSwap _ _ _ _ _) as [row' [v|e cur|]].
  - destruct Hwrite as (Hnb & payload & Hp & ->). exists from, payload. rewrite Em. split_and!; [apply decided_now|done..].
  - destruct Hwrite as (Hb & Hrow). eapply outcome_later; [done|by rewrite Em|exact Hrow|].
    replace (if stored then _ else _) with (fallback_after env fallback (S from)); [apply IH|].
    rewrite Hnext. destruct stored; [done|]. cbn [default from_option] in Hbase. by rewrite <- Hbase, Em.
  - destruct Hwrite as (Hf & ->). exists from. split; [apply decided_now|done].
Qed.

(** C21: No update is lost. Whatever other writers do between the steps and whatever fails, when
    [Update] reports success, the row it replaced has the version it read - where its read failed, there
    was no row -, what it wrote is the change applied to the section it read, or to the caller's fallback
    where it read none (no row, a text that does not decode, or a failed read), and the version grows by
    one. When it gives up, each of the three rounds was overtaken by another writer or failed to
    read a row that exists; then and in the other cases it wrote nothing, and says why. *)
Theorem update_replaces_what_it_read env fallback row :
  (∀ i, numbered (at_read (env i)) ∧ numbered (at_write (env i))) →
  outcome env fallback 0 3 row (Update mutate shared true env fallback row).
Proof. apply (update_loop_outcome env 3 0 fallback row). Qed.

(** Three failed reads are told as a conflict with other writers, though there was none. *)
Lemma failed_reads_conflict env fallback row payload v : 0 < v → (∀ c, snd (mutate c) = true) → (∀ c, json_Marshal c ≠ None) →
  (∀ i, env i = MkAttempt true (Some (payload, v)) false (Some (payload, v))) →
  ∃ c, Update mutate shared true env fallback row = (Some (payload, v), UpdateConflict c).
Proof.
  intros Hv Hm Hj He. unfold Update. cbn [update_loop]. rewrite !He. cbn [GetWithVersion negb at_read_fault at_read at_write_fault at_write default from_option id].
  assert (Hround : ∀ c, CompareAndSwap true false c 0 (Some (payload, v)) = (Some (payload, v), VersionConflict 0 v)).
  { intros c. unfold CompareAndSwap. cbn [negb]. specialize (Hj (normalize c)). by destruct (json_Marshal (normalize c)). }
  do 3 (match goal with |- context [mutate ?c] => pose proof (Hm c); destruct (mutate c) as [? []]; [|done]; cbn [negb]; rewrite Hround end).
  by eexists.
Qed.

End update.

(** ** Unlimited sticky sessions *)

Lemma bound_sticky_idem s : bound_sticky (bound_sticky s) = bound_sticky s.
Proof.
  unfold bound_sticky. destruct s as [d [[] m r] w]; cbn; [|done].
  destruct (Z.eqb_spec m 0) as [->|]; [done|]. cbn. by destruct (Z.eqb_spec m 0).
Qed.

Lemma bound_stickies_idem cfg : bound_stickies (bound_stickies cfg) = bound_stickies cfg.
Proof.
  unfold bound_stickies. cbn. f_equal. rewrite map_map. apply map_ext. intros g.
  unfold bound_group. cbn. by rewrite bound_sticky_idem.
Qed.

Lemma settled_twice v : settled v → settled (normalizeGroupName v).
Proof. unfold settled. intros H. by rewrite !H. Qed.

Lemma settled_sanitized cfg : settled_names cfg → settled_names (SanitizeRouting cfg).
Proof.
  intros [Hg Hr]. rewrite Forall_forall in Hg. rewrite Forall_forall in Hr.
  destruct (sanitized_groups cfg) as [_ Hsg], (sanitized_routes cfg) as [_ Hsr]. split.
  - eapply Forall_impl; [exact Hsg|]. intros g (_ & g0 & Hin & ->). destruct (Hg g0 Hin) as [Hn Hp].
    split; [by apply settled_twice|]. apply Forall_forall. intros v Hv.
    change (v ∈ normalizeStringList (cm_Prefixes (cg_Match g0)) normalizeGroupName) in Hv.
    apply normalizeStringList_from in Hv as (w & Hw & ->). rewrite normalizeGroupName_TrimSpace.
    rewrite Forall_forall in Hp. by apply settled_twice, Hp.
  - eapply Forall_impl; [exact Hsr|]. intros r (_ & r0 & Hin & ->). by apply settled_twice, Hr.
Qed.

Lemma sanitize_thrice cfg : settled_names cfg →
  SanitizeRouting (SanitizeRouting (SanitizeRouting cfg)) = bound_stickies (SanitizeRouting cfg).
Proof.
  intros H. rewrite (sanitize_settles (SanitizeRouting cfg)) by by apply settled_sanitized.
  rewrite (sanitize_settles cfg H). apply bound_stickies_idem.
Qed.

(** The limits of the sticky sessions of the snapshot that selectors read. *)
Definition sticky_limits (cfg : RoutingConfig) : list (bool * Z) :=
  map (λ g, (sc_StickyEnabled (gr_Scheduling g), sc_StickyMax (gr_Scheduling g)))
    (rt_ChannelGroups (runtime_routing cfg)).

Lemma sticky_limit_sane g : sane_group g →
  sc_StickyEnabled (cloneRuntimeGroupScheduling g) = st_Enabled (gs_Sticky (cg_Scheduling g)) ∧
  sc_StickyMax (cloneRuntimeGroupScheduling g) = st_MaxRequests (gs_Sticky (cg_Scheduling g)).
Proof.
  intros H. unfold cloneRuntimeGroupScheduling, no_scheduling.
  destruct (distribution_fixed _ (sane_distribution _ (sane_block _ H))) as [_ ->]. done.
Qed.

Lemma unlimited_group g : st_Enabled (gs_Sticky (cg_Scheduling g)) = true →
  st_MaxRequests (gs_Sticky (cg_Scheduling g)) < 0 →
  st_Enabled (gs_Sticky (cg_Scheduling (sanitize_group g))) = true ∧
  st_MaxRequests (gs_Sticky (cg_Scheduling (sanitize_group g))) = 0.
Proof.
  intros He Hm. unfold sanitize_group, sanitizeScheduling, no_scheduling, normalize_fields, sanitizeSticky.
  cbn -[TrimSpace NormalizeDistribution]. rewrite He, andb_false_r. cbn [negb andb]. rewrite He.
  cbn [negb st_Enabled st_MaxRequests gs_Sticky]. split; [done|].
  destruct (Z.eqb_spec (st_MaxRequests (gs_Sticky (cg_Scheduling g))) 0); [lia|].
  by destruct (Z.ltb_spec (st_MaxRequests (gs_Sticky (cg_Scheduling g))) 0); [|lia].
Qed.

(** A sticky limit below zero is documented as unlimited. The panel's save sanitizes it
    to zero, which the selectors of the saving node take for "no limit"; the store
    sanitizes the zero again, to the default of 200 requests. So the node that saved and
    every node that reads the row (itself after a restart) disagree, and no unlimited
    session survives a save. *)
Lemma unlimited_sticky_lost g strategy include routes expected row row' memory v :
  let body := MkRoutingConfig strategy include [g] routes in
  settled_names body → normalizeGroupName (cg_Name g) ≠ "" →
  st_Enabled (gs_Sticky (cg_Scheduling g)) = true → st_MaxRequests (gs_Sticky (cg_Scheduling g)) < 0 →
  roundtrips (bound_stickies (SanitizeRouting body)) →
  PutRoutingConfig Some true false body expected row = (row', Some (memory, v)) →
  sticky_limits memory = [(true, 0)] ∧
  ∃ loaded, GetWithVersion true false row' = (Some loaded, v) ∧ sticky_limits loaded = [(true, 200)].
Proof.
  intros body Hs Hn He Hm (p & Hp & Ht & Hne & Hu) Hput. unfold PutRoutingConfig in Hput.
  destruct (CompareAndSwap _ _ _ _ _) as [r [v0| |]] eqn:Ec; simplify_eq.
  apply CompareAndSwap_saved in Ec as (_ & _ & _ & (p' & Hp' & ->) & _).
  unfold normalize in Hp'. rewrite (sanitize_settles body Hs), Hp in Hp'. injection Hp' as <-.
  assert (Hg : rc_ChannelGroups (SanitizeRouting body) = [sanitize_group g]).
  { cbn -[sanitize_group]. unfold nonblank. rewrite sanitize_group_name.
    by destruct (String.eqb_spec (normalizeGroupName (cg_Name g)) ""). }
  pose proof (sanitized_routing_well_formed body) as Hsane.
  pose proof (proj1 (sane_groups _ Hsane)) as Hsg. rewrite Hg in Hsg. apply Forall_cons in Hsg as [Hsg _].
  destruct (unlimited_group g He Hm) as [He' Hm'], (sticky_limit_sane _ Hsg) as [E1 E2]. split.
  { unfold sticky_limits, runtime_routing. cbn [rt_ChannelGroups]. rewrite Hg. cbn [map gr_Scheduling cloneRuntimeRoutingChannelGroup].
    by rewrite E1, E2, He', Hm'. }
  exists (bound_stickies (SanitizeRouting body)). split.
  { rewrite (GetWithVersion_row _ _ _ Hu Ht Hne). unfold normalize.
    by rewrite <-(sanitize_settles body Hs), sanitize_thrice, <-sanitize_settles. }
  pose proof (sanitized_routing_well_formed (SanitizeRouting body)) as Hsane2.
  rewrite (sanitize_settles body Hs) in Hsane2. pose proof (proj1 (sane_groups _ Hsane2)) as Hsg2.
  unfold bound_stickies in Hsg2 |- *. unfold sticky_limits, runtime_routing. cbn [rc_ChannelGroups rt_ChannelGroups] in *.
  rewrite Hg in *. apply Forall_cons in Hsg2 as [Hsg2 _]. destruct (sticky_limit_sane _ Hsg2) as [E3 E4].
  cbn [map gr_Scheduling cloneRuntimeRoutingChannelGroup]. rewrite E3, E4.
  unfold bound_group, bound_sticky. cbn [cg_Scheduling]. revert He' Hm'. clear.
  destruct (cg_Scheduling (sanitize_group g)) as [d [e m r] w]. cbn. by intros -> ->.
Qed.

End store_proofs.

(** ** Witnesses *)

Section witnesses.
#[local] Existing Instance listing_order.

#[local] Existing Instance no_urls.

(** A codec that knows one section. *)
Definition one_section (c : RoutingConfig) : RoutingJSON :=
  {| json_Marshal _ := Some "{}"; json_Unmarshal _ := Some c |}.
#[local] Instance pro_json : RoutingJSON := one_section (bound_stickies (SanitizeRouting pro_body)).

Lemma pro_roundtrips : roundtrips (bound_stickies (SanitizeRouting pro_body)).
Proof. exists "{}". by split_and!. Qed.

Lemma unlimited_sticky_lost_witness : ∃ row' memory v,
  PutRoutingConfig Some true false pro_body (-1) None = (row', Some (memory, v)) ∧
  sticky_limits memory = [(true, 0)] ∧
  ∃ loaded, GetWithVersion true false row' = (Some loaded, v) ∧ sticky_limits loaded = [(true, 200)].
Proof.
  do 3 eexists. split; [reflexivity|].
  eapply (unlimited_sticky_lost pro_group "ss" true [MkPathRoute "pro/" "PRO" true "x"] (-1) None);
    [apply pro_settled|by vm_compute|reflexivity|reflexivity|apply pro_roundtrips|reflexivity].
Defined.

(** The limit is already a number, so that the stored section is the sanitized one. *)
Definition bounded_body : RoutingConfig := bound_stickies (SanitizeRouting pro_body).

Lemma saved_routing_read_back_witness : ∃ row' v,
  CompareAndSwap true false bounded_body 3 (Some ("old", 3)) = (row', Saved v) ∧
  GetWithVersion true false row' = (Some (bound_stickies (SanitizeRouting bounded_body)), v) ∧ v = 4.
Proof.
  assert (E : SanitizeRouting bounded_body = bound_stickies (SanitizeRouting pro_body)) by by vm_compute.
  do 2 eexists. split; [reflexivity|].
  eapply (saved_routing_read_back bounded_body 3 (Some ("old", 3)));
    [split; repeat constructor|unfold normalize; rewrite E; apply pro_roundtrips|reflexivity].
Defined.

(** A change of the strategy; another writer comes first once. *)
Definition set_strategy (c : RoutingConfig) : RoutingConfig * bool :=
  (MkRoutingConfig "fill-first" (rc_IncludeDefaultGroup c) (rc_ChannelGroups c) (rc_PathRoutes c), true).
Definition raced_once (i : nat) : attempt_env :=
  match i with
  | 0%nat => MkAttempt false (Some ("{}", 1)) false (Some ("{}", 2))
  | _ => MkAttempt false (Some ("{}", 2)) false (Some ("{}", 2))
  end.

Lemma update_replaces_what_it_read_witness :
  (∀ i, numbered (at_read (raced_once i)) ∧ numbered (at_write (raced_once i))) ∧
  outcome set_strategy (λ f _, f) raced_once pro_body 0 3 None (Update set_strategy (λ f _, f) true raced_once pro_body None) ∧
  fst (Update set_strategy (λ f _, f) true raced_once pro_body None) = Some ("{}", 3).
Proof.
  assert (H : ∀ i, numbered (at_read (raced_once i)) ∧ numbered (at_write (raced_once i))) by by intros [|i].
  split_and!; [exact H|by apply update_replaces_what_it_read|reflexivity].
Defined.

End witnesses.
