(* ===== verification/ChannelRename.v ===== *)
(** * Renaming and removing channels in the routing section

    Models the routing part of
    [src/internal/api/handlers/management/channel_rename.go] and [persistDerivedRouting]
    ([routing_strategy.go]): every reference to an old name of a channel is replaced, in
    the match of the groups and in both weight maps, and the change is applied to the
    stored row. The functions of the source change the section in place and report whether
    they did; here they return both. *)
From S2P Require Import Prelude GoModel ModelNames AuthTypes GroupModels RoutingGroups RoutingConfig RoutingStore.
From Stdlib Require Import Ascii SpecFloat.

(** ** Names *)

Definition name_key (value : string) : string := ToLower (TrimSpace value).

Definition channelRenameSet (oldNames : list string) (newName : string) : gset string :=
  foldl (λ oldNameSet oldName,
    let oldKey := name_key oldName in
    if (String.eqb oldKey "" || String.eqb oldKey (name_key newName)) then oldNameSet
    else {[oldKey]} ∪ oldNameSet) ∅ oldNames.

Definition shouldRenameChannel (value : string) (oldNameSet : gset string) : bool :=
  bool_decide (name_key value ∈ oldNameSet).

(** ** Lists

    The loop of [renameChannelList] ([Some newName]) and of [removeChannelList] ([None]):
    the names it appends and whether it found something to change. *)
Fixpoint channel_loop (target : option string) (oldNameSet seen : gset string) (values : list string)
    : list string * bool :=
  match values with
  | [] => ([], false)
  | value :: values =>
      let trimmed := TrimSpace value in
      if String.eqb trimmed "" then channel_loop target oldNameSet seen values
      else
        let renamed := shouldRenameChannel trimmed oldNameSet in
        match (if renamed then target else Some trimmed) with
        | None => let '(out, _) := channel_loop target oldNameSet seen values in (out, true)
        | Some trimmed =>
            let key := ToLower trimmed in
            if bool_decide (key ∈ seen) then
              let '(out, _) := channel_loop target oldNameSet seen values in (out, true)
            else
              let '(out, changed) := channel_loop target oldNameSet ({[key]} ∪ seen) values in
              (trimmed :: out, (renamed || changed))
        end
  end.

Definition renameChannelList (values : list string) (oldNameSet : gset string) (newName : string)
    : list string * bool := channel_loop (Some newName) oldNameSet ∅ values.

Definition removeChannelList (values : list string) (oldNameSet : gset string) : list string * bool :=
  channel_loop None oldNameSet ∅ values.

(** ** Weights *)

Section weights.
Context {RO : RangeOrder}.

Definition rename_weight_step (oldNameSet : gset string) (newName : string)
    (st : gmap string Z * bool) (entry : string * Z) : gmap string Z * bool :=
  let '(weights, changed) := st in
  let '(channel, weight) := entry in
  if ! shouldRenameChannel channel oldNameSet then st
  else
    let weights := delete channel weights in
    (match weights !! newName with
     | Some existing => if existing <? weight then <[newName := weight]> weights else weights
     | None => <[newName := weight]> weights
     end, true).

Definition renameWeightMap (weights : gmap string Z) (oldNameSet : gset string) (newName : string)
    : gmap string Z * bool :=
  foldl (rename_weight_step oldNameSet newName) (weights, false) (range_order 70 weights).

Definition remove_weight_step (oldNameSet : gset string) (st : gmap string Z * bool) (entry : string * Z)
    : gmap string Z * bool :=
  let '(weights, changed) := st in
  if ! shouldRenameChannel (fst entry) oldNameSet then st else (delete (fst entry) weights, true).

Definition removeWeightMap (weights : gmap string Z) (oldNameSet : gset string) : gmap string Z * bool :=
  foldl (remove_weight_step oldNameSet) (weights, false) (range_order 71 weights).

(** ** The section *)

(** The body of the loops over the groups: the lists and the maps are replaced by what the
    three calls left, the list only when it changed. *)
Definition edit_group (list_edit : list string → list string * bool)
    (map_edit : gmap string Z → gmap string Z * bool) (g : RoutingChannelGroup) : RoutingChannelGroup * bool :=
  let '(channels, c1) := list_edit (cm_Channels (cg_Match g)) in
  let channels := if c1 then channels else cm_Channels (cg_Match g) in
  let '(priorities, c2) := map_edit (cg_ChannelPriorities g) in
  let s := cg_Scheduling g in
  let '(weights, c3) := map_edit (gs_ChannelWeights s) in
  (MkChannelGroup (cg_Name g) (cg_Description g) (cg_Strategy g)
     (MkGroupScheduling (gs_Distribution s) (gs_Sticky s) weights)
     (MkGroupMatch (cm_Prefixes (cg_Match g)) channels (cm_Tags (cg_Match g)))
     (cg_ExcludeFromDefault g) (cg_Priority g) priorities (cg_AllowedModels g) (cg_ExcludedModels g),
   (c1 || c2 || c3)).

Definition edit_routing (edit : RoutingChannelGroup → RoutingChannelGroup * bool) (routing : RoutingConfig)
    : RoutingConfig * bool :=
  let edited := map edit (rc_ChannelGroups routing) in
  (MkRoutingConfig (rc_Strategy routing) (rc_IncludeDefaultGroup routing) (map fst edited) (rc_PathRoutes routing),
   existsb snd edited).

Definition renameRoutingChannelReferences (oldNameSet : gset string) (newName : string) (routing : RoutingConfig)
    : RoutingConfig * bool :=
  edit_routing (edit_group (λ l, renameChannelList l oldNameSet newName)
    (λ w, renameWeightMap w oldNameSet newName)) routing.

Definition removeRoutingChannelReferences (oldNameSet : gset string) (routing : RoutingConfig)
    : RoutingConfig * bool :=
  edit_routing (edit_group (λ l, removeChannelList l oldNameSet) (λ w, removeWeightMap w oldNameSet)) routing.

(** ** Persisting a change that the live section already has *)

Context {RU : RouteURL} {RJ : RoutingJSON}.

(** [live] is [h.cfg.Routing] after the caller's change. The result: the row, the section
    the node goes on with, and whether the call failed. *)
Definition persistDerivedRouting (available : bool) (mutate : RoutingConfig → RoutingConfig * bool)
    (shared : RoutingConfig → RoutingConfig → RoutingConfig) (env : nat → attempt_env) (live : RoutingConfig)
    (row : option (string * Z)) : option (string * Z) * RoutingConfig * bool :=
  if ! available then (row, live, true)
  else match Update mutate shared true env live row with
       | (row, (Unchanged routing | Updated routing)) => (row, routing, true)
       | (row, _) => (row, live, false)
       end.

(** The routing part of [renameChannelReferencesForTenant] for the system tenant. *)
Definition renameLiveRouting (available : bool) (oldNames : list string) (newName : string)
    (shared : RoutingConfig → RoutingConfig → RoutingConfig) (env : nat → attempt_env) (live : RoutingConfig)
    (row : option (string * Z)) : option (string * Z) * RoutingConfig * bool :=
  let newName := TrimSpace newName in
  let oldNameSet := channelRenameSet oldNames newName in
  if (String.eqb newName "" || bool_decide (oldNameSet = ∅)) then (row, live, true)
  else match renameRoutingChannelReferences oldNameSet newName live with
       | (live, false) => (row, live, true)
       | (live, true) =>
           persistDerivedRouting available (renameRoutingChannelReferences oldNameSet newName) shared env live row
       end.

End weights.

(** ** Lists *)

Lemma name_key_TrimSpace v : name_key (TrimSpace v) = name_key v.
Proof. unfold name_key. by rewrite TrimSpace_idem. Qed.

Section names.
Variables (target : option string) (oldNameSet : gset string).

(** The new name is trimmed, not empty and not one of the old ones. *)
Definition fresh_target : Prop :=
  match target with
  | Some n => TrimSpace n = n ∧ n ≠ "" ∧ shouldRenameChannel n oldNameSet = false
  | None => True
  end.

Definition kept_name (v : string) : Prop :=
  TrimSpace v = v ∧ v ≠ "" ∧ shouldRenameChannel v oldNameSet = false.

(** What an entry of the list stands for afterwards, up to its case. *)
Definition renamed_key (value : string) : option string :=
  if shouldRenameChannel value oldNameSet then ToLower <$> target else Some (name_key value).

Context (Hfresh : fresh_target).

Lemma should_TrimSpace v : shouldRenameChannel (TrimSpace v) oldNameSet = shouldRenameChannel v oldNameSet.
Proof. unfold shouldRenameChannel. by rewrite name_key_TrimSpace. Qed.

Lemma channel_loop_kept seen values : let out := fst (channel_loop target oldNameSet seen values) in
  Forall (λ v, kept_name v ∧ ToLower v ∉ seen) out ∧ NoDup (map ToLower out).
Proof.
  revert seen. induction values as [|v values IH]; intros seen; cbn [channel_loop]; [by split; constructor|].
  destruct (String.eqb_spec (TrimSpace v) "") as [|Hne]; [apply IH|]. rewrite should_TrimSpace.
  assert (Hgo : ∀ t, kept_name t →
    let r := if bool_decide (ToLower t ∈ seen) then
        let '(out, _) := channel_loop target oldNameSet seen values in (out, true)
      else let '(out, changed) := channel_loop target oldNameSet ({[ToLower t]} ∪ seen) values in
        (t :: out, (shouldRenameChannel v oldNameSet || changed)%bool) in
    Forall (λ v, kept_name v ∧ ToLower v ∉ seen) (fst r) ∧ NoDup (map ToLower (fst r))).
  { intros t Ht. destruct (bool_decide_reflect (ToLower t ∈ seen)) as [Hs|Hs].
    { specialize (IH seen). by destruct (channel_loop _ _ _ _). }
    specialize (IH ({[ToLower t]} ∪ seen)). destruct (channel_loop _ _ _ _) as [out c].
    cbn [fst map] in *. destruct IH as [H1 H2]. split.
    - constructor; [done|]. eapply Forall_impl; [exact H1|]. intros w [? ?]. split; [done|set_solver].
    - constructor; [|done]. intros Hin. apply list_elem_of_fmap in Hin as (w & Hw & Hin).
      rewrite Forall_forall in H1. destruct (H1 w Hin) as [_ H]. set_solver. }
  destruct (shouldRenameChannel v oldNameSet) eqn:Es.
  - unfold fresh_target in Hfresh. destruct target as [n|]; [by apply Hgo|].
    specialize (IH seen). by destruct (channel_loop _ _ _ _).
  - apply Hgo. split_and!; [apply TrimSpace_idem|done|by rewrite should_TrimSpace].
Qed.

(** Every reference is still there, under its new name. *)
Lemma channel_loop_complete seen values v k : v ∈ values → TrimSpace v ≠ "" → renamed_key v = Some k →
  k ∈ seen ∨ k ∈ map ToLower (fst (channel_loop target oldNameSet seen values)).
Proof.
  revert seen. induction values as [|w values IH]; intros seen Hin Hne Hk; [by apply not_elem_of_nil in Hin|].
  cbn [channel_loop]. apply elem_of_cons in Hin as [->|Hin].
  - destruct (String.eqb_spec (TrimSpace w) "") as [|_]; [done|]. rewrite should_TrimSpace.
    unfold renamed_key in Hk. assert (Hgo : ∀ t c, k = ToLower t → k ∈ seen ∨
      k ∈ map ToLower (fst (if bool_decide (ToLower t ∈ seen) then
        let '(out, _) := channel_loop target oldNameSet seen values in (out, true)
      else let '(out, changed) := channel_loop target oldNameSet ({[ToLower t]} ∪ seen) values in
        (t :: out, (c || changed)%bool)))).
    { intros t c ->. destruct (bool_decide_reflect (ToLower t ∈ seen)); [by left|]. right.
      destruct (channel_loop _ _ _ _). by left. }
    destruct (shouldRenameChannel w oldNameSet); [|apply Hgo; by injection Hk as <-].
    destruct target as [n|]; [|done]. apply Hgo. by injection Hk as <-.
  - destruct (String.eqb _ _); [by apply IH|]. rewrite should_TrimSpace.
    destruct (if shouldRenameChannel w oldNameSet then target else Some (TrimSpace w)) as [t|].
    + destruct (bool_decide _).
      * destruct (IH seen Hin Hne Hk) as [?|H]; [by left|right]. by destruct (channel_loop _ _ _ _).
      * destruct (IH ({[ToLower t]} ∪ seen) Hin Hne Hk) as [[->%elem_of_singleton|?]%elem_of_union|H]; [|by left|].
        -- right. destruct (channel_loop _ _ _ _). by left.
        -- right. destruct (channel_loop _ _ _ _). by right.
    + destruct (IH seen Hin Hne Hk) as [?|H]; [by left|right]. by destruct (channel_loop _ _ _ _).
Qed.

(** Nothing else is: a name is a trimmed entry of the list, or the new name. *)
Lemma channel_loop_sound seen values v : v ∈ fst (channel_loop target oldNameSet seen values) →
  ∃ w, w ∈ values ∧ (if shouldRenameChannel w oldNameSet then target = Some v else v = TrimSpace w).
Proof.
  revert seen. induction values as [|w values IH]; intros seen; cbn [channel_loop]; [intros H; destruct (not_elem_of_nil _ H)|].
  assert (Hrec : ∀ s, v ∈ fst (channel_loop target oldNameSet s values) →
    ∃ w', w' ∈ w :: values ∧ (if shouldRenameChannel w' oldNameSet then target = Some v else v = TrimSpace w')).
  { intros s H. destruct (IH s H) as (w' & ? & ?). exists w'. split; [by right|done]. }
  destruct (String.eqb _ _); [apply Hrec|]. rewrite should_TrimSpace.
  destruct (if shouldRenameChannel w oldNameSet then target else Some (TrimSpace w)) as [t|] eqn:Et.
  - destruct (bool_decide _).
    + specialize (Hrec seen). by destruct (channel_loop _ _ _ _).
    + specialize (Hrec ({[ToLower t]} ∪ seen)). destruct (channel_loop _ _ _ _) as [out c]. cbn [fst] in *.
      intros [->|H]%elem_of_cons; [|by apply Hrec]. exists w. split; [by left|].
      by destruct (shouldRenameChannel w oldNameSet); [|simplify_eq].
  - specialize (Hrec seen). by destruct (channel_loop _ _ _ _).
Qed.

(** A list of distinct kept names is left alone. *)
Lemma channel_loop_id seen l : Forall (λ v, kept_name v ∧ ToLower v ∉ seen) l → NoDup (map ToLower l) →
  channel_loop target oldNameSet seen l = (l, false).
Proof.
  revert seen. induction l as [|v l IH]; intros seen Hf Hn; [done|]. cbn [channel_loop].
  apply Forall_cons in Hf as [[(Ht & Hne & Hs) Hseen] Hf]. apply NoDup_cons in Hn as [Hv Hn].
  rewrite Ht, Hs. destruct (String.eqb_spec v ""); [done|]. rewrite bool_decide_false by done.
  rewrite IH; [done| |done]. rewrite Forall_forall in Hf |- *. intros w Hw. destruct (Hf w Hw).
  split; [done|]. apply not_elem_of_union. split; [|done]. rewrite not_elem_of_singleton.
  intros E. apply Hv. rewrite <-E. by apply list_elem_of_fmap_2.
Qed.

(** When nothing changed, no entry had an old name. *)
Lemma channel_loop_unchanged seen values : "" ∉ oldNameSet →
  snd (channel_loop target oldNameSet seen values) = false →
  Forall (λ v, shouldRenameChannel v oldNameSet = false) values.
Proof.
  intros Hblank. revert seen. induction values as [|v values IH]; intros seen; cbn [channel_loop]; [constructor|].
  destruct (String.eqb_spec (TrimSpace v) "") as [E|E].
  { intros H. constructor; [|by eapply IH]. unfold shouldRenameChannel, name_key. rewrite E.
    by apply bool_decide_eq_false. }
  rewrite should_TrimSpace. destruct (shouldRenameChannel v oldNameSet) eqn:Es.
  - destruct target as [n|]; [|by destruct (channel_loop _ _ _ _)].
    destruct (bool_decide _); by destruct (channel_loop _ _ _ _).
  - destruct (bool_decide _); [by destruct (channel_loop _ _ _ _)|].
    specialize (IH ({[ToLower (TrimSpace v)]} ∪ seen)). destruct (channel_loop _ _ _ _) as [out c]. cbn [snd orb] in *.
    intros ->. constructor; [done|by apply IH].
Qed.

End names.

(** ** Weights *)

Section weight_maps.
Context {RO : RangeOrder} (oldNameSet : gset string).
Notation old k := (shouldRenameChannel k oldNameSet).

(** What the new name weighs: the greatest weight of its own entry and of the old ones. *)
Definition merged (newName : string) (w w' : gmap string Z) : Prop :=
  (∀ n, n ≠ newName → w' !! n = if old n then None else w !! n) ∧
  (∀ x, w' !! newName = Some x → ∃ k, w !! k = Some x ∧ (k = newName ∨ old k = true)) ∧
  (∀ k x, w !! k = Some x → k = newName ∨ old k = true → ∃ y, w' !! newName = Some y ∧ x ≤ y).

Lemma rename_weight_fold newName w l : old newName = false → (∀ k x, (k, x) ∈ l → w !! k = Some x) →
  let r := foldl (rename_weight_step oldNameSet newName) (w, false) l in
  (∀ n, n ≠ newName → fst r !! n = if old n && bool_decide (n ∈ l.*1) then None else w !! n) ∧
  (∀ x, fst r !! newName = Some x → ∃ k, w !! k = Some x ∧ (k = newName ∨ old k = true)) ∧
  (∀ k x, w !! k = Some x → k = newName ∨ (old k = true ∧ k ∈ l.*1) → ∃ y, fst r !! newName = Some y ∧ x ≤ y) ∧
  (snd r = false ↔ Forall (λ e, old (fst e) = false) l).
Proof.
  intros Hnew. induction l as [|[k x] l IH] using rev_ind; intros Hl.
  { cbn. split_and!; [|eauto|intros k x H [->|[_ H']]; [by exists x; split; [done|lia]|destruct (not_elem_of_nil _ H')]|by split].
    intros n _. by destruct (old n). }
  rewrite foldl_app. cbn [foldl]. destruct (IH ltac:(intros; apply Hl; set_solver)) as (H1 & H2 & H3 & H4).
  destruct (foldl _ _ l) as [w1 c]. cbn [fst snd rename_weight_step] in *. rewrite fmap_app. cbn [fmap list_fmap fst].
  rewrite Forall_app, Forall_singleton. cbn [fst].
  destruct (old k) eqn:Ek; cbn [negb fst snd].
  2: { split_and!; [|done| |].
       - intros n Hn. rewrite (H1 n Hn). destruct (old n) eqn:En; [|done]. cbn [andb].
         rewrite (bool_decide_ext (n ∈ l.*1 ++ [k]) (n ∈ l.*1)); [done|].
         rewrite elem_of_app, list_elem_of_singleton. split; [|by left]. intros [?| ->]; [done|congruence].
       - intros n y Hn Hc. apply (H3 n y Hn). destruct Hc as [->|[Ho Hin]]; [by left|right]. split; [done|].
         apply elem_of_app in Hin as [?|Hin]; [done|]. apply list_elem_of_singleton in Hin as ->. congruence.
       - rewrite H4. naive_solver. }
  assert (Hk : w !! k = Some x) by (apply Hl; set_solver).
  assert (Hne : k ≠ newName) by (intros ->; congruence).
  set (w2 := match delete k w1 !! newName with Some _ => _ | None => _ end).
  assert (Hout : ∀ n, n ≠ newName → w2 !! n = delete k w1 !! n).
  { intros n Hn. unfold w2. destruct (delete k w1 !! newName) as [z|]; [destruct (z <? x)|]; rewrite ?lookup_insert_ne by congruence; reflexivity. }
  assert (Hin : ∃ y, w2 !! newName = Some y ∧ x ≤ y ∧ (∀ z, w1 !! newName = Some z → z ≤ y) ∧
      (y = x ∨ w1 !! newName = Some y)).
  { unfold w2. rewrite lookup_delete_ne by done. destruct (w1 !! newName) as [z|] eqn:Ez.
    - destruct (Z.ltb_spec z x).
      + exists x. rewrite lookup_insert_eq. split_and!; [done|lia| |by left]. intros ? [= <-]. lia.
      + exists z. rewrite lookup_delete_ne by done. split_and!; [done|lia| |by right]. intros ? [= <-]. lia.
    - exists x. rewrite lookup_insert_eq. split_and!; [done|lia|done|by left]. }
  destruct Hin as (y & Hy & Hxy & Hmax & Hor). split_and!.
  - intros n Hn. rewrite (Hout n Hn). destruct (decide (n = k)) as [->|Hnk].
    + rewrite lookup_delete_eq, Ek. cbn [andb]. by rewrite bool_decide_true by set_solver.
    + rewrite lookup_delete_ne by done. rewrite (H1 n Hn).
      rewrite (bool_decide_ext (n ∈ l.*1 ++ [k]) (n ∈ l.*1)); [done|]. set_solver.
  - intros z. rewrite Hy. intros [= <-]. destruct Hor as [->|Hor]; [by exists k; auto|by apply H2].
  - intros n z Hn Hc. exists y. split; [done|]. destruct (decide (n = k)) as [->|Hnk]; [rewrite Hk in Hn; by simplify_eq|].
    destruct (H3 n z Hn) as (v & Hv & ?); [|specialize (Hmax v Hv); lia].
    destruct Hc as [->|[Ho Hi]]; [by left|right]. split; [done|]. set_solver.
  - split; [done|]. intros [_ H]. congruence.
Qed.

Lemma old_in_range (w : gmap string Z) k site : w !! k ≠ None → k ∈ (range_order site w).*1.
Proof.
  intros H. destruct (w !! k) as [x|] eqn:E; [|done]. apply list_elem_of_fmap. exists (k, x).
  by rewrite elem_of_range.
Qed.

Lemma renameWeightMap_merged newName w : old newName = false → merged newName w (fst (renameWeightMap w oldNameSet newName)).
Proof.
  intros Hnew. destruct (rename_weight_fold newName w (range_order 70 w) Hnew) as (H1 & H2 & H3 & _);
    [by intros k x ?%elem_of_range|]. fold (renameWeightMap w oldNameSet newName) in *. split_and!; [|done|].
  - intros n Hn. rewrite (H1 n Hn). destruct (old n); [|done]. cbn [andb].
    destruct (w !! n) as [x|] eqn:E; [rewrite bool_decide_true; [done|apply old_in_range; by rewrite E]|by case_match].
  - intros k x Hk Hc. apply (H3 k x Hk). destruct Hc as [?|?]; [by left|right]. split; [done|].
    apply old_in_range. by rewrite Hk.
Qed.

Lemma renameWeightMap_same newName (w : gmap string Z) : (∀ k, is_Some (w !! k) → old k = false) →
  renameWeightMap w oldNameSet newName = (w, false).
Proof.
  intros H. unfold renameWeightMap.
  assert (Hl : Forall (λ e, old (fst e) = false) (range_order 70 w)).
  { apply Forall_forall. intros [k x] Hk. apply elem_of_range in Hk. apply H. by exists x. }
  induction Hl as [|[k x] l Hk _ IH]; [done|]. cbn in Hk |- *. by rewrite Hk.
Qed.

Lemma renameWeightMap_unchanged newName (w : gmap string Z) : old newName = false → snd (renameWeightMap w oldNameSet newName) = false →
  ∀ k, is_Some (w !! k) → old k = false.
Proof.
  intros Hnew Hc k [x Hk]. destruct (rename_weight_fold newName w (range_order 70 w) Hnew) as (_ & _ & _ & H4);
    [by intros ? ? ?%elem_of_range|]. fold (renameWeightMap w oldNameSet newName) in H4.
  apply H4 in Hc. rewrite Forall_forall in Hc. apply (Hc (k, x)). by apply elem_of_range.
Qed.

Lemma removeWeightMap_spec (w : gmap string Z) n : fst (removeWeightMap w oldNameSet) !! n = if old n then None else w !! n.
Proof.
  unfold removeWeightMap.
  assert (H : ∀ l st, fst (foldl (remove_weight_step oldNameSet) st l) !! n =
    if old n && bool_decide (n ∈ l.*1) then None else fst st !! n).
  { induction l as [|[k x] l IH]; intros [w' c]; [by rewrite andb_comm|]. cbn [foldl]. rewrite IH.
    unfold remove_weight_step. cbn [fst]. destruct (decide (n = k)) as [->|Hnk].
    - destruct (old k) eqn:Ek; cbn [negb fst andb]; [|done].
      rewrite (bool_decide_true (k ∈ ((k, x) :: l).*1)) by by left. rewrite lookup_delete_eq. by destruct (bool_decide (k ∈ l.*1)).
    - rewrite (bool_decide_ext (n ∈ ((k, x) :: l).*1) (n ∈ l.*1))
        by (rewrite fmap_cons, elem_of_cons; naive_solver).
      destruct (old k); cbn [negb fst]; [|done]. by rewrite lookup_delete_ne. }
  rewrite H. cbn [fst]. destruct (old n); [|done]. cbn [andb].
  destruct (bool_decide_reflect (n ∈ (range_order 71 w).*1)) as [_|Hn]; [done|].
  apply eq_None_not_Some. intros [x Hx]. apply Hn, old_in_range. by rewrite Hx.
Qed.

End weight_maps.

(** ** The section *)

Section rename.
Context {RO : RangeOrder} {RU : RouteURL} {RJ : RoutingJSON}.
Variables (oldNames : list string) (newName : string).

(** The renaming of a request: the trimmed new name, and the set of old keys. *)
Let target : string := TrimSpace newName.
Let olds : gset string := channelRenameSet oldNames target.

Lemma channelRenameSet_spec key :
  key ∈ olds ↔ key ≠ "" ∧ key ≠ name_key newName ∧ ∃ n, n ∈ oldNames ∧ name_key n = key.
Proof.
  unfold olds, channelRenameSet. unfold target. rewrite name_key_TrimSpace.
  induction oldNames as [|n l IH] using rev_ind.
  { cbn. split; [set_solver|]. intros (_ & _ & n & H & _). destruct (not_elem_of_nil _ H). }
  rewrite foldl_app. cbn [foldl].
  assert (Hex : (∃ m, m ∈ l ++ [n] ∧ name_key m = key) ↔ (∃ m, m ∈ l ∧ name_key m = key) ∨ name_key n = key).
  { setoid_rewrite elem_of_app. setoid_rewrite list_elem_of_singleton. naive_solver. }
  rewrite Hex. set (rest := ∃ m, m ∈ l ∧ name_key m = key) in *. clearbody rest.
  destruct (String.eqb_spec (name_key n) "") as [E|E]; cbn [orb];
    [|destruct (String.eqb_spec (name_key n) (name_key newName)) as [E'|E']];
    [rewrite IH|rewrite IH|rewrite elem_of_union, elem_of_singleton, IH].
  - split; [intros (?&?&?); auto|intros (?&?&[?| <-]); [auto|congruence]].
  - split; [intros (?&?&?); auto|intros (?&?&[?| <-]); [auto|congruence]].
  - split; [intros [->|(?&?&?)]; auto|intros (?&?&[?| <-]); auto].
Qed.

Lemma olds_blank : "" ∉ olds.
Proof. rewrite channelRenameSet_spec. by intros [? _]. Qed.

Lemma target_not_old : shouldRenameChannel target olds = false.
Proof.
  apply bool_decide_eq_false. unfold target. rewrite name_key_TrimSpace, channelRenameSet_spec. by intros (_ & ? & _).
Qed.

Lemma target_fresh : target ≠ "" → fresh_target (Some target) olds.
Proof. intros H. split_and!; [apply TrimSpace_idem|done|apply target_not_old]. Qed.

(** What one group looks like after its channels were renamed. *)
Record renamed_group (g g' : RoutingChannelGroup) : Prop := {
  (** no reference to an old name is left, in the list and in both maps *)
  rg_list : Forall (λ v, shouldRenameChannel v olds = false) (cm_Channels (cg_Match g'));
  (** every channel of the list is still in it, under the new name if it had an old one *)
  rg_kept : ∀ v k, v ∈ cm_Channels (cg_Match g) → TrimSpace v ≠ "" → renamed_key (Some target) olds v = Some k →
    k ∈ map name_key (cm_Channels (cg_Match g'));
  (** and nothing was added *)
  rg_only : ∀ v, v ∈ cm_Channels (cg_Match g') → v ∈ cm_Channels (cg_Match g) ∨
    ∃ w, w ∈ cm_Channels (cg_Match g) ∧ v = (if shouldRenameChannel w olds then target else TrimSpace w);
  rg_weights : merged olds target (gs_ChannelWeights (cg_Scheduling g)) (gs_ChannelWeights (cg_Scheduling g'));
  rg_priorities : merged olds target (cg_ChannelPriorities g) (cg_ChannelPriorities g') }.

Definition rename_edit : RoutingChannelGroup → RoutingChannelGroup * bool :=
  edit_group (λ l, renameChannelList l olds target) (λ w, renameWeightMap w olds target).

Lemma kept_name_key l : Forall (λ v, kept_name olds v) l → map ToLower l = map name_key l.
Proof. intros H. apply map_ext_Forall. eapply Forall_impl; [exact H|]. intros v (Ht & _). unfold name_key. by rewrite Ht. Qed.

Lemma rename_list_spec l (Hne : target ≠ "") :
  let out := if snd (renameChannelList l olds target) then fst (renameChannelList l olds target) else l in
  Forall (λ v, shouldRenameChannel v olds = false) out ∧
  (∀ v k, v ∈ l → TrimSpace v ≠ "" → renamed_key (Some target) olds v = Some k → k ∈ map name_key out) ∧
  (∀ v, v ∈ out → v ∈ l ∨ ∃ w, w ∈ l ∧ v = (if shouldRenameChannel w olds then target else TrimSpace w)) ∧
  snd (renameChannelList out olds target) = false.
Proof.
  unfold renameChannelList. pose proof (target_fresh Hne) as Hf.
  pose proof (channel_loop_kept (Some target) olds Hf ∅ l) as [Hk Hn].
  pose proof (channel_loop_complete (Some target) olds ∅ l) as Hc.
  pose proof (channel_loop_sound (Some target) olds ∅ l) as Hs.
  pose proof (channel_loop_unchanged (Some target) olds ∅ l olds_blank) as Hu.
  destruct (channel_loop (Some target) olds ∅ l) as [out [|]] eqn:E; cbn [fst snd] in *.
  - assert (Hk' : Forall (λ v, kept_name olds v) out) by (eapply Forall_impl; [exact Hk|]; by intros v [? _]).
    split_and!.
    + eapply Forall_impl; [exact Hk'|]. by intros v (_ & _ & ?).
    + intros v k Hv Hv' Hr. rewrite <-(kept_name_key _ Hk'). destruct (Hc v k Hv Hv' Hr); [set_solver|done].
    + intros v Hv. right. destruct (Hs v Hv) as (w & Hw & Hif). exists w. split; [done|].
      by destruct (shouldRenameChannel w olds); [simplify_eq|].
    + by rewrite channel_loop_id.
  - specialize (Hu eq_refl). split_and!; [done| |by left|by rewrite E].
    intros v k Hv _ Hr. unfold renamed_key in Hr. rewrite Forall_forall in Hu. rewrite (Hu v Hv) in Hr.
    injection Hr as <-. by apply list_elem_of_fmap_2.
Qed.

Lemma rename_map_twice w : renameWeightMap (fst (renameWeightMap w olds target)) olds target =
  (fst (renameWeightMap w olds target), false).
Proof.
  destruct (renameWeightMap_merged olds target w target_not_old) as (H1 & _ & _).
  apply renameWeightMap_same. intros k [x Hx]. destruct (decide (k = target)) as [->|Hk]; [apply target_not_old|].
  rewrite (H1 k Hk) in Hx. by destruct (shouldRenameChannel k olds).
Qed.

Lemma rename_edit_spec g : target ≠ "" →
  renamed_group g (fst (rename_edit g)) ∧ snd (rename_edit (fst (rename_edit g))) = false.
Proof.
  intros Hne. destruct (rename_list_spec (cm_Channels (cg_Match g)) Hne) as (H1 & H2 & H3 & H4).
  pose proof (renameWeightMap_merged olds target (gs_ChannelWeights (cg_Scheduling g)) target_not_old) as H5.
  pose proof (renameWeightMap_merged olds target (cg_ChannelPriorities g) target_not_old) as H6.
  pose proof (rename_map_twice (gs_ChannelWeights (cg_Scheduling g))) as H7.
  pose proof (rename_map_twice (cg_ChannelPriorities g)) as H8.
  unfold rename_edit, edit_group. destruct (renameChannelList (cm_Channels (cg_Match g)) olds target) as [l c1].
  destruct (renameWeightMap (cg_ChannelPriorities g) olds target) as [p c2].
  destruct (renameWeightMap (gs_ChannelWeights (cg_Scheduling g)) olds target) as [w c3].
  cbn [fst snd cg_Match cm_Channels cg_ChannelPriorities cg_Scheduling gs_ChannelWeights] in *.
  split; [by constructor|]. destruct (renameChannelList _ olds target) as [l' c']. cbn [snd] in H4. subst c'.
  by rewrite H7, H8.
Qed.

(** Renaming a channel renames it everywhere it is referenced, in one pass whatever the
    order of the maps: afterwards no group refers to an old name in its match, its weights or
    its legacy priorities; every other channel keeps its place and its weight, and the new
    name gets the greatest of the weights it takes over. *)
Lemma rename_leaves_no_reference routing : TrimSpace newName ≠ "" →
  Forall2 renamed_group (rc_ChannelGroups routing)
    (rc_ChannelGroups (fst (renameRoutingChannelReferences olds target routing))).
Proof.
  intros Hne. unfold renameRoutingChannelReferences, edit_routing. cbn [fst rc_ChannelGroups].
  fold rename_edit. rewrite map_map. induction (rc_ChannelGroups routing) as [|g l IH]; constructor; [|done].
  by apply rename_edit_spec.
Qed.

Lemma rename_twice routing : TrimSpace newName ≠ "" →
  snd (renameRoutingChannelReferences olds target (fst (renameRoutingChannelReferences olds target routing))) = false.
Proof.
  intros Hne. unfold renameRoutingChannelReferences, edit_routing. cbn [fst snd rc_ChannelGroups].
  fold rename_edit. rewrite !map_map. induction (rc_ChannelGroups routing) as [|g l IH]; [done|].
  cbn [map existsb]. rewrite (proj2 (rename_edit_spec g Hne)). exact IH.
Qed.

(** The live section of the system tenant is meant to be written when no row exists
    yet. It is not: the rename has already been applied to the live section that serves as
    the fallback, the second application finds nothing to change, and [Update] ends without
    writing. *)
Lemma derived_rename_not_stored shared env live : TrimSpace newName ≠ "" → at_read (env 0%nat) = None →
  snd (renameRoutingChannelReferences olds target live) = true →
  fst (fst (renameLiveRouting true oldNames newName shared env live None)) = None.
Proof.
  intros Hne Henv Hch. unfold renameLiveRouting. fold target olds.
  destruct (String.eqb_spec target "") as [|_]; [done|]. cbn [orb].
  destruct (bool_decide_reflect (olds = ∅)); [done|].
  pose proof (rename_twice live Hne) as Htw.
  destruct (renameRoutingChannelReferences olds target live) as [live' ch]. cbn [fst snd] in *. subst ch.
  unfold persistDerivedRouting, Update. cbn [negb update_loop]. rewrite Henv.
  assert (∀ f, GetWithVersion true f None = (None, 0)) as -> by by intros [].
  cbn [default]. change (default live' None) with live'.
  destruct (renameRoutingChannelReferences olds target live') as [c b]. cbn [snd] in Htw. by subst b.
Qed.

End rename.

(** ** Witnesses *)

Section witnesses.
#[local] Existing Instances listing_order no_urls pro_json.

Definition two_channels : RoutingConfig :=
  MkRoutingConfig "round-robin" true
    [MkChannelGroup "pro" "" "" (MkGroupScheduling "weighted" no_sticky {["Alpha" := 2; "beta" := 3; "gamma" := 1]})
       (MkGroupMatch [] ["alpha"; " Beta "; "gamma"] []) false 0 ∅ [] []] [].

Lemma rename_leaves_no_reference_witness : TrimSpace " Beta" ≠ "" ∧
  Forall2 (renamed_group ["ALPHA"] " Beta") (rc_ChannelGroups two_channels)
    (rc_ChannelGroups (fst (renameRoutingChannelReferences (channelRenameSet ["ALPHA"] (TrimSpace " Beta"))
      (TrimSpace " Beta") two_channels))).
Proof. split; [by vm_compute|]. apply (rename_leaves_no_reference ["ALPHA"] " Beta"). by vm_compute. Defined.

Lemma derived_rename_not_stored_witness :
  let env := λ _ : nat, MkAttempt false None false None in
  snd (renameRoutingChannelReferences (channelRenameSet ["ALPHA"] "delta") "delta" two_channels) = true ∧
  fst (fst (renameLiveRouting true ["ALPHA"] "delta" (λ _ c, c) env two_channels None)) = None.
Proof.
  split; [reflexivity|]. apply (derived_rename_not_stored ["ALPHA"] "delta"); [by vm_compute|reflexivity|reflexivity].
Defined.

End witnesses.
