(* ===== verification/Routing.v ===== *)
(** * Choosing a credential for a request

    Models [src/sdk/cliproxy/auth/conductor_selector_service.go] (the scope of a
    request, the candidates of a route group, [pickLocked], [pickProvider],
    [pickMixed]), [selection_diagnostics.go], the parts of [conductor_selection.go] and
    [routing_groups.go] that choose a selector or answer whether a model can be served,
    and [executorForTenantLocked] of [conductor_registry.go].

    The manager is a record of what selection reads under its lock; the states of its
    selectors are threaded. Executors are an abstract type. [ensureSelectedAuthIndex],
    which stamps a display index on the returned copy, is left out. *)
From S2P Require Import Prelude GoModel Strconv AuthTypes ModelNames GroupModels Weighted Availability Limiter Aggregate ClaudeHealth QuotaPersist Cooldown Conductor Selectors SessionSticky RoutingGroups.
From Stdlib Require Import Ascii.

(** ** Scope *)

Record selectionScope := MkScope {
  sp_tenantID : string; sp_cfg : option runtimeRoutingConfig; sp_model : string; sp_modelKey : string;
  sp_pinnedAuthID : string; sp_allowedChannels : gset string; sp_allowedGroups : gset string;
  sp_routeGroup : string; sp_routeFallback : string }.

Definition newSelectionScope {J : GoJSON} (cfg : option runtimeRoutingConfig) (model : string)
    (meta : gmap string GoAny) : selectionScope :=
  {| sp_tenantID := tenantIDFromMetadata meta; sp_cfg := cfg; sp_model := model;
     sp_modelKey := normalizeSelectionModelKey model;
     sp_pinnedAuthID := pinnedAuthIDFromMetadata meta;
     sp_allowedChannels := allowedChannelsFromMetadata meta;
     sp_allowedGroups := allowedChannelGroupsFromMetadata meta;
     sp_routeGroup := routeGroupFromMetadata meta;
     sp_routeFallback := routeFallbackFromMetadata meta |}.

Definition initialRouteGroup (s : selectionScope) : string :=
  effectiveRouteGroupForSelection (sp_cfg s) (sp_routeGroup s) (sp_allowedGroups s) (sp_modelKey s).

Definition fallbackRouteGroup (s : selectionScope) : string :=
  if (String.eqb (sp_routeGroup s) "" || ! String.eqb (sp_routeFallback s) "default") then ""
  else defaultRouteGroupForSelection (sp_cfg s) (sp_modelKey s).

Definition routeGroupsToTry (s : selectionScope) : list string :=
  let initial := initialRouteGroup s in
  let fallback := fallbackRouteGroup s in
  if (String.eqb fallback "" || String.eqb fallback initial) then [initial] else [initial; fallback].

Definition enabled (a : Auth) : bool := ! au_Disabled a && ! status_eqb (au_Status a) StatusDisabled.

Definition allowsCandidate {J : GoJSON} {MD : ModelDiscovery} (s : selectionScope) (candidate : option Auth)
    (scopedRouteGroup : string) (tried : gset string) (registryRef : option ModelRegistry) : bool :=
  match candidate with
  | None => false
  | Some a =>
      if ! enabled a then false
      else if ! String.eqb (normalizedTenantID (au_TenantID a)) (sp_tenantID s) then false
      else if (! String.eqb (sp_pinnedAuthID s) "" && ! String.eqb (au_ID a) (sp_pinnedAuthID s)) then false
      else if ! authAllowedByChannels a (sp_allowedChannels s) then false
      else if ! authAllowedByGroups (sp_cfg s) a (sp_allowedGroups s) then false
      else if (! String.eqb scopedRouteGroup "" && ! authInRouteGroup (sp_cfg s) a scopedRouteGroup) then false
      else if bool_decide (au_ID a ∈ tried) then false
      else if (! String.eqb (sp_modelKey s) "" &&
               ! candidateSupportsModel (sp_cfg s) registryRef a (sp_modelKey s) scopedRouteGroup (sp_allowedGroups s))
           then false
      else true
  end.

(** [strconv.FormatFloat(f, 'f', -1, 64)]: the shortest decimal that reads back as [f]. *)
Class FloatText := FormatFloat : float64 → string.

Definition set_if (b : bool) (key value : string) (m : gmap string GoAny) : gmap string GoAny :=
  if b then <[key := AString value]> m else m.

Definition optionsForSelectionScope {FT : FloatText} (opts : Options) (routeGroup : string)
    (scheduling : runtimeGroupScheduling) : Options :=
  let meta := op_Metadata opts in
  let meta := if ! String.eqb routeGroup "" then <["route_group" := AString routeGroup]> meta
              else delete "route_group" meta in
  let meta := <["scheduling_distribution" := AString (sc_Distribution scheduling)]> meta in
  let meta :=
    if sc_StickyEnabled scheduling then
      set_if (f64_lt f64_zero (sc_StickyRelease scheduling)) "sticky_release_at_load"
        (FormatFloat (sc_StickyRelease scheduling))
        (set_if (0 <? sc_StickyMax scheduling) "sticky_max_requests" (Itoa (sc_StickyMax scheduling))
          (<["sticky_enabled" := AString "true"]> meta))
    else meta in
  MkOptions meta (op_SourceFormat opts) (op_bodyKey opts) (op_Alt opts).

(** ** The manager *)

Record Manager (Ex : Type) := MkManager {
  mg_auths : gmap string (option Auth);
  mg_registry : option ModelRegistry;
  mg_runtimeConfig : gmap string runtimeRoutingConfig;
  mg_executors : gmap string Ex;
  mg_tenantExecutors : gmap string (gmap string Ex);
  mg_limiter : option (Env * limiter) }.
Arguments MkManager {Ex}. Arguments mg_auths {Ex}. Arguments mg_registry {Ex}.
Arguments mg_runtimeConfig {Ex}. Arguments mg_executors {Ex}. Arguments mg_tenantExecutors {Ex}.
Arguments mg_limiter {Ex}.

Definition currentRuntimeConfigForTenant {Ex} (m : Manager Ex) (tenantID : string) : runtimeRoutingConfig :=
  default emptyRuntimeConfig (mg_runtimeConfig m !! normalizedTenantID tenantID).

Definition executorForTenantLocked {Ex} (m : Manager Ex) (tenantID provider : string) : option Ex :=
  let tenantID := normalizedTenantID tenantID in
  let provider := ToLower (TrimSpace provider) in
  if String.eqb tenantID defaultTenantID then mg_executors m !! provider
  else byProvider ← mg_tenantExecutors m !! tenantID; byProvider !! provider.

(** [FilterAvailableCandidates] on the candidates themselves. *)
Definition has_room (e : Env) (l : limiter) (c : option Auth) : bool :=
  match c with
  | None => false
  | Some a =>
      let limit := effectiveLimit (env_coord e) (ConcurrencyLimit a) in
      ((limit <=? 0) || (cnt (l_active l) (au_ID a) <? limit))
  end.

Definition filterCandidates (l : option (Env * limiter)) (candidates : list (option Auth)) : list (option Auth) :=
  match l with
  | None => candidates
  | Some (e, l) =>
      if (length candidates <=? 1)%nat then candidates
      else match List.filter (has_room e l) candidates with [] => candidates | available => available end
  end.

Section selection.
Context {RO : RangeOrder} {X : MathExp2} {J : GoJSON} {AR : AffinityRef} {MD : ModelDiscovery} {FT : FloatText}.
Context {W : Type} {AS : AffinityStore W}.
Context {Ex : Type}.

(** The manager's selectors: the session-sticky one delegates to the singletons that
    serve the other groups, so there is one state. *)
Abbreviation Selectors := (SessionStickySelector DistributionSelectors * option W)%type (only parsing).

(** [selectorForRoutingScopeLocked] *)
Definition scoped_Pick (scheduling : runtimeGroupScheduling) : Selector Selectors :=
  λ e provider model opts auths s t,
  if sc_StickyEnabled scheduling then
    sticky_Pick (Inner := distribution_Pick) e provider model opts auths s t
  else
    let '(r, inner, t) := distribution_as (NormalizeDistribution (sc_Distribution scheduling))
                            e provider model opts auths (ss_inner s.1) t in
    (r, (MkSticky (ss_bindings s.1) inner (ss_maxKeys s.1), s.2), t).

Definition buildCandidatesLocked (m : Manager Ex) (scope : selectionScope) (scopedRouteGroup : string)
    (tried : gset string) (includeCandidate : Auth → bool) : list Auth :=
  omap (λ entry : string * option Auth,
    let candidate := entry.2 in
    if ! allowsCandidate scope candidate scopedRouteGroup tried (mg_registry m) then None
    else
      a ← candidate;
      if ! includeCandidate a then None
      else Some (prepareCandidateForSelection (sp_cfg scope) a scopedRouteGroup (sp_allowedGroups scope)))
    (range_order 41 (mg_auths m)).

(** ** Diagnostics *)

(** [strconv.Quote]: the escapes of ASCII; other bytes are printed as they are. *)
Definition hex_digit (n : nat) : ascii := ascii_of_nat (if (n <? 10)%nat then 48 + n else 87 + n).
Definition quote_char : ascii := "034"%char.
Definition backslash : ascii := "092"%char.

Definition quote_byte (c : ascii) : string :=
  let n := nat_of_ascii c in
  let escaped d := String backslash (String d "") in
  if Ascii.eqb c quote_char then escaped quote_char
  else if Ascii.eqb c backslash then escaped backslash
  else if (n =? 7)%nat then escaped "a"%char
  else if (n =? 8)%nat then escaped "b"%char
  else if (n =? 9)%nat then escaped "t"%char
  else if (n =? 10)%nat then escaped "n"%char
  else if (n =? 11)%nat then escaped "v"%char
  else if (n =? 12)%nat then escaped "f"%char
  else if (n =? 13)%nat then escaped "r"%char
  else if ((n <? 32)%nat || (n =? 127)%nat) then
    String backslash (String "x"%char (String (hex_digit (n / 16)) (String (hex_digit (n mod 16)) "")))
  else String c "".

Fixpoint quote_bytes (s : string) : string :=
  match s with EmptyString => "" | String c s' => quote_byte c +:+ quote_bytes s' end.

Definition Quote (s : string) : string := String quote_char (quote_bytes s +:+ String quote_char "").

Definition describeScopeNames (scope : gset string) : string :=
  if bool_decide (scope = ∅) then "none"
  else Join (map Quote (sort_by str_lt (elements scope))) ", ".

(** The configured groups whose model lists reject a model, by the list that does. *)
Fixpoint blocking_groups (scoped : gset string) (tenantID modelID : string)
    (groups : list runtimeRoutingChannelGroup) : list string * list string :=
  match groups with
  | [] => ([], [])
  | group :: rest =>
      let '(excluded, notAllowed) := blocking_groups scoped tenantID modelID rest in
      let name := normalizeGroupName (gr_Name group) in
      if ! bool_decide (name ∈ scoped) then (excluded, notAllowed)
      else if (bool_decide (gr_AllowedModels group = []) && bool_decide (gr_ExcludedModels group = []))
      then (excluded, notAllowed)
      else if routingGroupModelAllowed name (gr_AllowedModels group) (gr_ExcludedModels group) modelID tenantID
      then (excluded, notAllowed)
      else if ChannelGroupExcludesModel (gr_ExcludedModels group) modelID
      then (gr_Name group :: excluded, notAllowed)
      else (excluded, gr_Name group :: notAllowed)
  end.

Definition blockingRouteGroups (cfg : option runtimeRoutingConfig) (tenantID modelID : string)
    (candidateGroups : gset string) (routeGroup : string) (allowedGroups : gset string)
    : list string * list string :=
  match cfg with
  | None => ([], [])
  | Some c =>
      if bool_decide (candidateGroups = ∅) then ([], [])
      else
        let scoped := scopedRouteGroupNames candidateGroups routeGroup allowedGroups in
        if bool_decide (scoped = ∅) then ([], [])
        else blocking_groups scoped tenantID modelID (rt_ChannelGroups c)
  end.

Definition candidateServesModel (registryRef : option ModelRegistry) (a : Auth) (modelID : string) : bool :=
  match registryRef with
  | None => true
  | Some r =>
      if bool_decide (GetModelsForClient r (au_ID a) = []) then ! authHasDisableAllModelsRule a
      else ClientSupportsModel r (au_ID a) modelID
  end.

Record selectionRejection := MkRejection {
  rj_modelBlockedByGroups : gset string; rj_modelExcludedByGroups : gset string;
  rj_sawTenantCandidate : bool; rj_sawServingCandidate : bool;
  rj_servingBlockedByChannels : bool; rj_servingBlockedByGroups : bool;
  rj_servingGroups : gset string }.

Definition no_rejection : selectionRejection := MkRejection ∅ ∅ false false false false ∅.

(** One credential of the loop of [diagnoseEmptyCandidates]. *)
Definition diagnose_step (registryRef : option ModelRegistry) (scope : selectionScope)
    (scopedRouteGroup : string) (includeCandidate : Auth → bool) (rj : selectionRejection)
    (entry : string * option Auth) : selectionRejection :=
  match entry.2 with
  | None => rj
  | Some a =>
      if ! enabled a then rj
      else if ! String.eqb (normalizedTenantID (au_TenantID a)) (sp_tenantID scope) then rj
      else if ! includeCandidate a then rj
      else
        let rj := MkRejection (rj_modelBlockedByGroups rj) (rj_modelExcludedByGroups rj) true
                    (rj_sawServingCandidate rj) (rj_servingBlockedByChannels rj)
                    (rj_servingBlockedByGroups rj) (rj_servingGroups rj) in
        if ! candidateServesModel registryRef a (sp_modelKey scope) then rj
        else
          let rj := MkRejection (rj_modelBlockedByGroups rj) (rj_modelExcludedByGroups rj) true true
                      (rj_servingBlockedByChannels rj) (rj_servingBlockedByGroups rj) (rj_servingGroups rj) in
          if ! authAllowedByChannels a (sp_allowedChannels scope) then
            MkRejection (rj_modelBlockedByGroups rj) (rj_modelExcludedByGroups rj) true true
              true (rj_servingBlockedByGroups rj) (rj_servingGroups rj)
          else if ! authAllowedByGroups (sp_cfg scope) a (sp_allowedGroups scope) then
            MkRejection (rj_modelBlockedByGroups rj) (rj_modelExcludedByGroups rj) true true
              (rj_servingBlockedByChannels rj) true (authGroups (sp_cfg scope) a ∪ rj_servingGroups rj)
          else
            let groups := authGroups (sp_cfg scope) a in
            if modelAllowedByRoutingGroupScopes (sp_cfg scope) (au_TenantID a) (sp_modelKey scope) groups
                 scopedRouteGroup (sp_allowedGroups scope) then rj
            else
              let '(excludedBy, notAllowedBy) := blockingRouteGroups (sp_cfg scope) (au_TenantID a)
                (sp_modelKey scope) groups scopedRouteGroup (sp_allowedGroups scope) in
              MkRejection (list_to_set notAllowedBy ∪ rj_modelBlockedByGroups rj)
                (list_to_set excludedBy ∪ rj_modelExcludedByGroups rj) true true
                (rj_servingBlockedByChannels rj) (rj_servingBlockedByGroups rj) (rj_servingGroups rj)
  end.

Definition diagnoseEmptyCandidates (m : Manager Ex) (scope : selectionScope) (scopedRouteGroup : string)
    (includeCandidate : Auth → bool) : option SelectError :=
  if String.eqb (sp_modelKey scope) "" then None
  else
    let rj := foldl (diagnose_step (mg_registry m) scope scopedRouteGroup includeCandidate) no_rejection
                (range_order 42 (mg_auths m)) in
    let model := "model " +:+ Quote (sp_modelKey scope) in
    if ! rj_sawTenantCandidate rj then None
    else if (rj_sawServingCandidate rj && rj_servingBlockedByGroups rj) then
      Some (plain_error "model_outside_allowed_channel_groups"
        (model +:+ " is served by credentials in channel group " +:+ describeScopeNames (rj_servingGroups rj) +:+
         ", which this credential may not use (allowed: " +:+ describeScopeNames (sp_allowedGroups scope) +:+
         "); add a serving group to the allowed channel groups, or move a serving account into an allowed one"))
    else if (rj_sawServingCandidate rj && rj_servingBlockedByChannels rj) then
      Some (plain_error "model_outside_allowed_channels"
        (model +:+ " is served only by credentials outside the channels this credential may use (" +:+
         describeScopeNames (sp_allowedChannels scope) +:+
         "); widen the allowed channels or use an account in one of them"))
    else
      let excluded := rj_modelExcludedByGroups rj in
      let notAllowed := rj_modelBlockedByGroups rj in
      if (bool_decide (excluded = ∅) && bool_decide (notAllowed = ∅)) then None
      else
        Some (plain_error "model_not_allowed_by_channel_group"
          (if bool_decide (excluded = ∅) then
             model +:+ " is not in the allowed models of channel group " +:+ describeScopeNames notAllowed +:+
             "; add it there or route the request to a group that permits it"
           else if bool_decide (notAllowed = ∅) then
             model +:+ " is excluded by channel group " +:+ describeScopeNames excluded +:+
             "; remove it from the group's excluded models or route the request to a group that permits it"
           else
             model +:+ " is excluded by channel group " +:+ describeScopeNames excluded +:+
             " and not in the allowed models of channel group " +:+ describeScopeNames notAllowed +:+
             "; change the group's model list or route the request to a group that permits it")).

(** ** Picking *)

(** The wrapped [includeCandidate] of an Alpha Search request. *)
Definition alpha_filter (opts : Options) (includeCandidate : Auth → bool) (a : Auth) : bool :=
  if String.eqb (op_Alt opts) "alpha/search" then SupportsCodexAlphaSearch a && includeCandidate a
  else includeCandidate a.

(** The loop over the route groups; [diagnosis] is the first cause that was found. *)
Fixpoint pick_groups (m : Manager Ex) (e : PickEnv) (scope : selectionScope) (selectorProvider : string)
    (opts : Options) (tried : gset string) (includeCandidate : Auth → bool) (groups : list string)
    (diagnosis : option SelectError) (s : Selectors) (t : option selectionPressureTracker)
    : (SelectError + Auth * string) * Selectors * option selectionPressureTracker :=
  match groups with
  | [] =>
      let err := match diagnosis with
        | Some d => d
        | None =>
            if String.eqb (op_Alt opts) "alpha/search" then
              SelError (MkError "alpha_search_auth_unavailable"
                "no eligible Codex Alpha Search credential for this model and scope; use Codex OAuth or an API key with alpha-search enabled and a base-url"
                false 503 "" 0)
            else plain_error "auth_not_found" "no auth available"
        end in
      (inl err, s, t)
  | selectorRouteGroup :: rest =>
      match buildCandidatesLocked m scope selectorRouteGroup tried includeCandidate with
      | [] =>
          let diagnosis := match diagnosis with
            | Some d => Some d
            | None => diagnoseEmptyCandidates m scope selectorRouteGroup includeCandidate
            end in
          pick_groups m e scope selectorProvider opts tried includeCandidate rest diagnosis s t
      | candidates =>
          let scheduling := scopedScheduling (sp_cfg scope) selectorRouteGroup (sp_allowedGroups scope) in
          let candidates := filterCandidates (mg_limiter m) (Some <$> candidates) in
          let '(r, s, t) := scoped_Pick scheduling e selectorProvider (sp_model scope)
            (optionsForSelectionScope opts selectorRouteGroup scheduling) candidates s t in
          match r with
          | inl err => (inl err, s, t)
          | inr selected => (inr (selected, selectorRouteGroup), s, t)
          end
      end
  end.

Definition pickLocked (m : Manager Ex) (e : PickEnv) (scope : selectionScope) (selectorProvider : string)
    (opts : Options) (tried : gset string) (includeCandidate : Auth → bool) (s : Selectors)
    (t : option selectionPressureTracker)
    : (SelectError + Auth * string) * Selectors * option selectionPressureTracker :=
  pick_groups m e scope selectorProvider opts tried (alpha_filter opts includeCandidate)
    (routeGroupsToTry scope) None s t.

Definition request_scope (m : Manager Ex) (model : string) (opts : Options) : selectionScope :=
  newSelectionScope (Some (currentRuntimeConfigForTenant m (tenantIDFromMetadata (op_Metadata opts))))
    model (op_Metadata opts).

Definition executor_missing : SelectError :=
  plain_error "executor_not_found" "executor not registered".

Definition pickProvider (m : Manager Ex) (e : PickEnv) (provider model : string) (opts : Options)
    (tried : gset string) (s : Selectors) (t : option selectionPressureTracker)
    : (SelectError + Auth * Ex) * Selectors * option selectionPressureTracker :=
  let scope := request_scope m model opts in
  match executorForTenantLocked m (sp_tenantID scope) provider with
  | None => (inl executor_missing, s, t)
  | Some executor =>
      let '(r, s, t) := pickLocked m e scope provider opts tried
        (λ candidate, String.eqb (au_Provider candidate) provider) s t in
      match r with
      | inl err => (inl err, s, t)
      | inr (selected, _) => (inr (selected, executor), s, t)
      end
  end.

Definition provider_key (p : string) : string := TrimSpace (ToLower p).

(** The candidates of a request over several providers. *)
Definition mixed_candidate (m : Manager Ex) (tenantID : string) (providerSet : gset string)
    (candidate : Auth) : bool :=
  let providerKey := provider_key (au_Provider candidate) in
  if String.eqb providerKey "" then false
  else if ! bool_decide (providerKey ∈ providerSet) then false
  else match executorForTenantLocked m tenantID providerKey with None => false | Some _ => true end.

Definition pickMixed (m : Manager Ex) (e : PickEnv) (providers : list string) (model : string) (opts : Options)
    (tried : gset string) (s : Selectors) (t : option selectionPressureTracker)
    : (SelectError + Auth * Ex * string) * Selectors * option selectionPressureTracker :=
  let scope := request_scope m model opts in
  let providerSet := nonempty_set (map provider_key providers) in
  if bool_decide (providerSet = ∅) then (inl (plain_error "provider_not_found" "no provider supplied"), s, t)
  else
    let '(r, s, t) := pickLocked m e scope "mixed" opts tried
      (mixed_candidate m (sp_tenantID scope) providerSet) s t in
    match r with
    | inl err => (inl err, s, t)
    | inr (selected, _) =>
        let providerKey := provider_key (au_Provider selected) in
        match executorForTenantLocked m (sp_tenantID scope) providerKey with
        | None => (inl executor_missing, s, t)
        | Some executor => (inr (selected, executor, providerKey), s, t)
        end
    end.

(** ** Queries of the management interface *)

Definition ListForTenant (m : Manager Ex) (tenantID : string) : list Auth :=
  let tenantID := normalizedTenantID tenantID in
  omap (λ entry : string * option Auth,
    a ← entry.2; if String.eqb (normalizedTenantID (au_TenantID a)) tenantID then Some a else None)
    (range_order 43 (mg_auths m)).

Definition KnownChannelGroupsForTenant (m : Manager Ex) (tenantID : string) : gset string :=
  let tenantID := normalizedTenantID tenantID in
  let cfg := currentRuntimeConfigForTenant m tenantID in
  nonempty_set (map (λ g, normalizeGroupName (gr_Name g)) (rt_ChannelGroups cfg)) ∪
  ⋃ (map (λ a, authGroups (Some cfg) a) (ListForTenant m tenantID)).

(** Whether one credential can serve the model in the caller's scope. *)
Definition serves_in_scope (m : Manager Ex) (cfg : runtimeRoutingConfig) (tenantID modelID : string)
    (allowedChannels allowedGroups : gset string) (selectionRouteGroup : string)
    (ignoreGroupAllowedModels : bool) (candidate : option Auth) : bool :=
  match candidate with
  | None => false
  | Some a =>
      if (! String.eqb (normalizedTenantID (au_TenantID a)) tenantID || ! enabled a) then false
      else if ! authAllowedByChannels a allowedChannels then false
      else if ! authAllowedByGroups (Some cfg) a allowedGroups then false
      else if ! authInRouteGroup (Some cfg) a selectionRouteGroup then false
      else candidateSupportsModelOpts (Some cfg) (mg_registry m) a modelID selectionRouteGroup allowedGroups
             ignoreGroupAllowedModels
  end.

Definition CanServeModelWithScopesForTenantOpts (m : Manager Ex) (tenantID0 modelID0 : string)
    (allowedChannels allowedGroups : gset string) (routeGroup : string) (ignoreGroupAllowedModels : bool) : bool :=
  let tenantID := normalizedTenantID tenantID0 in
  let modelID := TrimSpace modelID0 in
  if String.eqb modelID "" then false
  else
    let cfg := currentRuntimeConfigForTenant m tenantID in
    let selectionRouteGroup := effectiveRouteGroupForSelection (Some cfg) routeGroup allowedGroups modelID in
    existsb (λ entry : string * option Auth,
      serves_in_scope m cfg tenantID modelID allowedChannels allowedGroups selectionRouteGroup
        ignoreGroupAllowedModels entry.2) (range_order 44 (mg_auths m)).

End selection.

(** ** Lemmas *)

Section lemmas.
Context {RO : RangeOrder} {X : MathExp2} {J : GoJSON} {AR : AffinityRef} {MD : ModelDiscovery} {FT : FloatText}.
Context {W : Type} {AS : AffinityStore W}.
Context {Ex : Type}.
Implicit Types (m : Manager Ex) (scope : selectionScope).

#[export] Instance scoped_ok scheduling : SelectorOK _ (Sel := scoped_Pick (W := W) scheduling).
Proof.
  split; unfold Pick, scoped_Pick; intros e provider model opts auths [s w] t;
    destruct (sc_StickyEnabled scheduling).
  - apply (pick_available (SelectorOK := sticky_ok)).
  - intros a s' t'. destruct (distribution_as _ _ _ _ _ _ _ _) as [[r ds] t1] eqn:E. intros H.
    inversion H; subst. exact (pick_available (SelectorOK := distribution_as_ok _) _ _ _ _ _ _ _ _ _ _ E).
  - apply (pick_refused (SelectorOK := sticky_ok)).
  - intros H. simpl. destruct (pick_refused
      (SelectorOK := distribution_as_ok (NormalizeDistribution (sc_Distribution scheduling)))
      e provider model opts auths (ss_inner s) t H) as [err Herr].
    unfold Pick in Herr. rewrite Herr. exists err. by destruct s.
Qed.

Lemma buildCandidates_elem m scope g tried inc a :
  a ∈ buildCandidatesLocked m scope g tried inc ↔
  ∃ id c, mg_auths m !! id = Some (Some c) ∧ allowsCandidate scope (Some c) g tried (mg_registry m) = true ∧
    inc c = true ∧ a = prepareCandidateForSelection (sp_cfg scope) c g (sp_allowedGroups scope).
Proof.
  unfold buildCandidatesLocked. rewrite list_elem_of_omap. split.
  - intros ([id [c|]] & Hin & H); cbn [snd] in H; [|by destruct (allowsCandidate _ _ _ _ _)].
    apply elem_of_range in Hin. destruct (allowsCandidate _ _ _ _ _) eqn:Ha; [|done].
    cbn in H. destruct (inc c) eqn:Hi; [|done]. cbn in H. simplify_eq. by exists id, c.
  - intros (id & c & Hid & Ha & Hi & ->). exists (id, Some c). rewrite elem_of_range. split; [done|].
    cbn [snd]. by rewrite Ha; cbn; rewrite Hi.
Qed.

Lemma filterCandidates_elem l cands c : c ∈ filterCandidates l cands → c ∈ cands.
Proof.
  unfold filterCandidates. destruct l as [[e l]|]; [|done]. destruct (_ <=? 1)%nat; [done|].
  destruct (List.filter _ _) as [|x xs] eqn:E; [done|]. rewrite <-E. rewrite !list_elem_of_In.
  by intros [H _]%filter_In.
Qed.

Lemma scoped_Pick_elem scheduling e p model opts cands s t a s' t' :
  scoped_Pick (W := W) scheduling e p model opts cands s t = (inr a, s', t') → Some a ∈ cands.
Proof.
  intros H. destruct (pick_available (SelectorOK := scoped_ok scheduling) _ _ _ _ _ _ _ _ _ _ H)
    as (now & l & _ & Hl & Ha). by eapply getAvailableAuths_elem.
Qed.

(** What a pick hands out was built as a candidate of one of the groups. *)
Lemma pick_groups_elem m e scope p opts tried inc groups d s t a g s' t' :
  pick_groups m e scope p opts tried inc groups d s t = (inr (a, g), s', t') →
  g ∈ groups ∧ a ∈ buildCandidatesLocked m scope g tried inc.
Proof.
  revert d. induction groups as [|g0 groups IH]; intros d; cbn [pick_groups]; [done|].
  destruct (buildCandidatesLocked m scope g0 tried inc) as [|c cs] eqn:Hc.
  { intros [Hg Ha]%IH. split; [by right|done]. }
  destruct (scoped_Pick _ _ _ _ _ _ _ _) as [[r s1] t1] eqn:Hp.
  destruct r as [err|sel]; [done|]. intros [= -> -> -> ->].
  apply scoped_Pick_elem, filterCandidates_elem, list_elem_of_fmap in Hp as (b & [= ->] & Hb).
  rewrite Hc. split; [by left|done].
Qed.

(** Without candidates in any group nothing is picked and no selector is asked. *)
Lemma pick_groups_none m e scope p opts tried inc groups d s t :
  (∀ g, g ∈ groups → buildCandidatesLocked m scope g tried inc = []) →
  ∃ err, pick_groups m e scope p opts tried inc groups d s t = (inl err, s, t).
Proof.
  revert d. induction groups as [|g0 groups IH]; intros d H; cbn [pick_groups]; [by eexists|].
  rewrite (H g0) by left. apply IH. intros g Hg. apply H. by right.
Qed.

(** Early returns as conjunctions. *)
Lemma guard_iff (b r : bool) : (if b then false else r) = true ↔ b = false ∧ r = true.
Proof. destruct b, r; naive_solver. Qed.

Lemma guard_when (b c : bool) : negb b && negb c = false ↔ (b = false → c = true).
Proof. destruct b, c; naive_solver. Qed.

(** The gates, one by one. *)
Lemma allowsCandidate_iff scope c g tried reg :
  allowsCandidate scope (Some c) g tried reg = true ↔
  enabled c = true ∧ normalizedTenantID (au_TenantID c) = sp_tenantID scope ∧
  (sp_pinnedAuthID scope ≠ "" → au_ID c = sp_pinnedAuthID scope) ∧
  authAllowedByChannels c (sp_allowedChannels scope) = true ∧
  authAllowedByGroups (sp_cfg scope) c (sp_allowedGroups scope) = true ∧
  (g ≠ "" → authInRouteGroup (sp_cfg scope) c g = true) ∧
  au_ID c ∉ tried ∧
  (sp_modelKey scope ≠ "" → candidateSupportsModel (sp_cfg scope) reg c (sp_modelKey scope) g
                              (sp_allowedGroups scope) = true).
Proof.
  unfold allowsCandidate. rewrite !guard_iff, !guard_when, !negb_false_iff, !String.eqb_neq, !String.eqb_eq.
  rewrite bool_decide_eq_false. naive_solver.
Qed.

Lemma existsb_elem {A} (f : A → bool) l : existsb f l = true ↔ ∃ x, x ∈ l ∧ f x = true.
Proof. rewrite existsb_exists. by setoid_rewrite list_elem_of_In. Qed.

Lemma allowed_by_channels c allowed : authAllowedByChannels c allowed = true →
  allowed ≠ ∅ → ∃ i, i ∈ ChannelIdentifiers c ∧ ToLower (TrimSpace i) ∈ allowed.
Proof.
  unfold authAllowedByChannels. destruct (bool_decide_reflect (allowed = ∅)); [done|].
  rewrite existsb_elem. setoid_rewrite bool_decide_eq_true. eauto.
Qed.

Lemma allowed_by_groups cfg c allowed : authAllowedByGroups cfg c allowed = true ↔
  allowed = ∅ ∨ ∃ g, g ∈ authGroups cfg c ∧ g ∈ allowed.
Proof.
  unfold authAllowedByGroups. destruct (bool_decide_reflect (allowed = ∅)); [naive_solver|].
  rewrite existsb_elem. setoid_rewrite bool_decide_eq_true. setoid_rewrite elem_of_elements. naive_solver.
Qed.

Lemma in_route_group cfg c g : authInRouteGroup cfg c g = true ↔
  normalizeGroupName g = "" ∨ normalizeGroupName g ∈ authGroups cfg c.
Proof.
  unfold authInRouteGroup. destruct (String.eqb_spec (normalizeGroupName g) ""); [naive_solver|].
  rewrite bool_decide_eq_true. naive_solver.
Qed.

Lemma elem_of_nonempty_set l x : x ∈ nonempty_set l ↔ x ∈ l ∧ x ≠ "".
Proof.
  unfold nonempty_set. rewrite elem_of_list_to_set, !list_elem_of_In, filter_In, negb_true_iff, String.eqb_neq.
  done.
Qed.

Lemma prepare_provider cfg a g allowed :
  au_Provider (prepareCandidateForSelection cfg a g allowed) = au_Provider a.
Proof. unfold prepareCandidateForSelection. by destruct (derivedGroupWeight _ _ _). Qed.

End lemmas.

(** ** What a pick guarantees *)

Section theorems.
Context {RO : RangeOrder} {X : MathExp2} {J : GoJSON} {AR : AffinityRef} {MD : ModelDiscovery} {FT : FloatText}.
Context {W : Type} {AS : AffinityStore W}.
Context {Ex : Type}.
Implicit Types (m : Manager Ex) (scope : selectionScope).

Definition registered m (c : Auth) : Prop := ∃ id, mg_auths m !! id = Some (Some c).

(** A configured group lets a model pass: it does not exclude it, and lists it, lists nothing,
    or is the default group and the model was discovered. *)
Definition group_admits (tenantID model : string) (group : runtimeRoutingChannelGroup) : Prop :=
  let name := normalizeGroupName (gr_Name group) in
  ChannelGroupExcludesModel (gr_ExcludedModels group) model = false ∧
  (gr_AllowedModels group = [] ∨ routingGroupAllowsModel name (gr_AllowedModels group) model = true ∨
   normalizeGroupName name = "default" ∧ DiscoveredModel tenantID model = true).

(** The lists of models: when configured groups of the credential are in scope (its route group, the
    groups of the caller), one of them lets the model pass. *)
Definition lists_admit scope (g : string) (c : Auth) (model : string) : Prop :=
  ∀ cfg, sp_cfg scope = Some cfg →
  let in_scope group := normalizeGroupName (gr_Name group) ∈
    scopedRouteGroupNames (authGroups (sp_cfg scope) c) g (sp_allowedGroups scope) in
  (∃ group, group ∈ rt_ChannelGroups cfg ∧ in_scope group) →
  ∃ group, group ∈ rt_ChannelGroups cfg ∧ in_scope group ∧ group_admits (au_TenantID c) model group.

(** The registry: it lists nothing for the credential, which does not switch all models off, or it
    lists the model, bare or under a group of the credential that may be tried. *)
Definition registry_lists scope (reg : option ModelRegistry) (g : string) (c : Auth) (model : string) : Prop :=
  ∀ r, reg = Some r →
  GetModelsForClient r (au_ID c) = [] ∧ authHasDisableAllModelsRule c = false ∨
  ClientSupportsModel r (au_ID c) model = true ∨
  ∃ group, group ∈ groups_to_try (authGroups (sp_cfg scope) c) g (sp_allowedGroups scope) ∧ group ≠ "default" ∧
    ClientSupportsModel r (au_ID c) (group +:+ "/" +:+ model) = true.

(** The restrictions of a request, as its caller means them: enabled, of the caller's
    tenant, not tried before, the pinned credential if one is pinned, in an allowed
    channel, in an allowed group, in the route group [g], and for the model of the request
    with the lists of its groups and the registry. *)
Record permitted scope (reg : option ModelRegistry) (g : string) (tried : gset string) (c : Auth) : Prop := {
  pm_enabled : au_Disabled c = false ∧ au_Status c ≠ StatusDisabled;
  pm_tenant : normalizedTenantID (au_TenantID c) = sp_tenantID scope;
  pm_fresh : au_ID c ∉ tried;
  pm_pinned : sp_pinnedAuthID scope ≠ "" → au_ID c = sp_pinnedAuthID scope;
  pm_channel : sp_allowedChannels scope ≠ ∅ →
    ∃ i, i ∈ ChannelIdentifiers c ∧ ToLower (TrimSpace i) ∈ sp_allowedChannels scope;
  pm_group : sp_allowedGroups scope ≠ ∅ →
    ∃ group, group ∈ authGroups (sp_cfg scope) c ∧ group ∈ sp_allowedGroups scope;
  pm_route : normalizeGroupName g ≠ "" → normalizeGroupName g ∈ authGroups (sp_cfg scope) c;
  pm_model : sp_modelKey scope ≠ "" →
    let model := TrimSpace (sp_modelKey scope) in
    model ≠ "" ∧ lists_admit scope g c model ∧ registry_lists scope reg g c model }.

Lemma model_gate_admits scoped model tenantID found groups :
  model_gate scoped model tenantID found groups = true →
  (∃ group, group ∈ groups ∧ normalizeGroupName (gr_Name group) ∈ scoped) →
  ∃ group, group ∈ groups ∧ normalizeGroupName (gr_Name group) ∈ scoped ∧ group_admits tenantID model group.
Proof.
  assert (Hall : ∀ groups found, model_gate scoped model tenantID found groups = true →
    found = true ∨ (∃ group, group ∈ groups ∧ normalizeGroupName (gr_Name group) ∈ scoped) →
    ∃ group, group ∈ groups ∧ normalizeGroupName (gr_Name group) ∈ scoped ∧ group_admits tenantID model group).
  2: { intros Hm Hex. eauto. }
  clear. induction groups as [|group groups IH]; intros found; cbn [model_gate].
  { intros Hf [->|(? & []%not_elem_of_nil & _)]. done. }
  case_bool_decide as Hin; cbn [negb].
  - intros Hm _. assert (Hor : group_admits tenantID model group ∨ model_gate scoped model tenantID true groups = true).
    { destruct (bool_decide (gr_AllowedModels group = []) && _) eqn:E.
      - apply andb_true_iff in E as [H1 H2]. apply bool_decide_eq_true in H1, H2. left. split; [by rewrite H2|by left].
      - destruct (routingGroupModelAllowed _ _ _ _ _) eqn:Er; [left|by right]. unfold routingGroupModelAllowed in Er.
        destruct (ChannelGroupExcludesModel _ _) eqn:Ex; [done|]. split; [done|].
        case_bool_decide; [by left|]. right. destruct (routingGroupAllowsModel _ _ _); [by left|right].
        apply andb_true_iff in Er as [H1%String.eqb_eq H2]. done. }
    destruct Hor as [Ha|Hr]; [by exists group; split; [left|]|].
    destruct (IH true Hr) as (x & Hx & H); [by left|]. exists x. split; [by right|done].
  - intros Hm Hex. destruct (IH found Hm) as (x & Hx & H); [|exists x; split; [by right|done]].
    destruct Hex as [->|(x & [->|Hx]%elem_of_cons & Hn)]; [by left|done|right; eauto].
Qed.

Lemma scoped_groups_own candidates g allowed : scopedRouteGroupNames candidates g allowed ⊆ candidates.
Proof.
  unfold scopedRouteGroupNames. destruct (! String.eqb g "" && _) eqn:E; [|set_solver].
  apply andb_true_iff in E as [_ E%bool_decide_eq_true]. set_solver.
Qed.

Lemma supports_model scope reg g c model :
  candidateSupportsModel (sp_cfg scope) reg c model g (sp_allowedGroups scope) = true →
  TrimSpace model ≠ "" ∧ lists_admit scope g c (TrimSpace model) ∧ registry_lists scope reg g c (TrimSpace model).
Proof.
  unfold candidateSupportsModel, candidateSupportsModelOpts. cbn [negb]. rewrite andb_true_l, !guard_iff, String.eqb_neq, negb_false_iff.
  intros (Hne & Hg & Hr). split; [done|]. split.
  - intros cfg Hcfg in_scope Hex. unfold modelAllowedByRoutingGroupScopes in Hg. rewrite Hcfg in Hg.
    rewrite TrimSpace_idem in Hg. destruct (String.eqb_spec (TrimSpace model) ""); [done|]. cbn [orb] in Hg.
    assert (Hsub : ∀ group, in_scope group → normalizeGroupName (gr_Name group) ∈ authGroups (sp_cfg scope) c).
    { intros group Hgr. eapply scoped_groups_own, Hgr. }
    destruct Hex as (x & Hx & Hin). rewrite !bool_decide_eq_false_2 in Hg.
    + apply model_gate_admits in Hg; [by rewrite <- Hcfg in Hg|exists x; by rewrite <- Hcfg].
    + intros E. unfold in_scope in Hin. by rewrite Hcfg, E in Hin.
    + intros E. specialize (Hsub x Hin). rewrite Hcfg, E in Hsub. by apply not_elem_of_empty in Hsub.
  - intros r ->. case_bool_decide as Hl; [left; split; [done|]; by apply negb_true_iff in Hr|].
    destruct (ClientSupportsModel r (au_ID c) (TrimSpace model)); [by right; left|]. right. right.
    case_bool_decide; [done|]. apply existsb_elem in Hr as (group & Hin & Hs).
    apply andb_true_iff in Hs as [H1 H2]. apply negb_true_iff, String.eqb_neq in H1.
    exists group. split; [by apply elem_of_elements|done].
Qed.

Lemma allowsCandidate_permitted scope c g tried reg :
  allowsCandidate scope (Some c) g tried reg = true → permitted scope reg g tried c.
Proof.
  intros (He & Ht & Hp & Hc & Hg & Hr & Hf & Hm)%allowsCandidate_iff. split; try done.
  - unfold enabled, status_eqb in He. apply andb_true_iff in He as [H1 H2].
    apply negb_true_iff in H1, H2. split; [done|]. by apply bool_decide_eq_false in H2.
  - by apply allowed_by_channels.
  - apply allowed_by_groups in Hg. naive_solver.
  - intros Hn. destruct (decide (g = "")) as [->|Hne]; [by destruct Hn|].
    apply Hr, in_route_group in Hne. naive_solver.
  - intros Hne. apply supports_model, Hm, Hne.
Qed.

(** C8: whatever selector a group uses and whatever state it is in, the credential picked
    for a request is one the request may use: registered and enabled, of the caller's tenant,
    not tried before, the pinned one when one is pinned, within the allowed channels and
    groups and in the route group it was picked for, for a model that the lists of its groups in
    scope let pass and that the registry lists for it, of a requested provider whose executor is
    returned with it; an Alpha Search request only gets a credential that supports it. *)
Theorem picked_credential_permitted m e providers model opts tried s t a ex provider s' t' :
  pickMixed (AS := AS) m e providers model opts tried s t = (inr (a, ex, provider), s', t') →
  let scope := request_scope m model opts in
  ∃ c g, registered m c ∧ g ∈ routeGroupsToTry scope ∧ permitted scope (mg_registry m) g tried c ∧
    a = prepareCandidateForSelection (sp_cfg scope) c g (sp_allowedGroups scope) ∧
    provider = provider_key (au_Provider c) ∧ provider ∈ map provider_key providers ∧ provider ≠ "" ∧
    executorForTenantLocked m (sp_tenantID scope) provider = Some ex ∧
    (op_Alt opts = "alpha/search" → SupportsCodexAlphaSearch c = true).
Proof.
  unfold pickMixed. destruct (bool_decide _); [done|].
  destruct (pickLocked _ _ _ _ _ _ _ _ _) as [[[err|[sel g]] s1] t1] eqn:Hp; [done|].
  destruct (executorForTenantLocked _ _ _) as [x|] eqn:Hx; [|done]. intros H. inversion H; subst. clear H.
  set (scope := request_scope m model opts) in *.
  apply pick_groups_elem in Hp as [Hg (id & c & Hid & Ha & Hi & ->)%buildCandidates_elem].
  rewrite prepare_provider in *. exists c, g. split; [by exists id|]. split; [done|].
  split; [by eapply allowsCandidate_permitted|]. do 2 (split; [done|]).
  assert (mixed_candidate m (sp_tenantID scope) (nonempty_set (map provider_key providers)) c = true ∧
    (op_Alt opts = "alpha/search" → SupportsCodexAlphaSearch c = true)) as [Hm Halt].
  { unfold alpha_filter in Hi. destruct (String.eqb_spec (op_Alt opts) "alpha/search"); [|done].
    apply andb_true_iff in Hi as [H1 H2]. done. }
  unfold mixed_candidate in Hm. apply guard_iff in Hm as [Hne Hm]. apply String.eqb_neq in Hne.
  apply guard_iff in Hm as [Hin _]. apply negb_false_iff, bool_decide_eq_true, elem_of_nonempty_set in Hin as [Hin _].
  done.
Qed.

(** ** Excluded models *)

Lemma model_gate_excluded scoped g modelID tenantID found groups :
  scoped = {[g]} →
  (∀ group, group ∈ groups → normalizeGroupName (gr_Name group) = g →
     ChannelGroupExcludesModel (gr_ExcludedModels group) modelID = true) →
  (found = true ∨ ∃ group, group ∈ groups ∧ normalizeGroupName (gr_Name group) = g) →
  model_gate scoped modelID tenantID found groups = false.
Proof.
  intros ->. revert found. induction groups as [|group groups IH]; intros found Hex Hf; cbn [model_gate].
  { destruct Hf as [->|(? & []%not_elem_of_nil & _)]. done. }
  destruct (bool_decide_reflect (normalizeGroupName (gr_Name group) ∈ ({[g]} : gset string))) as [Hin|Hin].
  - apply elem_of_singleton in Hin. cbn [negb].
    assert (Hx : ChannelGroupExcludesModel (gr_ExcludedModels group) modelID = true) by (apply Hex; [left|done]).
    destruct (bool_decide_reflect (gr_ExcludedModels group = [])) as [He|He]; [by rewrite He in Hx|].
    rewrite andb_false_r. unfold routingGroupModelAllowed. rewrite Hx. apply IH; [|by left].
    intros g' Hg'. apply Hex. by right.
  - cbn [negb]. apply IH; [intros g' Hg'; apply Hex; by right|].
    destruct Hf as [->|(x & [->|Hx]%elem_of_cons & Hn)]; [by left|set_solver|right; eauto].
Qed.

(** A model that the caller's route group excludes is never served on that route: the
    request fails before any selector is asked, whichever credentials exist and whatever the
    allow list of the group says. *)
Lemma excluded_model_not_served m e providers model opts tried s t g :
  let scope := request_scope m model opts in
  let cfg := currentRuntimeConfigForTenant m (tenantIDFromMetadata (op_Metadata opts)) in
  sp_routeGroup scope = g → normalizeGroupName g = g → g ≠ "" →
  sp_routeFallback scope ≠ "default" → sp_allowedGroups scope = ∅ → TrimSpace (sp_modelKey scope) ≠ "" →
  (∃ group, group ∈ rt_ChannelGroups cfg ∧ normalizeGroupName (gr_Name group) = g) →
  (∀ group, group ∈ rt_ChannelGroups cfg → normalizeGroupName (gr_Name group) = g →
     ChannelGroupExcludesModel (gr_ExcludedModels group) (TrimSpace (sp_modelKey scope)) = true) →
  ∃ err, pickMixed (AS := AS) m e providers model opts tried s t = (inl err, s, t).
Proof.
  intros scope cfg Hg Hn Hne Hfb Hag Hmk Hsome Hex. unfold pickMixed, pickLocked. fold scope.
  destruct (bool_decide _); [by eexists|]. set (inc := alpha_filter _ _).
  destruct (pick_groups_none m e scope "mixed" opts tried inc (routeGroupsToTry scope) None s t)
    as [err Herr]; [|by rewrite Herr; eexists].
  assert (Hgroups : routeGroupsToTry scope = [g]).
  { unfold routeGroupsToTry, fallbackRouteGroup, initialRouteGroup, effectiveRouteGroupForSelection.
    apply String.eqb_neq in Hfb, Hne as Hne'. rewrite Hg, Hfb, Hn, Hne'. done. }
  rewrite Hgroups. intros g' ->%list_elem_of_singleton.
  destruct (buildCandidatesLocked _ _ _ _ _) as [|a l] eqn:E; [done|]. exfalso.
  assert (Ha : a ∈ a :: l) by left. rewrite <-E in Ha.
  apply buildCandidates_elem in Ha as (id & c & _ & Ha & _). fold scope in Ha.
  apply allowsCandidate_iff in Ha as (_ & _ & _ & _ & _ & Hr & _ & Hm). specialize (Hr Hne).
  apply in_route_group in Hr as [?|Hr]; [congruence|]. rewrite Hn in Hr.
  assert (Hk : sp_modelKey scope ≠ "") by (intros E0; by rewrite E0 in Hmk). specialize (Hm Hk).
  apply guard_iff in Hm as [_ [Hm _]%guard_iff]. apply negb_false_iff in Hm.
  revert Hm. unfold modelAllowedByRoutingGroupScopes. change (sp_cfg scope) with (Some cfg) in *.
  rewrite TrimSpace_idem, Hag. apply String.eqb_neq in Hmk. rewrite Hmk.
  assert (Hc : bool_decide (authGroups (Some cfg) c = ∅) = false) by (apply bool_decide_eq_false; set_solver).
  rewrite Hc. cbn [orb].
  assert (Hs : scopedRouteGroupNames (authGroups (Some cfg) c) g ∅ = {[g]}).
  { unfold scopedRouteGroupNames. apply String.eqb_neq in Hne. rewrite Hne, Hn.
    rewrite bool_decide_eq_true_2 by done. cbn [negb andb]. set_solver. }
  rewrite Hs, bool_decide_eq_false_2 by set_solver.
  rewrite (model_gate_excluded {[g]} g) by auto. done.
Qed.

(** ** What the management interface reports *)

Lemma normalizedTenantID_idem id : normalizedTenantID (normalizedTenantID id) = normalizedTenantID id.
Proof.
  unfold normalizedTenantID. destruct (String.eqb_spec (TrimSpace id) "") as [E|E]; [done|].
  rewrite TrimSpace_idem. by apply String.eqb_neq in E as ->.
Qed.

Lemma buildCandidates_nonempty m scope g tried inc :
  buildCandidatesLocked m scope g tried inc ≠ [] ↔
  ∃ id c, mg_auths m !! id = Some (Some c) ∧ allowsCandidate scope (Some c) g tried (mg_registry m) = true ∧
    inc c = true.
Proof.
  split.
  - intros (a & Ha)%list_nonempty_elem. apply buildCandidates_elem in Ha as (id & c & ? & ? & ? & _). eauto.
  - intros (id & c & Hid & Ha & Hi) E. assert (H : prepareCandidateForSelection (sp_cfg scope) c g
      (sp_allowedGroups scope) ∈ buildCandidatesLocked m scope g tried inc)
      by (apply buildCandidates_elem; eauto 10). rewrite E in H. by apply not_elem_of_nil in H.
Qed.

(** The management interface and the selector agree on what can be served: for a
    request without a pin the query answers yes exactly when the request has a candidate in
    its first route group, before providers and earlier attempts narrow the list. *)
Lemma can_serve_agrees m model opts :
  let scope := request_scope m model opts in
  sp_pinnedAuthID scope = "" → sp_modelKey scope ≠ "" → TrimSpace (sp_modelKey scope) = sp_modelKey scope →
  CanServeModelWithScopesForTenantOpts m (sp_tenantID scope) (sp_modelKey scope)
    (sp_allowedChannels scope) (sp_allowedGroups scope) (sp_routeGroup scope) false = true ↔
  buildCandidatesLocked m scope (initialRouteGroup scope) ∅ (λ _, true) ≠ [].
Proof.
  intros scope Hpin Hmk Htrim. rewrite buildCandidates_nonempty.
  unfold CanServeModelWithScopesForTenantOpts. rewrite Htrim. apply String.eqb_neq in Hmk as Hmk'. rewrite Hmk'.
  assert (Ht : normalizedTenantID (sp_tenantID scope) = sp_tenantID scope) by apply normalizedTenantID_idem.
  rewrite Ht.
  assert (Hcfg : Some (currentRuntimeConfigForTenant m (sp_tenantID scope)) = sp_cfg scope) by done.
  rewrite Hcfg. fold (initialRouteGroup scope). set (g := initialRouteGroup scope).
  rewrite existsb_elem. split.
  - intros ([id [c|]] & Hin%elem_of_range & H); [|done]. exists id, c. split; [done|]. split; [|done].
    cbn [serves_in_scope snd] in H. rewrite Hcfg, !guard_iff, orb_false_iff, !negb_false_iff, String.eqb_eq in H.
    destruct H as ([H1 H2] & H3 & H4 & H5 & H6). apply allowsCandidate_iff.
    do 2 (split; [done|]). split; [done|]. do 2 (split; [done|]). split; [done|].
    split; [set_solver|done].
  - intros (id & c & Hid & H & _). exists (id, Some c). rewrite elem_of_range. split; [done|].
    apply allowsCandidate_iff in H as (H1 & H2 & _ & H4 & H5 & H6 & _ & H8).
    cbn [serves_in_scope snd]. rewrite Hcfg, !guard_iff, orb_false_iff, !negb_false_iff, String.eqb_eq.
    do 3 (split; [done|]). split; [|by apply H8].
    destruct (decide (g = "")) as [->|Hg]; [by apply in_route_group; left|by apply H6].
Qed.

End theorems.

(** ** Diagnoses *)

Section diagnoses.
Context {RO : RangeOrder} {X : MathExp2} {J : GoJSON} {MD : ModelDiscovery}.
Context {Ex : Type}.
Variables (m : Manager Ex) (scope : selectionScope) (g : string) (inc : Auth → bool).

(** The credentials a request may be about, those that serve its model, and why one of
    these is out of reach: the caller's channels, the caller's groups, a group's models. *)
Definition considered (a : Auth) : bool :=
  enabled a && String.eqb (normalizedTenantID (au_TenantID a)) (sp_tenantID scope) && inc a.
Definition serving (a : Auth) : bool :=
  considered a && candidateServesModel (mg_registry m) a (sp_modelKey scope).
Definition off_channel (a : Auth) : bool :=
  serving a && ! authAllowedByChannels a (sp_allowedChannels scope).
Definition off_group (a : Auth) : bool :=
  serving a && authAllowedByChannels a (sp_allowedChannels scope) &&
  ! authAllowedByGroups (sp_cfg scope) a (sp_allowedGroups scope).
Definition model_refused (a : Auth) : bool :=
  serving a && authAllowedByChannels a (sp_allowedChannels scope) &&
  authAllowedByGroups (sp_cfg scope) a (sp_allowedGroups scope) &&
  ! modelAllowedByRoutingGroupScopes (sp_cfg scope) (au_TenantID a) (sp_modelKey scope)
      (authGroups (sp_cfg scope) a) g (sp_allowedGroups scope).

(** A group that refuses the model is named by one of the two lists. *)
Lemma blocking_groups_nonempty scoped tenantID modelID found groups :
  model_gate scoped modelID tenantID found groups = false →
  found = true ∨ blocking_groups scoped tenantID modelID groups ≠ ([], []).
Proof.
  revert found. induction groups as [|group groups IH]; intros found; cbn [model_gate blocking_groups].
  { intros H. left. by apply negb_false_iff in H. }
  destruct (blocking_groups scoped tenantID modelID groups) as [ex no].
  destruct (bool_decide_reflect (normalizeGroupName (gr_Name group) ∈ scoped)); cbn [negb]; [|apply IH].
  destruct (bool_decide _ && bool_decide _); [done|].
  destruct (routingGroupModelAllowed _ _ _ _ _); [done|]. intros _. right.
  by destruct (ChannelGroupExcludesModel _ _).
Qed.

Lemma blockingRouteGroups_nonempty cfg tenantID modelID groups rg allowed :
  TrimSpace modelID = modelID →
  modelAllowedByRoutingGroupScopes cfg tenantID modelID groups rg allowed = false →
  blockingRouteGroups cfg tenantID modelID groups rg allowed ≠ ([], []).
Proof.
  unfold modelAllowedByRoutingGroupScopes, blockingRouteGroups. intros ->. destruct cfg as [c|]; [|done].
  destruct (String.eqb modelID ""); [done|]. cbn [orb]. destruct (bool_decide (groups = ∅)); [done|].
  destruct (bool_decide (scopedRouteGroupNames groups rg allowed = ∅)); [done|].
  intros H%blocking_groups_nonempty. by destruct H.
Qed.

Definition nothing_named (rj : selectionRejection) : Prop :=
  rj_modelExcludedByGroups rj = ∅ ∧ rj_modelBlockedByGroups rj = ∅.

Lemma diagnose_step_spec rj id a : TrimSpace (sp_modelKey scope) = sp_modelKey scope →
  let rj' := diagnose_step (mg_registry m) scope g inc rj (id, Some a) in
  rj_sawTenantCandidate rj' = rj_sawTenantCandidate rj || considered a ∧
  rj_sawServingCandidate rj' = rj_sawServingCandidate rj || serving a ∧
  rj_servingBlockedByChannels rj' = rj_servingBlockedByChannels rj || off_channel a ∧
  rj_servingBlockedByGroups rj' = rj_servingBlockedByGroups rj || off_group a ∧
  (nothing_named rj' ↔ nothing_named rj ∧ model_refused a = false).
Proof.
  intros Htrim. unfold diagnose_step, model_refused, off_channel, off_group, serving, considered, nothing_named.
  cbn [snd]. destruct (enabled a); cbn [andb negb]; [|rewrite !orb_false_r; naive_solver].
  destruct (String.eqb _ _); cbn [andb negb]; [|rewrite !orb_false_r; naive_solver].
  destruct (inc a); cbn [andb negb]; [|rewrite !orb_false_r; naive_solver].
  destruct (candidateServesModel _ _ _); cbn [andb negb];
    [|cbn; rewrite !orb_true_r, ?orb_false_r; naive_solver].
  destruct (authAllowedByChannels _ _); cbn [andb negb];
    [|cbn; rewrite !orb_true_r, ?orb_false_r; naive_solver].
  destruct (authAllowedByGroups _ _ _); cbn [andb negb];
    [|cbn; rewrite !orb_true_r, ?orb_false_r; naive_solver].
  destruct (modelAllowedByRoutingGroupScopes _ _ _ _ _ _) eqn:Hm; cbn [andb negb];
    [cbn; rewrite !orb_true_r, ?orb_false_r; naive_solver|].
  apply blockingRouteGroups_nonempty in Hm; [|done]. destruct (blockingRouteGroups _ _ _ _ _ _) as [ex no].
  cbn. rewrite !orb_true_r, !orb_false_r. do 4 (split; [done|]). split; [|naive_solver].
  intros [H1 H2]. destruct Hm. destruct ex as [|x ex]; [|set_solver]. destruct no as [|y no]; [done|set_solver].
Qed.

(** [P] holds of a credential of the list. *)
Abbreviation some_in l P := (existsb (λ e : string * option Auth, match e.2 with Some a => P a | None => false end) l)
  (only parsing).

Lemma diagnose_fold l : TrimSpace (sp_modelKey scope) = sp_modelKey scope →
  let rj := foldl (diagnose_step (mg_registry m) scope g inc) no_rejection l in
  rj_sawTenantCandidate rj = some_in l considered ∧
  rj_sawServingCandidate rj = some_in l serving ∧
  rj_servingBlockedByChannels rj = some_in l off_channel ∧
  rj_servingBlockedByGroups rj = some_in l off_group ∧
  (nothing_named rj ↔ some_in l model_refused = false).
Proof.
  intros Htrim. induction l as [|[id [a|]] l IH] using rev_ind; [done| |].
  - rewrite foldl_snoc, !existsb_app. cbn [existsb snd]. rewrite !orb_false_r. destruct IH as (H1 & H2 & H3 & H4 & H5).
    destruct (diagnose_step_spec (foldl (diagnose_step (mg_registry m) scope g inc) no_rejection l) id a Htrim)
      as (E1 & E2 & E3 & E4 & E5). rewrite E1, E2, E3, E4, H1, H2, H3, H4. do 4 (split; [done|]).
    rewrite E5, H5, orb_false_iff. done.
  - rewrite foldl_snoc, !existsb_app. cbn [existsb snd]. by rewrite !orb_false_r.
Qed.

Lemma some_registered (P : Auth → bool) site :
  some_in (range_order site (mg_auths m)) P = true ↔ ∃ c, registered m c ∧ P c = true.
Proof.
  rewrite existsb_elem. unfold registered. split.
  - intros ([id [c|]] & Hin%elem_of_range & H); [|done]. eauto.
  - intros (c & [id Hid] & H). exists (id, Some c). by rewrite elem_of_range.
Qed.

Lemma serving_considered a : serving a = true → considered a = true.
Proof. unfold serving. by intros [H _]%andb_true_iff. Qed.

Lemma off_channel_serving a : off_channel a = true → serving a = true.
Proof. unfold off_channel. by intros [H _]%andb_true_iff. Qed.

Lemma off_group_serving a : off_group a = true → serving a = true.
Proof. unfold off_group. by intros [[H _]%andb_true_iff _]%andb_true_iff. Qed.

Lemma model_refused_serving a : model_refused a = true → serving a = true.
Proof. unfold model_refused. by intros [[[H _]%andb_true_iff _]%andb_true_iff _]%andb_true_iff. Qed.

(** What a diagnosis says, as a fact about the registered credentials. *)
Definition diagnosed (P : Auth → bool) : Prop := ∃ c, registered m c ∧ P c = true.

(** C35: when a request has no candidates, the cause it is told is the true one and is told
    whenever there is one: a serving credential outside the caller's groups comes first, then
    one outside the caller's channels, then one whose groups refuse the model; without any of
    the three there is no diagnosis. *)
Theorem diagnosis_exact :
  sp_modelKey scope ≠ "" → TrimSpace (sp_modelKey scope) = sp_modelKey scope →
  match diagnoseEmptyCandidates m scope g inc with
  | None => ¬ diagnosed off_group ∧ ¬ diagnosed off_channel ∧ ¬ diagnosed model_refused
  | Some (SelError err) =>
      (er_Code err = "model_outside_allowed_channel_groups" ∧ diagnosed off_group) ∨
      (er_Code err = "model_outside_allowed_channels" ∧ ¬ diagnosed off_group ∧ diagnosed off_channel) ∨
      (er_Code err = "model_not_allowed_by_channel_group" ∧ ¬ diagnosed off_group ∧
       ¬ diagnosed off_channel ∧ diagnosed model_refused)
  | Some _ => False
  end.
Proof.
  intros Hk Htrim. unfold diagnoseEmptyCandidates. apply String.eqb_neq in Hk. rewrite Hk.
  destruct (diagnose_fold (range_order 42 (mg_auths m)) Htrim) as (E1 & E2 & E3 & E4 & E5).
  set (rj := foldl _ _ _) in *.
  pose proof (some_registered considered 42) as R1. pose proof (some_registered serving 42) as R2.
  pose proof (some_registered off_channel 42) as R3. pose proof (some_registered off_group 42) as R4.
  pose proof (some_registered model_refused 42) as R5. rewrite <-E1 in R1. rewrite <-E2 in R2.
  rewrite <-E3 in R3. rewrite <-E4 in R4. fold (diagnosed considered) in R1. fold (diagnosed serving) in R2.
  fold (diagnosed off_channel) in R3. fold (diagnosed off_group) in R4. fold (diagnosed model_refused) in R5.
  assert (S2 : diagnosed serving → diagnosed considered)
    by (intros (c & ? & ?%serving_considered); by exists c).
  assert (S3 : diagnosed off_channel → diagnosed serving)
    by (intros (c & ? & ?%off_channel_serving); by exists c).
  assert (S4 : diagnosed off_group → diagnosed serving)
    by (intros (c & ? & ?%off_group_serving); by exists c).
  assert (S5 : diagnosed model_refused → diagnosed serving)
    by (intros (c & ? & ?%model_refused_serving); by exists c).
  clear E1 E2 E3 E4.
  destruct (rj_sawTenantCandidate rj); cbn [negb]; [|naive_solver].
  destruct (rj_sawServingCandidate rj); cbn [andb].
  - destruct (rj_servingBlockedByGroups rj); [left; split; [done|by apply R4]|].
    assert (N4 : ¬ diagnosed off_group) by (rewrite <-R4; done).
    destruct (rj_servingBlockedByChannels rj); [right; left; split; [done|]; split; [done|by apply R3]|].
    assert (N3 : ¬ diagnosed off_channel) by (rewrite <-R3; done).
    unfold nothing_named in E5.
    destruct (existsb _ _) eqn:Eo in E5, R5.
    + assert (Hr : diagnosed model_refused) by by apply R5.
      assert (Hn : ¬ (rj_modelExcludedByGroups rj = ∅ ∧ rj_modelBlockedByGroups rj = ∅)) by (rewrite E5; done).
      destruct (bool_decide_reflect (rj_modelExcludedByGroups rj = ∅)),
        (bool_decide_reflect (rj_modelBlockedByGroups rj = ∅)); cbn [andb]; [by destruct Hn|..];
        right; right; done.
    + destruct (proj2 E5 eq_refl) as [-> ->]. rewrite !bool_decide_eq_true_2 by done. cbn [andb].
      do 2 (split; [done|]). rewrite <-R5. done.
  - assert (N : ¬ diagnosed serving) by (rewrite <-R2; done).
    assert (Hr : ¬ diagnosed model_refused) by auto.
    assert (Eo : existsb (λ e : string * option Auth, match e.2 with Some a => model_refused a | None => false end)
      (range_order 42 (mg_auths m)) = false) by (apply not_true_is_false; by rewrite R5).
    destruct (proj2 E5 Eo) as [-> ->]. rewrite !bool_decide_eq_true_2 by done. cbn [andb].
    split; [by intros ?%S4|]. split; [by intros ?%S3|done].
Qed.

End diagnoses.

(** ** Concrete runs *)

Definition set_Prefix (v : string) (a : Auth) : Auth :=
  {| au_ID := au_ID a; au_TenantID := au_TenantID a; au_Provider := au_Provider a;
     au_Prefix := v; au_Label := au_Label a; au_ProxyID := au_ProxyID a; au_ProxyURL := au_ProxyURL a;
     au_Disabled := au_Disabled a; au_Attributes := au_Attributes a; au_Metadata := au_Metadata a;
     au_Status := au_Status a; au_StatusMessage := au_StatusMessage a;
     au_Unavailable := au_Unavailable a; au_Quota := au_Quota a;
     au_LastError := au_LastError a; au_UpdatedAt := au_UpdatedAt a;
     au_LastRefreshedAt := au_LastRefreshedAt a; au_NextRefreshAfter := au_NextRefreshAfter a;
     au_NextRetryAfter := au_NextRetryAfter a; au_ModelStates := au_ModelStates a |}.

#[local] Existing Instances listing_order constant_exp2 no_json plain_ref.
#[local] Instance nothing_discovered : ModelDiscovery := None.
#[local] Instance no_floats : FloatText := λ _, "".

(** One account of the group "team": the registry lists its models under that prefix. *)
Definition team_account : Auth := set_Prefix "team" (auth_new "x" "codex" ∅ ∅).
Definition team_registry : ModelRegistry :=
  MkRegistry (λ _, ["team/gpt-5"]) (λ _ model, String.eqb model "team/gpt-5").
Definition team_group (excluded : list string) : runtimeRoutingChannelGroup :=
  MkGroup "team" (weights []) (MkMatch [] [] []) false [] excluded.
Definition team_manager (excluded : list string) : Manager unit :=
  MkManager {["x" := Some team_account]} (Some team_registry)
    {[defaultTenantID := MkRouting "" false [team_group excluded]]} {["codex" := tt]} ∅ None.
Definition idle_selectors : SessionStickySelector DistributionSelectors * option unit :=
  (MkSticky ∅ (MkDistribution rr_new FillFirst LeastLoad) 0, None).
Definition request_for (meta : gmap string GoAny) : Options := MkOptions meta "openai" "" "".

Lemma picked_credential_permitted_witness :
  permitted (request_scope (team_manager []) "gpt-5" (request_for ∅)) (Some team_registry) "" ∅ team_account.
Proof.
  assert (∃ s' t', pickMixed (team_manager []) plain_env ["codex"] "gpt-5" (request_for ∅) ∅ idle_selectors None
    = (inr (team_account, tt, "codex"), s', t')) as (s' & t' & H) by (do 2 eexists; vm_compute; reflexivity).
  apply picked_credential_permitted in H as (c & g & [id Hid] & Hg & Hp & _).
  vm_compute in Hg. apply list_elem_of_singleton in Hg as ->.
  replace team_account with c; [exact Hp|].
  cbn [mg_auths team_manager] in Hid. apply lookup_singleton_Some in Hid as [_ [= <-]]. reflexivity.
Defined.

Definition team_route : Options := request_for {["route_group" := AString "team"]}.

Lemma excluded_model_not_served_witness :
  ∃ err, pickMixed (team_manager ["gpt-*"]) plain_env ["codex"] "gpt-5" team_route ∅ idle_selectors None
    = (inl err, idle_selectors, None).
Proof.
  apply (excluded_model_not_served (team_manager ["gpt-*"]) plain_env ["codex"] "gpt-5" team_route
    ∅ idle_selectors None "team");
    [vm_compute; reflexivity|vm_compute; reflexivity|discriminate|vm_compute; discriminate|
     vm_compute; reflexivity|vm_compute; discriminate| |].
  - exists (team_group ["gpt-*"]). vm_compute. split; [left|reflexivity].
  - intros group Hg _. vm_compute in Hg. apply list_elem_of_singleton in Hg as ->. vm_compute. reflexivity.
Defined.

Lemma can_serve_agrees_witness :
  CanServeModelWithScopesForTenantOpts (team_manager []) defaultTenantID "gpt-5" ∅ ∅ "" false = true.
Proof.
  refine (proj2 (can_serve_agrees (team_manager []) "gpt-5" (request_for ∅) _ _ _) _);
    try (vm_compute; reflexivity); vm_compute; discriminate.
Defined.

(** A caller who may only use the group "other". *)
Definition other_group : Options := request_for {["allowed-channel-groups" := AString "other"]}.

Lemma diagnosis_exact_witness :
  ¬ diagnosed (team_manager []) (off_group (team_manager [])
      (request_scope (team_manager []) "gpt-5" other_group) (λ _, true)).
Proof.
  pose proof (diagnosis_exact (team_manager []) (request_scope (team_manager []) "gpt-5" other_group) ""
    (λ _, true) ltac:(vm_compute; discriminate) ltac:(vm_compute; reflexivity)) as H.
  assert (E : diagnoseEmptyCandidates (team_manager []) (request_scope (team_manager []) "gpt-5" other_group) ""
    (λ _, true) = None) by (vm_compute; reflexivity).
  rewrite E in H. exact (proj1 H).
Defined.

(** The diagnosis and the selector disagree on what "serves" means: an account whose
    models are registered under its group's prefix serves the bare model, yet it does not count
    as serving when the request of a caller restricted to another group is diagnosed, so this
    caller reads "no auth available" instead of the group to ask for. *)
Lemma diagnosis_misses_prefixed_models :
  candidateSupportsModel (Some (currentRuntimeConfigForTenant (team_manager []) "")) (Some team_registry)
    team_account "gpt-5" "" ∅ = true ∧
  candidateServesModel (Some team_registry) team_account "gpt-5" = false ∧
  (pickMixed (team_manager []) plain_env ["codex"] "gpt-5" (request_for ∅) ∅ idle_selectors None).1.1
    = inr (team_account, tt, "codex") ∧
  (pickMixed (team_manager []) plain_env ["codex"] "gpt-5" other_group ∅ idle_selectors None).1.1
    = inl (plain_error "auth_not_found" "no auth available").
Proof. vm_compute. done. Qed.
