(* ===== verification/Execution.v ===== *)
(** * Executing a request over several credentials

    Models [src/sdk/cliproxy/auth/conductor_execution_service.go] (one attempt of a
    request: picking, moderation, concurrency slots, the call, failover and the queue
    on saturated accounts), the helpers of [conductor_execution.go] it uses,
    [errorFromExecution] and [moderateRequest].

    What an attempt asks of the rest of the program is the class [Host] over a state
    [St]: picking, slots, the executor, the context and [MarkResult]. The state covers
    everything that other requests change meanwhile, so an operation of the host may
    change it in any way. What is relied on is the class [HostOK]. *)
From S2P Require Import Prelude GoModel AuthTypes ModelNames GroupModels Availability Aggregate QuotaPersist ClaudeHealth Cooldown Conductor Selectors ModelAlias.

(** ** Errors *)

(** An error of an executor: what its optional interfaces answer. *)
Record ExecError := MkExecError {
  xe_err : GoError; xe_RetryAfter : option Duration; xe_QuotaWindow : option (string * Z);
  xe_Headers : gmap string (list string) }.

Definition plain_exec_error (e : Error) : ExecError := MkExecError (of_Error e) None None ∅.

Definition errorFromExecution (err : ExecError) : Error :=
  match ge_Auth (xe_err err) with
  | Some authErr =>
      let message := if String.eqb (er_Message authErr) "" then ge_Text (xe_err err) else er_Message authErr in
      let '(window, minutes) :=
        match xe_QuotaWindow err with
        | Some w => if (String.eqb (er_QuotaWindow authErr) "" && (er_QuotaWindowMinutes authErr =? 0))
                    then w else (er_QuotaWindow authErr, er_QuotaWindowMinutes authErr)
        | None => (er_QuotaWindow authErr, er_QuotaWindowMinutes authErr)
        end in
      MkError (er_Code authErr) message (er_Retryable authErr) (er_HTTPStatus authErr) window minutes
  | None =>
      let '(window, minutes) := default ("", 0) (xe_QuotaWindow err) in
      MkError "" (ge_Text (xe_err err)) false (ge_Status (xe_err err)) window minutes
  end.

Definition resolveMixedPickError (lastErr : option ExecError) (errPick : ExecError) : ExecError :=
  default errPick lastErr.

(** What a moderator answers. *)
Record RequestModerationResult := MkModeration { mo_Blocked : bool; mo_Message : string; mo_HTTPStatus : Z }.

Definition moderation_error (result : RequestModerationResult) : option ExecError :=
  if ! mo_Blocked result then None
  else
    let status := if ((mo_HTTPStatus result <? 400) || (599 <? mo_HTTPStatus result)) then 403
                  else mo_HTTPStatus result in
    let message := TrimSpace (mo_Message result) in
    let message := if String.eqb message ""
                   then "Your request was blocked by the content moderation policy." else message in
    Some (plain_exec_error (MkError contentPolicyViolationCode message false status "" 0)).

(** ** Metadata of a request *)

Definition hasRequestedModelMetadata (meta : gmap string GoAny) : bool :=
  match meta !! "requested_model" with
  | Some (AString v) | Some (ABytes v) => ! String.eqb (TrimSpace v) ""
  | _ => false
  end.

Definition with_metadata (f : gmap string GoAny → gmap string GoAny) (opts : Options) : Options :=
  MkOptions (f (op_Metadata opts)) (op_SourceFormat opts) (op_bodyKey opts) (op_Alt opts).

Definition ensureRequestedModelMetadata (opts : Options) (requestedModel0 : string) : Options :=
  let requestedModel := TrimSpace requestedModel0 in
  if String.eqb requestedModel "" then opts
  else if hasRequestedModelMetadata (op_Metadata opts) then opts
  else with_metadata <["requested_model" := AString requestedModel]> opts.

Definition publishSelectedAuthMetadata (authID0 : string) (meta : gmap string GoAny) : gmap string GoAny :=
  let authID := TrimSpace authID0 in
  if (bool_decide (meta = ∅) || String.eqb authID "") then meta
  else <["selected_auth_id" := AString authID]> meta.

Definition rewriteModelForAuth (model : string) (a : Auth) : string :=
  let prefix := TrimSpace (au_Prefix a) in
  if (String.eqb model "" || String.eqb prefix "") then model
  else
    let needle := prefix +:+ "/" in
    if ! HasPrefix model needle then model else str_from (String.length needle) model.

(** ** The attempt *)

Record mixedExecutionCandidate := MkCand { ca_auth : Auth; ca_provider : string; ca_model : string }.

Record mixedExecutionScope := MkMixed {
  xs_providers : list string; xs_routeModel : string; xs_opts : Options; xs_singlePickRoute : bool;
  xs_tried : gset string; xs_saturated : list mixedExecutionCandidate; xs_lastErr : option ExecError }.

Definition with_saturated (l : list mixedExecutionCandidate) (s : mixedExecutionScope) : mixedExecutionScope :=
  MkMixed (xs_providers s) (xs_routeModel s) (xs_opts s) (xs_singlePickRoute s) (xs_tried s) l (xs_lastErr s).
Definition with_lastErr (e : ExecError) (s : mixedExecutionScope) : mixedExecutionScope :=
  MkMixed (xs_providers s) (xs_routeModel s) (xs_opts s) (xs_singlePickRoute s) (xs_tried s) (xs_saturated s) (Some e).

(** The alias tables and the key configuration of the manager. *)
Record AliasView := MkAliases {
  av_oauth : gmap string (gmap string (gmap string string));
  av_keys : gmap string (gmap string string);
  av_config : string → runtimeKeyConfig }.

Class Host (St Resp : Type) := {
  pickNextMixed : list string → string → Options → gset string → St → (ExecError + Auth * string) * St;
  moderateRequest : Auth → Options → St → option ExecError * St;
  acquireAccountSlot : Auth → St → option ExecError * St;
  waitAccountSlot : list Auth → St → (ExecError + string) * St;
  releaseSlot : string → St → St;
  callExecutor : Auth → string → Options → St → (ExecError + Resp) * St;
  ctxErr : Auth → St → option ExecError;
  MarkResult : Result → St → St;
  aliasView : St → AliasView;
  respHeaders : Resp → gmap string (list string) }.

Definition rewriteRequestForAuth (v : AliasView) (routeModel : string) (a : Auth) : string :=
  applyAPIKeyModelAlias (av_keys v) (av_config v) a
    (applyOAuthModelAlias (av_oauth v) a (rewriteModelForAuth routeModel a)).

Section execution.
Context {J : GoJSON} {St Resp : Type} {H : Host St Resp}.

Definition nextMixedCandidate (scope : mixedExecutionScope) (st : St)
    : (ExecError + mixedExecutionCandidate) * mixedExecutionScope * St :=
  let '(r, st) := pickNextMixed (xs_providers scope) (xs_routeModel scope) (xs_opts scope) (xs_tried scope) st in
  match r with
  | inl errPick => (inl errPick, scope, st)
  | inr (a, provider) =>
      let scope := MkMixed (xs_providers scope) (xs_routeModel scope)
        (with_metadata (publishSelectedAuthMetadata (au_ID a)) (xs_opts scope)) (xs_singlePickRoute scope)
        ({[au_ID a]} ∪ xs_tried scope) (xs_saturated scope) (xs_lastErr scope) in
      (inr (MkCand a provider (rewriteRequestForAuth (aliasView st) (xs_routeModel scope) a)), scope, st)
  end.

(** The queued candidate of an account, and the others. *)
Fixpoint take_candidate (authID : string) (l : list mixedExecutionCandidate)
    : option (mixedExecutionCandidate * list mixedExecutionCandidate) :=
  match l with
  | [] => None
  | c :: rest =>
      if String.eqb (au_ID (ca_auth c)) authID then Some (c, rest)
      else '(x, others) ← take_candidate authID rest; Some (x, c :: others)
  end.

(** [errNoSaturatedCandidate] or an error of the wait. *)
Inductive wait_error := NoSaturatedCandidate | WaitFailed (e : ExecError).

Definition waitForSaturatedSlot (scope : mixedExecutionScope) (st : St)
    : (wait_error + mixedExecutionCandidate) * mixedExecutionScope * St :=
  match xs_saturated scope with
  | [] => (inl NoSaturatedCandidate, scope, st)
  | saturated =>
      let '(r, st) := waitAccountSlot (ca_auth <$> saturated) st in
      match r with
      | inl err => (inl (WaitFailed err), scope, st)
      | inr authID =>
          match take_candidate authID saturated with
          | Some (candidate, rest) => (inr candidate, with_saturated rest scope, st)
          | None => (inl NoSaturatedCandidate, scope, releaseSlot authID st)
          end
      end
  end.

(** [nextReadyCandidate]; [None] is a loop that [fuel] rounds did not end. *)
Fixpoint nextReadyCandidate (fuel : nat) (scope : mixedExecutionScope) (st : St)
    : option ((ExecError + mixedExecutionCandidate) * mixedExecutionScope * St) :=
  match fuel with
  | O => None
  | S fuel =>
      let '(r, scope, st) := nextMixedCandidate scope st in
      match r with
      | inl errPick =>
          let '(w, scope, st) := waitForSaturatedSlot scope st in
          match w with
          | inr queued => Some (inr queued, scope, st)
          | inl errWait =>
              let scope := match errWait with WaitFailed e => with_lastErr e scope | NoSaturatedCandidate => scope end in
              Some (inl (resolveMixedPickError (xs_lastErr scope) errPick), scope, st)
          end
      | inr candidate =>
          let '(errModeration, st) := moderateRequest (ca_auth candidate) (xs_opts scope) st in
          match errModeration with
          | Some e => Some (inl e, scope, st)
          | None =>
              let '(errSlot, st) := acquireAccountSlot (ca_auth candidate) st in
              match errSlot with
              | None => Some (inr candidate, scope, st)
              | Some e =>
                  if isRequestInvalidError (xe_err e) then Some (inl e, scope, st)
                  else nextReadyCandidate fuel
                         (with_lastErr e (with_saturated (xs_saturated scope ++ [candidate]) scope)) st
              end
          end
      end
  end.

(** ** The three kinds of call *)

Definition failure_result (scope : mixedExecutionScope) (c : mixedExecutionCandidate) (e : ExecError) : Result :=
  MkResult (au_ID (ca_auth c)) (xs_routeModel scope) false (xe_RetryAfter e) (xe_Headers e)
    (Some (errorFromExecution e)).

Definition success_result (scope : mixedExecutionScope) (c : mixedExecutionCandidate) (resp : Resp) : Result :=
  MkResult (au_ID (ca_auth c)) (xs_routeModel scope) true None (respHeaders resp) None.

(** What one call leads to: the attempt goes on ([inl]) or ends. *)
Abbreviation Outcome := ((mixedExecutionScope + (ExecError + Resp)) * St)%type (only parsing).

(** The failure of a call, after its slot was given back. *)
Definition failover (mark : bool) (scope : mixedExecutionScope) (c : mixedExecutionCandidate)
    (errExec : ExecError) (st : St) : Outcome :=
  match ctxErr (ca_auth c) st with
  | Some errCtx => (inr (inl errCtx), st)
  | None =>
      let st := if mark then MarkResult (failure_result scope c errExec) st else st in
      if (isRequestInvalidError (xe_err errExec) || xs_singlePickRoute scope) then (inr (inl errExec), st)
      else (inl (with_lastErr errExec scope), st)
  end.

(** The body of [executeMixedOnce]. *)
Definition execute_call (scope : mixedExecutionScope) (c : mixedExecutionCandidate) (st : St) : Outcome :=
  let '(r, st) := callExecutor (ca_auth c) (ca_model c) (xs_opts scope) st in
  let st := releaseSlot (au_ID (ca_auth c)) st in
  match r with
  | inl errExec => failover true scope c errExec st
  | inr resp => (inr (inr resp), MarkResult (success_result scope c resp) st)
  end.

(** The body of [executeCountMixedOnce]: results are not recorded. *)
Definition count_call (scope : mixedExecutionScope) (c : mixedExecutionCandidate) (st : St) : Outcome :=
  let '(r, st) := callExecutor (ca_auth c) (ca_model c) (xs_opts scope) st in
  let st := releaseSlot (au_ID (ca_auth c)) st in
  match r with
  | inl errExec => failover false scope c errExec st
  | inr resp => (inr (inr resp), st)
  end.

(** The body of [executeStreamMixedOnce]: a stream keeps its slot. *)
Definition stream_call (scope : mixedExecutionScope) (c : mixedExecutionCandidate) (st : St) : Outcome :=
  let '(r, st) := callExecutor (ca_auth c) (ca_model c) (xs_opts scope) st in
  match r with
  | inl errStream => failover true scope c errStream (releaseSlot (au_ID (ca_auth c)) st)
  | inr stream => (inr (inr stream), st)
  end.

Fixpoint attempt_loop (call : mixedExecutionScope → mixedExecutionCandidate → St → Outcome)
    (pickFuel fuel : nat) (scope : mixedExecutionScope) (st : St) : option ((ExecError + Resp) * St) :=
  match fuel with
  | O => None
  | S fuel =>
      match nextReadyCandidate pickFuel scope st with
      | None => None
      | Some (inl errReady, _, st) => Some (inl errReady, st)
      | Some (inr candidate, scope, st) =>
          match call scope candidate st with
          | (inr result, st) => Some (result, st)
          | (inl scope, st) => attempt_loop call pickFuel fuel scope st
          end
      end
  end.

Definition no_provider : ExecError :=
  plain_exec_error (MkError "provider_not_found" "no provider supplied" false 0 "" 0).

Definition newMixedScope (providers : list string) (routeModel : string) (opts0 : Options)
    : ExecError + mixedExecutionScope :=
  if bool_decide (providers = []) then inl no_provider
  else
    let opts := ensureRequestedModelMetadata opts0 routeModel in
    inr (MkMixed providers routeModel opts (isSinglePickRouteRequest (op_Metadata opts)) ∅ [] None).

Definition attempt (call : mixedExecutionScope → mixedExecutionCandidate → St → Outcome) (fuel : nat)
    (providers : list string) (routeModel : string) (opts : Options) (st : St) : option ((ExecError + Resp) * St) :=
  match newMixedScope providers routeModel opts with
  | inl err => Some (inl err, st)
  | inr scope => attempt_loop call fuel fuel scope st
  end.

Definition executeMixedOnce := attempt execute_call.
Definition executeCountMixedOnce := attempt count_call.
Definition executeStreamMixedOnce := attempt stream_call.

End execution.
