(* ===== verification/ExecutionTrace.v ===== *)
(** * The protocol of an attempt

    Every operation an attempt asks of its host is logged, and the log is checked
    against the life of a credential in an attempt: picked, cleared by moderation,
    granted a slot at once or after waiting, called, its slot given back, its outcome
    recorded. The theorems show that every attempt of the three kinds follows this
    protocol with every host, that no slot is left behind, and that attempts end. *)
From S2P Require Import Prelude GoModel AuthTypes ModelNames GroupModels Availability Aggregate QuotaPersist ClaudeHealth Cooldown Conductor Selectors ModelAlias Execution.

(** ** The protocol *)

Inductive Event :=
  | EvPick (id : string) | EvClear (id : string) | EvBusy (id : string) | EvAcquire (id : string)
  | EvGranted (id : string) | EvCall (id : string) (ok : bool) | EvRelease (id : string)
  | EvMark (id : string) (ok : bool).

(** Where a credential stands in an attempt. *)
Inductive Phase :=
  | Picked | Cleared | Busy | Holding | Answered (ok : bool) | Returned (ok : bool) | Recorded (ok : bool).

#[export] Instance Phase_eq_dec : EqDecision Phase.
Proof. solve_decision. Defined.

Abbreviation Phases := (gmap string Phase) (only parsing).

(** The phase after an event; [None] breaks the protocol. *)
Definition next_phase (e : Event) (p : option Phase) : option (string * Phase) :=
  match e, p with
  | EvPick id, None => Some (id, Picked)
  | EvClear id, Some Picked => Some (id, Cleared)
  | EvBusy id, Some Cleared => Some (id, Busy)
  | EvAcquire id, Some Cleared => Some (id, Holding)
  | EvGranted id, Some Busy => Some (id, Holding)
  | EvCall id ok, Some Holding => Some (id, Answered ok)
  | EvRelease id, Some (Answered ok) => Some (id, Returned ok)
  | EvMark id ok, Some (Returned ok') => if Bool.eqb ok ok' then Some (id, Recorded ok) else None
  | _, _ => None
  end.

Definition event_id (e : Event) : string :=
  match e with
  | EvPick id | EvClear id | EvBusy id | EvAcquire id | EvGranted id | EvCall id _ | EvRelease id | EvMark id _ => id
  end.

Definition advance (m : option Phases) (e : Event) : option Phases :=
  m ← m; '(id, p) ← next_phase e (m !! event_id e); Some (<[id := p]> m).

Definition follows (log : list Event) : option Phases := foldl advance (Some ∅) log.

Lemma follows_snoc log e : follows (log ++ [e]) = advance (follows log) e.
Proof. unfold follows. by rewrite foldl_app. Qed.

(** ** Hosts that log *)

Section logging.
Context {St Resp : Type} {H : Host St Resp}.

Definition log_if (b : bool) (e : Event) (log : list Event) : list Event := if b then log ++ [e] else log.

Definition is_ok {A B} (r : A + B) : bool := match r with inr _ => true | inl _ => false end.

Definition logged : Host (St * list Event) Resp := {|
  pickNextMixed := λ ps model opts tried '(st, log),
    let '(r, st) := pickNextMixed ps model opts tried st in
    (r, (st, match r with inr (a, _) => log ++ [EvPick (au_ID a)] | inl _ => log end));
  moderateRequest := λ a opts '(st, log),
    let '(r, st) := moderateRequest a opts st in
    (r, (st, match r with None => log ++ [EvClear (au_ID a)] | Some _ => log end));
  acquireAccountSlot := λ a '(st, log),
    let '(r, st) := acquireAccountSlot a st in
    (r, (st, log ++ [match r with None => EvAcquire (au_ID a) | Some _ => EvBusy (au_ID a) end]));
  waitAccountSlot := λ l '(st, log),
    let '(r, st) := waitAccountSlot l st in
    (r, (st, match r with inr id => log ++ [EvGranted id] | inl _ => log end));
  releaseSlot := λ id '(st, log), (releaseSlot id st, log ++ [EvRelease id]);
  callExecutor := λ a model opts '(st, log),
    let '(r, st) := callExecutor a model opts st in (r, (st, log ++ [EvCall (au_ID a) (is_ok r)]));
  ctxErr := λ a '(st, _), ctxErr a st;
  MarkResult := λ r '(st, log), (MarkResult r st, log ++ [EvMark (re_AuthID r) (re_Success r)]);
  aliasView := λ '(st, _), aliasView st;
  respHeaders := respHeaders |}.

End logging.

(** What an attempt relies on: a pick avoids the credentials that were tried, and a wait
    is answered by one of the accounts that were queued on. *)
Class HostOK (St Resp : Type) {H : Host St Resp} : Prop := {
  pick_fresh : ∀ ps model opts tried (st : St) a p st',
    pickNextMixed ps model opts tried st = (inr (a, p), st') → au_ID a ∉ tried;
  wait_one_of : ∀ l (st : St) id st',
    waitAccountSlot l st = (inr id, st') → ∃ a, a ∈ l ∧ au_ID a = id }.

(** ** The invariant between two calls *)

Inductive Kind := KExecute | KCount | KStream.

(** The phase of a credential whose call failed, and of the one that served. *)
Definition failed (k : Kind) : Phase := match k with KCount => Returned false | _ => Recorded false end.
Definition served (k : Kind) : Phase :=
  match k with KExecute => Recorded true | KCount => Returned true | KStream => Answered true end.

Definition cand_id (c : mixedExecutionCandidate) : string := au_ID (ca_auth c).

Record between (k : Kind) (scope : mixedExecutionScope) (m : Phases) : Prop := {
  bt_tried : ∀ id p, m !! id = Some p → id ∈ xs_tried scope;
  bt_phase : ∀ id p, m !! id = Some p → p = Busy ∨ p = failed k;
  bt_busy : ∀ c, c ∈ xs_saturated scope → m !! cand_id c = Some Busy;
  bt_nodup : NoDup (cand_id <$> xs_saturated scope) }.

(** The phases a credential may end an attempt in when it did not serve it: no slot is
    held, and a call that failed is settled. *)
Definition at_rest (k : Kind) : list Phase := [Picked; Cleared; Busy; failed k].

Lemma between_lastErr k e scope m : between k scope m → between k (with_lastErr e scope) m.
Proof. by intros [? ? ? ?]. Qed.

(** A call that failed is behind the attempt. *)
Lemma between_failed k scope m id :
  between k scope m → id ∈ xs_tried scope → id ∉ cand_id <$> xs_saturated scope →
  between k scope (<[id := failed k]> m).
Proof.
  intros [Ht Hp Hb Hn] Hin Hout. split; [| | |done].
  - intros id' p. destruct (decide (id = id')) as [<-|Hne]; [done|].
    rewrite lookup_insert_ne by done. apply Ht.
  - intros id' p. destruct (decide (id = id')) as [<-|Hne].
    + rewrite lookup_insert_eq. intros [= <-]. by right.
    + rewrite lookup_insert_ne by done. apply Hp.
  - intros c Hc. rewrite lookup_insert_ne; [by apply Hb|]. intros ->. apply Hout.
    by apply list_elem_of_fmap_2.
Qed.

Lemma take_candidate_spec id l : (∃ c, c ∈ l ∧ cand_id c = id) →
  ∃ c l1 l2, take_candidate id l = Some (c, l1 ++ l2) ∧ l = l1 ++ c :: l2 ∧ cand_id c = id.
Proof.
  induction l as [|c l IH]; intros (x & Hx & Hid); [by apply not_elem_of_nil in Hx|].
  cbn [take_candidate]. fold (cand_id c). destruct (String.eqb_spec (cand_id c) id) as [E|Hne].
  - by exists c, [], l.
  - apply elem_of_cons in Hx as [->|Hx]; [done|].
    destruct IH as (y & l1 & l2 & -> & -> & Hy); [eauto|]. by exists y, (c :: l1), l2.
Qed.

(** ** Every attempt follows the protocol *)

Section protocol.
Context {J : GoJSON} {St Resp : Type} {H : Host St Resp} {OK : HostOK St Resp}.
Implicit Types (scope : mixedExecutionScope) (st : St) (log : list Event) (m : Phases).

Lemma advance_some m e id p : next_phase e (m !! event_id e) = Some (id, p) →
  advance (Some m) e = Some (<[id := p]> m).
Proof. intros E. unfold advance. cbn. by rewrite E. Qed.

(** After a pick: the fresh credential is cleared, busy or holding a slot, or the attempt ends. *)
Definition ready_ok (k : Kind) (r : ExecError + mixedExecutionCandidate) scope' log' : Prop :=
  ∃ m', follows log' = Some m' ∧
  match r with
  | inl _ => ∀ id p, m' !! id = Some p → p ∈ at_rest k
  | inr c => ∃ m, m' = <[cand_id c := Holding]> m ∧ between k scope' m ∧
      cand_id c ∈ xs_tried scope' ∧ cand_id c ∉ cand_id <$> xs_saturated scope'
  end.

Lemma between_ends k scope m id p : between k scope m → m !! id = Some p → p ∈ at_rest k.
Proof. intros [_ Hp _ _] Hid. unfold at_rest. destruct (Hp _ _ Hid) as [->| ->]; set_solver. Qed.

(** One more phase at rest does not change that an attempt may end. *)
Lemma ends_insert k scope m id p : between k scope m → p ∈ at_rest k →
  ∀ id' p', <[id := p]> m !! id' = Some p' → p' ∈ at_rest k.
Proof.
  intros Hb Hi id' p'. destruct (decide (id = id')) as [<-|Hne].
  - rewrite lookup_insert_eq. by intros [= <-].
  - rewrite lookup_insert_ne by done. by eapply between_ends.
Qed.

Lemma queue_ok k scope st log m r scope' st' log' errPick :
  between k scope m → follows log = Some m →
  waitForSaturatedSlot (H := logged) scope (st, log) = (r, scope', (st', log')) →
  ready_ok k (match r with inr c => inr c | inl _ => inl errPick end) scope' log'.
Proof.
  intros Hb Hf. unfold waitForSaturatedSlot. destruct (xs_saturated scope) as [|c0 l0] eqn:Hsat.
  { intros [= <- <- <- <-]. exists m. split; [done|]. intros id p. by eapply between_ends. }
  cbn [waitAccountSlot logged]. destruct (waitAccountSlot (Host := H) _ st) as [[e|id] st1] eqn:Hw.
  { intros [= <- <- <- <-]. exists m. split; [done|]. intros id p. by eapply between_ends. }
  apply wait_one_of in Hw as (a & Ha & Hid). apply list_elem_of_fmap in Ha as (c1 & -> & Hc1).
  destruct (take_candidate_spec id (c0 :: l0)) as (c & l1 & l2 & -> & Hl & Hc); [eauto|].
  intros [= <- <- <- <-]. rewrite Hl in Hsat. clear Hl Hc1 c0 l0.
  assert (Hbusy : m !! cand_id c = Some Busy) by (apply (bt_busy _ _ _ Hb); rewrite Hsat; set_solver).
  exists (<[cand_id c := Holding]> m). rewrite follows_snoc, Hf. split.
  { apply advance_some. cbn. by rewrite <-Hc, Hbusy. }
  exists m. split; [done|]. pose proof (bt_nodup _ _ _ Hb) as Hnd. rewrite Hsat, fmap_app, fmap_cons in Hnd.
  apply NoDup_app in Hnd as (Hn1 & Hn2 & Hn3). apply NoDup_cons in Hn3 as [Hn3 Hn4].
  split; [|split; [exact (bt_tried _ _ _ Hb _ _ Hbusy)|]]; cbn [xs_saturated with_saturated].
  - destruct Hb as [Ht Hp Hbs Hn]. split; [done|done| |].
    + intros x Hx. apply Hbs. rewrite Hsat. cbn [xs_saturated with_saturated] in Hx. set_solver.
    + cbn [xs_saturated with_saturated]. rewrite fmap_app. apply NoDup_app. split; [done|]. split; [|done].
      intros x Hx Hx2. apply (Hn2 x Hx). by right.
  - rewrite fmap_app. intros [Hx|Hx]%elem_of_app; [|done]. apply (Hn2 _ Hx). left.
Qed.

(** The next candidate holds its slot, or the attempt ends with no slot held. *)
Lemma nextReady_ok k fuel scope st log m r scope' st' log' :
  between k scope m → follows log = Some m →
  nextReadyCandidate (H := logged) fuel scope (st, log) = Some (r, scope', (st', log')) →
  ready_ok k r scope' log'.
Proof.
  revert scope st log m. induction fuel as [|fuel IH]; intros scope st log m Hb Hf; [done|].
  cbn [nextReadyCandidate]. unfold nextMixedCandidate. cbn [pickNextMixed logged aliasView].
  destruct (pickNextMixed (Host := H) _ _ _ _ st) as [[errPick|[a prov]] st1] eqn:Hp.
  { destruct (waitForSaturatedSlot (H := logged) scope (st1, log)) as [[w scope1] [st2 log2]] eqn:Hw.
    apply (queue_ok k scope st1 log m w scope1 st2 log2 errPick Hb Hf) in Hw.
    destruct w as [ew|c]; intros [= <- <- <- <-]; [|done].
    destruct Hw as (m' & Hm' & Hend). by exists m'. }
  apply pick_fresh in Hp. set (scope1 := MkMixed _ _ _ _ _ _ _).
  set (c := MkCand a prov _). assert (Hc : cand_id c = au_ID a) by done.
  assert (Hnone : m !! au_ID a = None).
  { apply eq_None_not_Some. intros [p Hp']. apply Hp. by eapply (bt_tried _ _ _ Hb). }
  assert (Hb1 : between k scope1 m).
  { destruct Hb as [Ht Hph Hbs Hn]. split; [|done|done|done]. intros id p Hid. apply Ht in Hid. set_solver. }
  assert (Hpick : follows (log ++ [EvPick (au_ID a)]) = Some (<[au_ID a := Picked]> m)).
  { rewrite follows_snoc, Hf. apply advance_some. cbn. by rewrite Hnone. }
  change (ca_auth c) with a. cbn [moderateRequest logged]. destruct (moderateRequest (Host := H) _ _ st1) as [[e|] st2].
  { intros [= <- <- <- <-]. exists (<[au_ID a := Picked]> m). split; [done|]. eapply ends_insert; [done|unfold at_rest; set_solver]. }
  assert (Hclear : follows ((log ++ [EvPick (au_ID a)]) ++ [EvClear (au_ID a)]) = Some (<[au_ID a := Cleared]> m)).
  { rewrite follows_snoc, Hpick. erewrite advance_some; [by rewrite insert_insert_eq|]. cbn. by rewrite lookup_insert_eq. }
  change (ca_auth c) with a. cbn [acquireAccountSlot logged]. destruct (acquireAccountSlot (Host := H) a st2) as [[e|] st3].
  - assert (Hbusy : follows (((log ++ [EvPick (au_ID a)]) ++ [EvClear (au_ID a)]) ++ [EvBusy (au_ID a)])
        = Some (<[au_ID a := Busy]> m)).
    { rewrite follows_snoc, Hclear. erewrite advance_some; [by rewrite insert_insert_eq|]. cbn. by rewrite lookup_insert_eq. }
    destruct (isRequestInvalidError (xe_err e)).
    { intros [= <- <- <- <-]. exists (<[au_ID a := Busy]> m). split; [done|]. eapply ends_insert; [done|unfold at_rest; set_solver]. }
    apply IH with (m := <[au_ID a := Busy]> m); [|done]. apply between_lastErr.
    destruct Hb1 as [Ht Hph Hbs Hn]. split; cbn [xs_saturated with_saturated xs_tried].
    + intros id p. destruct (decide (au_ID a = id)) as [<-|Hne]; [set_solver|].
      rewrite lookup_insert_ne by done. apply Ht.
    + intros id p. destruct (decide (au_ID a = id)) as [<-|Hne].
      * rewrite lookup_insert_eq. intros [= <-]. by left.
      * rewrite lookup_insert_ne by done. apply Hph.
    + intros x [Hx| ->%list_elem_of_singleton]%elem_of_app; [|by rewrite Hc, lookup_insert_eq].
      rewrite lookup_insert_ne; [by apply Hbs|]. intros E. specialize (Hbs x Hx). by rewrite <-E, Hnone in Hbs.
    + rewrite fmap_app. apply NoDup_app. split; [done|]. split; [|by apply NoDup_singleton].
      intros x Hx ->%list_elem_of_singleton. apply list_elem_of_fmap in Hx as (y & E & Hy).
      apply Hbs in Hy. by rewrite <-E, Hc, Hnone in Hy.
  - intros [= <- <- <- <-]. exists (<[au_ID a := Holding]> m). split.
    { rewrite follows_snoc, Hclear. erewrite advance_some; [by rewrite insert_insert_eq|]. cbn. by rewrite lookup_insert_eq. }
    exists m. rewrite Hc. split; [done|]. split; [done|]. split; [set_solver|].
    intros Hx. apply list_elem_of_fmap in Hx as (y & E & Hy). apply (bt_busy _ _ _ Hb1) in Hy.
    by rewrite <-E, Hnone in Hy.
Qed.

End protocol.

Definition call_of (k : Kind) {J : GoJSON} {St Resp} {H : Host St Resp} :
    mixedExecutionScope → mixedExecutionCandidate → St → (mixedExecutionScope + (ExecError + Resp)) * St :=
  match k with KExecute => execute_call | KCount => count_call | KStream => stream_call end.

Section attempts.
Context {J : GoJSON} {St Resp : Type} {H : Host St Resp} {OK : HostOK St Resp}.
Implicit Types (scope : mixedExecutionScope) (st : St) (log : list Event) (m : Phases).

(** How an attempt may end: with the credential that served it and all others at rest, or
    with all at rest, but for a call that was cut off by the end of its context. *)
Definition ended (k : Kind) (r : ExecError + Resp) (m : Phases) : Prop :=
  match r with
  | inr _ => ∃ id, m !! id = Some (served k) ∧ ∀ id' p, id' ≠ id → m !! id' = Some p → p ∈ at_rest k
  | inl e => ∀ id p, m !! id = Some p →
      p ∈ at_rest k ∨ (p = Returned false ∧ ∃ a st, ctxErr a st = Some e)
  end.

Lemma ended_served k resp m id : (∀ id' p, m !! id' = Some p → p ∈ at_rest k) →
  ended k (inr resp) (<[id := served k]> m).
Proof.
  intros Hm. exists id. split; [by rewrite lookup_insert_eq|]. intros id' p Hne.
  rewrite lookup_insert_ne by done. apply Hm.
Qed.

(** The steps of one credential in the log. *)
Lemma follows_step log e m id p q : follows log = Some (<[id := p]> m) → event_id e = id →
  next_phase e (Some p) = Some (id, q) → follows (log ++ [e]) = Some (<[id := q]> m).
Proof.
  intros Hf <- He. rewrite follows_snoc, Hf. erewrite advance_some; [by rewrite insert_insert_eq|].
  by rewrite lookup_insert_eq.
Qed.

Ltac step_from p := eapply (follows_step _ _ _ _ p); [|reflexivity|reflexivity].

Lemma failover_ok k scope c e st log m o st' log' :
  between k scope m → cand_id c ∈ xs_tried scope → cand_id c ∉ cand_id <$> xs_saturated scope →
  follows log = Some (<[cand_id c := Returned false]> m) →
  failover (H := logged) (match k with KCount => false | _ => true end) scope c e (st, log) = (o, (st', log')) →
  ∃ m', follows log' = Some m' ∧
    match o with inl scope' => between k scope' m' | inr r => ended k r m' end.
Proof.
  intros Hb Ht Hs Hf. unfold failover. cbn [ctxErr logged].
  destruct (ctxErr (Host := H) (ca_auth c) st) as [ec|] eqn:Hctx.
  { intros [= <- <- <-]. exists (<[cand_id c := Returned false]> m). split; [done|].
    intros id p. destruct (decide (cand_id c = id)) as [<-|Hne].
    - rewrite lookup_insert_eq. intros [= <-]. right. eauto.
    - rewrite lookup_insert_ne by done. intros Hp. left. by eapply between_ends. }
  set (mark := match k with KCount => false | _ => true end).
  destruct (if mark then _ else _) as [st1 log1] eqn:Hm.
  assert (Hf1 : follows log1 = Some (<[cand_id c := failed k]> m)).
  { destruct k; cbn in Hm; injection Hm as <- <-; [|done|]; by eapply follows_step. }
  pose proof (between_failed k scope m (cand_id c) Hb Ht Hs) as Hb1.
  destruct (_ || _); intros [= <- <- <-]; (eexists; split; [done|]).
  - intros id p Hp. left. by eapply between_ends.
  - by apply between_lastErr.
Qed.

Lemma call_ok k scope c st log m o st' log' :
  between k scope m → cand_id c ∈ xs_tried scope → cand_id c ∉ cand_id <$> xs_saturated scope →
  follows log = Some (<[cand_id c := Holding]> m) →
  call_of k (H := logged) scope c (st, log) = (o, (st', log')) →
  ∃ m', follows log' = Some m' ∧
    match o with inl scope' => between k scope' m' | inr r => ended k r m' end.
Proof.
  intros Hb Ht Hs Hf. pose proof (λ id p, between_ends k scope m id p Hb) as Hrest.
  destruct k; cbn [call_of]; [unfold execute_call|unfold count_call|unfold stream_call];
    cbn [callExecutor logged releaseSlot]; destruct (callExecutor (Host := H) _ _ _ st) as [[e|resp] st1];
    cbn [is_ok].
  - apply (failover_ok KExecute) with (m := m); [done..|]. step_from (Answered false). by step_from Holding.
  - intros [= <- <- <-]. eexists. split; [|by apply (ended_served KExecute)].
    step_from (Returned true). step_from (Answered true). by step_from Holding.
  - apply (failover_ok KCount) with (m := m); [done..|]. step_from (Answered false). by step_from Holding.
  - intros [= <- <- <-]. eexists. split; [|by apply (ended_served KCount)].
    step_from (Answered true). by step_from Holding.
  - apply (failover_ok KStream) with (m := m); [done..|]. step_from (Answered false). by step_from Holding.
  - intros [= <- <- <-]. eexists. split; [|by apply (ended_served KStream)]. by step_from Holding.
Qed.

Lemma loop_ok k pickFuel fuel scope st log m r st' log' :
  between k scope m → follows log = Some m →
  attempt_loop (H := logged) (call_of k (H := logged)) pickFuel fuel scope (st, log) = Some (r, (st', log')) →
  ∃ m', follows log' = Some m' ∧ ended k r m'.
Proof.
  revert scope st log m. induction fuel as [|fuel IH]; intros scope st log m Hb Hf; [done|].
  cbn [attempt_loop].
  destruct (nextReadyCandidate (H := logged) pickFuel scope (st, log)) as [[[[e|c] scope1] [st1 log1]]|] eqn:Hn; [| |done].
  - intros [= <- <- <-]. eapply nextReady_ok in Hn as (m' & Hm' & Hend); [|done|done].
    exists m'. split; [done|]. intros id p Hp. left. by eapply Hend.
  - eapply nextReady_ok in Hn as (m' & Hm' & m1 & -> & Hb1 & Ht & Hs); [|done|done].
    destruct (call_of k scope1 c (st1, log1)) as [o [st2 log2]] eqn:Hc.
    eapply call_ok in Hc as (m2 & Hm2 & Ho); [|done|done|done|done].
    destruct o as [scope2|r2]; [by apply IH with (m := m2)|]. intros [= <- <- <-]. eauto.
Qed.

Lemma between_start k providers model opts single : between k (MkMixed providers model opts single ∅ [] None) ∅.
Proof.
  split; cbn; [intros id p Hp; by rewrite lookup_empty in Hp..| |by apply NoDup_nil_2].
  intros c Hc. by apply not_elem_of_nil in Hc.
Qed.

(** C9: whatever the rest of the program does, an attempt to serve a request follows the
    protocol: a credential is picked at most once, cleared by moderation before it takes a
    slot, called once at most and only while it holds a slot, its slot is given back after the
    call and only then its outcome recorded, which is the outcome of the call. When the
    attempt ends no slot is held but the one of a stream it returns; every failed call is
    settled, unless the end of its context is the error that the attempt returns; and a
    token count never touches the health of a credential. *)
Theorem attempt_follows_protocol k fuel providers model opts st r st' log :
  attempt (H := logged) (call_of k (H := logged)) fuel providers model opts (st, []) = Some (r, (st', log)) →
  ∃ m, follows log = Some m ∧ ended k r m.
Proof.
  unfold attempt. destruct (newMixedScope providers model opts) as [e|scope] eqn:Hs.
  { intros [= <- <- <-]. exists ∅. split; [done|]. intros id p Hp. by rewrite lookup_empty in Hp. }
  apply (loop_ok k _ _ _ _ _ ∅); [|done].
  unfold newMixedScope in Hs. destruct (bool_decide _); [done|]. injection Hs as <-. apply between_start.
Qed.

End attempts.

(** ** What every pick of an attempt satisfies *)

Section picks.
Context {J : GoJSON} {St Resp : Type} {H : Host St Resp} {OK : HostOK St Resp}.
Variables (providers : list string) (model : string) (good : Options → Prop) (Q : string → Prop).
Hypothesis good_publish : ∀ id opts, good opts → good (with_metadata (publishSelectedAuthMetadata id) opts).
Hypothesis picks_Q : ∀ opts tried (st : St) a p st', good opts →
  pickNextMixed providers model opts tried st = (inr (a, p), st') → Q (au_ID a).

Definition picks_in (log : list Event) : Prop := ∀ id, EvPick id ∈ log → Q id.

Definition good_scope (scope : mixedExecutionScope) : Prop :=
  xs_providers scope = providers ∧ xs_routeModel scope = model ∧ good (xs_opts scope).

Lemma picks_in_snoc log e : picks_in log → match e with EvPick id => Q id | _ => True end → picks_in (log ++ [e]).
Proof. intros Hl He id [Hid|Hid%list_elem_of_singleton]%elem_of_app; [by apply Hl|by subst e]. Qed.

#[local] Hint Resolve picks_in_snoc : core.

Lemma nextReady_picks fuel scope (st : St) log r scope' st' log' : good_scope scope → picks_in log →
  nextReadyCandidate (H := logged) fuel scope (st, log) = Some (r, scope', (st', log')) →
  good_scope scope' ∧ picks_in log'.
Proof.
  revert scope st log. induction fuel as [|fuel IH]; intros scope st log Hs Hl; [done|].
  cbn [nextReadyCandidate]. unfold nextMixedCandidate. cbn [pickNextMixed logged aliasView].
  destruct (pickNextMixed (Host := H) _ _ _ _ st) as [[errPick|[a prov]] st1] eqn:Hp.
  { unfold waitForSaturatedSlot. destruct (xs_saturated scope) as [|c0 l0]; [by intros [= <- <- <- <-]|].
    cbn [waitAccountSlot logged]. destruct (waitAccountSlot (Host := H) _ st1) as [[e|id] st2]; [by intros [= <- <- <- <-]|].
    destruct (take_candidate id (c0 :: l0)) as [[c rest]|]; intros [= <- <- <- <-]; split; auto. }
  destruct Hs as (Eps & Em & Hg). rewrite Eps, Em in Hp. apply (picks_Q _ _ _ _ _ _ Hg) in Hp.
  set (scope1 := MkMixed _ _ _ _ _ _ _).
  assert (Hs1 : good_scope scope1) by (split; [done|]; split; [done|]; by apply good_publish).
  cbn [moderateRequest logged]. destruct (moderateRequest (Host := H) _ _ st1) as [[e|] st2];
    [intros [= <- <- <- <-]; split; auto|].
  cbn [acquireAccountSlot logged]. destruct (acquireAccountSlot (Host := H) _ st2) as [[e|] st3];
    [|intros [= <- <- <- <-]; split; auto 6].
  destruct (isRequestInvalidError (xe_err e)); [intros [= <- <- <- <-]; split; auto 6|].
  apply IH; [done|auto 6].
Qed.

Lemma call_picks k scope c (st : St) log o st' log' : good_scope scope → picks_in log →
  call_of k (H := logged) scope c (st, log) = (o, (st', log')) →
  picks_in log' ∧ match o with inl scope' => good_scope scope' | inr _ => True end.
Proof.
  intros Hs Hl. assert (Hf : ∀ mark e (st : St) log o st' log', picks_in log →
    failover (H := logged) mark scope c e (st, log) = (o, (st', log')) →
    picks_in log' ∧ match o with inl scope' => good_scope scope' | inr _ => True end).
  { clear st log o st' log' Hl. intros mark e st log o st' log' Hl. unfold failover. cbn [ctxErr logged].
    destruct (ctxErr (Host := H) (ca_auth c) st); [by intros [= <- <- <-]|].
    destruct mark; cbn [MarkResult logged]; destruct (_ || _); intros [= <- <- <-]; split; auto. }
  destruct k; cbn [call_of]; [unfold execute_call|unfold count_call|unfold stream_call];
    cbn [callExecutor logged releaseSlot]; destruct (callExecutor (Host := H) _ _ _ st) as [[e|resp] st1];
    cbn [MarkResult logged]; try (apply Hf; auto 6); intros [= <- <- <-]; split; auto 6.
Qed.

Lemma loop_picks k pickFuel fuel scope (st : St) log r st' log' : good_scope scope → picks_in log →
  attempt_loop (H := logged) (call_of k (H := logged)) pickFuel fuel scope (st, log) = Some (r, (st', log')) →
  picks_in log'.
Proof.
  revert scope st log. induction fuel as [|fuel IH]; intros scope st log Hs Hl; [done|]. cbn [attempt_loop].
  destruct (nextReadyCandidate (H := logged) pickFuel scope (st, log)) as [[[[e|c] scope1] [st1 log1]]|] eqn:Hn; [| |done];
    apply nextReady_picks in Hn as [Hs1 Hl1]; [by intros [= <- <- <-]|done..| |done|done].
  destruct (call_of k scope1 c (st1, log1)) as [o [st2 log2]] eqn:Hc. apply call_picks in Hc as [Hl2 Ho]; [|done..].
  destruct o as [scope2|r2]; [by apply IH|by intros [= <- <- <-]].
Qed.

(** Whatever is in the log of a protocol that was followed was picked. *)
Lemma follows_picked log m : follows log = Some m →
  (∀ id p, m !! id = Some p → EvPick id ∈ log) ∧ (∀ e, e ∈ log → is_Some (m !! event_id e)).
Proof.
  revert m. induction log as [|e log IH] using rev_ind; intros m.
  { intros [= <-]. split; [intros id p Hp; by rewrite lookup_empty in Hp|]. intros e He. by apply not_elem_of_nil in He. }
  rewrite follows_snoc. destruct (follows log) as [m0|]; [|done]. specialize (IH m0 eq_refl) as [IH1 IH2].
  unfold advance. cbn. destruct (next_phase e (m0 !! event_id e)) as [[id q]|] eqn:Hn; [|done]. intros [= <-].
  assert (Hid : id = event_id e ∧ (m0 !! event_id e = None → e = EvPick id)).
  { destruct e; cbn in Hn |- *; repeat case_match; simplify_eq; split; done. }
  destruct Hid as [-> Hpick]. split.
  - intros id' p. destruct (decide (event_id e = id')) as [<-|Hne].
    + intros _. destruct (m0 !! event_id e) as [p0|] eqn:E; [apply elem_of_app; left; by eapply IH1|].
      apply elem_of_app. right. rewrite Hpick by done. by apply list_elem_of_singleton.
    + rewrite lookup_insert_ne by done. intros Hp. apply elem_of_app. left. by eapply IH1.
  - intros e' [He'| ->%list_elem_of_singleton]%elem_of_app; [|rewrite lookup_insert_eq; by eexists].
    destruct (decide (event_id e = event_id e')) as [<-|Hne]; [rewrite lookup_insert_eq; by eexists|].
    rewrite lookup_insert_ne by done. by apply IH2.
Qed.

(** Whatever an attempt does, it does with credentials that satisfy [Q]. *)
Lemma attempt_in k fuel opts (st : St) r st' log : good (ensureRequestedModelMetadata opts model) →
  attempt (H := logged) (call_of k (H := logged)) fuel providers model opts (st, []) = Some (r, (st', log)) →
  ∀ e, e ∈ log → Q (event_id e).
Proof.
  unfold attempt. destruct (newMixedScope providers model opts) as [e|scope] eqn:Hs; intros Hg.
  { intros [= <- <- <-] e' He'. by apply not_elem_of_nil in He'. }
  unfold newMixedScope in Hs. destruct (bool_decide _); [done|]. injection Hs as <-. intros Ha.
  assert (Hpicks : picks_in log).
  { eapply loop_picks; [| |exact Ha]; [by split|]. intros id Hid. by apply not_elem_of_nil in Hid. }
  eapply (loop_ok k _ _ _ _ _ ∅) in Ha as (m & Hm & _); [|apply between_start|done].
  intros e He. apply follows_picked in Hm as [H1 H2]. apply H2 in He as [p Hp]. by eapply Hpicks, H1.
Qed.

End picks.

(** ** Attempts end *)

Section termination.
Context {J : GoJSON} {St Resp : Type} {H : Host St Resp} {OK : HostOK St Resp}.
Variable U : gset string.
Hypothesis picks_known : ∀ ps model opts tried (st : St) a p st',
  pickNextMixed ps model opts tried st = (inr (a, p), st') → au_ID a ∈ U.

(** Credentials not tried yet and those queued on: what is left to an attempt. *)
Definition left (scope : mixedExecutionScope) : nat :=
  (size (U ∖ xs_tried scope) + length (xs_saturated scope))%nat.

Lemma left_pick (scope : mixedExecutionScope) id : id ∈ U → id ∉ xs_tried scope →
  size (U ∖ xs_tried scope) = S (size (U ∖ ({[id]} ∪ xs_tried scope))).
Proof.
  intros Hu Hn. assert (U ∖ xs_tried scope = {[id]} ∪ (U ∖ ({[id]} ∪ xs_tried scope))) as ->.
  { apply leibniz_equiv. intros x. destruct (decide (x = id)); set_solver. }
  rewrite size_union by set_solver. by rewrite size_singleton.
Qed.

Lemma take_candidate_length id l c rest : take_candidate id l = Some (c, rest) → length l = S (length rest).
Proof.
  revert rest. induction l as [|x l IH]; intros rest; cbn [take_candidate]; [done|].
  destruct (String.eqb _ _); [by intros [= -> ->]|].
  destruct (take_candidate id l) as [[y others]|]; [|done]. cbn. intros [= <- <-]. cbn. by rewrite (IH others).
Qed.

Lemma nextReady_ends fuel scope (st : St) : (size (U ∖ xs_tried scope) < fuel)%nat →
  ∃ r scope' st', nextReadyCandidate fuel scope st = Some (r, scope', st') ∧
    (is_ok r = true → left scope' < left scope)%nat ∧ (size (U ∖ xs_tried scope') ≤ size (U ∖ xs_tried scope))%nat.
Proof.
  revert scope st. induction fuel as [|fuel IH]; intros scope st Hlt; [lia|].
  cbn [nextReadyCandidate]. unfold nextMixedCandidate.
  destruct (pickNextMixed _ _ _ _ st) as [[errPick|[a prov]] st1] eqn:Hp.
  { unfold waitForSaturatedSlot. destruct (xs_saturated scope) as [|c0 l0] eqn:Hsat; [by do 4 eexists|].
    destruct (waitAccountSlot _ st1) as [[e|id] st2]; [by do 4 eexists|].
    destruct (take_candidate id (c0 :: l0)) as [[c rest]|] eqn:Ht; [|by do 4 eexists].
    do 4 eexists; [done|]. split; [|done]. intros _. unfold left. cbn [xs_tried xs_saturated with_saturated].
    apply take_candidate_length in Ht. rewrite Hsat, Ht. lia. }
  pose proof (picks_known _ _ _ _ _ _ _ _ Hp) as Hu. apply pick_fresh in Hp.
  pose proof (left_pick scope _ Hu Hp) as Hs. set (scope1 := MkMixed _ _ _ _ _ _ _).
  assert (Ht1 : xs_tried scope1 = {[au_ID a]} ∪ xs_tried scope) by done.
  destruct (moderateRequest _ _ st1) as [[e|] st2].
  { do 4 eexists; [done|]. split; [done|]. rewrite Ht1. lia. }
  destruct (acquireAccountSlot _ st2) as [[e|] st3].
  - destruct (isRequestInvalidError _).
    { do 4 eexists; [done|]. split; [done|]. rewrite Ht1. lia. }
    set (scope2 := with_lastErr _ _).
    assert (Ht2 : xs_tried scope2 = {[au_ID a]} ∪ xs_tried scope) by done.
    destruct (IH scope2 st3) as (r & scope' & st' & Hr & Hl & Hsz); [rewrite Ht2; lia|].
    exists r, scope', st'. split; [done|]. rewrite Ht2 in Hsz. split; [|lia]. intros Hr'.
    specialize (Hl Hr'). unfold left in *. rewrite Ht2 in Hl.
    assert (length (xs_saturated scope2) = S (length (xs_saturated scope))) by (cbn; rewrite length_app; cbn; lia).
    lia.
  - do 4 eexists; [done|]. rewrite Ht1. split; [|lia]. intros _. unfold left. rewrite Ht1. cbn [xs_saturated scope1]. lia.
Qed.

(** A failed call leaves the scope as it was, but for the last error. *)
Lemma call_keeps k scope c (st : St) scope' st' : call_of k scope c st = (inl scope', st') →
  left scope' = left scope ∧ xs_tried scope' = xs_tried scope.
Proof.
  assert (Hf : ∀ mark e st, (failover mark scope c e st).1 = inl scope' →
    left scope' = left scope ∧ xs_tried scope' = xs_tried scope).
  { intros mark e s. unfold failover. destruct (ctxErr _ _); [done|]. by destruct (_ || _); [|intros [= <-]]. }
  destruct k; cbn [call_of]; [unfold execute_call|unfold count_call|unfold stream_call];
    destruct (callExecutor _ _ _ st) as [[e|resp] st1]; try done; intros E; eapply Hf; by rewrite E.
Qed.

(** C39: an attempt ends: with [n] credentials in the program, [n + 1] rounds of each of its
    two loops are enough, however the state changes meanwhile and whatever the calls return. *)
Theorem attempt_terminates k fuel providers model opts (st : St) :
  (size U < fuel)%nat → ∃ r, attempt (call_of k) fuel providers model opts st = Some r.
Proof.
  intros Hfuel. unfold attempt. destruct (newMixedScope providers model opts) as [e|scope] eqn:Hs; [by eexists|].
  assert (Hl : (left scope < fuel)%nat).
  { unfold newMixedScope in Hs. destruct (bool_decide _); [done|]. injection Hs as <-.
    unfold left. cbn. pose proof (subseteq_size (U ∖ ∅) U ltac:(set_solver)). lia. }
  assert (Hsz : (size (U ∖ xs_tried scope) < fuel)%nat) by (unfold left in Hl; lia).
  clear Hs Hfuel. set (pickFuel := fuel) in Hsz |- * at 1. clearbody pickFuel.
  revert scope st Hl Hsz. induction fuel as [|fuel IH]; intros scope st Hl Hsz; [lia|].
  cbn [attempt_loop]. destruct (nextReady_ends pickFuel scope st Hsz) as (r & scope1 & st1 & -> & Hdec & Hle).
  destruct r as [e|c]; [by eexists|]. specialize (Hdec eq_refl).
  destruct (call_of k scope1 c st1) as [[scope2|r] st2] eqn:Hc; [|by eexists].
  apply call_keeps in Hc as [Hl2 Ht2]. apply IH; [lia|]. rewrite Ht2. lia.
Qed.

End termination.

(** ** A program of two accounts *)

Section two_accounts.

Definition account (id : string) : Auth := auth_new id "codex" ∅ ∅.

Definition no_account : ExecError := plain_exec_error (MkError "auth_not_found" "no auth available" false 0 "" 0).
Definition no_slot : ExecError := plain_exec_error (MkError "concurrency_limit" "too many requests" true 429 "" 0).
Definition upstream_down : ExecError := plain_exec_error (MkError "upstream" "bad gateway" true 502 "" 0).

(** [a] is saturated and comes free later; [b] has room, but its calls fail. *)
#[local] Instance two_accounts : Host unit string := {|
  pickNextMixed := λ _ _ _ tried st,
    (match List.filter (λ id, ! bool_decide (id ∈ tried)) ["a"; "b"]%list with
     | id :: _ => inr (account id, "codex") | [] => inl no_account end, st);
  moderateRequest := λ _ _ st, (None, st);
  acquireAccountSlot := λ a st, (if String.eqb (au_ID a) "a" then Some no_slot else None, st);
  waitAccountSlot := λ l st, (match l with a :: _ => inr (au_ID a) | [] => inl no_slot end, st);
  releaseSlot := λ _ st, st;
  callExecutor := λ a _ _ st, (if String.eqb (au_ID a) "b" then inl upstream_down else inr "served", st);
  ctxErr := λ _ _, None;
  MarkResult := λ _ st, st;
  aliasView := λ _, MkAliases ∅ ∅ (λ _, MkKeys [] [] [] [] [] [] [] [] []);
  respHeaders := λ _, ∅ |}.

#[local] Instance two_accounts_ok : HostOK unit string.
Proof.
  split.
  - intros ps model opts tried st a p st'. cbn [pickNextMixed two_accounts].
    destruct (List.filter _ _) as [|id l] eqn:E; [done|]. intros [= <- _].
    assert (Hin : In id (id :: l)) by (by left). rewrite <-E in Hin. apply filter_In in Hin as [_ Hid].
    apply negb_true_iff, bool_decide_eq_false in Hid. done.
  - intros l st id st'. cbn [waitAccountSlot two_accounts]. destruct l as [|a l]; [done|].
    intros [= <- _]. exists a. split; [left|done].
Qed.

Definition two_options : Options := MkOptions ∅ "" "" "".

Lemma two_accounts_known : ∀ ps model opts tried (st : unit) a p st',
  pickNextMixed ps model opts tried st = (inr (a, p), st') → au_ID a ∈ ({[ "a" ]} ∪ {[ "b" ]} : gset string).
Proof.
  intros ps model opts tried st a p st'. cbn [pickNextMixed two_accounts].
  destruct (List.filter _ _) as [|id l] eqn:E; [done|]. intros [= <- _].
  assert (Hin : In id (id :: l)) by (by left). rewrite <-E in Hin. apply filter_In in Hin as [Hin _].
  cbn in Hin |- *. destruct Hin as [<-|[<-|[]]]; set_solver.
Qed.

Lemma attempt_follows_protocol_witness : ∃ m : Phases,
  m !! "a" = Some (Recorded true) ∧ m !! "b" = Some (Recorded false) ∧
  ended (Resp := string) (St := unit) KExecute (inr "served") m.
Proof.
  assert (∃ log, attempt (J := no_json) (H := logged) (call_of KExecute (J := no_json) (H := logged)) 3 ["codex"] "gpt-5" two_options
      (tt, []) = Some (inr "served", (tt, log)) ∧ log = [EvPick "a"; EvClear "a"; EvBusy "a"; EvPick "b"; EvClear "b";
      EvAcquire "b"; EvCall "b" false; EvRelease "b"; EvMark "b" false; EvGranted "a"; EvCall "a" true; EvRelease "a"; EvMark "a" true])
    as (log & H & E) by (eexists; split; [vm_compute; reflexivity|reflexivity]).
  apply (attempt_follows_protocol (J := no_json) KExecute) in H as (m & Hm & Hend).
  exists m. split; [|split; [|exact Hend]]; subst log; vm_compute in Hm; by injection Hm as <-.
Defined.

Lemma attempt_terminates_witness :
  ∃ r, attempt (J := no_json) (call_of KStream (J := no_json)) 3 ["codex"] "gpt-5" two_options tt = Some r.
Proof.
  apply (attempt_terminates (J := no_json) ({[ "a" ]} ∪ {[ "b" ]}) two_accounts_known). vm_compute. lia.
Defined.

End two_accounts.
