(* ===== verification/Program.v ===== *)
(** * Requests on the manager's credentials

    Puts [Routing.v] and [Execution.v] together: an attempt whose credentials are picked
    by [pickMixed] on a manager that may change between any two operations. The theorem
    is the promise the proxy makes to its callers: whatever fails over to what, a request
    only ever touches credentials that its tenant and its restrictions admit. *)
From stdpp Require Import pretty.
From S2P Require Import Prelude GoModel AuthTypes ModelNames GroupModels Weighted Availability Limiter Aggregate ClaudeHealth QuotaPersist Cooldown Conductor Selectors SessionSticky ModelAlias RoutingGroups Routing Execution ExecutionTrace.

(** A program whose picks are those of [pickMixed] on its manager, and whose wait for a
    slot is answered by one of the accounts that were queued on. *)
Class PicksByManager {RO : RangeOrder} {X : MathExp2} {J : GoJSON} {AR : AffinityRef} {MD : ModelDiscovery}
    {FT : FloatText} (W Ex St Resp : Type) {AS : AffinityStore W} {H : Host St Resp} := {
  manager_of : St → Manager Ex;
  picks_by_manager : ∀ ps model opts tried (st : St) a p st',
    pickNextMixed ps model opts tried st = (inr (a, p), st') →
    ∃ e s t ex s' t', pickMixed (AS := AS) (manager_of st) e ps model opts tried s t = (inr (a, ex, p), s', t');
  waits_for_one : ∀ l (st : St) id st',
    waitAccountSlot l st = (inr id, st') → ∃ a, a ∈ l ∧ au_ID a = id }.

Section program.
Context {RO : RangeOrder} {X : MathExp2} {J : GoJSON} {AR : AffinityRef} {MD : ModelDiscovery} {FT : FloatText}.
Context {W Ex St Resp : Type} {AS : AffinityStore W} {H : Host St Resp} {P : PicksByManager W Ex St Resp}.

Lemma prepare_ID cfg a g allowed : au_ID (prepareCandidateForSelection cfg a g allowed) = au_ID a.
Proof. unfold prepareCandidateForSelection. by destruct (derivedGroupWeight _ _ _). Qed.

(** What [pickMixed] picks was built as a candidate. *)
Lemma pickMixed_candidate (m : Manager Ex) e ps model opts tried s t a ex p s' t' :
  pickMixed (AS := AS) m e ps model opts tried s t = (inr (a, ex, p), s', t') →
  ∃ c g, registered m c ∧ g ∈ routeGroupsToTry (request_scope m model opts) ∧
    permitted (request_scope m model opts) (mg_registry m) g tried c ∧ au_ID a = au_ID c.
Proof.
  unfold pickMixed. destruct (bool_decide _); [done|].
  destruct (pickLocked _ _ _ _ _ _ _ _ _) as [[[err|[sel g]] s1] t1] eqn:Hp; [done|].
  destruct (executorForTenantLocked _ _ _) as [x|]; [|done]. intros [= <- <- <- <- <-].
  apply pick_groups_elem in Hp as [Hg (id & c & Hid & Ha & Hi & ->)%buildCandidates_elem].
  exists c, g. split; [by exists id|]. split; [done|]. split; [by eapply allowsCandidate_permitted|].
  apply prepare_ID.
Qed.

#[export] Instance manager_host_ok : HostOK St Resp.
Proof.
  split; [|exact waits_for_one]. intros ps model opts tried st a p st' Hp.
  apply picks_by_manager in Hp as (e & s & t & ex & s' & t' & Hp).
  apply pickMixed_candidate in Hp as (c & g & _ & _ & Hc & ->). by apply (pm_fresh _ _ _ _ _ Hc).
Qed.

(** The scope of a request does not depend on what an attempt writes into its metadata. *)
Definition same_request (meta meta' : gmap string GoAny) : Prop :=
  ∀ k, k ≠ "requested_model" → k ≠ "selected_auth_id" → meta !! k = meta' !! k.

Lemma same_scope (m : Manager Ex) model opts opts' : same_request (op_Metadata opts) (op_Metadata opts') →
  request_scope m model opts = request_scope m model opts'.
Proof.
  intros Hs. unfold request_scope, newSelectionScope, tenantIDFromMetadata, pinnedAuthIDFromMetadata,
    allowedChannelsFromMetadata, allowedChannelGroupsFromMetadata, metadataStringSet, routeGroupFromMetadata,
    routeFallbackFromMetadata, metadataStringValue.
  rewrite !(Hs _) by done. done.
Qed.

Lemma request_ensured opts model : same_request (op_Metadata (ensureRequestedModelMetadata opts model)) (op_Metadata opts).
Proof.
  intros k Hk _. unfold ensureRequestedModelMetadata. destruct (String.eqb _ _); [done|].
  destruct (hasRequestedModelMetadata _); [done|]. cbn. by rewrite lookup_insert_ne.
Qed.

Lemma request_published id opts opts' : same_request (op_Metadata opts) (op_Metadata opts') →
  same_request (op_Metadata (with_metadata (publishSelectedAuthMetadata id) opts)) (op_Metadata opts').
Proof.
  intros Hs k Hk Hk'. rewrite <-(Hs k Hk Hk'). cbn. unfold publishSelectedAuthMetadata.
  destruct (_ || _); [done|]. by rewrite lookup_insert_ne.
Qed.

Lemma permitted_untried scope reg g tried c : permitted scope reg g tried c → permitted scope reg g ∅ c.
Proof. intros [? ? ? ? ? ? ? ?]. by split. Qed.

(** [id] names a credential that the manager of some state had, and that the request
    was permitted to use on one of its routes. *)
Definition admitted (model : string) (opts : Options) (id : string) : Prop :=
  ∃ (st : St) c g, registered (manager_of st) c ∧ au_ID c = id ∧
    g ∈ routeGroupsToTry (request_scope (manager_of st) model opts) ∧
    permitted (request_scope (manager_of st) model opts) (mg_registry (manager_of st)) g ∅ c.

(** C1: a request never leaves its scope. Whatever an attempt picks, queues on, calls,
    releases or records, and however often it fails over while the manager changes under
    it, is a credential that some state of the manager admitted for this very request:
    enabled, of the tenant of the request, the pinned one if one is pinned, within the
    channels and groups that its caller may use, and for the model it asks for. *)
Theorem request_stays_in_scope k fuel providers model opts (st : St) r st' log :
  attempt (H := logged) (call_of k (H := logged)) fuel providers model opts (st, []) = Some (r, (st', log)) →
  ∀ e, e ∈ log → admitted model opts (event_id e).
Proof.
  apply (attempt_in providers model (λ o, same_request (op_Metadata o) (op_Metadata opts)) (admitted model opts)).
  - intros id o. apply request_published.
  - intros o tried s a p s' Hs Hp. apply picks_by_manager in Hp as (e & sl & t & ex & sl' & t' & Hp).
    apply pickMixed_candidate in Hp as (c & g & Hc & Hg & Hperm & E). rewrite (same_scope _ _ _ _ Hs) in Hg, Hperm.
    exists s, c, g. split; [done|]. split; [done|]. split; [done|]. by eapply permitted_untried.
  - apply request_ensured.
Qed.

End program.

(** ** A team of one account *)

Section team.
#[local] Existing Instances listing_order constant_exp2 no_json plain_ref nothing_discovered no_floats.

Definition exec_error (e : SelectError) : ExecError := MkExecError (MkGoError 0 None "") None None ∅.

#[local] Instance team_host : Host unit string := {|
  pickNextMixed := λ ps model opts tried st,
    (match (pickMixed (team_manager []) plain_env ps model opts tried idle_selectors None).1.1 with
     | inr (a, _, p) => inr (a, p) | inl e => inl (exec_error e) end, st);
  moderateRequest := λ _ _ st, (None, st);
  acquireAccountSlot := λ _ st, (None, st);
  waitAccountSlot := λ _ st, (inl no_slot, st);
  releaseSlot := λ _ st, st;
  callExecutor := λ _ _ _ st, (inr "served", st);
  ctxErr := λ _ _, None;
  MarkResult := λ _ st, st;
  aliasView := λ _, MkAliases ∅ ∅ (λ _, MkKeys [] [] [] [] [] [] [] [] []);
  respHeaders := λ _, ∅ |}.

#[local] Instance team_picks : PicksByManager unit unit unit string.
Proof.
  refine {| manager_of := λ _, team_manager [] |}; [|by intros l st id st'].
  intros ps model opts tried st a p st'. cbn [pickNextMixed team_host].
  destruct (pickMixed _ _ _ _ _ _ _ _) as [[[err|[[a' ex] p']] s'] t'] eqn:E; [done|].
  intros [= <- <- <-]. by exists plain_env, idle_selectors, None, ex, s', t'.
Defined.

Lemma request_stays_in_scope_witness : admitted "gpt-5" (request_for ∅) "x".
Proof.
  assert (∃ log, attempt (H := logged) (call_of KExecute (H := logged)) 2 ["codex"] "gpt-5" (request_for ∅) (tt, [])
    = Some (inr "served", (tt, log)) ∧ EvCall "x" true ∈ log) as (log & E & He).
  { eexists. split; [vm_compute; reflexivity|]. set_solver. }
  exact (request_stays_in_scope KExecute _ _ _ _ _ _ _ _ E _ He).
Defined.

End team.
