(* ===== verification/StreamCompletion.v ===== *)
(** * Did a streamed response come to its end?

    Models [src/sdk/cliproxy/auth/responses_stream_completion.go]: the parser of
    server-sent events, the terminal event of a Responses stream, and the tracker that
    decides at the end of a stream whether it was complete.

    [stream_end_read_from_bytes]: which chunk decides how a stream ends and what it says -
    a chunk is looked at by itself first, and then as more bytes of the stream -, and when
    that is what the concatenated bytes say, wherever they are cut. [cut_decides]: two ways
    to cut the same bytes that end differently.

    [encoding/json] is the class [PayloadJSON]. *)
From S2P Require Import Prelude GoModel AuthTypes ModelNames GroupModels.
From Stdlib Require Import Ascii.

(** ** Text *)

Definition LF : ascii := "010"%char.
Definition CR : ascii := "013"%char.
Definition two (a b : ascii) : string := String a (String b "").

(** [strings.TrimSuffix] and [strings.CutPrefix] *)
Definition CutPrefix (s prefix : string) : option string :=
  if HasPrefix s prefix then Some (str_from (String.length prefix) s) else None.

Fixpoint firstNonEmpty (values : list string) : string :=
  match values with
  | [] => ""
  | value :: rest =>
      let trimmed := TrimSpace value in
      if ! String.eqb trimmed "" then trimmed else firstNonEmpty rest
  end.

(** ** Payloads *)

Record ErrorPayload := MkErrorPayload { ep_Type : string; ep_Code : string; ep_Message : string }.

Record responsesStreamTerminalPayload := MkPayload {
  pl_Type : string; pl_Code : string; pl_Message : string;
  pl_Error : ErrorPayload; pl_ResponseError : ErrorPayload }.

Definition no_payload : ErrorPayload := MkErrorPayload "" "" "".
Definition payload_of_type (t : string) : responsesStreamTerminalPayload :=
  MkPayload t "" "" no_payload no_payload.

(** [json.Valid], and [json.Unmarshal] into a struct: the struct after the call (a call
    that fails may have filled part of it) and whether it succeeded. *)
Class PayloadJSON := {
  json_Valid : string → bool;
  json_Unmarshal : string → responsesStreamTerminalPayload → responsesStreamTerminalPayload * bool }.

Definition responsesStreamCompletedType : string := "response.completed".
Definition responsesStreamFailedType : string := "response.failed".
Definition responsesStreamErrorType : string := "error".

Definition responsesStreamTerminalHTTPStatus (code errType : string) : Z :=
  let lower := ToLower (code +:+ " " +:+ errType) in
  if (Contains lower "rate_limit" || Contains lower "quota") then 429
  else if Contains lower "invalid_request" then 400
  else if (Contains lower "invalid_api_key" || Contains lower "unauthorized" || Contains lower "authentication") then 401
  else if (Contains lower "forbidden" || Contains lower "permission") then 403
  else if Contains lower "timeout" then 408
  else 502.

Definition responsesStreamTerminalRetryable (code errType : string) : bool :=
  let status := responsesStreamTerminalHTTPStatus code errType in
  ((status =? 429) || (status =? 408) || (500 <=? status)).

Definition newResponsesStreamIncompleteError : Error :=
  MkError "response_stream_incomplete" "upstream responses stream closed before response.completed" true 502 "" 0.

Section json.
Context {J : PayloadJSON}.

Definition responsesStreamTerminalError (eventType data : string) : Error :=
  let payload := payload_of_type eventType in
  let payload := if (! String.eqb (TrimSpace data) "" && json_Valid data)
                 then (json_Unmarshal data payload).1 else payload in
  let code := firstNonEmpty [ep_Code (pl_ResponseError payload); ep_Code (pl_Error payload); pl_Code payload] in
  let errType := firstNonEmpty [ep_Type (pl_ResponseError payload); ep_Type (pl_Error payload); pl_Type payload; eventType] in
  let message := firstNonEmpty [ep_Message (pl_ResponseError payload); ep_Message (pl_Error payload); pl_Message payload] in
  let message := if String.eqb message "" then
      "upstream responses stream ended with " +:+ firstNonEmpty [pl_Type payload; eventType; responsesStreamErrorType]
    else message in
  MkError (firstNonEmpty [code; errType; "response_stream_terminal_error"]) message
    (responsesStreamTerminalRetryable code errType) (responsesStreamTerminalHTTPStatus code errType) "" 0.

(** ** Events *)

(** What an event says of the end of its stream: completed, or ended by an error. *)
Abbreviation Terminal := (bool * option Error)%type (only parsing).
Definition not_terminal : bool * option Error := (false, None).
Definition is_terminal (v : bool * option Error) : bool := v.1 || match v.2 with Some _ => true | None => false end.

Definition responsesSSEEventTerminalState (eventType data : string) : Terminal :=
  if String.eqb eventType responsesStreamCompletedType then (true, None)
  else if (String.eqb eventType responsesStreamFailedType || String.eqb eventType responsesStreamErrorType) then
    if String.eqb (TrimSpace data) "" then not_terminal
    else (false, Some (responsesStreamTerminalError eventType data))
  else if (String.eqb data "" || String.eqb data "[DONE]") then not_terminal
  else
    let '(payload, ok) := json_Unmarshal data (payload_of_type "") in
    if ! ok then not_terminal
    else
      let payloadType := TrimSpace (pl_Type payload) in
      if String.eqb payloadType responsesStreamCompletedType then (true, None)
      else if (String.eqb payloadType responsesStreamFailedType || String.eqb payloadType responsesStreamErrorType)
      then (false, Some (responsesStreamTerminalError payloadType data))
      else not_terminal.

Record responsesSSEEvent := MkEvent { ev_eventType : string; ev_data : string }.

Definition responsesSSEDataLooksStandaloneEvent (data0 : string) : bool :=
  let data := TrimSpace data0 in
  if (String.eqb data "" || String.eqb data "[DONE]") then true
  else if ! json_Valid data then false
  else
    let '(payload, ok) := json_Unmarshal data (payload_of_type "") in
    if ! ok then false
    else (! String.eqb (TrimSpace (pl_Type payload)) "" ||
          ! String.eqb (TrimSpace (ep_Message (pl_ResponseError payload))) "" ||
          ! String.eqb (TrimSpace (ep_Message (pl_Error payload))) "").

(** The variables of the parser's loop. *)
Record ParseState := MkParse { ps_events : list responsesSSEEvent; ps_eventType : string; ps_dataLines : list string }.

Definition flush_event (st : ParseState) : ParseState :=
  if (String.eqb (ps_eventType st) "" && bool_decide (ps_dataLines st = [])) then st
  else MkParse (ps_events st ++ [MkEvent (TrimSpace (ps_eventType st))
                                   (TrimSpace (Join (ps_dataLines st) (String LF "")))]) "" [].

Definition parse_line (st : ParseState) (rawLine : string) : ParseState :=
  let line := TrimSpace (TrimSuffix rawLine (String CR "")) in
  if String.eqb line "" then flush_event st
  else if HasPrefix line ":" then st
  else match CutPrefix line "event:" with
  | Some value =>
      let st := if (! String.eqb (ps_eventType st) "" || ! bool_decide (ps_dataLines st = []))
                then flush_event st else st in
      MkParse (ps_events st) (TrimSpace value) (ps_dataLines st)
  | None =>
      match CutPrefix line "data:" with
      | Some value =>
          let data := TrimSpace value in
          let st := if (String.eqb (ps_eventType st) "" && ! bool_decide (ps_dataLines st = []) &&
                        responsesSSEDataLooksStandaloneEvent (Join (ps_dataLines st) (String LF "")) &&
                        responsesSSEDataLooksStandaloneEvent data)
                    then flush_event st else st in
          MkParse (ps_events st) (ps_eventType st) (ps_dataLines st ++ [data])
      | None => st
      end
  end.

Definition parseResponsesSSEEvents (block : string) : list responsesSSEEvent :=
  ps_events (flush_event (foldl parse_line (MkParse [] "" []) (SplitByte LF block))).

Fixpoint first_terminal (events : list responsesSSEEvent) : Terminal :=
  match events with
  | [] => not_terminal
  | event :: rest =>
      let v := responsesSSEEventTerminalState (ev_eventType event) (ev_data event) in
      if is_terminal v then v else first_terminal rest
  end.

Definition responsesSSEBlockTerminalState (block : string) : Terminal :=
  first_terminal (parseResponsesSSEEvents block).

(** ** Blocks *)

Definition delimiters : list string := [two LF LF; two CR LF +:+ two CR LF; two CR CR].

Definition delimiter_step (buffer : string) (best : option (nat * nat)) (delimiter : string) : option (nat * nat) :=
  match Index buffer delimiter with
  | None => best
  | Some idx =>
      match best with
      | None => Some (idx, String.length delimiter)
      | Some (b, _) => if (idx <? b)%nat then Some (idx, String.length delimiter) else best
      end
  end.

Definition firstSSEBlockEnd (buffer : string) : option (nat * nat) :=
  foldl (delimiter_step buffer) None delimiters.

Definition takeSSEBlock (buffer : string) : option (string * string) :=
  '(end_, delimLen) ← firstSSEBlockEnd buffer;
  Some (str_to end_ buffer, str_from (end_ + delimLen) buffer).

(** ** The tracker *)

Record responsesStreamCompletionTracker := MkTracker {
  tk_buffer : string; tk_completed : bool; tk_terminalErr : option Error }.

Definition newResponsesStreamCompletionTracker (sourceFormat : string) : option responsesStreamCompletionTracker :=
  if ! String.eqb sourceFormat "openai-response" then None else Some (MkTracker "" false None).

(** The loop of [Observe]; every round takes at least a delimiter, so that the length of
    the buffer bounds the rounds. *)
Fixpoint drain (fuel : nat) (buffer : string) : responsesStreamCompletionTracker :=
  match fuel with
  | O => MkTracker buffer false None
  | S fuel =>
      match takeSSEBlock buffer with
      | None => MkTracker buffer false None
      | Some (block, rest) =>
          let v := responsesSSEBlockTerminalState block in
          if is_terminal v then MkTracker rest v.1 v.2 else drain fuel rest
      end
  end.

Definition settled (t : responsesStreamCompletionTracker) : bool := is_terminal (tk_completed t, tk_terminalErr t).

Definition Observe (t : responsesStreamCompletionTracker) (chunk : string) : responsesStreamCompletionTracker :=
  if (settled t || String.eqb chunk "") then t
  else
    let v := responsesSSEBlockTerminalState chunk in
    if is_terminal v then MkTracker (tk_buffer t) v.1 v.2
    else let buffer := tk_buffer t +:+ chunk in drain (String.length buffer) buffer.

Definition ErrIfIncomplete (t : responsesStreamCompletionTracker) : option Error :=
  if tk_completed t then None
  else match tk_terminalErr t with
  | Some e => Some e
  | None =>
      let v := if ! String.eqb (TrimSpace (tk_buffer t)) "" then responsesSSEBlockTerminalState (tk_buffer t)
               else not_terminal in
      if v.1 then None
      else match v.2 with Some e => Some e | None => Some newResponsesStreamIncompleteError end
  end.

End json.

(** ** Delimiters in a growing buffer *)

(** [d] occurs in [s] at [i]. *)
Definition occurs (s d : string) (i : nat) : Prop := ∃ a b, s = a +:+ d +:+ b ∧ String.length a = i.

Lemma str_assoc_l a b c : a +:+ (b +:+ c) = (a +:+ b) +:+ c.
Proof. symmetry. apply str_app_assoc. Qed.

Lemma Index_occurs s d i : Index s d = Some i → occurs s d i.
Proof. intros (a & b & H)%Index_Some. by exists a, b. Qed.

Lemma occurs_Index s d i : occurs s d i → ∃ j, Index s d = Some j ∧ (j ≤ i)%nat.
Proof. intros (a & b & -> & <-). apply Index_first. Qed.

Lemma occurs_app s m d i : occurs s d i → occurs (s +:+ m) d i.
Proof. intros (a & b & -> & <-). exists a, (b +:+ m). by rewrite !str_assoc_l. Qed.

Lemma get_app_r a s n : String.get (String.length a + n) (a +:+ s) = String.get n s.
Proof. induction a as [|c a IH]; [done|]. exact IH. Qed.

Lemma get_app_l s m n : (n < String.length s)%nat → String.get n (s +:+ m) = String.get n s.
Proof. revert n. induction s as [|c s IH]; intros n Hn; cbn in *; [lia|]. destruct n as [|n]; [done|]. apply IH. lia. Qed.

Lemma occurs_get s d i k : occurs s d i → (k < String.length d)%nat → String.get (i + k) s = String.get k d.
Proof. intros (a & b & -> & <-) Hk. rewrite get_app_r. by apply get_app_l. Qed.

Lemma occurs_fits s d i : occurs s d i → (i + String.length d ≤ String.length s)%nat.
Proof. intros (a & b & -> & <-). rewrite !str_app_length. lia. Qed.

Lemma occurs_cut s m d i : occurs (s +:+ m) d i → (i + String.length d ≤ String.length s)%nat → occurs s d i.
Proof.
  intros (a & b & He & <-) Hl. destruct (str_app_longer (a +:+ d) b s m) as [x Hx].
  - by rewrite <-!str_assoc_l.
  - rewrite str_app_length. lia.
  - exists a, x. split; [|done]. apply (str_app_inv_r m). by rewrite He, Hx, !str_assoc_l.
Qed.

(** Where a block ends: at the first delimiter of the three. *)
Definition ends_at (s d : string) (i : nat) : Prop :=
  d ∈ delimiters ∧ occurs s d i ∧ ∀ d' j, d' ∈ delimiters → occurs s d' j → (i ≤ j)%nat.

Lemma delimiter_cases d : d ∈ delimiters → d = two LF LF ∨ d = two CR LF +:+ two CR LF ∨ d = two CR CR.
Proof. unfold delimiters. set_solver. Qed.

Lemma delimiter_long d : d ∈ delimiters → (2 ≤ String.length d ≤ 4)%nat.
Proof. intros [->|[->| ->]]%delimiter_cases; vm_compute; lia. Qed.

(** No two delimiters start at one place. *)
Lemma delimiter_unique s d d' i : d ∈ delimiters → d' ∈ delimiters → occurs s d i → occurs s d' i → d = d'.
Proof.
  intros Hd Hd' Ho Ho'. pose proof (delimiter_long d Hd) as Hl. pose proof (delimiter_long d' Hd') as Hl'.
  pose proof (occurs_get _ _ _ 0 Ho ltac:(lia)) as H0. pose proof (occurs_get _ _ _ 1 Ho ltac:(lia)) as H1.
  rewrite (occurs_get _ _ _ 0 Ho') in H0 by lia. rewrite (occurs_get _ _ _ 1 Ho') in H1 by lia.
  apply delimiter_cases in Hd as [->|[->| ->]], Hd' as [->|[->| ->]]; vm_compute in H0, H1; congruence.
Qed.

Lemma ends_at_unique s d i d' i' : ends_at s d i → ends_at s d' i' → d = d' ∧ i = i'.
Proof.
  intros (Hd & Ho & Hm) (Hd' & Ho' & Hm'). assert (i = i') as <-.
  { specialize (Hm _ _ Hd' Ho'). specialize (Hm' _ _ Hd Ho). lia. }
  split; [by eapply delimiter_unique|done].
Qed.

(** What the fold knows of the delimiters it has seen. *)
Definition best_of_seen (s : string) (seen : list string) (best : option (nat * nat)) : Prop :=
  match best with
  | Some (b, l) => (∃ d, d ∈ seen ∧ occurs s d b ∧ l = String.length d) ∧
      ∀ d j, d ∈ seen → occurs s d j → (b ≤ j)%nat
  | None => ∀ d j, d ∈ seen → ¬ occurs s d j
  end.

Lemma delimiter_step_best s seen best d : best_of_seen s seen best →
  best_of_seen s (seen ++ [d]) (delimiter_step s best d).
Proof.
  unfold best_of_seen, delimiter_step. intros Hb. destruct (Index s d) as [i|] eqn:Hi.
  - assert (Hfirst : ∀ j, occurs s d j → (i ≤ j)%nat).
    { intros j (k & Hk & Hle)%occurs_Index. by rewrite Hi in Hk; injection Hk as <-. }
    apply Index_occurs in Hi. destruct best as [[b l]|].
    + destruct Hb as [(d0 & Hd0 & Ho & ->) Hmin]. destruct (Nat.ltb_spec i b).
      * split; [exists d; set_solver|]. intros d' j [Hd'| ->%list_elem_of_singleton]%elem_of_app Hj; [|by apply Hfirst].
        specialize (Hmin _ _ Hd' Hj). lia.
      * split; [exists d0; set_solver|]. intros d' j [Hd'| ->%list_elem_of_singleton]%elem_of_app Hj; [by eapply Hmin|].
        specialize (Hfirst _ Hj). lia.
    + split; [exists d; set_solver|]. intros d' j [Hd'| ->%list_elem_of_singleton]%elem_of_app Hj; [|by apply Hfirst].
      exfalso. by eapply Hb.
  - assert (Hno : ∀ j, ¬ occurs s d j) by (intros j (k & Hk & _)%occurs_Index; by rewrite Hi in Hk).
    destruct best as [[b l]|].
    + destruct Hb as [(d0 & Hd0 & Ho & ->) Hmin]. split; [exists d0; set_solver|].
      intros d' j [Hd'| ->%list_elem_of_singleton]%elem_of_app Hj; [by eapply Hmin|]. by apply Hno in Hj.
    + intros d' j [Hd'| ->%list_elem_of_singleton]%elem_of_app Hj; [by eapply Hb|]. by apply Hno in Hj.
Qed.

Lemma firstSSEBlockEnd_best s : best_of_seen s delimiters (firstSSEBlockEnd s).
Proof.
  unfold firstSSEBlockEnd, delimiters. cbn [foldl].
  apply (delimiter_step_best s [_; _]), (delimiter_step_best s [_]), (delimiter_step_best s []).
  intros d j Hd. by apply not_elem_of_nil in Hd.
Qed.

Lemma firstSSEBlockEnd_Some s i l : firstSSEBlockEnd s = Some (i, l) ↔ ∃ d, ends_at s d i ∧ l = String.length d.
Proof.
  pose proof (firstSSEBlockEnd_best s) as Hb. unfold ends_at. destruct (firstSSEBlockEnd s) as [[b k]|]; cbn in Hb.
  - destruct Hb as [(d & Hd & Ho & ->) Hmin]. split.
    + intros [= <- <-]. by exists d.
    + intros (d' & Hd' & ->). destruct (ends_at_unique s d b d' i) as [<- <-]; done.
  - split; [done|]. intros (d & (Hd & Ho & _) & _). by apply Hb in Ho.
Qed.

(** A block that is complete stays what it is when more bytes arrive. *)
Lemma ends_at_app s m d i : ends_at s d i → ends_at (s +:+ m) d i.
Proof.
  intros (Hd & Ho & Hmin). split; [done|]. split; [by apply occurs_app|]. intros d' j Hd' Ho'.
  destruct (decide (j + String.length d' ≤ String.length s)%nat) as [Hle|Hgt].
  { by eapply Hmin, occurs_cut. }
  pose proof (occurs_fits _ _ _ Ho) as Hf. pose proof (delimiter_long d Hd) as Hl.
  destruct (decide (i ≤ j)%nat) as [|Hlt]; [done|]. exfalso.
  apply delimiter_cases in Hd' as [->|[->| ->]]; 
    rewrite ?(eq_refl : String.length (two LF LF) = 2%nat), ?(eq_refl : String.length (two CR CR) = 2%nat),
      ?(eq_refl : String.length (two CR LF +:+ two CR LF) = 4%nat) in Hgt; [lia| |lia].
  assert (i = S j) as -> by lia. pose proof (occurs_app _ m _ _ Ho) as Hs.
  pose proof (occurs_get _ _ _ 0 Hs ltac:(lia)) as H0. pose proof (occurs_get _ _ _ 1 Hs ltac:(lia)) as H1.
  pose proof (occurs_get _ _ _ 1 Ho' ltac:(vm_compute; lia)) as H0'. pose proof (occurs_get _ _ _ 2 Ho' ltac:(vm_compute; lia)) as H1'.
  replace (S j + 0)%nat with (j + 1)%nat in H0 by lia. replace (S j + 1)%nat with (j + 2)%nat in H1 by lia.
  rewrite H0 in H0'. rewrite H1 in H1'. apply delimiter_cases in Hd as [->|[->| ->]]; vm_compute in H0', H1'; congruence.
Qed.

Lemma takeSSEBlock_app s m block rest : takeSSEBlock s = Some (block, rest) →
  takeSSEBlock (s +:+ m) = Some (block, rest +:+ m).
Proof.
  unfold takeSSEBlock. destruct (firstSSEBlockEnd s) as [[i l]|] eqn:E; [|done].
  apply firstSSEBlockEnd_Some in E as (d & He & ->).
  assert (firstSSEBlockEnd (s +:+ m) = Some (i, String.length d)) as ->.
  { apply firstSSEBlockEnd_Some. exists d. split; [by apply ends_at_app|done]. }
  cbn [mbind option_bind]. intros [= <- <-]. destruct He as (_ & (a & b & -> & <-) & _). f_equal. f_equal.
  - by rewrite <-str_assoc_l, !str_to_app.
  - by rewrite <-str_app_length, <-(str_assoc_l _ (d +:+ b) m), <-(str_assoc_l d b m), !str_assoc_l,
      <-!(str_assoc_l (a +:+ d)), !str_from_app.
Qed.

Lemma takeSSEBlock_shorter s block rest : takeSSEBlock s = Some (block, rest) →
  (String.length rest < String.length s)%nat.
Proof.
  unfold takeSSEBlock. destruct (firstSSEBlockEnd s) as [[i l]|] eqn:E; [|done]. cbn [mbind option_bind].
  intros [= _ <-]. apply firstSSEBlockEnd_Some in E as (d & (Hd & (a & b & -> & <-) & _) & ->).
  apply delimiter_long in Hd. rewrite str_assoc_l, <-str_app_length, str_from_app, !str_app_length. lia.
Qed.

(** ** The blocks of a stream *)

(** The complete blocks of the bytes of a stream, and what is left after them. *)
Inductive framed : string → list string → string → Prop :=
  | framed_rest s : takeSSEBlock s = None → framed s [] s
  | framed_block s block s' blocks rest :
      takeSSEBlock s = Some (block, s') → framed s' blocks rest → framed s (block :: blocks) rest.

Lemma framed_total s : ∃ blocks rest, framed s blocks rest.
Proof.
  induction s as [s IH] using (induction_ltof1 _ String.length).
  destruct (takeSSEBlock s) as [[block s']|] eqn:E; [|by exists [], s; constructor].
  destruct (IH s') as (blocks & rest & Hf); [by eapply takeSSEBlock_shorter|].
  exists (block :: blocks), rest. by econstructor.
Qed.

Lemma framed_unique s bs r bs' r' : framed s bs r → framed s bs' r' → bs = bs' ∧ r = r'.
Proof.
  intros Hf. revert bs' r'. induction Hf as [s E|s b s' bs r E Hf IH]; intros bs' r' Hf'; inversion Hf'; simplify_eq;
    [done|]. match goal with H : framed s' _ _ |- _ => by apply IH in H as [-> ->] end.
Qed.

Lemma framed_app s m bs r bs' r' : framed s bs r → framed (r +:+ m) bs' r' → framed (s +:+ m) (bs ++ bs') r'.
Proof.
  intros Hf Hf'. induction Hf as [s E|s b s' bs r E Hf IH]; [done|].
  cbn. eapply framed_block; [by apply takeSSEBlock_app|by apply IH].
Qed.

Section tracking.
Context {J : PayloadJSON}.

(** What the first terminal block of a list says. *)
Definition first_terminal_block (blocks : list string) : option (bool * option Error) :=
  find is_terminal (map responsesSSEBlockTerminalState blocks).

(** How a stream of these blocks ends: a rest that is not blank is a block too. *)
Definition end_of_stream (blocks : list string) (rest : string) : option Error :=
  let blocks := if String.eqb (TrimSpace rest) "" then blocks else blocks ++ [rest] in
  match first_terminal_block blocks with
  | Some (true, _) => None
  | Some (false, e) => e
  | None => Some newResponsesStreamIncompleteError
  end.

Definition observed (chunks : list string) : responsesStreamCompletionTracker :=
  foldl Observe (MkTracker "" false None) chunks.

Lemma drain_framed fuel s bs r : framed s bs r → (String.length s ≤ fuel)%nat →
  match first_terminal_block bs with
  | Some v => ∃ b, drain fuel s = MkTracker b v.1 v.2
  | None => drain fuel s = MkTracker r false None
  end.
Proof.
  intros Hf. revert fuel. induction Hf as [s E|s b s' bs r E Hf IH]; intros fuel Hl.
  - destruct fuel as [|fuel]; [done|]. cbn [drain]. by rewrite E.
  - pose proof (takeSSEBlock_shorter _ _ _ E). destruct fuel as [|fuel]; [lia|]. cbn [drain]. rewrite E.
    unfold first_terminal_block. cbn [map find]. destruct (is_terminal _) eqn:Ht; [eauto|].
    apply (IH fuel). lia.
Qed.

Lemma first_terminal_block_app bs bs' : first_terminal_block (bs ++ bs') =
  match first_terminal_block bs with Some v => Some v | None => first_terminal_block bs' end.
Proof.
  unfold first_terminal_block. induction bs as [|b bs IH]; [done|]. cbn. by destruct (is_terminal _).
Qed.

Lemma first_terminal_settles bs v : first_terminal_block bs = Some v → is_terminal v = true.
Proof. by intros [_ Hv]%find_some. Qed.

(** The tracker after some chunks, against the blocks of their bytes. *)
Definition tracks (t : responsesStreamCompletionTracker) (s : string) : Prop :=
  ∀ bs r, framed s bs r →
    match first_terminal_block bs with
    | Some v => ∃ b, t = MkTracker b v.1 v.2
    | None => t = MkTracker r false None
    end.

Lemma tracks_new : tracks (MkTracker "" false None) "".
Proof. intros bs r Hf. inversion Hf; by simplify_eq. Qed.

Lemma Observe_settled t c : settled t = true → Observe t c = t.
Proof. intros Ht. unfold Observe. by rewrite Ht. Qed.

Lemma settled_tracker b v : is_terminal v = true → settled (MkTracker b v.1 v.2) = true.
Proof. by destruct v. Qed.

(** A chunk that is not terminal by itself is read as more bytes. *)
Lemma tracks_observe t s c : tracks t s → is_terminal (responsesSSEBlockTerminalState c) = false →
  tracks (Observe t c) (s +:+ c).
Proof.
  intros Ht Hc bs' r' Hf'. destruct (framed_total s) as (bs & r & Hf). specialize (Ht bs r Hf).
  destruct (framed_total (r +:+ c)) as (bs2 & r2 & Hf2).
  destruct (framed_unique _ _ _ _ _ Hf' (framed_app _ _ _ _ _ _ Hf Hf2)) as [-> ->].
  rewrite first_terminal_block_app. destruct (first_terminal_block bs) as [v|] eqn:Ev.
  - destruct Ht as [b ->]. rewrite Observe_settled; [eauto|]. by apply settled_tracker, (first_terminal_settles bs).
  - subst t. unfold Observe. cbn [settled tk_completed tk_terminalErr tk_buffer is_terminal]. cbn [orb].
    destruct (String.eqb_spec c "") as [->|Hne].
    + rewrite str_app_nil_r in Hf2.
      assert (Hr : takeSSEBlock r = None) by (clear -Hf; by induction Hf).
      destruct (framed_unique _ _ _ _ _ Hf2 (framed_rest _ Hr)) as [-> ->]. done.
    + rewrite Hc. by apply (drain_framed _ _ _ _ Hf2).
Qed.

Lemma observed_snoc chunks c : observed (chunks ++ [c]) = Observe (observed chunks) c.
Proof. unfold observed. by rewrite foldl_app. Qed.

Definition bytes (chunks : list string) : string := foldl String.append "" chunks.

Lemma bytes_snoc chunks c : bytes (chunks ++ [c]) = bytes chunks +:+ c.
Proof. unfold bytes. by rewrite foldl_app. Qed.

(** Nothing terminal has been read: neither a chunk by itself nor a complete block of the bytes. *)
Definition undecided (chunks : list string) : Prop :=
  (∀ c, c ∈ chunks → is_terminal (responsesSSEBlockTerminalState c) = false) ∧
  ∀ blocks rest, framed (bytes chunks) blocks rest → first_terminal_block blocks = None.

(** What the chunk [c] decides after such chunks: what it says by itself, or else the first terminal block
    of the bytes up to its end. *)
Definition decides (before : list string) (c : string) (v : bool * option Error) : Prop :=
  is_terminal v = true ∧
  if is_terminal (responsesSSEBlockTerminalState c) then v = responsesSSEBlockTerminalState c
  else ∃ blocks rest, framed (bytes (before ++ [c])) blocks rest ∧ first_terminal_block blocks = Some v.

(** How a stream ends that something terminal was read in: completed, or with its error. *)
Definition end_of (v : bool * option Error) : option Error := if v.1 then None else v.2.

Lemma no_terminal_tracks chunks : (∀ c, c ∈ chunks → is_terminal (responsesSSEBlockTerminalState c) = false) →
  tracks (observed chunks) (bytes chunks).
Proof.
  intros Hc. induction chunks as [|c chunks IH] using rev_ind; [apply tracks_new|].
  rewrite observed_snoc, bytes_snoc. apply tracks_observe; [apply IH|apply Hc]; set_solver.
Qed.

Lemma bytes_framed chunks : ∃ blocks rest, framed (bytes chunks) blocks rest.
Proof. apply framed_total. Qed.

Lemma undecided_observed chunks : undecided chunks → settled (observed chunks) = false.
Proof.
  intros [Hc Hb]. destruct (bytes_framed chunks) as (bs & r & Hf). pose proof (no_terminal_tracks chunks Hc bs r Hf) as Ht.
  rewrite (Hb _ _ Hf) in Ht. by rewrite Ht.
Qed.

Lemma chunks_decided chunks : undecided chunks ∨
  ∃ before c after v, chunks = before ++ c :: after ∧ undecided before ∧ decides before c v ∧
    ∃ b, observed chunks = MkTracker b v.1 v.2.
Proof.
  induction chunks as [|x chunks [IH|(before & c & after & v & -> & Hu & Hd & b & Hb)]] using rev_ind.
  - left. split; [intros c Hc; by apply not_elem_of_nil in Hc|]. intros bs r Hf. inversion Hf; by simplify_eq.
  - destruct (is_terminal (responsesSSEBlockTerminalState x)) eqn:Ex.
    + right. exists chunks, x, [], (responsesSSEBlockTerminalState x). split; [done|]. split; [done|].
      split; [split; [done|by rewrite Ex]|]. exists (tk_buffer (observed chunks)). rewrite observed_snoc. unfold Observe.
      rewrite (undecided_observed _ IH), Ex. cbn [orb]. by destruct (String.eqb_spec x "") as [->|].
    + assert (Hall : ∀ c, c ∈ chunks ++ [x] → is_terminal (responsesSSEBlockTerminalState c) = false).
      { intros c [Hc|Hc]%elem_of_app; [by apply IH|]. by apply list_elem_of_singleton in Hc as ->. }
      destruct (bytes_framed (chunks ++ [x])) as (bs & r & Hf). pose proof (no_terminal_tracks _ Hall bs r Hf) as Ht.
      destruct (first_terminal_block bs) as [v|] eqn:Ev.
      * right. exists chunks, x, [], v. split; [done|]. split; [done|]. split; [|done].
        split; [by eapply first_terminal_settles|]. rewrite Ex. eauto.
      * left. split; [done|]. intros bs' r' Hf'. by destruct (framed_unique _ _ _ _ _ Hf Hf') as [<- <-].
  - right. exists before, c, (after ++ [x]), v. rewrite <- app_assoc. split; [done|]. split; [done|]. split; [done|].
    exists b. rewrite (app_assoc before (c :: after) [x]), observed_snoc, Hb. apply Observe_settled, settled_tracker. apply Hd.
Qed.

Lemma decided_end b v : is_terminal v = true → ErrIfIncomplete (MkTracker b v.1 v.2) = end_of v.
Proof. unfold ErrIfIncomplete, end_of. by destruct v as [[] [e|]]. Qed.

Lemma tracked_end t s bs r : tracks t s → framed s bs r → ErrIfIncomplete t = end_of_stream bs r.
Proof.
  intros Ht Hf. specialize (Ht bs r Hf). unfold end_of_stream.
  assert (E : ∀ bs', first_terminal_block (bs ++ bs') =
    match first_terminal_block bs with Some v => Some v | None => first_terminal_block bs' end)
    by (intros; apply first_terminal_block_app).
  destruct (first_terminal_block bs) as [v|] eqn:Ev.
  - destruct Ht as [b ->]. apply first_terminal_settles in Ev as Hv.
    assert ((if String.eqb (TrimSpace r) "" then first_terminal_block bs else first_terminal_block (bs ++ [r])) = Some v) as Hx
      by (destruct (String.eqb _ _); [done|apply E]).
    destruct (String.eqb (TrimSpace r) ""); rewrite Hx; destruct v as [[] [e|]]; done.
  - subst t. unfold ErrIfIncomplete. cbn [tk_completed tk_terminalErr tk_buffer].
    destruct (String.eqb (TrimSpace r) ""); cbn [negb]; [by rewrite Ev|]. rewrite E. unfold first_terminal_block. cbn.
    by destruct (responsesSSEBlockTerminalState r) as [[] [e|]].
Qed.

(** *** Chunks of whole blocks *)

Lemma first_terminal_app es es' : first_terminal (es ++ es') =
  if is_terminal (first_terminal es) then first_terminal es else first_terminal es'.
Proof.
  induction es as [|e es IH]; [done|]. cbn [app first_terminal].
  destruct (is_terminal (responsesSSEEventTerminalState _ _)) eqn:E; [by rewrite E|exact IH].
Qed.

(** The events found so far are only added to. *)
Lemma parse_lines_events lines es t ds : foldl parse_line (MkParse es t ds) lines =
  MkParse (es ++ ps_events (foldl parse_line (MkParse [] t ds) lines))
    (ps_eventType (foldl parse_line (MkParse [] t ds) lines)) (ps_dataLines (foldl parse_line (MkParse [] t ds) lines)).
Proof.
  assert (Hflush : ∀ es t ds, flush_event (MkParse es t ds) =
    MkParse (es ++ ps_events (flush_event (MkParse [] t ds))) (ps_eventType (flush_event (MkParse [] t ds)))
      (ps_dataLines (flush_event (MkParse [] t ds)))).
  { intros es0 t0 ds0. unfold flush_event. cbn [ps_eventType ps_dataLines ps_events]. destruct (_ && _); cbn; by rewrite ?app_nil_r. }
  assert (Hline : ∀ line es t ds, parse_line (MkParse es t ds) line =
    MkParse (es ++ ps_events (parse_line (MkParse [] t ds) line)) (ps_eventType (parse_line (MkParse [] t ds) line))
      (ps_dataLines (parse_line (MkParse [] t ds) line))).
  { intros line es0 t0 ds0. unfold parse_line. cbv zeta. cbn [ps_eventType ps_dataLines ps_events].
    destruct (String.eqb _ ""); [apply Hflush|]. destruct (HasPrefix _ ":"); [cbn; by rewrite app_nil_r|].
    destruct (CutPrefix _ "event:"); [destruct (_ || _); [rewrite Hflush|]; cbn; by rewrite ?app_nil_r|].
    destruct (CutPrefix _ "data:"); [destruct (_ && _); [rewrite Hflush|]; cbn; by rewrite ?app_nil_r|]. cbn. by rewrite app_nil_r. }
  revert es t ds. induction lines as [|line lines IH]; intros es t ds; [cbn; by rewrite app_nil_r|].
  cbn [foldl]. rewrite Hline. destruct (parse_line (MkParse [] t ds) line) as [es1 t1 ds1]. cbn [ps_events ps_eventType ps_dataLines].
  rewrite IH, (IH es1). cbn [ps_events ps_eventType ps_dataLines]. by rewrite app_assoc.
Qed.

(** A blank line ends an event. *)
Lemma parse_block block s : parseResponsesSSEEvents (block +:+ two LF LF +:+ s) =
  parseResponsesSSEEvents block ++ parseResponsesSSEEvents s.
Proof.
  unfold parseResponsesSSEEvents. change (two LF LF +:+ s) with (String LF ("" +:+ String LF s)).
  rewrite SplitByte_app, SplitByte_app, !foldl_app. cbn [SplitByte foldl].
  set (st := foldl parse_line (MkParse [] "" []) (SplitByte LF block)).
  assert (Hb : parse_line st "" = flush_event st) by done. rewrite Hb.
  assert (Hst : flush_event st = MkParse (ps_events (flush_event st)) "" []).
  { unfold flush_event. destruct (String.eqb_spec (ps_eventType st) ""); cbn [andb]; [|done]. case_bool_decide; [|done].
    destruct st. cbn in *. by subst. }
  rewrite Hst at 1. rewrite parse_lines_events. generalize (ps_events (flush_event st)). intros es.
  set (x := foldl parse_line (MkParse [] "" []) (SplitByte LF s)). unfold flush_event. cbn [ps_eventType ps_dataLines ps_events].
  destruct (_ && _); cbn [ps_events]; [done|by rewrite app_assoc].
Qed.

Lemma parse_blank_text s : TrimSpace s = "" → parseResponsesSSEEvents s = [].
Proof.
  intros H%TrimSpace_blank. unfold parseResponsesSSEEvents.
  assert (foldl parse_line (MkParse [] "" []) (SplitByte LF s) = MkParse [] "" []) as ->; [|done].
  induction (all_chars_SplitByte is_space LF s H) as [|line lines Hl _ IH]; [done|]. cbn [foldl].
  assert (parse_line (MkParse [] "" []) line = MkParse [] "" []) as ->; [|exact IH].
  unfold parse_line. by rewrite (blank_TrimSpace _ (all_chars_TrimSuffix _ _ _ Hl)).
Qed.

(** No carriage returns: blocks end with two line feeds. *)
Definition line_feeds (s : string) : Prop := all_chars (λ c, ! Ascii.eqb CR c) s = true.

Lemma line_feeds_block s block s' : line_feeds s → takeSSEBlock s = Some (block, s') → s = block +:+ two LF LF +:+ s' ∧ line_feeds s'.
Proof.
  intros Hs. unfold takeSSEBlock. destruct (firstSSEBlockEnd s) as [[i l]|] eqn:E; [|done].
  apply firstSSEBlockEnd_Some in E as (d & (Hd & (a & b & -> & <-) & _) & ->). cbn [mbind option_bind]. intros [= <- <-].
  assert (Hcut : str_to (String.length a) (a +:+ d +:+ b) = a ∧ str_from (String.length a + String.length d) (a +:+ d +:+ b) = b).
  { split; [apply str_to_app|]. by rewrite str_assoc_l, <- str_app_length, str_from_app. }
  destruct Hcut as [-> ->]. unfold line_feeds in *. rewrite !all_chars_app in Hs. apply andb_true_iff in Hs as [_ [Hds Hb]%andb_true_iff].
  apply delimiter_cases in Hd as [->|[->| ->]]; [done|discriminate Hds..].
Qed.

(** The first terminal block of a text without carriage returns is what the text says by itself. *)
Lemma text_state s bs r : framed s bs r → line_feeds s →
  responsesSSEBlockTerminalState s = default not_terminal (first_terminal_block (bs ++ [r])).
Proof.
  induction 1 as [s E|s b s' bs r E Hf IH]; intros Hs.
  - unfold first_terminal_block. cbn. destruct (is_terminal (responsesSSEBlockTerminalState s)) eqn:Et; [done|]. cbn.
    destruct (responsesSSEBlockTerminalState s) as [[] [e|]]; done.
  - apply line_feeds_block in E as [-> Hs']; [|done]. unfold responsesSSEBlockTerminalState at 1. rewrite parse_block, first_terminal_app.
    unfold first_terminal_block. cbn [app map find]. fold (responsesSSEBlockTerminalState b).
    destruct (is_terminal (responsesSSEBlockTerminalState b)); [done|]. exact (IH Hs').
Qed.

Lemma blank_block r : TrimSpace r = "" → is_terminal (responsesSSEBlockTerminalState r) = false.
Proof. intros H. unfold responsesSSEBlockTerminalState. by rewrite parse_blank_text. Qed.

(** A chunk of whole blocks. *)
Definition whole (c : string) : Prop := ∃ blocks, framed c blocks "".

Lemma whole_bytes chunks : Forall whole chunks → whole (bytes chunks).
Proof.
  induction chunks as [|c chunks IH] using rev_ind; [intros _; exists []; by constructor|].
  intros [Hc Hx]%Forall_app. destruct (IH Hc) as [bs Hbs]. apply Forall_singleton in Hx as [bs' Hbs'].
  exists (bs ++ bs'). rewrite bytes_snoc. by apply (framed_app _ _ _ "").
Qed.

Lemma bytes_app a b : bytes (a ++ b) = bytes a +:+ bytes b.
Proof.
  induction b as [|c b IH] using rev_ind; [by rewrite app_nil_r, str_app_nil_r|]. by rewrite app_assoc, !bytes_snoc, IH, str_app_assoc.
Qed.

Lemma end_of_stream_first blocks rest v : first_terminal_block blocks = Some v → end_of_stream blocks rest = end_of v.
Proof.
  intros H. unfold end_of_stream, end_of. destruct (String.eqb _ _); [|rewrite first_terminal_block_app]; rewrite H; by destruct v as [[] e].
Qed.

(** What a chunk decides is among its blocks. *)
Lemma decides_block before c v bs r : whole (bytes before) → undecided before → line_feeds c → decides before c v → framed c bs r →
  first_terminal_block (bs ++ [r]) = Some v.
Proof.
  intros [bs0 Hf0] [_ Hu] Hlf [Hv Hd] Hf. specialize (Hu _ _ Hf0). destruct (is_terminal (responsesSSEBlockTerminalState c)) eqn:Et.
  - subst v. rewrite (text_state c bs r Hf Hlf) in *. by destruct (first_terminal_block (bs ++ [r])).
  - destruct Hd as (blocks & rest & Hfd & Hv'). rewrite bytes_snoc in Hfd.
    destruct (framed_unique _ _ _ _ _ Hfd (framed_app _ c _ _ _ _ Hf0 Hf)) as [-> _].
    rewrite first_terminal_block_app, Hu in Hv'. by rewrite first_terminal_block_app, Hv'.
Qed.

Lemma blank_last bs r v : TrimSpace r = "" → first_terminal_block (bs ++ [r]) = Some v → first_terminal_block bs = Some v.
Proof.
  intros Hr. rewrite first_terminal_block_app. destruct (first_terminal_block bs); [done|].
  unfold first_terminal_block. cbn. by rewrite blank_block.
Qed.

(** What a chunk decides is what the bytes of the stream say, where all chunks but the last are
    whole. *)
Lemma whole_decides before c after v blocks rest : Forall whole before → (after ≠ [] → whole c) → line_feeds c →
  undecided before → decides before c v → framed (bytes (before ++ c :: after)) blocks rest →
  end_of_stream blocks rest = end_of v.
Proof.
  intros Hb Hc Hlf Hu Hd Hf. pose proof (whole_bytes _ Hb) as Hw. destruct (framed_total c) as (bs & r & Hfc).
  pose proof (decides_block before c v bs r Hw Hu Hlf Hd Hfc) as Hv. destruct Hw as [bs0 Hf0].
  assert (Hu0 : first_terminal_block bs0 = None) by by eapply Hu.
  pose proof (framed_app _ c _ _ _ _ Hf0 Hfc) as Hfbc.
  replace (before ++ c :: after) with ((before ++ [c]) ++ after) in Hf by by rewrite <- app_assoc.
  rewrite bytes_app, bytes_snoc in Hf. destruct after as [|x after].
  - change (bytes []) with "" in Hf. rewrite str_app_nil_r in Hf. destruct (framed_unique _ _ _ _ _ Hf Hfbc) as [-> ->].
    unfold end_of_stream. destruct (String.eqb_spec (TrimSpace r) "") as [Er|_].
    + rewrite first_terminal_block_app, Hu0, (blank_last bs r v Er Hv). by destruct v as [[] e].
    + rewrite <- app_assoc, first_terminal_block_app, Hu0, Hv. by destruct v as [[] e].
  - destruct (Hc ltac:(done)) as [bs' Hw']. destruct (framed_unique _ _ _ _ _ Hfc Hw') as [-> ->].
    destruct (framed_total ("" +:+ bytes (x :: after))) as (bs2 & r2 & Hf2).
    destruct (framed_unique _ _ _ _ _ Hf (framed_app _ _ _ _ _ _ Hfbc Hf2)) as [-> ->].
    apply end_of_stream_first. rewrite !first_terminal_block_app, Hu0. by rewrite (blank_last bs' "" v eq_refl Hv).
Qed.

Lemma whole_before (before : list string) c after : Forall whole (removelast (before ++ c :: after)) →
  Forall whole before ∧ (after ≠ [] → whole c).
Proof.
  rewrite removelast_app by done. intros [H1 H2]%Forall_app. split; [done|]. intros Ha. destruct after; [done|].
  by apply Forall_cons in H2 as [H2 _].
Qed.

(** C36: how a stream ends. Either nothing terminal is read - no chunk says so by itself, no complete block of
    the bytes does -, and then the end is what the bytes say, an unfinished last block included; or the
    first chunk that is terminal by itself or completes a terminal block decides: completed, or
    with the error it tells. Where the upstream cuts its chunks does not matter: the end is that of the
    blocks of the concatenated bytes whenever no chunk is terminal by itself (a terminal event is
    cut), and also when all chunks but the last are whole blocks of a stream with line feeds. *)
Theorem stream_end_read_from_bytes chunks blocks rest : framed (bytes chunks) blocks rest →
  (undecided chunks ∧ ErrIfIncomplete (observed chunks) = end_of_stream blocks rest ∨
   ∃ before c after v, chunks = before ++ c :: after ∧ undecided before ∧ decides before c v ∧
     ErrIfIncomplete (observed chunks) = end_of v) ∧
  ((∀ c, c ∈ chunks → is_terminal (responsesSSEBlockTerminalState c) = false) ∨
   Forall whole (removelast chunks) ∧ Forall line_feeds chunks →
   ErrIfIncomplete (observed chunks) = end_of_stream blocks rest).
Proof.
  intros Hf. split.
  - destruct (chunks_decided chunks) as [Hu|(before & c & after & v & E & Hu & Hd & b & Hb)].
    + left. split; [done|]. by eapply tracked_end; [apply no_terminal_tracks, Hu|].
    + right. exists before, c, after, v. split_and!; [done..|]. rewrite Hb. apply decided_end, Hd.
  - intros [Hc|[Hw Hlf]]; [by eapply tracked_end; [apply no_terminal_tracks|]|].
    destruct (chunks_decided chunks) as [Hu|(before & c & after & v & -> & Hu & Hd & b & Hb)].
    + by eapply tracked_end; [apply no_terminal_tracks, Hu|].
    + rewrite Hb, decided_end by apply Hd. apply whole_before in Hw as [Hw Hc].
      apply Forall_app in Hlf as [_ Hlf]. apply Forall_cons in Hlf as [Hlf _]. symmetry. by eapply whole_decides.
Qed.

End tracking.

(** ** A stream that is cut inside its last event *)

Definition no_payloads : PayloadJSON := {| json_Valid := λ _, false; json_Unmarshal := λ _ p, (p, false) |}.

(** A stream of whole events, the last without a delimiter. *)
Definition whole_stream : list string :=
  ["event: response.created" +:+ two LF LF; "event: response.failed" +:+ String LF "data: {}"].

Lemma stream_end_read_from_bytes_witness : ErrIfIncomplete (J := no_payloads) (observed (J := no_payloads) whole_stream) =
  Some (MkError "response.failed" "upstream responses stream ended with response.failed" true 502 "" 0).
Proof.
  destruct (stream_end_read_from_bytes (J := no_payloads) whole_stream
    ["event: response.created"] ("event: response.failed" +:+ String LF "data: {}")) as [_ H].
  - eapply framed_block; [vm_compute; reflexivity|]. apply framed_rest. vm_compute. reflexivity.
  - rewrite H; [vm_compute; reflexivity|]. right. split; [|repeat constructor].
    constructor; [|constructor]. eexists. eapply framed_block; [vm_compute; reflexivity|]. apply framed_rest. vm_compute. reflexivity.
Defined.

(** The same bytes cut in two ways: events without a delimiter between them, as some upstreams send
    them, are events where the chunk ends, and one event where it does not. *)
Lemma cut_decides :
  let one := "data: {" in let two_ := "event: response.completed" in
  ErrIfIncomplete (J := no_payloads) (observed (J := no_payloads) [one; two_]) = None ∧
  ErrIfIncomplete (J := no_payloads) (observed (J := no_payloads) [one +:+ two_]) = Some newResponsesStreamIncompleteError.
Proof. split; vm_compute; reflexivity. Qed.
