(* ===== verification/StreamResult.v ===== *)
(** * Forwarding a stream to the client

    Models [wrapStreamResult] of [src/sdk/cliproxy/auth/conductor_execution_service.go]: the
    goroutine that forwards the chunks of an executor, records the outcome of the stream
    and gives its slot back. Every send to the client is a choice of the environment: it
    succeeds, or the end of the request's context wins. *)
From S2P Require Import Prelude GoModel AuthTypes ModelNames GroupModels Availability Aggregate QuotaPersist ClaudeHealth Cooldown Conductor Selectors ModelAlias Execution ExecutionTrace StreamCompletion.

Record StreamChunk := MkChunk { ch_Payload : string; ch_Err : option ExecError }.

Section stream.
Context {J : PayloadJSON} {St Resp : Type} {H : Host St Resp}.

(** The variables of the goroutine, the chunks the client got and the state. *)
Record WrapState := MkWrap {
  ws_failed : bool; ws_forward : bool; ws_tracker : option responsesStreamCompletionTracker;
  ws_out : list StreamChunk; ws_st : St }.

Definition stream_failure (scope : mixedExecutionScope) (c : mixedExecutionCandidate)
    (headers : gmap string (list string)) (e : ExecError) : Result :=
  MkResult (au_ID (ca_auth c)) (xs_routeModel scope) false (xe_RetryAfter e)
    (if bool_decide (xe_Headers e = ∅) then headers else xe_Headers e) (Some (errorFromExecution e)).

Definition stream_success (scope : mixedExecutionScope) (c : mixedExecutionCandidate)
    (headers : gmap string (list string)) : Result :=
  MkResult (au_ID (ca_auth c)) (xs_routeModel scope) true None headers None.

(** One chunk; [sent] is whether the client took it before its context ended. *)
Definition forward_chunk (scope : mixedExecutionScope) (c : mixedExecutionCandidate)
    (headers : gmap string (list string)) (ws : WrapState) (input : StreamChunk * bool) : WrapState :=
  let '(chunk, sent) := input in
  let tracker := match ch_Err chunk with
    | None => if String.eqb (ch_Payload chunk) "" then ws_tracker ws
              else (λ t, Observe t (ch_Payload chunk)) <$> ws_tracker ws
    | Some _ => ws_tracker ws
    end in
  let '(failed, st) := match ch_Err chunk with
    | Some e => if ! ws_failed ws then (true, MarkResult (stream_failure scope c headers e) (ws_st ws))
                else (true, ws_st ws)
    | None => (ws_failed ws, ws_st ws)
    end in
  if ! ws_forward ws then MkWrap failed false tracker (ws_out ws) st
  else if sent then MkWrap failed true tracker (ws_out ws ++ [chunk]) st
  else MkWrap failed false tracker (ws_out ws) st.

Definition wrapStreamResult (scope : mixedExecutionScope) (c : mixedExecutionCandidate) (sourceFormat : string)
    (headers : gmap string (list string)) (chunks : list (StreamChunk * bool)) (last_sent : bool) (st : St)
    : list StreamChunk * St :=
  let ws := foldl (forward_chunk scope c headers)
    (MkWrap false true (newResponsesStreamCompletionTracker sourceFormat) [] st) chunks in
  let '(failed, out, st) :=
    match (if ! ws_failed ws then t ← ws_tracker ws; ErrIfIncomplete t else None) with
    | Some err =>
        let err := plain_exec_error err in
        (true,
         if (ws_forward ws && last_sent) then ws_out ws ++ [MkChunk "" (Some err)] else ws_out ws,
         MarkResult (stream_failure scope c headers err) (ws_st ws))
    | None => (ws_failed ws, ws_out ws, ws_st ws)
    end in
  let st := if ! failed then MarkResult (stream_success scope c headers) st else st in
  (out, releaseSlot (au_ID (ca_auth c)) st).

End stream.

(** ** Every stream is settled once *)

Section settled.
Context {J : PayloadJSON} {St Resp : Type} {H : Host St Resp}.

(** What the tracker sees, what the client gets, and whether a chunk carried an error. *)
Definition payloads (chunks : list (StreamChunk * bool)) : list string :=
  omap (λ input : StreamChunk * bool,
    match ch_Err input.1 with
    | None => if String.eqb (ch_Payload input.1) "" then None else Some (ch_Payload input.1)
    | Some _ => None
    end) chunks.

Fixpoint taken (chunks : list (StreamChunk * bool)) : list StreamChunk :=
  match chunks with
  | (chunk, true) :: rest => chunk :: taken rest
  | _ => []
  end.

Definition broke (chunks : list (StreamChunk * bool)) : bool :=
  existsb (λ input : StreamChunk * bool, bool_decide (ch_Err input.1 ≠ None)) chunks.
(** How the events of a stream end: the tracker's answer, for the formats that have one. *)
Definition cut_short (sourceFormat : string) (chunks : list (StreamChunk * bool)) : option Error :=
  match newResponsesStreamCompletionTracker sourceFormat with
  | Some _ => ErrIfIncomplete (observed (payloads chunks))
  | None => None
  end.

Implicit Types (ws : WrapState (St := St * list Event)).

Lemma forward_fold scope c headers chunks ws :
  let ws' := foldl (forward_chunk (H := logged) scope c headers) ws chunks in
  ws_tracker ws' = (λ t, foldl Observe t (payloads chunks)) <$> ws_tracker ws ∧
  ws_failed ws' = ws_failed ws || broke chunks ∧
  ws_forward ws' = ws_forward ws && forallb snd chunks ∧
  ws_out ws' = ws_out ws ++ (if ws_forward ws then taken chunks else []) ∧
  (ws_st ws').2 = (ws_st ws).2 ++ (if ! ws_failed ws && broke chunks then [EvMark (cand_id c) false] else []).
Proof.
  revert ws. induction chunks as [|[chunk sent] chunks IH]; intros [failed forward tracker out [st log]].
  { cbn. rewrite orb_false_r, andb_true_r, andb_false_r, !app_nil_r. destruct forward; rewrite ?app_nil_r.
    all: by destruct tracker. }
  cbn [foldl]. set (ws1 := forward_chunk _ _ _ _ _). destruct (IH ws1) as (-> & -> & -> & -> & ->). clear IH.
  subst ws1. unfold payloads, broke. cbn [omap list_omap existsb forallb taken snd fst]. fold (payloads chunks) (broke chunks).
  unfold forward_chunk. cbn [ws_failed ws_forward ws_tracker ws_out ws_st].
  destruct (ch_Err chunk) as [e|] eqn:He; [|destruct (String.eqb (ch_Payload chunk) "")];
    destruct forward, sent, failed; cbn; rewrite ?app_nil_r, <-?app_assoc; try done;
    destruct tracker, (broke chunks); done.
Qed.

(** C23: a stream that is forwarded to a client is settled once: whatever the chunks are and
    whenever the client goes away, exactly one outcome is recorded and then the slot is
    given back, once. The outcome is a success if no chunk carried an error and the events
    of the stream came to their end. The client gets the chunks up to the first one it did
    not take, and if it took them all, the error of a stream that was cut short. *)
Theorem stream_settled_once scope c sourceFormat headers chunks last_sent (st : St) log out st' log' :
  wrapStreamResult (H := logged) scope c sourceFormat headers chunks last_sent (st, log) = (out, (st', log')) →
  let complete := bool_decide (cut_short sourceFormat chunks = None) in
  log' = log ++ [EvMark (cand_id c) (! broke chunks && complete); EvRelease (cand_id c)] ∧
  out = taken chunks ++
    match cut_short sourceFormat chunks with
    | Some err => if (! broke chunks && forallb snd chunks && last_sent) then [MkChunk "" (Some (plain_exec_error err))] else []
    | None => []
    end.
Proof.
  unfold wrapStreamResult. set (ws0 := MkWrap _ _ _ _ _). set (ws := foldl _ ws0 chunks).
  destruct (forward_fold scope c headers chunks ws0) as (Ht & Hf & Hw & Ho & Hl). fold ws in Ht, Hf, Hw, Ho, Hl.
  destruct ws as [failed forward tracker o [st1 log1]]. cbn in Ht, Hf, Hw, Ho, Hl. subst failed forward o log1.
  assert (Hc : (t ← tracker; ErrIfIncomplete t) = cut_short sourceFormat chunks).
  { subst tracker. unfold cut_short, observed, newResponsesStreamCompletionTracker. by destruct (! _). }
  cbn [ws_failed ws_tracker ws_forward ws_out ws_st]. rewrite Hc. clear Hc Ht ws0 tracker.
  destruct (broke chunks); [|destruct (cut_short sourceFormat chunks) as [err|]]; cbn;
    intros [= <- <- <-]; rewrite <-?app_assoc, ?app_nil_r; split; try done.
  - by destruct (cut_short sourceFormat chunks); rewrite ?app_nil_r.
  - by destruct (forallb snd chunks && last_sent); rewrite ?app_nil_r.
Qed.

End settled.

(** ** A stream that the client leaves *)

Definition left_stream : list (StreamChunk * bool) :=
  [(MkChunk "event: response.created" None, true); (MkChunk "data: 1" None, false); (MkChunk "data: 2" None, true)].

Lemma stream_settled_once_witness :
  ∃ out log', out = [MkChunk "event: response.created" None] ∧ log' = [EvMark "a" false; EvRelease "a"].
Proof.
  pose (c := MkCand (account "a") "codex" "gpt-5").
  pose (s := MkMixed ["codex"] "gpt-5" two_options false ∅ [] None).
  assert (∃ out log', wrapStreamResult (J := no_payloads) (H := @logged unit string two_accounts) s c "openai-response" ∅
    left_stream true (tt, []) = (out, (tt, log'))) as (out & log' & E) by (do 2 eexists; vm_compute; reflexivity).
  apply (stream_settled_once (J := no_payloads)) in E as [-> ->]. do 2 eexists. split; vm_compute; reflexivity.
Defined.
