(* ===== verification/SharedState.v ===== *)
(** * State shared by the nodes of a cluster

    Models the Lua scripts of [src/internal/cluster/sharedstate] that share session
    bindings ([affinity.go]), mint synthetic identifiers ([idmint.go]) and take
    concurrency slots ([leases.go], [account_slots.go]), and the adapter of
    [clusterruntime/runtime.go]. Each script is a function on the database. An
    unreachable Redis is not in the model of a script: its callers see [None] then.
    The digest [HashPart] is a class. *)
From S2P Require Import Prelude GoModel Redis AuthTypes Availability Aggregate Selectors SessionSticky.

Definition KeyPrefix : string := "clirelay:".

(** [HashPart]: the digest of its parts. *)
Class Digest := HashPart : list string → string.

Section scripts.
Context {K : Keyspace} {D : Digest}.

(** ** Session affinity *)

Definition affinityKey (sessionKey : string) : string := KeyPrefix +:+ "sticky:" +:+ HashPart [sessionKey].

Record Binding := MkShared { bi_Account : string; bi_Served : Z; bi_Found : bool; bi_Created : bool }.

(** Counting a request against an existing binding: the part both scripts share. *)
Definition count_binding (db : DB) (now : Z) (key : string) (m : gmap string RVal) (account : string)
    (ttl : Z) : option Binding * DB :=
  match HINCRBY m "n" 1 with
  | None => (None, db)
  | Some (served, m) =>
      (Some (MkShared account (served - 1) true false), write_expire db now key (RHash m) ttl)
  end.

Definition affinityLookupScript (db : DB) (now : Z) (key : string) (ttl : Z) : option Binding * DB :=
  match as_hash (db_read db now key) with
  | None => (None, db)
  | Some m =>
      match m !! "a" with
      | Some (RStr account) => count_binding db now key m account ttl
      | Some (RInt _) => (None, db)
      | None => (Some (MkShared "" 0 false false), db)
      end
  end.

Definition affinityBindScript (db : DB) (now : Z) (key account : string) (ttl : Z)
    : option Binding * DB :=
  match as_hash (db_read db now key) with
  | None => (None, db)
  | Some m =>
      match m !! "a" with
      | Some (RStr winner) => count_binding db now key m winner ttl
      | Some (RInt _) => (None, db)
      | None =>
          (Some (MkShared account 0 true true),
           write_expire db now key (RHash (<["n" := RInt 1]> (<["a" := RStr account]> m))) ttl)
      end
  end.

Definition affinityReleaseScript (db : DB) (now : Z) (key account : string) : DB :=
  match as_hash (db_read db now key) with
  | Some m => if bool_decide (m !! "a" = Some (RStr account)) then db_write db now key RNone else db
  | None => db
  end.

(** [affinityAdapter]: the store as the selector sees it. *)
Definition to_binding (b : Binding) : SessionAffinityBinding :=
  MkAffinity (bi_Account b) (bi_Served b) (bi_Found b).

Definition redis_affinity : AffinityStore DB := {|
  Lookup := λ key ttl now db,
    let '(r, db) := affinityLookupScript db (unix_milli now) (affinityKey key) (milliseconds ttl) in
    (to_binding <$> r, db);
  Bind := λ key ref ttl now db,
    let '(r, db) := affinityBindScript db (unix_milli now) (affinityKey key) ref (milliseconds ttl) in
    (to_binding <$> r, db);
  Release := λ key ref now db, affinityReleaseScript db (unix_milli now) (affinityKey key) ref
|}.
#[export] Existing Instance redis_affinity.

(** ** Synthetic identifiers *)

Record MintedID := MkMinted { mi_id : string; mi_ttl : Z; mi_minted : bool }.

Definition mintIDScript (db : DB) (now : Z) (key candidate : string) (ttl : Z) (sliding : bool)
    : option MintedID * DB :=
  match db_read db now key with
  | RNone =>
      (Some (MkMinted candidate ttl true), write_expire db now key (RText candidate) ttl)
  | RText id =>
      if sliding then (Some (MkMinted id ttl false), db_pexpire db now key ttl)
      else (Some (MkMinted id (db_pttl db now key) false), db)
  | _ => (None, db)
  end.

Definition mintKey (namespace key : string) : string :=
  KeyPrefix +:+ "sid:" +:+ namespace +:+ ":" +:+ HashPart [namespace; key].

Definition MintID (db : DB) (now : Time) (namespace key candidate : string) (ttl : Duration)
    (sliding : bool) : option MintedID * DB :=
  match mintIDScript db (unix_milli now) (mintKey namespace key) candidate (milliseconds ttl) sliding with
  | (None, db) => (None, db)
  | (Some out, db) =>
      if String.eqb (mi_id out) "" then (None, db)
      else
        let left := mi_ttl out * Millisecond in
        (Some (MkMinted (mi_id out) (if (left <=? 0) || (ttl <? left) then ttl else left) (mi_minted out)), db)
  end.

(** ** Concurrency slots *)

(** [acquireLeaseScript]: {taken, members held after the call}. *)
Definition acquireLeaseScript (db : DB) (redis_now now : Z) (key : string) (limit : Z) (member : string)
    (expiry setTTL : Z) : option (bool * Z) * DB :=
  match as_zset (db_read db redis_now key) with
  | None => (None, db)
  | Some m =>
      let m := ZREMRANGEBYSCORE m now in
      let db := db_write db redis_now key (of_zset m) in
      let held := ZCARD m in
      if limit <=? held then (Some (false, held), db)
      else (Some (true, held + 1), write_expire db redis_now key (of_zset (ZADD m expiry member)) setTTL)
  end.

Definition accountSlotKey (authID : string) : string :=
  KeyPrefix +:+ "acct:{" +:+ HashPart [authID] +:+ "}:conc".

End scripts.

(** ** Clocks *)

Lemma unix_milli_mono t u : t ≤ u → unix_milli t ≤ unix_milli u.
Proof. unfold unix_milli. intros. apply Z.div_le_mono; lia. Qed.

(** A TTL counted in milliseconds loses less than two of them. *)
Lemma milli_within now u ttl :
  0 ≤ ttl → u + 2 * Millisecond ≤ now + ttl → unix_milli u < unix_milli now + milliseconds ttl.
Proof.
  unfold unix_milli, milliseconds, Millisecond. intros Ht H. rewrite Z.quot_div_nonneg by lia.
  set (a := u - time_Unix 0). set (b := now - time_Unix 0).
  pose proof (Z.mul_div_le a 1000000). pose proof (Z.mul_succ_div_gt b 1000000).
  pose proof (Z.mul_succ_div_gt ttl 1000000). lia.
Qed.

(** ** The bindings *)

Section affinity_lemmas.
Context {K : Keyspace} {D : Digest}.

(** The account a binding names. *)
Definition bound_account (db : DB) (now : Z) (key : string) : option string :=
  match as_hash (db_read db now key) with
  | Some m => match m !! "a" with Some (RStr account) => Some account | _ => None end
  | None => None
  end.

Lemma HINCRBY_ne m f g d z m' : HINCRBY m f d = Some (z, m') → g ≠ f → m' !! g = m !! g.
Proof.
  unfold HINCRBY. intros H Hne. destruct (m !! f) as [[|]|]; simplify_eq; by rewrite lookup_insert_ne.
Qed.

(** What both scripts do with an existing binding. *)
Lemma count_binding_spec db now key m account ttl b db' :
  count_binding db now key m account ttl = (Some b, db') → m !! "a" = Some (RStr account) →
  bi_Account b = account ∧ bi_Found b = true ∧
  ∀ u, now ≤ u → u < now + ttl → bound_account db' u key = Some account.
Proof.
  unfold count_binding. intros H Hm. destruct (HINCRBY m "n" 1) as [[z m']|] eqn:E; [|done].
  inversion H; subst. split; [done|]. split; [done|]. intros u Hu Hlt. unfold bound_account.
  rewrite read_write_expire, (proj2 (Z.ltb_lt _ _) Hlt) by done. simpl.
  by rewrite (HINCRBY_ne _ _ "a" _ _ _ E), Hm.
Qed.

Lemma affinityLookupScript_spec db now key ttl b db' :
  affinityLookupScript db now key ttl = (Some b, db') →
  if bi_Found b
  then bound_account db now key = Some (bi_Account b) ∧
       ∀ u, now ≤ u → u < now + ttl → bound_account db' u key = Some (bi_Account b)
  else bound_account db now key = None ∧ ∀ u, now ≤ u → bound_account db' u key = None.
Proof.
  unfold affinityLookupScript. intros H. unfold bound_account at 1 3.
  destruct (as_hash (db_read db now key)) as [m|] eqn:Em; [|done].
  destruct (m !! "a") as [[a|]|] eqn:Ea; [|done|].
  - destruct (count_binding_spec _ _ _ _ _ _ _ _ H Ea) as (<- & -> & Hl). done.
  - inversion H; subst. simpl. split; [done|]. intros u Hu. unfold bound_account.
    destruct (read_later db' now u key Hu) as [->| ->]; [by rewrite Em, Ea|done].
Qed.

Lemma affinityBindScript_spec db now key account ttl b db' :
  affinityBindScript db now key account ttl = (Some b, db') →
  bi_Account b = default account (bound_account db now key) ∧ bi_Found b = true ∧
  ∀ u, now ≤ u → u < now + ttl → bound_account db' u key = Some (bi_Account b).
Proof.
  unfold affinityBindScript. intros H. unfold bound_account at 1.
  destruct (as_hash (db_read db now key)) as [m|] eqn:Em; [|done].
  destruct (m !! "a") as [[a|]|] eqn:Ea; [|done|].
  - destruct (count_binding_spec _ _ _ _ _ _ _ _ H Ea) as (<- & -> & Hl). done.
  - inversion H; subst. simpl. split; [done|]. split; [done|]. intros u Hu Hlt. unfold bound_account.
    rewrite read_write_expire, (proj2 (Z.ltb_lt _ _) Hlt) by done. simpl.
    by rewrite lookup_insert_ne, lookup_insert_eq.
Qed.

(** The cluster's bindings keep the promises the selector relies on. *)
#[export] Program Instance redis_affinity_ok : AffinityStoreOK DB := {|
  bound_to := λ db key u, bound_account db (unix_milli u) (affinityKey key)
|}.
Next Obligation.
  intros key ttl now db b db' Httl H. unfold Lookup, redis_affinity in H.
  destruct (affinityLookupScript _ _ _ _) as [[r|] d] eqn:E; [|done]. inversion H; subst. simpl.
  pose proof (affinityLookupScript_spec _ _ _ _ _ _ E) as Hs. destruct (bi_Found r); simpl.
  - destruct Hs as [? Hs]. split; [done|]. intros u Hu Hu'. apply Hs; [by apply unix_milli_mono|].
    by apply milli_within.
  - destruct Hs as [? Hs]. split; [done|]. intros u Hu. apply Hs. by apply unix_milli_mono.
Qed.
Next Obligation.
  intros key ref ttl now db b db' Httl H. unfold Bind, redis_affinity in H.
  destruct (affinityBindScript _ _ _ _ _) as [[r|] d] eqn:E; [|done]. inversion H; subst. simpl.
  destruct (affinityBindScript_spec _ _ _ _ _ _ _ E) as (? & _ & Hs). split; [done|].
  intros u Hu Hu'. apply Hs; [by apply unix_milli_mono|]. by apply milli_within.
Qed.

End affinity_lemmas.

(** ** Requests of one session across the cluster *)

Section affinity_counts.
Context {K : Keyspace}.

Inductive AffinityOp := OpLookup | OpBind (account : string).

Definition affinity_op (db : DB) (now : Z) (key : string) (op : AffinityOp) (ttl : Z)
    : option Binding * DB :=
  match op with
  | OpLookup => affinityLookupScript db now key ttl
  | OpBind account => affinityBindScript db now key account ttl
  end.

(** Requests of any nodes, in the order Redis serves them. *)
Fixpoint affinity_run (db : DB) (key : string) (ttl : Z) (ops : list (Z * AffinityOp))
    : list (option Binding) :=
  match ops with
  | [] => []
  | (now, op) :: ops => let '(b, db) := affinity_op db now key op ttl in b :: affinity_run db key ttl ops
  end.

(** Each request comes before the binding, renewed by the last one, expires. *)
Fixpoint kept_alive (now ttl : Z) (times : list Z) : Prop :=
  match times with
  | [] => True
  | u :: times => now ≤ u < now + ttl ∧ kept_alive u ttl times
  end.

Lemma affinity_op_bound db now key op ttl m account n :
  db_read db now key = RHash m → m !! "a" = Some (RStr account) → m !! "n" = Some (RInt n) →
  ∃ m' db', affinity_op db now key op ttl = (Some (MkShared account n true false), db') ∧
    m' !! "a" = Some (RStr account) ∧ m' !! "n" = Some (RInt (n + 1)) ∧
    ∀ u, now ≤ u < now + ttl → db_read db' u key = RHash m'.
Proof.
  intros Hr Ha Hn.
  assert (Hc : affinity_op db now key op ttl = count_binding db now key m account ttl).
  { destruct op; simpl; unfold affinityLookupScript, affinityBindScript; by rewrite Hr; simpl; rewrite Ha. }
  rewrite Hc. unfold count_binding, HINCRBY. rewrite Hn. exists (<["n":=RInt (n + 1)]> m). eexists.
  replace (n + 1 - 1) with n by lia. split; [done|].
  rewrite lookup_insert_ne, lookup_insert_eq by done. do 2 (split; [done|]).
  intros u Hu. rewrite read_write_expire by lia. by rewrite (proj2 (Z.ltb_lt _ _) (proj2 Hu)).
Qed.

Lemma affinity_run_bound db now key ttl ops m account n :
  (∀ u, now ≤ u < now + ttl → db_read db u key = RHash m) →
  m !! "a" = Some (RStr account) → m !! "n" = Some (RInt n) → kept_alive now ttl ops.*1 →
  affinity_run db key ttl ops =
    (λ i, Some (MkShared account (n + Z.of_nat i) true false)) <$> seq 0 (length ops).
Proof.
  revert db now m n. induction ops as [|[u op] ops IH]; intros db now m n Hr Ha Hn Hk; [done|].
  destruct Hk as [Hu Hk].
  destruct (affinity_op_bound db u key op ttl m account n) as (m' & db' & E & Ha' & Hn' & Hr'); auto.
  cbn [affinity_run]. rewrite E. cbn [length seq fmap list_fmap]. f_equal.
  { do 2 f_equal. lia. }
  rewrite (IH db' u m' (n + 1) Hr' Ha' Hn' Hk). rewrite <- fmap_S_seq, <- list_fmap_compose.
  apply list_fmap_ext. intros i ? _. simpl. do 2 f_equal. lia.
Qed.

(** The shared count of a binding is exact: once a session is bound, whatever
    nodes look it up or try to bind it, in whatever order, as long as no pause
    reaches the TTL, each is answered the account of the first, and the k-th of them
    that k requests were served before it: none is lost and none counted twice. *)
Lemma shared_binding_counts_all db now key account ttl ops :
  db_read db now key = RNone → kept_alive now ttl ops.*1 →
  affinity_run db key ttl ((now, OpBind account) :: ops) =
    Some (MkShared account 0 true true) ::
    ((λ i, Some (MkShared account (Z.of_nat i) true false)) <$> seq 1 (length ops)).
Proof.
  intros Hn Hk. cbn [affinity_run affinity_op]. unfold affinityBindScript. rewrite Hn. simpl. f_equal.
  rewrite (affinity_run_bound _ now key ttl ops
    (<["n" := RInt 1]> (<["a" := RStr account]> ∅)) account 1); [|..|done].
  - rewrite <- fmap_S_seq, <- list_fmap_compose. apply list_fmap_ext. intros i ? _. simpl. do 2 f_equal. lia.
  - intros u Hu. rewrite read_write_expire by lia. by rewrite (proj2 (Z.ltb_lt _ _) (proj2 Hu)).
  - by rewrite lookup_insert_ne, lookup_insert_eq.
  - by rewrite lookup_insert_eq.
Qed.

End affinity_counts.

Lemma shared_binding_counts_all_witness :
  affinity_run (K:=list_keyspace) db_empty "k" 100
    [(5, OpBind "acct-a"); (60, OpBind "acct-b"); (150, OpLookup)] =
  [Some (MkShared "acct-a" 0 true true); Some (MkShared "acct-a" 1 true false);
   Some (MkShared "acct-a" 2 true false)].
Proof.
  apply (shared_binding_counts_all (K:=list_keyspace) db_empty 5 "k" "acct-a" 100 [(60, OpBind "acct-b"); (150, OpLookup)]).
  - reflexivity.
  - simpl. lia.
Defined.

(** ** Synthetic identifiers *)

Section mint_lemmas.
Context {K : Keyspace} {D : Digest}.

(** The identifier the cluster has for a key. *)
Definition minted_id (db : DB) (u : Z) (key : string) : option string :=
  match db_read db u key with RText id => Some id | _ => None end.

(** Calls of any nodes, in the order Redis serves them: time, candidate, sliding. *)
Fixpoint mint_run (db : DB) (namespace key : string) (ttl : Duration)
    (calls : list (Time * (string * bool))) : list (option MintedID) :=
  match calls with
  | [] => []
  | (now, (candidate, sliding)) :: calls =>
      let '(r, db) := MintID db now namespace key candidate ttl sliding in
      r :: mint_run db namespace key ttl calls
  end.

Lemma mintIDScript_found db now key candidate ttl sliding id :
  minted_id db now key = Some id →
  ∃ left db', mintIDScript db now key candidate ttl sliding = (Some (MkMinted id left false), db') ∧
    ∀ u e, now ≤ u < e → e ≤ now + ttl → (∀ v, now ≤ v < e → minted_id db v key = Some id) →
      minted_id db' u key = Some id.
Proof.
  intros Hm. unfold mintIDScript. unfold minted_id in Hm. destruct (db_read db now key) eqn:E; try done.
  inversion Hm; subst. destruct sliding; eexists _, _; (split; [done|]); intros u e Hu He Hv.
  - unfold minted_id. rewrite read_pexpire, (proj2 (Z.ltb_lt _ _)) by lia. by rewrite E.
  - by apply Hv.
Qed.

Lemma mint_run_found db now e namespace key ttl calls id :
  id ≠ "" → (∀ u, now ≤ u < e → minted_id db u (mintKey namespace key) = Some id) →
  Sorted Z.le (now :: (unix_milli <$> calls.*1)) →
  (∀ t, t ∈ calls.*1 → unix_milli t < e ∧ e ≤ unix_milli t + milliseconds ttl) →
  Forall (λ r, ∃ left, r = Some (MkMinted id left false)) (mint_run db namespace key ttl calls).
Proof.
  intros Hid. revert db now. induction calls as [|[t [c sl]] calls IH]; intros db now Hm Hs Hin; [constructor|].
  apply Sorted_inv in Hs as [Hs Hle]. cbn in Hle. apply HdRel_inv in Hle.
  destruct (Hin t) as [Ht He]; [left|]. cbn [mint_run]. unfold MintID.
  destruct (mintIDScript_found db (unix_milli t) (mintKey namespace key) c (milliseconds ttl) sl id)
    as (left & db' & -> & Hv); [apply Hm; lia|]. simpl.
  rewrite (proj2 (String.eqb_neq _ _) Hid). constructor; [eauto|].
  apply (IH db' (unix_milli t)); [|done|].
  - intros u Hu. apply (Hv u e); [lia|lia|]. intros v Hv'. apply Hm. lia.
  - intros t' Hin'. apply Hin. by right.
Qed.

(** A synthetic identifier is minted once for the cluster: of the calls for one
    key, on whatever nodes and with whatever candidates, the first mints its candidate
    and every later one within the TTL is answered that identifier, whether or not
    reading extends its life. *)
Lemma first_candidate_wins db now namespace key candidate sliding ttl calls :
  db_read db (unix_milli now) (mintKey namespace key) = RNone → candidate ≠ "" → 0 ≤ ttl →
  Sorted Z.le (now :: calls.*1) →
  (∀ t, t ∈ calls.*1 → t + 2 * Millisecond ≤ now + ttl) →
  ∃ first rest,
    mint_run db namespace key ttl ((now, (candidate, sliding)) :: calls) = Some first :: rest ∧
    mi_id first = candidate ∧ mi_minted first = true ∧
    Forall (λ r, ∃ left, r = Some (MkMinted candidate left false)) rest.
Proof.
  intros Hn Hc Httl Hs Hin. cbn [mint_run]. unfold MintID at 1. unfold mintIDScript. rewrite Hn. simpl.
  rewrite (proj2 (String.eqb_neq _ _) Hc). eexists _, _. do 3 (split; [done|]).
  apply (mint_run_found _ (unix_milli now) (unix_milli now + milliseconds ttl)); [done|..].
  - intros u Hu. unfold minted_id. rewrite read_write_expire by lia.
    by rewrite (proj2 (Z.ltb_lt _ _) (proj2 Hu)).
  - change (Sorted Z.le (unix_milli <$> (now :: calls.*1))). clear -Hs.
    induction Hs as [|t l Hs IH Hh]; [constructor|]. cbn. constructor; [done|].
    destruct Hh; constructor. by apply unix_milli_mono.
  - intros t Ht. split; [by apply milli_within; [|apply Hin]|].
    apply Sorted_StronglySorted, StronglySorted_inv in Hs as [_ Hs]; [|intros ?; lia].
    rewrite Forall_forall in Hs. pose proof (unix_milli_mono _ _ (Hs t Ht)). lia.
Qed.

(** A node may cache an identifier for as long as it is told: when an existing
    identifier is answered with a life that PTTL or an extension gave, every node that
    asks before that life is over is still answered the same identifier. *)
Lemma cached_id_outlived_by_shared db now namespace key candidate sliding ttl r db' u :
  MintID db now namespace key candidate ttl sliding = (Some r, db') →
  0 ≤ ttl → (sliding = false → mi_minted r = false → 0 < db_pttl db (unix_milli now) (mintKey namespace key)) →
  now ≤ u → u + 2 * Millisecond ≤ now + mi_ttl r →
  minted_id db' (unix_milli u) (mintKey namespace key) = Some (mi_id r).
Proof.
  intros H Httl Hp Hu Hend. unfold MintID in H.
  destruct (mintIDScript _ _ _ _ _ _) as [[out|] d] eqn:E; [|done].
  destruct (String.eqb (mi_id out) ""); [done|]. inversion H; subst. simpl in *. clear H.
  assert (Hle : unix_milli now ≤ unix_milli u) by by apply unix_milli_mono.
  assert (Hlive : 0 < mi_ttl out ∨ mi_ttl out = milliseconds ttl →
    unix_milli u < unix_milli now + mi_ttl out).
  { intros Hpos. set (left := mi_ttl out) in *.
    destruct ((left * Millisecond <=? 0) || (ttl <? left * Millisecond))%bool eqn:Eb.
    - pose proof (milli_within now u ttl Httl Hend).
      destruct Hpos as [Hpos| ->]; [|done].
      apply orb_true_iff in Eb. unfold milliseconds, Millisecond in *.
      rewrite Z.quot_div_nonneg in * by lia. pose proof (Z.mul_div_le ttl 1000000). 
      destruct Eb; zbool; nia.
    - apply orb_false_iff in Eb as [Eb _]. zbool.
      pose proof (milli_within now u (left * Millisecond) ltac:(lia) Hend) as Hm.
      unfold milliseconds, Millisecond in Hm. rewrite Z.quot_mul in Hm; lia. }
  unfold mintIDScript in E. destruct (db_read db (unix_milli now) (mintKey namespace key)) eqn:Er; try done.
  - inversion E; subst. simpl in *. unfold minted_id. rewrite read_write_expire by done.
    rewrite (proj2 (Z.ltb_lt _ _)); [done|]. apply Hlive; auto.
  - destruct sliding; inversion E; subst; simpl in *; unfold minted_id.
    + rewrite read_pexpire by done. rewrite (proj2 (Z.ltb_lt _ _)); [by rewrite Er|]. apply Hlive; auto.
    + specialize (Hp eq_refl eq_refl). rewrite (read_pttl db' (unix_milli now) (unix_milli u)) by lia.
      rewrite (proj2 (Z.ltb_lt _ _)); [by rewrite Er|]. apply Hlive; auto.
Qed.

End mint_lemmas.

(** ** Concrete runs *)

Definition joined : Digest := λ parts, String.concat ":" parts.

#[local] Existing Instances list_keyspace joined listing_order constant_exp2 plain_ref.

Lemma first_candidate_wins_witness :
  ∃ first rest,
    mint_run db_empty "codex" "k" (10 * Millisecond)
      [(0, ("id-1", false)); (Millisecond, ("id-2", true)); (3 * Millisecond, ("id-3", false))] =
      Some first :: rest ∧ mi_id first = "id-1".
Proof.
  destruct (first_candidate_wins db_empty 0 "codex" "k" "id-1" false (10 * Millisecond)
    [(Millisecond, ("id-2", true)); (3 * Millisecond, ("id-3", false))])
    as (first & rest & H & H' & _).
  - reflexivity.
  - discriminate.
  - unfold Millisecond. lia.
  - unfold Millisecond. simpl. repeat constructor; lia.
  - intros t Ht. unfold Millisecond in *. simpl in Ht.
    apply list_elem_of_In in Ht. destruct Ht as [<-|[<-|[]]]; lia.
  - exists first, rest. split; [exact H|exact H'].
Defined.

Lemma cached_id_outlived_by_shared_witness :
  minted_id (MintID (MintID db_empty 0 "codex" "k" "id-1" (10 * Millisecond) false).2
      Millisecond "codex" "k" "id-2" (10 * Millisecond) false).2
    (unix_milli (8 * Millisecond)) (mintKey "codex" "k") = Some "id-1".
Proof.
  refine (cached_id_outlived_by_shared
    (MintID db_empty 0 "codex" "k" "id-1" (10 * Millisecond) false).2 Millisecond "codex" "k" "id-2" false
    (10 * Millisecond) (MkMinted "id-1" (9 * Millisecond) false) _ (8 * Millisecond) _ _ _ _ _).
  - vm_compute. reflexivity.
  - unfold Millisecond. lia.
  - intros _ _. vm_compute. reflexivity.
  - unfold Millisecond. lia.
  - unfold Millisecond. simpl. lia.
Defined.

(** Two nodes with different tables of their own and one database. *)
Definition node_one : StickyCall := sticky_request.
Definition node_two : StickyCall :=
  MkCall (MkEnvP false (1000 + Second) (1000 + Second) (λ _, 0) None) "codex" "gpt-5" sticky_options
    light_and_heavy.

Definition session_key : string := call_key node_one.

(** Node two has bound the conversation to another account while the store was out of reach. *)
Definition table_one : SessionStickySelector FillFirstSelector := sticky_empty.
Definition table_two : SessionStickySelector FillFirstSelector := bind session_key "a" 1000 sticky_empty.

Definition began (c : StickyCall) (s : SessionStickySelector FillFirstSelector) (db : DB) :=
  sticky_begin (W := DB) c s None db.
Definition bound (c : StickyCall) (now : Time) (picked : Auth) (l : list Auth) (s : SessionStickySelector FillFirstSelector) (db : DB) :=
  bindShared (W := DB) (ca_env c) now session_key picked l s None db.

Definition account_a : Auth := auth_new "a" "codex" ∅ ∅.
Definition account_b : Auth := auth_new "b" "codex" {["selection_weight" := "3"]} ∅.

Lemma node_candidates c : c = node_one ∨ c = node_two →
  candidates (ca_env c) (ca_provider c) (ca_model c) (ca_auths c) = [account_a; account_b].
Proof. intros [-> | ->]; vm_compute; reflexivity. Qed.

Lemma node_session c : c = node_one ∨ c = node_two → session_call session_key ["a"; "b"]%string c.
Proof.
  intros Hc. split; [by destruct Hc as [-> | ->]| |by destruct Hc as [-> | ->]|by destruct Hc as [-> | ->]].
  intros id. rewrite (node_candidates c Hc). split.
  - intros Hid. apply elem_of_cons in Hid as [->|Hid]; [exists account_a; split; [left|done]|].
    apply list_elem_of_singleton in Hid as ->. exists account_b. split; [right; left|done].
  - intros (a & Ha & <-). apply elem_of_cons in Ha as [->|Ha]; [left|]. apply list_elem_of_singleton in Ha as ->. right; left.
Qed.

Lemma plain_names : names_ok ["a"; "b"]%string.
Proof.
  split; [intros id id' _ _; apply str_app_inv_l|]. intros id Hid. split; [done|].
  apply elem_of_cons in Hid as [->|Hid]; [done|]. by apply list_elem_of_singleton in Hid as ->.
Qed.

Definition db_one : DB := (began node_one table_one db_empty).2.
Definition db_two : DB := (began node_two table_two db_one).2.
Definition db_three : DB := (bound node_two (1000 + 2 * Second) account_a [account_a; account_b] table_two db_two).2.
Definition db_four : DB := (bound node_one (1000 + 3 * Second) account_b [account_a; account_b] table_one db_three).2.

(** Both nodes find nothing; node one picks account b, node two carries its account a into the store
    first, and node one joins it. *)
Lemma raced : rtc (race_step (S := FillFirstSelector) (W := DB) session_key ["a"; "b"]%string) (MkRace db_empty 1000 [] [])
  (MkRace db_four (1000 + 3 * Second) [] [inr account_a; inr account_a]).
Proof.
  eapply rtc_l.
  { eapply (race_begin session_key _ (MkRace db_empty 1000 [] []) node_one table_one None (inr (account_b, [account_a; account_b])));
      [apply node_session; by left|split; vm_compute; discriminate|vm_compute; discriminate|vm_compute; reflexivity]. }
  eapply rtc_l.
  { eapply (race_begin session_key _ (MkRace db_one 1000 [(node_one, account_b, [account_a; account_b])] []) node_two table_two None
        (inr (account_a, [account_a; account_b])));
      [apply node_session; by right|split; vm_compute; discriminate|vm_compute; discriminate|vm_compute; reflexivity]. }
  eapply rtc_l.
  { eapply (race_bind session_key _ (MkRace db_two (1000 + Second) [(node_two, account_a, [account_a; account_b]); (node_one, account_b, [account_a; account_b])] [])
        [] node_two account_a _ _ (1000 + 2 * Second) table_two None);
      [reflexivity|split; vm_compute; discriminate|vm_compute; discriminate|vm_compute; reflexivity]. }
  eapply rtc_l; [|apply rtc_refl].
  eapply (race_bind session_key _ (MkRace db_three (1000 + 2 * Second) [(node_one, account_b, [account_a; account_b])] [inr account_a])
        [] node_one account_b _ _ (1000 + 3 * Second) table_one None);
      [reflexivity|split; vm_compute; discriminate|vm_compute; discriminate|vm_compute; reflexivity].
Qed.

Lemma sessions_agree_witness : ∃ g a a',
  rtc (race_step (S := FillFirstSelector) (W := DB) session_key ["a"; "b"]%string) (MkRace db_empty 1000 [] []) g ∧
  ra_answers g = [inr a; inr a'] ∧ au_ID a = au_ID a'.
Proof.
  exists (MkRace db_four (1000 + 3 * Second) [] [inr account_a; inr account_a]), account_a, account_a.
  split; [apply raced|]. split; [reflexivity|].
  apply (sessions_agree (S := FillFirstSelector) (W := DB) session_key ["a"; "b"]%string db_empty 1000
    (MkRace db_four (1000 + 3 * Second) [] [inr account_a; inr account_a]) account_a account_a).
  - apply _.
  - discriminate.
  - apply plain_names.
  - intros u Hu. vm_compute. reflexivity.
  - apply raced.
  - left.
  - right. left.
Defined.
