(* ===== verification/Leases.v ===== *)
(** * Concurrency slots of the cluster

    Models [src/internal/cluster/sharedstate/leases.go] and [account_slots.go]: slots
    on an account are leases, members of a sorted set scored by the time they expire;
    the node that holds one renews it. [leaseKeeper] is a goroutine beside the
    requests, so a node is a state machine whose steps are the critical sections, the
    Redis calls and the moments between them.

    The first part shows that the sorted sets are leases ([LeaseStoreOK]); the state
    machine is proved against that interface only. Every node reads one clock, which
    the package documentation asks of the cluster; the arguments of a script may have
    been computed earlier than it runs. A pipeline whose call has returned does not
    run any more. *)
From S2P Require Import Prelude GoModel Redis SharedState.

(** ** Leases, as the keeper needs them *)

Record leaseRef := MkRef { lr_key : string; lr_member : string }.

#[export] Instance leaseRef_eq_dec : EqDecision leaseRef.
Proof. solve_decision. Defined.

#[export] Program Instance leaseRef_countable : Countable leaseRef :=
  inj_countable' (λ r, (lr_key r, lr_member r)) (λ p, MkRef p.1 p.2) _.
Next Obligation. by intros []. Qed.

Class LeaseStore (W : Type) := {
  (** [acquireLease] with its time argument, run at a time. *)
  acquireLease : W → Time → Time → string → string → Z → option (bool * Z) * W;
  (** One ZREM of a removal pipeline. *)
  remove_lease : W → Time → leaseRef → W;
  (** The transaction of [renew]. *)
  renew_leases : W → Time → list leaseRef → Z → W;
  (** The live leases on a key and the time they expire (ms). *)
  leases : W → Time → string → gmap string Z
}.

(** What the database has at a time: [Some] of the expiry of a live lease. *)
Definition live_until {W} {LS : LeaseStore W} (w : W) (now : Time) (r : leaseRef) : option Z :=
  leases w now (lr_key r) !! lr_member r.

Definition live_expiry (now : Time) (expiry : Z) : option Z :=
  if unix_milli now <? expiry then Some expiry else None.

Class LeaseStoreOK (W : Type) (leaseTTL : Duration) {LS : LeaseStore W} := {
  lease_wf : W → Time → Prop;
  lease_wf_later : ∀ w now u, lease_wf w now → now ≤ u → lease_wf w u;
  (** Without operations leases only expire, each at its time. *)
  leases_later : ∀ w now u r, lease_wf w now → now ≤ u →
    live_until w u r = live_until w now r ≫= live_expiry u;
  leases_bound : ∀ w now r e, lease_wf w now → live_until w now r = Some e →
    unix_milli now < e ≤ unix_milli (now + leaseTTL);
  remove_ok : ∀ w now r, lease_wf w now → lease_wf (remove_lease w now r) now ∧
    ∀ r', live_until (remove_lease w now r) now r' = if decide (r' = r) then None else live_until w now r';
  renew_ok : ∀ w now refs e, lease_wf w now → e ≤ unix_milli (now + leaseTTL) →
    lease_wf (renew_leases w now refs e) now ∧
    ∀ r', live_until (renew_leases w now refs e) now r' =
      if decide (r' ∈ refs) then live_expiry now e else live_until w now r';
  acquire_ok : ∀ w now t key member limit reply w', lease_wf w now → t ≤ now →
    acquireLease w now t key member limit = (reply, w') →
    lease_wf w' now ∧
    match reply with
    | Some (true, _) =>
        Z.of_nat (size (leases w now key)) < limit ∧
        ∀ r', live_until w' now r' =
          if decide (r' = MkRef key member) then live_expiry now (unix_milli (t + leaseTTL))
          else live_until w now r'
    | _ => ∀ r', live_until w' now r' = live_until w now r'
    end
}.

(** ** The sorted sets are leases *)

Section redis.
Context {K : Keyspace} (leaseTTL : Duration).

Definition setTTL : Duration := 2 * leaseTTL.

(** [ZREM] *)
Definition zrem (db : DB) (now : Z) (key member : string) : DB :=
  match as_zset (db_read db now key) with
  | Some m => db_write db now key (of_zset (ZREM m member))
  | None => db
  end.

(** [ZADD] and [PEXPIRE] of one lease. *)
Definition renew_one (now expiry : Z) (db : DB) (r : leaseRef) : DB :=
  match as_zset (db_read db now (lr_key r)) with
  | Some m =>
      write_expire db now (lr_key r) (of_zset (ZADD m expiry (lr_member r))) (milliseconds setTTL)
  | None => db
  end.

Definition members (db : DB) (u : Z) (key : string) : gmap string Z :=
  default ∅ (as_zset (db_read db u key)).

Definition redis_leases : LeaseStore DB := {|
  acquireLease := λ db now t key member limit,
    acquireLeaseScript db (unix_milli now) (unix_milli t) key limit member
      (unix_milli (time_Add t leaseTTL)) (milliseconds setTTL);
  remove_lease := λ db now r, zrem db (unix_milli now) (lr_key r) (lr_member r);
  renew_leases := λ db now refs expiry, foldl (renew_one (unix_milli now) expiry) db refs;
  leases := λ db now key, filter (λ kv, unix_milli now < kv.2) (members db (unix_milli now) key)
|}.
#[export] Existing Instance redis_leases.

(** Every lease key holds a sorted set, or nothing, whose scores lie at most one TTL
    ahead, and which does not vanish before the leases in it. *)
Record zset_ok (db : DB) (now : Z) (bound : Z) (key : string) : Prop := {
  zok_type : is_Some (as_zset (db_read db now key));
  zok_score : ∀ m s, members db now key !! m = Some s → s ≤ bound;
  zok_outlives : ∀ u, now ≤ u → members db u key = members db now key ∨
    members db u key = ∅ ∧ ∀ m s, members db now key !! m = Some s → s ≤ u
}.

Lemma zset_type_later db now u key :
  now ≤ u → is_Some (as_zset (db_read db now key)) → is_Some (as_zset (db_read db u key)).
Proof. intros Hu Hs. destruct (read_later db now u key Hu) as [->| ->]; [done|by exists ∅]. Qed.

Lemma zset_ok_later db now u bound bound' key :
  zset_ok db now bound key → now ≤ u → bound ≤ bound' → zset_ok db u bound' key.
Proof.
  intros [Ht Hs Ho] Hu Hb. split.
  - by apply (zset_type_later db now).
  - intros m s Hm. destruct (Ho u Hu) as [E|[E _]]; rewrite E in Hm; [|done].
    etrans; [by eapply Hs|done].
  - intros v Hv. destruct (Ho u Hu) as [E|[E Hall]].
    + rewrite E. apply Ho. lia.
    + left. destruct (read_later db u v key Hv) as [Hr|Hr]; unfold members in *; rewrite Hr in *; [done|].
      by rewrite E.
Qed.

Lemma members_write db now u key m :
  now ≤ u → is_Some (as_zset (db_read db now key)) →
  members (db_write db now key (of_zset m)) u key =
    if robj_absent (db_read db now key) then m
    else if robj_absent (db_read db u key) then ∅ else m.
Proof.
  intros Hu Ht. unfold members. rewrite read_write by done.
  destruct (robj_absent _); [by rewrite as_of_zset|]. destruct (robj_absent _); [done|]. by rewrite as_of_zset.
Qed.

Lemma members_write_ne db now u key key' o :
  key ≠ key' → members (db_write db now key o) u key' = members db u key'.
Proof. intros. unfold members. by rewrite read_write_ne. Qed.

Lemma members_type db u key m : as_zset (db_read db u key) = Some m → members db u key = m.
Proof. unfold members. by intros ->. Qed.

(** Dropping members. *)
Lemma zset_write_sub db now bound key m :
  zset_ok db now bound key → m ⊆ members db now key →
  zset_ok (db_write db now key (of_zset m)) now bound key ∧
  members (db_write db now key (of_zset m)) now key = m.
Proof.
  intros [Ht Hs Ho] Hm.
  assert (Hnow : members (db_write db now key (of_zset m)) now key = m).
  { unfold members. by rewrite read_write_now, as_of_zset. }
  split; [|done]. split.
  - rewrite read_write_now, as_of_zset. by eexists.
  - intros x s Hx. rewrite Hnow in Hx. eapply Hs. by eapply lookup_weaken.
  - intros u Hu. rewrite Hnow, members_write by done.
    destruct (robj_absent (db_read db now key)); [by left|].
    destruct (robj_absent (db_read db u key)) eqn:Ea; [|by left]. right. split; [done|].
    intros x s Hx. pose proof (lookup_weaken _ _ _ _ Hx Hm) as Hx'.
    destruct (Ho u Hu) as [E|[_ Hall]]; [|by eapply Hall].
    unfold members in E at 1. destruct (db_read db u key); try done. simpl in E. by rewrite <- E in Hx'.
Qed.

(** Writing a set and its expiry. *)
Lemma zset_write_expire db now bound key m ttl :
  0 < ttl → bound ≤ now + ttl → (∀ x s, m !! x = Some s → s ≤ bound) →
  zset_ok (write_expire db now key (of_zset m) ttl) now bound key ∧
  members (write_expire db now key (of_zset m) ttl) now key = m.
Proof.
  intros Hpos Hb Hm.
  assert (Hat : ∀ u, now ≤ u → members (write_expire db now key (of_zset m) ttl) u key =
    if u <? now + ttl then m else ∅).
  { intros u Hu. unfold members. rewrite read_write_expire by done.
    destruct (_ <? _); [by rewrite as_of_zset|done]. }
  assert (Hnow : members (write_expire db now key (of_zset m) ttl) now key = m).
  { rewrite Hat by done. by rewrite (proj2 (Z.ltb_lt _ _)) by lia. }
  split; [|done]. split.
  - rewrite read_write_expire, (proj2 (Z.ltb_lt _ _)), as_of_zset by lia. by eexists.
  - intros x s. rewrite Hnow. apply Hm.
  - intros u Hu. rewrite Hnow, Hat by done. destruct (Z.ltb_spec u (now + ttl)); [by left|].
    right. split; [done|]. intros x s Hx. apply Hm in Hx. lia.
Qed.

Lemma zset_ok_frame db db' now bound key :
  (∀ u, db_read db' u key = db_read db u key) → zset_ok db now bound key → zset_ok db' now bound key.
Proof.
  intros E [Ht Hs Ho]. split; [by rewrite E|unfold members in *; setoid_rewrite E; done..].
Qed.

Lemma write_expire_ne_members db now u key key' m ttl :
  key ≠ key' → members (write_expire db now key m ttl) u key' = members db u key'.
Proof. intros. unfold members. by rewrite read_write_expire_ne. Qed.

Context (Hpos : Millisecond ≤ leaseTTL).

Lemma setTTL_covers now : unix_milli (now + leaseTTL) ≤ unix_milli now + milliseconds setTTL ∧
  0 < milliseconds setTTL.
Proof.
  unfold unix_milli, milliseconds, setTTL, Millisecond in *. rewrite Z.quot_div_nonneg by lia.
  set (a := now - time_Unix 0). replace (now + leaseTTL - time_Unix 0) with (a + leaseTTL) by (unfold a; lia).
  pose proof (Z.mul_div_le (a + leaseTTL) 1000000). pose proof (Z.mul_succ_div_gt a 1000000).
  pose proof (Z.mul_succ_div_gt (2 * leaseTTL) 1000000). lia.
Qed.

Definition leases_wf (db : DB) (now : Time) : Prop :=
  ∀ key, zset_ok db (unix_milli now) (unix_milli (now + leaseTTL)) key.

Lemma live_until_members db now r :
  live_until (LS:=redis_leases) db now r =
  members db (unix_milli now) (lr_key r) !! lr_member r ≫= live_expiry now.
Proof.
  unfold live_until, live_expiry. simpl.
  destruct (members db (unix_milli now) (lr_key r) !! lr_member r) as [e|] eqn:E; simpl.
  - destruct (Z.ltb_spec (unix_milli now) e).
    + by apply map_lookup_filter_Some.
    + apply map_lookup_filter_None. right. intros e' He' Hlt. simpl in Hlt. simplify_eq. lia.
  - apply map_lookup_filter_None. by left.
Qed.

(** An operation that rewrites one key. *)
Lemma leases_wf_key db db' now key m :
  leases_wf db now →
  zset_ok db' (unix_milli now) (unix_milli (now + leaseTTL)) key ∧ members db' (unix_milli now) key = m →
  (∀ u key', key ≠ key' → db_read db' u key' = db_read db u key') →
  leases_wf db' now ∧
  ∀ r, members db' (unix_milli now) (lr_key r) !! lr_member r =
    if decide (lr_key r = key) then m !! lr_member r
    else members db (unix_milli now) (lr_key r) !! lr_member r.
Proof.
  intros Hwf [Hok Hm] Hne. split.
  - intros key'. destruct (decide (key = key')) as [<-|Hk]; [done|].
    eapply zset_ok_frame; [intros u; by apply Hne|]. apply Hwf.
  - intros r. case_decide as Hk; [by rewrite Hk, Hm|].
    unfold members. by rewrite Hne.
Qed.

Lemma zrem_spec db now r : leases_wf db now →
  leases_wf (zrem db (unix_milli now) (lr_key r) (lr_member r)) now ∧
  ∀ r', members (zrem db (unix_milli now) (lr_key r) (lr_member r)) (unix_milli now) (lr_key r') !! lr_member r' =
    if decide (r' = r) then None else members db (unix_milli now) (lr_key r') !! lr_member r'.
Proof.
  intros Hwf. unfold zrem. destruct (zok_type _ _ _ _ (Hwf (lr_key r))) as [m Hm]. rewrite Hm.
  pose proof (members_type _ _ _ _ Hm) as Em.
  destruct (leases_wf_key db (db_write db (unix_milli now) (lr_key r) (of_zset (ZREM m (lr_member r)))) now
    (lr_key r) (ZREM m (lr_member r))) as [Hwf' Hl]; [done|..].
  - apply zset_write_sub; [apply Hwf|]. rewrite Em. apply delete_subseteq.
  - intros u key' Hk. by rewrite read_write_ne.
  - split; [done|]. intros r'. rewrite Hl. unfold ZREM. destruct r as [k x], r' as [k' x']. simpl in *.
    repeat case_decide; simplify_eq; try done; rewrite ?lookup_delete_eq; try done.
    by rewrite lookup_delete_ne by congruence.
Qed.

Lemma renew_one_spec db now e r : leases_wf db now → e ≤ unix_milli (now + leaseTTL) →
  leases_wf (renew_one (unix_milli now) e db r) now ∧
  ∀ r', members (renew_one (unix_milli now) e db r) (unix_milli now) (lr_key r') !! lr_member r' =
    if decide (r' = r) then Some e else members db (unix_milli now) (lr_key r') !! lr_member r'.
Proof.
  intros Hwf He. unfold renew_one. destruct (zok_type _ _ _ _ (Hwf (lr_key r))) as [m Hm]. rewrite Hm.
  pose proof (members_type _ _ _ _ Hm) as Em. destruct (setTTL_covers now) as [Hc Hp].
  destruct (leases_wf_key db (write_expire db (unix_milli now) (lr_key r)
    (of_zset (ZADD m e (lr_member r))) (milliseconds setTTL)) now
    (lr_key r) (ZADD m e (lr_member r))) as [Hwf' Hl]; [done|..].
  - apply zset_write_expire; [done..|]. intros x s Hx. unfold ZADD in Hx.
    apply lookup_insert_Some in Hx as [[_ <-]|[_ Hx]]; [done|].
    rewrite <- Em in Hx. by eapply zok_score.
  - intros u key' Hk. by apply read_write_expire_ne.
  - split; [done|]. intros r'. rewrite Hl. unfold ZADD. destruct r as [k x], r' as [k' x']. simpl in *.
    repeat case_decide; simplify_eq; try done; rewrite ?lookup_insert_eq; try done.
    by rewrite lookup_insert_ne by congruence.
Qed.

Lemma renew_all_spec refs db now e : leases_wf db now → e ≤ unix_milli (now + leaseTTL) →
  leases_wf (foldl (renew_one (unix_milli now) e) db refs) now ∧
  ∀ r', members (foldl (renew_one (unix_milli now) e) db refs) (unix_milli now) (lr_key r') !! lr_member r' =
    if decide (r' ∈ refs) then Some e else members db (unix_milli now) (lr_key r') !! lr_member r'.
Proof.
  revert db. induction refs as [|r refs IH]; intros db Hwf He; [done|]. cbn [foldl].
  destruct (renew_one_spec db now e r Hwf He) as [Hwf1 H1].
  destruct (IH _ Hwf1 He) as [Hwf2 H2]. split; [done|]. intros r'. rewrite H2, H1.
  destruct (decide (r' ∈ refs)), (decide (r' = r)), (decide (r' ∈ r :: refs)) as [?|Hn]; try done;
    set_solver.
Qed.

Lemma acquire_spec db now t key member limit reply db' :
  leases_wf db now → t ≤ now →
  acquireLeaseScript db (unix_milli now) (unix_milli t) key limit member
    (unix_milli (t + leaseTTL)) (milliseconds setTTL) = (reply, db') →
  leases_wf db' now ∧
  match reply with
  | Some (true, _) =>
      Z.of_nat (size (filter (λ kv, unix_milli now < kv.2) (members db (unix_milli now) key))) < limit ∧
      ∀ r', members db' (unix_milli now) (lr_key r') !! lr_member r' ≫= live_expiry now =
        if decide (r' = MkRef key member) then live_expiry now (unix_milli (t + leaseTTL))
        else members db (unix_milli now) (lr_key r') !! lr_member r' ≫= live_expiry now
  | _ => ∀ r', members db' (unix_milli now) (lr_key r') !! lr_member r' ≫= live_expiry now =
           members db (unix_milli now) (lr_key r') !! lr_member r' ≫= live_expiry now
  end.
Proof.
  intros Hwf Ht. unfold acquireLeaseScript.
  destruct (zok_type _ _ _ _ (Hwf key)) as [m Hm]. rewrite Hm.
  pose proof (members_type _ _ _ _ Hm) as Em. destruct (setTTL_covers now) as [Hc Hp].
  assert (Htn : unix_milli t ≤ unix_milli now) by by apply unix_milli_mono.
  set (m' := ZREMRANGEBYSCORE m (unix_milli t)).
  assert (Hsub : m' ⊆ members db (unix_milli now) key) by (rewrite Em; apply map_filter_subseteq).
  (* what the first command drops is not live *)
  assert (Hdrop : ∀ x, m' !! x ≫= live_expiry now = members db (unix_milli now) key !! x ≫= live_expiry now).
  { intros x. rewrite Em. unfold m', ZREMRANGEBYSCORE.
    destruct (m !! x) as [s|] eqn:Ex; simpl.
    - destruct (decide (unix_milli t < s)) as [Hlt|Hlt].
      + rewrite (proj2 (map_lookup_filter_Some _ _ _ s)) by done. done.
      + rewrite (proj2 (map_lookup_filter_None _ _ _)) by (right; intros ??; by simplify_eq).
        simpl. unfold live_expiry. by rewrite (proj2 (Z.ltb_ge _ _)) by lia.
    - by rewrite (proj2 (map_lookup_filter_None _ _ _)) by by left. }
  assert (Hcard : Z.of_nat (size (filter (λ kv, unix_milli now < kv.2) (members db (unix_milli now) key))) ≤ ZCARD m').
  { unfold ZCARD. apply inj_le, map_subseteq_size. rewrite Em. apply map_subseteq_spec.
    intros x s Hx. apply map_lookup_filter_Some in Hx as [Hx Hlt]. simpl in Hlt.
    apply map_lookup_filter_Some. split; [done|]. simpl. lia. }
  destruct (leases_wf_key db (db_write db (unix_milli now) key (of_zset m')) now key m') as [Hwf1 H1]; [done|..].
  { apply zset_write_sub; [apply Hwf|done]. }
  { intros u key' Hk. by rewrite read_write_ne. }
  set (db1 := db_write db (unix_milli now) key (of_zset m')) in *.
  destruct (Z.leb_spec limit (ZCARD m')); intros E; simplify_eq; simpl.
  - split; [done|]. intros r'. rewrite H1. case_decide as Hk; [|done]. by rewrite Hdrop, Hk.
  - set (s := unix_milli (t + leaseTTL)).
    destruct (leases_wf_key db1 (write_expire db1 (unix_milli now) key (of_zset (ZADD m' s member))
      (milliseconds setTTL)) now key (ZADD m' s member)) as [Hwf2 H2]; [done|..].
    { apply zset_write_expire; [done..|]. intros x s' Hx. unfold ZADD in Hx.
      apply lookup_insert_Some in Hx as [[_ <-]|[_ Hx]]; [apply unix_milli_mono; lia|].
      eapply (zok_score _ _ _ _ (Hwf key)). by eapply lookup_weaken. }
    { intros u key' Hk. by apply read_write_expire_ne. }
    split; [done|]. split; [lia|]. intros r'. rewrite H2. case_decide as Hk; [|].
    + unfold ZADD. rewrite Hk. destruct (decide (lr_member r' = member)) as [Hx|Hx].
      * rewrite Hx, lookup_insert_eq. rewrite decide_True by (destruct r'; simpl in *; congruence). done.
      * rewrite lookup_insert_ne by done. rewrite decide_False by (destruct r'; simpl in *; congruence). apply Hdrop.
    + rewrite H1, decide_False by done. rewrite decide_False by (destruct r'; simpl in *; congruence). done.
Qed.

#[export] Program Instance redis_leases_ok : LeaseStoreOK DB leaseTTL (LS:=redis_leases) := {|
  lease_wf := leases_wf
|}.
Next Obligation.
  intros db now u Hwf Hu key. eapply zset_ok_later; [apply Hwf|by apply unix_milli_mono|].
  apply unix_milli_mono. lia.
Qed.
Next Obligation.
  intros db now u r Hwf Hu. rewrite !live_until_members. pose proof (unix_milli_mono _ _ Hu) as Hm.
  destruct (zok_outlives _ _ _ _ (Hwf (lr_key r)) _ Hm) as [E|[E Hall]]; rewrite E;
    destruct (members db (unix_milli now) (lr_key r) !! lr_member r) as [e|] eqn:Ee; simpl; try done.
  - unfold live_expiry. destruct (Z.ltb_spec (unix_milli now) e); [done|]. simpl.
    by rewrite (proj2 (Z.ltb_ge _ _)) by lia.
  - apply Hall in Ee. unfold live_expiry. destruct (Z.ltb_spec (unix_milli now) e); [|done].
    simpl. by rewrite (proj2 (Z.ltb_ge _ _)) by lia.
Qed.
Next Obligation.
  intros db now r e Hwf H. rewrite live_until_members in H.
  destruct (members _ _ _ !! _) as [e'|] eqn:E; [|done]. simpl in H. unfold live_expiry in H.
  destruct (Z.ltb_spec (unix_milli now) e'); simplify_eq. split; [done|]. by eapply (zok_score _ _ _ _ (Hwf _)).
Qed.
Next Obligation.
  intros db now r Hwf. destruct (zrem_spec db now r Hwf) as [? H]. split; [done|].
  intros r'. rewrite !live_until_members. simpl. rewrite H. by case_decide.
Qed.
Next Obligation.
  intros db now refs e Hwf He. destruct (renew_all_spec refs db now e Hwf He) as [? H]. split; [done|].
  intros r'. rewrite !live_until_members. simpl. rewrite H. by case_decide.
Qed.
Next Obligation.
  intros db now t key member limit reply db' Hwf Ht H.
  destruct (acquire_spec _ _ _ _ _ _ _ _ Hwf Ht H) as [? Hr]. split; [done|].
  destruct reply as [[[|] ?]|]; [destruct Hr as [? Hr]; split; [done|]|..]; intros r';
    rewrite !live_until_members; apply Hr.
Qed.

End redis.
