(* ===== verification/LeaseKeeper.v ===== *)
(** * The keeper of a node's leases

    Models [leaseKeeper] of [src/internal/cluster/sharedstate/leases.go] and the pool
    of [account_slots.go] as a transition system: any number of nodes, each with the
    requests that take and give back slots and the goroutine that renews and removes
    leases, over one shared store ([LeaseStore]). A label names the node and the
    critical section, Redis call or channel operation it performs; [exec] is the
    transition. Interleavings are lists of labels.

    [cl_used] and [cl_orphans] are ghosts: the members ever drawn, and the leases that
    no running node is responsible for, with the time they lost their node. *)
From S2P Require Import Prelude GoModel Redis SharedState Leases.

(** ** State *)

(** What the goroutine of a node is doing. *)
Inductive Phase :=
| Idle
| Gathering (batch : list leaseRef)            (* removeBatch, filling the batch *)
| Removing (batch todo : list leaseRef)        (* its pipeline *)
| Snapped (refs : list leaseRef)               (* renew, after the critical section *)
| Renewing (refs : list leaseRef) (expiry : Z) (* its transaction *)
| Renewed                                      (* before retryPending *)
| Retrying (batch todo : list leaseRef)        (* the pipeline of retryPending *)
| Closing (todo : list leaseRef).              (* releaseAllOnClose *)

Record leaseKeeper := MkKeeper {
  kp_members : gmap string (list string);  (* accountSlotPool.members *)
  kp_got : list (string * string);         (* acquired: account, member; not yet in the pool *)
  kp_untracked : list leaseRef;            (* in the pool, before track *)
  kp_held : gset leaseRef;
  kp_popped : list leaseRef;               (* out of the pool, before release *)
  kp_leaving : list leaseRef;              (* no longer held, before the send *)
  kp_releases : list leaseRef;
  kp_pending : gmap leaseRef Time;
  kp_phase : Phase
}.

Definition newLeaseKeeper : leaseKeeper := MkKeeper ∅ [] [] ∅ [] [] [] ∅ Idle.

Definition releases_cap : nat := 4096.
Definition batch_cap : nat := 256.

(** The first occurrence of an element, taken out. *)
Fixpoint take_out {A} `{EqDecision A} (x : A) (l : list A) : option (list A) :=
  match l with
  | [] => None
  | y :: l => if decide (x = y) then Some l else cons y <$> take_out x l
  end.

(** The cluster: the store, the clock and the nodes. *)
Record Cluster (W : Type) := MkCluster {
  cl_store : W; cl_now : Time; cl_nodes : gmap string leaseKeeper;
  cl_used : gset string; cl_orphans : gmap leaseRef Time }.
Arguments MkCluster {W} _ _ _ _ _.
Arguments cl_store {W} _.
Arguments cl_now {W} _.
Arguments cl_nodes {W} _.
Arguments cl_used {W} _.
Arguments cl_orphans {W} _.

(** ** What a node does by itself *)

Inductive KLabel :=
| KAppend (authID member : string)  (* AcquireAccountSlot: into the pool *)
| KTrack (r : leaseRef)             (* track *)
| KPop (authID : string)            (* ReleaseAccountSlot: out of the pool *)
| KUntrack (r : leaseRef)           (* release: delete(k.held, ref) *)
| KSend (r : leaseRef)              (* release: the channel, or pending *)
| KReceive | KGather | KFlush       (* removeBatch *)
| KSnapshot | KStamp | KSkip        (* renew *)
| KRetry (available : bool)         (* retryPending *)
| KDone | KFail                     (* a pipeline returns *)
| KStop.

(** What happens to the cluster. *)
Inductive Label :=
| LTick (d : Duration)
| LJoin (node : string)
(** [AcquireAccountSlot]: the script, with arguments computed at [t]; the reply may be lost. *)
| LAcquire (node : string) (t : Time) (authID member : string) (replied : bool)
| LLocal (node : string) (l : KLabel)
| LZRem (node : string)   (* the next ZREM of a removal pipeline *)
| LRenew (node : string)  (* the transaction of a renewal *)
| LExit (node : string).  (* the process ends, cleanly or not *)

Section keeper.
Context {D : Digest} (leaseTTL : Duration).

Definition slot_ref (s : string * string) : leaseRef := MkRef (accountSlotKey s.1) s.2.

Definition set_phase (p : Phase) (k : leaseKeeper) : leaseKeeper :=
  MkKeeper (kp_members k) (kp_got k) (kp_untracked k) (kp_held k) (kp_popped k) (kp_leaving k)
    (kp_releases k) (kp_pending k) p.

Definition set_queue (releases : list leaseRef) (pending : gmap leaseRef Time) (p : Phase)
    (k : leaseKeeper) : leaseKeeper :=
  MkKeeper (kp_members k) (kp_got k) (kp_untracked k) (kp_held k) (kp_popped k) (kp_leaving k)
    releases pending p.

(** [ReleaseAccountSlot] on the pool: the last member appended. *)
Definition pop_member (authID : string) (members : gmap string (list string))
    : option (string * gmap string (list string)) :=
  match rev (default [] (members !! authID)) with
  | [] => None
  | member :: rest =>
      Some (member, if bool_decide (rest = []) then delete authID members
                    else <[authID := rev rest]> members)
  end.

Definition append_member (authID member : string) (members : gmap string (list string))
    : gmap string (list string) :=
  <[authID := default [] (members !! authID) ++ [member]]> members.

Definition add_pending (deadline : Time) (batch : list leaseRef) (pending : gmap leaseRef Time)
    : gmap leaseRef Time :=
  foldl (λ m r, <[r := deadline]> m) pending batch.

Definition drop_pending (batch : list leaseRef) (pending : gmap leaseRef Time) : gmap leaseRef Time :=
  foldl (λ m r, delete r m) pending batch.

(** The critical section of [retryPending]: what is kept and what is given up. *)
Definition not_expired (now : Time) (pending : gmap leaseRef Time) : gmap leaseRef Time :=
  filter (λ kv, now < kv.2) pending.
Definition given_up (now : Time) (pending : gmap leaseRef Time) : list leaseRef :=
  (map_to_list (filter (λ kv, kv.2 ≤ now) pending)).*1.

(** A step of a node that does not touch the store: the keeper after it and the
    leases it gave up on. *)
Definition local (l : KLabel) (now : Time) (k : leaseKeeper) : option (leaseKeeper * list leaseRef) :=
  match l with
  | KAppend authID member =>
      got ← take_out (authID, member) (kp_got k);
      Some (MkKeeper (append_member authID member (kp_members k)) got
              (slot_ref (authID, member) :: kp_untracked k) (kp_held k) (kp_popped k) (kp_leaving k)
              (kp_releases k) (kp_pending k) (kp_phase k), [])
  | KTrack r =>
      untracked ← take_out r (kp_untracked k);
      Some (MkKeeper (kp_members k) (kp_got k) untracked ({[r]} ∪ kp_held k) (kp_popped k)
              (kp_leaving k) (kp_releases k) (kp_pending k) (kp_phase k), [])
  | KPop authID =>
      '(member, members) ← pop_member authID (kp_members k);
      Some (MkKeeper members (kp_got k) (kp_untracked k) (kp_held k)
              (slot_ref (authID, member) :: kp_popped k) (kp_leaving k) (kp_releases k) (kp_pending k)
              (kp_phase k), [])
  | KUntrack r =>
      popped ← take_out r (kp_popped k);
      Some (MkKeeper (kp_members k) (kp_got k) (kp_untracked k) (kp_held k ∖ {[r]}) popped
              (r :: kp_leaving k) (kp_releases k) (kp_pending k) (kp_phase k), [])
  | KSend r =>
      leaving ← take_out r (kp_leaving k);
      let k := MkKeeper (kp_members k) (kp_got k) (kp_untracked k) (kp_held k) (kp_popped k) leaving
                 (kp_releases k) (kp_pending k) (kp_phase k) in
      Some (if bool_decide (length (kp_releases k) < releases_cap)%nat
            then set_queue (kp_releases k ++ [r]) (kp_pending k) (kp_phase k) k
            else set_queue (kp_releases k) (<[r := time_Add now leaseTTL]> (kp_pending k)) (kp_phase k) k, [])
  | KReceive =>
      match kp_phase k, kp_releases k with
      | Idle, r :: rest => Some (set_queue rest (kp_pending k) (Gathering [r]) k, [])
      | _, _ => None
      end
  | KGather =>
      match kp_phase k, kp_releases k with
      | Gathering batch, r :: rest =>
          if bool_decide (length batch < batch_cap)%nat
          then Some (set_queue rest (kp_pending k) (Gathering (batch ++ [r])) k, []) else None
      | _, _ => None
      end
  | KFlush =>
      match kp_phase k with
      | Gathering batch =>
          if bool_decide (batch_cap ≤ length batch)%nat || bool_decide (kp_releases k = [])
          then Some (set_phase (Removing batch batch) k, []) else None
      | _ => None
      end
  | KSnapshot =>
      match kp_phase k with
      | Idle =>
          let refs := elements (kp_held k) in
          Some (set_phase (if bool_decide (refs = []) then Renewed else Snapped refs) k, [])
      | _ => None
      end
  | KStamp =>
      match kp_phase k with
      | Snapped refs => Some (set_phase (Renewing refs (unix_milli (time_Add now leaseTTL))) k, [])
      | _ => None
      end
  | KSkip =>
      match kp_phase k with
      | Snapped _ | Renewing _ _ => Some (set_phase Renewed k, [])
      | _ => None
      end
  | KRetry available =>
      match kp_phase k with
      | Renewed =>
          let pending := not_expired now (kp_pending k) in
          let batch := (map_to_list pending).*1 in
          Some (set_queue (kp_releases k) pending
                  (if bool_decide (batch = []) || negb available then Idle else Retrying batch batch) k,
                given_up now (kp_pending k))
      | _ => None
      end
  | KDone =>
      match kp_phase k with
      | Removing _ [] => Some (set_phase Idle k, [])
      | Retrying batch [] =>
          Some (set_queue (kp_releases k) (drop_pending batch (kp_pending k)) Idle k, [])
      | _ => None
      end
  | KFail =>
      match kp_phase k with
      | Removing batch _ =>
          Some (set_queue (kp_releases k) (add_pending (time_Add now leaseTTL) batch (kp_pending k)) Idle k, [])
      | Retrying _ _ => Some (set_phase Idle k, [])
      | _ => None
      end
  | KStop =>
      match kp_phase k with
      | Idle =>
          Some (MkKeeper (kp_members k) (kp_got k) (kp_untracked k) ∅ (kp_popped k) (kp_leaving k) [] ∅
                  (Closing (elements (kp_held k) ++ (map_to_list (kp_pending k)).*1 ++ kp_releases k)), [])
      | _ => None
      end
  end.

(** ** Steps of the cluster *)

(** The leases a node is responsible for. *)
Definition base_refs (k : leaseKeeper) : list leaseRef :=
  (slot_ref <$> kp_got k) ++ kp_untracked k ++ elements (kp_held k) ++ kp_popped k ++ kp_leaving k ++
  kp_releases k ++ (map_to_list (kp_pending k)).*1.

Definition phase_owned (p : Phase) : list leaseRef :=
  match p with
  | Gathering batch => batch
  | Removing _ todo | Closing todo => todo
  | _ => []
  end.

Definition owned (k : leaseKeeper) : list leaseRef := base_refs k ++ phase_owned (kp_phase k).

(** The ZREM a pipeline sends next. *)
Definition next_removal (p : Phase) : option (leaseRef * Phase) :=
  match p with
  | Removing batch (r :: todo) => Some (r, Removing batch todo)
  | Retrying batch (r :: todo) => Some (r, Retrying batch todo)
  | Closing (r :: todo) => Some (r, Closing todo)
  | _ => None
  end.

Definition orphaned (now : Time) (refs : list leaseRef) (orphans : gmap leaseRef Time)
    : gmap leaseRef Time := foldl (λ m r, <[r := now]> m) orphans refs.

Context {W : Type} {LS : LeaseStore W} (limitOf : string → Z).
Implicit Types s : Cluster W.

Definition with_node (n : string) (k : leaseKeeper) s : Cluster W :=
  MkCluster (cl_store s) (cl_now s) (<[n := k]> (cl_nodes s)) (cl_used s) (cl_orphans s).

Definition with_store (w : W) s : Cluster W :=
  MkCluster w (cl_now s) (cl_nodes s) (cl_used s) (cl_orphans s).

Definition exec (l : Label) s : option (Cluster W) :=
  match l with
  | LTick d =>
      if d <? 0 then None
      else Some (MkCluster (cl_store s) (time_Add (cl_now s) d) (cl_nodes s) (cl_used s) (cl_orphans s))
  | LJoin n => if cl_nodes s !! n then None else Some (with_node n newLeaseKeeper s)
  | LAcquire n t authID member replied =>
      if bool_decide (member ∈ cl_used s) || (cl_now s <? t) then None
      else
        k ← cl_nodes s !! n;
        let key := accountSlotKey authID in
        let '(reply, w) := acquireLease (cl_store s) (cl_now s) t key member (limitOf key) in
        let taken := match reply with Some (true, _) => true | _ => false end in
        let k := if taken && replied
                 then MkKeeper (kp_members k) ((authID, member) :: kp_got k) (kp_untracked k) (kp_held k)
                        (kp_popped k) (kp_leaving k) (kp_releases k) (kp_pending k) (kp_phase k)
                 else k in
        let lost := if taken && negb replied then [MkRef key member] else [] in
        Some (MkCluster w (cl_now s) (<[n := k]> (cl_nodes s)) ({[member]} ∪ cl_used s)
                (orphaned (cl_now s) lost (cl_orphans s)))
  | LLocal n l =>
      k ← cl_nodes s !! n;
      '(k, dropped) ← local l (cl_now s) k;
      Some (MkCluster (cl_store s) (cl_now s) (<[n := k]> (cl_nodes s)) (cl_used s)
              (orphaned (cl_now s) dropped (cl_orphans s)))
  | LZRem n =>
      k ← cl_nodes s !! n;
      '(r, p) ← next_removal (kp_phase k);
      Some (with_node n (set_phase p k) (with_store (remove_lease (cl_store s) (cl_now s) r) s))
  | LRenew n =>
      k ← cl_nodes s !! n;
      match kp_phase k with
      | Renewing refs expiry =>
          Some (with_node n (set_phase Renewed k)
                  (with_store (renew_leases (cl_store s) (cl_now s) refs expiry) s))
      | _ => None
      end
  | LExit n =>
      k ← cl_nodes s !! n;
      Some (MkCluster (cl_store s) (cl_now s) (delete n (cl_nodes s)) (cl_used s)
              (orphaned (cl_now s) (owned k) (cl_orphans s)))
  end.

Fixpoint exec_all (ls : list Label) s : option (Cluster W) :=
  match ls with
  | [] => Some s
  | l :: ls => s' ← exec l s; exec_all ls s'
  end.

Definition init (w : W) (now : Time) : Cluster W := MkCluster w now ∅ ∅ ∅.

End keeper.

(** ** The steps of one node *)

Section keeper_lemmas.
Context {D : Digest} (leaseTTL : Duration).
Implicit Types (k : leaseKeeper) (r : leaseRef).

(** Every slot in the pool, with its account. *)
Definition pool_slots (members : gmap string (list string)) : list (string * string) :=
  map_to_list members ≫= λ p, pair p.1 <$> p.2.

(** The slots that requests of a node hold or have just taken. *)
Definition slots k : list (string * string) := kp_got k ++ pool_slots (kp_members k).

(** The leases the goroutine is working on. *)
Definition phase_refs (p : Phase) : list leaseRef :=
  match p with
  | Gathering refs | Snapped refs | Renewing refs _ | Closing refs => refs
  | Removing batch todo | Retrying batch todo => batch ++ todo
  | _ => []
  end.

(** Every lease a node mentions. *)
Definition refs_of k : list leaseRef := (slot_ref <$> slots k) ++ base_refs k ++ phase_refs (kp_phase k).

Lemma elem_of_base k r : r ∈ base_refs k ↔
  r ∈ slot_ref <$> kp_got k ∨ r ∈ kp_untracked k ∨ r ∈ kp_held k ∨ r ∈ kp_popped k ∨
  r ∈ kp_leaving k ∨ r ∈ kp_releases k ∨ is_Some (kp_pending k !! r).
Proof.
  unfold base_refs. rewrite !elem_of_app, elem_of_elements.
  do 6 (apply or_iff_compat_l). rewrite list_elem_of_fmap. split.
  - intros ([r' t] & -> & H). apply elem_of_map_to_list in H. by eexists.
  - intros [t H]. exists (r, t). split; [done|]. by apply elem_of_map_to_list.
Qed.

Lemma take_out_perm {A} `{EqDecision A} (x : A) l l' : take_out x l = Some l' → l ≡ₚ x :: l'.
Proof.
  revert l'. induction l as [|y l IH]; intros l' H; [done|]. simpl in H. case_decide; simplify_eq; [done|].
  destruct (take_out x l) as [l0|]; [|done]. simpl in H. simplify_eq. rewrite (IH l0 eq_refl). apply perm_swap.
Qed.

Lemma take_out_elem {A} `{EqDecision A} (x y : A) l l' :
  take_out x l = Some l' → y ∈ l ↔ y = x ∨ y ∈ l'.
Proof. intros H%take_out_perm. rewrite H. apply elem_of_cons. Qed.

Lemma NoDup_sub {A} (l l' : list A) : l ⊆+ l' → NoDup l' → NoDup l.
Proof. intros [k ->]%submseteq_Permutation. by intros [? _]%NoDup_app. Qed.

(** *** The pool *)

Lemma pool_slots_lookup a l members : members !! a = Some l →
  pool_slots members ≡ₚ (pair a <$> l) ++ pool_slots (delete a members).
Proof. intros H. unfold pool_slots. by rewrite <- (map_to_list_delete members a l H). Qed.

Lemma pool_slots_default a members :
  pool_slots members ≡ₚ (pair a <$> default [] (members !! a)) ++ pool_slots (delete a members).
Proof.
  destruct (members !! a) as [l|] eqn:E; simpl; [by apply pool_slots_lookup|]. by rewrite delete_id.
Qed.

Lemma pool_slots_insert a l members :
  pool_slots (<[a := l]> members) ≡ₚ (pair a <$> l) ++ pool_slots (delete a members).
Proof.
  rewrite (pool_slots_lookup a l) by apply lookup_insert_eq. by rewrite delete_insert_eq.
Qed.

Lemma append_member_perm a m members :
  pool_slots (append_member a m members) ≡ₚ (a, m) :: pool_slots members.
Proof.
  unfold append_member. rewrite pool_slots_insert, fmap_app, (pool_slots_default a members), <- app_assoc.
  symmetry. apply Permutation_middle.
Qed.

Lemma pop_member_perm a members m members' : pop_member a members = Some (m, members') →
  pool_slots members ≡ₚ (a, m) :: pool_slots members'.
Proof.
  unfold pop_member. intros H. destruct (rev _) as [|x rest] eqn:E; [done|]. simplify_eq.
  assert (Hl : default [] (members !! a) = rev rest ++ [m]).
  { rewrite <- (rev_involutive (default [] (members !! a))), E. done. }
  rewrite (pool_slots_default a members), Hl, fmap_app, <- app_assoc. etrans; [symmetry; apply Permutation_middle|]. constructor.
  case_bool_decide as Hr; simplify_eq; [done|]. by rewrite pool_slots_insert.
Qed.

(** *** Pending removals *)

Lemma lookup_add_pending d batch pending r :
  add_pending d batch pending !! r = if decide (r ∈ batch) then Some d else pending !! r.
Proof.
  unfold add_pending. revert pending. induction batch as [|x batch IH]; intros pending.
  { rewrite decide_False by apply not_elem_of_nil. done. }
  cbn [foldl]. rewrite IH. destruct (decide (r ∈ batch)) as [H|H].
  - rewrite decide_True by by right. done.
  - destruct (decide (r = x)) as [->|Hne].
    + rewrite lookup_insert_eq, decide_True by left. done.
    + rewrite lookup_insert_ne, decide_False by (try apply not_elem_of_cons; done). done.
Qed.

Lemma orphaned_pending now refs orphans : orphaned now refs orphans = add_pending now refs orphans.
Proof. done. Qed.

Lemma lookup_drop_pending batch pending r :
  drop_pending batch pending !! r = if decide (r ∈ batch) then None else pending !! r.
Proof.
  unfold drop_pending. revert pending. induction batch as [|x batch IH]; intros pending.
  { rewrite decide_False by apply not_elem_of_nil. done. }
  cbn [foldl]. rewrite IH. destruct (decide (r ∈ batch)) as [H|H].
  - rewrite decide_True by by right. done.
  - destruct (decide (r = x)) as [->|Hne].
    + rewrite lookup_delete_eq, decide_True by left. done.
    + rewrite lookup_delete_ne, decide_False by (try apply not_elem_of_cons; done). done.
Qed.

Lemma elem_of_keys (pending : gmap leaseRef Time) r :
  r ∈ (map_to_list pending).*1 ↔ is_Some (pending !! r).
Proof.
  rewrite list_elem_of_fmap. split.
  - intros ([r' t] & -> & H). apply elem_of_map_to_list in H. by eexists.
  - intros [t H]. exists (r, t). split; [done|]. by apply elem_of_map_to_list.
Qed.

Lemma add_pending_is_Some d batch pending r :
  is_Some (add_pending d batch pending !! r) ↔ r ∈ batch ∨ is_Some (pending !! r).
Proof.
  rewrite lookup_add_pending. case_decide; [|tauto].
  split; [auto|]. intros _. by eexists.
Qed.

Lemma drop_pending_is_Some batch pending r :
  is_Some (drop_pending batch pending !! r) ↔ r ∉ batch ∧ is_Some (pending !! r).
Proof.
  rewrite lookup_drop_pending. case_decide; [|tauto].
  split; [intros [? [=]]|tauto].
Qed.

Lemma no_pending r : is_Some ((∅ : gmap leaseRef Time) !! r) ↔ False.
Proof. rewrite lookup_empty. split; [intros [? [=]]|done]. Qed.

Lemma pending_split now pending r : is_Some (pending !! r) →
  is_Some (not_expired now pending !! r) ∨ r ∈ given_up now pending.
Proof.
  intros [t Ht]. unfold given_up. rewrite elem_of_keys. unfold not_expired.
  destruct (Z.ltb_spec now t); [left|right]; exists t; by apply map_lookup_filter_Some.
Qed.

Lemma not_expired_sub now pending r : is_Some (not_expired now pending !! r) → is_Some (pending !! r).
Proof. intros [t Ht]. apply map_lookup_filter_Some in Ht as [Ht _]. by eexists. Qed.

Lemma given_up_sub now pending r : r ∈ given_up now pending → is_Some (pending !! r).
Proof.
  unfold given_up. rewrite elem_of_keys. intros [t Ht].
  apply map_lookup_filter_Some in Ht as [Ht _]. by eexists.
Qed.

(** *** What a local step keeps *)

Lemma elem_of_refs k r : r ∈ refs_of k ↔
  r ∈ slot_ref <$> kp_got k ∨ r ∈ slot_ref <$> pool_slots (kp_members k) ∨ r ∈ base_refs k ∨
  r ∈ phase_refs (kp_phase k).
Proof. unfold refs_of, slots. rewrite fmap_app, !elem_of_app. tauto. Qed.

Lemma elem_of_owned k r : r ∈ owned k ↔ r ∈ base_refs k ∨ r ∈ phase_owned (kp_phase k).
Proof. unfold owned. apply elem_of_app. Qed.

Lemma owned_refs k r : r ∈ owned k → r ∈ refs_of k.
Proof.
  rewrite elem_of_owned, elem_of_refs. intros [H|H]; [by auto|]. do 3 right.
  destruct (kp_phase k); simpl in *; set_solver.
Qed.

Lemma slots_refs k s : s ∈ slots k → slot_ref s ∈ refs_of k.
Proof. intros H. unfold refs_of. rewrite elem_of_app. left. by apply list_elem_of_fmap_2. Qed.

Lemma append_member_refs a m members r :
  r ∈ slot_ref <$> pool_slots (append_member a m members) ↔
  r = slot_ref (a, m) ∨ r ∈ slot_ref <$> pool_slots members.
Proof. rewrite append_member_perm, fmap_cons. apply elem_of_cons. Qed.

Lemma pop_member_refs a m members members' r : pop_member a members = Some (m, members') →
  r ∈ slot_ref <$> pool_slots members ↔ r = slot_ref (a, m) ∨ r ∈ slot_ref <$> pool_slots members'.
Proof. intros H%pop_member_perm. rewrite H, fmap_cons. apply elem_of_cons. Qed.

Lemma take_out_refs s l l' r : take_out s l = Some l' →
  r ∈ slot_ref <$> l ↔ r = slot_ref s ∨ r ∈ slot_ref <$> l'.
Proof. intros H%take_out_perm. rewrite H, fmap_cons. apply elem_of_cons. Qed.

End keeper_lemmas.

(** The cases of a local step. *)
Ltac local_cases H :=
  match type of H with local _ ?l _ _ = _ => destruct l end;
  simpl in H;
  try match type of H with
      | mbind _ ?o = Some _ => let E := fresh "E" in destruct o eqn:E; simpl in H; [|discriminate H]
      end;
  repeat case_match; simplify_eq/=.

(** Membership in the parts of a node. *)
Ltac refs_solver :=
  rewrite ?elem_of_app, ?lookup_insert_is_Some', ?add_pending_is_Some, ?drop_pending_is_Some,
    ?elem_of_keys, ?elem_of_cons, ?elem_of_elements, ?elem_of_nil, ?elem_of_empty, ?no_pending,
    ?elem_of_union, ?elem_of_difference,
    ?elem_of_singleton;
  intuition (subst; eauto using not_expired_sub, given_up_sub).

Section local_lemmas.
Context {D : Digest} (leaseTTL : Duration).
Implicit Types (k : leaseKeeper) (r : leaseRef).

(** No step makes up a slot. *)
Lemma local_slots l now k k' dropped :
  local leaseTTL l now k = Some (k', dropped) → slots k' ⊆+ slots k.
Proof.
  intros H. local_cases H; unfold slots; simpl; try done.
  - rewrite (take_out_perm _ _ _ E), append_member_perm. simpl. by rewrite <- Permutation_middle.
  - rewrite (pop_member_perm _ _ _ _ E). apply submseteq_app; [done|]. by apply submseteq_cons.
Qed.

Lemma local_refs l now k k' dropped r :
  local leaseTTL l now k = Some (k', dropped) → r ∈ refs_of k' ∨ r ∈ dropped → r ∈ refs_of k.
Proof.
  intros H. rewrite !elem_of_refs, !elem_of_base. local_cases H; simpl.
  all: try first [ rewrite append_member_refs, (take_out_refs _ _ _ r E)
                 | rewrite (take_out_elem _ r _ _ E) | rewrite (pop_member_refs _ _ _ _ r E) ].
  all: repeat case_bool_decide; simpl; refs_solver.
Qed.

(** What is left of a pipeline is part of its batch; what a renewal or a retry works on
    is still the node's. *)
Definition todo_ok (p : Phase) : Prop :=
  match p with
  | Removing batch todo | Retrying batch todo => ∀ r, r ∈ todo → r ∈ batch
  | _ => True
  end.

Definition renews_own k : Prop :=
  match kp_phase k with
  | Snapped refs | Renewing refs _ => ∀ r, r ∈ refs → r ∈ base_refs k
  | _ => True
  end.

Lemma local_todo l now k k' dropped :
  local leaseTTL l now k = Some (k', dropped) → todo_ok (kp_phase k) → todo_ok (kp_phase k').
Proof. intros H. local_cases H; try case_bool_decide; simpl; try destruct available; simpl; auto. Qed.

(** A lease the node is responsible for stays so, unless it is given up or its removal
    has just been confirmed. *)
Lemma local_owned l now k k' dropped r :
  local leaseTTL l now k = Some (k', dropped) → todo_ok (kp_phase k) → r ∈ owned k →
  r ∈ owned k' ∨ r ∈ dropped ∨ ∃ batch, kp_phase k = Retrying batch [] ∧ r ∈ batch.
Proof.
  intros H Htodo. rewrite !elem_of_owned, !elem_of_base. pose proof (pending_split now (kp_pending k) r) as Hs.
  local_cases H; simpl.
  all: try match goal with P : kp_phase _ = _ |- _ => rewrite P in *; simpl end.
  all: try first [ rewrite (take_out_refs _ _ _ r E) | rewrite (take_out_elem _ r _ _ E) ].
  all: repeat case_bool_decide; simpl; try (clear Hs; refs_solver; fail).
  all: try (refs_solver; fail).
  - clear Hs. destruct (decide (r = r0)); refs_solver.
  - clear Hs. destruct (decide (r ∈ batch)); [right; right; eauto|]. refs_solver.
Qed.

Lemma local_renews l now k k' dropped :
  local leaseTTL l now k = Some (k', dropped) → renews_own k → renews_own k'.
Proof.
  intros H Hr. unfold renews_own in *. local_cases H; simpl.
  all: try match goal with P : kp_phase _ = _ |- _ => rewrite P in *; simpl in * end.
  all: repeat case_bool_decide; simpl; try done.
  all: try destruct (kp_phase k); simpl in *; try done.
  all: intros x Hin; try specialize (Hr x Hin); rewrite ?elem_of_base in *; simpl.
  all: try first [ rewrite (take_out_refs _ _ _ x E) in Hr | rewrite (take_out_elem _ x _ _ E) in Hr ].
  all: revert Hr; try (refs_solver; fail).
  - destruct (decide (x = r)); refs_solver.
  - destruct (decide (x = r)); refs_solver.
  - apply elem_of_elements in Hin. refs_solver.
Qed.

End local_lemmas.
