(* ===== verification/LeaseCluster.v ===== *)
(** * The leases of a cluster

    What holds of every execution of [LeaseKeeper]: members are distinct, every live
    lease is somebody's or about to expire, the limits are kept while renewals are in
    time, and a slot that is released between its acquisition and its tracking is
    renewed for ever. *)
From S2P Require Import Prelude GoModel Redis SharedState Leases LeaseKeeper.

(** ** The cluster *)

Section cluster_lemmas.
Context {D : Digest} (leaseTTL : Duration) {W : Type} {LS : LeaseStore W} (limitOf : string → Z).
Implicit Types (s : Cluster W) (k : leaseKeeper) (r : leaseRef).

Definition live s r : option Z := live_until (cl_store s) (cl_now s) r.

(** Members are drawn once: no two nodes mention the same, no node has it twice. *)
Record distinct s : Prop := {
  ds_used : ∀ n k r, cl_nodes s !! n = Some k → r ∈ refs_of k → lr_member r ∈ cl_used s;
  ds_nodes : ∀ n n' k k' r r', cl_nodes s !! n = Some k → cl_nodes s !! n' = Some k' →
    r ∈ refs_of k → r' ∈ refs_of k' → lr_member r = lr_member r' → n = n';
  ds_slots : ∀ n k, cl_nodes s !! n = Some k → NoDup (slots k).*2
}.

Lemma distinct_update s s' n k k' :
  distinct s → cl_nodes s !! n = Some k → cl_nodes s' = <[n := k']> (cl_nodes s) →
  cl_used s ⊆ cl_used s' →
  (∀ r, r ∈ refs_of k' → r ∈ refs_of k ∨ (lr_member r ∉ cl_used s ∧ lr_member r ∈ cl_used s')) →
  NoDup (slots k').*2 → distinct s'.
Proof.
  intros [Hu Hd Hs] Hk Hn Hsub Hrefs Hnd. split; rewrite Hn.
  - intros n0 k0 r H0 Hr. destruct (decide (n = n0)) as [<-|Hne].
    + rewrite lookup_insert_eq in H0. simplify_eq. destruct (Hrefs r Hr) as [Hr'|[_ ?]]; [|done].
      by eapply Hsub, Hu.
    + rewrite lookup_insert_ne in H0 by done. by eapply Hsub, Hu.
  - assert (Hone : ∀ n2 k2 r r2, n ≠ n2 → cl_nodes s !! n2 = Some k2 → r ∈ refs_of k' → r2 ∈ refs_of k2 →
      lr_member r ≠ lr_member r2).
    { intros n2 k2 r r2 Hne H2 Hr Hr2 E. destruct (Hrefs r Hr) as [Hr'|[Hf _]].
      - by apply Hne, (Hd n n2 k k2 r r2).
      - apply Hf. rewrite E. by eapply Hu. }
    intros n1 n2 k1 k2 r1 r2 H1 H2 Hr1 Hr2 E.
    apply lookup_insert_Some in H1 as [[<- <-]|[Hne1 H1]];
      apply lookup_insert_Some in H2 as [[<- <-]|[Hne2 H2]]; [done|..].
    + by destruct (Hone n2 k2 r1 r2).
    + by destruct (Hone n1 k1 r2 r1).
    + by apply (Hd n1 n2 k1 k2 r1 r2).
  - intros n0 k0 H0. apply lookup_insert_Some in H0 as [[_ <-]|[_ H0]]; [done|]. by eapply Hs.
Qed.

Lemma distinct_ext s s' : distinct s → cl_nodes s' = cl_nodes s → cl_used s ⊆ cl_used s' → distinct s'.
Proof. intros [Hu Hd Hs] Hn Hsub. split; rewrite Hn; eauto. Qed.

Lemma next_removal_refs p r q : next_removal p = Some (r, q) →
  r ∈ phase_refs p ∧ (∀ x, x ∈ phase_refs q → x ∈ phase_refs p) ∧
  (∀ x, x ∈ phase_owned p → x = r ∨ x ∈ phase_owned q) ∧ (todo_ok p → todo_ok q).
Proof.
  destruct p as [| |b [|y t]| | | |b [|y t]|[|y t]]; simpl; intros H; simplify_eq/=; set_solver.
Qed.

Lemma set_phase_refs p k r :
  (∀ x, x ∈ phase_refs p → x ∈ phase_refs (kp_phase k)) → r ∈ refs_of (set_phase p k) → r ∈ refs_of k.
Proof. rewrite !elem_of_refs. intros H. unfold set_phase. simpl. intuition auto. Qed.

Lemma base_set_phase p k : base_refs (set_phase p k) = base_refs k.
Proof. done. Qed.

Lemma slots_got m a k members untracked held popped leaving releases pending p :
  kp_members k = members →
  slots (MkKeeper members ((a, m) :: kp_got k) untracked held popped leaving releases pending p) =
  (a, m) :: slots k.
Proof. by intros <-. Qed.

Lemma exec_distinct l s s' : exec leaseTTL limitOf l s = Some s' → distinct s → distinct s'.
Proof.
  intros H Hds. destruct l as [d|n|n t a m replied|n l|n|n|n]; simpl in H.
  - destruct (d <? 0); simplify_eq. by eapply distinct_ext.
  - destruct (cl_nodes s !! n) as [k|] eqn:Ek; simplify_eq. destruct Hds as [Hu Hd Hs].
    assert (Hno : ∀ r, r ∈ refs_of newLeaseKeeper → False).
    { intros r. rewrite elem_of_refs, elem_of_base. simpl. refs_solver. }
    split; simpl.
    + intros n0 k0 r H0 Hr. apply lookup_insert_Some in H0 as [[_ <-]|[_ H0]]; [by apply Hno in Hr|eauto].
    + intros n1 n2 k1 k2 r1 r2 H1 H2 Hr1 Hr2. apply lookup_insert_Some in H1 as [[_ <-]|[_ H1]];
        [by apply Hno in Hr1|]. apply lookup_insert_Some in H2 as [[_ <-]|[_ H2]]; [by apply Hno in Hr2|eauto].
    + intros n0 k0 H0. apply lookup_insert_Some in H0 as [[_ <-]|[_ H0]]; [constructor|eauto].
  - case_bool_decide as Hm; [done|]. simpl in H. destruct (cl_now s <? t); [done|].
    destruct (cl_nodes s !! n) as [k|] eqn:Ek; [|done]. simpl in H.
    destruct (acquireLease _ _ _ _ _ _) as [reply w]. simplify_eq.
    eapply distinct_update; [exact Hds|exact Ek|reflexivity|simpl..]; [set_solver|..].
    + intros r Hr. case_match; [|by left]. rewrite elem_of_refs, elem_of_base in Hr. simpl in Hr.
      rewrite elem_of_refs, elem_of_base. rewrite !elem_of_cons in Hr.
      destruct (decide (r = slot_ref (a, m))) as [->|Hne]; [right; simpl; set_solver|left; tauto].
    + case_match; [|by eapply ds_slots]. rewrite slots_got by done. simpl. apply NoDup_cons. split.
      * intros Hin. apply Hm. apply list_elem_of_fmap in Hin as ([a' m'] & -> & Hin). simpl.
        apply (ds_used s Hds n k (slot_ref (a', m')) Ek). by apply slots_refs.
      * by eapply ds_slots.
  - destruct (cl_nodes s !! n) as [k|] eqn:Ek; [|done]. simpl in H.
    destruct (local leaseTTL l (cl_now s) k) as [[k' dropped]|] eqn:El; [|done]. simplify_eq/=.
    eapply distinct_update; [exact Hds|exact Ek|reflexivity|simpl..]; [done|..].
    + intros r Hr. left. eapply local_refs; [done|by left].
    + eapply NoDup_sub; [apply fmap_submseteq; by eapply local_slots|]. by eapply ds_slots.
  - destruct (cl_nodes s !! n) as [k|] eqn:Ek; [|done]. simpl in H.
    destruct (next_removal (kp_phase k)) as [[r p]|] eqn:Ep; [|done]. simplify_eq/=.
    eapply distinct_update; [exact Hds|exact Ek|reflexivity|simpl..]; [done|..|exact (ds_slots s Hds n k Ek)].
    intros x Hx. left. eapply set_phase_refs; [|done]. by apply (next_removal_refs _ _ _ Ep).
  - destruct (cl_nodes s !! n) as [k|] eqn:Ek; [|done]. simpl in H.
    destruct (kp_phase k) eqn:Ep; try done. simplify_eq/=.
    eapply distinct_update; [exact Hds|exact Ek|reflexivity|simpl..]; [done|..|exact (ds_slots s Hds n k Ek)].
    intros x Hx. left. eapply set_phase_refs; [|done]. simpl. intros ? []%elem_of_nil.
  - destruct (cl_nodes s !! n) as [k|] eqn:Ek; [|done]. simplify_eq/=. destruct Hds as [Hu Hd Hs].
    split; simpl.
    + intros n0 k0 r H0. apply lookup_delete_Some in H0 as [_ H0]. eauto.
    + intros n1 n2 k1 k2 r1 r2 H1 H2. apply lookup_delete_Some in H1 as [_ H1].
      apply lookup_delete_Some in H2 as [_ H2]. eauto.
    + intros n0 k0 H0. apply lookup_delete_Some in H0 as [_ H0]. eauto.
Qed.

(** *** Every live lease is somebody's *)

(** A lease that is live until [e] belongs to a running node, or lost its node at a
    time from which it does not outlive one TTL. *)
Definition accounted_for s r (e : Z) : Prop :=
  (∃ n k, cl_nodes s !! n = Some k ∧ r ∈ owned k) ∨
  (∃ t, cl_orphans s !! r = Some t ∧ e ≤ unix_milli (t + leaseTTL)).

(** What holds of the goroutine of a node. *)
Record node_ok s k : Prop := {
  no_todo : todo_ok (kp_phase k);
  no_renews : renews_own k;
  no_expiry : ∀ refs e, kp_phase k = Renewing refs e → e ≤ unix_milli (cl_now s + leaseTTL);
  no_retry : ∀ batch todo r, kp_phase k = Retrying batch todo → r ∈ batch → r ∈ todo ∨ live s r = None
}.

Context {OK : LeaseStoreOK W leaseTTL}.

Record leases_inv s : Prop := {
  li_distinct : distinct s;
  li_wf : lease_wf (cl_store s) (cl_now s);
  li_nodes : ∀ n k, cl_nodes s !! n = Some k → node_ok s k;
  li_acc : ∀ r e, live s r = Some e → accounted_for s r e
}.

(** A node nothing happens to, while no lease it works on is revived. *)
Lemma node_ok_frame s s' k :
  node_ok s k → cl_now s ≤ cl_now s' →
  (∀ r, r ∈ phase_refs (kp_phase k) → live s r = None → live s' r = None) → node_ok s' k.
Proof.
  intros [H1 H2 H3 H4] Hnow Hlive. split; [done|done|..].
  - intros refs e E. etrans; [by eapply H3|]. apply unix_milli_mono. lia.
  - intros batch todo r E Hr. destruct (H4 batch todo r E Hr) as [|Hn]; [by left|right].
    apply Hlive; [|done]. rewrite E. simpl. rewrite elem_of_app. by left.
Qed.

Lemma orphaned_lookup now refs orphans r :
  orphaned now refs orphans !! r = if decide (r ∈ refs) then Some now else orphans !! r.
Proof. apply lookup_add_pending. Qed.

(** A lease that stays live stays accounted for, when owned leases stay owned or are
    noted as orphans. *)
Lemma accounted_step s s' r e refs :
  lease_wf (cl_store s') (cl_now s') → live s' r = Some e →
  cl_orphans s' = orphaned (cl_now s') refs (cl_orphans s) →
  (∀ n k, cl_nodes s !! n = Some k → r ∈ owned k →
     (∃ n' k', cl_nodes s' !! n' = Some k' ∧ r ∈ owned k') ∨ r ∈ refs) →
  accounted_for s r e → accounted_for s' r e.
Proof.
  intros Hwf Hl Ho Hown Hacc.
  assert (Href : r ∈ refs → accounted_for s' r e).
  { intros Hr. right. exists (cl_now s'). rewrite Ho, orphaned_lookup, decide_True by done.
    split; [done|]. by apply (leases_bound _ _ _ _ Hwf Hl). }
  destruct Hacc as [(n & k & Hk & Hr)|(t & Ht & He)].
  - destruct (Hown n k Hk Hr) as [H|H]; [by left|auto].
  - destruct (decide (r ∈ refs)); [auto|]. right. exists t. by rewrite Ho, orphaned_lookup, decide_False.
Qed.

(** The node that acts is replaced; the others keep what they own. *)
Lemma owned_step s s' n k k' r (refs : list leaseRef) :
  cl_nodes s !! n = Some k → cl_nodes s' = <[n := k']> (cl_nodes s) →
  (r ∈ owned k → r ∈ owned k' ∨ r ∈ refs) →
  ∀ n0 k0, cl_nodes s !! n0 = Some k0 → r ∈ owned k0 →
    (∃ n' k'', cl_nodes s' !! n' = Some k'' ∧ r ∈ owned k'') ∨ r ∈ refs.
Proof.
  intros Hk Hn Hr n0 k0 H0 Hr0. rewrite Hn. destruct (decide (n = n0)) as [<-|Hne].
  - simplify_eq. destruct (Hr Hr0); [left|by right]. exists n, k'. by rewrite lookup_insert_eq.
  - left. exists n0, k0. by rewrite lookup_insert_ne.
Qed.

Lemma orphaned_nil now orphans : orphaned now [] orphans = orphans.
Proof. done. Qed.

(** *** The invariant, one kind of step at a time *)

Lemma inv_tick s d s' :
  exec leaseTTL limitOf (LTick d) s = Some s' → leases_inv s → leases_inv s'.
Proof.
  intros H Hinv. pose proof (exec_distinct _ _ _ H (li_distinct s Hinv)) as Hds.
  simpl in H. destruct (Z.ltb_spec d 0); [done|]. simplify_eq. destruct Hinv as [_ Hwf Hn Ha].
  assert (Hlive : ∀ r, live (MkCluster (cl_store s) (time_Add (cl_now s) d) (cl_nodes s) (cl_used s)
    (cl_orphans s)) r = live s r ≫= live_expiry (time_Add (cl_now s) d)).
  { intros r. apply leases_later; [done|]. unfold time_Add. lia. }
  split; simpl; [done|..].
  - eapply lease_wf_later; [done|]. unfold time_Add. lia.
  - intros n k Hk. apply (node_ok_frame s); [by eapply Hn|simpl; unfold time_Add; lia|].
    intros r _ Hr. by rewrite Hlive, Hr.
  - intros r e Hr. rewrite Hlive in Hr. destruct (live s r) as [e'|] eqn:E; [|done].
    simpl in Hr. unfold live_expiry in Hr. case_match; simplify_eq. by apply Ha in E.
Qed.

Lemma inv_join s n s' :
  exec leaseTTL limitOf (LJoin n) s = Some s' → leases_inv s → leases_inv s'.
Proof.
  intros H Hinv. pose proof (exec_distinct _ _ _ H (li_distinct s Hinv)) as Hds.
  simpl in H. destruct (cl_nodes s !! n) as [k|] eqn:Ek; simplify_eq. destruct Hinv as [_ Hwf Hn Ha].
  split; simpl; [done|done|..].
  - intros n0 k0 H0. apply lookup_insert_Some in H0 as [[_ <-]|[_ H0]]; [by split|].
    apply (node_ok_frame s); [by eapply Hn|done|done].
  - intros r e Hr. destruct (Ha r e Hr) as [(n0 & k0 & H0 & Hr0)|Ho]; [left|by right].
    exists n0, k0. split; [|done]. simpl. rewrite lookup_insert_ne; [done|]. congruence.
Qed.

Lemma inv_acquire s n t a m replied s' :
  exec leaseTTL limitOf (LAcquire n t a m replied) s = Some s' → leases_inv s → leases_inv s'.
Proof.
  intros H Hinv. pose proof (exec_distinct _ _ _ H (li_distinct s Hinv)) as Hds.
  simpl in H. case_bool_decide as Hm; [done|]. simpl in H.
  destruct (Z.ltb_spec (cl_now s) t) as [|Ht]; [done|].
  destruct (cl_nodes s !! n) as [k|] eqn:Ek; [|done]. simpl in H.
  destruct (acquireLease _ _ _ _ _ _) as [reply w] eqn:Eacq. simplify_eq.
  destruct (acquire_ok _ _ _ _ _ _ _ _ (li_wf s Hinv) Ht Eacq) as [Hwf Hr].
  set (taken := match reply with Some (true, _) => true | _ => false end) in *.
  set (k' := if (taken && replied)%bool then _ else k) in *.
  set (lost := if (taken && negb replied)%bool then _ else _) in *.
  set (s' := MkCluster _ _ _ _ _) in *.
  (* the leases after the script *)
  assert (Hlive : ∀ r, live s' r = if decide (taken = true ∧ r = slot_ref (a, m))
    then live_expiry (cl_now s) (unix_milli (t + leaseTTL)) else live s r).
  { intros r. unfold live, s'. simpl. destruct reply as [[[|] held]|].
    - destruct Hr as [_ ->]. unfold slot_ref. simpl. repeat case_decide; naive_solver.
    - rewrite Hr, decide_False by (intros [? _]; done). done.
    - rewrite Hr, decide_False by (intros [? _]; done). done. }
  assert (Hfresh : ∀ n0 k0, cl_nodes s !! n0 = Some k0 → slot_ref (a, m) ∉ refs_of k0).
  { intros n0 k0 H0 Hin. apply Hm. by apply (ds_used s (li_distinct s Hinv) n0 k0 (slot_ref (a, m))). }
  assert (Hframe : ∀ n0 k0 r, cl_nodes s !! n0 = Some k0 → r ∈ phase_refs (kp_phase k0) →
    live s r = None → live s' r = None).
  { intros n0 k0 r H0 Hin Hn. rewrite Hlive, decide_False; [done|]. intros [_ ->].
    apply (Hfresh n0 k0 H0). rewrite elem_of_refs. auto. }
  split; simpl; [done|done|..].
  - intros n0 k0 H0. apply lookup_insert_Some in H0 as [[<- <-]|[_ H0]].
    + assert (Hk : node_ok s' k).
      { apply (node_ok_frame s); [by eapply li_nodes|done|]. intros r. by apply (Hframe n). }
      unfold k'. destruct (taken && replied)%bool; [|done]. destruct Hk as [H1 H2 H3 H4]. split; auto.
      unfold renews_own in *. simpl. destruct (kp_phase k); auto; intros r Hin;
        specialize (H2 r Hin); rewrite elem_of_base in *; simpl; rewrite elem_of_cons; tauto.
    + apply (node_ok_frame s); [by eapply li_nodes|done|]. intros r. by apply (Hframe n0).
  - intros r e He. pose proof He as He'. rewrite Hlive in He'. case_decide as Hd.
    + destruct Hd as [Htk ->]. destruct replied.
      * left. exists n, k'. simpl. split; [apply lookup_insert_eq|].
        unfold k'. rewrite Htk. simpl. rewrite elem_of_owned, elem_of_base. simpl. set_solver.
      * right. exists (cl_now s). simpl. unfold lost. rewrite Htk. simpl.
        split; [by rewrite lookup_insert_eq|]. by apply (leases_bound _ _ _ _ Hwf He).
    + eapply (accounted_step s s' r e lost); [done|done|done| |by apply (li_acc s Hinv)].
      eapply owned_step; [done|reflexivity|]. intros Hin. left. unfold k'.
      destruct (taken && replied)%bool; [|done]. rewrite elem_of_owned, elem_of_base in *. simpl.
      rewrite elem_of_cons. tauto.
Qed.

Lemma inv_local s n l s' :
  exec leaseTTL limitOf (LLocal n l) s = Some s' → leases_inv s → leases_inv s'.
Proof.
  intros H Hinv. pose proof (exec_distinct _ _ _ H (li_distinct s Hinv)) as Hds.
  simpl in H. destruct (cl_nodes s !! n) as [k|] eqn:Ek; [|done]. simpl in H.
  destruct (local leaseTTL l (cl_now s) k) as [[k' dropped]|] eqn:El; [|done]. simplify_eq/=.
  destruct (li_nodes s Hinv n k Ek) as [N1 N2 N3 N4].
  split; simpl; [done|apply Hinv|..].
  - intros n0 k0 H0. apply lookup_insert_Some in H0 as [[<- <-]|[_ H0]];
      [|apply (node_ok_frame s); [by eapply (li_nodes s Hinv)|done|done]].
    split.
    + by eapply local_todo.
    + by eapply local_renews.
    + intros refs e E. clear -El N3 E. local_cases El; simpl in *; try case_bool_decide;
        simpl in *; try destruct available; simpl in *; simplify_eq; try by eapply N3.
      all: done.
    + intros batch todo r E Hr. clear -El N4 E Hr. unfold live in *. simpl.
      local_cases El; simpl in *; try case_bool_decide; simpl in *; try destruct available;
        simpl in *; simplify_eq; try by eapply N4.
      all: by left.
  - intros r e Hr. eapply (accounted_step s _ r e dropped); [apply Hinv|done|done| |by apply (li_acc s Hinv)].
    eapply owned_step; [done|reflexivity|]. intros Hin.
    destruct (local_owned _ _ _ _ _ _ _ El N1 Hin) as [?|[?|(batch & Eb & Hb)]]; [by left|by right|].
    destruct (N4 _ _ _ Eb Hb) as [Hc|Hc]; [by apply elem_of_nil in Hc|].
    unfold live in *. simpl in Hr. congruence.
Qed.

Lemma inv_zrem s n s' :
  exec leaseTTL limitOf (LZRem n) s = Some s' → leases_inv s → leases_inv s'.
Proof.
  intros H Hinv. pose proof (exec_distinct _ _ _ H (li_distinct s Hinv)) as Hds.
  simpl in H. destruct (cl_nodes s !! n) as [k|] eqn:Ek; [|done]. simpl in H.
  destruct (next_removal (kp_phase k)) as [[r p]|] eqn:Ep; [|done]. simplify_eq/=.
  destruct (remove_ok _ _ r (li_wf s Hinv)) as [Hwf Hl]. set (s' := with_node _ _ _) in *.
  assert (Hlive : ∀ r', live s' r' = if decide (r' = r) then None else live s r') by apply Hl.
  destruct (li_nodes s Hinv n k Ek) as [N1 N2 N3 N4].
  destruct (next_removal_refs _ _ _ Ep) as (Hrp & Hsub & Hown & Htodo).
  split; simpl; [done|done|..].
  - intros n0 k0 H0. apply lookup_insert_Some in H0 as [[<- <-]|[_ H0]].
    + split; simpl.
      * by apply Htodo.
      * unfold renews_own. simpl. clear -Ep. destruct (kp_phase k) as [| |? []| | | |? []|[]]; by simplify_eq/=.
      * intros refs e ->. clear -Ep. destruct (kp_phase k) as [| |? []| | | |? []|[]]; by simplify_eq/=.
      * intros batch todo x -> Hx. rewrite Hlive. case_decide as Hd; [by right|].
        destruct (kp_phase k) as [| |b [|y l]| | | |b [|y l]|[|y l]] eqn:Eph; simplify_eq/=.
        destruct (N4 _ _ x eq_refl Hx) as [Hin|]; [|by right]. left.
        by apply elem_of_cons in Hin as [->|].
    + apply (node_ok_frame s); [by eapply (li_nodes s Hinv)|done|]. intros x _ Hx.
      rewrite Hlive. by case_decide.
  - intros x e Hx. pose proof Hx as Hx'. rewrite Hlive in Hx'. case_decide as Hd; [done|].
    eapply (accounted_step s s' x e []); [done|done|done| |by apply (li_acc s Hinv)].
    eapply owned_step; [done|reflexivity|]. rewrite !elem_of_owned. intros [Hb|Hp]; left; [by left|].
    right. simpl. destruct (Hown x Hp); [done|done].
Qed.

Lemma inv_renew s n s' :
  exec leaseTTL limitOf (LRenew n) s = Some s' → leases_inv s → leases_inv s'.
Proof.
  intros H Hinv. pose proof (exec_distinct _ _ _ H (li_distinct s Hinv)) as Hds.
  simpl in H. destruct (cl_nodes s !! n) as [k|] eqn:Ek; [|done]. simpl in H.
  destruct (kp_phase k) as [| | | |refs expiry| | |] eqn:Ep; try done. simplify_eq/=.
  destruct (li_nodes s Hinv n k Ek) as [N1 N2 N3 N4]. unfold renews_own in N2. rewrite Ep in N2.
  destruct (renew_ok _ _ refs expiry (li_wf s Hinv) (N3 _ _ Ep)) as [Hwf Hl]. set (s' := with_node _ _ _) in *.
  assert (Hlive : ∀ r, live s' r = if decide (r ∈ refs) then live_expiry (cl_now s) expiry else live s r)
    by apply Hl.
  split; simpl; [done|done|..].
  - intros n0 k0 H0. apply lookup_insert_Some in H0 as [[<- <-]|[Hne H0]]; [by split|].
    apply (node_ok_frame s); [by eapply (li_nodes s Hinv)|done|]. intros x Hx Hn.
    rewrite Hlive, decide_False; [done|]. intros Hin. apply Hne.
    apply (ds_nodes s (li_distinct s Hinv) n n0 k k0 x x Ek H0); [..|done]; rewrite elem_of_refs.
    + do 2 right. left. by apply N2.
    + by do 3 right.
  - intros x e Hx. pose proof Hx as Hx'. rewrite Hlive in Hx'. case_decide as Hd.
    + left. exists n, (set_phase Renewed k). simpl. split; [apply lookup_insert_eq|].
      rewrite elem_of_owned. left. by apply N2.
    + eapply (accounted_step s s' x e []); [done|done|done| |by apply (li_acc s Hinv)].
      eapply owned_step; [done|reflexivity|]. rewrite !elem_of_owned. intros [Hb|Hp]; left; [by left|].
      rewrite Ep in Hp. by apply elem_of_nil in Hp.
Qed.

Lemma inv_exit s n s' :
  exec leaseTTL limitOf (LExit n) s = Some s' → leases_inv s → leases_inv s'.
Proof.
  intros H Hinv. pose proof (exec_distinct _ _ _ H (li_distinct s Hinv)) as Hds.
  simpl in H. destruct (cl_nodes s !! n) as [k|] eqn:Ek; [|done]. simplify_eq/=.
  split; simpl; [done|apply Hinv|..].
  - intros n0 k0 H0. apply lookup_delete_Some in H0 as [_ H0].
    apply (node_ok_frame s); [by eapply (li_nodes s Hinv)|done|done].
  - intros r e Hr. eapply (accounted_step s _ r e (owned k)); [apply Hinv|done|done| |by apply (li_acc s Hinv)].
    intros n0 k0 H0 Hin. simpl. destruct (decide (n = n0)) as [<-|Hne]; [simplify_eq; by right|].
    left. exists n0, k0. by rewrite lookup_delete_ne.
Qed.

Lemma exec_inv l s s' : exec leaseTTL limitOf l s = Some s' → leases_inv s → leases_inv s'.
Proof.
  destruct l; [apply inv_tick|apply inv_join|apply inv_acquire|apply inv_local|apply inv_zrem
              |apply inv_renew|apply inv_exit].
Qed.

(** A store without leases, as the cluster starts. *)
Definition empty_store (w : W) (now : Time) : Prop :=
  lease_wf w now ∧ ∀ r, live_until w now r = None.

Lemma init_inv w now : empty_store w now → leases_inv (init w now).
Proof.
  intros [Hwf He]. split; simpl; [split; by simpl|done|done|].
  intros r e Hr. unfold live in Hr. simpl in Hr. by rewrite He in Hr.
Qed.

Lemma exec_all_inv ls s s' : exec_all leaseTTL limitOf ls s = Some s' → leases_inv s → leases_inv s'.
Proof.
  revert s. induction ls as [|l ls IH]; intros s H Hs; simpl in H; [by simplify_eq|].
  destruct (exec leaseTTL limitOf l s) as [s1|] eqn:E; [|done]. simpl in H.
  eapply IH; [done|]. by eapply exec_inv.
Qed.

(** *** Leases nobody mentions *)

Definition unmentioned s (m : string) : Prop :=
  m ∈ cl_used s ∧ ∀ n k r, cl_nodes s !! n = Some k → r ∈ refs_of k → lr_member r ≠ m.

(** They are not revived, and stay unmentioned. *)
Lemma unmentioned_step l s s' r :
  exec leaseTTL limitOf l s = Some s' → leases_inv s → unmentioned s (lr_member r) →
  unmentioned s' (lr_member r) ∧ ∀ e, live s' r = Some e → live s r = Some e.
Proof.
  intros H Hinv [Hu Hno].
  assert (Hupd : ∀ n k k', cl_nodes s !! n = Some k →
    (∀ x, x ∈ refs_of k' → x ∈ refs_of k ∨ lr_member x ∉ cl_used s) →
    ∀ n0 k0 x, <[n := k']> (cl_nodes s) !! n0 = Some k0 → x ∈ refs_of k0 → lr_member x ≠ lr_member r).
  { intros n k k' Hk Hsub n0 k0 x H0 Hx. apply lookup_insert_Some in H0 as [[_ <-]|[_ H0]]; [|by eapply Hno].
    destruct (Hsub x Hx) as [?|Hf]; [by eapply Hno|]. intros E. apply Hf. by rewrite E. }
  destruct l as [d|n|n t a m replied|n l|n|n|n]; simpl in H.
  - destruct (Z.ltb_spec d 0); [done|]. simplify_eq. split; [done|]. intros e He.
    unfold live in *. simpl in He. rewrite (leases_later (cl_store s) (cl_now s)) in He;
      [|apply Hinv|unfold time_Add; lia].
    destruct (live_until _ _ _); [|done]. simpl in He. unfold live_expiry in He. by case_match.
  - destruct (cl_nodes s !! n) as [k|] eqn:Ek; simplify_eq. split; [|done]. split; [done|]. simpl.
    intros n0 k0 x H0 Hx. apply lookup_insert_Some in H0 as [[_ <-]|[_ H0]]; [|by eapply Hno].
    rewrite elem_of_refs, elem_of_base in Hx. simpl in Hx. revert Hx. refs_solver.
  - case_bool_decide as Hm; [done|]. simpl in H. destruct (Z.ltb_spec (cl_now s) t) as [|Ht]; [done|].
    destruct (cl_nodes s !! n) as [k|] eqn:Ek; [|done]. simpl in H.
    destruct (acquireLease _ _ _ _ _ _) as [reply w] eqn:Eacq. simplify_eq.
    destruct (acquire_ok _ _ _ _ _ _ _ _ (li_wf s Hinv) Ht Eacq) as [Hwf Hr]. split; [split|].
    + simpl. set_solver.
    + simpl. eapply Hupd; [done|]. intros x Hx. case_match; [|by left].
      rewrite elem_of_refs, elem_of_base in *. simpl in Hx. rewrite !elem_of_cons in Hx.
      destruct (decide (x = slot_ref (a, m))) as [->|Hne]; [by right|left; tauto].
    + intros e He. unfold live in *. simpl in He. destruct reply as [[[|] ?]|]; [|by rewrite Hr in He..].
      destruct Hr as [_ Hr]. rewrite Hr, decide_False in He; [done|]. intros ->. by apply Hm.
  - destruct (cl_nodes s !! n) as [k|] eqn:Ek; [|done]. simpl in H.
    destruct (local leaseTTL l (cl_now s) k) as [[k' dropped]|] eqn:El; [|done]. simplify_eq/=.
    split; [|done]. split; [done|]. eapply Hupd; [done|]. intros x Hx. left.
    eapply local_refs; [done|by left].
  - destruct (cl_nodes s !! n) as [k|] eqn:Ek; [|done]. simpl in H.
    destruct (next_removal (kp_phase k)) as [[x p]|] eqn:Ep; [|done]. simplify_eq/=. split; [split; [done|]|].
    + eapply Hupd; [done|]. intros y Hy. left. eapply set_phase_refs; [|done].
      by apply (next_removal_refs _ _ _ Ep).
    + intros e He. destruct (remove_ok _ _ x (li_wf s Hinv)) as [_ Hl]. unfold live in *. simpl in He.
      rewrite Hl in He. by case_decide.
  - destruct (cl_nodes s !! n) as [k|] eqn:Ek; [|done]. simpl in H.
    destruct (kp_phase k) as [| | | |refs expiry| | |] eqn:Ep; try done. simplify_eq/=. split; [split; [done|]|].
    + eapply Hupd; [done|]. intros y Hy. left. eapply set_phase_refs; [|done]. simpl. intros ? []%elem_of_nil.
    + intros e He. destruct (li_nodes s Hinv n k Ek) as [_ _ N3 _].
      destruct (renew_ok _ _ refs expiry (li_wf s Hinv) (N3 _ _ Ep)) as [_ Hl]. unfold live in *. simpl in He.
      rewrite Hl, decide_False in He; [done|]. intros Hin. apply (Hno n k r Ek); [|done].
      rewrite elem_of_refs, Ep. auto.
  - destruct (cl_nodes s !! n) as [k|] eqn:Ek; [|done]. simplify_eq/=. split; [|done]. split; [done|].
    simpl. intros n0 k0 x H0. apply lookup_delete_Some in H0 as [_ H0]. by eapply Hno.
Qed.

Lemma unmentioned_all ls s s' r :
  exec_all leaseTTL limitOf ls s = Some s' → leases_inv s → unmentioned s (lr_member r) →
  ∀ e, live s' r = Some e → live s r = Some e.
Proof.
  revert s. induction ls as [|l ls IH]; intros s H Hs Hu e He; simpl in H; [by simplify_eq|].
  destruct (exec leaseTTL limitOf l s) as [s1|] eqn:E; [|done]. simpl in H.
  destruct (unmentioned_step _ _ _ r E Hs Hu) as [Hu1 Hl]. apply Hl. eapply IH; eauto using exec_inv.
Qed.

(** *** Limits *)

(** A renewal in time: none of its leases has run out. *)
Definition in_time (l : Label) s : Prop :=
  match l with
  | LRenew n =>
      match cl_nodes s !! n with
      | Some k => match kp_phase k with
                  | Renewing refs _ => Forall (λ r, is_Some (live s r)) refs
                  | _ => True
                  end
      | None => True
      end
  | _ => True
  end.

Fixpoint all_in_time (ls : list Label) s : Prop :=
  match ls with
  | [] => True
  | l :: ls => in_time l s ∧
      match exec leaseTTL limitOf l s with Some s' => all_in_time ls s' | None => True end
  end.

Definition within_limits s : Prop :=
  ∀ key, Z.of_nat (size (leases (cl_store s) (cl_now s) key)) ≤ Z.max 0 (limitOf key).

Lemma leases_size_le (w w' : W) now now' key (extra : list string) :
  (∀ m, is_Some (leases w' now' key !! m) → is_Some (leases w now key !! m) ∨ m ∈ extra) →
  Z.of_nat (size (leases w' now' key)) ≤ Z.of_nat (size (leases w now key)) + Z.of_nat (length extra).
Proof.
  intros H. rewrite <- !(size_dom (D:=gset string)).
  assert (Hsub : dom (leases w' now' key) ⊆ dom (leases w now key) ∪ list_to_set extra).
  { intros m Hm. apply elem_of_dom in Hm. rewrite elem_of_union, elem_of_dom, elem_of_list_to_set. auto. }
  apply subseteq_size in Hsub. etrans; [apply inj_le, Hsub|].
  pose proof (size_union_alt (dom (leases w now key)) (list_to_set extra : gset string)) as E.
  assert (size ((list_to_set extra : gset string) ∖ dom (leases w now key)) ≤ length extra)%nat; [|lia].
  etrans; [apply (subseteq_size _ (list_to_set extra)); set_solver|].
  apply submseteq_length, NoDup_submseteq; [apply NoDup_elements|].
  intros x. by rewrite elem_of_elements, elem_of_list_to_set.
Qed.

(** The live leases of a key after a step that makes none but those of [extra] live. *)
Lemma limits_step s s' (extra : string → list string) :
  (∀ r, is_Some (live s' r) → is_Some (live s r) ∨ lr_member r ∈ extra (lr_key r)) →
  (∀ key, Z.of_nat (size (leases (cl_store s) (cl_now s) key)) + Z.of_nat (length (extra key)) ≤
     Z.max 0 (limitOf key)) →
  within_limits s'.
Proof.
  intros Hl He key. etrans; [|apply He]. apply leases_size_le. intros m Hm.
  apply (Hl (MkRef key m)). exact Hm.
Qed.

Lemma exec_within_limits l s s' :
  exec leaseTTL limitOf l s = Some s' → leases_inv s → in_time l s → within_limits s → within_limits s'.
Proof.
  intros H Hinv Ht Hlim.
  assert (Hsub : (∀ r, is_Some (live s' r) → is_Some (live s r)) → within_limits s').
  { intros Hl. apply (limits_step s s' (λ _, [])); [auto|]. intros key. specialize (Hlim key). simpl. lia. }
  destruct l as [d|n|n t a m replied|n l|n|n|n]; simpl in H.
  - destruct (Z.ltb_spec d 0); [done|]. simplify_eq. apply Hsub. intros r [e He].
    unfold live in *. simpl in He. rewrite (leases_later (cl_store s) (cl_now s)) in He;
      [|apply Hinv|unfold time_Add; lia]. destruct (live_until _ _ _); [by eexists|done].
  - destruct (cl_nodes s !! n) as [k|]; simplify_eq. by apply Hsub.
  - case_bool_decide as Hm; [done|]. simpl in H. destruct (Z.ltb_spec (cl_now s) t) as [|Htn]; [done|].
    destruct (cl_nodes s !! n) as [k|] eqn:Ek; [|done]. simpl in H.
    destruct (acquireLease _ _ _ _ _ _) as [reply w] eqn:Eacq.
    destruct (acquire_ok _ _ _ _ _ _ _ _ (li_wf s Hinv) Htn Eacq) as [_ Hr]. simplify_eq.
    destruct reply as [[[|] ?]|]; [|apply Hsub; intros r; unfold live; simpl; by rewrite Hr..].
    destruct Hr as [Hsize Hr].
    apply (limits_step s _ (λ key, if decide (key = accountSlotKey a) then [m] else [])).
    + intros r [e He]. unfold live in He. simpl in He. rewrite Hr in He.
      destruct (decide (r = MkRef (accountSlotKey a) m)) as [->|]; [right|left; exists e; exact He].
      cbn [lr_key lr_member]. rewrite decide_True by reflexivity. apply list_elem_of_here.
    + intros key. specialize (Hlim key). destruct (decide (key = accountSlotKey a)) as [->|]; simpl; lia.
  - destruct (cl_nodes s !! n) as [k|]; [|done]. simpl in H.
    destruct (local leaseTTL l (cl_now s) k) as [[k' dropped]|]; [|done]. simplify_eq/=. by apply Hsub.
  - destruct (cl_nodes s !! n) as [k|]; [|done]. simpl in H.
    destruct (next_removal (kp_phase k)) as [[x p]|]; [|done]. simplify_eq/=. apply Hsub.
    intros r [e He]. destruct (remove_ok _ _ x (li_wf s Hinv)) as [_ Hl]. unfold live in *. simpl in He.
    rewrite Hl in He. case_decide; [done|by eexists].
  - simpl in Ht. destruct (cl_nodes s !! n) as [k|] eqn:Ek; [|done]. simpl in H.
    destruct (kp_phase k) as [| | | |refs expiry| | |] eqn:Ep; try done. simplify_eq/=. apply Hsub.
    intros r [e He]. destruct (li_nodes s Hinv n k Ek) as [_ _ N3 _].
    destruct (renew_ok _ _ refs expiry (li_wf s Hinv) (N3 _ _ Ep)) as [_ Hl]. unfold live in He. simpl in He.
    rewrite Hl in He. case_decide as Hin; [|by eexists].
    rewrite Forall_forall in Ht. by apply Ht.
  - destruct (cl_nodes s !! n) as [k|]; [|done]. simplify_eq/=. by apply Hsub.
Qed.

Lemma exec_all_within_limits ls s s' :
  exec_all leaseTTL limitOf ls s = Some s' → all_in_time ls s → leases_inv s → within_limits s →
  within_limits s' ∧ leases_inv s'.
Proof.
  revert s. induction ls as [|l ls IH]; intros s H Ht Hs Hlim; simpl in H; [by simplify_eq|].
  destruct (exec leaseTTL limitOf l s) as [s1|] eqn:E; [|done]. simpl in H, Ht. destruct Ht as [Ht1 Ht2].
  rewrite E in Ht2. eapply IH; eauto using exec_inv, exec_within_limits.
Qed.

(** The slots on a key that requests of the cluster hold under a live lease. *)
Definition cluster_slots s : list (string * string) := map_to_list (cl_nodes s) ≫= λ p, slots p.2.

Definition slots_on s (key : string) : list (string * string) :=
  filter (λ sl, accountSlotKey sl.1 = key ∧ is_Some (live s (slot_ref sl))) (cluster_slots s).

Lemma NoDup_bind_snd {A} (l : list A) (f : A → list (string * string)) :
  NoDup l → (∀ x, x ∈ l → NoDup (f x).*2) →
  (∀ x y a b, x ∈ l → y ∈ l → a ∈ f x → b ∈ f y → a.2 = b.2 → x = y) →
  NoDup (l ≫= f).*2.
Proof.
  induction l as [|x l IH]; intros Hnd Hf Hd; [constructor|]. apply NoDup_cons in Hnd as [Hx Hnd].
  rewrite bind_cons, fmap_app. apply NoDup_app. split; [apply Hf; left|]. split.
  - intros m Hm Hm'. apply list_elem_of_fmap in Hm as (a & -> & Ha).
    apply list_elem_of_fmap in Hm' as (b & E & Hb). apply list_elem_of_bind in Hb as (y & Hb & Hy).
    apply Hx. rewrite (Hd x y a b); [done|left|by right|done..].
  - apply IH; [done|..].
    + intros y Hy. apply Hf. by right.
    + intros y z a b Hy Hz. apply Hd; by right.
Qed.

Lemma cluster_slots_NoDup s : distinct s → NoDup (cluster_slots s).*2.
Proof.
  intros Hds. apply NoDup_bind_snd; [apply NoDup_map_to_list|..].
  - intros [n k] Hin. apply elem_of_map_to_list in Hin. by eapply ds_slots.
  - intros [n k] [n' k'] a b Hx%elem_of_map_to_list Hy%elem_of_map_to_list Ha Hb E.
    assert (n = n') as <-; [|by simplify_eq].
    eapply (ds_nodes s Hds n n' k k' (slot_ref a) (slot_ref b)); eauto using slots_refs.
Qed.

Lemma slots_on_bound s key : leases_inv s → within_limits s →
  Z.of_nat (length (slots_on s key)) ≤ Z.max 0 (limitOf key).
Proof.
  intros Hinv Hlim. etrans; [|apply (Hlim key)]. apply inj_le.
  rewrite <- (size_dom (D:=gset string)), <- (length_fmap snd).
  assert (Hnd : NoDup (slots_on s key).*2).
  { eapply NoDup_sub; [|apply cluster_slots_NoDup, (li_distinct s Hinv)].
    apply fmap_submseteq, sublist_submseteq, sublist_filter. }
  rewrite <- (size_list_to_set (C:=gset string)) by done. apply subseteq_size.
  intros m. rewrite elem_of_list_to_set, elem_of_dom. intros Hm.
  apply list_elem_of_fmap in Hm as ([a m'] & -> & Hin). simpl.
  apply list_elem_of_filter in Hin as [[<- Hl] _]. exact Hl.
Qed.

(** *** A slot released before it is tracked *)

(** A lease the node renews although no slot stands for it. *)
Definition leaked k r : Prop :=
  r ∈ kp_held k ∧ r ∉ kp_popped k ∧ ∀ sl, sl ∈ slots k → slot_ref sl ≠ r.

Lemma local_leaked l now k k' dropped r :
  local leaseTTL l now k = Some (k', dropped) → l ≠ KStop → leaked k r → leaked k' r.
Proof.
  intros H Hl (Hh & Hp & Hs).
  assert (Hs' : ∀ sl, sl ∈ slots k' → slot_ref sl ≠ r).
  { intros sl Hin. apply Hs. eapply elem_of_submseteq; [done|]. by eapply local_slots. }
  unfold leaked. split; [|split; [|exact Hs']]; clear Hs'.
  - local_cases H; try done; try case_bool_decide; simpl; try set_solver.
    apply elem_of_difference. split; [done|]. intros ->%elem_of_singleton. apply Hp.
    rewrite (take_out_elem _ r0 _ _ E). by left.
  - local_cases H; try done; try case_bool_decide; simpl; try set_solver.
    + apply not_elem_of_cons. split; [|done]. intros ->. eapply Hs; [|reflexivity].
      unfold slots. rewrite elem_of_app, (pop_member_perm _ _ _ _ E). right. left.
    + rewrite (take_out_elem _ r _ _ E) in Hp. tauto.
Qed.

Lemma exec_leaked l s s' n k r :
  exec leaseTTL limitOf l s = Some s' → l ≠ LLocal n KStop → l ≠ LExit n → leases_inv s →
  cl_nodes s !! n = Some k → leaked k r → ∃ k', cl_nodes s' !! n = Some k' ∧ leaked k' r.
Proof.
  intros H Hns Hne Hinv Hk Hleak. assert (Hk' := Hleak). destruct Hk' as (Hh & Hp & Hs).
  destruct l as [d|n0|n0 t a m replied|n0 l|n0|n0|n0]; simpl in H.
  - destruct (d <? 0); simplify_eq. eauto.
  - destruct (cl_nodes s !! n0) as [k0|] eqn:E0; simplify_eq. exists k. split; [|done]. simpl.
    rewrite lookup_insert_ne; [done|]. congruence.
  - case_bool_decide as Hm; [done|]. simpl in H. destruct (cl_now s <? t); [done|].
    destruct (cl_nodes s !! n0) as [k0|] eqn:E0; [|done]. simpl in H.
    destruct (acquireLease _ _ _ _ _ _) as [reply w]. simplify_eq. simpl.
    destruct (decide (n0 = n)) as [->|]; [|by rewrite lookup_insert_ne; eauto].
    rewrite lookup_insert_eq. simplify_eq. eexists. split; [done|]. case_match; [|done].
    split; [done|]. split; [done|]. intros sl Hin. rewrite slots_got in Hin by done.
    apply elem_of_cons in Hin as [->|Hin]; [|by apply Hs]. intros <-. apply Hm.
    eapply (ds_used s (li_distinct s Hinv) n _ (slot_ref (a, m))); [eassumption|].
    rewrite elem_of_refs, elem_of_base. simpl in Hh. tauto.
  - destruct (cl_nodes s !! n0) as [k0|] eqn:E0; [|done]. simpl in H.
    destruct (local leaseTTL l (cl_now s) k0) as [[k' dropped]|] eqn:El; [|done]. simplify_eq/=.
    destruct (decide (n0 = n)) as [->|]; [|by rewrite lookup_insert_ne; eauto].
    rewrite lookup_insert_eq. simplify_eq. eexists. split; [done|]. eapply local_leaked; eauto. congruence.
  - destruct (cl_nodes s !! n0) as [k0|] eqn:E0; [|done]. simpl in H.
    destruct (next_removal (kp_phase k0)) as [[x p]|]; [|done]. simplify_eq/=.
    destruct (decide (n0 = n)) as [->|]; [|by rewrite lookup_insert_ne; eauto].
    rewrite lookup_insert_eq. simplify_eq. eexists. split; [done|]. done.
  - destruct (cl_nodes s !! n0) as [k0|] eqn:E0; [|done]. simpl in H.
    destruct (kp_phase k0) as [| | | |refs expiry| | |]; try done. simplify_eq/=.
    destruct (decide (n0 = n)) as [->|]; [|by rewrite lookup_insert_ne; eauto].
    rewrite lookup_insert_eq. simplify_eq. eexists. split; [done|]. done.
  - destruct (cl_nodes s !! n0) as [k0|] eqn:E0; [|done]. simplify_eq/=. exists k.
    rewrite lookup_delete_ne by congruence. done.
Qed.

Lemma exec_all_leaked ls s s' n k r :
  exec_all leaseTTL limitOf ls s = Some s' → LLocal n KStop ∉ ls → LExit n ∉ ls → leases_inv s →
  cl_nodes s !! n = Some k → leaked k r → ∃ k', cl_nodes s' !! n = Some k' ∧ leaked k' r.
Proof.
  revert s k. induction ls as [|l ls IH]; intros s k H Hns Hne Hinv Hk Hleak; simpl in H;
    [simplify_eq; eauto|].
  apply not_elem_of_cons in Hns as [Hns1 Hns2]. apply not_elem_of_cons in Hne as [Hne1 Hne2].
  destruct (exec leaseTTL limitOf l s) as [s1|] eqn:E; [|done]. simpl in H.
  destruct (exec_leaked l s s1 n k r) as (k1 & Hk1 & Hl1); [done|congruence|congruence|done..|].
  eapply IH; eauto using exec_inv.
Qed.

End cluster_lemmas.

(** ** Theorems *)

Section cluster_theorems.
Context {D : Digest} (leaseTTL : Duration) {W : Type} {LS : LeaseStore W} (limitOf : string → Z).
Context {OK : LeaseStoreOK W leaseTTL}.

(** C24: no slot is lost: whatever the nodes of a cluster do, in whatever order, with
    whatever failures of their pipelines, replies and processes, a lease that is live
    in the store belongs to a running node, as a slot, as one about to be given back or
    as one whose removal will be tried, or else it lost its node at a known time and
    does not live longer than one TTL from then. *)
Theorem live_leases_accounted w now ls s r e :
  empty_store leaseTTL w now → exec_all leaseTTL limitOf ls (init w now) = Some s →
  live s r = Some e →
  (∃ n k, cl_nodes s !! n = Some k ∧ r ∈ owned k) ∨
  (∃ t, cl_orphans s !! r = Some t ∧ e ≤ unix_milli (t + leaseTTL)).
Proof. intros Hw Hs Hr. eapply (li_acc leaseTTL s); [|done]. by eapply exec_all_inv, init_inv. Qed.

(** The slots of a node that dies come back: one TTL after a process ended, however
    it ended and whatever the others did since, none of the leases it had anything to
    do with is live. *)
Lemma dead_node_slots_return w now ls s n k s1 ls' s2 r :
  empty_store leaseTTL w now → exec_all leaseTTL limitOf ls (init w now) = Some s →
  cl_nodes s !! n = Some k → r ∈ refs_of k →
  exec leaseTTL limitOf (LExit n) s = Some s1 → exec_all leaseTTL limitOf ls' s1 = Some s2 →
  cl_now s1 + leaseTTL ≤ cl_now s2 → live s2 r = None.
Proof.
  intros Hw Hs Hk Hr H1 H2 Ht.
  assert (Hinv : leases_inv leaseTTL s) by by eapply exec_all_inv, init_inv.
  assert (Hinv1 : leases_inv leaseTTL s1) by by eapply exec_inv.
  assert (Hinv2 : leases_inv leaseTTL s2) by by eapply exec_all_inv.
  destruct (live s2 r) as [e|] eqn:E; [exfalso|done].
  assert (E1 : live s1 r = Some e).
  { eapply unmentioned_all; [exact H2|done| |done]. simpl in H1. rewrite Hk in H1. simplify_eq/=.
    pose proof (li_distinct _ _ Hinv) as Hds. split; [by apply (ds_used s Hds n k)|].
    simpl. intros n' k' r' [Hne H']%lookup_delete_Some Hr' Em. apply Hne. symmetry.
    by apply (ds_nodes s Hds n' n k' k r' r). }
  pose proof (leases_bound _ _ _ _ (li_wf _ _ Hinv1) E1) as [_ Hb].
  pose proof (leases_bound _ _ _ _ (li_wf _ _ Hinv2) E) as [Hl _].
  pose proof (unix_milli_mono _ _ Ht). lia.
Qed.

(** C6: the limit of an account holds for the whole cluster: as long as no renewal
    finds a lease that has run out, the requests of all nodes together never hold more
    slots with a live lease than the limit of the account, whatever the order in which
    nodes take, hand on, give back and renew them, and whatever fails. *)
Theorem cluster_limit_kept w now ls s key :
  empty_store leaseTTL w now → exec_all leaseTTL limitOf ls (init w now) = Some s →
  all_in_time leaseTTL limitOf ls (init w now) →
  Z.of_nat (length (slots_on s key)) ≤ Z.max 0 (limitOf key).
Proof.
  intros Hw Hs Ht. destruct (exec_all_within_limits leaseTTL limitOf _ _ _ Hs Ht (init_inv _ _ _ Hw)).
  - intros key'. simpl. assert (leases w now key' = ∅) as ->; [|rewrite map_size_empty; lia].
    apply map_eq. intros m. rewrite lookup_empty. apply (proj2 Hw (MkRef key' m)).
  - by eapply slots_on_bound.
Qed.

End cluster_theorems.

(** An empty database holds no leases. *)
Lemma empty_database {K : Keyspace} leaseTTL (Hpos : Millisecond ≤ leaseTTL) now :
  empty_store (LS:=redis_leases leaseTTL) (OK:=redis_leases_ok leaseTTL Hpos) leaseTTL db_empty now.
Proof.
  assert (Hm : ∀ u key, members db_empty u key = ∅) by (intros; unfold members; by rewrite read_empty).
  split.
  - intros key. split.
    + rewrite read_empty. by eexists.
    + intros m s. by rewrite Hm.
    + intros u _. left. by rewrite !Hm.
  - intros r. rewrite live_until_members, Hm, lookup_empty. done.
Qed.

(** ** Concrete executions *)

#[local] Existing Instances list_keyspace joined.

Definition ttl : Duration := 90 * Second.
Lemma ttl_pos : Millisecond ≤ ttl. Proof. done. Qed.
#[local] Instance ttl_leases : LeaseStore DB := redis_leases ttl.
#[local] Instance ttl_leases_ok : LeaseStoreOK DB ttl := redis_leases_ok ttl ttl_pos.

Definition two_slots : string → Z := λ _, 2.
Definition at_start : Cluster DB := init db_empty 0.
Definition run (ls : list Label) : Cluster DB := default at_start (exec_all ttl two_slots ls at_start).

(** A request takes a slot. *)
Definition takes (member : string) : list Label :=
  [LAcquire "n" 0 "a" member true; LLocal "n" (KAppend "a" member);
   LLocal "n" (KTrack (slot_ref ("a", member)))].

(** A request gives back the slot [member], and the goroutine removes its lease. *)
Definition gives_back (member : string) : list Label :=
  [LLocal "n" (KPop "a"); LLocal "n" (KUntrack (slot_ref ("a", member)));
   LLocal "n" (KSend (slot_ref ("a", member))); LLocal "n" KReceive; LLocal "n" KFlush; LZRem "n";
   LLocal "n" KDone].

Definition renewal : list Label :=
  [LLocal "n" KSnapshot; LLocal "n" KStamp; LRenew "n"; LLocal "n" (KRetry true)].

(** A request that holds m1 ends while the one that has taken m2 is not yet tracked:
    m2 is the one released; then the other is tracked, ends, and releases m1. *)
Definition racing : list Label :=
  [LJoin "n"] ++ takes "m1" ++
  [LAcquire "n" 0 "a" "m2" true; LLocal "n" (KAppend "a" "m2")] ++ gives_back "m2" ++
  [LLocal "n" (KTrack (slot_ref ("a", "m2")))] ++ gives_back "m1" ++
  [LTick (30 * Second)] ++ renewal.

(** C38: a slot that is released between its acquisition and its tracking is lost to the
    cluster for as long as the node runs. [AcquireAccountSlot] puts the member into the
    pool before [track]; a request that ends in between takes it out again, and its
    removal runs before [track] marks it as held. In this execution, in which nothing
    fails, no request holds a slot any more and no removal is queued, yet the lease is
    live and renewed; and in every execution from there on, the node neither stops
    renewing it nor has a slot that stands for it. *)
Theorem release_before_track_leaks :
  ∃ s k, exec_all ttl two_slots racing at_start = Some s ∧ cl_nodes s !! "n" = Some k ∧
    cluster_slots s = [] ∧ kp_releases k = [] ∧ kp_pending k = ∅ ∧ kp_phase k = Idle ∧
    is_Some (live s (slot_ref ("a", "m2"))) ∧
    ∀ ls s', LLocal "n" KStop ∉ ls → LExit "n" ∉ ls → exec_all ttl two_slots ls s = Some s' →
      ∃ k', cl_nodes s' !! "n" = Some k' ∧ leaked k' (slot_ref ("a", "m2")).
Proof.
  assert (Hs : exec_all ttl two_slots racing at_start = Some (run racing)) by (vm_compute; reflexivity).
  assert (Hk : is_Some (cl_nodes (run racing) !! "n")) by (vm_compute; eexists; reflexivity).
  destruct Hk as [k Hk]. exists (run racing), k.
  assert (Hobs : from_option (λ k, bool_decide (slot_ref ("a", "m2") ∈ kp_held k) &&
    bool_decide (kp_popped k = []) && bool_decide (slots k = []) && bool_decide (kp_releases k = []) &&
    bool_decide (kp_pending k = ∅)) false (cl_nodes (run racing) !! "n") = true) by (vm_compute; reflexivity).
  assert (Hph : kp_phase <$> (cl_nodes (run racing) !! "n") = Some Idle) by (vm_compute; reflexivity).
  rewrite Hk in Hobs, Hph. cbn [from_option] in Hobs. zbool.
  repeat match goal with H : bool_decide _ = true |- _ => apply bool_decide_eq_true_1 in H end.
  do 2 (split; [done|]). split; [vm_compute; reflexivity|]. do 2 (split; [done|]).
  split; [by inversion Hph|]. split; [vm_compute; eexists; reflexivity|].
  intros ls s' Hns Hne Hls.
  refine (exec_all_leaked ttl two_slots ls (run racing) s' "n" k _ Hls Hns Hne _ Hk _).
  - exact (exec_all_inv ttl two_slots _ _ _ Hs (init_inv ttl _ _ (empty_database ttl ttl_pos 0))).
  - split; [done|]. match goal with H : kp_popped k = [] |- _ => rewrite H end.
    split; [apply not_elem_of_nil|]. intros sl Hin.
    match goal with H : slots k = [] |- _ => rewrite H in Hin end.
    destruct (not_elem_of_nil _ Hin).
Qed.

Lemma live_leases_accounted_witness :
  accounted_for ttl (run ([LJoin "n"] ++ takes "m1" ++ [LExit "n"; LTick (60 * Second)]))
    (slot_ref ("a", "m1")) (unix_milli ttl).
Proof.
  refine (live_leases_accounted ttl two_slots db_empty 0
    ([LJoin "n"] ++ takes "m1" ++ [LExit "n"; LTick (60 * Second)]) _ (slot_ref ("a", "m1"))
    (unix_milli ttl) (empty_database ttl ttl_pos 0) _ _); vm_compute; reflexivity.
Defined.

Lemma dead_node_slots_return_witness :
  live (run ([LJoin "n"] ++ takes "m1" ++ [LExit "n"; LTick (60 * Second); LTick (30 * Second)]))
    (slot_ref ("a", "m1")) = None.
Proof.
  refine (dead_node_slots_return ttl two_slots db_empty 0 ([LJoin "n"] ++ takes "m1")
    (run ([LJoin "n"] ++ takes "m1")) "n"
    (default newLeaseKeeper (cl_nodes (run ([LJoin "n"] ++ takes "m1")) !! "n"))
    (run ([LJoin "n"] ++ takes "m1" ++ [LExit "n"])) [LTick (60 * Second); LTick (30 * Second)] _
    (slot_ref ("a", "m1")) (empty_database ttl ttl_pos 0) _ _ _ _ _ _).
  - vm_compute; reflexivity.
  - vm_compute; reflexivity.
  - apply (bool_decide_unpack _). vm_compute. exact I.
  - vm_compute; reflexivity.
  - vm_compute; reflexivity.
  - vm_compute; discriminate.
Defined.

Lemma cluster_limit_kept_witness :
  Z.of_nat (length (slots_on (run ([LJoin "n"; LJoin "n2"] ++ takes "m1" ++ [LTick (30 * Second)] ++ renewal ++
    [LAcquire "n2" 0 "a" "m3" true; LAcquire "n" 0 "a" "m4" true])) (accountSlotKey "a"))) ≤ 2.
Proof.
  refine (cluster_limit_kept ttl two_slots db_empty 0
    ([LJoin "n"; LJoin "n2"] ++ takes "m1" ++ [LTick (30 * Second)] ++ renewal ++
    [LAcquire "n2" 0 "a" "m3" true; LAcquire "n" 0 "a" "m4" true]) _ (accountSlotKey "a")
    (empty_database ttl ttl_pos 0) _ _).
  - vm_compute; reflexivity.
  - vm_compute. repeat split. repeat constructor. eexists. reflexivity.
Defined.
