(* ===== verification/ThrottlePolicy.v ===== *)
(** * Policies of the login throttle

    Models [src/internal/api/handlers/management/login_throttle_policy.go], the scopes,
    outcomes and keys of [login_throttle.go] and [login_throttle_key.go], and the
    operator's override of [ip_access_throttle.go]: how many failures a bucket admits in
    which windows and the ladder of blocks behind them. *)
From S2P Require Import Prelude GoModel.

(** ** Scopes, outcomes and policies *)

Inductive throttleScope :=
| scopeUnauthenticated
| scopeManagementKey
| scopeUserPassword
| scopeUserAccount
| scopeRefresh
| scopePortalPassword
| scopePortalAccount.

#[export] Instance throttleScope_eq_dec : EqDecision throttleScope.
Proof. solve_decision. Defined.

Definition all_scopes : list throttleScope :=
  [scopeUnauthenticated; scopeManagementKey; scopeUserPassword; scopeUserAccount; scopeRefresh;
   scopePortalPassword; scopePortalAccount].

(** The value of the constant. *)
Definition scope_code (s : throttleScope) : nat :=
  match s with
  | scopeUnauthenticated => 0 | scopeManagementKey => 1 | scopeUserPassword => 2
  | scopeUserAccount => 3 | scopeRefresh => 4 | scopePortalPassword => 5 | scopePortalAccount => 6
  end.

#[export] Program Instance throttleScope_countable : Countable throttleScope :=
  inj_countable scope_code (λ n, all_scopes !! n) _.
Next Obligation. by intros []. Qed.

(** [throttleScope.String] *)
Definition scope_String (s : throttleScope) : string :=
  match s with
  | scopeUnauthenticated => "unauthenticated"
  | scopeManagementKey => "management_key"
  | scopeUserPassword => "user_password"
  | scopeUserAccount => "user_account"
  | scopeRefresh => "refresh"
  | scopePortalPassword => "portal_password"
  | scopePortalAccount => "portal_account"
  end.

Inductive throttleOutcome := outcomeAllow | outcomeRateLimited | outcomeBlocked.

#[export] Instance throttleOutcome_eq_dec : EqDecision throttleOutcome.
Proof. solve_decision. Defined.

Record throttleWindow := MkWindow { tw_Limit : Z; tw_Window : Duration }.

Record throttlePolicy := MkPolicy {
  tp_Short : throttleWindow; tp_Long : throttleWindow; tp_Backoff : list Duration;
  tp_ResetAfter : Duration; tp_HardBlock : bool }.

Record throttleDecision := MkDecision {
  td_Outcome : throttleOutcome; td_RetryAfter : Duration; td_Scope : throttleScope;
  td_Generation : Z; td_ShortCount : Z; td_LongCount : Z; td_NewlyArmed : bool }.

(** [throttleDecision{Scope: key.Scope}] *)
Definition allowed (s : throttleScope) : throttleDecision := MkDecision outcomeAllow 0 s 0 0 0 false.

Record throttleKey := MkKey { tk_Scope : throttleScope; tk_Value : string; tk_Shared : bool }.

#[export] Instance throttleKey_eq_dec : EqDecision throttleKey.
Proof. solve_decision. Defined.

Definition throttleShortSlotCount : nat := 12.
Definition throttleLongSlotCount : nat := 24.
Definition throttleShardCount : Z := 16.
Definition maxTrackedKeys : Z := 20000.
Definition throttleEvictBatchRatio : Z := 8.
Definition throttleMinIdleRetention : Duration := 2 * Hour.
Definition maxShardKeys : Z := Z.quot maxTrackedKeys throttleShardCount.

Definition defaultLoginFailureWindow : Duration := 15 * Minute.
Definition defaultAccountFailureLimit : Z := 5.
Definition defaultManagementKeyFailureLimit : Z := 10.
Definition defaultUnauthenticatedLimit : Z := 300.
Definition defaultFailureResetAfter : Duration := 12 * Hour.

(** The zero values. *)
Definition no_window : throttleWindow := MkWindow 0 0.
Definition no_policy : throttlePolicy := MkPolicy no_window no_window [] 0 false.

Abbreviation Policies := (gmap throttleScope throttlePolicy) (only parsing).

Definition default_policy (s : throttleScope) : throttlePolicy :=
  match s with
  | scopeUnauthenticated =>
      MkPolicy (MkWindow defaultUnauthenticatedLimit Hour) no_window [Minute; 5 * Minute] (2 * Hour) false
  | scopeManagementKey =>
      MkPolicy (MkWindow defaultManagementKeyFailureLimit defaultLoginFailureWindow)
        (MkWindow 100 (24 * Hour)) [Minute; 5 * Minute; 15 * Minute; 30 * Minute]
        defaultFailureResetAfter true
  | scopeUserPassword =>
      MkPolicy (MkWindow 20 defaultLoginFailureWindow) (MkWindow 100 (24 * Hour))
        [Minute; 5 * Minute; 15 * Minute] defaultFailureResetAfter false
  | scopeUserAccount =>
      MkPolicy (MkWindow defaultAccountFailureLimit defaultLoginFailureWindow) (MkWindow 50 (24 * Hour))
        [Minute; 5 * Minute; 15 * Minute; 30 * Minute; 60 * Minute] defaultFailureResetAfter false
  | scopeRefresh =>
      MkPolicy (MkWindow 60 (5 * Minute)) no_window [Minute] Hour false
  | scopePortalPassword =>
      MkPolicy (MkWindow 20 defaultLoginFailureWindow) (MkWindow 100 (24 * Hour))
        [Minute; 5 * Minute; 15 * Minute] defaultFailureResetAfter false
  | scopePortalAccount =>
      MkPolicy (MkWindow defaultAccountFailureLimit defaultLoginFailureWindow) (MkWindow 50 (24 * Hour))
        [Minute; 5 * Minute; 15 * Minute; 30 * Minute; 60 * Minute] defaultFailureResetAfter false
  end.

Definition defaultThrottlePolicies : gmap throttleScope throttlePolicy :=
  list_to_map ((λ s, (s, default_policy s)) <$> all_scopes).

Definition credentialGuessScopes : list throttleScope :=
  [scopeManagementKey; scopeUserPassword; scopeUserAccount; scopePortalPassword; scopePortalAccount].

(** [policy := policies[scope]; ...; policies[scope] = policy] for every scope of a list. *)
Definition update_scopes (f : throttlePolicy → throttlePolicy) (scopes : list throttleScope)
    (policies : gmap throttleScope throttlePolicy) : gmap throttleScope throttlePolicy :=
  foldl (λ m s, <[s := f (default no_policy (m !! s))]> m) policies scopes.

Definition set_short_window (window : Duration) (p : throttlePolicy) : throttlePolicy :=
  MkPolicy (MkWindow (tw_Limit (tp_Short p)) window) (tp_Long p) (tp_Backoff p) (tp_ResetAfter p)
    (tp_HardBlock p).
Definition set_short_limit (limit : Z) (p : throttlePolicy) : throttlePolicy :=
  MkPolicy (MkWindow limit (tw_Window (tp_Short p))) (tp_Long p) (tp_Backoff p) (tp_ResetAfter p)
    (tp_HardBlock p).
Definition set_reset_after (reset : Duration) (p : throttlePolicy) : throttlePolicy :=
  MkPolicy (tp_Short p) (tp_Long p) (tp_Backoff p) reset (tp_HardBlock p).

(** [config.AuthHardening], the part about failures; [ipaccess.ThrottleOverride] mirrors it. *)
Record ThrottleKnobs := MkKnobs {
  kn_LoginFailureWindowSeconds : Z; kn_AccountFailureLimit : Z; kn_ManagementKeyFailureLimit : Z;
  kn_UnauthenticatedRequestLimit : Z; kn_FailureResetHours : Z }.

Definition when_positive (z : Z) (f : throttlePolicy → throttlePolicy) (scopes : list throttleScope)
    (policies : gmap throttleScope throttlePolicy) : gmap throttleScope throttlePolicy :=
  if 0 <? z then update_scopes f scopes policies else policies.

(** The body the two overlays share. *)
Definition overlayThrottleOverride (policies : gmap throttleScope throttlePolicy) (o : ThrottleKnobs)
    : gmap throttleScope throttlePolicy :=
  let seconds := kn_LoginFailureWindowSeconds o in
  let hours := kn_FailureResetHours o in
  let policies := when_positive seconds (set_short_window (wrap64 (seconds * Second))) credentialGuessScopes policies in
  let policies := when_positive hours (set_reset_after (wrap64 (hours * Hour))) credentialGuessScopes policies in
  let limit := kn_AccountFailureLimit o in
  let policies := when_positive limit (set_short_limit limit) [scopeUserAccount; scopePortalAccount] policies in
  let limit := kn_ManagementKeyFailureLimit o in
  let policies := when_positive limit (set_short_limit limit) [scopeManagementKey] policies in
  let limit := kn_UnauthenticatedRequestLimit o in
  when_positive limit (set_short_limit limit) [scopeUnauthenticated] policies.

(** [None] is a nil configuration. *)
Definition throttlePoliciesFromConfig (cfg : option ThrottleKnobs) : gmap throttleScope throttlePolicy :=
  match cfg with
  | None => defaultThrottlePolicies
  | Some auth => overlayThrottleOverride defaultThrottlePolicies auth
  end.

Definition blockDurationFor (p : throttlePolicy) (generation : Z) : Duration :=
  let n := Z.of_nat (length (tp_Backoff p)) in
  if n =? 0 then 0
  else
    let generation := if generation <? 0 then 0 else generation in
    let generation := if n <=? generation then n - 1 else generation in
    nth (Z.to_nat generation) (tp_Backoff p) 0.

Definition applySharedKeyDowngrade (p : throttlePolicy) : throttlePolicy :=
  MkPolicy (tp_Short p)
    (if 0 <? tw_Limit (tp_Long p) then MkWindow (wrap64 (tw_Limit (tp_Long p) * 2)) (tw_Window (tp_Long p))
     else tp_Long p)
    (if (1 <? length (tp_Backoff p))%nat then take 1 (tp_Backoff p) else tp_Backoff p)
    (tp_ResetAfter p) false.

Definition blockOutcome (p : throttlePolicy) : throttleOutcome :=
  if tp_HardBlock p then outcomeBlocked else outcomeRateLimited.

(** [policyFor], on the snapshot of the policies. *)
Definition policyFor (policies : gmap throttleScope throttlePolicy) (key : throttleKey) : throttlePolicy :=
  let policy := match policies !! tk_Scope key with
                | Some policy => policy
                | None => default no_policy (defaultThrottlePolicies !! tk_Scope key)
                end in
  if tk_Shared key then applySharedKeyDowngrade policy else policy.

Definition slotDuration (window : throttleWindow) (slotCount : Z) : Duration :=
  if ((tw_Window window <=? 0) || (slotCount <=? 0)) then 0
  else Z.quot (tw_Window window) slotCount.

(** ** The policies *)

Definition all_have (Q : throttleScope → throttlePolicy → Prop) (ps : gmap throttleScope throttlePolicy) : Prop :=
  ∀ s, ∃ p, ps !! s = Some p ∧ Q s p.

Lemma update_scopes_have Q f scopes ps : (∀ s p, s ∈ scopes → Q s p → Q s (f p)) →
  all_have Q ps → all_have Q (update_scopes f scopes ps).
Proof.
  unfold update_scopes. revert ps. induction scopes as [|s scopes IH]; intros ps Hf Hps; [done|].
  cbn [foldl]. apply IH; [intros s' p Hs'; apply Hf; by right|]. intros s'.
  destruct (Hps s) as (p & Hp & HQ). rewrite Hp. cbn [default from_option id].
  destruct (decide (s' = s)) as [->|Hne].
  - rewrite lookup_insert_eq. exists (f p). split; [done|]. apply Hf; [left|done].
  - rewrite lookup_insert_ne by done. apply Hps.
Qed.

Lemma when_positive_have Q z f scopes ps : (0 < z → ∀ s p, s ∈ scopes → Q s p → Q s (f p)) →
  all_have Q ps → all_have Q (when_positive z f scopes ps).
Proof. unfold when_positive. destruct (Z.ltb_spec 0 z); [|done]. intros H'. by apply update_scopes_have, H'. Qed.

(** A policy that guards its bucket. *)
Record guards (s : throttleScope) (p : throttlePolicy) : Prop := {
  gd_limit : 0 < tw_Limit (tp_Short p);
  gd_width : 0 < slotDuration (tp_Short p) (Z.of_nat throttleShortSlotCount);
  gd_ladder : tp_Backoff p ≠ [] ∧ Forall (λ d, Minute ≤ d ≤ Hour) (tp_Backoff p);
  gd_reset : 0 < tp_ResetAfter p;
  gd_hard : tp_HardBlock p = true → s = scopeManagementKey
}.

Lemma default_guards s : guards s (default_policy s).
Proof.
  destruct s; (split; [done|done|split; [done|]|done|done]);
    apply (bool_decide_unpack _); vm_compute; exact I.
Qed.

Lemma default_policies_have Q : (∀ s, Q s (default_policy s)) → all_have Q defaultThrottlePolicies.
Proof. intros H s. exists (default_policy s). split; [by destruct s|done]. Qed.

(** Knobs whose durations do not overflow. *)
Definition knobs_ok (o : ThrottleKnobs) : Prop :=
  kn_LoginFailureWindowSeconds o * Second < two63 ∧ kn_FailureResetHours o * Hour < two63.

Lemma overlay_guards ps o : knobs_ok o → all_have guards ps → all_have guards (overlayThrottleOverride ps o).
Proof.
  intros [Hs Hh] Hps. unfold overlayThrottleOverride. cbv zeta.
  unfold Second, Hour, two63 in *.
  repeat apply when_positive_have; try done; intros Hpos s p _ [H1 H2 H3 H4 H5]; split; try done.
  - cbn [tp_ResetAfter set_reset_after]. rewrite wrap64_id by (unfold in_int64, two63; lia). lia.
  - cbn [tp_Short set_short_window]. unfold slotDuration. cbn [tw_Window].
    rewrite wrap64_id by (unfold in_int64, two63; lia). rewrite (proj2 (Z.leb_gt _ _)) by lia.
    cbn [orb]. change (Z.of_nat throttleShortSlotCount) with 12. cbn [Z.leb Z.compare].
    rewrite Z.quot_div_nonneg by lia. apply Z.div_str_pos. lia.
Qed.

(** No configuration takes the guard away: whatever the file and the operator's override say,
    short of durations beyond 292 years, every bucket has a positive limit, a window, a ladder of blocks
    between a minute and an hour and a quiet period, and only wrong management keys can ban; a shared
    address never can. *)
Lemma policies_guard cfg o key : (∀ auth, cfg = Some auth → knobs_ok auth) → knobs_ok o →
  guards (tk_Scope key) (policyFor (overlayThrottleOverride (throttlePoliciesFromConfig cfg) o) key) ∧
  (tk_Shared key = true →
   tp_HardBlock (policyFor (overlayThrottleOverride (throttlePoliciesFromConfig cfg) o) key) = false).
Proof.
  intros Hcfg Ho.
  assert (Hall : all_have guards (overlayThrottleOverride (throttlePoliciesFromConfig cfg) o)).
  { apply overlay_guards; [done|]. destruct cfg as [auth|]; cbn [throttlePoliciesFromConfig].
    - apply overlay_guards; [by apply Hcfg|]. apply default_policies_have, default_guards.
    - apply default_policies_have, default_guards. }
  destruct (Hall (tk_Scope key)) as (p & Hp & Hg). unfold policyFor. rewrite Hp.
  destruct (tk_Shared key); [|by split]. split; [|done].
  destruct Hg as [H1 H2 [H3 H3'] H4 H5]. split; cbn [applySharedKeyDowngrade tp_Short tp_Backoff tp_ResetAfter tp_HardBlock]; try done.
  destruct (tp_Backoff p) as [|d ds]; [done|]. destruct ds; [by split|]. split; [done|].
  inversion H3' as [|? ? Hd]; subst. by apply Forall_singleton.
Qed.

Lemma policies_guard_witness :
  guards scopeUserAccount (policyFor (overlayThrottleOverride
    (throttlePoliciesFromConfig (Some (MkKnobs 60 3 0 0 1))) (MkKnobs 0 (-1) 4 0 0)) (MkKey scopeUserAccount "alice" false)).
Proof.
  refine (proj1 (policies_guard (Some (MkKnobs 60 3 0 0 1)) (MkKnobs 0 (-1) 4 0 0) (MkKey scopeUserAccount "alice" false) _ _)).
  - intros ? [= <-]. split; done.
  - split; done.
Defined.
