(* ===== verification/AccessPolicy.v ===== *)
(** * The protection policy

    Models [src/internal/ipaccess/policy.go] and the policy of [alert.go]: what an operator
    may set, how it is clamped before it is stored, and the length of an automatic ban.

    [Normalized_idem]: a stored policy means the same when it is loaded again.
    [NormalizeTrustedProxy_same]: canonical proxies trust the same hops.
    [BanDuration_doubles] has the ladder; [long_ban_lapsed] is a policy whose bans overflow
    and are over before they start. *)
From S2P Require Import Prelude GoModel Strconv NetIP AccessRules ClientAddress ThrottlePolicy.
From Stdlib Require Import Ascii.

Definition AutoBanOff : string := "off".
Definition AutoBanObserve : string := "observe".
Definition AutoBanEnforce : string := "enforce".

Record AutoBanPolicy := MkAutoBan {
  ab_Mode : string; ab_WindowSeconds : Z; ab_FailureThreshold : Z; ab_BanMinutes : Z; ab_MaxBanMinutes : Z }.

Record AlertPolicy := MkAlert { al_WebhookURL : string; al_NotifyObserve : bool; al_CooldownMinutes : Z }.

Record ProtectionPolicy := MkProtection {
  pp_Lockdown : bool; pp_AutoBan : AutoBanPolicy; pp_Throttle : ThrottleKnobs; pp_TrustedProxies : list string;
  pp_Alert : AlertPolicy; pp_AttemptRetentionDays : Z }.

Definition DefaultAttemptRetentionDays : Z := 30.
Definition maxAttemptRetentionDays : Z := 365.
Definition defaultAutoBanWindowSeconds : Z := 600.
Definition defaultAutoBanThreshold : Z := 20.
Definition defaultAutoBanMinutes : Z := 60.
Definition defaultAutoBanMaxMinutes : Z := 24 * 60.
Definition defaultAlertCooldownMinutes : Z := 30.

Definition DefaultPolicy : ProtectionPolicy :=
  MkProtection false
    (MkAutoBan AutoBanObserve defaultAutoBanWindowSeconds defaultAutoBanThreshold defaultAutoBanMinutes defaultAutoBanMaxMinutes)
    (MkKnobs 0 0 0 0 0) [] (MkAlert "" false defaultAlertCooldownMinutes) DefaultAttemptRetentionDays.

(** [p.normalized()] and [p.Enabled()] of an [AlertPolicy] *)
Definition alert_normalized (p : AlertPolicy) : AlertPolicy :=
  MkAlert (TrimSpace (al_WebhookURL p)) (al_NotifyObserve p)
    (if al_CooldownMinutes p <=? 0 then defaultAlertCooldownMinutes else al_CooldownMinutes p).

Definition alert_Enabled (p : AlertPolicy) : bool := ! String.eqb (TrimSpace (al_WebhookURL p)) "".

(** A bare address becomes a host route, as [newTrustedProxyMatcher] reads it. *)
Definition NormalizeTrustedProxy (raw : string) : option string := IPNet_String <$> trusted_network raw.

(** The loop over the proxies. *)
Definition keep_proxy (cleaned : list string) (proxy : string) : list string :=
  match NormalizeTrustedProxy proxy with
  | Some normalized => if bool_decide (normalized ∈ cleaned) then cleaned else cleaned ++ [normalized]
  | None => cleaned
  end.

Definition clean_proxies (proxies : list string) : list string := foldl keep_proxy [] proxies.

Definition or_default (d z : Z) : Z := if z <=? 0 then d else z.
Definition non_negative (z : Z) : Z := if z <? 0 then 0 else z.

Definition ban_normalized (p : AutoBanPolicy) : AutoBanPolicy :=
  let d := pp_AutoBan DefaultPolicy in
  let mode := if bool_decide (ab_Mode p ∈ [AutoBanOff; AutoBanObserve; AutoBanEnforce]) then ab_Mode p else ab_Mode d in
  let ban := or_default (ab_BanMinutes d) (ab_BanMinutes p) in
  let max := or_default (ab_MaxBanMinutes d) (ab_MaxBanMinutes p) in
  MkAutoBan mode (or_default (ab_WindowSeconds d) (ab_WindowSeconds p))
    (or_default (ab_FailureThreshold d) (ab_FailureThreshold p)) ban (if max <? ban then ban else max).

Definition Normalized (p : ProtectionPolicy) : ProtectionPolicy :=
  let t := pp_Throttle p in
  let days := or_default DefaultAttemptRetentionDays (pp_AttemptRetentionDays p) in
  MkProtection (pp_Lockdown p) (ban_normalized (pp_AutoBan p))
    (MkKnobs (non_negative (kn_LoginFailureWindowSeconds t)) (non_negative (kn_AccountFailureLimit t))
       (non_negative (kn_ManagementKeyFailureLimit t)) (non_negative (kn_UnauthenticatedRequestLimit t))
       (non_negative (kn_FailureResetHours t)))
    (clean_proxies (pp_TrustedProxies p)) (alert_normalized (pp_Alert p))
    (if maxAttemptRetentionDays <? days then maxAttemptRetentionDays else days).

(** [p.Window()] *)
Definition ban_Window (p : AutoBanPolicy) : Duration := wrap64 (ab_WindowSeconds p * Second).

(** The loop of [BanDuration]. *)
Fixpoint double_minutes (max : Z) (repeats : nat) (minutes : Z) : Z :=
  match repeats with
  | O => minutes
  | S repeats => if minutes <? max then double_minutes max repeats (wrap64 (minutes * 2)) else minutes
  end.

Definition BanDuration (p : AutoBanPolicy) (repeats : Z) : Duration :=
  let minutes := double_minutes (ab_MaxBanMinutes p) (Z.to_nat repeats) (ab_BanMinutes p) in
  let minutes := if ab_MaxBanMinutes p <? minutes then ab_MaxBanMinutes p else minutes in
  wrap64 (minutes * Minute).

(** ** Canonical proxies *)

Lemma trusted_parsed raw n : trusted_network raw = Some n → parsed_ok n.
Proof.
  unfold trusted_network. destruct (String.eqb _ ""); [done|]. destruct (Contains _ "/"); cbn [negb].
  - apply ParseCIDR_parsed.
  - unfold ParseIP. destruct (ParseAddr _) as [[ip bits]|] eqn:E; [|done]. cbn [fmap option_fmap option_map fst].
    intros [= <-]. apply host_route_parsed. by eapply ParseAddr_ok.
Qed.

Definition net_char (c : ascii) : bool := addr_char c || Ascii.eqb c "/".

Lemma IPNet_String_chars n : net_ok n → all_chars net_char (IPNet_String n) = true.
Proof.
  intros [Hip Hb Ho Hm]. assert (Ho' : 0 ≤ nt_ones n < 256) by (rewrite Hb in Ho; destruct (To4 (nt_IP n)); lia).
  assert (Hc : ∀ s, all_chars addr_char s = true → all_chars net_char s = true).
  { intros s. apply all_chars_impl. unfold net_char. by intros c ->. }
  unfold IPNet_String, networkNumberAndMask. destruct (To4 (nt_IP n)) as [a|] eqn:E.
  - rewrite Hb. change (32 =? 32) with true. cbv iota. destruct (To4_range _ a Hip E) as [Ha _].
    by rewrite !all_chars_app, (Hc (v4_String a)), (Hc (Itoa _)) by (by apply hex_addr_char, Itoa_byte_chars || by apply v4_String_chars).
  - change (128 =? 32) with false. cbv iota.
    by rewrite !all_chars_app, (Hc (v6_String _)), (Hc (Itoa _)) by (by apply hex_addr_char, Itoa_byte_chars || by apply v6_String_chars, groups_ok).
Qed.

Lemma Contains_app a b c : Contains (a +:+ String c b) (String c "") = true.
Proof.
  induction a as [|d a IH].
  - rewrite str_app_nil_l. cbn [Contains String.prefix]. destruct (Ascii.ascii_dec c c) as [_|]; [by destruct b|done].
  - rewrite str_app_cons. cbn [Contains]. by rewrite IH, orb_true_r.
Qed.

Lemma IPNet_String_trim n : net_ok n → TrimSpace (IPNet_String n) = IPNet_String n.
Proof.
  intros Hn. apply spaceless_TrimSpace. eapply all_chars_impl; [|by apply IPNet_String_chars].
  by intros [[] [] [] [] [] [] [] []].
Qed.

Lemma IPNet_String_slash n : Contains (IPNet_String n) "/" = true.
Proof.
  unfold IPNet_String. destruct (networkNumberAndMask n) as [[nn bits] ones].
  change ("/" +:+ Itoa ones) with (String "/" (Itoa ones)). apply Contains_app.
Qed.

(** A printed network is entered as itself. *)
Lemma entered_String n : net_ok n → entered_network (TrimSpace (IPNet_String n)) = Some n.
Proof.
  intros Hn. rewrite IPNet_String_trim by done. unfold entered_network. pose proof (IPNet_String_chars n Hn) as Hc.
  assert (Hb : bare_address (IPNet_String n) = IPNet_String n).
  { unfold bare_address, TrimPrefix, TrimSuffix.
    assert (HasPrefix (IPNet_String n) "[" = false) as ->.
    { apply not_true_iff_false. intros [r Hr]%HasPrefix_iff. rewrite Hr, all_chars_app in Hc. by apply andb_true_iff in Hc as [? _]. }
    assert (HasSuffix (IPNet_String n) "]" = false) as ->.
    { apply not_true_iff_false. intros [r Hr]%HasSuffix_iff. rewrite Hr, all_chars_app in Hc. by apply andb_true_iff in Hc as [_ ?]. }
    rewrite split_at_without; [done|]. eapply all_chars_impl; [|exact Hc]. by intros [[] [] [] [] [] [] [] []]. }
  rewrite Hb, IPNet_String_slash. by apply ParseCIDR_String.
Qed.

Lemma trusted_String n : net_ok n → trusted_network (IPNet_String n) = Some n.
Proof.
  intros Hn. unfold trusted_network. rewrite IPNet_String_trim, IPNet_String_slash by done. cbn [negb].
  destruct (String.eqb_spec (IPNet_String n) "") as [E|_]; [|by apply ParseCIDR_String].
  pose proof (IPNet_String_slash n) as Hs. by rewrite E in Hs.
Qed.

Lemma NormalizeTrustedProxy_Some raw s : NormalizeTrustedProxy raw = Some s →
  ∃ n, trusted_network raw = Some n ∧ s = IPNet_String (canonical n) ∧ net_ok (canonical n).
Proof.
  unfold NormalizeTrustedProxy. destruct (trusted_network raw) as [n|] eqn:E; [|done].
  cbn [fmap option_fmap option_map]. intros [= <-]. exists n. split; [done|].
  split; [by rewrite canonical_String|by apply canonical_ok, (trusted_parsed raw)].
Qed.

(** What is normal is its own normal form. *)
Definition normal_proxy (s : string) : Prop := ∃ n, s = IPNet_String n ∧ net_ok n.

Lemma normal_proxy_fixed n : net_ok n → NormalizeTrustedProxy (IPNet_String n) = Some (IPNet_String n).
Proof. intros Hn. unfold NormalizeTrustedProxy. by rewrite trusted_String. Qed.

Lemma NoDup_snoc {A} (l : list A) x : NoDup (l ++ [x]) ↔ x ∉ l ∧ NoDup l.
Proof.
  rewrite NoDup_app. split.
  - intros (Hl & Hx & _). split; [|done]. intros Hin. apply (Hx x Hin). by apply list_elem_of_singleton.
  - intros [Hx Hl]. split; [done|]. split; [|apply NoDup_singleton]. by intros y Hy ->%list_elem_of_singleton.
Qed.

Lemma clean_proxies_spec proxies : NoDup (clean_proxies proxies) ∧
  ∀ s, s ∈ clean_proxies proxies ↔ ∃ raw, raw ∈ proxies ∧ NormalizeTrustedProxy raw = Some s.
Proof.
  unfold clean_proxies. induction proxies as [|raw proxies [IH1 IH2]] using rev_ind.
  { cbn [foldl]. split; [constructor|]. intros s. split; [by intros ?%elem_of_nil|by intros (? & ?%elem_of_nil & _)]. }
  rewrite foldl_snoc. unfold keep_proxy at 1 3. setoid_rewrite elem_of_app. setoid_rewrite list_elem_of_singleton.
  destruct (NormalizeTrustedProxy raw) as [n|] eqn:E; [|split; [done|]; naive_solver].
  case_bool_decide as Hin; [split; [done|]; naive_solver|].
  split; [by apply NoDup_snoc|]. intros s. rewrite elem_of_app, list_elem_of_singleton. naive_solver.
Qed.

Lemma clean_normal proxies : Forall normal_proxy (clean_proxies proxies).
Proof.
  apply Forall_forall. intros s (raw & _ & Hs)%clean_proxies_spec.
  destruct (NormalizeTrustedProxy_Some raw s Hs) as (n & _ & -> & Hn). by eexists.
Qed.

Lemma clean_proxies_id l : NoDup l → Forall normal_proxy l → clean_proxies l = l.
Proof.
  unfold clean_proxies. induction l as [|s l IH] using rev_ind; [done|]. intros [Hn Hnd]%NoDup_snoc [Hl Hs]%Forall_app.
  rewrite foldl_snoc, IH by done. unfold keep_proxy. apply Forall_singleton in Hs as (n & -> & Hok).
  rewrite normal_proxy_fixed by done. by rewrite bool_decide_eq_false_2.
Qed.

(** The stored proxies vouch for the hops that the entered ones vouch for. *)
Lemma clean_proxies_trusts proxies ip :
  trusts (newTrustedProxyMatcher (clean_proxies proxies)) ip = trusts (newTrustedProxyMatcher proxies) ip.
Proof.
  apply eq_iff_eq_true. unfold trusts. rewrite !existsb_exists. setoid_rewrite <- list_elem_of_In.
  unfold newTrustedProxyMatcher. setoid_rewrite list_elem_of_omap. split.
  - intros (n & (s & Hs & Hn) & Hc). apply clean_proxies_spec in Hs as (raw & Hraw & Hs).
    destruct (NormalizeTrustedProxy_Some raw s Hs) as (n0 & Hn0 & -> & Hok). rewrite trusted_String in Hn by done.
    injection Hn as <-. exists n0. rewrite canonical_Contains in Hc. eauto.
  - intros (n & (raw & Hraw & Hn) & Hc). exists (canonical n).
    pose proof (canonical_ok n (trusted_parsed raw n Hn)) as Hok. rewrite canonical_Contains. split; [|done].
    exists (IPNet_String (canonical n)). rewrite trusted_String by done. split; [|done].
    apply clean_proxies_spec. exists raw. split; [done|]. unfold NormalizeTrustedProxy. rewrite Hn.
    cbn [fmap option_fmap option_map]. by rewrite canonical_String.
Qed.

(** ** Clamping *)

Record policy_ok (p : ProtectionPolicy) : Prop := {
  po_mode : ab_Mode (pp_AutoBan p) ∈ [AutoBanOff; AutoBanObserve; AutoBanEnforce];
  po_window : 0 < ab_WindowSeconds (pp_AutoBan p);
  po_threshold : 0 < ab_FailureThreshold (pp_AutoBan p);
  po_ban : 0 < ab_BanMinutes (pp_AutoBan p) ≤ ab_MaxBanMinutes (pp_AutoBan p);
  po_knobs : 0 ≤ kn_LoginFailureWindowSeconds (pp_Throttle p) ∧ 0 ≤ kn_AccountFailureLimit (pp_Throttle p) ∧
    0 ≤ kn_ManagementKeyFailureLimit (pp_Throttle p) ∧ 0 ≤ kn_UnauthenticatedRequestLimit (pp_Throttle p) ∧
    0 ≤ kn_FailureResetHours (pp_Throttle p);
  po_proxies : NoDup (pp_TrustedProxies p) ∧ Forall normal_proxy (pp_TrustedProxies p);
  po_alert : TrimSpace (al_WebhookURL (pp_Alert p)) = al_WebhookURL (pp_Alert p) ∧ 0 < al_CooldownMinutes (pp_Alert p);
  po_days : 0 < pp_AttemptRetentionDays p ≤ maxAttemptRetentionDays
}.

Lemma or_default_pos d z : 0 < d → 0 < or_default d z.
Proof. unfold or_default. destruct (Z.leb_spec z 0); lia. Qed.

Lemma or_default_id d z : 0 < z → or_default d z = z.
Proof. unfold or_default. destruct (Z.leb_spec z 0); lia. Qed.

Lemma non_negative_ok z : 0 ≤ non_negative z.
Proof. unfold non_negative. destruct (Z.ltb_spec z 0); lia. Qed.

Lemma non_negative_id z : 0 ≤ z → non_negative z = z.
Proof. unfold non_negative. destruct (Z.ltb_spec z 0); lia. Qed.

Lemma Normalized_ok p : policy_ok (Normalized p).
Proof.
  split; cbn [Normalized pp_AutoBan pp_Throttle pp_TrustedProxies pp_Alert pp_AttemptRetentionDays ban_normalized alert_normalized
    ab_Mode ab_WindowSeconds ab_FailureThreshold ab_BanMinutes ab_MaxBanMinutes kn_LoginFailureWindowSeconds kn_AccountFailureLimit
    kn_ManagementKeyFailureLimit kn_UnauthenticatedRequestLimit kn_FailureResetHours al_WebhookURL al_CooldownMinutes].
  - case_bool_decide as H; [done|]. by_decision.
  - by apply or_default_pos.
  - by apply or_default_pos.
  - pose proof (or_default_pos defaultAutoBanMinutes (ab_BanMinutes (pp_AutoBan p)) eq_refl).
    split; [done|]. destruct (Z.ltb_spec (or_default (ab_MaxBanMinutes (pp_AutoBan DefaultPolicy)) (ab_MaxBanMinutes (pp_AutoBan p)))
      (or_default (ab_BanMinutes (pp_AutoBan DefaultPolicy)) (ab_BanMinutes (pp_AutoBan p)))); [done|lia].
  - repeat split; apply non_negative_ok.
  - split; [apply clean_proxies_spec|apply clean_normal].
  - split; [apply TrimSpace_idem|]. by apply or_default_pos.
  - pose proof (or_default_pos DefaultAttemptRetentionDays (pp_AttemptRetentionDays p) eq_refl).
    unfold maxAttemptRetentionDays. destruct (Z.ltb_spec 365 (or_default DefaultAttemptRetentionDays (pp_AttemptRetentionDays p))); lia.
Qed.

Lemma Normalized_id p : policy_ok p → Normalized p = p.
Proof.
  destruct p as [lock [mode win thr ban max] [k1 k2 k3 k4 k5] proxies [url obs cool] days].
  intros [Hm Hw Ht Hb (K1 & K2 & K3 & K4 & K5) [Hp1 Hp2] [Hu Hc] Hd]; cbn in *.
  unfold Normalized, ban_normalized, alert_normalized; cbn. unfold defaultAutoBanMaxMinutes.
  rewrite bool_decide_eq_true_2 by done. rewrite !or_default_id, !non_negative_id by lia.
  rewrite (proj2 (Z.ltb_ge max ban)), (proj2 (Z.ltb_ge maxAttemptRetentionDays days)), (proj2 (Z.leb_gt cool 0)) by lia.
  by rewrite clean_proxies_id, Hu.
Qed.

(** Whatever an operator enters, the policy that is stored is well formed - the mode is one of the
    three, the counts and durations are positive, the longest ban is no shorter than the first, the
    proxies are distinct canonical networks - and it trusts the hops that were meant. Clamping it again,
    as loading it does, changes nothing. *)
Lemma Normalized_idem p : policy_ok (Normalized p) ∧ Normalized (Normalized p) = Normalized p ∧
  ∀ ip, trusts (newTrustedProxyMatcher (pp_TrustedProxies (Normalized p))) ip =
        trusts (newTrustedProxyMatcher (pp_TrustedProxies p)) ip.
Proof.
  split; [apply Normalized_ok|]. split; [apply Normalized_id, Normalized_ok|]. apply clean_proxies_trusts.
Qed.

(** ** The length of a ban *)

Lemma double_minutes_spec max n m : 0 < m ≤ max → 2 * max < two63 →
  0 < double_minutes max n m ∧ Z.min max (double_minutes max n m) = Z.min max (m * 2 ^ Z.of_nat n).
Proof.
  revert m. induction n as [|n IH]; intros m Hm Hmax.
  { cbn [double_minutes]. change (2 ^ Z.of_nat 0) with 1. lia. }
  cbn [double_minutes]. rewrite Nat2Z.inj_succ, Z.pow_succ_r by lia.
  assert (Hp : 0 < 2 ^ Z.of_nat n) by (apply Z.pow_pos_nonneg; lia).
  destruct (Z.ltb_spec m max) as [Hlt|Hge]; [|split; [lia|nia]].
  assert (Hw : wrap64 (m * 2) = m * 2) by (apply wrap64_id; unfold in_int64, two63 in *; lia). rewrite Hw.
  destruct (decide (m * 2 ≤ max)) as [Hle|Hgt].
  - destruct (IH (m * 2) ltac:(lia) Hmax) as [H1 H2]. split; [done|]. rewrite H2. f_equal. lia.
  - assert (E : double_minutes max n (m * 2) = m * 2).
    { destruct n as [|n]; [done|]. cbn [double_minutes]. by rewrite (proj2 (Z.ltb_ge _ _)) by lia. }
    rewrite E. split; [lia|]. nia.
Qed.

(** The bans of a source double: after [n] bans the next one lasts the first length times 2^n, up
    to the longest one, for every policy whose longest ban fits into a duration. *)
Lemma BanDuration_doubles p n : 0 < ab_BanMinutes p ≤ ab_MaxBanMinutes p → ab_MaxBanMinutes p * Minute < two63 → 0 ≤ n →
  BanDuration p n = Z.min (ab_MaxBanMinutes p) (ab_BanMinutes p * 2 ^ n) * Minute.
Proof.
  intros Hb Hm Hn. unfold BanDuration, Minute, two63 in *.
  destruct (double_minutes_spec (ab_MaxBanMinutes p) (Z.to_nat n) (ab_BanMinutes p) Hb ltac:(unfold two63; lia)) as [Hpos Hmin].
  rewrite Z2Nat.id in Hmin by done. rewrite <- Hmin.
  assert (E : (if ab_MaxBanMinutes p <? double_minutes (ab_MaxBanMinutes p) (Z.to_nat n) (ab_BanMinutes p) then ab_MaxBanMinutes p
               else double_minutes (ab_MaxBanMinutes p) (Z.to_nat n) (ab_BanMinutes p)) =
    Z.min (ab_MaxBanMinutes p) (double_minutes (ab_MaxBanMinutes p) (Z.to_nat n) (ab_BanMinutes p)))
    by (destruct (Z.ltb_spec (ab_MaxBanMinutes p) (double_minutes (ab_MaxBanMinutes p) (Z.to_nat n) (ab_BanMinutes p))); lia).
  rewrite E. apply wrap64_id. unfold in_int64, two63. lia.
Qed.

Lemma BanDuration_doubles_witness : BanDuration (pp_AutoBan DefaultPolicy) 3 = 480 * Minute ∧ BanDuration (pp_AutoBan DefaultPolicy) 9 = 1440 * Minute.
Proof. split; [apply (BanDuration_doubles (pp_AutoBan DefaultPolicy) 3)|apply (BanDuration_doubles (pp_AutoBan DefaultPolicy) 9)]; by vm_compute. Defined.

(** A ban of more than 292 years wraps around: the policy is accepted and its bans have lapsed when
    they are written. *)
Lemma long_ban_lapsed :
  let p := MkProtection false (MkAutoBan AutoBanEnforce 600 20 200000000 200000000) (MkKnobs 0 0 0 0 0) [] (MkAlert "" false 30) 30 in
  Normalized p = p ∧ BanDuration (pp_AutoBan p) 0 < 0.
Proof. split; vm_compute; reflexivity. Qed.
