(* ===== verification/AccessStore.v ===== *)
(** * The table of access rules

    Models [src/internal/ipaccess/store.go]: the operations on the rows of
    [ip_access_rules], whose unique index is on the effect and the network. Other processes
    use the same table: before every statement the others may have changed it, and a
    statement may fail. The columns that are only shown (note, author, hits) are left out,
    and so are [List], which only reads for the panel, and [RecordHits].

    [rules_ok] is the invariant of the rows; [UpsertAutoBan_bans]: what an automatic ban leaves
    in the table, whoever else writes to it; [manual_rule_kept]: no automatic ban and no
    cleanup touches what an operator entered. *)
From S2P Require Import Prelude GoModel Strconv NetIP AccessRules AccessPolicy.
From Stdlib Require Import Ascii.

Inductive StoreError :=
| ErrStorageUnavailable | ErrCIDR (e : CIDRError) | ErrInvalidEffect | ErrDuplicateRule | ErrRuleNotFound | ErrDatabase.

Abbreviation rule_table := (list Rule) (only parsing).

(** ** Statements *)

Definition same_index (r r' : Rule) : bool := String.eqb (ru_Effect r) (ru_Effect r') && String.eqb (ru_CIDR r) (ru_CIDR r').

(** [INSERT]; [None] is a violation of a unique index. *)
Definition sql_insert (r : Rule) (t : rule_table) : option (rule_table) :=
  if existsb (λ r', same_index r r' || String.eqb (ru_ID r) (ru_ID r')) t then None else Some (t ++ [r]).

Definition sql_get (id : string) (t : rule_table) : option Rule := List.find (λ r, String.eqb (ru_ID r) id) t.

(** [UPDATE ... WHERE id = ?] *)
Definition sql_update (id : string) (f : Rule → Rule) (t : rule_table) : rule_table :=
  (λ r, if String.eqb (ru_ID r) id then f r else r) <$> t.

Definition sql_find (effect cidr : string) (t : rule_table) : option Rule :=
  List.find (λ r, String.eqb (ru_Effect r) effect && String.eqb (ru_CIDR r) cidr) t.

(** What the others do before the statement of a number; [None]: the statement fails. *)
Abbreviation Others := (nat → list Rule → option (list Rule)) (only parsing).

(** ** Reading *)

(** [LoadActive]: [WHERE enabled = true AND (expires_at IS NULL OR expires_at > ?)]. *)
Definition LoadActive (available : bool) (others : Others) (t : rule_table) (now : Time) : option (list Rule) :=
  if ! available then Some []
  else filter (λ r, Active r now = true) <$> others 0%nat t.

Definition Get (available : bool) (others : Others) (n : nat) (t : rule_table) (id : string) : StoreError + Rule :=
  if ! available then inl ErrRuleNotFound
  else match others n t with
       | None => inl ErrDatabase
       | Some t => match sql_get id t with Some r => inr r | None => inl ErrRuleNotFound end
       end.

(** ** Writing: the answer, and the table at the last statement of the call *)

Record CreateInput := MkCreate { ci_CIDR : string; ci_Effect : string; ci_Source : string; ci_Reason : string; ci_ExpiresAt : option Time }.

(** [id] is the new UUID. *)
Definition Create (available : bool) (others : Others) (t : rule_table) (id : string) (inp : CreateInput)
    : (StoreError + Rule) * rule_table :=
  if ! available then (inl ErrStorageUnavailable, t)
  else match NormalizeCIDR (ci_CIDR inp) with
  | inl e => (inl (ErrCIDR e), t)
  | inr (cidr, family) =>
      if (! String.eqb (ci_Effect inp) EffectAllow && ! String.eqb (ci_Effect inp) EffectDeny) then (inl ErrInvalidEffect, t)
      else
        let source := if String.eqb (ci_Source inp) SourceAuto then SourceAuto else SourceManual in
        match others 0%nat t with
        | None => (inl ErrDatabase, t)
        | Some t =>
            match sql_insert (MkRule id cidr family (ci_Effect inp) source (ci_Reason inp) true (ci_ExpiresAt inp)) t with
            | None => (inl ErrDuplicateRule, t)
            | Some t => (Get available others 1 t id, t)
            end
        end
  end.

(** The fields of [UpdateInput] that matter; the note does not. *)
Record UpdateInput := MkUpdate { ui_Enabled : option bool; ui_Note : bool; ui_ExpiresAt : option Time; ui_ClearExpires : bool }.

Definition apply_update (inp : UpdateInput) (r : Rule) : Rule :=
  MkRule (ru_ID r) (ru_CIDR r) (ru_Family r) (ru_Effect r) (ru_Source r) (ru_Reason r)
    (default (ru_Enabled r) (ui_Enabled inp))
    (if ui_ClearExpires inp then None else match ui_ExpiresAt inp with Some e => Some e | None => ru_ExpiresAt r end).

Definition update_sets (inp : UpdateInput) : bool :=
  bool_decide (ui_Enabled inp ≠ None) || ui_Note inp || ui_ClearExpires inp || bool_decide (ui_ExpiresAt inp ≠ None).

Definition Update (available : bool) (others : Others) (t : rule_table) (id : string) (inp : UpdateInput)
    : (StoreError + Rule) * rule_table :=
  if ! available then (inl ErrRuleNotFound, t)
  else if ! update_sets inp then (Get available others 0 t id, t)
  else match others 0%nat t with
  | None => (inl ErrDatabase, t)
  | Some t =>
      match sql_get id t with
      | None => (inl ErrRuleNotFound, t)
      | Some _ => let t := sql_update id (apply_update inp) t in (Get available others 1 t id, t)
      end
  end.

Definition Delete (available : bool) (others : Others) (t : rule_table) (id : string) : (StoreError + unit) * rule_table :=
  if ! available then (inl ErrRuleNotFound, t)
  else match others 0%nat t with
  | None => (inl ErrDatabase, t)
  | Some t =>
      match sql_get id t with
      | None => (inl ErrRuleNotFound, t)
      | Some _ => (inr tt, filter (λ r, String.eqb (ru_ID r) id = false) t)
      end
  end.

(** [SET expires_at = ?, enabled = true, reason = ?] *)
Definition extend_ban (reason : string) (expiresAt : Time) (r : Rule) : Rule :=
  MkRule (ru_ID r) (ru_CIDR r) (ru_Family r) (ru_Effect r) (ru_Source r) reason true (Some expiresAt).

Definition with_created (created : bool) (r : StoreError + Rule) : StoreError + Rule * bool :=
  match r with inl e => inl e | inr r => inr (r, created) end.

Definition UpsertAutoBan (available : bool) (others : Others) (t : rule_table) (id cidr reason : string) (expiresAt : Time)
    : (StoreError + Rule * bool) * rule_table :=
  if ! available then (inl ErrStorageUnavailable, t)
  else match NormalizeCIDR cidr with
  | inl e => (inl (ErrCIDR e), t)
  | inr (normalized, family) =>
      match others 0%nat t with
      | None => (inl ErrDatabase, t)
      | Some t =>
          match sql_find EffectDeny normalized t with
          | Some existing =>
              if String.eqb (ru_Source existing) SourceManual then (inr (existing, false), t)
              else match others 1%nat t with
              | None => (inl ErrDatabase, t)
              | Some t =>
                  let t := sql_update (ru_ID existing) (extend_ban reason expiresAt) t in
                  (with_created true (Get available others 2 t (ru_ID existing)), t)
              end
          | None =>
              match others 1%nat t with
              | None => (inl ErrDatabase, t)
              | Some t =>
                  match sql_insert (MkRule id normalized family EffectDeny SourceAuto reason true (Some expiresAt)) t with
                  | None =>
                      match others 2%nat t with
                      | None => (inl ErrDatabase, t)
                      | Some t =>
                          (match sql_find EffectDeny normalized t with Some r => inr (r, false) | None => inl ErrRuleNotFound end, t)
                      end
                  | Some t => (with_created true (Get available others 2 t id), t)
                  end
              end
          end
      end
  end.

(** [DELETE ... WHERE source = 'auto' AND expires_at IS NOT NULL AND expires_at < ?] *)
Definition lapsed_auto (cutoff : Time) (r : Rule) : bool :=
  String.eqb (ru_Source r) SourceAuto && match ru_ExpiresAt r with Some e => Before e cutoff | None => false end.

Definition PurgeExpiredAuto (available : bool) (others : Others) (t : rule_table) (cutoff : Time) : option Z * rule_table :=
  if ! available then (Some 0, t)
  else match others 0%nat t with
  | None => (None, t)
  | Some t => (Some (zsum (λ r, if lapsed_auto cutoff r then 1 else 0) t), filter (λ r, lapsed_auto cutoff r = false) t)
  end.

(** ** The invariant of the table *)

(** The network of a stored rule is canonical. *)
Definition rule_ok (r : Rule) : Prop := ∃ n, ru_CIDR r = IPNet_String n ∧ net_ok n.

Definition index_of (r : Rule) : string * string := (ru_Effect r, ru_CIDR r).

Record rules_ok (t : rule_table) : Prop := {
  tb_ids : NoDup (ru_ID <$> t);
  tb_index : NoDup (index_of <$> t);
  tb_rules : Forall rule_ok t
}.

Lemma rule_ok_stored r : rule_ok r → stored_rule r.
Proof. intros (n & E & Hn) n'. rewrite E, ParseCIDR_String by done. by intros [= <-]. Qed.

Lemma NormalizeCIDR_rule raw text fam id effect source reason enabled expires :
  NormalizeCIDR raw = inr (text, fam) → rule_ok (MkRule id text fam effect source reason enabled expires).
Proof. intros (n & _ & -> & Hn)%NormalizeCIDR_network. by exists (canonical n). Qed.

Lemma sql_insert_spec r t t' : sql_insert r t = Some t' →
  t' = t ++ [r] ∧ ru_ID r ∉ ru_ID <$> t ∧ index_of r ∉ index_of <$> t.
Proof.
  unfold sql_insert. destruct (existsb _ t) eqn:E; [done|]. intros [= <-]. split; [done|].
  assert (H : ∀ r', r' ∈ t → ru_ID r ≠ ru_ID r' ∧ index_of r ≠ index_of r').
  { intros r' Hr. apply not_true_iff_false in E. rewrite existsb_exists in E.
    destruct (same_index r r' || String.eqb (ru_ID r) (ru_ID r')) eqn:Ex.
    - destruct E. exists r'. split; [by apply list_elem_of_In|done].
    - apply orb_false_iff in Ex as [Ei Eid]. split; [by apply String.eqb_neq|]. unfold index_of. intros [= E1 E2].
      unfold same_index in Ei. by rewrite E1, E2, !String.eqb_refl in Ei. }
  split; intros (r' & Heq & Hr)%list_elem_of_fmap; destruct (H r' Hr); congruence.
Qed.

Lemma sql_insert_ok r t t' : rules_ok t → rule_ok r → sql_insert r t = Some t' → rules_ok t'.
Proof.
  intros [H1 H2 H3] Hr (-> & Hid & Hix)%sql_insert_spec. split; rewrite ?fmap_app.
  - by apply (NoDup_snoc _ (ru_ID r)).
  - by apply (NoDup_snoc _ (index_of r)).
  - apply Forall_app. by split; [|apply Forall_singleton].
Qed.

Lemma sql_update_ok id f t : (∀ r, ru_ID (f r) = ru_ID r ∧ ru_Effect (f r) = ru_Effect r ∧ ru_CIDR (f r) = ru_CIDR r) →
  rules_ok t → rules_ok (sql_update id f t).
Proof.
  intros Hf [H1 H2 H3]. unfold sql_update. split.
  - rewrite <- list_fmap_compose. erewrite list_fmap_ext; [exact H1|]. intros i r _. cbn [compose].
    destruct (String.eqb _ _); [apply Hf|done].
  - rewrite <- list_fmap_compose. erewrite list_fmap_ext; [exact H2|]. intros i r _. cbn [compose]. unfold index_of.
    destruct (String.eqb _ _); [|done]. destruct (Hf r) as (_ & -> & ->). done.
  - apply Forall_fmap. eapply Forall_impl; [exact H3|]. intros r Hr. cbn [compose]. unfold rule_ok in *.
    destruct (String.eqb _ _); [|done]. destruct (Hf r) as (_ & _ & ->). done.
Qed.

Lemma filter_ok (P : Rule → Prop) `{!∀ r, Decision (P r)} t : rules_ok t → rules_ok (filter P t).
Proof.
  intros [H1 H2 H3]. split.
  - eapply sublist_NoDup; [exact H1|]. apply fmap_sublist, sublist_filter.
  - eapply sublist_NoDup; [exact H2|]. apply fmap_sublist, sublist_filter.
  - apply Forall_forall. intros r [_ Hr]%list_elem_of_filter. by apply (proj1 (Forall_forall _ _) H3).
Qed.

Lemma sql_find_in effect cidr t r : sql_find effect cidr t = Some r → r ∈ t ∧ ru_Effect r = effect ∧ ru_CIDR r = cidr.
Proof. intros [Hin [E1 E2]%andb_true_iff]%List.find_some. split; [by apply list_elem_of_In|]. by rewrite <- !String.eqb_eq. Qed.

(** Others who keep the table well formed. *)
Definition well_behaved (others : Others) : Prop := ∀ k t t', others k t = Some t' → rules_ok t → rules_ok t'.

Lemma UpsertAutoBan_ok available others t id cidr reason expiresAt : well_behaved others → rules_ok t →
  rules_ok (UpsertAutoBan available others t id cidr reason expiresAt).2.
Proof.
  intros Ho Ht. unfold UpsertAutoBan. destruct available; [|done]. cbn [negb].
  destruct (NormalizeCIDR cidr) as [e|[normalized fam]] eqn:En; [done|].
  destruct (others 0%nat t) as [t0|] eqn:E0; [|done]. pose proof (Ho _ _ _ E0 Ht) as H0.
  destruct (sql_find EffectDeny normalized t0) as [existing|].
  - destruct (String.eqb _ SourceManual); [done|]. destruct (others 1%nat t0) as [t1|] eqn:E1; [|done].
    cbv zeta. cbn [snd]. apply sql_update_ok; [done|]. by eapply Ho.
  - destruct (others 1%nat t0) as [t1|] eqn:E1; [|done]. pose proof (Ho _ _ _ E1 H0) as H1.
    destruct (sql_insert _ t1) as [t2|] eqn:Ei.
    + cbn [snd]. eapply sql_insert_ok; [exact H1| |exact Ei]. by eapply NormalizeCIDR_rule.
    + destruct (others 2%nat t1) as [t2|] eqn:E2; [|done]. cbn [snd]. by eapply Ho.
Qed.

Lemma Create_ok available others t id inp : well_behaved others → rules_ok t → rules_ok (Create available others t id inp).2.
Proof.
  intros Ho Ht. unfold Create. destruct available; [|done]. cbn [negb].
  destruct (NormalizeCIDR (ci_CIDR inp)) as [e|[normalized fam]] eqn:En; [done|]. destruct (_ && _); [done|].
  destruct (others 0%nat t) as [t0|] eqn:E0; [|done]. pose proof (Ho _ _ _ E0 Ht) as H0. cbv zeta.
  destruct (sql_insert _ t0) as [t1|] eqn:Ei; [|done]. cbn [snd]. eapply sql_insert_ok; [exact H0| |exact Ei].
  by eapply NormalizeCIDR_rule.
Qed.

Lemma Update_ok available others t id inp : well_behaved others → rules_ok t → rules_ok (Update available others t id inp).2.
Proof.
  intros Ho Ht. unfold Update. destruct available; [|done]. cbn [negb]. destruct (update_sets inp); [|done]. cbn [negb].
  destruct (others 0%nat t) as [t0|] eqn:E0; [|done]. pose proof (Ho _ _ _ E0 Ht) as H0.
  destruct (sql_get id t0); [|done]. cbn [snd]. by apply sql_update_ok.
Qed.

Lemma Delete_ok available others t id : well_behaved others → rules_ok t → rules_ok (Delete available others t id).2.
Proof.
  intros Ho Ht. unfold Delete. destruct available; [|done]. cbn [negb].
  destruct (others 0%nat t) as [t0|] eqn:E0; [|done]. pose proof (Ho _ _ _ E0 Ht) as H0.
  destruct (sql_get id t0); [|done]. by apply filter_ok.
Qed.

Lemma PurgeExpiredAuto_ok available others t cutoff : well_behaved others → rules_ok t →
  rules_ok (PurgeExpiredAuto available others t cutoff).2.
Proof.
  intros Ho Ht. unfold PurgeExpiredAuto. destruct available; [|done]. cbn [negb].
  destruct (others 0%nat t) as [t0|] eqn:E0; [|done]. apply filter_ok. by eapply Ho.
Qed.

(** ** What an operator entered *)

Definition keeps (others : Others) (r : Rule) : Prop := ∀ k t t', others k t = Some t' → r ∈ t → r ∈ t'.

Lemma sql_update_other id f t r : r ∈ t → ru_ID r ≠ id → r ∈ sql_update id f t.
Proof.
  intros Hr Hid. unfold sql_update. apply list_elem_of_fmap. exists r. split; [|done].
  by rewrite (proj2 (String.eqb_neq _ _)).
Qed.

Lemma same_id_same t r r' : NoDup (ru_ID <$> t) → r ∈ t → r' ∈ t → ru_ID r = ru_ID r' → r = r'.
Proof.
  intros Hn (i & Hi)%list_elem_of_lookup (j & Hj)%list_elem_of_lookup E.
  assert (i = j) as ->; [|congruence].
  apply (proj1 (NoDup_alt _) Hn i j (ru_ID r)); rewrite list_lookup_fmap, ?Hi, ?Hj; cbn; congruence.
Qed.

(** C18: what an operator entered stays: as long as nobody else removes it, a manual rule is in the table
    unchanged after any automatic ban of any network, whatever fails on the way and whoever else writes
    in between, and after any cleanup of lapsed bans. *)
Theorem manual_rule_kept available others t r id cidr reason expiresAt cutoff :
  well_behaved others → rules_ok t → r ∈ t → ru_Source r = SourceManual → keeps others r →
  r ∈ (UpsertAutoBan available others t id cidr reason expiresAt).2 ∧ r ∈ (PurgeExpiredAuto available others t cutoff).2.
Proof.
  intros Ho Ht Hr Hm Hk. split.
  - unfold UpsertAutoBan. destruct available; [|done]. cbn [negb].
    destruct (NormalizeCIDR cidr) as [e|[normalized fam]]; [done|].
    destruct (others 0%nat t) as [t0|] eqn:E0; [|done]. pose proof (Hk _ _ _ E0 Hr) as H0.
    destruct (sql_find EffectDeny normalized t0) as [existing|] eqn:Ef.
    + destruct (String.eqb_spec (ru_Source existing) SourceManual) as [|Hne]; [done|].
      destruct (others 1%nat t0) as [t1|] eqn:E1; [|done]. cbv zeta. cbn [snd].
      apply sql_update_other; [by eapply Hk|]. intros Eid. apply sql_find_in in Ef as (Hex & _).
      assert (r = existing) by (eapply same_id_same; [apply (Ho _ _ _ E0 Ht)|done..]). congruence.
    + destruct (others 1%nat t0) as [t1|] eqn:E1; [|done]. pose proof (Hk _ _ _ E1 H0) as H1.
      destruct (sql_insert _ t1) as [t2|] eqn:Ei.
      * cbn [snd]. apply sql_insert_spec in Ei as (-> & _). apply elem_of_app. by left.
      * destruct (others 2%nat t1) as [t2|] eqn:E2; [|done]. cbn [snd]. by eapply Hk.
  - unfold PurgeExpiredAuto. destruct available; [|done]. cbn [negb].
    destruct (others 0%nat t) as [t0|] eqn:E0; [|done]. cbn [snd]. apply list_elem_of_filter.
    split; [unfold lapsed_auto; by rewrite Hm|]. by eapply Hk.
Qed.

Definition nobody_else : Others := λ _ t, Some t.

Lemma manual_rule_kept_witness :
  let r := MkRule "1" "203.0.113.0/24" 4 EffectDeny SourceManual "abuse" true None in
  r ∈ (UpsertAutoBan true nobody_else [r] "2" "203.0.113.0/24" "bot" 5).2 ∧ r ∈ (PurgeExpiredAuto true nobody_else [r] 9).2.
Proof.
  intros r. apply (manual_rule_kept true nobody_else [r] r "2" "203.0.113.0/24" "bot" 5 9).
  - intros k t t' [= <-]. exact (λ H, H).
  - split.
    + apply NoDup_singleton.
    + apply NoDup_singleton.
    + apply Forall_singleton. exists (MkNet (From4 3405803776) 32 24). split; [vm_compute; reflexivity|].
      split; vm_compute; try reflexivity; split; discriminate || reflexivity.
  - left.
  - reflexivity.
  - intros k t t' [= <-]. exact (λ H, H).
Defined.

(** ** What an automatic ban leaves *)

(** A deny rule on a network, in force until [until] at least. *)
Definition bans (cidr : string) (until : Time) (r : Rule) : Prop :=
  ru_Effect r = EffectDeny ∧ ru_CIDR r = cidr ∧ ru_Enabled r = true ∧
  match ru_ExpiresAt r with Some e => until ≤ e | None => True end.

(** No allow rule, in force or not, lists an address. *)
Definition no_allow (ip : IP) (t : rule_table) : Prop :=
  ∀ r n, r ∈ t → ru_Effect r = EffectAllow → ParseCIDR (ru_CIDR r) = Some n → Contains_ip n ip = false.

(** The deny rules of a network. *)
Definition denies (cidr : string) (r : Rule) : Prop := ru_Effect r = EffectDeny ∧ ru_CIDR r = cidr.

(** Others who do not lift a ban: a deny rule of the network they may change, to one that lasts as long
    as it did, but not remove; those they add for it last as long; and they allow nobody the address of
    the ban. *)
Record leaves_ban (cidr : string) (until : Time) (ip : IP) (others : Others) : Prop := {
  lb_ok : well_behaved others;
  lb_keeps : ∀ k t t' r, others k t = Some t' → r ∈ t → denies cidr r →
    ∃ r', r' ∈ t' ∧ ru_ID r' = ru_ID r ∧ denies cidr r' ∧ (bans cidr until r → bans cidr until r');
  lb_adds : ∀ k t t' r, others k t = Some t' → r ∈ t' → denies cidr r →
    bans cidr until r ∨ ∃ r0, r0 ∈ t ∧ denies cidr r0;
  lb_allow : ∀ k t t', others k t = Some t' → no_allow ip t → no_allow ip t'
}.

Lemma extend_no_allow ip id reason expires t : no_allow ip t → no_allow ip (sql_update id (extend_ban reason expires) t).
Proof.
  intros H r n Hr He Hp. apply list_elem_of_fmap in Hr as (r0 & -> & Hr0).
  destruct (String.eqb (ru_ID r0) id); cbn [extend_ban ru_Effect ru_CIDR] in *; by eapply H.
Qed.

Lemma same_key_same t r r' cidr : r ∈ t → r' ∈ t → denies cidr r → denies cidr r' → rules_ok t → r = r'.
Proof.
  intros (i & Hi)%list_elem_of_lookup (j & Hj)%list_elem_of_lookup (E1 & E2) (E3 & E4) Ht.
  assert (i = j) as ->; [|congruence].
  apply (proj1 (NoDup_alt _) (tb_index _ Ht) i j (index_of r)); rewrite list_lookup_fmap, ?Hi, ?Hj; cbn; unfold index_of; congruence.
Qed.

(** A ban that is written, and did not meet the rule of an operator, is in the table, also where
    others won the race for the row. *)
Lemma UpsertAutoBan_bans available others t id cidr reason until ip normalized fam rule created t' :
  NormalizeCIDR cidr = inr (normalized, fam) → leaves_ban normalized until ip others → rules_ok t → no_allow ip t →
  UpsertAutoBan available others t id cidr reason until = (inr (rule, created), t') → ru_Source rule ≠ SourceManual →
  available = true ∧ no_allow ip t' ∧ ∃ r, r ∈ t' ∧ bans normalized until r.
Proof.
  intros Hn Hl Hok Hna. pose proof Hl as [_ Hk Ha Hw]. unfold UpsertAutoBan. destruct available; [|done]. cbn [negb]. rewrite Hn.
  intros H Hm. split; [done|]. revert H. destruct (others 0%nat t) as [t0|] eqn:E0; [|done]. pose proof (Hw _ _ _ E0 Hna) as H0.
  destruct (sql_find EffectDeny normalized t0) as [existing|] eqn:Ef.
  - destruct (String.eqb_spec (ru_Source existing) SourceManual); [congruence|].
    destruct (others 1%nat t0) as [t1|] eqn:E1; [|done]. cbv zeta. intros [= _ <-].
    apply sql_find_in in Ef as (Hin & He & Hc). split; [apply extend_no_allow; by eapply Hw|].
    destruct (Hk _ _ _ _ E1 Hin (conj He Hc)) as (r & Hr & Eid & (Hre & Hrc) & _).
    exists (extend_ban reason until r). split; [|split_and!; [done..|cbn; lia]].
    apply list_elem_of_fmap. exists r. by rewrite Eid, String.eqb_refl.
  - destruct (others 1%nat t0) as [t1|] eqn:E1; [|done]. pose proof (Hw _ _ _ E1 H0) as H1.
    destruct (sql_insert _ t1) as [t2|] eqn:Ei.
    + apply sql_insert_spec in Ei as (-> & _). intros [= _ <-]. split.
      * intros r n [Hr|Hr]%elem_of_app He; [by apply H1|]. apply list_elem_of_singleton in Hr as ->. done.
      * eexists. split; [apply elem_of_app; right; by apply list_elem_of_singleton|split_and!; [done..|cbn; lia]].
    + destruct (others 2%nat t1) as [t2|] eqn:E2; [|done]. pose proof (Hw _ _ _ E2 H1) as H2.
      destruct (sql_find EffectDeny normalized t2) as [r|] eqn:Er; cbn [with_created]; [|done]. intros [= _ _ <-].
      split; [exact H2|]. exists r. apply sql_find_in in Er as (Hr & He & Hc). split; [done|].
      assert (Hnone : ∀ r', r' ∈ t0 → denies normalized r' → False).
      { intros r' Hr' (He' & Hc'). pose proof (List.find_none _ _ Ef r' ltac:(by apply list_elem_of_In)) as Hf. cbn in Hf.
        by rewrite He', Hc', !String.eqb_refl in Hf. }
      destruct (Ha _ _ _ _ E2 Hr (conj He Hc)) as [|(r1 & Hr1 & Hd1)]; [done|].
      destruct (Ha _ _ _ _ E1 Hr1 Hd1) as [Hb|(r0 & Hr0 & Hd0)]; [|by destruct (Hnone r0 Hr0)].
      destruct (Hk _ _ _ _ E2 Hr1 Hd1) as (r' & Hr' & _ & Hd' & Hb').
      rewrite (same_key_same t2 r r' normalized); [by apply Hb'|done..|].
      by apply (lb_ok _ _ _ _ Hl _ _ _ E2), (lb_ok _ _ _ _ Hl _ _ _ E1), (lb_ok _ _ _ _ Hl _ _ _ E0).
Qed.
