(* ===== verification/FailureLog.v ===== *)
(** * The log of failures: what a bucket of the login throttle promises

    The abstract specification that the node's ring buffers ([Throttle]) and the shared
    script of a cluster ([ThrottleShared]) both implement: the instants of the failures
    counted since the last reset, the end of the current block and its generation.
    Instants are numbers of ticks since 1970; a window covers the last [fw_slots]
    intervals of [fw_width] ticks, the current one included. The budget of guesses is
    proved here, once for both. *)
From S2P Require Import Prelude GoModel.

Record Window := MkFW { fw_limit : Z; fw_width : Z; fw_slots : Z }.

Record Policy := MkFP { fp_short : Window; fp_long : Window; fp_ladder : list Z; fp_reset : Z }.

Record log := MkLog {
  lg_failures : list Z;        (* counted, the last one first *)
  lg_until : option Z; lg_generation : Z; lg_last : option Z }.

Definition empty_log : log := MkLog [] None 0 None.

(** What a caller is told: the standing of [sharedstate.ThrottleState], in ticks. *)
Record Reply := MkReply {
  rp_blocked : bool; rp_retry : Z; rp_generation : Z; rp_short : Z; rp_long : Z; rp_armed : bool }.

Definition in_window (w : Window) (now t : Z) : bool :=
  (now / fw_width w - fw_slots w + 1 <=? t / fw_width w) && (t / fw_width w <=? now / fw_width w).

Definition enabled (w : Window) : bool := (0 <? fw_limit w) && (0 <? fw_width w).

(** How many of the failures are in the window. *)
Definition window_count (w : Window) (now : Z) (failures : list Z) : Z :=
  if enabled w then zsum (λ t, if in_window w now t then 1 else 0) failures else 0.

Definition tripped (w : Window) (count : Z) : bool := (0 <? fw_limit w) && (fw_limit w <=? count).

(** The rung of a generation; the last one from there on, 0 without a ladder. *)
Definition rung (ladder : list Z) (generation : Z) : Z :=
  nth (Nat.min (Z.to_nat generation) (length ladder - 1)) ladder 0.

Definition is_quiet (p : Policy) (l : log) (now : Z) : bool :=
  match lg_last l with
  | Some last => (0 <? fp_reset p) && (fp_reset p <=? now - last)
  | None => false
  end.

Definition is_blocked (l : log) (now : Z) : bool :=
  match lg_until l with Some until => now <? until | None => false end.

Definition counts_now (p : Policy) (l : log) (now : Z) : Z * Z :=
  (window_count (fp_short p) now (lg_failures l), window_count (fp_long p) now (lg_failures l)).

Definition blocked_reply (p : Policy) (l : log) (now : Z) : Reply :=
  MkReply true (default 0 (lg_until l) - now) (lg_generation l) (counts_now p l now).1
    (counts_now p l now).2 false.

(** A failure that is counted, perhaps with a new block. *)
Definition count (p : Policy) (l : log) (now : Z) : Reply * log :=
  let l := MkLog (now :: lg_failures l) (lg_until l) (lg_generation l) (lg_last l) in
  let '(short, long) := counts_now p l now in
  let wait := rung (fp_ladder p) (lg_generation l) in
  if ((tripped (fp_short p) short || tripped (fp_long p) long) && (0 <? wait)) then
    let generation := lg_generation l + 1 in
    (MkReply true wait generation short long true,
     MkLog (lg_failures l) (Some (now + wait)) generation (lg_last l))
  else (MkReply false 0 (lg_generation l) short long false, l).

(** The log when a failure arrives. *)
Definition arrive (p : Policy) (l : log) (now : Z) : log :=
  let l := if is_quiet p l now then empty_log else l in
  MkLog (lg_failures l) (lg_until l) (lg_generation l) (Some now).

(** One failure; while a block lasts it is refused without being counted. *)
Definition charge (p : Policy) (l : log) (now : Z) : Reply * log :=
  let l := arrive p l now in
  if is_blocked l now then (blocked_reply p l now, l) else count p l now.

(** The standing without a failure. *)
Definition peek (p : Policy) (l : log) (now : Z) : Reply :=
  if is_blocked l now then blocked_reply p l now else MkReply false 0 0 0 0 false.

(** What holds of every log: the failures are in order and not in the future. *)
Record log_ok (l : log) (now : Z) : Prop := {
  lok_last : ∀ t, t ∈ lg_failures l → ∃ last, lg_last l = Some last ∧ t ≤ last;
  lok_now : ∀ last, lg_last l = Some last → 0 < last ≤ now;
  lok_pos : ∀ t, t ∈ lg_failures l → 0 < t;
  lok_gen : 0 ≤ lg_generation l ≤ Z.of_nat (length (lg_failures l))
}.

Lemma empty_log_ok now : log_ok empty_log now.
Proof. split; cbn [lg_failures lg_last lg_generation empty_log length]; [by intros ? ?%elem_of_nil|done|by intros ? ?%elem_of_nil|lia]. Qed.

(** The next failure, and perhaps a new block. *)
Lemma next_ok l now u until n : log_ok l u → u ≤ now → 0 < now → (n = 0 ∨ n = 1) →
  log_ok (MkLog (now :: lg_failures l) until (lg_generation l + n) (Some now)) now.
Proof.
  intros [Hla Hno Hpo Hge] Hu Hp Hn.
  split; cbn [lg_failures lg_last lg_generation length].
  - intros t Ht. exists now. split; [done|]. apply elem_of_cons in Ht as [->|Ht]; [done|].
    destruct (Hla t Ht) as (x & Hx & ?). pose proof (Hno _ Hx). lia.
  - intros ? [= <-]. lia.
  - intros t [->|Ht]%elem_of_cons; auto.
  - lia.
Qed.

Lemma refused_ok l now u : log_ok l u → u ≤ now → 0 < now →
  log_ok (MkLog (lg_failures l) (lg_until l) (lg_generation l) (Some now)) now.
Proof.
  intros [Hla Hno Hpo Hge] Hu Hp. split; cbn [lg_failures lg_last lg_generation]; [|intros ? [= <-]; lia|done|done].
  intros t Ht. exists now. destruct (Hla t Ht) as (x & Hx & ?). pose proof (Hno _ Hx). split; [done|lia].
Qed.

Lemma log_ok_later l u now : log_ok l u → u ≤ now → log_ok l now.
Proof. intros [H1 H2 H3 H4] Hu. split; [done| |done|done]. intros x Hx. specialize (H2 x Hx). lia. Qed.

Lemma arrive_ok p l now u : log_ok l u → u ≤ now → 0 < now → log_ok (arrive p l now) now.
Proof.
  intros Hl Hu Hp. unfold arrive.
  eapply refused_ok; [|done..]. destruct is_quiet; [apply empty_log_ok|done].
Qed.

Lemma count_ok p l now : log_ok l now → 0 < now → lg_last l = Some now → log_ok (count p l now).2 now.
Proof.
  intros Hl Hp Hlast. unfold count, counts_now. cbn [lg_failures lg_until lg_generation lg_last]. rewrite Hlast.
  destruct (_ && _); cbn [snd lg_failures lg_last]; [by eapply next_ok; eauto; lia|].
  rewrite <- (Z.add_0_r (lg_generation l)). eapply next_ok; eauto; lia.
Qed.

Lemma charge_ok p l now u : log_ok l u → u ≤ now → 0 < now → log_ok (charge p l now).2 now.
Proof.
  intros Hl Hu Hp. pose proof (arrive_ok p l now u Hl Hu Hp) as Ha. unfold charge.
  destruct is_blocked; [done|]. by apply count_ok.
Qed.

Lemma rung_elem ladder g : ladder ≠ [] → rung ladder g ∈ ladder.
Proof.
  intros Hne. unfold rung. apply list_elem_of_In, nth_In.
  destruct ladder; [done|]. simpl length. lia.
Qed.

(** *** The budget of guesses *)

Definition counted (r : Reply) : bool := ! (rp_blocked r && ! rp_armed r).

(** The failures of a run that are counted. *)
Fixpoint admitted (p : Policy) (l : log) (nows : list Z) : list Z :=
  match nows with
  | [] => []
  | now :: nows =>
      let '(r, l) := charge p l now in
      (if counted r then [now] else []) ++ admitted p l nows
  end.

Lemma count_counted p l now : counted (count p l now).1 = true.
Proof. unfold count, counts_now. by destruct (_ && _). Qed.

(** A failure that finds no block is counted. *)
Lemma unblocked_counted_log p l now : is_blocked l now = false → counted (charge p l now).1 = true.
Proof.
  intros Hb. unfold charge. cbv zeta.
  assert (is_blocked (arrive p l now) now = false) as -> by (unfold arrive; by destruct is_quiet).
  apply count_counted.
Qed.

Section budget.
Context (p : Policy) (a b m : Z).
Let w := fp_short p.
Let limit := fw_limit w.
Context (Hon : enabled w = true) (Hm : 0 < m) (Hne : fp_ladder p ≠ []) (Hlad : Forall (λ d, m ≤ d) (fp_ladder p))
  (Hspan : b / fw_width w - a / fw_width w < fw_slots w) (Hreset : fp_reset p ≤ 0 ∨ b - a < fp_reset p).

Definition since (l : log) : Z := zsum (λ t, if a <=? t then 1 else 0) (lg_failures l).

(** After [c] counted failures since [a]. *)
Record spent (l : log) (c now : Z) : Prop := {
  sp_log : log_ok l now;
  sp_count : 0 ≤ c ≤ since l;
  sp_active : 0 < c → ∃ last, lg_last l = Some last ∧ a ≤ last;
  sp_armed : limit ≤ c → ∃ until, lg_until l = Some until ∧ a + (c - limit + 1) * m ≤ until;
  sp_budget : (c - limit) * m ≤ Z.max 0 (b - a)
}.

Lemma limit_pos : 0 < limit.
Proof. unfold limit. unfold enabled in Hon. zbool. lia. Qed.

Lemma since_window l now : log_ok l now → a ≤ now ≤ b → since l ≤ window_count w now (lg_failures l).
Proof.
  intros Hl Hn. unfold window_count. rewrite Hon. apply zsum_le. intros t Ht.
  destruct (Z.leb_spec a t) as [Ha|]; [|by destruct in_window]. unfold in_window.
  assert (Hw : 0 < fw_width w) by (unfold enabled in Hon; zbool; lia).
  destruct (lok_last _ _ Hl t Ht) as (x & Hx & ?). pose proof (lok_now _ _ Hl x Hx).
  assert (now / fw_width w ≤ b / fw_width w ∧ a / fw_width w ≤ t / fw_width w ∧
          t / fw_width w ≤ now / fw_width w) as (? & ? & ?)
    by (repeat split; apply Z.div_le_mono; lia).
  assert (((now / fw_width w - fw_slots w + 1 <=? t / fw_width w) &&
           (t / fw_width w <=? now / fw_width w)) = true) as ->; [|lia].
  apply andb_true_iff. lia.
Qed.

(** A quiet period does not fall into the span. *)
Lemma spent_reset l c u now : spent l c u → a ≤ now ≤ b →
  spent (if is_quiet p l now then empty_log else l) c u.
Proof.
  intros [Hl Hc Hact Harm Hbud] Hn. destruct (is_quiet p l now) eqn:E; [|by split].
  assert (c = 0) as ->.
  { unfold is_quiet in E. destruct (decide (0 < c)) as [Hpos|]; [|lia].
    destruct (Hact Hpos) as (x & Hx & ?). rewrite Hx in E. zbool. lia. }
  pose proof limit_pos. split; [apply empty_log_ok|by unfold since|intros; lia|intros; lia|done].
Qed.

Lemma spent_arrive l c u now : spent l c u → u ≤ now → a ≤ now ≤ b → 0 < now →
  spent (arrive p l now) c now.
Proof.
  intros Hsp Hu Hn Hp. pose proof (spent_reset l c u now Hsp Hn) as [Hl Hc Hact Harm Hbud].
  unfold arrive. split; [by eapply refused_ok|done| |done|done].
  intros _. exists now. split; [done|lia].
Qed.

Lemma spent_count l c now : spent l c now → a ≤ now ≤ b → 0 < now → lg_last l = Some now →
  is_blocked l now = false → spent (count p l now).2 (c + 1) now.
Proof.
  intros [Hl Hc Hact Harm Hbud] Hn Hp Hlast Eb.
  pose proof (count_ok p l now Hl Hp Hlast) as Hok. revert Hok. unfold count, counts_now.
  cbn [lg_failures lg_until lg_generation lg_last].
  set (short := window_count (fp_short p) now _). set (long := window_count (fp_long p) now _).
  intros Hok.
  assert (Hb : limit ≤ c → a + (c - limit + 1) * m ≤ now).
  { intros Hlim. destruct (Harm Hlim) as (x & Hx & ?). unfold is_blocked in Eb. rewrite Hx in Eb. zbool. lia. }
  assert (Hs' : since l + 1 = zsum (λ t, if a <=? t then 1 else 0) (now :: lg_failures l)).
  { rewrite zsum_cons. destruct (Z.leb_spec a now); [unfold since; lia|lia]. }
  assert (Hsh : since l + 1 ≤ short).
  { rewrite Hs'. apply (since_window (MkLog (now :: lg_failures l) (lg_until l) (lg_generation l + 0) (Some now)));
      [|done]. eapply next_ok; eauto. lia. }
  assert (Hr : m ≤ rung (fp_ladder p) (lg_generation l))
    by (apply (proj1 (Forall_forall _ _) Hlad), rung_elem, Hne).
  assert (Hbud' : (c + 1 - limit) * m ≤ Z.max 0 (b - a)) by (destruct (decide (limit ≤ c)); nia).
  assert (Ht : limit ≤ c + 1 → tripped (fp_short p) short = true).
  { intros. pose proof limit_pos. unfold tripped. apply andb_true_iff. fold w limit. lia. }
  destruct ((tripped _ short || _) && _) eqn:E; cbn [snd] in *;
    (split; [done|unfold since; cbn [lg_failures]; rewrite <- Hs'; lia|intros; exists now; split; [done|lia]
    |cbn [lg_until]; intros Hlim|done]).
  - exists (now + rung (fp_ladder p) (lg_generation l)). split; [done|].
    destruct (decide (limit ≤ c)) as [H|]; [specialize (Hb H); nia|].
    replace (c + 1 - limit + 1) with 1 by lia. lia.
  - rewrite (Ht Hlim) in E. cbn [orb] in E. rewrite andb_true_l in E. zbool. lia.
Qed.

Lemma spent_charge l c u now : spent l c u → u ≤ now → a ≤ now ≤ b → 0 < now →
  spent (charge p l now).2 (if counted (charge p l now).1 then c + 1 else c) now.
Proof.
  intros Hsp Hu Hn Hp. pose proof (spent_arrive l c u now Hsp Hu Hn Hp) as Ha. unfold charge.
  destruct (is_blocked (arrive p l now) now) eqn:Eb; [done|].
  rewrite count_counted. by apply spent_count.
Qed.

(** At most [limit] failures, and one more for every [m] ticks, are counted in one window. *)
Lemma admitted_bound nows l c u : spent l c u → Sorted Z.le (u :: nows) → Forall (λ t, a ≤ t ≤ b ∧ 0 < t) nows →
  (c + Z.of_nat (length (admitted p l nows)) - limit) * m ≤ Z.max 0 (b - a).
Proof.
  revert l c u. induction nows as [|now nows IH]; intros l c u Hs Hsort Hin.
  { simpl. rewrite Z.add_0_r. apply Hs. }
  inversion Hin as [|? ? [Hn Hp] Hin']; subst. inversion Hsort as [|? ? Hsort' Hhd]; subst.
  inversion Hhd; subst. pose proof (spent_charge l c u now Hs ltac:(lia) Hn Hp) as Hs'.
  cbn [admitted]. destruct (charge p l now) as [r l'] eqn:E. cbn [fst snd] in Hs'.
  specialize (IH _ _ _ Hs' Hsort' Hin'). rewrite length_app. destruct (counted r); simpl length; [|done].
  replace (c + Z.of_nat (1 + length (admitted p l' nows)) - limit)
    with (c + 1 + Z.of_nat (length (admitted p l' nows)) - limit) by lia. done.
Qed.
End budget.

(** The same from any log. *)
Lemma run_budget p a b m l u nows : enabled (fp_short p) = true → 0 < m → fp_ladder p ≠ [] →
  Forall (λ d, m ≤ d) (fp_ladder p) →
  b / fw_width (fp_short p) - a / fw_width (fp_short p) < fw_slots (fp_short p) →
  fp_reset p ≤ 0 ∨ b - a < fp_reset p → a ≤ b →
  log_ok l u → Sorted Z.le (u :: nows) → Forall (λ t, a ≤ t ≤ b ∧ 0 < t) nows →
  (Z.of_nat (length (admitted p l nows)) - fw_limit (fp_short p)) * m ≤ b - a.
Proof.
  intros Hon Hm Hne Hlad Hspan Hreset Hab Hl Hs Hin.
  pose proof (admitted_bound p a b m Hon Hm Hne Hlad Hspan Hreset nows l 0 u) as H.
  rewrite Z.add_0_l, Z.max_r in H by lia. apply H; [|done|done].
  pose proof (limit_pos p Hon). split; [done| |intros; lia|intros; lia|nia].
  split; [done|]. unfold since. apply zsum_nonneg. intros x _. by destruct (a <=? x).
Qed.

(** ** Policies that differ in windows that are off *)

#[export] Instance window_equiv : Equiv Window := λ w w',
  fw_limit w = fw_limit w' ∧ (w = w' ∨ enabled w = false ∧ enabled w' = false).

#[export] Instance policy_equiv : Equiv Policy := λ p p',
  fp_short p ≡ fp_short p' ∧ fp_long p ≡ fp_long p' ∧ fp_ladder p = fp_ladder p' ∧ fp_reset p = fp_reset p'.

#[export] Instance window_equivalence : Equivalence (≡@{Window}).
Proof.
  split.
  - intros w. split; [done|by left].
  - intros w w' [H1 H2]. split; [done|]. destruct H2 as [->|[??]]; [by left|by right].
  - intros w1 w2 w3 [H1 H2] [H3 H4]. split; [congruence|].
    destruct H2 as [->|[??]], H4 as [->|[??]]; auto.
Qed.

#[export] Instance policy_equivalence : Equivalence (≡@{Policy}).
Proof.
  split.
  - intros p. by repeat split; try left.
  - intros p q (H1 & H2 & H3 & H4). by split; [symmetry|split; [symmetry|split]].
  - intros p q r (H1 & H2 & H3 & H4) (K1 & K2 & K3 & K4).
    split; [by etrans|]. split; [by etrans|]. by split; congruence.
Qed.

#[export] Instance window_count_proper : Proper ((≡) ==> eq ==> eq ==> eq) window_count.
Proof.
  intros w w' [_ [->|[H1 H2]]] now ? <- fs ? <-; [done|]. unfold window_count. by rewrite H1, H2.
Qed.

#[export] Instance tripped_proper : Proper ((≡) ==> eq ==> eq) tripped.
Proof. intros w w' [H _] c ? <-. unfold tripped. by rewrite H. Qed.

#[export] Instance counts_now_proper : Proper ((≡) ==> eq ==> eq ==> eq) counts_now.
Proof. intros p q (H1 & H2 & _) l ? <- now ? <-. unfold counts_now. by rewrite H1, H2. Qed.

#[export] Instance arrive_proper : Proper ((≡) ==> eq ==> eq ==> eq) arrive.
Proof. intros p q (_ & _ & _ & H) l ? <- now ? <-. unfold arrive, is_quiet. by rewrite H. Qed.

#[export] Instance count_proper : Proper ((≡) ==> eq ==> eq ==> eq) count.
Proof.
  intros p q H l ? <- now ? <-. unfold count. pose proof H as (H1 & H2 & H3 & _).
  rewrite (counts_now_proper _ _ H _ _ eq_refl _ _ eq_refl). destruct (counts_now q _ now) as [short long].
  rewrite H3, (tripped_proper _ _ H1 _ _ eq_refl), (tripped_proper _ _ H2 _ _ eq_refl). done.
Qed.

#[export] Instance charge_proper : Proper ((≡) ==> eq ==> eq ==> eq) charge.
Proof.
  intros p q H l ? <- now ? <-. unfold charge, blocked_reply.
  rewrite (arrive_proper _ _ H _ _ eq_refl _ _ eq_refl). cbv zeta.
  rewrite (counts_now_proper _ _ H _ _ eq_refl _ _ eq_refl).
  by rewrite (count_proper _ _ H _ _ eq_refl _ _ eq_refl).
Qed.

#[export] Instance peek_proper : Proper ((≡) ==> eq ==> eq ==> eq) peek.
Proof.
  intros p q H l ? <- now ? <-. unfold peek, blocked_reply. by rewrite (counts_now_proper _ _ H _ _ eq_refl _ _ eq_refl).
Qed.

(** ** The unit of time does not matter *)

Section scale.
Context (k : Z) (Hk : 0 < k).

Definition scale_window (w : Window) : Window := MkFW (fw_limit w) (k * fw_width w) (fw_slots w).
Definition scale_policy (p : Policy) : Policy :=
  MkFP (scale_window (fp_short p)) (scale_window (fp_long p)) (Z.mul k <$> fp_ladder p) (k * fp_reset p).
Definition scale_log (l : log) : log :=
  MkLog (Z.mul k <$> lg_failures l) (Z.mul k <$> lg_until l) (lg_generation l) (Z.mul k <$> lg_last l).
Definition scale_reply (r : Reply) : Reply :=
  MkReply (rp_blocked r) (k * rp_retry r) (rp_generation r) (rp_short r) (rp_long r) (rp_armed r).

Lemma ltb_scale x y : (k * x <? k * y) = (x <? y).
Proof. destruct (Z.ltb_spec (k * x) (k * y)), (Z.ltb_spec x y); nia. Qed.

Lemma leb_scale x y : (k * x <=? k * y) = (x <=? y).
Proof. destruct (Z.leb_spec (k * x) (k * y)), (Z.leb_spec x y); nia. Qed.

Lemma pos_scale x : (0 <? k * x) = (0 <? x).
Proof. rewrite <- (Z.mul_0_r k) at 1. apply ltb_scale. Qed.

Lemma div_scale x y : k * x / (k * y) = x / y.
Proof.
  destruct (Z.eq_dec y 0) as [->|]; [by rewrite Z.mul_0_r, !Zdiv_0_r|]. apply Z.div_mul_cancel_l; lia.
Qed.

Lemma window_count_scale w now fs :
  window_count (scale_window w) (k * now) (Z.mul k <$> fs) = window_count w now fs.
Proof.
  unfold window_count. assert (enabled (scale_window w) = enabled w) as ->
    by (unfold enabled; cbn [scale_window fw_limit fw_width]; by rewrite pos_scale).
  destruct (enabled w); [|done]. rewrite zsum_fmap. apply zsum_ext. intros t _.
  unfold in_window. cbn [scale_window fw_width fw_slots]. by rewrite !div_scale.
Qed.

Lemma rung_scale ladder g : rung (Z.mul k <$> ladder) g = k * rung ladder g.
Proof.
  unfold rung. rewrite length_fmap. generalize (Nat.min (Z.to_nat g) (length ladder - 1)). intros n.
  revert n. induction ladder as [|d ladder IH]; intros [|n]; simpl; try lia. apply IH.
Qed.

Lemma arrive_scale p l now : arrive (scale_policy p) (scale_log l) (k * now) = scale_log (arrive p l now).
Proof.
  unfold arrive. assert (is_quiet (scale_policy p) (scale_log l) (k * now) = is_quiet p l now) as ->.
  { unfold is_quiet. cbn [scale_log scale_policy lg_last fp_reset]. destruct (lg_last l); [|done].
    cbn [fmap option_fmap option_map]. rewrite pos_scale. f_equal. rewrite <- Z.mul_sub_distr_l. apply leb_scale. }
  by destruct is_quiet.
Qed.

Lemma is_blocked_scale l now : is_blocked (scale_log l) (k * now) = is_blocked l now.
Proof.
  unfold is_blocked. cbn [scale_log lg_until]. destruct (lg_until l); [|done].
  cbn [fmap option_fmap option_map]. apply ltb_scale.
Qed.

Lemma counts_now_scale p l now : counts_now (scale_policy p) (scale_log l) (k * now) = counts_now p l now.
Proof.
  unfold counts_now. cbn [scale_policy scale_log fp_short fp_long lg_failures]. by rewrite !window_count_scale.
Qed.

Lemma count_scale p l now : count (scale_policy p) (scale_log l) (k * now) =
  (scale_reply (count p l now).1, scale_log (count p l now).2).
Proof.
  unfold count. set (l1 := MkLog (now :: lg_failures l) (lg_until l) (lg_generation l) (lg_last l)).
  change (MkLog (k * now :: _) _ _ _) with (scale_log l1). rewrite counts_now_scale.
  destruct (counts_now p l1 now) as [short long]. cbn [scale_policy fp_ladder fp_short fp_long].
  change (lg_generation (scale_log l1)) with (lg_generation l1). rewrite rung_scale, pos_scale.
  change (tripped (scale_window ?w)) with (tripped w).
  destruct (_ && _); cbn [fst snd].
  - f_equal. unfold scale_log. cbn [lg_failures lg_until lg_generation lg_last fmap option_fmap option_map].
    by rewrite Z.mul_add_distr_l.
  - f_equal. unfold scale_reply. cbn [rp_blocked rp_retry rp_generation rp_short rp_long rp_armed]. f_equal. lia.
Qed.

Lemma blocked_reply_scale p l now : is_blocked l now = true →
  blocked_reply (scale_policy p) (scale_log l) (k * now) = scale_reply (blocked_reply p l now).
Proof.
  unfold blocked_reply, is_blocked. rewrite counts_now_scale. unfold scale_reply.
  cbn [rp_blocked rp_retry rp_generation rp_short rp_long rp_armed scale_log lg_until lg_generation].
  destruct (lg_until l); [|done]. intros _. cbn [fmap option_fmap option_map default from_option id]. f_equal. lia.
Qed.

Lemma peek_scale p l now : peek (scale_policy p) (scale_log l) (k * now) = scale_reply (peek p l now).
Proof.
  unfold peek. rewrite is_blocked_scale. destruct (is_blocked l now) eqn:Eb; [by apply blocked_reply_scale|].
  unfold scale_reply. cbn [rp_blocked rp_retry rp_generation rp_short rp_long rp_armed]. f_equal. lia.
Qed.

Lemma charge_scale p l now : charge (scale_policy p) (scale_log l) (k * now) =
  (scale_reply (charge p l now).1, scale_log (charge p l now).2).
Proof.
  unfold charge. rewrite arrive_scale, is_blocked_scale. cbv zeta.
  destruct (is_blocked (arrive p l now) now) eqn:Eb; [|apply count_scale]. cbn [fst snd]. f_equal.
  by apply blocked_reply_scale.
Qed.
End scale.

(** ** Replies *)

Lemma log_ok_scale k l now : 0 < k → log_ok l now → log_ok (scale_log k l) (k * now).
Proof.
  intros Hk [H1 H2 H3 H4]. split; cbn [scale_log lg_failures lg_last lg_generation].
  - intros t (x & -> & Hx)%list_elem_of_fmap. destruct (H1 x Hx) as (y & -> & ?). exists (k * y). split; [done|nia].
  - intros last Hl. destruct (lg_last l) as [y|] eqn:E; [|done]. injection Hl as <-. specialize (H2 y eq_refl). nia.
  - intros t (x & -> & Hx)%list_elem_of_fmap. specialize (H3 x Hx). nia.
  - by rewrite length_fmap.
Qed.

(** A reply tells how long the block lasts, and nothing where there is none. *)
Lemma charge_retry p l now : let r := (charge p l now).1 in
  if rp_blocked r then ∃ x, lg_until (charge p l now).2 = Some x ∧ rp_retry r = x - now ∧ now < x
  else rp_retry r = 0.
Proof.
  unfold charge. destruct (is_blocked (arrive p l now) now) eqn:Eb; cbn [fst snd blocked_reply rp_blocked rp_retry].
  - unfold is_blocked in Eb. destruct (lg_until (arrive p l now)) as [x|]; [|done]. exists x. zbool. done.
  - unfold count, counts_now. destruct ((_ || _) && _) eqn:E; cbn [fst snd rp_blocked rp_retry lg_until]; [|done].
    apply andb_true_iff in E as [_ E]. zbool. cbn [lg_generation] in *. eexists. split; [done|]. lia.
Qed.

Lemma peek_retry p l now : let r := peek p l now in
  if rp_blocked r then ∃ x, lg_until l = Some x ∧ rp_retry r = x - now ∧ now < x else rp_retry r = 0.
Proof.
  unfold peek. destruct (is_blocked l now) eqn:Eb; [|done]. cbn [blocked_reply rp_blocked rp_retry].
  unfold is_blocked in Eb. destruct (lg_until l) as [x|]; [|done]. exists x. zbool. done.
Qed.

Lemma charge_last p l now : lg_last (charge p l now).2 = Some now.
Proof. unfold charge, count, counts_now, arrive. destruct is_blocked; [done|]. by destruct (_ && _). Qed.
