(* ===== verification/Throttle.v ===== *)
(** * The login throttle of one node

    Models [src/internal/api/handlers/management/login_throttle.go]: buckets of failures,
    one per scope and client or account, counted in two sliding windows, with a ladder
    of blocks.

    A window is a ring of slots; a slot is found by the number of its interval, so an
    instant before 1970 would index the ring out of range, which is a panic of the
    source and [None] here.

    This file has one bucket: [entry_refines_log] shows that a [throttleEntry] is the log
    of failures of [FailureLog]. The table of buckets is in [ThrottleTable]. *)
From S2P Require Import Prelude GoModel ThrottlePolicy FailureLog.
From Stdlib Require Import Ascii.

(** ** Sliding windows *)

Record windowSlot := MkSlot { sl_index : Z; sl_count : Z }.

Definition two31 : Z := 2147483648.
Definition wrap32 (z : Z) : Z := (z + two31) mod (2 * two31) - two31.

(** [t.UnixNano()] *)
Definition UnixNano (t : Time) : Z := wrap64 (t - time_Unix 0).

Definition width_of (slots : list windowSlot) (window : throttleWindow) : Duration :=
  slotDuration window (Z.of_nat (length slots)).

(** [slot.index != index] resets the slot, then [slot.count++]. *)
Definition bump (index : Z) (s : windowSlot) : windowSlot :=
  MkSlot index (wrap32 ((if sl_index s =? index then sl_count s else 0) + 1)).

(** [None] is the panic of an index out of range. *)
Definition addToWindow (slots : list windowSlot) (window : throttleWindow) (now : Time)
    : option (list windowSlot) :=
  if tw_Limit window <=? 0 then Some slots
  else
    let width := width_of slots window in
    if width <=? 0 then Some slots
    else
      let index := Z.quot (UnixNano now) width in
      let i := Z.rem index (Z.of_nat (length slots)) in
      if i <? 0 then None
      else
        s ← slots !! Z.to_nat i;
        Some (<[Z.to_nat i := bump index s]> slots).

Definition countWindow (slots : list windowSlot) (window : throttleWindow) (now : Time) : Z :=
  if tw_Limit window <=? 0 then 0
  else
    let width := width_of slots window in
    if width <=? 0 then 0
    else
      let current := Z.quot (UnixNano now) width in
      let oldest := current - Z.of_nat (length slots) + 1 in
      zsum (λ s, if ((oldest <=? sl_index s) && (sl_index s <=? current)) then sl_count s else 0) slots.

(** ** Entries *)

Record throttleEntry := MkEntry {
  te_short : list windowSlot; te_long : list windowSlot;
  te_blockedUntil : Time; te_generation : Z; te_lastActivity : Time }.

(** [throttleEntry{}] *)
Definition new_entry : throttleEntry :=
  MkEntry (replicate throttleShortSlotCount (MkSlot 0 0)) (replicate throttleLongSlotCount (MkSlot 0 0)) 0 0 0.

Definition touch (now : Time) (e : throttleEntry) : throttleEntry :=
  MkEntry (te_short e) (te_long e) (te_blockedUntil e) (te_generation e) now.

(** The quiet period. *)
Definition quiet (policy : throttlePolicy) (last now : Time) : bool :=
  (0 <? tp_ResetAfter policy) && ! IsZero last && (tp_ResetAfter policy <=? time_Sub now last).

(** The decision of an entry that is blocked. *)
Definition blocked_decision (policy : throttlePolicy) (scope : throttleScope) (e : throttleEntry) (now : Time)
    : throttleDecision :=
  MkDecision (blockOutcome policy) (time_Sub (te_blockedUntil e) now) scope (te_generation e)
    (countWindow (te_short e) (tp_Short policy) now) (countWindow (te_long e) (tp_Long policy) now) false.

Definition window_tripped (w : throttleWindow) (count : Z) : bool :=
  (0 <? tw_Limit w) && (tw_Limit w <=? count).

(** What [recordFailureLocal] does from [addToWindow] on. *)
Definition count_failure (policy : throttlePolicy) (scope : throttleScope) (e : throttleEntry) (now : Time)
    : option (throttleDecision * throttleEntry) :=
  short ← addToWindow (te_short e) (tp_Short policy) now;
  long ← addToWindow (te_long e) (tp_Long policy) now;
  let shortCount := countWindow short (tp_Short policy) now in
  let longCount := countWindow long (tp_Long policy) now in
  let decision := MkDecision outcomeAllow 0 scope (te_generation e) shortCount longCount false in
  let e := MkEntry short long (te_blockedUntil e) (te_generation e) (te_lastActivity e) in
  if (! window_tripped (tp_Short policy) shortCount && ! window_tripped (tp_Long policy) longCount) then
    Some (decision, e)
  else
    let wait := blockDurationFor policy (te_generation e) in
    if wait <=? 0 then Some (decision, e)
    else
      let generation := wrap64 (te_generation e + 1) in
      Some (MkDecision (blockOutcome policy) wait scope generation shortCount longCount true,
            MkEntry short long (time_Add now wait) generation (te_lastActivity e)).

(** [recordFailureLocal] on the entry of the bucket. *)
Definition charge_entry (policy : throttlePolicy) (scope : throttleScope) (e : throttleEntry) (now : Time)
    : option (throttleDecision * throttleEntry) :=
  let e := touch now (if quiet policy (te_lastActivity e) now then new_entry else e) in
  if After (te_blockedUntil e) now then Some (blocked_decision policy scope e now, e)
  else count_failure policy scope e now.

(** ** A ring of slots is the log of its window *)

Section ring.

(** Every slot has the count of the latest interval of its class; [ks] are the
    intervals of the failures. *)
Definition ring_ok (slots : list windowSlot) (ks : list Z) : Prop :=
  ∀ i s, slots !! i = Some s →
    (∀ k, k ∈ ks → k mod Z.of_nat (length slots) = Z.of_nat i → k ≤ sl_index s) ∧
    sl_count s = zsum (λ k, if (k =? sl_index s) && (k mod Z.of_nat (length slots) =? Z.of_nat i)
                            then 1 else 0) ks ∧
    (sl_index s = 0 ∨ sl_index s ∈ ks ∧ sl_index s mod Z.of_nat (length slots) = Z.of_nat i).

Lemma ring_new n : ring_ok (replicate n (MkSlot 0 0)) [].
Proof.
  intros i s [-> Hi]%lookup_replicate. split; [by intros ? ?%elem_of_nil|]. split; [done|by left].
Qed.

Lemma wrap32_id z : - two31 ≤ z < two31 → wrap32 z = z.
Proof. unfold wrap32, two31. intros. rewrite Z.mod_small; lia. Qed.

Lemma zsum_bool_le {A} (P : A → bool) l : 0 ≤ zsum (λ x, if P x then 1 else 0) l ≤ Z.of_nat (length l).
Proof.
  split; [apply zsum_nonneg; intros x _; by destruct (P x)|].
  replace (Z.of_nat (length l)) with (zsum (λ _, 1) l) by (rewrite zsum_const; lia).
  apply zsum_le. intros x _. by destruct (P x).
Qed.

Lemma ring_bump slots ks k s i : ring_ok slots ks → slots !! i = Some s →
  k mod Z.of_nat (length slots) = Z.of_nat i → (∀ k', k' ∈ ks → k' ≤ k) → 0 ≤ k →
  Z.of_nat (length ks) < two31 - 1 →
  ring_ok (<[i := bump k s]> slots) (k :: ks).
Proof.
  intros Hr Hs Hk Hle Hk0 Hlen j s' Hj. rewrite length_insert in *.
  destruct (decide (i = j)) as [<-|Hne].
  - rewrite list_lookup_insert_eq in Hj by (by eapply lookup_lt_Some). injection Hj as <-.
    destruct (Hr i s Hs) as (Hmax & Hcnt & Hin). cbn [bump sl_index sl_count].
    split; [intros k' [->|Hk']%elem_of_cons _; [done|by apply Hle]|]. split; [|right; split; [left|done]].
    rewrite zsum_cons, Z.eqb_refl, Hk, Z.eqb_refl. cbn [andb].
    pose proof (zsum_bool_le (λ k', (k' =? k) && (k' mod Z.of_nat (length slots) =? Z.of_nat i)) ks).
    rewrite wrap32_id; unfold two31 in *.
    + destruct (Z.eqb_spec (sl_index s) k) as [<-|Hnk]; [rewrite Hcnt; lia|].
      rewrite zsum_zero; [lia|]. intros k' Hk'.
      destruct (Z.eqb_spec k' k) as [->|]; [|done]. exfalso. specialize (Hmax k Hk' Hk).
      destruct Hin as [Hz|[Hin _]]; [lia|]. specialize (Hle _ Hin). lia.
    + destruct (Z.eqb_spec (sl_index s) k) as [<-|Hnk]; [rewrite Hcnt; lia|lia].
  - rewrite list_lookup_insert_ne in Hj by done. destruct (Hr j s' Hj) as (Hmax & Hcnt & Hin).
    assert (Hkj : k mod Z.of_nat (length slots) ≠ Z.of_nat j) by lia.
    split; [intros k' [->|Hk']%elem_of_cons Hc; [done|by apply Hmax]|].
    split; [|destruct Hin as [?|[??]]; [by left|right; split; [by right|done]]].
    rewrite zsum_cons, (proj2 (Z.eqb_neq _ _) Hkj), andb_false_r. by rewrite Z.add_0_l.
Qed.

(** Summing over positions instead of elements. *)
Lemma zsum_positions {A} (f : A → Z) (g : Z → Z) (l : list A) o :
  (∀ i x, l !! i = Some x → f x = g (Z.of_nat (o + i))) →
  zsum f l = zsum (λ i, g (Z.of_nat i)) (seq o (length l)).
Proof.
  revert o. induction l as [|x l IH]; intros o H; [done|]. cbn [length seq]. rewrite !zsum_cons.
  rewrite (H 0%nat x) by done. rewrite Nat.add_0_r. f_equal. apply IH. intros i y Hi.
  rewrite (H (S i) y Hi). f_equal. lia.
Qed.

(** Every number belongs to one class modulo [n]. *)
Lemma zsum_classes (P : Z → bool) n ks : (0 < n)%nat →
  zsum (λ i, zsum (λ k, if P k && (k mod Z.of_nat n =? Z.of_nat i) then 1 else 0) ks) (seq 0 n) =
  zsum (λ k, if P k then 1 else 0) ks.
Proof.
  intros Hn. induction ks as [|k ks IH].
  { by apply zsum_zero. }
  rewrite (zsum_ext _ (λ i, (if P k && (k mod Z.of_nat n =? Z.of_nat i) then 1 else 0) +
    zsum (λ k, if P k && (k mod Z.of_nat n =? Z.of_nat i) then 1 else 0) ks))
    by (intros; by rewrite zsum_cons).
  rewrite zsum_add, IH, zsum_cons. f_equal. destruct (P k); cbn [andb].
  - pose proof (Z.mod_pos_bound k (Z.of_nat n) ltac:(lia)).
    rewrite (zsum_ext _ (λ i, if decide (i = Z.to_nat (k mod Z.of_nat n)) then 1 else 0)).
    + apply zsum_indicator; [apply NoDup_seq|]. apply elem_of_seq. lia.
    + intros i _. destruct (decide _) as [->|]; [rewrite Z2Nat.id by lia; by rewrite Z.eqb_refl|].
      destruct (Z.eqb_spec (k mod Z.of_nat n) (Z.of_nat i)); [lia|done].
  - rewrite zsum_const. lia.
Qed.

Lemma mod_close n x y : Z.abs (x - y) < n → x mod n = y mod n → x = y.
Proof.
  intros Hd Hm. assert (Hn : n ≠ 0) by lia.
  pose proof (Z.div_mod x n Hn) as Hx. pose proof (Z.div_mod y n Hn) as Hy. rewrite Hm in Hx.
  assert (x / n = y / n) as E by (apply Z.le_antisymm; apply Z.lt_succ_r; nia). lia.
Qed.

(** What the ring counts is what the log has in the window. *)
Lemma ring_count slots ks cur : ring_ok slots ks → slots ≠ [] → (∀ k, k ∈ ks → 0 ≤ k ≤ cur) →
  zsum (λ s, if ((cur - Z.of_nat (length slots) + 1 <=? sl_index s) && (sl_index s <=? cur))
             then sl_count s else 0) slots =
  zsum (λ k, if ((cur - Z.of_nat (length slots) + 1 <=? k) && (k <=? cur)) then 1 else 0) ks.
Proof.
  intros Hr Hne Hks. set (n := length slots).
  assert (Hn : (0 < n)%nat) by (unfold n; destruct slots; [done|simpl; lia]).
  set (P := λ k, (cur - Z.of_nat n + 1 <=? k) && (k <=? cur)).
  rewrite (zsum_positions _ (λ i, zsum (λ k, if P k && (k mod Z.of_nat n =? i) then 1 else 0) ks) _ 0).
  { by rewrite zsum_classes. }
  intros i s Hs. cbn [plus]. destruct (Hr i s Hs) as (Hmax & Hcnt & Hin).
  fold n in Hmax, Hcnt. change (((cur - Z.of_nat n + 1 <=? sl_index s) && (sl_index s <=? cur))) with (P (sl_index s)).
  destruct (P (sl_index s)) eqn:EP.
  - rewrite Hcnt. apply zsum_ext. intros k Hk.
    destruct (Z.eqb_spec (k mod Z.of_nat n) (Z.of_nat i)) as [Hc|]; [|by rewrite !andb_false_r].
    rewrite !andb_true_r. destruct (Z.eqb_spec k (sl_index s)) as [->|Hd]; [by rewrite EP|].
    specialize (Hmax k Hk Hc). destruct (P k) eqn:E; [|done]. exfalso. unfold P in E, EP. zbool.
    destruct Hin as [Hz|[_ Hi]]; [pose proof (Hks k Hk); lia|].
    apply Hd, (mod_close (Z.of_nat n)); [lia|by rewrite Hc].
  - symmetry. apply zsum_zero. intros k Hk.
    destruct (Z.eqb_spec (k mod Z.of_nat n) (Z.of_nat i)) as [Hc|]; [|by rewrite andb_false_r].
    rewrite andb_true_r. specialize (Hmax k Hk Hc). destruct (P k) eqn:E; [|done].
    pose proof (Hks k Hk). unfold P in E, EP. zbool.
    assert (sl_index s ≤ cur) by (destruct Hin as [->|[Hin _]]; [lia|by apply Hks]).
    rewrite (proj2 (Z.leb_le _ _)), (proj2 (Z.leb_le _ _)) in EP by lia. done.
Qed.
End ring.

(** ** An entry is a log *)

(** Nanoseconds since 1970, and the instants that [UnixNano] represents (until 2262). *)
Definition ticks (t : Time) : Z := t - time_Unix 0.
Definition modern (t : Time) : Prop := 0 < ticks t < two63.

Definition log_window (w : throttleWindow) (n : nat) : Window :=
  MkFW (tw_Limit w) (slotDuration w (Z.of_nat n)) (Z.of_nat n).

Definition log_policy (p : throttlePolicy) : Policy :=
  MkFP (log_window (tp_Short p) throttleShortSlotCount) (log_window (tp_Long p) throttleLongSlotCount)
    (tp_Backoff p) (tp_ResetAfter p).

(** The decision that a reply stands for. *)
Definition standing (p : throttlePolicy) (scope : throttleScope) (r : Reply) : throttleDecision :=
  MkDecision (if rp_blocked r then blockOutcome p else outcomeAllow) (rp_retry r) scope
    (rp_generation r) (rp_short r) (rp_long r) (rp_armed r).

Definition window_ring (w : Window) (slots : list windowSlot) (failures : list Z) : Prop :=
  Z.of_nat (length slots) = fw_slots w ∧ 0 < fw_slots w ∧
  (enabled w = true → ring_ok slots ((λ t, t / fw_width w) <$> failures)).

Definition past (failures : list Z) (now : Z) : Prop := ∀ t, t ∈ failures → 0 < t ≤ now.

Lemma past_log l now u : log_ok l u → u ≤ now → past (lg_failures l) now.
Proof.
  intros Hl Hu t Ht. split; [by apply (lok_pos _ _ Hl)|].
  destruct (lok_last _ _ Hl t Ht) as (x & Hx & ?). pose proof (lok_now _ _ Hl x Hx). lia.
Qed.

Lemma UnixNano_modern t : modern t → UnixNano t = ticks t.
Proof. intros [H1 H2]. unfold UnixNano. apply wrap64_id. unfold in_int64, two63, ticks in *. lia. Qed.

Lemma enabled_cases w n : enabled (log_window w n) = true ∧ 0 < tw_Limit w ∧ 0 < slotDuration w (Z.of_nat n) ∨
  enabled (log_window w n) = false ∧ (tw_Limit w ≤ 0 ∨ slotDuration w (Z.of_nat n) ≤ 0).
Proof.
  unfold enabled. cbn [fw_limit fw_width log_window].
  destruct (Z.ltb_spec 0 (tw_Limit w)), (Z.ltb_spec 0 (slotDuration w (Z.of_nat n))); cbn [andb]; auto.
Qed.

Lemma past_index w failures now : past failures now → 0 < w →
  ∀ k, k ∈ (λ t, t / w) <$> failures → 0 ≤ k ≤ now / w.
Proof.
  intros Hp Hw k (t & -> & Ht)%list_elem_of_fmap. specialize (Hp t Ht).
  split; [apply Z.div_pos; lia|apply Z.div_le_mono; lia].
Qed.

Lemma countWindow_log w n slots failures now : window_ring (log_window w n) slots failures →
  past failures (ticks now) → modern now →
  countWindow slots w now = window_count (log_window w n) (ticks now) failures.
Proof.
  intros (Hlen & Hn & Hr) Hp Hm. cbn [fw_slots log_window] in Hlen, Hn. apply Nat2Z.inj in Hlen as <-.
  unfold countWindow, width_of, window_count.
  destruct (enabled_cases w (length slots)) as [(E & H1 & H2)|(E & H)]; rewrite E.
  - rewrite (proj2 (Z.leb_gt _ _) H1), (proj2 (Z.leb_gt _ _) H2), UnixNano_modern by done.
    rewrite Z.quot_div_nonneg by (destruct Hm; lia).
    rewrite (ring_count _ ((λ t, t / slotDuration w (Z.of_nat (length slots))) <$> failures)).
    + rewrite zsum_fmap. done.
    + by apply Hr.
    + intros ->. done.
    + by apply past_index.
  - destruct (Z.leb_spec (tw_Limit w) 0); [done|]. destruct (Z.leb_spec (slotDuration w (Z.of_nat (length slots))) 0); [done|lia].
Qed.

Lemma addToWindow_log w n slots failures now : window_ring (log_window w n) slots failures →
  past failures (ticks now) → modern now → Z.of_nat (length failures) < two31 - 1 →
  ∃ slots', addToWindow slots w now = Some slots' ∧
    window_ring (log_window w n) slots' (ticks now :: failures).
Proof.
  intros (Hlen & Hn & Hr) Hp Hm Hb. cbn [fw_slots log_window] in Hlen, Hn. apply Nat2Z.inj in Hlen as <-.
  unfold addToWindow, width_of.
  destruct (enabled_cases w (length slots)) as [(E & H1 & H2)|(E & H)].
  - rewrite (proj2 (Z.leb_gt _ _) H1), (proj2 (Z.leb_gt _ _) H2), UnixNano_modern by done.
    rewrite Z.quot_div_nonneg by (destruct Hm; lia).
    set (k := ticks now / slotDuration w (Z.of_nat (length slots))).
    assert (Hk : 0 ≤ k) by (apply Z.div_pos; [destruct Hm; lia|done]).
    rewrite Z.rem_mod_nonneg by lia. pose proof (Z.mod_pos_bound k (Z.of_nat (length slots)) Hn).
    rewrite (proj2 (Z.ltb_ge _ _)) by lia.
    destruct (lookup_lt_is_Some_2 slots (Z.to_nat (k mod Z.of_nat (length slots)))) as [s Hs]; [lia|].
    rewrite Hs. eexists. split; [done|]. split; [by rewrite length_insert|]. split; [done|].
    intros _. rewrite fmap_cons. apply ring_bump; [by apply Hr|done| | |done|by rewrite length_fmap].
    + by rewrite Z2Nat.id by lia.
    + intros k' Hk'. by apply (past_index _ failures (ticks now)).
  - exists slots. split; [|by split; [|split; [|congruence]]].
    destruct (Z.leb_spec (tw_Limit w) 0); [done|]. destruct (Z.leb_spec (slotDuration w (Z.of_nat (length slots))) 0); [done|lia].
Qed.

Definition entry_time (o : option Z) : Time :=
  match o with Some t => t + time_Unix 0 | None => 0 end.

Record entry_log (p : throttlePolicy) (e : throttleEntry) (l : log) : Prop := {
  el_short : window_ring (fp_short (log_policy p)) (te_short e) (lg_failures l);
  el_long : window_ring (fp_long (log_policy p)) (te_long e) (lg_failures l);
  el_until : te_blockedUntil e = entry_time (lg_until l);
  el_generation : te_generation e = lg_generation l;
  el_last : te_lastActivity e = entry_time (lg_last l);
  (** No block is longer than a duration. *)
  el_far : ∀ u, lg_until l = Some u → ∃ last, lg_last l = Some last ∧ u - last < two63
}.

Lemma new_entry_log p : entry_log p new_entry empty_log.
Proof.
  split; cbn [te_short te_long te_blockedUntil te_generation te_lastActivity new_entry lg_failures
    lg_until lg_generation lg_last empty_log]; try done;
    (split; [by rewrite length_replicate|]; split; [done|]; intros _; apply ring_new).
Qed.

Lemma quiet_log p e l now : entry_log p e l → log_ok l (ticks now) → modern now →
  quiet p (te_lastActivity e) now = is_quiet (log_policy p) l (ticks now).
Proof.
  intros He Hl Hm. unfold quiet, is_quiet. rewrite (el_last _ _ _ He). cbn [fp_reset log_policy].
  destruct (lg_last l) as [x|] eqn:Ex; cbn [entry_time].
  - pose proof (lok_now _ _ Hl x Ex). destruct Hm. unfold IsZero, time_Sub, ticks in *.
    rewrite clamp64_id by (unfold in_int64, two63 in *; lia).
    rewrite (proj2 (Z.eqb_neq _ _)) by (unfold time_Unix in *; lia). rewrite andb_true_r.
    do 2 f_equal. lia.
  - by rewrite andb_false_r.
Qed.

Lemma blocked_log p e l now : entry_log p e l → modern now →
  After (te_blockedUntil e) now = is_blocked l (ticks now).
Proof.
  intros He [Hm _]. unfold is_blocked, After, ticks in *. rewrite (el_until _ _ _ He).
  destruct (lg_until l) as [u|]; cbn [entry_time].
  - destruct (Z.ltb_spec now (u + time_Unix 0)), (Z.ltb_spec (now - time_Unix 0) u); lia || done.
  - apply Z.ltb_ge. unfold time_Unix in *. lia.
Qed.

(** The decision on a blocked entry. *)
Lemma blocked_decision_log p scope e l now : entry_log p e l → log_ok l (ticks now) → modern now →
  is_blocked l (ticks now) = true →
  blocked_decision p scope e now = standing p scope (blocked_reply (log_policy p) l (ticks now)).
Proof.
  intros He Hl Hm Hb. unfold blocked_decision, standing, blocked_reply, counts_now.
  cbn [rp_blocked rp_retry rp_generation rp_short rp_long rp_armed fst snd].
  pose proof (past_log l (ticks now) (ticks now) Hl ltac:(lia)) as Hp.
  cbn [fp_short fp_long log_policy].
  rewrite (countWindow_log _ _ _ _ _ (el_short _ _ _ He) Hp Hm).
  rewrite (countWindow_log _ _ _ _ _ (el_long _ _ _ He) Hp Hm).
  rewrite (el_generation _ _ _ He). f_equal.
  unfold is_blocked in Hb. rewrite (el_until _ _ _ He).
  destruct (lg_until l) as [u|] eqn:Eu; [|done]. cbn [entry_time default].
  destruct (el_far _ _ _ He u Eu) as (x & Hx & Hfar). pose proof (lok_now _ _ Hl x Hx). zbool.
  unfold time_Sub. rewrite clamp64_id; unfold ticks in *; [cbn; lia|]. unfold in_int64, two63 in *. lia.
Qed.

Lemma blockDurationFor_rung p g : 0 ≤ g → blockDurationFor p g = rung (tp_Backoff p) g.
Proof.
  intros Hg. unfold blockDurationFor, rung. destruct (tp_Backoff p) as [|d ds]; [by destruct (Z.to_nat g)|].
  rewrite (proj2 (Z.eqb_neq _ _)) by (simpl; lia). rewrite (proj2 (Z.ltb_ge _ _)) by lia.
  cbv zeta. f_equal. destruct (Z.leb_spec (Z.of_nat (length (d :: ds))) g); simpl length in *; lia.
Qed.

Lemma standing_counted p scope g short long :
  standing p scope (MkReply false 0 g short long false) = MkDecision outcomeAllow 0 scope g short long false.
Proof. done. Qed.

(** No rung overflows. *)
Definition durations_ok (p : throttlePolicy) : Prop := Forall in_int64 (tp_Backoff p).

Lemma rung_range ladder g : Forall in_int64 ladder → in_int64 (rung ladder g).
Proof.
  intros Hf. destruct (decide (ladder = [])) as [->|Hne].
  - replace (rung [] g) with 0 by (unfold rung; by destruct (Nat.min _ _)). by unfold in_int64, two63.
  - by apply (proj1 (Forall_forall _ _) Hf), rung_elem.
Qed.

Lemma count_failure_log p scope e l now : durations_ok p → entry_log p e l → log_ok l (ticks now) →
  modern now → lg_last l = Some (ticks now) → Z.of_nat (length (lg_failures l)) < two31 - 1 →
  ∃ e', count_failure p scope e now = Some (standing p scope (count (log_policy p) l (ticks now)).1, e') ∧
    entry_log p e' (count (log_policy p) l (ticks now)).2.
Proof.
  intros Hd He Hl Hm Hlast Hb. pose proof (past_log l (ticks now) (ticks now) Hl ltac:(lia)) as Hp.
  pose proof (lok_gen _ _ Hl) as Hg.
  destruct (addToWindow_log _ _ _ _ _ (el_short _ _ _ He) Hp Hm Hb) as (short & Es & Hs).
  destruct (addToWindow_log _ _ _ _ _ (el_long _ _ _ He) Hp Hm Hb) as (long & El & Hlo).
  assert (Hp' : past (ticks now :: lg_failures l) (ticks now))
    by (intros t [->|Ht]%elem_of_cons; [destruct Hm; lia|by apply Hp]).
  unfold count_failure, count, counts_now. rewrite Es. cbn [mbind option_bind]. rewrite El. cbn [mbind option_bind].
  rewrite (countWindow_log _ _ _ _ _ Hs Hp' Hm), (countWindow_log _ _ _ _ _ Hlo Hp' Hm).
  cbn [te_short te_long te_generation te_blockedUntil te_lastActivity lg_failures lg_generation lg_last lg_until fp_short fp_long fp_ladder log_policy].
  rewrite (el_generation _ _ _ He), (blockDurationFor_rung p (lg_generation l) (proj1 Hg)).
  set (sc := window_count (log_window (tp_Short p) _) _ _). set (lc := window_count (log_window (tp_Long p) _) _ _).
  change (window_tripped (tp_Short p) sc) with (tripped (log_window (tp_Short p) throttleShortSlotCount) sc).
  change (window_tripped (tp_Long p) lc) with (tripped (log_window (tp_Long p) throttleLongSlotCount) lc).
  rewrite <- negb_orb.
  pose proof (rung_range (tp_Backoff p) (lg_generation l) Hd) as Hr. unfold in_int64 in Hr.
  pose proof (el_last _ _ _ He) as Hla. pose proof (el_far _ _ _ He) as Hfar. pose proof (el_until _ _ _ He) as Hu.
  destruct (tripped _ sc || tripped _ lc); cbn [negb andb];
    [|eexists; split; [done|]; by split].
  destruct (Z.leb_spec (rung (tp_Backoff p) (lg_generation l)) 0) as [Hz|Hz].
  - rewrite (proj2 (Z.ltb_ge _ _)) by lia. eexists. split; [done|]. by split.
  - rewrite (proj2 (Z.ltb_lt _ _)) by lia. rewrite wrap64_id by (unfold in_int64, two63, two31 in *; lia).
    eexists. split; [done|]. split; try done; cbn [te_blockedUntil te_generation lg_until lg_generation snd entry_time].
    + unfold time_Add, ticks. lia.
    + intros u [= <-]. exists (ticks now). split; [done|lia].
Qed.

Lemma arrive_log p e l now : entry_log p e l → log_ok l (ticks now) → modern now →
  entry_log p (touch now (if quiet p (te_lastActivity e) now then new_entry else e))
    (arrive (log_policy p) l (ticks now)).
Proof.
  intros He Hl Hm. rewrite (quiet_log p e l now He Hl Hm). unfold arrive.
  assert (H1 : entry_log p (if is_quiet (log_policy p) l (ticks now) then new_entry else e)
                 (if is_quiet (log_policy p) l (ticks now) then empty_log else l) ∧
               log_ok (if is_quiet (log_policy p) l (ticks now) then empty_log else l) (ticks now))
    by (destruct is_quiet; split; auto using new_entry_log, empty_log_ok).
  destruct H1 as [[H1 H2 H3 H4 H5 H6] Hok].
  split; cbn [touch te_short te_long te_blockedUntil te_generation te_lastActivity
    lg_failures lg_until lg_generation lg_last]; try done; [cbn; unfold ticks; lia|].
  intros x Hx. exists (ticks now). split; [done|]. destruct (H6 x Hx) as (y & Hy & ?).
  pose proof (lok_now _ _ Hok y Hy). lia.
Qed.

(** The ring buffers of a bucket forget nothing that counts: a [throttleEntry] decides on every
    failure exactly as the log of all counted failures since the last reset does, and stays that
    log; the slot arithmetic, the 32-bit counters and the reset make no difference. *)
Lemma entry_refines_log p scope e l now u : durations_ok p → entry_log p e l → log_ok l u →
  u ≤ ticks now → modern now → Z.of_nat (length (lg_failures l)) < two31 - 1 →
  ∃ e', charge_entry p scope e now = Some (standing p scope (charge (log_policy p) l (ticks now)).1, e') ∧
    entry_log p e' (charge (log_policy p) l (ticks now)).2 ∧
    log_ok (charge (log_policy p) l (ticks now)).2 (ticks now).
Proof.
  intros Hd He Hl Hu Hm Hb. pose proof (arrive_ok (log_policy p) l _ _ Hl Hu (proj1 Hm)) as Ha.
  pose proof (arrive_log p e l now He (log_ok_later _ _ _ Hl Hu) Hm) as Hea.
  pose proof (charge_ok (log_policy p) l _ _ Hl Hu (proj1 Hm)) as Hc. revert Hc.
  unfold charge_entry, charge. cbv zeta.
  rewrite (blocked_log p _ _ now Hea Hm).
  destruct (is_blocked (arrive (log_policy p) l (ticks now)) (ticks now)) eqn:Eb; intros Hc.
  - eexists. split; [|by split]. by rewrite (blocked_decision_log p scope _ _ now Hea Ha Hm Eb).
  - edestruct (count_failure_log p scope _ _ now Hd Hea Ha Hm) as (e' & Ee & He'); [done| |].
    { unfold arrive. destruct is_quiet; [done|exact Hb]. }
    exists e'. by rewrite Ee.
Qed.

(** ** The budget of guesses of a bucket *)

(** The failure was counted: the bucket was not blocked when it arrived. *)
Definition counted_decision (d : throttleDecision) : bool :=
  match td_Outcome d with outcomeAllow => true | _ => td_NewlyArmed d end.

(** The failures of a run that are counted; [None] if one panics. *)
Fixpoint charge_all (p : throttlePolicy) (scope : throttleScope) (e : throttleEntry) (nows : list Time)
    : option (list Time) :=
  match nows with
  | [] => Some []
  | now :: nows =>
      '(d, e) ← charge_entry p scope e now;
      rest ← charge_all p scope e nows;
      Some ((if counted_decision d then [now] else []) ++ rest)
  end.

Lemma standing_decision p scope r : counted_decision (standing p scope r) = counted r.
Proof.
  unfold counted_decision, counted, standing. cbn [td_Outcome td_NewlyArmed].
  destruct (rp_blocked r); [|done]. unfold blockOutcome. destruct (tp_HardBlock p); by destruct (rp_armed r).
Qed.

Lemma charge_length p l now : (length (lg_failures (charge p l now).2) ≤ S (length (lg_failures l)))%nat.
Proof.
  assert (H : (length (lg_failures (arrive p l now)) ≤ length (lg_failures l))%nat)
    by (unfold arrive; destruct is_quiet; [simpl; lia|done]).
  unfold charge. destruct is_blocked; [cbn [snd]; lia|].
  unfold count, counts_now. destruct (_ && _); cbn [snd lg_failures length]; lia.
Qed.

Lemma charge_all_log p scope e l u nows : durations_ok p → entry_log p e l → log_ok l u →
  Sorted Z.le (u :: (ticks <$> nows)) → Forall modern nows →
  Z.of_nat (length (lg_failures l) + length nows) < two31 →
  ∃ times, charge_all p scope e nows = Some times ∧
    ticks <$> times = admitted (log_policy p) l (ticks <$> nows).
Proof.
  intros Hd. revert e l u. induction nows as [|now nows IH]; intros e l u He Hl Hs Hm Hb; [by exists []|].
  inversion Hm as [|? ? Hnow Hms]; subst. rewrite fmap_cons in Hs.
  inversion Hs as [|? ? Hs' Hhd]; subst. inversion Hhd; subst. cbn [length] in Hb.
  destruct (entry_refines_log p scope e l now u) as (e' & Ee & He' & Hl'); [done|done|done|lia|done|lia|].
  pose proof (charge_length (log_policy p) l (ticks now)) as Hlen.
  destruct (IH e' _ (ticks now) He' Hl' Hs' Hms) as (times & Et & Ht); [lia|].
  cbn [charge_all]. rewrite Ee. cbn [mbind option_bind]. rewrite Et. cbn [mbind option_bind].
  eexists. split; [done|]. rewrite fmap_app, Ht, standing_decision, fmap_cons. cbn [admitted].
  destruct (charge (log_policy p) l (ticks now)) as [r l']. cbn [fst snd]. by destruct (counted r).
Qed.

(** The guesses a bucket admits are bounded: of the failures that arrive within one short window
    the limit is counted and then at most one more for every shortest block of the ladder, whatever
    happened before and however many more arrive; none of them panics. *)
Lemma login_guess_budget p scope e l u nows m a b : durations_ok p → entry_log p e l → log_ok l u →
  Sorted Z.le (u :: (ticks <$> nows)) → Forall modern nows →
  Z.of_nat (length (lg_failures l) + length nows) < two31 →
  let width := slotDuration (tp_Short p) (Z.of_nat throttleShortSlotCount) in
  0 < tw_Limit (tp_Short p) → 0 < width → tp_Backoff p ≠ [] → 0 < m → Forall (λ d, m ≤ d) (tp_Backoff p) →
  Forall (λ now, a ≤ ticks now ≤ b) nows → a ≤ b →
  b / width - a / width < Z.of_nat throttleShortSlotCount →
  tp_ResetAfter p ≤ 0 ∨ b - a < tp_ResetAfter p →
  ∃ times, charge_all p scope e nows = Some times ∧
    (Z.of_nat (length times) - tw_Limit (tp_Short p)) * m ≤ b - a.
Proof.
  intros Hd He Hl Hs Hm Hb width Hlim Hw Hne Hmp Hlad Hin Hab Hspan Hreset.
  destruct (charge_all_log p scope e l u nows Hd He Hl Hs Hm Hb) as (times & Et & Ht).
  exists times. split; [done|].
  assert (Hon : enabled (fp_short (log_policy p)) = true)
    by (unfold enabled; apply andb_true_iff; split; by apply Z.ltb_lt).
  assert (Hin' : Forall (λ t, a ≤ t ≤ b ∧ 0 < t) (ticks <$> nows)).
  { apply Forall_fmap, Forall_forall. intros now Hn. cbn [compose].
    split; [by apply (proj1 (Forall_forall _ _) Hin)|by apply (proj1 (Forall_forall _ _) Hm)]. }
  rewrite <- (length_fmap ticks), Ht. by apply (run_budget (log_policy p) a b m l u).
Qed.

Lemma login_guess_budget_witness :
  let p := default_policy scopeUserAccount in
  let start := time_Unix 1700000000 in
  let nows := (λ i, start + Z.of_nat i * Second) <$> seq 0 20 in
  ∃ times, charge_all p scopeUserAccount new_entry nows = Some times ∧
    (Z.of_nat (length times) - 5) * Minute ≤ 19 * Second.
Proof.
  destruct (login_guess_budget (default_policy scopeUserAccount) scopeUserAccount new_entry empty_log
    (ticks (time_Unix 1700000000)) ((λ i, time_Unix 1700000000 + Z.of_nat i * Second) <$> seq 0 20) Minute
    (ticks (time_Unix 1700000000)) (ticks (time_Unix 1700000000) + 19 * Second)) as (times & H1 & H2).
  - apply (bool_decide_unpack _). vm_compute. exact I.
  - apply new_entry_log.
  - apply empty_log_ok.
  - apply (bool_decide_unpack _). vm_compute. exact I.
  - apply (bool_decide_unpack _). vm_compute. exact I.
  - by vm_compute.
  - done.
  - done.
  - done.
  - done.
  - apply (bool_decide_unpack _). vm_compute. exact I.
  - apply (bool_decide_unpack _). vm_compute. exact I.
  - done.
  - done.
  - by right.
  - exists times. split; [exact H1|]. etrans; [exact H2|]. by vm_compute.
Defined.

(** Beyond 292 years a configured duration wraps around and the window counts nothing. *)
Lemma overflowing_window_counts_nothing slots now :
  countWindow slots (tp_Short (policyFor (throttlePoliciesFromConfig (Some (MkKnobs 9223372037 0 0 0 0)))
    (MkKey scopeUserAccount "alice" false))) now = 0.
Proof.
  change (tp_Short _) with (MkWindow 5 (-9223372036709551616)).
  unfold countWindow, width_of, slotDuration. by cbn [tw_Limit tw_Window Z.leb Z.compare orb].
Qed.
