(* ===== verification/ThrottleTable.v ===== *)
(** * The table of buckets of the login throttle

    Models the table of [src/internal/api/handlers/management/login_throttle.go]: the
    shards, the failures, standings and successes of a key, the eviction from a full
    shard and the cleanup of idle buckets. A shard is a map under a mutex, and every
    operation here is one critical section; the logger and the goroutine that calls
    [purgeStale] are left out.

    The table is bounded ([throttle_memory_bounded]) and its cleanup is invisible
    ([purge_invisible]); an eviction is not ([eviction_sheds_block]). *)
From S2P Require Import Prelude GoModel ThrottlePolicy FailureLog Throttle.
From Stdlib Require Import Ascii.

(** ** The table of buckets *)

(** FNV-1a of 32 bits ([hash/fnv]). *)
Definition fnv_step (h : Z) (c : ascii) : Z :=
  (Z.lxor h (Z.of_nat (nat_of_ascii c)) * 16777619) mod 4294967296.

Fixpoint fnv_from (h : Z) (s : string) : Z :=
  match s with EmptyString => h | String c s' => fnv_from (fnv_step h c) s' end.

Definition fnv32a (s : string) : Z := fnv_from 2166136261 s.

Record loginThrottle := MkThrottle {
  lt_shards : list (gmap string throttleEntry); lt_policies : gmap throttleScope throttlePolicy }.

(** [None] is a nil table. *)
Definition setPolicies (t : loginThrottle) (p : option (gmap throttleScope throttlePolicy)) : loginThrottle :=
  MkThrottle (lt_shards t) (default defaultThrottlePolicies p).

Definition newLoginThrottle (p : option (gmap throttleScope throttlePolicy)) : loginThrottle :=
  setPolicies (MkThrottle (replicate (Z.to_nat throttleShardCount) ∅) ∅) p.

Definition bucketID (key : throttleKey) : string := scope_String (tk_Scope key) +:+ "|" +:+ tk_Value key.

Definition shardFor (bucket : string) : nat := Z.to_nat (fnv32a bucket mod throttleShardCount).

Definition shard_at (t : loginThrottle) (bucket : string) : gmap string throttleEntry :=
  default ∅ (lt_shards t !! shardFor bucket).

Definition set_shard (t : loginThrottle) (bucket : string) (shard : gmap string throttleEntry) : loginThrottle :=
  MkThrottle (<[shardFor bucket := shard]> (lt_shards t)) (lt_policies t).

Definition entry_at (t : loginThrottle) (key : throttleKey) : option throttleEntry :=
  shard_at t (bucketID key) !! bucketID key.

Definition limitsFor (t : loginThrottle) (key : throttleKey) : Z * Z :=
  let policy := policyFor (lt_policies t) key in
  (tw_Limit (tp_Short policy), tw_Limit (tp_Long policy)).

Definition evaluateLocal (t : loginThrottle) (key : throttleKey) (now : Time) : throttleDecision :=
  match entry_at t key with
  | Some e =>
      if After (te_blockedUntil e) now
      then blocked_decision (policyFor (lt_policies t) key) (tk_Scope key) e now
      else allowed (tk_Scope key)
  | None => allowed (tk_Scope key)
  end.

(** The largest of the quiet periods; the order of the loop does not matter. *)
Definition idleRetention (t : loginThrottle) : Duration :=
  map_fold (λ _ p retention, if retention <? tp_ResetAfter p then tp_ResetAfter p else retention)
    throttleMinIdleRetention (lt_policies t).

Definition recordSuccessLocal (t : loginThrottle) (key : throttleKey) : loginThrottle :=
  set_shard t (bucketID key) (delete (bucketID key) (shard_at t (bucketID key))).

Definition stale (retention : Duration) (now : Time) (e : throttleEntry) : bool :=
  ! After (te_blockedUntil e) now && (retention <? time_Sub now (te_lastActivity e)).

Definition purgeStale (t : loginThrottle) (now : Time) : loginThrottle :=
  MkThrottle ((λ shard, filter (λ kv, stale (idleRetention t) now kv.2 = false) shard) <$> lt_shards t)
    (lt_policies t).

Definition trackedKeys (t : loginThrottle) : Z := zsum (λ shard, Z.of_nat (size shard)) (lt_shards t).

Section table.
Context {RO : RangeOrder}.

Definition aged_before (a b : string * Time) : bool := Before a.2 b.2.

(** The candidates of an eviction, the least recently active first. *)
Definition candidates (site : nat) (shard : gmap string throttleEntry) : list (string * Time) :=
  sort_by aged_before (prod_map id te_lastActivity <$> range_order site shard).

Definition evict_count (total : Z) : Z :=
  let evict := Z.quot total throttleEvictBatchRatio in if evict <? 1 then 1 else evict.

Definition evictIfSaturatedLocked (site : nat) (shard : gmap string throttleEntry) : gmap string throttleEntry :=
  let total := Z.of_nat (size shard) in
  if total <? maxShardKeys then shard
  else foldl (λ m c, delete c.1 m) shard
         (take (Z.to_nat (evict_count total)) (candidates site shard)).

Definition recordFailureLocal (site : nat) (t : loginThrottle) (key : throttleKey) (now : Time)
    : option (throttleDecision * loginThrottle) :=
  let policy := policyFor (lt_policies t) key in
  let bucket := bucketID key in
  let shard := shard_at t bucket in
  let '(shard, entry) := match shard !! bucket with
                         | None => (evictIfSaturatedLocked site shard, new_entry)
                         | Some entry => (shard, entry)
                         end in
  '(decision, entry) ← charge_entry policy (tk_Scope key) entry now;
  Some (decision, set_shard t bucket (<[bucket := entry]> shard)).

(** *** Eviction *)

Lemma foldl_delete_lookup (l : list (string * Time)) (m : gmap string throttleEntry) k :
  foldl (λ m c, delete c.1 m) m l !! k = if decide (k ∈ l.*1) then None else m !! k.
Proof.
  revert m. induction l as [|[k' x] l IH]; intros m; [done|].
  cbn [foldl fst]. rewrite IH, fmap_cons. cbn [fst].
  destruct (decide (k ∈ l.*1)), (decide (k ∈ k' :: l.*1)) as [Hin|Hn]; try done.
  - exfalso. apply Hn. by right.
  - apply elem_of_cons in Hin as [->|]; [|done]. apply lookup_delete_eq.
  - apply lookup_delete_ne. intros ->. apply Hn. left.
Qed.

Lemma candidates_perm site shard :
  candidates site shard ≡ₚ prod_map id te_lastActivity <$> map_to_list shard.
Proof. unfold candidates. by rewrite sort_by_perm, range_order_perm. Qed.

Lemma candidates_keys site shard : (candidates site shard).*1 ≡ₚ (map_to_list shard).*1.
Proof.
  rewrite candidates_perm, <- list_fmap_compose.
  apply reflexive_eq, list_fmap_ext. by intros ? [].
Qed.

Lemma elem_of_candidates site shard k x :
  (k, x) ∈ candidates site shard ↔ ∃ e, shard !! k = Some e ∧ x = te_lastActivity e.
Proof.
  rewrite candidates_perm, list_elem_of_fmap. split.
  - intros ([k' e] & [= -> ->] & Hin%elem_of_map_to_list). eauto.
  - intros (e & He & ->). exists (k, e). split; [done|]. by apply elem_of_map_to_list.
Qed.

Lemma aged_sorted site shard : StronglySorted (not_above aged_before) (candidates site shard).
Proof.
  apply sort_by_sorted; unfold aged_before, Before.
  - intros a b c H1 H2. apply Z.ltb_ge in H1, H2. apply Z.ltb_ge. lia.
  - intros a b H. apply Z.ltb_lt in H. apply Z.ltb_ge. lia.
Qed.

(** An eviction drops exactly the first of the candidates. *)
Lemma evict_lookup site shard k : maxShardKeys ≤ Z.of_nat (size shard) →
  evictIfSaturatedLocked site shard !! k =
    if decide (k ∈ (take (Z.to_nat (evict_count (Z.of_nat (size shard)))) (candidates site shard)).*1)
    then None else shard !! k.
Proof.
  intros Hs. unfold evictIfSaturatedLocked. rewrite (proj2 (Z.ltb_ge _ _) Hs).
  apply foldl_delete_lookup.
Qed.

Lemma evict_lookup_Some site shard k e :
  evictIfSaturatedLocked site shard !! k = Some e → shard !! k = Some e.
Proof.
  destruct (Z.ltb_spec (Z.of_nat (size shard)) maxShardKeys) as [H|H].
  - unfold evictIfSaturatedLocked. by rewrite (proj2 (Z.ltb_lt _ _) H).
  - rewrite evict_lookup by done. by case_decide.
Qed.

Lemma evict_count_bounds n : 1 ≤ n → 1 ≤ evict_count n ≤ n.
Proof.
  intros Hn. unfold evict_count, throttleEvictBatchRatio.
  pose proof (Z.quot_div_nonneg n 8 ltac:(lia) ltac:(lia)) as ->.
  pose proof (Z.div_mod n 8 ltac:(lia)). pose proof (Z.mod_pos_bound n 8 ltac:(lia)).
  destruct (Z.ltb_spec (n / 8) 1); lia.
Qed.

Lemma size_foldl_delete (l : list (string * Time)) (m : gmap string throttleEntry) :
  NoDup l.*1 → (∀ c, c ∈ l → is_Some (m !! c.1)) →
  size (foldl (λ m c, delete c.1 m) m l) = (size m - length l)%nat.
Proof.
  revert m. induction l as [|[k x] l IH]; intros m Hnd Hin; [simpl; lia|].
  cbn [foldl fst length]. rewrite fmap_cons in Hnd. cbn [fst] in Hnd.
  apply NoDup_cons in Hnd as [Hk Hnd]. rewrite IH; [|done|].
  - rewrite map_size_delete. destruct (Hin (k, x) (list_elem_of_here _ _)) as [e He]. cbn [fst] in He.
    rewrite He. lia.
  - intros c Hc. rewrite lookup_delete_ne; [by apply Hin; right|]. intros ->.
    apply Hk. by apply list_elem_of_fmap_2.
Qed.

(** After an eviction there is room for one more key. *)
Lemma size_evict site shard : Z.of_nat (size shard) ≤ maxShardKeys →
  Z.of_nat (size (evictIfSaturatedLocked site shard)) < maxShardKeys.
Proof.
  intros Hs. unfold evictIfSaturatedLocked. destruct (Z.ltb_spec (Z.of_nat (size shard)) maxShardKeys); [done|].
  assert (maxShardKeys = 1250) as Hmax by done.
  assert (Hc : 1 ≤ evict_count (Z.of_nat (size shard)) ≤ Z.of_nat (size shard)) by (apply evict_count_bounds; lia).
  assert (Hlen : length (candidates site shard) = size shard)
    by (by rewrite candidates_perm, length_fmap, length_map_to_list).
  rewrite size_foldl_delete.
  - rewrite length_take. lia.
  - rewrite fmap_take. eapply sublist_NoDup; [|apply sublist_take]. rewrite candidates_keys.
    apply NoDup_fst_map_to_list.
  - intros [k x] Hk%elem_of_take. destruct Hk as (i & Hi & _).
    apply list_elem_of_lookup_2, elem_of_candidates in Hi as (e & He & _). by exists e.
Qed.

Lemma evicts_someone site shard : maxShardKeys ≤ Z.of_nat (size shard) →
  ∃ k e, shard !! k = Some e ∧ evictIfSaturatedLocked site shard !! k = None.
Proof.
  intros Hs. assert (maxShardKeys = 1250) as Hmax by done.
  assert (Hc : 1 ≤ evict_count (Z.of_nat (size shard)) ≤ Z.of_nat (size shard)) by (apply evict_count_bounds; lia).
  assert (Hlen : length (candidates site shard) = size shard)
    by (by rewrite candidates_perm, length_fmap, length_map_to_list).
  destruct (candidates site shard) as [|[k x] l] eqn:E; [simpl in Hlen; lia|].
  assert (Hk : (k, x) ∈ candidates site shard) by (rewrite E; left).
  apply elem_of_candidates in Hk as (e & He & _). exists k, e. split; [done|].
  rewrite evict_lookup by done. rewrite decide_True; [done|]. rewrite E.
  destruct (Z.to_nat (evict_count (Z.of_nat (size shard)))) eqn:En; [lia|]. left.
Qed.

(** What is dropped was active no later than what is kept. *)
Lemma evict_least_recent site shard k e k' e' :
  shard !! k = Some e → evictIfSaturatedLocked site shard !! k = None →
  evictIfSaturatedLocked site shard !! k' = Some e' → te_lastActivity e ≤ te_lastActivity e'.
Proof.
  intros He Hn He'. pose proof (evict_lookup_Some _ _ _ _ He') as Hs'.
  destruct (Z.ltb_spec (Z.of_nat (size shard)) maxShardKeys) as [H|H].
  { unfold evictIfSaturatedLocked in Hn. rewrite (proj2 (Z.ltb_lt _ _) H) in Hn. congruence. }
  rewrite (evict_lookup site shard k) in Hn by done. rewrite (evict_lookup site shard k') in He' by done.
  set (n := Z.to_nat _) in *.
  destruct (decide (k ∈ _)) as [Hk|]; [|congruence]. destruct (decide (k' ∈ _)) as [|Hk']; [done|].
  apply list_elem_of_fmap in Hk as ([k1 x] & -> & Hx).
  assert (x = te_lastActivity e) as ->.
  { apply elem_of_take in Hx as (i & Hi & _).
    apply list_elem_of_lookup_2, elem_of_candidates in Hi as (e1 & He1 & ->). cbn [fst] in He. congruence. }
  assert (Hd : (k', te_lastActivity e') ∈ drop n (candidates site shard)).
  { assert (Hc : (k', te_lastActivity e') ∈ candidates site shard) by (apply elem_of_candidates; eauto).
    rewrite <- (take_drop n) in Hc. apply elem_of_app in Hc as [Hc|Hc]; [|done].
    exfalso. apply Hk'. apply list_elem_of_fmap. by exists (k', te_lastActivity e'). }
  pose proof (aged_sorted site shard) as Hsort. rewrite <- (take_drop n) in Hsort.
  apply list_elem_of_split in Hx as (l1 & l2 & E). rewrite E, <- app_assoc in Hsort.
  apply StronglySorted_split in Hsort as [_ Hlt]. specialize (Hlt _ (proj2 (elem_of_app _ _ _) (or_intror Hd))).
  unfold not_above, aged_before, Before in Hlt. cbn [snd] in Hlt. zbool. lia.
Qed.

(** *** The invariant of the table *)

Record table_ok (t : loginThrottle) : Prop := {
  tok_shards : length (lt_shards t) = 16%nat;
  tok_size : Forall (λ shard, Z.of_nat (size shard) ≤ maxShardKeys) (lt_shards t);
  tok_active : Forall (λ shard : gmap string throttleEntry, map_Forall (λ _ e, te_lastActivity e ≠ 0) shard) (lt_shards t)
}.

Lemma shardFor_lt bucket : (shardFor bucket < 16)%nat.
Proof.
  unfold shardFor, throttleShardCount. pose proof (Z.mod_pos_bound (fnv32a bucket) 16 ltac:(lia)). lia.
Qed.

Lemma shard_at_lookup t bucket : length (lt_shards t) = 16%nat →
  lt_shards t !! shardFor bucket = Some (shard_at t bucket).
Proof.
  intros H. unfold shard_at. destruct (lookup_lt_is_Some_2 (lt_shards t) (shardFor bucket)) as [s Hs].
  - rewrite H. apply shardFor_lt.
  - by rewrite Hs.
Qed.

Lemma shard_at_ok t bucket : table_ok t →
  Z.of_nat (size (shard_at t bucket)) ≤ maxShardKeys ∧
  map_Forall (λ _ e, te_lastActivity e ≠ 0) (shard_at t bucket).
Proof.
  intros [Hl Hs Ha]. pose proof (shard_at_lookup t bucket Hl) as H.
  by split; [apply (Forall_lookup_1 _ _ _ _ Hs H)|apply (Forall_lookup_1 _ _ _ _ Ha H)].
Qed.

Lemma set_shard_ok t bucket shard : table_ok t → Z.of_nat (size shard) ≤ maxShardKeys →
  map_Forall (λ _ e, te_lastActivity e ≠ 0) shard → table_ok (set_shard t bucket shard).
Proof.
  intros [Hl Hs Ha] H1 H2. split; cbn [set_shard lt_shards].
  - by rewrite length_insert.
  - by apply Forall_insert.
  - by apply Forall_insert.
Qed.

Lemma size_insert_le {V} (m : gmap string V) k v : (size (<[k := v]> m) ≤ S (size m))%nat.
Proof. rewrite map_size_insert. destruct (m !! k); [apply Nat.le_succ_diag_r|done]. Qed.

Lemma size_delete_le {V} (m : gmap string V) k : (size (delete k m) ≤ size m)%nat.
Proof. rewrite map_size_delete. destruct (m !! k); [apply Nat.le_pred_l|done]. Qed.

Lemma charge_entry_last p scope e now r e' : charge_entry p scope e now = Some (r, e') → te_lastActivity e' = now.
Proof.
  unfold charge_entry. cbv zeta. set (e1 := touch now _). destruct After; [by intros [= _ <-]|].
  unfold count_failure. destruct (addToWindow (te_short e1) _ _); cbn [mbind option_bind]; [|done].
  destruct addToWindow; cbn [mbind option_bind]; [|done]. destruct (_ && _); [by intros [= _ <-]|].
  destruct (_ <=? 0); by intros [= _ <-].
Qed.

Lemma recordFailureLocal_ok site t key now r t' : table_ok t → now ≠ 0 →
  recordFailureLocal site t key now = Some (r, t') → table_ok t'.
Proof.
  intros Ht Hn. destruct (shard_at_ok t (bucketID key) Ht) as [Hs Ha]. unfold recordFailureLocal.
  destruct (shard_at t (bucketID key) !! bucketID key) as [e|] eqn:E.
  - destruct (charge_entry _ _ e now) as [[d e']|] eqn:Ec; cbn [mbind option_bind]; [|done]. intros [= <- <-].
    apply set_shard_ok; [done| |].
    + rewrite map_size_insert, E. exact Hs.
    + apply map_Forall_insert_2; [|done]. by rewrite (charge_entry_last _ _ _ _ _ _ Ec).
  - destruct (charge_entry _ _ new_entry now) as [[d e']|] eqn:Ec; cbn [mbind option_bind]; [|done]. intros [= <- <-].
    pose proof (size_evict site _ Hs).
    apply set_shard_ok; [done| |].
    + pose proof (size_insert_le (evictIfSaturatedLocked site (shard_at t (bucketID key))) (bucketID key) e'). lia.
    + apply map_Forall_insert_2; [by rewrite (charge_entry_last _ _ _ _ _ _ Ec)|].
      intros k e Hk. apply (Ha k). by eapply evict_lookup_Some.
Qed.

Lemma recordSuccessLocal_ok t key : table_ok t → table_ok (recordSuccessLocal t key).
Proof.
  intros Ht. destruct (shard_at_ok t (bucketID key) Ht) as [Hs Ha]. apply set_shard_ok; [done| |].
  - pose proof (size_delete_le (shard_at t (bucketID key)) (bucketID key)). lia.
  - by apply map_Forall_delete.
Qed.

Lemma purgeStale_ok t now : table_ok t → table_ok (purgeStale t now).
Proof.
  intros [Hl Hs Ha]. split; cbn [purgeStale lt_shards]; [by rewrite length_fmap|apply Forall_fmap..].
  - eapply Forall_impl; [exact Hs|]. intros shard H. cbn [compose].
    etrans; [apply inj_le, map_subseteq_size, map_filter_subseteq|done].
  - eapply Forall_impl; [exact Ha|]. intros shard H. cbn [compose]. intros k e [Hk _]%map_lookup_filter_Some.
    by apply (H k).
Qed.

Lemma newLoginThrottle_ok p : table_ok (newLoginThrottle p).
Proof.
  split; cbn [newLoginThrottle setPolicies lt_shards]; [by rewrite length_replicate|apply Forall_replicate..].
  - by rewrite map_size_empty.
  - apply map_Forall_empty.
Qed.

(** What the handlers, the cleanup loop and a reload of the configuration do to the table. *)
Inductive throttle_step : loginThrottle → loginThrottle → Prop :=
| step_failure site t key now r t' : now ≠ 0 → recordFailureLocal site t key now = Some (r, t') → throttle_step t t'
| step_success t key : throttle_step t (recordSuccessLocal t key)
| step_purge t now : throttle_step t (purgeStale t now)
| step_policies t p : throttle_step t (setPolicies t p).

Lemma throttle_step_ok t t' : throttle_step t t' → table_ok t → table_ok t'.
Proof.
  destruct 1; eauto using recordFailureLocal_ok, recordSuccessLocal_ok, purgeStale_ok.
  intros [H1 H2 H3]. by split.
Qed.

(** C33: an attacker cannot exhaust the memory with made-up buckets: whatever sequence of failures,
    successes, cleanups and reloads there was, at most 20000 keys are tracked. *)
Theorem throttle_memory_bounded p t : rtc throttle_step (newLoginThrottle p) t → trackedKeys t ≤ maxTrackedKeys.
Proof.
  intros Hr. assert (Hok : table_ok t).
  { revert Hr. generalize (newLoginThrottle_ok p). generalize (newLoginThrottle p). intros t0 H0 Hr.
    induction Hr; [done|]. eauto using throttle_step_ok. }
  destruct Hok as [Hl Hs _]. unfold trackedKeys.
  assert (zsum (λ shard, Z.of_nat (size shard)) (lt_shards t) ≤ zsum (λ _, maxShardKeys) (lt_shards t)) as H.
  { apply zsum_le. intros shard Hin. by apply (proj1 (Forall_forall _ _) Hs). }
  rewrite zsum_const, Hl in H. exact H.
Qed.

(** *** One bucket of the table *)

Lemma shard_at_set t bucket bucket' shard : length (lt_shards t) = 16%nat →
  shard_at (set_shard t bucket shard) bucket' =
    if decide (shardFor bucket' = shardFor bucket) then shard else shard_at t bucket'.
Proof.
  intros Hl. unfold shard_at, set_shard. cbn [lt_shards]. pose proof (shardFor_lt bucket).
  case_decide as E.
  - rewrite E, list_lookup_insert_eq by lia. done.
  - by rewrite list_lookup_insert_ne.
Qed.

(** What a failure does to the entry of its bucket, and to the others. *)
Lemma recordFailureLocal_entry site t key now r t' : table_ok t →
  recordFailureLocal site t key now = Some (r, t') →
  ∃ e', charge_entry (policyFor (lt_policies t) key) (tk_Scope key) (default new_entry (entry_at t key)) now = Some (r, e') ∧
    entry_at t' key = Some e' ∧
    ∀ key', bucketID key' ≠ bucketID key → ∀ e, entry_at t' key' = Some e → entry_at t key' = Some e.
Proof.
  intros Ht. unfold recordFailureLocal, entry_at.
  destruct (shard_at t (bucketID key) !! bucketID key) as [e|] eqn:E; cbn [default from_option].
  all: destruct (charge_entry _ _ _ now) as [[d e']|] eqn:Ec; cbn [mbind option_bind]; [|done]; intros [= <- <-];
    exists e'; (split; [done|]); split; [rewrite shard_at_set by apply Ht; rewrite decide_True by done; apply lookup_insert_eq|];
    intros key' Hne x; rewrite shard_at_set by apply Ht; destruct (decide _) as [Es|]; [|done];
    rewrite lookup_insert_ne by done.
  - unfold shard_at. by rewrite Es.
  - intros Hx%evict_lookup_Some. revert Hx. unfold shard_at. by rewrite Es.
Qed.

(** With room in the shard the other buckets stay as they are. *)
Lemma recordFailureLocal_others site t key key' now r t' : table_ok t →
  Z.of_nat (size (shard_at t (bucketID key'))) < maxShardKeys → bucketID key' ≠ bucketID key →
  recordFailureLocal site t key now = Some (r, t') →
  entry_at t' key' = entry_at t key' ∧
  (size (shard_at t' (bucketID key')) ≤ S (size (shard_at t (bucketID key'))))%nat.
Proof.
  intros Ht Hroom Hne. unfold recordFailureLocal, entry_at.
  destruct (shard_at t (bucketID key) !! bucketID key) as [e|] eqn:E; cbn [default from_option].
  all: destruct (charge_entry _ _ _ now) as [[d e']|]; cbn [mbind option_bind]; [|done]; intros [= <- <-];
    rewrite shard_at_set by apply Ht; destruct (decide _) as [Es|]; [|split; [done|lia]];
    rewrite lookup_insert_ne by done;
    assert (Esh : shard_at t (bucketID key') = shard_at t (bucketID key)) by (unfold shard_at; by rewrite Es).
  - rewrite Esh. split; [done|]. apply size_insert_le.
  - assert (evictIfSaturatedLocked site (shard_at t (bucketID key)) = shard_at t (bucketID key)) as ->.
    { unfold evictIfSaturatedLocked. rewrite <- Esh. by rewrite (proj2 (Z.ltb_lt _ _) Hroom). }
    rewrite Esh. split; [done|]. apply size_insert_le.
Qed.

Lemma recordFailureLocal_policies site t key now r t' :
  recordFailureLocal site t key now = Some (r, t') → lt_policies t' = lt_policies t.
Proof.
  unfold recordFailureLocal. destruct (_ !! bucketID key);
    destruct charge_entry as [[??]|]; cbn [mbind option_bind]; by intros [= <- <-].
Qed.

Lemma recordSuccessLocal_others t key key' : table_ok t → bucketID key' ≠ bucketID key →
  entry_at (recordSuccessLocal t key) key' = entry_at t key'.
Proof.
  intros Ht Hne. unfold recordSuccessLocal, entry_at. rewrite shard_at_set by apply Ht.
  destruct (decide _) as [Es|]; [|done]. rewrite lookup_delete_ne by done. unfold shard_at. by rewrite Es.
Qed.

Lemma purge_entry t now key : table_ok t →
  entry_at (purgeStale t now) key =
    match entry_at t key with
    | Some e => if stale (idleRetention t) now e then None else Some e
    | None => None
    end.
Proof.
  intros Ht. unfold entry_at, shard_at at 1. cbn [purgeStale lt_shards].
  rewrite list_lookup_fmap, (shard_at_lookup t _ (tok_shards _ Ht)). cbn [fmap option_fmap option_map default from_option id].
  destruct (shard_at t (bucketID key) !! bucketID key) as [e|] eqn:E.
  - destruct (stale _ now e) eqn:Es.
    + apply map_lookup_filter_None. right. intros x Hx. cbn [snd]. congruence.
    + apply map_lookup_filter_Some. by split.
  - apply map_lookup_filter_None. by left.
Qed.

Lemma idleRetention_ge t scope p : lt_policies t !! scope = Some p → tp_ResetAfter p ≤ idleRetention t.
Proof.
  unfold idleRetention. set (f := λ _ _ _, _). revert scope p.
  apply (map_fold_weak_ind (λ r m, ∀ scope p, m !! scope = Some p → tp_ResetAfter p ≤ r)); [done|].
  intros s q m r Hs IH scope p. unfold f. destruct (decide (scope = s)) as [->|Hne].
  - rewrite lookup_insert_eq. intros [= ->]. destruct (Z.ltb_spec r (tp_ResetAfter p)); lia.
  - rewrite lookup_insert_ne by done. intros Hp. specialize (IH _ _ Hp).
    destruct (Z.ltb_spec r (tp_ResetAfter q)); lia.
Qed.

Lemma policyFor_reset ps key p : ps !! tk_Scope key = Some p → tp_ResetAfter (policyFor ps key) = tp_ResetAfter p.
Proof. intros H. unfold policyFor. rewrite H. by destruct (tk_Shared key). Qed.

Lemma clamp64_mono x y : x ≤ y → clamp64 x ≤ clamp64 y.
Proof. intros. rewrite !clamp64_spec. lia. Qed.

Lemma charge_stale p scope e retention now u : stale retention now e = true → now ≤ u →
  te_lastActivity e ≠ 0 → 0 < tp_ResetAfter p ≤ retention →
  charge_entry p scope e u = charge_entry p scope new_entry u.
Proof.
  intros Hs Hu Ha Hr. unfold stale in Hs. zbool. unfold charge_entry.
  assert (quiet p (te_lastActivity e) u = true) as ->.
  { unfold quiet, IsZero. rewrite (proj2 (Z.eqb_neq _ _) Ha), (proj2 (Z.ltb_lt _ _)) by lia. cbn [andb negb].
    apply Z.leb_le. unfold time_Sub in *. pose proof (clamp64_mono (now - te_lastActivity e) (u - te_lastActivity e) ltac:(lia)). lia. }
  by assert (quiet p (te_lastActivity new_entry) u = false) as -> by (unfold quiet; by rewrite andb_false_r).
Qed.

(** The cleanup loop is invisible: dropping the idle buckets at one time changes neither the
    standing of any key nor the decision on its next failure at any later time. *)
Lemma purge_invisible site t now u key p : table_ok t → now ≤ u →
  lt_policies t !! tk_Scope key = Some p → 0 < tp_ResetAfter p →
  evaluateLocal (purgeStale t now) key u = evaluateLocal t key u ∧
  (fst <$> recordFailureLocal site (purgeStale t now) key u) = (fst <$> recordFailureLocal site t key u).
Proof.
  intros Ht Hu Hp Hr.
  pose proof (purge_entry t now key Ht) as Hpe.
  assert (Hfst : ∀ t0, table_ok t0 → fst <$> recordFailureLocal site t0 key u =
    fst <$> charge_entry (policyFor (lt_policies t0) key) (tk_Scope key) (default new_entry (entry_at t0 key)) u).
  { intros t0 H0. unfold recordFailureLocal, entry_at. destruct (_ !! bucketID key); cbn [default from_option];
      by destruct charge_entry as [[??]|]. }
  rewrite !Hfst by auto using purgeStale_ok. unfold evaluateLocal. rewrite Hpe.
  destruct (entry_at t key) as [e|] eqn:Ee; [|done].
  assert (Ha : te_lastActivity e ≠ 0).
  { destruct (shard_at_ok t (bucketID key) Ht) as [_ Ha]. exact (Ha _ _ Ee). }
  destruct (stale (idleRetention t) now e) eqn:Es; [|done]. split.
  - assert (After (te_blockedUntil e) u = false) as ->; [|done].
    unfold stale, After in *. zbool. apply Z.ltb_ge. lia.
  - cbn [default from_option purgeStale lt_policies]. f_equal. symmetry.
    apply (charge_stale _ _ _ (idleRetention t) now); [done..|].
    rewrite (policyFor_reset _ _ _ Hp). split; [done|]. by eapply idleRetention_ge.
Qed.

(** A failure of a new key in a full shard lifts the block of the key that has been quiet the
    longest, which the cleanup would have kept: "an attacker could shed a long block simply by
    going quiet". *)
Lemma eviction_sheds_block site t victim e other now r t' : table_ok t →
  entry_at t victim = Some e → entry_at t other = None →
  shardFor (bucketID victim) = shardFor (bucketID other) →
  maxShardKeys ≤ Z.of_nat (size (shard_at t (bucketID other))) →
  (∀ k e', shard_at t (bucketID other) !! k = Some e' → k ≠ bucketID victim →
     te_lastActivity e < te_lastActivity e') →
  recordFailureLocal site t other now = Some (r, t') →
  evaluateLocal t' victim now = allowed (tk_Scope victim).
Proof.
  intros Ht Hv Ho Hsh Hfull Hleast.
  assert (Es : shard_at t (bucketID victim) = shard_at t (bucketID other)) by (unfold shard_at; by rewrite Hsh).
  unfold entry_at in Hv, Ho. rewrite Es in Hv. unfold recordFailureLocal. rewrite Ho.
  destruct charge_entry as [[d e']|]; cbn [mbind option_bind]; [|done]. intros [= <- <-].
  unfold evaluateLocal, entry_at. rewrite shard_at_set by apply Ht. rewrite decide_True by done.
  assert (bucketID other ≠ bucketID victim) by (intros E; rewrite E in Ho; congruence).
  rewrite lookup_insert_ne by done.
  set (shard := shard_at t (bucketID other)) in *.
  assert (evictIfSaturatedLocked site shard !! bucketID victim = None) as ->; [|done].
  destruct (evictIfSaturatedLocked site shard !! bucketID victim) as [x|] eqn:Ex; [exfalso|done].
  pose proof (evict_lookup_Some _ _ _ _ Ex) as Hx.
  destruct (evicts_someone site shard Hfull) as (k & y & Hy & Hn).
  pose proof (evict_least_recent _ _ _ _ _ _ Hy Hn Ex) as Hle.
  assert (k ≠ bucketID victim) as Hk by congruence. specialize (Hleast k y Hy Hk).
  rewrite Hv in Hx. injection Hx as <-. lia.
Qed.
End table.

(** One failure of one key. *)
Definition failed_once {RO : RangeOrder} : loginThrottle :=
  default (newLoginThrottle None) (snd <$> recordFailureLocal 0 (newLoginThrottle None)
    (MkKey scopeUserAccount "alice" false) (time_Unix 1700000000)).

Lemma failed_once_step :
  let RO := listing_order in throttle_step (newLoginThrottle None) failed_once.
Proof.
  cbv zeta. unfold failed_once. set (r := recordFailureLocal (RO := listing_order) _ _ _ _).
  destruct r as [[d t]|] eqn:E; [|revert E; vm_compute; discriminate].
  eapply (step_failure 0); [|exact E]. discriminate.
Qed.

Lemma throttle_memory_bounded_witness :
  let RO := listing_order in trackedKeys (purgeStale failed_once (time_Unix 1700000001)) ≤ maxTrackedKeys.
Proof.
  cbv zeta. apply (throttle_memory_bounded (RO := listing_order) None).
  eapply rtc_l; [apply failed_once_step|]. eapply rtc_l; [apply step_purge|]. constructor.
Defined.

(** A day later the bucket is dropped. *)
Lemma purge_invisible_witness :
  let RO := listing_order in
  let key := MkKey scopeUserAccount "alice" false in
  let t := failed_once in
  let now := time_Unix 1700200000 in
  entry_at t key ≠ None ∧ entry_at (purgeStale t now) key = None ∧
  evaluateLocal (purgeStale t now) key now = evaluateLocal t key now ∧
  (fst <$> recordFailureLocal 0 (purgeStale t now) key now) = (fst <$> recordFailureLocal 0 t key now).
Proof.
  cbv zeta. split; [vm_compute; discriminate|]. split; [vm_compute; reflexivity|].
  apply (purge_invisible (RO := listing_order) 0 failed_once _ _ _ (default_policy scopeUserAccount)).
  - eapply throttle_step_ok; [apply failed_once_step|apply newLoginThrottle_ok].
  - discriminate.
  - vm_compute. reflexivity.
  - vm_compute. reflexivity.
Defined.
