(* ===== verification/AutoBan.v ===== *)
(** * Counting failures for automatic bans

    Models the counters of [src/internal/ipaccess/autoban.go]: failures of a source in a
    sliding window, the bans it has had and the end of the current one, in a table of
    sources with eviction. The engine around them, with its policy, the rules it writes and
    the cluster, is in [Access].

    [counter_refines_log]: a counter is the log of failures since the last ban.
    [banned_never_evicted] holds of the table, a bound does not: [tracked_sources_grow]. *)
From S2P Require Import Prelude GoModel Strconv NetIP AccessRules ThrottlePolicy AccessPolicy FailureLog Throttle ThrottleTable.
From Stdlib Require Import Ascii.

Definition autoBanSlotCount : nat := 12.
Definition maxTrackedSources : Z := 20000.
Definition autoBanEvictRatio : Z := 8.

(** ** Networks of a ban *)

(** [ip.Mask(m).String() + "/64"]; [None] is a nil address. *)
Definition BanCIDR (ip : option IP) : string :=
  match ip with
  | None => ""
  | Some ip =>
      match To4 ip with
      | Some v4 => v4_String v4 +:+ "/32"
      | None => IP_String (Mask ip 64 128) +:+ "/64"
      end
  end.

(** The network that it names. *)
Definition ban_network (ip : IP) : IPNet :=
  match To4 ip with Some _ => MkNet ip 32 32 | None => MkNet (Mask ip 64 128) 128 64 end.

Lemma mask64_no_v4 ip : ip_ok ip → To4 (Mask ip 64 128) = None.
Proof.
  intros Hip. unfold Mask. change (128 =? 32) with false. cbv iota. rewrite land_mask by (unfold ip_ok in Hip; lia).
  change (128 - 64) with 64. unfold To4. destruct (Z.eqb_spec (ip / 2 ^ 64 * 2 ^ 64 / 2 ^ 32) v4_prefix) as [E|]; [|done]. exfalso.
  replace (ip / 2 ^ 64 * 2 ^ 64) with (ip / 2 ^ 64 * 2 ^ 32 * 2 ^ 32) in E by lia. rewrite Z.div_mul in E by done.
  unfold v4_prefix in E. lia.
Qed.

Lemma BanCIDR_network ip : ip_ok ip →
  BanCIDR (Some ip) = IPNet_String (ban_network ip) ∧ net_ok (ban_network ip) ∧ Contains_ip (ban_network ip) ip = true.
Proof.
  intros Hip. unfold BanCIDR, ban_network, IPNet_String, networkNumberAndMask, Contains_ip. destruct (To4 ip) as [a|] eqn:E; cbn [nt_IP nt_bits nt_ones].
  - rewrite E. split; [done|]. split; [|unfold networkNumberAndMask; cbn [nt_IP]; rewrite E; change (32 =? 32) with true; cbn [andb]; apply Z.eqb_refl].
    destruct (To4_range ip a Hip E) as [Ha Ei]. split; cbn [nt_IP nt_bits nt_ones]; [done|by rewrite E|done|].
    unfold Mask. change (32 =? 32) with true. cbv iota. rewrite E, Ei. f_equal. rewrite land_mask by lia.
    change (32 - 32) with 0. change (2 ^ 0) with 1. rewrite Z.div_1_r. lia.
  - pose proof (mask64_no_v4 ip Hip) as Hm. rewrite Hm. split; [unfold IP_String; by rewrite Hm|].
    assert (Hr : ip_ok (Mask ip 64 128)) by (apply (mask_range ip 64 128); [lia|exact Hip]).
    split.
    + split; cbn [nt_IP nt_bits nt_ones]; [done|by rewrite Hm|lia|]. unfold Mask. change (128 =? 32) with false. cbv iota. apply mask_idem.
    + unfold networkNumberAndMask. cbn [nt_IP nt_ones]. rewrite Hm. unfold Mask. change (128 =? 32) with false.
      change (128 =? 128) with true. cbv iota. cbn [andb]. rewrite mask_idem. apply Z.eqb_refl.
Qed.

(** ** One counter *)

(** [autoBanSlot] has the fields and the widths of a [windowSlot]. *)
Record autoBanCounter := MkCounter {
  ac_slots : list windowSlot; ac_banCount : Z; ac_bannedUntil : Time; ac_lastActivity : Time }.

(** [&autoBanCounter{}] *)
Definition new_counter : autoBanCounter := MkCounter (replicate autoBanSlotCount (MkSlot 0 0)) 0 0 0.

Definition slots_total (slots : list windowSlot) (index : Z) : Z :=
  let oldest := index - Z.of_nat autoBanSlotCount + 1 in
  zsum (λ s, if ((oldest <=? sl_index s) && (sl_index s <=? index)) then sl_count s else 0) slots.

(** What [chargeLocal] does to the counter; [None] is a panic. *)
Definition charge_counter (width : Duration) (now : Time) (c : autoBanCounter) : option (Z * Z * bool * autoBanCounter) :=
  let c := MkCounter (ac_slots c) (ac_banCount c) (ac_bannedUntil c) now in
  if After (ac_bannedUntil c) now then Some (0, ac_banCount c, true, c)
  else if width =? 0 then None
  else
    let index := Z.quot (UnixNano now) width in
    let i := Z.rem index (Z.of_nat autoBanSlotCount) in
    if i <? 0 then None
    else
      s ← ac_slots c !! Z.to_nat i;
      let slots := <[Z.to_nat i := bump index s]> (ac_slots c) in
      Some (slots_total slots index, ac_banCount c, false, MkCounter slots (ac_banCount c) (ac_bannedUntil c) now).

Definition mark_counter (until now : Time) (c : autoBanCounter) : autoBanCounter :=
  MkCounter ((λ _, MkSlot 0 0) <$> ac_slots c) (wrap64 (ac_banCount c + 1)) until now.

(** ** The table *)

Definition slot_width (policy : AutoBanPolicy) : Duration := Z.quot (ban_Window policy) (Z.of_nat autoBanSlotCount).

Section table.
Context {RO : RangeOrder}.

(** The sources that are not banned, the least recently seen first. The loop reads the clock for
    every key. *)
Definition aged_sources (site : nat) (clock : string → Time) (counters : gmap string autoBanCounter) : list (string * Time) :=
  sort_by (λ a b, Before a.2 b.2)
    (omap (λ kc, if After (ac_bannedUntil kc.2) (clock kc.1) then None else Some (kc.1, ac_lastActivity kc.2))
       (range_order site counters)).

Definition evictIfSaturated (site : nat) (clock : string → Time) (counters : gmap string autoBanCounter) : gmap string autoBanCounter :=
  if Z.of_nat (size counters) <? maxTrackedSources then counters
  else
    let candidates := aged_sources site clock counters in
    let evict := Z.quot (Z.of_nat (length candidates)) autoBanEvictRatio in
    let evict := if evict <? 1 then 1 else evict in
    foldl (λ m c, delete c.1 m) counters (take (Z.to_nat evict) candidates).

Definition chargeLocal (site : nat) (clock : string → Time) (cidr : string) (policy : AutoBanPolicy) (now : Time)
    (counters : gmap string autoBanCounter) : option (Z * Z * bool * gmap string autoBanCounter) :=
  if ban_Window policy <=? 0 then Some (0, 0, false, counters)
  else
    let '(counters, counter) :=
      match counters !! cidr with
      | None => (evictIfSaturated site clock counters, new_counter)
      | Some counter => (counters, counter)
      end in
    '(failures, bans, banned, counter) ← charge_counter (slot_width policy) now counter;
    Some (failures, bans, banned, <[cidr := counter]> counters).

Definition markBannedLocal (cidr : string) (until now : Time) (counters : gmap string autoBanCounter) : gmap string autoBanCounter :=
  <[cidr := mark_counter until now (default new_counter (counters !! cidr))]> counters.

End table.

(** ** The log of a source *)

(** The failures since the last ban, the number of bans, and the end of the last one. *)
Record ban_log := MkBanLog { bl_failures : list Z; bl_bans : Z; bl_until : option Z }.

Definition no_bans : ban_log := MkBanLog [] 0 None.

Definition log_banned (l : ban_log) (now : Z) : bool := match bl_until l with Some until => now <? until | None => false end.

Definition log_charge (w : Window) (l : ban_log) (now : Z) : Z * Z * bool * ban_log :=
  if log_banned l now then (0, bl_bans l, true, l)
  else let failures := now :: bl_failures l in
       (window_count w now failures, bl_bans l, false, MkBanLog failures (bl_bans l) (bl_until l)).

Definition log_mark (l : ban_log) (until : Z) : ban_log := MkBanLog [] (bl_bans l + 1) (Some until).

Definition log_width (policy : AutoBanPolicy) : Window := MkFW 1 (slot_width policy) (Z.of_nat autoBanSlotCount).

(** ** A counter is a log *)

Section counter.
Context (width : Duration).
Let w := MkFW 1 width (Z.of_nat autoBanSlotCount).

Record counter_ok (c : autoBanCounter) (l : ban_log) (now : Z) : Prop := {
  ck_slots : length (ac_slots c) = autoBanSlotCount;
  ck_ring : ring_ok (ac_slots c) ((λ t, t / width) <$> bl_failures l);
  ck_bans : ac_banCount c = bl_bans l;
  ck_until : match bl_until l with Some until => ticks (ac_bannedUntil c) = until | None => ac_bannedUntil c = 0 end;
  ck_past : past (bl_failures l) now
}.

Lemma new_counter_ok now : counter_ok new_counter no_bans now.
Proof. split; [done|apply ring_new|done..|by intros t ?%elem_of_nil]. Qed.

Lemma After_log c l now u : counter_ok c l u → modern now →
  After (ac_bannedUntil c) now = log_banned l (ticks now).
Proof.
  intros [_ _ _ Hu _] Hm. unfold log_banned, After. destruct (bl_until l) as [until|].
  - unfold ticks in *. apply eq_iff_eq_true. rewrite !Z.ltb_lt. lia.
  - rewrite Hu. apply Z.ltb_ge. unfold modern, ticks, time_Unix, two63 in Hm. lia.
Qed.

(** One failure. *)
Lemma charge_counter_log c l u now : counter_ok c l u → modern now → u ≤ ticks now → 0 < width →
  Z.of_nat (length (bl_failures l)) < two31 - 1 →
  ∃ c', charge_counter width now c = Some ((log_charge w l (ticks now)).1, c') ∧
    counter_ok c' (log_charge w l (ticks now)).2 (ticks now).
Proof.
  intros Hc Hm Hu Hw Hlen. pose proof (After_log c l now u Hc Hm) as Ha. destruct Hc as [Hl Hr Hb Hun Hp].
  assert (Hp' : past (bl_failures l) (ticks now)) by (intros t Ht; specialize (Hp t Ht); lia).
  unfold charge_counter, log_charge. cbn [ac_bannedUntil ac_slots ac_banCount ac_lastActivity]. rewrite Ha.
  destruct (log_banned l (ticks now)) eqn:Eb.
  { eexists. split; [cbn [fst]; by rewrite Hb|]. by split. }
  rewrite (proj2 (Z.eqb_neq width 0)) by lia. rewrite UnixNano_modern by done.
  pose proof (proj1 Hm) as Ht0. rewrite Z.quot_div_nonneg by lia.
  assert (Hk : 0 ≤ ticks now / width) by (apply Z.div_pos; lia).
  rewrite Z.rem_mod_nonneg by (done || lia). cbv zeta.
  pose proof (Z.mod_pos_bound (ticks now / width) (Z.of_nat autoBanSlotCount) ltac:(done)) as Hi.
  rewrite (proj2 (Z.ltb_ge _ 0)) by lia.
  destruct (lookup_lt_is_Some_2 (ac_slots c) (Z.to_nat (ticks now / width mod Z.of_nat autoBanSlotCount))) as [s Hs];
    [rewrite Hl; lia|]. rewrite Hs. cbn [mbind option_bind].
  assert (Hring : ring_ok (<[Z.to_nat (ticks now / width mod Z.of_nat autoBanSlotCount) := bump (ticks now / width) s]> (ac_slots c))
    ((λ t, t / width) <$> ticks now :: bl_failures l)).
  { rewrite fmap_cons. apply ring_bump; [done..|rewrite Hl; lia| |done|by rewrite length_fmap].
    intros k (t & -> & Ht)%list_elem_of_fmap. apply Z.div_le_mono; [done|]. by apply Hp'. }
  eexists. split.
  - cbn [fst]. rewrite Hb. do 4 f_equal.
    unfold slots_total, window_count, enabled, w. cbn [fw_limit fw_width fw_slots]. rewrite (proj2 (Z.ltb_lt 0 width)) by done. cbn [andb].
    change (0 <? 1) with true. cbn [andb].
    set (slots := <[_ := _]> (ac_slots c)) in *.
    assert (Hls : length slots = autoBanSlotCount) by (by unfold slots; rewrite length_insert).
    pose proof (ring_count slots _ (ticks now / width) Hring) as E. rewrite Hls, zsum_fmap in E. apply E.
    + intros Es. by rewrite Es in Hls.
    + intros k (t & -> & Ht)%list_elem_of_fmap. apply elem_of_cons in Ht as [->|Ht]; [lia|].
      specialize (Hp' t Ht). split; [apply Z.div_pos; lia|apply Z.div_le_mono; lia].
  - split; cbn [ac_slots ac_banCount ac_bannedUntil bl_failures bl_bans bl_until snd]; [by rewrite length_insert|done..|].
    intros t [->|Ht]%elem_of_cons; [lia|by apply Hp'].
Qed.

Lemma reset_slots (slots : list windowSlot) : (λ _, MkSlot 0 0) <$> slots = replicate (length slots) (MkSlot 0 0).
Proof. induction slots as [|s slots IH]; [done|]. cbn [fmap list_fmap length replicate]. by f_equal. Qed.

(** One ban. *)
Lemma mark_counter_log c l u until now : counter_ok c l u → 0 ≤ bl_bans l < two63 - 1 →
  counter_ok (mark_counter until now c) (log_mark l (ticks until)) u.
Proof.
  intros [Hl Hr Hb Hun Hp] Hn. split; cbn [mark_counter log_mark ac_slots ac_banCount ac_bannedUntil bl_failures bl_bans bl_until].
  - by rewrite length_fmap.
  - rewrite reset_slots. apply ring_new.
  - rewrite Hb. apply wrap64_id. unfold in_int64, two63 in *. lia.
  - done.
  - by intros t ?%elem_of_nil.
Qed.

Lemma counter_ok_later c l u now : counter_ok c l u → u ≤ now → counter_ok c l now.
Proof. intros [H1 H2 H3 H4 H5] Hu. split; [done..|]. intros t Ht. specialize (H5 t Ht). lia. Qed.
End counter.

(** ** The table *)

Section sources.
Context {RO : RangeOrder}.

Lemma aged_sources_spec site clock counters k x : (k, x) ∈ aged_sources site clock counters →
  ∃ c, counters !! k = Some c ∧ After (ac_bannedUntil c) (clock k) = false.
Proof.
  unfold aged_sources. rewrite elem_of_sort_by, list_elem_of_omap. intros ([k' c] & Hin%elem_of_range & H).
  cbn [fst snd] in H. destruct (After (ac_bannedUntil c) (clock k')) eqn:E; [done|]. injection H as <- <-. eauto.
Qed.

Lemma delete_sources (l : list (string * Time)) (m : gmap string autoBanCounter) k :
  foldl (λ m c, delete c.1 m) m l !! k = if decide (k ∈ l.*1) then None else m !! k.
Proof.
  revert m. induction l as [|[k' x] l IH]; intros m; [done|]. cbn [foldl fst]. rewrite IH, fmap_cons. cbn [fst].
  destruct (decide (k ∈ l.*1)) as [H|H], (decide (k ∈ k' :: l.*1)) as [Hin|Hn]; try done.
  - exfalso. apply Hn. by right.
  - apply elem_of_cons in Hin as [->|]; [|done]. apply lookup_delete_eq.
  - apply lookup_delete_ne. intros ->. apply Hn. left.
Qed.

Lemma evict_some site clock counters k c : evictIfSaturated site clock counters !! k = Some c → counters !! k = Some c.
Proof. unfold evictIfSaturated. destruct (_ <? _); [done|]. cbv zeta. rewrite delete_sources. by case_decide. Qed.

(** However full the table is, a source is not forgotten while it is banned. *)
Lemma banned_never_evicted site clock counters k c :
  counters !! k = Some c → After (ac_bannedUntil c) (clock k) = true →
  evictIfSaturated site clock counters !! k = Some c.
Proof.
  intros Hk Hb. unfold evictIfSaturated. destruct (_ <? _); [done|]. cbv zeta. rewrite delete_sources.
  rewrite decide_False; [done|]. intros ([k' x] & -> & Hin)%list_elem_of_fmap.
  apply elem_of_take in Hin as (i & Hi & _). apply list_elem_of_lookup_2 in Hi.
  apply aged_sources_spec in Hi as (c' & Hc & Hb'). cbn [fst] in *. congruence.
Qed.

Lemma evict_roomy site clock counters : Z.of_nat (size counters) < maxTrackedSources →
  evictIfSaturated site clock counters = counters.
Proof. intros H. unfold evictIfSaturated. by rewrite (proj2 (Z.ltb_lt _ _) H). Qed.

(** What happens to the table, in order. *)
Inductive ban_op := Charge (cidr : string) (now : Time) | Mark (cidr : string) (until now : Time).

Definition op_source (o : ban_op) : string := match o with Charge cidr _ => cidr | Mark cidr _ _ => cidr end.
Definition op_time (o : ban_op) : Time := match o with Charge _ now => now | Mark _ _ now => now end.

Context (site : nat) (clock : string → Time) (policy : AutoBanPolicy).

(** The answers to the charges. *)
Fixpoint table_run (ops : list ban_op) (counters : gmap string autoBanCounter) : option (list (string * (Z * Z * bool))) :=
  match ops with
  | [] => Some []
  | Charge cidr now :: ops =>
      '(answer, counters) ← chargeLocal site clock cidr policy now counters;
      answers ← table_run ops counters; Some ((cidr, answer) :: answers)
  | Mark cidr until now :: ops => table_run ops (markBannedLocal cidr until now counters)
  end.

Fixpoint source_run (ops : list ban_op) (l : ban_log) : list (Z * Z * bool) :=
  match ops with
  | [] => []
  | Charge _ now :: ops => let '(answer, l) := log_charge (log_width policy) l (ticks now) in answer :: source_run ops l
  | Mark _ until _ :: ops => source_run ops (log_mark l (ticks until))
  end.

Fixpoint in_order (u : Z) (ops : list ban_op) : Prop :=
  match ops with
  | [] => True
  | o :: ops => modern (op_time o) ∧ u ≤ ticks (op_time o) ∧ in_order (ticks (op_time o)) ops
  end.

Definition of_source (k : string) (o : ban_op) : bool := String.eqb (op_source o) k.

Definition answers_of (k : string) (answers : list (string * (Z * Z * bool))) : list (Z * Z * bool) :=
  omap (λ a, if String.eqb a.1 k then Some a.2 else None) answers.

Definition tracks (counters : gmap string autoBanCounter) (k : string) (l : ban_log) (u : Z) : Prop :=
  match counters !! k with Some c => counter_ok (slot_width policy) c l u | None => l = no_bans end.

Lemma tracks_counter counters k l u : tracks counters k l u → counter_ok (slot_width policy) (default new_counter (counters !! k)) l u.
Proof. unfold tracks. destruct (counters !! k); [done|]. intros ->. apply new_counter_ok. Qed.

(** Every counter belongs to some log; the others stay as they are. *)
Definition all_track (counters : gmap string autoBanCounter) (logs : string → ban_log) (u : Z) : Prop :=
  ∀ k, tracks counters k (logs k) u.

Definition budget (n : nat) (l : ban_log) : Prop :=
  Z.of_nat (length (bl_failures l) + n) < two31 - 1 ∧ 0 ≤ bl_bans l ∧ bl_bans l + Z.of_nat n < two63 - 1.

Lemma budget_le n n' l : budget n l → (n' ≤ n)%nat → budget n' l.
Proof. unfold budget. lia. Qed.

Lemma all_track_insert counters logs u k c l v : all_track counters logs u → u ≤ v → counter_ok (slot_width policy) c l v →
  all_track (<[k := c]> counters) (λ k', if decide (k' = k) then l else logs k') v.
Proof.
  intros Ht Hu Hc k'. unfold tracks. case_decide as E.
  - subst k'. by rewrite lookup_insert_eq.
  - rewrite lookup_insert_ne by done. specialize (Ht k'). unfold tracks in Ht.
    destruct (counters !! k'); [by eapply counter_ok_later|done].
Qed.

Lemma of_source_filter_cons k o ops :
  filter (λ o, of_source k o = true) (o :: ops) =
    if decide (op_source o = k) then o :: filter (λ o, of_source k o = true) ops else filter (λ o, of_source k o = true) ops.
Proof.
  rewrite filter_cons. unfold of_source. destruct (String.eqb_spec (op_source o) k); repeat case_decide; naive_solver.
Qed.

Lemma table_run_log (S : gset string) ops : 0 < slot_width policy → 0 < ban_Window policy →
  Z.of_nat (size S) < maxTrackedSources → Forall (λ o, op_source o ∈ S) ops →
  ∀ counters logs u, all_track counters logs u → (∀ k, budget (length ops) (logs k)) → dom counters ⊆ S → in_order u ops →
  ∃ answers, table_run ops counters = Some answers ∧
    ∀ k, answers_of k answers = source_run (filter (λ o, of_source k o = true) ops) (logs k).
Proof.
  intros Hw Hwin HS Hops. induction Hops as [|o ops Ho Hops IH]; intros counters logs u Ht Hb Hd Hord.
  { exists []. by split. }
  destruct Hord as (Hm & Hu & Hord).
  assert (Hstep : ∀ k c l, counter_ok (slot_width policy) c l (ticks (op_time o)) → k = op_source o → budget (length ops) l →
    ∃ answers, table_run ops (<[k := c]> counters) = Some answers ∧ ∀ k', answers_of k' answers =
      source_run (filter (λ o, of_source k' o = true) ops) (if decide (k' = k) then l else logs k')).
  { intros k c l Hc -> Hbl. apply (IH _ (λ k', if decide (k' = op_source o) then l else logs k') (ticks (op_time o))).
    - by eapply all_track_insert.
    - intros k'. case_decide; [done|]. eapply budget_le; [apply Hb|]. simpl. lia.
    - rewrite dom_insert. set_solver.
    - done. }
  pose proof (Hb (op_source o)) as Hbo. unfold budget in Hbo. cbn [length] in Hbo.
  destruct o as [cidr now|cidr until now]; cbn [op_source op_time] in *.
  - cbn [table_run]. unfold chargeLocal. rewrite (proj2 (Z.leb_gt _ 0) Hwin).
    assert (Hroom : Z.of_nat (size counters) < maxTrackedSources).
    { rewrite <- size_dom. pose proof (subseteq_size _ _ Hd). lia. }
    destruct (charge_counter_log _ _ _ u now (tracks_counter _ _ _ _ (Ht cidr)) Hm Hu Hw ltac:(lia)) as (c' & Ec & Hc').
    assert (Em : (match counters !! cidr with None => (evictIfSaturated site clock counters, new_counter) | Some counter => (counters, counter) end) =
      (counters, default new_counter (counters !! cidr))) by (destruct (counters !! cidr); [done|by rewrite evict_roomy]).
    rewrite Em. cbv iota beta. rewrite Ec. unfold log_width.
    destruct (log_charge (MkFW 1 (slot_width policy) (Z.of_nat autoBanSlotCount)) (logs cidr) (ticks now)) as [answer l'] eqn:El.
    cbn [fst snd] in Hc' |- *. destruct answer as [[failures bans] banned]. cbn [mbind option_bind].
    destruct (Hstep cidr c' l' Hc' eq_refl) as (answers & Ea & Hans).
    { unfold log_charge in El. unfold budget. destruct (log_banned _ _); injection El as <- <- <- <-; cbn [bl_failures bl_bans length]; lia. }
    rewrite Ea. cbn [mbind option_bind]. eexists. split; [done|]. intros k. rewrite of_source_filter_cons. cbn [op_source].
    unfold answers_of. cbn [omap list_omap fst snd]. specialize (Hans k). unfold answers_of in Hans. rewrite Hans.
    destruct (String.eqb_spec cidr k) as [<-|Hne]; [|by rewrite !decide_False by congruence].
    rewrite !decide_True by done. cbn [source_run]. unfold log_width. by rewrite El.
  - cbn [table_run]. unfold markBannedLocal.
    destruct (Hstep cidr (mark_counter until now (default new_counter (counters !! cidr))) (log_mark (logs cidr) (ticks until)))
      as (answers & Ea & Hans).
    + eapply counter_ok_later; [|exact Hu]. apply mark_counter_log; [by apply tracks_counter|lia].
    + done.
    + unfold budget, log_mark. cbn [bl_failures bl_bans length]. lia.
    + rewrite Ea. eexists. split; [done|]. intros k. rewrite Hans, of_source_filter_cons. cbn [op_source].
      destruct (decide (k = cidr)) as [->|Hne]; [by rewrite decide_True by done|by rewrite decide_False by congruence].
Qed.
End sources.

(** C19: a node counts the failures of every source as a log would: whatever charges and bans of other
    sources come in between, each charge is told the exact number of failures of its source in the
    window since its last ban, how many bans it has had, and whether one is in force; and nothing
    panics. The table is assumed not to be full. *)
Theorem source_refines_log `{RangeOrder} site clock policy ops :
  0 < ab_WindowSeconds policy → ab_WindowSeconds policy * Second < two63 →
  Z.of_nat (size (list_to_set (op_source <$> ops) : gset string)) < maxTrackedSources →
  Z.of_nat (length ops) < two31 - 1 → in_order 0 ops →
  ∃ answers, table_run site clock policy ops ∅ = Some answers ∧
    ∀ k, answers_of k answers = source_run policy (filter (λ o, of_source k o = true) ops) no_bans.
Proof.
  intros Hw Hmax Hsize Hlen Hord.
  assert (Ew : ban_Window policy = ab_WindowSeconds policy * Second)
    by (apply wrap64_id; unfold in_int64, two63, Second in *; lia).
  assert (Hs : 0 < slot_width policy).
  { unfold slot_width. rewrite Ew. unfold Second in *. rewrite Z.quot_div_nonneg by (done || lia).
    apply Z.div_str_pos. change (Z.of_nat autoBanSlotCount) with 12. lia. }
  apply (table_run_log site clock policy (list_to_set (op_source <$> ops)) ops Hs) with (counters := ∅) (logs := λ _, no_bans) (u := 0); try done.
  - rewrite Ew. unfold Second. lia.
  - apply Forall_forall. intros o Ho. apply elem_of_list_to_set. by apply list_elem_of_fmap_2.
  - intros k. unfold budget. cbn. unfold two31, two63 in *. lia.
Qed.

Lemma source_refines_log_witness : ∃ answers,
  table_run (RO := listing_order) 0 (λ _, 0) (MkAutoBan AutoBanEnforce 600 2 60 60)
    [Charge "a" (time_Unix 1000); Charge "b" (time_Unix 1001); Charge "a" (time_Unix 1002);
     Mark "a" (time_Unix 4602) (time_Unix 1002); Charge "a" (time_Unix 1003)] ∅ = Some answers ∧
  answers_of "a" answers = [(1, 0, false); (2, 0, false); (0, 1, true)].
Proof.
  destruct (source_refines_log (H := listing_order) 0 (λ _, 0) (MkAutoBan AutoBanEnforce 600 2 60 60)
    [Charge "a" (time_Unix 1000); Charge "b" (time_Unix 1001); Charge "a" (time_Unix 1002);
     Mark "a" (time_Unix 4602) (time_Unix 1002); Charge "a" (time_Unix 1003)]) as (answers & E & Ha);
    [vm_compute; reflexivity..|vm_compute; repeat split; discriminate|].
  exists answers. split; [exact E|]. rewrite Ha. vm_compute. reflexivity.
Defined.

(** Once every tracked source is banned the eviction finds nothing to drop: a further source is added
    whatever the size of the table, and its ban leads back to the same state. *)
Lemma tracked_sources_grow `{RangeOrder} site clock policy cidr until now counters r :
  map_Forall (λ k c, After (ac_bannedUntil c) (clock k) = true) counters → counters !! cidr = None →
  0 < ban_Window policy → After until (clock cidr) = true →
  chargeLocal site clock cidr policy now counters = Some r →
  let counters' := markBannedLocal cidr until now r.2 in
  size counters' = S (size counters) ∧ map_Forall (λ k c, After (ac_bannedUntil c) (clock k) = true) counters'.
Proof.
  intros Hall Hn Hw Hu. unfold chargeLocal. rewrite (proj2 (Z.leb_gt _ 0) Hw), Hn.
  assert (evictIfSaturated site clock counters = counters) as ->.
  { apply map_eq. intros k. destruct (counters !! k) as [c|] eqn:E; [by eapply banned_never_evicted; [|apply (Hall k c)]|].
    apply eq_None_not_Some. intros [c Hc]. apply evict_some in Hc. congruence. }
  destruct (charge_counter _ now new_counter) as [[[[f b] x] c]|]; cbn [mbind option_bind]; [|done].
  intros [= <-]. cbn [snd]. unfold markBannedLocal. rewrite insert_insert_eq, lookup_insert_eq.
  split; [by rewrite map_size_insert_None|]. by apply map_Forall_insert_2.
Qed.
