(* ===== verification/ThrottleShared.v ===== *)
(** * The buckets that the nodes of a cluster share

    Models [src/internal/cluster/sharedstate/throttle.go], the script that counts the
    failures of all nodes in one hash per bucket, and the calls of it.

    Times in the script are milliseconds. Lua numbers are exact here: times, counts and
    intervals are far below 2{^53}, where [math.floor(now / width)] is the integer
    quotient and numbers print as decimal integers. The script runs at the instant it is
    given: every node and Redis read one clock. Only this script writes its keys, and it
    writes numbers; on anything else the model is the error [None].

    [script_refines_log] shows that the hash is the log of failures of [FailureLog],
    expiry included. *)
From S2P Require Import Prelude GoModel Strconv Redis SharedState ThrottlePolicy FailureLog Throttle.
From Stdlib Require Import Ascii.

(** ** The script *)

(** An element of [windows]. *)
Record LuaWindow := MkLW { lw_prefix : string; lw_limit : Z; lw_width : Z; lw_slots : Z }.

Definition lua_current (w : LuaWindow) (now : Z) : Z := now / lw_width w.
Definition lua_oldest (w : LuaWindow) (now : Z) : Z := lua_current w now - lw_slots w + 1.

Definition lua_off (w : LuaWindow) : bool := (lw_limit w <=? 0) || (lw_width w <=? 0).

(** [tonumber(string.sub(field, 3))] of a field with the prefix; Lua's [tonumber] reads the
    decimal integers that the script writes as [Atoi] does. *)
Definition field_index (prefix field : string) : option Z :=
  if String.eqb (String.substring 0 2 field) prefix
  then Atoi (String.substring 2 (String.length field - 2) field) else None.

Definition field_of (prefix : string) (index : Z) : string := prefix +:+ Itoa index.

(** [count], the number: the order of [pairs] does not matter to a sum. *)
Definition lua_count (w : LuaWindow) (now : Z) (fields : gmap string Z) : Z :=
  if lua_off w then 0
  else map_fold (λ field value total,
         match field_index (lw_prefix w) field with
         | Some index => if (lua_oldest w now <=? index) && (index <=? lua_current w now) then total + value else total
         | None => total
         end) 0 fields.

(** The fields that [count] keeps in a charge. *)
Definition kept (w : LuaWindow) (now : Z) (field : string) : bool :=
  lua_off w ||
  match field_index (lw_prefix w) field with Some index => lua_oldest w now <=? index | None => true end.

Definition lua_prune (w : LuaWindow) (now : Z) (fields : gmap string Z) : gmap string Z :=
  filter (λ kv, kept w now kv.1 = true) fields.

(** The body of the loop that counts the failure. *)
Definition lua_add (w : LuaWindow) (now : Z) (fields : gmap string Z) : gmap string Z :=
  if lua_off w then fields
  else let field := field_of (lw_prefix w) (lua_current w now) in
       <[field := default 0 (fields !! field) + 1]> fields.

Definition as_number (v : RVal) : option Z := match v with RInt z => Some z | RStr _ => None end.

Definition counters (o : RObj) : option (gmap string Z) :=
  match as_hash o with
  | None => None
  | Some m =>
      let numbers : gmap string Z := omap as_number m in
      if bool_decide (size numbers = size m) then Some numbers else None
  end.

Definition hash_of (m : gmap string Z) : RObj := RHash (RInt <$> m).

(** The arguments of the script. *)
Record ThrottleArgs := MkArgs {
  ar_short : LuaWindow; ar_long : LuaWindow; ar_resetAfter : Z; ar_retention : Z; ar_ladder : list Z }.

Definition lua_tripped (w : LuaWindow) (count : Z) : bool := (0 <? lw_limit w) && (lw_limit w <=? count).

Definition num_field (fields : gmap string Z) (f : string) : Z := default 0 (fields !! f).

(** The rung of the ladder: Lua's arrays start at 1. *)
Definition lua_rung (ladder : list Z) (generation : Z) : Z :=
  let n := Z.of_nat (length ladder) in
  let rung := generation + 1 in
  nth (Z.to_nat ((if n <? rung then n else rung) - 1)) ladder 0.

Definition prune_both (a : ThrottleArgs) (now : Z) (fields : gmap string Z) : gmap string Z :=
  lua_prune (ar_long a) now (lua_prune (ar_short a) now fields).

(** A charge after the reset: the reply, the hash and the argument of [keep]. *)
Definition charge_hash (a : ThrottleArgs) (now : Z) (fields : gmap string Z) : Reply * gmap string Z * Z :=
  let blockedUntil := num_field fields "bu" in
  let generation := num_field fields "g" in
  let fields := <["la" := now]> fields in
  if now <? blockedUntil then
    (MkReply true (blockedUntil - now) generation (lua_count (ar_short a) now fields)
       (lua_count (ar_long a) now fields) false, prune_both a now fields, blockedUntil - now)
  else
    let fields := lua_add (ar_long a) now (lua_add (ar_short a) now fields) in
    let shortCount := lua_count (ar_short a) now fields in
    let longCount := lua_count (ar_long a) now fields in
    let fields := prune_both a now fields in
    let plain := MkReply false 0 generation shortCount longCount false in
    if (! (lua_tripped (ar_short a) shortCount || lua_tripped (ar_long a) longCount)
        || (Z.of_nat (length (ar_ladder a)) <? 1)) then (plain, fields, 0)
    else
      let wait := lua_rung (ar_ladder a) generation in
      if wait <=? 0 then (plain, fields, 0)
      else
        let generation := generation + 1 in
        (MkReply true wait generation shortCount longCount true,
         <["g" := generation]> (<["bu" := now + wait]> fields), wait).

Section script.
Context {K : Keyspace}.

(** The mode "peek". *)
Definition peekScript (db : DB) (key : string) (now : Z) (a : ThrottleArgs) : option Reply :=
  fields ← counters (db_read db now key);
  let blockedUntil := num_field fields "bu" in
  if now <? blockedUntil
  then Some (MkReply true (blockedUntil - now) (num_field fields "g") (lua_count (ar_short a) now fields)
               (lua_count (ar_long a) now fields) false)
  else Some (MkReply false 0 0 0 0 false).

(** [keep], after the hash is what it will be. *)
Definition keep (db : DB) (key : string) (now : Z) (a : ThrottleArgs) (fields : gmap string Z) (extra : Z) : DB :=
  write_expire db now key (hash_of fields) (if ar_retention a <? extra then extra else ar_retention a).

(** The mode "charge". *)
Definition chargeScript (db : DB) (key : string) (now : Z) (a : ThrottleArgs) : option Reply * DB :=
  match counters (db_read db now key) with
  | None => (None, db)
  | Some fields =>
      let lastActivity := num_field fields "la" in
      let reset := (0 <? ar_resetAfter a) && (0 <? lastActivity) && (ar_resetAfter a <=? now - lastActivity) in
      let db := if reset then db_write db now key RNone else db in
      let '(r, fields, extra) := charge_hash a now (if reset then ∅ else fields) in
      (Some r, keep db key now a fields extra)
  end.

(** [deleteKeyScript] *)
Definition clearScript (db : DB) (key : string) (now : Z) : DB := db_write db now key RNone.

End script.

(** ** The store *)

(** [sharedstate.ThrottleWindow], [ThrottleSpec] and [ThrottleState]. *)
Record SharedWindow := MkSharedWindow { hw_Limit : Z; hw_Window : Duration; hw_Slots : Z }.

Record ThrottleSpec := MkSpec {
  ts_Short : SharedWindow; ts_Long : SharedWindow; ts_Backoff : list Duration;
  ts_ResetAfter : Duration; ts_Retention : Duration }.

Record ThrottleState := MkState {
  st_Blocked : bool; st_RetryAfter : Duration; st_Generation : Z; st_ShortCount : Z;
  st_LongCount : Z; st_NewlyArmed : bool }.

Definition slotWidth (w : SharedWindow) : Duration :=
  if ((hw_Limit w <=? 0) || (hw_Window w <=? 0) || (hw_Slots w <=? 0)) then 0
  else
    let width := Z.quot (hw_Window w) (hw_Slots w) in
    if width <? Millisecond then Millisecond else width.

Definition lua_window (prefix : string) (w : SharedWindow) : LuaWindow :=
  MkLW prefix (hw_Limit w) (milliseconds (slotWidth w)) (hw_Slots w).

(** The arguments that [Store.throttle] passes. *)
Definition script_args (spec : ThrottleSpec) : ThrottleArgs :=
  MkArgs (lua_window "s:" (ts_Short spec)) (lua_window "l:" (ts_Long spec))
    (milliseconds (ts_ResetAfter spec)) (milliseconds (ts_Retention spec)) (milliseconds <$> ts_Backoff spec).

(** The six numbers as a [ThrottleState]. *)
Definition decode_state (r : Reply) : ThrottleState :=
  MkState (rp_blocked r) (wrap64 (rp_retry r * Millisecond)) (rp_generation r) (rp_short r) (rp_long r) (rp_armed r).

Section store.
Context {K : Keyspace} {D : Digest}.

Definition bucket_key (bucket : string) : string := KeyPrefix +:+ "throttle:" +:+ HashPart [bucket].

(** [None] is an error, of which an unavailable store is one. *)
Definition ThrottleCharge (available : bool) (db : DB) (bucket : string) (spec : ThrottleSpec) (now : Time)
    : option ThrottleState * DB :=
  if ! available then (None, db)
  else let '(r, db) := chargeScript db (bucket_key bucket) (unix_milli now) (script_args spec) in
       (decode_state <$> r, db).

Definition ThrottlePeek (available : bool) (db : DB) (bucket : string) (spec : ThrottleSpec) (now : Time)
    : option ThrottleState :=
  if ! available then None
  else decode_state <$> peekScript db (bucket_key bucket) (unix_milli now) (script_args spec).

Definition ThrottleClear (available : bool) (db : DB) (bucket : string) (now : Time) : DB :=
  if ! available then db else clearScript db (bucket_key bucket) (unix_milli now).

End store.

(** ** A hash is a log *)

Lemma counters_hash m : counters (hash_of m) = Some m.
Proof.
  unfold counters, hash_of, as_hash. cbv zeta.
  assert (omap as_number (RInt <$> m : gmap string RVal) = m) as ->.
  { apply map_eq. intros k. rewrite lookup_omap, lookup_fmap. by destruct (m !! k). }
  by rewrite bool_decide_true by (by rewrite map_size_fmap).
Qed.

Lemma field_index_other prefix field : String.substring 0 2 field ≠ prefix → field_index prefix field = None.
Proof. intros H. unfold field_index. by rewrite (proj2 (String.eqb_neq _ _) H). Qed.

Lemma field_of_prefix prefix index : String.length prefix = 2%nat → String.substring 0 2 (field_of prefix index) = prefix.
Proof.
  unfold field_of. destruct prefix as [|c [|d [|]]]; try done. intros _. simpl. by destruct (Itoa index).
Qed.

Lemma substring_all s : String.substring 0 (String.length s) s = s.
Proof. induction s as [|c s IH]; [done|]. simpl. by rewrite IH. Qed.

Lemma field_index_of prefix index : String.length prefix = 2%nat → in_int64 index →
  field_index prefix (field_of prefix index) = Some index.
Proof.
  intros Hp Hi. unfold field_index. rewrite field_of_prefix, String.eqb_refl by done.
  unfold field_of. destruct prefix as [|c [|d [|]]]; try done.
  change (String c (String d "") +:+ Itoa index) with (String c (String d (Itoa index))).
  cbn [String.length String.substring]. replace (S (S (String.length (Itoa index))) - 2)%nat
    with (String.length (Itoa index)) by lia. rewrite substring_all. by apply Atoi_Itoa.
Qed.

Lemma field_of_inj prefix i j : String.length prefix = 2%nat → in_int64 i → in_int64 j →
  field_of prefix i = field_of prefix j → i = j.
Proof.
  intros Hp Hi Hj E. apply (f_equal (field_index prefix)) in E. rewrite !field_index_of in E by done. congruence.
Qed.

(** *** Counting *)

Lemma map_fold_sum (h : string → Z → Z) (m : gmap string Z) (body : string → Z → Z → Z) :
  (∀ k v r, body k v r = r + h k v) → map_fold body 0 m = zsum (λ kv, h kv.1 kv.2) (map_to_list m).
Proof.
  intros Hb. apply (map_fold_weak_ind (λ r m, r = zsum (λ kv, h kv.1 kv.2) (map_to_list m))).
  - by rewrite map_to_list_empty.
  - intros k v m' r Hk ->. rewrite Hb, (zsum_perm _ _ _ (map_to_list_insert _ _ _ Hk)), zsum_cons. cbn [fst snd]. lia.
Qed.

(** A sum over fields that hold the counts of their intervals is a sum over the failures. *)
Lemma zsum_fields (L : list (string * Z)) (H : string * Z → Z) (P : Z → bool) (field : Z → string) fs :
  NoDup L.*1 →
  (∀ kv, kv ∈ L → H kv = zsum (λ t, if P t && String.eqb kv.1 (field t) then 1 else 0) fs) →
  (∀ t, t ∈ fs → P t = true → field t ∈ L.*1) →
  zsum H L = zsum (λ t, if P t then 1 else 0) fs.
Proof.
  intros Hnd HH. rewrite (zsum_ext _ _ _ HH). clear HH. induction fs as [|t fs IH]; intros Hin.
  { by apply zsum_zero. }
  rewrite (zsum_ext _ (λ kv, (if P t && String.eqb kv.1 (field t) then 1 else 0) +
    zsum (λ t, if P t && String.eqb kv.1 (field t) then 1 else 0) fs)) by (intros; by rewrite zsum_cons).
  rewrite zsum_add, zsum_cons, IH by (intros; apply Hin; [by right|done]). f_equal.
  destruct (P t) eqn:Et; cbn [andb]; [|rewrite zsum_const; lia].
  rewrite <- (zsum_fmap fst (λ k, if String.eqb k (field t) then 1 else 0)).
  rewrite (zsum_ext _ (λ k, if decide (k = field t) then 1 else 0)).
  - apply zsum_indicator; [done|]. apply Hin; [left|done].
  - intros k _. destruct (String.eqb_spec k (field t)); by case_decide.
Qed.

Definition log_lua (w : LuaWindow) : Window := MkFW (lw_limit w) (lw_width w) (lw_slots w).

Definition occurrences (w : LuaWindow) (index : Z) (failures : list Z) : Z :=
  zsum (λ t, if t / lw_width w =? index then 1 else 0) failures.

(** The fields of a window hold the counts of its intervals, and from [lo] on all of them. *)
Record window_fields (w : LuaWindow) (m : gmap string Z) (failures : list Z) (lo : Z) : Prop := {
  wf_sound : ∀ f v, m !! f = Some v → String.substring 0 2 f = lw_prefix w →
    ∃ i, f = field_of (lw_prefix w) i ∧ in_int64 i ∧ v = occurrences w i failures;
  wf_complete : ∀ t, t ∈ failures → lo ≤ t / lw_width w → is_Some (m !! field_of (lw_prefix w) (t / lw_width w))
}.

Lemma lua_off_enabled w : lua_off w = ! enabled (log_lua w).
Proof.
  unfold lua_off, enabled. cbn [log_lua fw_limit fw_width].
  destruct (Z.leb_spec (lw_limit w) 0), (Z.ltb_spec 0 (lw_limit w)), (Z.leb_spec (lw_width w) 0),
    (Z.ltb_spec 0 (lw_width w)); done || lia.
Qed.

(** Instants whose intervals are integers of 64 bits. *)
Definition within (failures : list Z) (now : Z) : Prop := past failures now ∧ 0 < now < two63.

Lemma index_range w t now failures : enabled (log_lua w) = true → within failures now → t ∈ now :: failures →
  in_int64 (t / lw_width w) ∧ t / lw_width w ≤ now / lw_width w.
Proof.
  intros He [Hp Hn] Ht. unfold enabled in He. cbn [log_lua fw_limit fw_width] in He. zbool.
  assert (0 < t ≤ now) as [Ht0 Ht1] by (apply elem_of_cons in Ht as [->|Ht]; [lia|by apply Hp]).
  split; [|by apply Z.div_le_mono].
  pose proof (Z.div_pos t (lw_width w) ltac:(lia) ltac:(lia)).
  pose proof (Z.div_le_upper_bound t (lw_width w) t ltac:(lia) ltac:(nia)).
  unfold in_int64, two63 in *. lia.
Qed.

Lemma lua_count_log w m failures lo now : String.length (lw_prefix w) = 2%nat →
  window_fields w m failures lo → lo ≤ lua_oldest w now → within failures now →
  lua_count w now m = window_count (log_lua w) now failures.
Proof.
  intros Hpre [Hs Hc] Hlo Hw. unfold lua_count, window_count. rewrite lua_off_enabled.
  destruct (enabled (log_lua w)) eqn:He; cbn [negb]; [|done].
  rewrite (map_fold_sum (λ f v, match field_index (lw_prefix w) f with
    | Some i => if (lua_oldest w now <=? i) && (i <=? lua_current w now) then v else 0 | None => 0 end)).
  2: { intros k v r. destruct (field_index _ k); [|lia]. destruct (_ && _); lia. }
  apply (zsum_fields _ _ _ (λ t, field_of (lw_prefix w) (t / lw_width w))).
  - apply NoDup_fst_map_to_list.
  - intros [f v] Hf%elem_of_map_to_list. cbn [fst snd].
    destruct (decide (String.substring 0 2 f = lw_prefix w)) as [Hpf|Hpf].
    + destruct (Hs f v Hf Hpf) as (i & -> & Hi & ->). rewrite field_index_of by done.
      unfold occurrences, in_window. cbn [log_lua fw_width fw_slots]. unfold lua_oldest, lua_current.
      assert (Hd : ∀ t, t ∈ failures →
        String.eqb (field_of (lw_prefix w) i) (field_of (lw_prefix w) (t / lw_width w)) = (t / lw_width w =? i)).
      { intros t Ht. destruct (index_range w t now failures He Hw (list_elem_of_further _ _ _ Ht)) as [Hti _].
        destruct (Z.eqb_spec (t / lw_width w) i) as [->|E]; [apply String.eqb_refl|].
        apply String.eqb_neq. intros Ef. apply E. symmetry. by eapply field_of_inj. }
      destruct (_ && _) eqn:Ein; [apply zsum_ext|symmetry; apply zsum_zero]; intros t Ht; rewrite (Hd t Ht);
        destruct (Z.eqb_spec (t / lw_width w) i) as [->|]; rewrite ?Ein, ?andb_false_r; done.
    + rewrite field_index_other by done. symmetry. apply zsum_zero. intros t _.
      rewrite (proj2 (String.eqb_neq _ _)), andb_false_r; [done|]. intros ->. apply Hpf.
      by apply field_of_prefix.
  - intros t Ht Hin. unfold in_window in Hin. cbn [log_lua fw_width fw_slots] in Hin. zbool.
    destruct (Hc t Ht) as [v Hv]; [unfold lua_oldest, lua_current in Hlo; lia|].
    apply list_elem_of_fmap. exists (field_of (lw_prefix w) (t / lw_width w), v). split; [done|].
    by apply elem_of_map_to_list.
Qed.

(** *** The operations on the hash *)

Definition window_ok (w : LuaWindow) (m : gmap string Z) (failures : list Z) (now : Z) : Prop :=
  enabled (log_lua w) = true → window_fields w m failures (lua_oldest w now).

Lemma lua_oldest_mono w u now : enabled (log_lua w) = true → u ≤ now → lua_oldest w u ≤ lua_oldest w now.
Proof.
  intros He Hu. unfold enabled in He. cbn [log_lua fw_limit fw_width] in He. zbool.
  unfold lua_oldest, lua_current. pose proof (Z.div_le_mono u now (lw_width w) ltac:(lia) Hu). lia.
Qed.

Lemma window_ok_later w m failures u now : window_ok w m failures u → u ≤ now → window_ok w m failures now.
Proof.
  intros H Hu He. destruct (H He) as [Hs Hc]. split; [done|]. intros t Ht Hlo. apply Hc; [done|].
  pose proof (lua_oldest_mono w u now He Hu). lia.
Qed.

Lemma window_ok_empty w now : window_ok w ∅ [] now.
Proof. intros _. split; [intros ? ?; by rewrite lookup_empty|by intros ? ?%elem_of_nil]. Qed.

Lemma window_ok_insert w m failures now f v : String.length (lw_prefix w) = 2%nat →
  String.substring 0 2 f ≠ lw_prefix w → window_ok w m failures now → window_ok w (<[f := v]> m) failures now.
Proof.
  intros Hpre Hf H He. destruct (H He) as [Hs Hc]. split.
  - intros g x Hg Hpg. apply (Hs g x); [|done]. rewrite lookup_insert_ne in Hg; [done|]. congruence.
  - intros t Ht Hlo. rewrite lookup_insert_ne; [by apply Hc|]. intros ->. by rewrite field_of_prefix in Hf.
Qed.

(** A deletion of fields that keeps those of the window from [lo] on. *)
Lemma window_ok_filter w m failures now (keepf : string → bool) :
  (∀ i, in_int64 i → lua_oldest w now ≤ i → keepf (field_of (lw_prefix w) i) = true) →
  within failures now → window_ok w m failures now →
  window_ok w (filter (λ kv, keepf kv.1 = true) m) failures now.
Proof.
  intros Hk Hw H He. destruct (H He) as [Hs Hc]. split.
  - intros f v [Hf _]%map_lookup_filter_Some. by apply Hs.
  - intros t Ht Hlo. destruct (Hc t Ht Hlo) as [v Hv]. exists v. apply map_lookup_filter_Some. split; [done|].
    cbn [fst]. apply Hk; [|done]. by apply (index_range w t now failures He Hw (list_elem_of_further _ _ _ Ht)).
Qed.

Lemma window_ok_prune w w' m failures now : String.length (lw_prefix w) = 2%nat →
  (lw_prefix w' = lw_prefix w → w' = w) →
  within failures now → window_ok w m failures now → window_ok w (lua_prune w' now m) failures now.
Proof.
  intros Hpre Hww Hw H. apply (window_ok_filter w m failures now (kept w' now)); [|done|done].
  intros i Hi Hlo. unfold kept. destruct (decide (lw_prefix w' = lw_prefix w)) as [E|E].
  - rewrite (Hww E), field_index_of by done. rewrite (proj2 (Z.leb_le _ _) Hlo). apply orb_true_r.
  - rewrite field_index_other by (rewrite field_of_prefix by done; congruence). apply orb_true_r.
Qed.

Lemma window_ok_add w m failures now : String.length (lw_prefix w) = 2%nat → 0 < lw_slots w →
  within failures now → window_ok w m failures now → window_ok w (lua_add w now m) (now :: failures) now.
Proof.
  intros Hpre Hsl Hw H He. destruct (H He) as [Hs Hc]. unfold lua_add. rewrite lua_off_enabled, He. cbn [negb].
  destruct (index_range w now now failures He Hw (list_elem_of_here _ _)) as [Hi _]. fold (lua_current w now) in Hi.
  split.
  - intros f v. destruct (decide (f = field_of (lw_prefix w) (lua_current w now))) as [->|Hne].
    + rewrite lookup_insert_eq. intros [= <-] _. exists (lua_current w now). split; [done|]. split; [done|].
      unfold occurrences. rewrite zsum_cons. fold (lua_current w now). rewrite Z.eqb_refl.
      fold (occurrences w (lua_current w now) failures).
      destruct (m !! field_of (lw_prefix w) (lua_current w now)) as [x|] eqn:Ex; cbn [default from_option id].
      * destruct (Hs _ _ Ex (field_of_prefix _ _ Hpre)) as (i & Hfi & Hii & ->).
        apply field_of_inj in Hfi as <-; [lia|done..].
      * unfold occurrences. rewrite zsum_zero; [done|]. intros t Ht.
        destruct (Z.eqb_spec (t / lw_width w) (lua_current w now)) as [E|]; [exfalso|done].
        destruct (Hc t Ht) as [x Hx]; [unfold lua_oldest; lia|]. rewrite E in Hx. congruence.
    + rewrite lookup_insert_ne by done. intros Hf Hpf. destruct (Hs f v Hf Hpf) as (i & -> & Hii & ->).
      exists i. split; [done|]. split; [done|]. unfold occurrences. rewrite zsum_cons. fold (lua_current w now).
      destruct (Z.eqb_spec (lua_current w now) i) as [E|]; [by destruct Hne; rewrite E|lia].
  - intros t Ht Hlo. apply elem_of_cons in Ht as [->|Ht]; [by rewrite lookup_insert_eq|].
    destruct (decide (field_of (lw_prefix w) (t / lw_width w) = field_of (lw_prefix w) (lua_current w now))) as [->|Hne];
      [by rewrite lookup_insert_eq|]. rewrite lookup_insert_ne by done. by apply Hc.
Qed.

Lemma window_ok_add_other w w' m failures now : String.length (lw_prefix w) = 2%nat → String.length (lw_prefix w') = 2%nat →
  lw_prefix w' ≠ lw_prefix w → window_ok w m failures now → window_ok w (lua_add w' now m) failures now.
Proof.
  intros Hpre Hpre' Hne H. unfold lua_add. destruct (lua_off w'); [done|].
  apply window_ok_insert; [done| |done]. by rewrite field_of_prefix.
Qed.

(** *** The script is a failure of the log *)

Record args_ok (a : ThrottleArgs) : Prop := {
  ao_short : lw_prefix (ar_short a) = "s:"; ao_long : lw_prefix (ar_long a) = "l:";
  ao_slots : 0 < lw_slots (ar_short a) ∧ 0 < lw_slots (ar_long a)
}.

Definition log_args (a : ThrottleArgs) : Policy :=
  MkFP (log_lua (ar_short a)) (log_lua (ar_long a)) (ar_ladder a) (ar_resetAfter a).

Record hash_log (a : ThrottleArgs) (m : gmap string Z) (l : log) (now : Z) : Prop := {
  hl_short : window_ok (ar_short a) m (lg_failures l) now;
  hl_long : window_ok (ar_long a) m (lg_failures l) now;
  hl_until : num_field m "bu" = default 0 (lg_until l);
  hl_generation : num_field m "g" = lg_generation l;
  hl_last : num_field m "la" = default 0 (lg_last l)
}.

Lemma hash_log_empty a now : hash_log a ∅ empty_log now.
Proof. split; try done; apply window_ok_empty. Qed.

Lemma hash_log_later a m l u now : hash_log a m l u → u ≤ now → hash_log a m l now.
Proof. intros [H1 H2 H3 H4 H5] Hu. split; try done; by eapply window_ok_later. Qed.

Lemma num_field_insert m f v : num_field (<[f := v]> m) f = v.
Proof. unfold num_field. by rewrite lookup_insert_eq. Qed.

Lemma num_field_insert_ne m f g v : f ≠ g → num_field (<[f := v]> m) g = num_field m g.
Proof. intros. unfold num_field. by rewrite lookup_insert_ne. Qed.

Section hash.
Context (a : ThrottleArgs) (Ha : args_ok a).

(** A field of neither window: "la", "bu" or "g". *)
Definition own_field (f : string) : Prop :=
  String.substring 0 2 f ≠ "s:" ∧ String.substring 0 2 f ≠ "l:".

Lemma short_prefix : String.length (lw_prefix (ar_short a)) = 2%nat.
Proof. by rewrite (ao_short _ Ha). Qed.

Lemma long_prefix : String.length (lw_prefix (ar_long a)) = 2%nat.
Proof. by rewrite (ao_long _ Ha). Qed.

Lemma prefixes_ne : lw_prefix (ar_short a) ≠ lw_prefix (ar_long a).
Proof. by rewrite (ao_short _ Ha), (ao_long _ Ha). Qed.

Lemma windows_insert m f v failures now : own_field f →
  window_ok (ar_short a) m failures now ∧ window_ok (ar_long a) m failures now →
  window_ok (ar_short a) (<[f := v]> m) failures now ∧ window_ok (ar_long a) (<[f := v]> m) failures now.
Proof.
  intros [H1 H2] [Hs Hl]. split; apply window_ok_insert; try done.
  - apply short_prefix.
  - by rewrite (ao_short _ Ha).
  - apply long_prefix.
  - by rewrite (ao_long _ Ha).
Qed.

Lemma prune_windows m failures now : within failures now →
  window_ok (ar_short a) m failures now ∧ window_ok (ar_long a) m failures now →
  window_ok (ar_short a) (prune_both a now m) failures now ∧ window_ok (ar_long a) (prune_both a now m) failures now.
Proof.
  intros Hw [Hs Hl]. pose proof prefixes_ne. pose proof short_prefix. pose proof long_prefix.
  unfold prune_both. split; repeat apply window_ok_prune; done.
Qed.

Lemma prune_own m now f : own_field f → num_field (prune_both a now m) f = num_field m f.
Proof.
  intros [H1 H2]. unfold num_field, prune_both, lua_prune. f_equal.
  assert (Hk : ∀ w, lw_prefix w = "s:" ∨ lw_prefix w = "l:" → kept w now f = true).
  { intros w Hp. unfold kept. rewrite field_index_other; [by rewrite orb_true_r|]. by destruct Hp as [-> | ->]. }
  destruct (m !! f) eqn:Ef.
  - apply map_lookup_filter_Some. split; [apply map_lookup_filter_Some; split; [done|]|];
      apply Hk; [left|right]; apply Ha.
  - apply map_lookup_filter_None. left. apply map_lookup_filter_None. by left.
Qed.

Lemma add_windows m failures now : within failures now →
  window_ok (ar_short a) m failures now ∧ window_ok (ar_long a) m failures now →
  let m' := lua_add (ar_long a) now (lua_add (ar_short a) now m) in
  window_ok (ar_short a) m' (now :: failures) now ∧ window_ok (ar_long a) m' (now :: failures) now.
Proof.
  intros Hw [Hs Hl] m'. unfold m'. pose proof prefixes_ne. destruct (ao_slots _ Ha). split.
  - apply window_ok_add_other; [apply short_prefix|apply long_prefix|done|].
    by apply window_ok_add; [apply short_prefix| | |].
  - apply window_ok_add; [apply long_prefix|done|done|].
    by apply window_ok_add_other; [apply long_prefix|apply short_prefix| |].
Qed.

Lemma add_own w m now f : own_field f → lw_prefix w = "s:" ∨ lw_prefix w = "l:" →
  num_field (lua_add w now m) f = num_field m f.
Proof.
  intros [H1 H2] Hp. unfold lua_add. destruct (lua_off w); [done|]. apply num_field_insert_ne. intros <-.
  rewrite field_of_prefix in H1, H2 by (by destruct Hp as [-> | ->]). by destruct Hp.
Qed.

Lemma own_la : own_field "la". Proof. done. Qed.
Lemma own_bu : own_field "bu". Proof. done. Qed.
Lemma own_g : own_field "g". Proof. done. Qed.

Lemma counts_log m failures l now : within failures now → lg_failures l = failures →
  window_ok (ar_short a) m failures now ∧ window_ok (ar_long a) m failures now →
  (lua_count (ar_short a) now m, lua_count (ar_long a) now m) = counts_now (log_args a) l now.
Proof.
  intros Hw <- [Hs Hl]. unfold counts_now. cbn [log_args fp_short fp_long].
  assert (Hone : ∀ w, String.length (lw_prefix w) = 2%nat → window_ok w m (lg_failures l) now →
    lua_count w now m = window_count (log_lua w) now (lg_failures l)).
  { intros w Hpre Hok. destruct (enabled (log_lua w)) eqn:He.
    - eapply lua_count_log; [done|by apply Hok|done|done].
    - unfold lua_count, window_count. by rewrite lua_off_enabled, He. }
  by rewrite (Hone _ short_prefix Hs), (Hone _ long_prefix Hl).
Qed.

Lemma lua_rung_rung g : 0 ≤ g → 0 < Z.of_nat (length (ar_ladder a)) → lua_rung (ar_ladder a) g = rung (ar_ladder a) g.
Proof.
  intros Hg Hn. unfold lua_rung, rung. f_equal.
  destruct (Z.ltb_spec (Z.of_nat (length (ar_ladder a))) (g + 1)); lia.
Qed.
Lemma blocked_fields m l now : num_field m "bu" = default 0 (lg_until l) → 0 < now →
  (now <? num_field m "bu") = is_blocked l now.
Proof.
  intros -> Hn. unfold is_blocked. destruct (lg_until l); cbn [default from_option id]; [done|].
  apply Z.ltb_ge. lia.
Qed.

(** What a charge makes of the hash of a log; [arrived] is the log with the new activity. *)
Definition charged_hash (m : gmap string Z) (arrived : log) (now : Z) : Prop :=
  let out := if is_blocked arrived now then (blocked_reply (log_args a) arrived now, arrived)
             else count (log_args a) arrived now in
  ∃ m' extra, charge_hash a now m = (out.1, m', extra) ∧ hash_log a m' out.2 now ∧
    ∀ until, lg_until out.2 = Some until → until ≤ now + Z.max 0 extra.

Lemma blocked_hash m l now : hash_log a m l now → within (lg_failures l) now →
  is_blocked l now = true →
  charged_hash m (MkLog (lg_failures l) (lg_until l) (lg_generation l) (Some now)) now.
Proof.
  intros [H1 H2 H3 H4 H5] Hw Hb. unfold charged_hash. cbv zeta.
  set (l2 := MkLog _ _ _ _). assert (is_blocked l2 now = true) as -> by exact Hb.
  destruct (windows_insert m "la" now (lg_failures l) now own_la (conj H1 H2)) as [W1 W2].
  destruct (prune_windows _ _ _ Hw (conj W1 W2)) as [P1 P2].
  unfold charge_hash. rewrite (blocked_fields m l now H3 (proj1 (proj2 Hw))), Hb.
  do 2 eexists. split; [|split].
  - unfold blocked_reply. cbn [fst].
    rewrite <- (counts_log (<["la" := now]> m) _ l2 now Hw eq_refl (conj W1 W2)). cbn [fst snd].
    rewrite H3, H4. reflexivity.
  - split; cbn [snd l2 lg_failures lg_until lg_generation lg_last]; try done;
      rewrite prune_own by (apply own_bu || apply own_g || apply own_la);
      rewrite ?num_field_insert, ?num_field_insert_ne by done; done.
  - cbn [snd l2 lg_until]. intros x E. rewrite E. cbn [default from_option id]. lia.
Qed.

Lemma tripped_lua w c : lua_tripped w c = tripped (log_lua w) c.
Proof. done. Qed.

(** The hash once the failure is counted and the old intervals are dropped. *)
Definition added (m : gmap string Z) (now : Z) : gmap string Z :=
  lua_add (ar_long a) now (lua_add (ar_short a) now (<["la" := now]> m)).

Lemma added_hash m l now : hash_log a m l now → within (lg_failures l) now →
  let l2 := MkLog (now :: lg_failures l) (lg_until l) (lg_generation l) (Some now) in
  hash_log a (prune_both a now (added m now)) l2 now ∧
  (lua_count (ar_short a) now (added m now), lua_count (ar_long a) now (added m now)) =
    counts_now (log_args a) l2 now.
Proof.
  intros [H1 H2 H3 H4 H5] Hw l2.
  destruct (windows_insert m "la" now (lg_failures l) now own_la (conj H1 H2)) as [W1 W2].
  destruct (add_windows _ _ _ Hw (conj W1 W2)) as [A1 A2].
  assert (Hw' : within (now :: lg_failures l) now).
  { destruct Hw as [Hp Hn]. split; [|done]. intros t [->|Ht]%elem_of_cons; [lia|by apply Hp]. }
  destruct (prune_windows _ _ _ Hw' (conj A1 A2)) as [P1 P2].
  assert (Hown : ∀ f, own_field f → num_field (prune_both a now (added m now)) f = num_field (<["la" := now]> m) f).
  { intros f Hf. unfold added. rewrite prune_own, !add_own; auto; [left|right]; apply Ha. }
  split; [|by apply (counts_log _ (now :: lg_failures l))].
  split; cbn [lg_failures lg_until lg_generation lg_last l2]; try done;
    rewrite Hown by (apply own_bu || apply own_g || apply own_la);
    rewrite ?num_field_insert, ?num_field_insert_ne by done; done.
Qed.

(** The block of a failure that trips a window. *)
Lemma armed_hash m l now wait : hash_log a m l now →
  hash_log a (<["g" := lg_generation l + 1]> (<["bu" := now + wait]> m))
    (MkLog (lg_failures l) (Some (now + wait)) (lg_generation l + 1) (lg_last l)) now.
Proof.
  intros [H1 H2 H3 H4 H5].
  destruct (windows_insert _ "bu" (now + wait) _ _ own_bu (conj H1 H2)) as [C1 C2].
  destruct (windows_insert _ "g" (lg_generation l + 1) _ _ own_g (conj C1 C2)) as [D1 D2].
  split; cbn [lg_failures lg_until lg_generation lg_last]; try done;
    rewrite ?num_field_insert, ?num_field_insert_ne by done;
    rewrite ?num_field_insert, ?num_field_insert_ne by done; done.
Qed.

Lemma counted_hash m l now : hash_log a m l now → within (lg_failures l) now → 0 ≤ lg_generation l →
  is_blocked l now = false →
  charged_hash m (MkLog (lg_failures l) (lg_until l) (lg_generation l) (Some now)) now.
Proof.
  intros Hm Hw Hg Hb. unfold charged_hash. cbv zeta. set (l2 := MkLog _ _ _ _).
  assert (is_blocked l2 now = false) as -> by exact Hb.
  pose proof (blocked_fields m l now (hl_until _ _ _ _ Hm) (proj1 (proj2 Hw))) as Hbu. rewrite Hb in Hbu.
  assert (Hfree : ∀ x, lg_until l = Some x → x ≤ now + Z.max 0 0).
  { intros x Hx. unfold is_blocked in Hb. rewrite Hx in Hb. zbool. lia. }
  destruct (added_hash m l now Hm Hw) as [Hbase Hcounts].
  unfold charge_hash, count. rewrite Hbu. cbv zeta. fold (added m now).
  change (lg_failures l2) with (lg_failures l). change (lg_until l2) with (lg_until l).
  change (lg_generation l2) with (lg_generation l). change (lg_last l2) with (Some now).
  rewrite <- Hcounts, !tripped_lua, (hl_generation _ _ _ _ Hm).
  cbn [log_args fp_short fp_long fp_ladder lg_failures lg_until lg_generation lg_last].
  assert (Hplain : ∀ short long, ∃ m' extra,
    (MkReply false 0 (lg_generation l) short long false, prune_both a now (added m now), 0) =
      (MkReply false 0 (lg_generation l) short long false, m', extra) ∧
    hash_log a m' (MkLog (now :: lg_failures l) (lg_until l) (lg_generation l) (Some now)) now ∧
    ∀ x, lg_until l = Some x → x ≤ now + Z.max 0 extra).
  { intros. do 2 eexists. split; [reflexivity|]. by split. }
  destruct (tripped _ _ || tripped _ _); cbn [negb orb andb]; [|apply Hplain].
  destruct (Z.ltb_spec (Z.of_nat (length (ar_ladder a))) 1) as [Hz|Hz].
  { replace (rung (ar_ladder a) (lg_generation l)) with 0; [apply Hplain|].
    destruct (ar_ladder a); [|simpl length in Hz; lia]. unfold rung. by destruct (Nat.min _ _). }
  rewrite lua_rung_rung by lia. destruct (Z.leb_spec (rung (ar_ladder a) (lg_generation l)) 0) as [Hr|Hr].
  { rewrite (proj2 (Z.ltb_ge _ _)) by lia. apply Hplain. }
  rewrite (proj2 (Z.ltb_lt _ _)) by lia. do 2 eexists. split; [reflexivity|]. cbn [snd lg_until].
  split; [|intros ? [= <-]; lia]. apply (armed_hash _ _ _ _ Hbase).
Qed.
End hash.

Section database.
Context {K : Keyspace} (a : ThrottleArgs) (key : string) (Ha : args_ok a)
  (Hret : 0 < ar_resetAfter a ≤ ar_retention a).

(** What the key holds for a log: nothing, or its hash until nobody can tell the difference. *)
Definition stored (db : DB) (l : log) (now : Z) : Prop :=
  log_ok l now ∧
  (l = empty_log ∧ (∀ u, now ≤ u → db_read db u key = RNone) ∨
   ∃ last m ttl, lg_last l = Some last ∧ hash_log a m l last ∧ ar_retention a ≤ ttl ∧
     (∀ x, lg_until l = Some x → x ≤ last + ttl) ∧
     ∀ u, last ≤ u → db_read db u key = if u <? last + ttl then hash_of m else RNone).

Lemma stored_empty now : stored db_empty empty_log now.
Proof. split; [apply empty_log_ok|]. left. split; [done|]. intros. apply read_empty. Qed.

Lemma charged m l now : hash_log a m l now → within (lg_failures l) now → 0 ≤ lg_generation l →
  charged_hash a m (MkLog (lg_failures l) (lg_until l) (lg_generation l) (Some now)) now.
Proof. intros. destruct (is_blocked l now) eqn:E; [by apply blocked_hash|by apply counted_hash]. Qed.

(** The end of the script, from the hash of the log that the failure finds. *)
Lemma charge_stored db m l1 l now : hash_log a m l1 now → within (lg_failures l1) now → 0 ≤ lg_generation l1 →
  arrive (log_args a) l now = MkLog (lg_failures l1) (lg_until l1) (lg_generation l1) (Some now) →
  log_ok (charge (log_args a) l now).2 now →
  ∃ m' extra, charge_hash a now m = ((charge (log_args a) l now).1, m', extra) ∧
    stored (keep db key now a m' extra) (charge (log_args a) l now).2 now.
Proof.
  intros Hm Hw Hg Harr Hok. destruct (charged m l1 now Hm Hw Hg) as (m' & extra & E & Hm' & Hu).
  unfold charge in *. rewrite Harr in *. cbv zeta. exists m', extra. split; [exact E|]. split; [exact Hok|].
  right. set (ttl := if ar_retention a <? extra then extra else ar_retention a).
  assert (Httl : ttl = Z.max (ar_retention a) extra) by (unfold ttl; destruct (Z.ltb_spec (ar_retention a) extra); lia).
  exists now, m', ttl. split; [|split; [exact Hm'|]; split; [lia|]; split].
  - pose proof (charge_last (log_args a) l now) as Hl. unfold charge in Hl. by rewrite Harr in Hl.
  - intros x Hx. specialize (Hu x Hx). lia.
  - intros u Hn. unfold keep. fold ttl. by apply read_write_expire.
Qed.

Lemma within_log l u now : log_ok l u → u ≤ now → 0 < now < two63 → within (lg_failures l) now.
Proof. intros Hl Hu Hn. split; [by apply (past_log l now u)|done]. Qed.

(** One call of the script in either mode. *)
Definition script_is_log (db : DB) (l : log) (now : Z) : Prop :=
  (∃ db', chargeScript db key now a = (Some (charge (log_args a) l now).1, db') ∧
     stored db' (charge (log_args a) l now).2 now) ∧
  peekScript db key now a = Some (peek (log_args a) l now).

Lemma script_gone db l u now : log_ok l u → u ≤ now → 0 < now < two63 →
  db_read db now key = RNone → is_blocked l now = false →
  arrive (log_args a) l now = MkLog [] None 0 (Some now) → script_is_log db l now.
Proof.
  intros Hl Hu Hn Hr Hb Harr. pose proof (charge_ok (log_args a) l now u Hl Hu (proj1 Hn)) as Hok.
  assert (Hempty : within [] now) by (split; [by intros ? ?%elem_of_nil|done]).
  split.
  - destruct (charge_stored db ∅ empty_log l now (hash_log_empty a now) Hempty ltac:(done) Harr Hok) as (m' & extra & E & Hs).
    unfold chargeScript. rewrite Hr. change (counters RNone) with (Some (∅ : gmap string Z)). cbv beta iota zeta.
    change (0 <? num_field ∅ "la") with false. rewrite andb_false_r. cbn [andb]. rewrite E. eauto.
  - unfold peekScript, peek. rewrite Hr, Hb. change (counters RNone) with (Some (∅ : gmap string Z)).
    cbn [mbind option_bind]. change (num_field ∅ "bu") with 0. by rewrite (proj2 (Z.ltb_ge _ _)) by lia.
Qed.

Lemma script_live db l m u last now : log_ok l u → u ≤ now → 0 < now < two63 →
  lg_last l = Some last → hash_log a m l now → db_read db now key = hash_of m → script_is_log db l now.
Proof.
  intros Hl Hu Hn Hlast Hm Hr. pose proof (charge_ok (log_args a) l now u Hl Hu (proj1 Hn)) as Hok.
  pose proof (within_log l u now Hl Hu Hn) as Hw. pose proof (lok_gen _ _ Hl) as Hg.
  pose proof (lok_now _ _ Hl last Hlast) as Hlu.
  assert (Hempty : within [] now) by (split; [by intros ? ?%elem_of_nil|done]).
  split.
  - unfold chargeScript. rewrite Hr, counters_hash. cbv beta iota zeta.
    rewrite (hl_last _ _ _ _ Hm), Hlast. cbn [default from_option id].
    rewrite (proj2 (Z.ltb_lt 0 last)), andb_true_r by lia.
    assert ((0 <? ar_resetAfter a) && (ar_resetAfter a <=? now - last) = is_quiet (log_args a) l now) as ->
      by (unfold is_quiet; by rewrite Hlast).
    destruct (is_quiet (log_args a) l now) eqn:Eq.
    + edestruct (charge_stored (db_write db now key RNone) ∅ empty_log l now) as (m' & extra & E & Hs);
        [apply hash_log_empty|done|done|unfold arrive; by rewrite Eq|done|]. rewrite E. eauto.
    + edestruct (charge_stored db m l l now) as (m' & extra & E & Hs);
        [done|done|lia|unfold arrive; by rewrite Eq|done|]. rewrite E. eauto.
  - unfold peekScript, peek. rewrite Hr, counters_hash. cbn [mbind option_bind].
    rewrite (blocked_fields m l now (hl_until _ _ _ _ Hm) (proj1 Hn)).
    destruct (is_blocked l now); [|done]. unfold blocked_reply.
    rewrite <- (counts_log a Ha m (lg_failures l) l now Hw eq_refl (conj (hl_short _ _ _ _ Hm) (hl_long _ _ _ _ Hm))).
    by rewrite (hl_until _ _ _ _ Hm), (hl_generation _ _ _ _ Hm).
Qed.

(** The script implements the same log of failures, with its hash, the expiry, the dropped
    intervals and the reset: each charge answers what the log answers and leaves the hash of the
    log, and a peek reads its standing. *)
Lemma script_refines_log db l u now : stored db l u → u ≤ now → 0 < now < two63 →
  (∃ db', chargeScript db key now a = (Some (charge (log_args a) l now).1, db') ∧
     stored db' (charge (log_args a) l now).2 now) ∧
  peekScript db key now a = Some (peek (log_args a) l now).
Proof.
  intros [Hl [[-> Hr]|(last & m & ttl & Hlast & Hm & Httl & Hun & Hr)]] Hu Hn.
  { apply (script_gone db empty_log u now); try done. by apply Hr. }
  pose proof (lok_now _ _ Hl last Hlast) as Hlu. specialize (Hr now ltac:(lia)).
  destruct (Z.ltb_spec now (last + ttl)) as [Hlive|Hdead].
  - apply (script_live db l m u last); try done. eapply hash_log_later; [done|lia].
  - apply (script_gone db l u now); try done.
    + unfold is_blocked. destruct (lg_until l) as [x|] eqn:Ex; [|done]. specialize (Hun x eq_refl).
      apply Z.ltb_ge. lia.
    + unfold arrive, is_quiet. rewrite Hlast. cbn [log_args fp_reset].
      by rewrite (proj2 (Z.ltb_lt _ _)), (proj2 (Z.leb_le _ _)) by lia.
Qed.
End database.
