(* ===== verification/AutoBanShared.v ===== *)
(** * Counting failures for automatic bans in a cluster

    Models [src/internal/cluster/sharedstate/autoban.go] and the calls of it in
    [src/internal/ipaccess/autoban_cluster.go]: one hash per source counts the failures of
    all nodes, and a node that sees the threshold crossed takes a short claim before it
    acts. Times in the scripts are milliseconds; conventions are those of [ThrottleShared],
    whose window the script has.

    [charge_script_log] and [mark_script_log]: the hash is the log of [AutoBan] with a claim
    and an expiry. [one_node_acts]: a crossing is acted on once. *)
From S2P Require Import Prelude GoModel Strconv NetIP Redis SharedState AccessRules ThrottlePolicy AccessPolicy FailureLog Throttle ThrottleTable AutoBan ThrottleShared.
From Stdlib Require Import Ascii.

(** ** The scripts *)

(** The arguments of the charge. *)
Record BanArgs := MkBanArgs { ba_width : Z; ba_slots : Z; ba_threshold : Z; ba_claimTTL : Z; ba_retention : Z }.

Record AutoBanCharge := MkCharge { ch_Failures : Z; ch_Bans : Z; ch_AlreadyBanned : bool; ch_Claimed : bool }.

(** Its window; the scripts count whatever the threshold is. *)
Definition source_window (a : BanArgs) : LuaWindow := MkLW "s:" 1 (ba_width a) (ba_slots a).

(** The reply, the hash, and the argument of [keep]. *)
Definition charge_source (a : BanArgs) (now : Z) (fields : gmap string Z) : AutoBanCharge * gmap string Z * Z :=
  let bans := num_field fields "bc" in
  let bannedUntil := num_field fields "bu" in
  let claimUntil := num_field fields "cl" in
  let fields := <["la" := now]> fields in
  if ((now <? bannedUntil) || (now <? claimUntil)) then
    (MkCharge 0 bans true false, fields, (if bannedUntil <? claimUntil then claimUntil else bannedUntil) - now)
  else
    let fields := lua_add (source_window a) now fields in
    let total := lua_count (source_window a) now fields in
    let fields := lua_prune (source_window a) now fields in
    if ba_threshold a <=? total
    then (MkCharge total bans false true, <["cl" := now + ba_claimTTL a]> fields, 0)
    else (MkCharge total bans false false, fields, 0).

(** What the mark leaves. *)
Definition mark_source (until now : Z) (fields : gmap string Z) : gmap string Z :=
  let fields := filter (λ kv, ! String.eqb (String.substring 0 2 kv.1) "s:" = true) fields in
  let fields := delete "cl"%string fields in
  <["la" := now]> (<["bu" := until]> (<["bc" := num_field fields "bc" + 1]> fields)).

Section scripts.
Context {K : Keyspace}.

Definition source_ttl (retention extra : Z) : Z := if retention <? extra then extra else retention.

Definition autoBanChargeScript (db : DB) (key : string) (now : Z) (a : BanArgs) : option AutoBanCharge * DB :=
  match counters (db_read db now key) with
  | None => (None, db)
  | Some fields =>
      let '(r, fields, extra) := charge_source a now fields in
      (Some r, write_expire db now key (hash_of fields) (source_ttl (ba_retention a) extra))
  end.

Definition autoBanMarkScript (db : DB) (key : string) (until now retention : Z) : option unit * DB :=
  match counters (db_read db now key) with
  | None => (None, db)
  | Some fields =>
      (Some tt, write_expire db now key (hash_of (mark_source until now fields)) (source_ttl retention (until - now)))
  end.

(** ** The store *)

Record AutoBanSpec := MkBanSpec {
  bs_Window : Duration; bs_Slots : Z; bs_Threshold : Z; bs_ClaimTTL : Duration; bs_Retention : Duration }.

Definition ban_script_args (spec : AutoBanSpec) : BanArgs :=
  let width := if (0 <? bs_Slots spec) && (Millisecond <? Z.quot (bs_Window spec) (bs_Slots spec))
               then Z.quot (bs_Window spec) (bs_Slots spec) else Millisecond in
  MkBanArgs (milliseconds width) (bs_Slots spec) (bs_Threshold spec) (milliseconds (bs_ClaimTTL spec)) (milliseconds (bs_Retention spec)).

Definition autoBanKey (cidr : string) : string := KeyPrefix +:+ "autoban:" +:+ cidr.

(** [None] is an error, of which an unavailable store is one. *)
Definition Store_AutoBanCharge (available : bool) (db : DB) (cidr : string) (spec : AutoBanSpec) (now : Time)
    : option AutoBanCharge * DB :=
  if ! available then (None, db)
  else autoBanChargeScript db (autoBanKey cidr) (unix_milli now) (ban_script_args spec).

Definition Store_AutoBanMark (available : bool) (db : DB) (cidr : string) (until now : Time) (retention : Duration)
    : option unit * DB :=
  if ! available then (None, db)
  else autoBanMarkScript db (autoBanKey cidr) (unix_milli until) (unix_milli now) (milliseconds retention).

(** ** The calls of a node *)

Definition autoBanClaimTTL : Duration := 10 * Second.
Definition autoBanSharedRetention : Duration := 24 * Hour.

Definition charge_spec (policy : AutoBanPolicy) : AutoBanSpec :=
  MkBanSpec (ban_Window policy) (Z.of_nat autoBanSlotCount) (ab_FailureThreshold policy) autoBanClaimTTL
    (if autoBanSharedRetention <? ban_Window policy then ban_Window policy else autoBanSharedRetention).

(** [None] when [ok] is false: outside a cluster, or the store cannot answer. *)
Definition chargeShared (available : bool) (db : DB) (cidr : string) (policy : AutoBanPolicy) (now : Time)
    : option (Z * Z * bool) * DB :=
  if ! available then (None, db)
  else let '(res, db) := Store_AutoBanCharge available db cidr (charge_spec policy) now in
       ((λ r, (ch_Failures r, ch_Bans r, ch_AlreadyBanned r)) <$> res, db).

Definition markBannedShared (available : bool) (db : DB) (cidr : string) (until now : Time) : DB :=
  if ! available then db else (Store_AutoBanMark available db cidr until now autoBanSharedRetention).2.

End scripts.

(** ** The log of a source in a cluster *)

Record cluster_log := MkClusterLog { cg_log : ban_log; cg_claim : option Z; cg_dies : Z }.

Definition no_source : cluster_log := MkClusterLog no_bans None 0.

(** The source is forgotten when its key expires. *)
Definition live (l : cluster_log) (now : Z) : cluster_log := if now <? cg_dies l then l else no_source.

Definition claimed_now (l : cluster_log) (now : Z) : bool := match cg_claim l with Some c => now <? c | None => false end.

Definition horizon (l : cluster_log) : Z := Z.max (default 0 (bl_until (cg_log l))) (default 0 (cg_claim l)).

Definition cluster_charge (a : BanArgs) (l : cluster_log) (now : Z) : AutoBanCharge * cluster_log :=
  let l := live l now in
  let bans := bl_bans (cg_log l) in
  if (log_banned (cg_log l) now || claimed_now l now) then
    (MkCharge 0 bans true false, MkClusterLog (cg_log l) (cg_claim l) (now + Z.max (ba_retention a) (horizon l - now)))
  else
    let failures := now :: bl_failures (cg_log l) in
    let total := window_count (log_lua (source_window a)) now failures in
    let claimed := ba_threshold a <=? total in
    (MkCharge total bans false claimed,
     MkClusterLog (MkBanLog failures bans (bl_until (cg_log l)))
       (if claimed then Some (now + ba_claimTTL a) else cg_claim l) (now + Z.max (ba_retention a) 0)).

Definition cluster_mark (retention : Z) (l : cluster_log) (until now : Z) : cluster_log :=
  MkClusterLog (log_mark (cg_log (live l now)) until) None (now + Z.max retention (until - now)).

(** ** A hash is a log *)

Lemma filter_keeps {V} (P : string * V → Prop) `{!∀ x, Decision (P x)} (m : gmap string V) f :
  (∀ v, P (f, v)) → filter P m !! f = m !! f.
Proof.
  intros Hf. destruct (m !! f) as [v|] eqn:E; [by apply map_lookup_filter_Some|]. apply map_lookup_filter_None. by left.
Qed.

Section refinement.
Context (a : BanArgs) (Hslots : 0 < ba_slots a).
Let w := source_window a.

Record source_ok (m : gmap string Z) (l : cluster_log) (now : Z) : Prop := {
  so_window : window_ok w m (bl_failures (cg_log l)) now;
  so_bans : num_field m "bc" = bl_bans (cg_log l);
  so_until : num_field m "bu" = default 0 (bl_until (cg_log l));
  so_claim : num_field m "cl" = default 0 (cg_claim l)
}.

Lemma source_empty now : source_ok ∅ no_source now.
Proof. split; try done. apply window_ok_empty. Qed.

Lemma source_later m l u now : source_ok m l u → u ≤ now → source_ok m l now.
Proof. intros [H1 H2 H3 H4] Hu. split; try done. by eapply window_ok_later. Qed.

(** A field that is not of the window. *)
Definition plain (f : string) : Prop := String.substring 0 2 f ≠ "s:".

Lemma kept_plain f now : plain f → kept w now f = true.
Proof. intros Hf. unfold kept. rewrite field_index_other by done. apply orb_true_r. Qed.

Lemma prune_plain m now f : plain f → num_field (lua_prune w now m) f = num_field m f.
Proof.
  intros Hf. unfold num_field, lua_prune. rewrite filter_keeps; [done|]. intros v. by apply kept_plain.
Qed.

Lemma add_plain m now f : plain f → num_field (lua_add w now m) f = num_field m f.
Proof.
  intros Hf. unfold lua_add. destruct (lua_off w); [done|]. apply num_field_insert_ne. intros E. apply Hf.
  rewrite <- E. by apply field_of_prefix.
Qed.

Lemma source_insert m l now f v : plain f → f ∉ ["bc"; "bu"; "cl"]%string → source_ok m l now → source_ok (<[f := v]> m) l now.
Proof.
  intros Hf Hn [H1 H2 H3 H4]. split.
  - by apply window_ok_insert.
  - rewrite num_field_insert_ne; [done|]. intros ->. apply Hn. by_decision.
  - rewrite num_field_insert_ne; [done|]. intros ->. apply Hn. by_decision.
  - rewrite num_field_insert_ne; [done|]. intros ->. apply Hn. by_decision.
Qed.

Lemma until_banned o now : 0 < now → (now <? default 0 o) = match o with Some x => now <? x | None => false end.
Proof. intros Hn. destruct o; [done|]. by apply Z.ltb_ge, Z.lt_le_incl. Qed.

Lemma charge_source_log m l now : source_ok m l now → within (bl_failures (cg_log l)) now → now < cg_dies l ∨ l = no_source →
  ∃ m' extra, charge_source a now m = ((cluster_charge a l now).1, m', extra) ∧
    source_ok m' (cluster_charge a l now).2 now ∧
    cg_dies (cluster_charge a l now).2 = now + Z.max (ba_retention a) extra ∧
    within (bl_failures (cg_log (cluster_charge a l now).2)) now.
Proof.
  intros Hm Hw Hlive. assert (Hl : live l now = l).
  { unfold live. destruct Hlive as [H| ->]; [by rewrite (proj2 (Z.ltb_lt _ _) H)|by destruct (_ <? _)]. }
  pose proof (proj2 Hw) as Hnow. unfold charge_source, cluster_charge. rewrite Hl. cbv zeta.
  rewrite (so_bans _ _ _ Hm), (so_until _ _ _ Hm), (so_claim _ _ _ Hm), !until_banned by lia.
  fold (log_banned (cg_log l) now). fold (claimed_now l now).
  assert (Hla : source_ok (<["la"%string := now]> m) l now) by (apply source_insert; [done|by_decision|done]).
  destruct (log_banned (cg_log l) now || claimed_now l now).
  - do 2 eexists. split; [reflexivity|]. split; [|split; [|done]].
    + destruct Hla as [H1 H2 H3 H4]. by split.
    + cbn [snd cg_dies]. unfold horizon. do 2 f_equal.
      destruct (Z.ltb_spec (default 0 (bl_until (cg_log l))) (default 0 (cg_claim l))); lia.
  - assert (Hadd : window_ok w (lua_add w now (<["la"%string := now]> m)) (now :: bl_failures (cg_log l)) now)
      by (apply window_ok_add; [done|done|done|apply Hla]).
    assert (Hw2 : within (now :: bl_failures (cg_log l)) now).
    { split; [|done]. intros t [->|Ht]%elem_of_cons; [lia|by apply Hw]. }
    assert (Hcount : lua_count w now (lua_add w now (<["la"%string := now]> m)) = window_count (log_lua w) now (now :: bl_failures (cg_log l))).
    { destruct (enabled (log_lua w)) eqn:He.
      - eapply lua_count_log; [done|by apply Hadd|done|done].
      - unfold lua_count, window_count. by rewrite lua_off_enabled, He. }
    change (source_window a) with w. rewrite Hcount. set (m1 := lua_prune w now _). set (total := window_count _ _ _).
    assert (Hm1 : window_ok w m1 (now :: bl_failures (cg_log l)) now) by (by apply window_ok_prune).
    assert (Hf : ∀ f, plain f → f ≠ "la"%string → num_field m1 f = num_field m f).
    { intros f Hf Hne. unfold m1. rewrite prune_plain, add_plain by done. by rewrite num_field_insert_ne. }
    destruct (ba_threshold a <=? total); do 2 eexists; (split; [reflexivity|]); (split; [split|split; [reflexivity|exact Hw2]]);
      cbn [snd cg_log cg_claim bl_failures bl_bans bl_until default from_option id].
    + by apply window_ok_insert.
    + rewrite num_field_insert_ne, Hf by done. apply Hm.
    + rewrite num_field_insert_ne, Hf by done. apply Hm.
    + apply num_field_insert.
    + done.
    + rewrite Hf by done. apply Hm.
    + rewrite Hf by done. apply Hm.
    + rewrite Hf by done. apply Hm.
Qed.

Lemma mark_source_ok retention m l until now : source_ok m l now → now < cg_dies l ∨ l = no_source → 0 < now →
  source_ok (mark_source until now m) (cluster_mark retention l until now) now.
Proof.
  intros [H1 H2 H3 H4] Hlive Hn. assert (Hl : live l now = l).
  { unfold live. destruct Hlive as [H| ->]; [by rewrite (proj2 (Z.ltb_lt _ _) H)|by destruct (_ <? _)]. }
  unfold mark_source, cluster_mark. rewrite Hl. cbn [log_mark cg_log cg_claim bl_failures bl_bans bl_until].
  set (m1 := delete _ _). assert (Hf : ∀ f, plain f → f ≠ "cl"%string → num_field m1 f = num_field m f).
  { intros f Hf Hne. unfold num_field, m1. rewrite lookup_delete_ne by done. rewrite filter_keeps; [done|].
    intros v. cbn [fst]. by rewrite (proj2 (String.eqb_neq _ _)). }
  split.
  - apply window_ok_insert; [done..|]. apply window_ok_insert; [done..|]. apply window_ok_insert; [done..|].
    intros _. split; [|by intros ? ?%elem_of_nil]. intros f v Hfv Hp. exfalso. unfold m1 in Hfv.
    apply lookup_delete_Some in Hfv as [_ Hfv]. apply map_lookup_filter_Some in Hfv as [_ Hfv]. cbn [fst] in Hfv.
    change (lw_prefix w) with "s:"%string in Hp. by rewrite Hp in Hfv.
  - rewrite num_field_insert_ne, num_field_insert_ne, num_field_insert by done. by rewrite Hf, H2.
  - by rewrite num_field_insert_ne, num_field_insert.
  - rewrite !num_field_insert_ne by done. unfold m1, num_field. by rewrite lookup_delete_eq.
Qed.

(** What a key holds. *)
Context {K : Keyspace} (key : string).

Definition source_stored (db : DB) (l : cluster_log) (u : Z) : Prop :=
  past (bl_failures (cg_log l)) u ∧
  (l = no_source ∧ (∀ v, u ≤ v → db_read db v key = RNone) ∨
   ∃ m, source_ok m l u ∧ ∀ v, u ≤ v → db_read db v key = if v <? cg_dies l then hash_of m else RNone).

Lemma source_ttl_max retention extra : source_ttl retention extra = Z.max retention extra.
Proof. unfold source_ttl. destruct (Z.ltb_spec retention extra); lia. Qed.

(** The hash and the log that a script finds. *)
Lemma source_found db l u now : source_stored db l u → u ≤ now → 0 < now < two63 →
  ∃ m, counters (db_read db now key) = Some m ∧ source_ok m (live l now) now ∧
    within (bl_failures (cg_log (live l now))) now ∧ (now < cg_dies (live l now) ∨ live l now = no_source).
Proof.
  intros [Hp Hs] Hu Hn. assert (Hnone : within [] now) by (split; [by intros ? ?%elem_of_nil|done]).
  destruct Hs as [[-> Hr]|(m & Hm & Hr)].
  - exists ∅. assert (live no_source now = no_source) as -> by (unfold live; by destruct (_ <? _)).
    rewrite Hr by done. split; [done|]. split; [apply source_empty|]. split; [exact Hnone|by right].
  - rewrite Hr by done. unfold live. destruct (Z.ltb_spec now (cg_dies l)) as [Hlt|Hge].
    + exists m. rewrite counters_hash. split; [done|]. split; [by eapply source_later|]. split; [|by left].
      split; [|done]. intros t Ht. specialize (Hp t Ht). lia.
    + exists ∅. split; [done|]. split; [apply source_empty|]. split; [exact Hnone|by right].
Qed.

Lemma live_live l now : live (live l now) now = live l now.
Proof.
  unfold live at 2 3. destruct (now <? cg_dies l) eqn:E; [unfold live; by rewrite E|].
  unfold live. by destruct (now <? cg_dies no_source).
Qed.

Lemma cluster_charge_live l now : cluster_charge a (live l now) now = cluster_charge a l now.
Proof. unfold cluster_charge. by rewrite live_live. Qed.

Lemma cluster_mark_live ret l until now : cluster_mark ret (live l now) until now = cluster_mark ret l until now.
Proof. unfold cluster_mark. by rewrite live_live. Qed.

(** One charge, of any node. *)
Lemma charge_script_log db l u now : source_stored db l u → u ≤ now → 0 < now < two63 →
  ∃ db', autoBanChargeScript db key now a = (Some (cluster_charge a l now).1, db') ∧
    source_stored db' (cluster_charge a l now).2 now.
Proof.
  intros Hs Hu Hn. destruct (source_found db l u now Hs Hu Hn) as (m & Em & Hm & Hw & Hlive).
  destruct (charge_source_log m (live l now) now Hm Hw Hlive) as (m' & extra & E & Hm' & Hdies & Hw').
  rewrite cluster_charge_live in E, Hm', Hdies, Hw'.
  unfold autoBanChargeScript. rewrite Em, E. eexists. split; [reflexivity|]. split; [apply Hw'|]. right. exists m'.
  split; [done|]. intros v Hv. rewrite read_write_expire by done. by rewrite source_ttl_max, Hdies.
Qed.

(** One mark. *)
Lemma mark_script_log retention db l u until now : source_stored db l u → u ≤ now → 0 < now < two63 →
  ∃ db', autoBanMarkScript db key until now retention = (Some tt, db') ∧
    source_stored db' (cluster_mark retention l until now) now.
Proof.
  intros Hs Hu Hn. destruct (source_found db l u now Hs Hu Hn) as (m & Em & Hm & Hw & Hlive).
  pose proof (mark_source_ok retention m (live l now) until now Hm Hlive (proj1 Hn)) as Hm'. rewrite cluster_mark_live in Hm'.
  unfold autoBanMarkScript. rewrite Em. eexists. split; [reflexivity|]. split; [by intros ? ?%elem_of_nil|]. right.
  exists (mark_source until now m). split; [done|]. intros v Hv. rewrite read_write_expire by done.
  by rewrite source_ttl_max.
Qed.

Lemma source_stored_empty u : source_stored db_empty no_source u.
Proof. split; [by intros ? ?%elem_of_nil|]. left. split; [done|]. intros. apply read_empty. Qed.
End refinement.

(** ** The nodes of a cluster *)

(** While the ban or the claim of a log lasts beyond [x] every charge is refused. *)
Definition shut (l : cluster_log) (x : Z) : Prop :=
  x < cg_dies l ∧ (log_banned (cg_log l) x || claimed_now l x) = true.

Lemma shut_horizon l x : (log_banned (cg_log l) x || claimed_now l x) = true → 0 < x → x < horizon l.
Proof.
  unfold log_banned, claimed_now, horizon. intros [H|H]%orb_true_iff Hx.
  - destruct (bl_until (cg_log l)); [|done]. cbn [default from_option id]. zbool. lia.
  - destruct (cg_claim l); [|done]. cbn [default from_option id]. zbool. lia.
Qed.

Lemma shut_charge a l now x : shut l x → 0 < now ≤ x →
  (cluster_charge a l now).1 = MkCharge 0 (bl_bans (cg_log l)) true false ∧ shut (cluster_charge a l now).2 x ∧
  bl_bans (cg_log (cluster_charge a l now).2) = bl_bans (cg_log l).
Proof.
  intros [Hd Hs] Hn. pose proof (shut_horizon l x Hs ltac:(lia)) as Hh.
  assert (Hl : live l now = l) by (unfold live; by rewrite (proj2 (Z.ltb_lt _ _)) by lia).
  assert (Hnow : (log_banned (cg_log l) now || claimed_now l now) = true).
  { unfold log_banned, claimed_now in *. apply orb_true_iff in Hs as [Hs|Hs]; apply orb_true_iff; [left|right].
    - destruct (bl_until (cg_log l)); [|done]. zbool. apply Z.ltb_lt. lia.
    - destruct (cg_claim l); [|done]. zbool. apply Z.ltb_lt. lia. }
  unfold cluster_charge. rewrite Hl, Hnow. cbv zeta. split; [done|]. split; [|done]. split; [cbn [snd cg_dies]; lia|exact Hs].
Qed.

Inductive cluster_op := NodeCharge (cidr : string) (now : Time) | NodeMark (cidr : string) (until now : Time).

Definition node_source (o : cluster_op) : string := match o with NodeCharge cidr _ => cidr | NodeMark cidr _ _ => cidr end.
Definition node_time (o : cluster_op) : Time := match o with NodeCharge _ now => now | NodeMark _ _ now => now end.
Definition is_mark (cidr : string) (o : cluster_op) : bool :=
  match o with NodeMark cidr' _ _ => String.eqb cidr' cidr | NodeCharge _ _ => false end.

Fixpoint node_order (u : Z) (ops : list cluster_op) : Prop :=
  match ops with
  | [] => True
  | o :: ops => 0 < unix_milli (node_time o) < two63 ∧ u ≤ unix_milli (node_time o) ∧ node_order (unix_milli (node_time o)) ops
  end.

Section cluster.
Context {K : Keyspace} (policy : AutoBanPolicy).

Definition node_step (db : DB) (o : cluster_op) : DB :=
  match o with
  | NodeCharge cidr now => (Store_AutoBanCharge true db cidr (charge_spec policy) now).2
  | NodeMark cidr until now => markBannedShared true db cidr until now
  end.

Let a := ban_script_args (charge_spec policy).

Lemma script_slots : 0 < ba_slots a.
Proof. done. Qed.

Lemma autoBanKey_inj c d : autoBanKey c = autoBanKey d → c = d.
Proof. unfold autoBanKey. intros E. by apply str_app_inv_l, str_app_inv_l in E. Qed.

Definition last_time (u : Z) (ops : list cluster_op) : Z := foldl (λ _ o, unix_milli (node_time o)) u ops.

(** The log of a source after a call. *)
Definition log_step (cidr : string) (l : cluster_log) (o : cluster_op) : cluster_log :=
  if String.eqb (node_source o) cidr then
    match o with
    | NodeCharge _ now => (cluster_charge a l (unix_milli now)).2
    | NodeMark _ until now => cluster_mark (milliseconds autoBanSharedRetention) l (unix_milli until) (unix_milli now)
    end
  else l.

Lemma source_stored_later key db l u now : source_stored a key db l u → u ≤ now → source_stored a key db l now.
Proof.
  intros [Hp Hs] Hu. split; [intros t Ht; specialize (Hp t Ht); lia|].
  destruct Hs as [[-> Hr]|(m & Hm & Hr)]; [left; split; [done|]; intros; apply Hr; lia|].
  right. exists m. split; [by eapply source_later|]. intros; apply Hr; lia.
Qed.

Lemma node_step_log cidr db l u o : source_stored a (autoBanKey cidr) db l u → 0 < unix_milli (node_time o) < two63 →
  u ≤ unix_milli (node_time o) →
  source_stored a (autoBanKey cidr) (node_step db o) (log_step cidr l o) (unix_milli (node_time o)).
Proof.
  intros Hs Hn Hu. unfold log_step. destruct (String.eqb_spec (node_source o) cidr) as [Heq|Hne].
  - destruct o as [cidr' now|cidr' until now]; cbn [node_source node_time] in *; subst cidr'; cbn [node_step].
    + unfold Store_AutoBanCharge. cbn [negb]. fold a.
      destruct (charge_script_log a script_slots (autoBanKey cidr) db l u (unix_milli now) Hs Hu Hn) as (db' & -> & H). exact H.
    + unfold markBannedShared, Store_AutoBanMark. cbn [negb].
      destruct (mark_script_log a (autoBanKey cidr) (milliseconds autoBanSharedRetention) db l u (unix_milli until) (unix_milli now) Hs Hu Hn)
        as (db' & -> & H). exact H.
  - assert (Hk : autoBanKey (node_source o) ≠ autoBanKey cidr) by (intros E; by apply autoBanKey_inj in E).
    assert (Hr : ∀ v, db_read (node_step db o) v (autoBanKey cidr) = db_read db v (autoBanKey cidr)).
    { intros v. destruct o as [cidr' now|cidr' until now]; cbn [node_source node_step] in *.
      - unfold Store_AutoBanCharge, autoBanChargeScript. cbn [negb]. destruct (counters _) as [m|]; [|done].
        destruct (charge_source _ _ m) as [[r m'] extra]. by apply read_write_expire_ne.
      - unfold markBannedShared, Store_AutoBanMark, autoBanMarkScript. cbn [negb]. destruct (counters _) as [m|]; [|done].
        by apply read_write_expire_ne. }
    eapply source_stored_later in Hs; [|exact Hu]. destruct Hs as [Hp Hs]. split; [done|]. setoid_rewrite Hr. exact Hs.
Qed.

Lemma nodes_log cidr ops db l u : source_stored a (autoBanKey cidr) db l u → node_order u ops →
  source_stored a (autoBanKey cidr) (foldl node_step db ops) (foldl (log_step cidr) l ops) (last_time u ops).
Proof.
  revert db l u. induction ops as [|o ops IH]; intros db l u Hs Hord; [done|]. destruct Hord as (Hn & Hu & Hord).
  cbn [foldl last_time]. apply IH; [|done]. by eapply node_step_log.
Qed.

Lemma node_order_app u x y : node_order u (x ++ y) ↔ node_order u x ∧ node_order (last_time u x) y.
Proof.
  revert u. induction x as [|o x IH]; intros u; cbn [app node_order last_time foldl]; [naive_solver|].
  rewrite IH. naive_solver.
Qed.

Lemma node_order_le u ops : node_order u ops → u ≤ last_time u ops.
Proof.
  revert u. induction ops as [|o ops IH]; intros u; [done|]. cbn [node_order last_time foldl].
  intros (_ & Hu & H%IH). unfold last_time in H. lia.
Qed.

Lemma shut_log cidr ops l u x : shut l x → node_order u ops → last_time u ops ≤ x →
  (∀ o, o ∈ ops → is_mark cidr o = false) →
  shut (foldl (log_step cidr) l ops) x ∧ bl_bans (cg_log (foldl (log_step cidr) l ops)) = bl_bans (cg_log l).
Proof.
  revert l u. induction ops as [|o ops IH]; intros l u Hs Hord Hx Hm; [done|]. destruct Hord as (Hn & Hu & Hord).
  cbn [foldl last_time] in *. pose proof (node_order_le _ _ Hord) as Hle. unfold last_time in Hle.
  assert (H : shut (log_step cidr l o) x ∧ bl_bans (cg_log (log_step cidr l o)) = bl_bans (cg_log l)).
  { unfold log_step. specialize (Hm o (list_elem_of_here _ _)). destruct (String.eqb_spec (node_source o) cidr) as [He|]; [|done].
    destruct o as [c now|c until now]; cbn [node_source is_mark] in *; [|by subst c; rewrite String.eqb_refl in Hm].
    cbn [node_time] in *. apply shut_charge; [done|]. unfold last_time in Hx. lia. }
  destruct H as [H1 H2]. destruct (IH (log_step cidr l o) _ H1 Hord Hx) as [H3 H4]; [|by rewrite H4].
  intros o' Ho'. apply Hm. by right.
Qed.

(** What a charge answers after calls that leave the log shut. *)
Lemma shut_charge_answer cidr mid db l u now : source_stored a (autoBanKey cidr) db l u →
  node_order u (mid ++ [NodeCharge cidr now]) → (∀ o, o ∈ mid → is_mark cidr o = false) → shut l (unix_milli now) →
  (Store_AutoBanCharge true (foldl node_step db mid) cidr (charge_spec policy) now).1 =
    Some (MkCharge 0 (bl_bans (cg_log l)) true false).
Proof.
  intros Hs [Hmid (Hn & Hle & _)]%node_order_app Hm Hshut.
  pose proof (nodes_log cidr mid db l u Hs Hmid) as Hst.
  destruct (shut_log cidr mid l u _ Hshut Hmid Hle Hm) as [Hsh Hb].
  unfold Store_AutoBanCharge. cbn [negb]. fold a.
  destruct (charge_script_log a script_slots _ _ _ _ (unix_milli now) Hst Hle Hn) as (db' & -> & _). cbn [fst].
  destruct (shut_charge a _ (unix_milli now) _ Hsh ltac:(cbn [node_time] in *; lia)) as [-> _]. by rewrite Hb.
Qed.

Lemma stored_after cidr ops : node_order 0 ops →
  source_stored a (autoBanKey cidr) (foldl node_step db_empty ops) (foldl (log_step cidr) no_source ops) (last_time 0 ops).
Proof. intros H. apply nodes_log; [apply source_stored_empty|done]. Qed.
End cluster.

Lemma shared_retention policy : 86400000 ≤ ba_retention (ban_script_args (charge_spec policy)).
Proof.
  unfold ban_script_args, charge_spec, milliseconds. cbn [ba_retention bs_Retention].
  change 86400000 with (Z.quot autoBanSharedRetention 1000000).
  destruct (Z.ltb_spec autoBanSharedRetention (ban_Window policy)); [|done]. apply Z.quot_le_mono; lia.
Qed.

Lemma claimed_shut a l now x : ch_Claimed (cluster_charge a l now).1 = true → x < now + ba_claimTTL a → ba_claimTTL a ≤ ba_retention a →
  shut (cluster_charge a l now).2 x ∧ bl_bans (cg_log (cluster_charge a l now).2) = ch_Bans (cluster_charge a l now).1.
Proof.
  unfold cluster_charge. cbv zeta. destruct (_ || _); [done|]. cbn [fst snd ch_Claimed ch_Bans cg_log bl_bans]. intros -> Hx Hr.
  split; [|done]. split; cbn [cg_dies cg_log cg_claim]; [lia|]. unfold claimed_now. cbn [cg_claim].
  rewrite (proj2 (Z.ltb_lt _ _)) by done. apply orb_true_r.
Qed.

(** C17: when the failures of a source, on whatever nodes, cross the threshold, one node acts on it.
    The charge that is told of the crossing claims it; for ten seconds, and until the ban is marked,
    every other charge of the source on every node is told that it is banned already and claims
    nothing. *)
Theorem one_node_acts `{Keyspace} policy pre cidr t mid t' c :
  node_order 0 (pre ++ NodeCharge cidr t :: mid ++ [NodeCharge cidr t']) →
  (∀ o, o ∈ mid → is_mark cidr o = false) →
  (Store_AutoBanCharge true (foldl (node_step policy) db_empty pre) cidr (charge_spec policy) t).1 = Some c →
  ch_Claimed c = true → unix_milli t' < unix_milli t + 10000 →
  (Store_AutoBanCharge true (foldl (node_step policy) db_empty (pre ++ NodeCharge cidr t :: mid)) cidr (charge_spec policy) t').1 =
    Some (MkCharge 0 (ch_Bans c) true false).
Proof.
  intros Hord Hm Hc Hcl Ht. change (NodeCharge cidr t :: mid ++ [NodeCharge cidr t']) with ([NodeCharge cidr t] ++ mid ++ [NodeCharge cidr t']) in Hord.
  rewrite app_assoc, node_order_app in Hord.
  destruct Hord as [Hpre Hmid].
  pose proof (stored_after policy cidr _ Hpre) as Hst. rewrite !foldl_app in Hst. cbn [foldl] in Hst.
  rewrite node_order_app in Hpre. destruct Hpre as [Hpre (Hn & Hu & _)]. cbn [node_time] in *.
  pose proof (stored_after policy cidr pre Hpre) as Hs0.
  destruct (charge_script_log _ (script_slots policy) _ _ _ _ (unix_milli t) Hs0 Hu Hn) as (db' & E & _).
  unfold Store_AutoBanCharge in Hc. cbn [negb] in Hc. rewrite E in Hc. cbn [fst] in Hc. injection Hc as <-.
  rewrite foldl_app. cbn [foldl].
  destruct (claimed_shut _ _ (unix_milli t) (unix_milli t') Hcl) as [Hshut Hb]; [exact Ht|pose proof (shared_retention policy) as Hr; change (ba_claimTTL _) with 10000; lia|].
  assert (El : ∀ l, log_step policy cidr l (NodeCharge cidr t) = (cluster_charge (ban_script_args (charge_spec policy)) l (unix_milli t)).2)
    by (intros; unfold log_step; cbn [node_source]; by rewrite String.eqb_refl).
  rewrite <- Hb. rewrite El in Hst. eapply shut_charge_answer; [exact Hst|exact Hmid|exact Hm|exact Hshut].
Qed.

(** A ban that any node marked holds on all of them: until it ends no charge of the source counts,
    and none claims a further one. *)
Lemma shared_ban_holds `{Keyspace} policy pre cidr until t mid t' :
  node_order 0 (pre ++ NodeMark cidr until t :: mid ++ [NodeCharge cidr t']) →
  (∀ o, o ∈ mid → is_mark cidr o = false) → unix_milli t' < unix_milli until →
  ∃ bans, (Store_AutoBanCharge true (foldl (node_step policy) db_empty (pre ++ NodeMark cidr until t :: mid)) cidr (charge_spec policy) t').1 =
    Some (MkCharge 0 bans true false).
Proof.
  intros Hord Hm Ht. change (NodeMark cidr until t :: mid ++ [NodeCharge cidr t']) with ([NodeMark cidr until t] ++ mid ++ [NodeCharge cidr t']) in Hord.
  rewrite app_assoc, node_order_app in Hord.
  destruct Hord as [Hpre Hmid]. pose proof (stored_after policy cidr _ Hpre) as Hst. rewrite !foldl_app in Hst. cbn [foldl] in Hst.
  rewrite foldl_app. cbn [foldl]. eexists. eapply shut_charge_answer; [exact Hst|exact Hmid|exact Hm|].
  unfold log_step. cbn [node_source]. rewrite String.eqb_refl. unfold cluster_mark.
  split; cbn [cg_dies cg_log cg_claim]; [lia|]. unfold log_banned, log_mark. cbn [bl_until]. by rewrite (proj2 (Z.ltb_lt _ _)).
Qed.

Definition two_failures : AutoBanPolicy := MkAutoBan AutoBanEnforce 600 2 60 1440.

Lemma one_node_acts_witness : let K := list_keyspace in
  (Store_AutoBanCharge true (foldl (node_step two_failures) db_empty
     ([NodeCharge "a" (time_Unix 1000)] ++ [NodeCharge "a" (time_Unix 1001); NodeCharge "b" (time_Unix 1001)])) "a"
     (charge_spec two_failures) (time_Unix 1002)).1 = Some (MkCharge 0 0 true false).
Proof.
  intros K. refine (one_node_acts two_failures [NodeCharge "a" (time_Unix 1000)] "a" (time_Unix 1001) [NodeCharge "b" (time_Unix 1001)]
    (time_Unix 1002) (MkCharge 2 0 false true) _ _ _ _ _).
  - vm_compute. repeat split; discriminate.
  - intros o ->%list_elem_of_singleton. reflexivity.
  - vm_compute. reflexivity.
  - reflexivity.
  - vm_compute. reflexivity.
Defined.

Lemma shared_ban_holds_witness : let K := list_keyspace in ∃ bans,
  (Store_AutoBanCharge true (foldl (node_step two_failures) db_empty
     ([] ++ [NodeMark "a" (time_Unix 4600) (time_Unix 1000); NodeCharge "b" (time_Unix 1001)])) "a"
     (charge_spec two_failures) (time_Unix 1002)).1 = Some (MkCharge 0 bans true false).
Proof.
  intros K. refine (shared_ban_holds two_failures [] "a" (time_Unix 4600) (time_Unix 1000) [NodeCharge "b" (time_Unix 1001)]
    (time_Unix 1002) _ _ _).
  - vm_compute. repeat split; discriminate.
  - intros o ->%list_elem_of_singleton. reflexivity.
  - vm_compute. reflexivity.
Defined.
