(* ===== verification/Access.v ===== *)
(** * Admission and automatic bans

    Models [src/internal/ipaccess/registry.go], the engine of [autoban.go], the alerts of
    [alert.go] and [src/internal/api/ip_access_middleware.go]: the snapshot of the rules that
    requests are matched against, who is admitted, and what a failed authentication does.
    Logging, the loops that call [Refresh] and [PurgeExpiredAuto], the delivery of alerts and
    the counters of hits in the database are left out.

    [admission_exact]: who is refused. [autoban_spares], [observe_writes_nothing] and
    [ban_takes_effect]: who is banned. [lapsed_rule_enforced]: a rule outlives its expiry until
    the next refresh. *)
From S2P Require Import Prelude GoModel Strconv NetIP Redis SharedState AccessRules ClientAddress ThrottlePolicy AccessPolicy AccessStore FailureLog Throttle ThrottleTable AutoBan ThrottleShared AutoBanShared.
From Stdlib Require Import Ascii.

(** ** State *)

Record Verdict := MkVerdict { vd_Decision : MatchDecision; vd_Rule : option Rule; vd_Enforced : bool; vd_Reason : string }.

Definition Allowed (v : Verdict) : bool := ! vd_Enforced v || ! bool_decide (vd_Decision v = DecisionDeny).
Definition Exempt (v : Verdict) : bool := vd_Enforced v && bool_decide (vd_Decision v = DecisionAllow).

Definition reasonUntrustedClientIP : string := "client address is not trustworthy (relayed request with no trusted-proxies)".
Definition reasonNoStorage : string := "rule storage unavailable".

Definition protected_reason (r : ProtectedReason) : string :=
  match r with
  | ProtectedLoopback => "loopback"
  | ProtectedLocalAddress => "local_address"
  | ProtectedTrustedProxy => "trusted_proxy"
  | ProtectedOutboundPeer => "outbound_proxy"
  end.

(** The outcome of a failure. *)
Record AutoBanOutcome := MkBanOutcome { bo_Triggered : bool; bo_Enforced : bool; bo_CIDR : string; bo_Until : Time; bo_Failures : Z }.

(** A notification that is sent off. *)
Record AlertEvent := MkAlertEvent {
  ae_Event : string; ae_CIDR : string; ae_Failures : Z; ae_Reason : string; ae_Enforced : bool; ae_ExpiresAt : option Time; ae_URL : string }.

Section access.
Context {K : Keyspace} {RO : RangeOrder}.

(** The registry, with the table and the Redis it uses. The proxies of a registry that was never
    told any are none; a persister has the policy that is stored, if any. *)
Record Registry := MkRegistry {
  rg_available : bool; rg_rules : list Rule; rg_matcher : Matcher; rg_policy : ProtectionPolicy;
  rg_persister : option (option ProtectionPolicy); rg_protected : list ProtectedEntry; rg_configProxies : list string;
  rg_proxyMatcher : list IPNet; rg_hits : gmap string Z; rg_counters : gmap string autoBanCounter;
  rg_shared : bool; rg_db : DB; rg_lastAlert : gmap string Time; rg_sent : list AlertEvent }.

Definition with_matcher (m : Matcher) (r : Registry) : Registry :=
  MkRegistry (rg_available r) (rg_rules r) m (rg_policy r) (rg_persister r) (rg_protected r) (rg_configProxies r)
    (rg_proxyMatcher r) (rg_hits r) (rg_counters r) (rg_shared r) (rg_db r) (rg_lastAlert r) (rg_sent r).
Definition with_rules (t : list Rule) (r : Registry) : Registry :=
  MkRegistry (rg_available r) t (rg_matcher r) (rg_policy r) (rg_persister r) (rg_protected r) (rg_configProxies r)
    (rg_proxyMatcher r) (rg_hits r) (rg_counters r) (rg_shared r) (rg_db r) (rg_lastAlert r) (rg_sent r).
Definition with_policy (p : ProtectionPolicy) (r : Registry) : Registry :=
  MkRegistry (rg_available r) (rg_rules r) (rg_matcher r) p (rg_persister r) (rg_protected r) (rg_configProxies r)
    (rg_proxyMatcher r) (rg_hits r) (rg_counters r) (rg_shared r) (rg_db r) (rg_lastAlert r) (rg_sent r).
Definition with_persister (p : option (option ProtectionPolicy)) (r : Registry) : Registry :=
  MkRegistry (rg_available r) (rg_rules r) (rg_matcher r) (rg_policy r) p (rg_protected r) (rg_configProxies r)
    (rg_proxyMatcher r) (rg_hits r) (rg_counters r) (rg_shared r) (rg_db r) (rg_lastAlert r) (rg_sent r).
Definition with_protected (p : list ProtectedEntry) (r : Registry) : Registry :=
  MkRegistry (rg_available r) (rg_rules r) (rg_matcher r) (rg_policy r) (rg_persister r) p (rg_configProxies r)
    (rg_proxyMatcher r) (rg_hits r) (rg_counters r) (rg_shared r) (rg_db r) (rg_lastAlert r) (rg_sent r).
Definition with_proxies (configured : list string) (m : list IPNet) (r : Registry) : Registry :=
  MkRegistry (rg_available r) (rg_rules r) (rg_matcher r) (rg_policy r) (rg_persister r) (rg_protected r) configured
    m (rg_hits r) (rg_counters r) (rg_shared r) (rg_db r) (rg_lastAlert r) (rg_sent r).
Definition with_hits (h : gmap string Z) (r : Registry) : Registry :=
  MkRegistry (rg_available r) (rg_rules r) (rg_matcher r) (rg_policy r) (rg_persister r) (rg_protected r) (rg_configProxies r)
    (rg_proxyMatcher r) h (rg_counters r) (rg_shared r) (rg_db r) (rg_lastAlert r) (rg_sent r).
Definition with_counting (c : gmap string autoBanCounter) (db : DB) (r : Registry) : Registry :=
  MkRegistry (rg_available r) (rg_rules r) (rg_matcher r) (rg_policy r) (rg_persister r) (rg_protected r) (rg_configProxies r)
    (rg_proxyMatcher r) (rg_hits r) c (rg_shared r) db (rg_lastAlert r) (rg_sent r).
Definition with_alerts (last : gmap string Time) (sent : list AlertEvent) (r : Registry) : Registry :=
  MkRegistry (rg_available r) (rg_rules r) (rg_matcher r) (rg_policy r) (rg_persister r) (rg_protected r) (rg_configProxies r)
    (rg_proxyMatcher r) (rg_hits r) (rg_counters r) (rg_shared r) (rg_db r) last sent.

Definition NewRegistry (available : bool) (rules : list Rule) (shared : bool) (db : DB) (now : Time) : Registry :=
  MkRegistry available rules (NewMatcher [] false now) DefaultPolicy None [] [] [] ∅ ∅ shared db ∅ [].

(** ** The snapshot and the policy *)

(** [Refresh]; a failed query keeps the snapshot. *)
Definition Refresh (others : Others) (now : Time) (r : Registry) : Registry :=
  if ! rg_available r then r
  else match LoadActive (rg_available r) others (rg_rules r) now with
  | None => r
  | Some rules => with_matcher (NewMatcher rules (pp_Lockdown (rg_policy r)) now) r
  end.

Definition TrustedProxies (r : Registry) : list string * string :=
  match pp_TrustedProxies (rg_policy r), rg_configProxies r with
  | _ :: _, _ => (pp_TrustedProxies (rg_policy r), "database"%string)
  | [], _ :: _ => (rg_configProxies r, "config"%string)
  | [], [] => ([], "none"%string)
  end.

Definition rebuildProxyMatcher (r : Registry) : Registry :=
  with_proxies (rg_configProxies r) (newTrustedProxyMatcher (TrustedProxies r).1) r.

Definition SetConfiguredProxies (proxies : list string) (r : Registry) : Registry :=
  rebuildProxyMatcher (with_proxies proxies (rg_proxyMatcher r) r).

Definition SetPolicy (others : Others) (now : Time) (policy : ProtectionPolicy) (r : Registry) : Registry :=
  Refresh others now (rebuildProxyMatcher (with_policy (Normalized policy) r)).

Definition SetPolicyPersister (others : Others) (now : Time) (stored : option ProtectionPolicy) (r : Registry) : Registry :=
  let r := with_persister (Some stored) r in
  match stored with Some p => SetPolicy others now p r | None => r end.

(** [saved] is whether the persister can write; [false] is the error. *)
Definition UpdatePolicy (others : Others) (now : Time) (saved : bool) (policy : ProtectionPolicy) (r : Registry) : bool * Registry :=
  let normalized := Normalized policy in
  match rg_persister r with
  | None => (true, SetPolicy others now normalized r)
  | Some _ =>
      if ! saved then (false, r)
      else (true, SetPolicy others now normalized (with_persister (Some (Some normalized)) r))
  end.

Definition ReloadPolicy (others : Others) (now : Time) (r : Registry) : Registry :=
  match rg_persister r with Some (Some p) => SetPolicy others now p r | _ => r end.

Definition SetProtectedAddresses (localAddresses trustedProxies outboundProxies : list string) (r : Registry) : Registry :=
  with_protected (buildProtectedSet localAddresses trustedProxies outboundProxies) r.

Definition Protected (r : Registry) (ip : option IP) : option ProtectedEntry := protected_match (rg_protected r) ip.

Definition ProxyTrusted (r : Registry) : bool := configured (rg_proxyMatcher r).

(** [None] stands for a nil registry or request. *)
Definition ResolveAddress (r : option Registry) (req : option Request) (resolvedIP : string) : ClientAddress :=
  match r with
  | None => Resolve req resolvedIP false
  | Some r =>
      match req with
      | None => Resolve None resolvedIP (configured (rg_proxyMatcher r))
      | Some req => resolveForwarded req (rg_proxyMatcher r)
      end
  end.

(** ** Admission *)

Definition noteHit (id : string) (r : Registry) : Registry :=
  if String.eqb id "" then r else with_hits (<[id := default 0 (rg_hits r !! id) + 1]> (rg_hits r)) r.

Definition Evaluate (addr : ClientAddress) (r : Registry) : Verdict * Registry :=
  if LocalOperator addr then (MkVerdict DecisionAllow None true "local_operator", r)
  else if ! ca_Trusted addr then (MkVerdict DecisionNeutral None false reasonUntrustedClientIP, r)
  else match Protected r (ca_IP addr) with
  | Some entry => (MkVerdict DecisionAllow None true (protected_reason (pt_Reason entry)), r)
  | None =>
      if ! rg_available r then (MkVerdict DecisionNeutral None false reasonNoStorage, r)
      else
        let '(decision, rule) := Match (rg_matcher r) (ca_IP addr) in
        (MkVerdict decision rule true "", match rule with Some rule => noteHit (ru_ID rule) r | None => r end)
  end.

Definition healthProbePaths : list string := ["/healthz"; "/readyz"; "/readyz/egress"].

(** What is recorded of a refused request: the reason and the network. *)
Definition recordBlocked (addr : ClientAddress) (v : Verdict) : string * string :=
  match vd_Rule v with
  | None => ("lockdown: address not on the allow list"%string, BanCIDR (ca_IP addr))
  | Some rule => (if String.eqb (ru_Reason rule) "" then "deny rule"%string else ru_Reason rule, ru_CIDR rule)
  end.

Inductive Admission :=
| Next (findings : option (ClientAddress * Verdict))
| Forbidden (addr : ClientAddress) (v : Verdict) (recorded : string * string).

(** The handler that runs before all others; [path] and the request of the connection. *)
Definition ipAccessMiddleware (r : option Registry) (path : string) (req : Request) (resolvedIP : string) : Admission * option Registry :=
  match r with
  | None => (Next None, None)
  | Some r =>
      if bool_decide (path ∈ healthProbePaths) then (Next None, Some r)
      else
        let addr := ResolveAddress (Some r) (Some req) resolvedIP in
        let '(v, r) := Evaluate addr r in
        (if Allowed v then Next (Some (addr, v)) else Forbidden addr v (recordBlocked addr v), Some r)
  end.

(** ** Alerts *)

Definition maxTrackedAlertKeys : Z := 4096.

Definition in_cooldown (cooldown : Duration) (now at_ : Time) : bool := time_Sub now at_ <? cooldown.

Definition suppressed (key : string) (cooldown : Duration) (now : Time) (last : gmap string Time) : bool :=
  match last !! key with Some previous => in_cooldown cooldown now previous | None => false end.

(** A full table drops what is outside its cooldown. *)
Definition drop_cooled (cooldown : Duration) (now : Time) (last : gmap string Time) : gmap string Time :=
  if maxTrackedAlertKeys <=? Z.of_nat (size last)
  then filter (λ kv, in_cooldown cooldown now kv.2 = true) last else last.

(** [a.shouldSend], and the table of the last alerts. *)
Definition shouldSend (key : string) (cooldown : Duration) (now : Time) (last : gmap string Time) : bool * gmap string Time :=
  if suppressed key cooldown now last then (false, last)
  else
    let last := drop_cooled cooldown now last in
    if maxTrackedAlertKeys <=? Z.of_nat (size last) then (false, last) else (true, <[key := now]> last).

Definition notifyBan (outcome : AutoBanOutcome) (reason : string) (now : Time) (r : Registry) : Registry :=
  let alert := alert_normalized (pp_Alert (rg_policy r)) in
  if (! bo_Triggered outcome || ! alert_Enabled alert || (! bo_Enforced outcome && ! al_NotifyObserve alert)) then r
  else
    let '(send, last) := shouldSend (bo_CIDR outcome) (wrap64 (al_CooldownMinutes alert * Minute)) now (rg_lastAlert r) in
    let event := MkAlertEvent (if bo_Enforced outcome then "ip_access.auto_ban" else "ip_access.auto_ban_observed")
      (bo_CIDR outcome) (bo_Failures outcome) reason (bo_Enforced outcome)
      (if IsZero (bo_Until outcome) then None else Some (bo_Until outcome)) (al_WebhookURL alert) in
    with_alerts last (if send then rg_sent r ++ [event] else rg_sent r) r.

(** ** The engine *)

Definition no_outcome : AutoBanOutcome := MkBanOutcome false false "" 0 0.

(** The instants at which a call reads the clock. *)
Record Instants := MkInstants { it_now : Time; it_evict : string → Time; it_refresh : Time; it_alert : Time }.

(** [e.charge]: the count of the cluster decides where there is one. *)
Definition charge (site : nat) (it : Instants) (cidr : string) (policy : AutoBanPolicy) (r : Registry)
    : option (Z * Z * bool * Registry) :=
  '(local_, counters) ← chargeLocal site (it_evict it) cidr policy (it_now it) (rg_counters r);
  let '(shared, db) := chargeShared (rg_shared r) (rg_db r) cidr policy (it_now it) in
  Some (default local_ shared, with_counting counters db r).

Definition markBanned (cidr : string) (until now : Time) (r : Registry) : Registry :=
  with_counting (markBannedLocal cidr until now (rg_counters r))
    (markBannedShared (rg_shared r) (rg_db r) cidr until now) r.

(** Whom the engine leaves alone. *)
Definition spared (addr : ClientAddress) (r : Registry) : bool :=
  ! ca_Trusted addr || Loopback addr || bool_decide (ca_IP addr = None) ||
  AllowsAddress (rg_matcher r) (ca_IP addr) || bool_decide (Protected r (ca_IP addr) ≠ None).

(** [None] is a panic. [id] is the UUID of a new rule; [others] write to the table in between. *)
Definition RecordFailure (site : nat) (it : Instants) (others refresh : Others) (id : string) (addr : ClientAddress)
    (reason : string) (r : Registry) : option (AutoBanOutcome * Registry) :=
  let policy := pp_AutoBan (rg_policy r) in
  if String.eqb (ab_Mode policy) AutoBanOff then Some (no_outcome, r)
  else if spared addr r then Some (no_outcome, r)
  else
    let cidr := BanCIDR (ca_IP addr) in
    let now := it_now it in
    '(failures, banCount, alreadyBanned, r) ← charge site it cidr policy r;
    if (alreadyBanned || (failures <? ab_FailureThreshold policy)) then Some (MkBanOutcome false false cidr 0 failures, r)
    else
      let until := time_Add now (BanDuration policy banCount) in
      let outcome := MkBanOutcome true false cidr until failures in
      if ! String.eqb (ab_Mode policy) AutoBanEnforce then
        Some (outcome, notifyBan outcome reason (it_alert it) (markBanned cidr until now r))
      else
        let '(res, rules) := UpsertAutoBan (rg_available r) others (rg_rules r) id cidr reason until in
        let r := with_rules rules r in
        match res with
        | inl _ => Some (outcome, r)
        | inr (rule, _) =>
            if String.eqb (ru_Source rule) SourceManual then Some (outcome, r)
            else
              let outcome := MkBanOutcome true true cidr until failures in
              let r := Refresh refresh (it_refresh it) (markBanned cidr until now r) in
              Some (outcome, notifyBan outcome reason (it_alert it) r)
        end.
End access.

(** ** Who is refused *)

(** A rule with an effect that is in force lists an address. *)
Definition listed (effect : string) (t : list Rule) (now : Time) (ip : IP) : Prop :=
  ∃ rule n, rule ∈ t ∧ Active rule now = true ∧ ru_Effect rule = effect ∧ ParseCIDR (ru_CIDR rule) = Some n ∧ Contains_ip n ip = true.

Lemma matching_listed effect t now ip : matching effect (filter (λ r, Active r now = true) t) now ip ≠ [] ↔ listed effect t now ip.
Proof.
  unfold matching, listed. split.
  - intros H. destruct (omap _ _) as [|c l] eqn:E; [done|].
    assert (Hc : c ∈ c :: l) by left. rewrite <- E in Hc. apply list_elem_of_omap in Hc as (rule & [Ha Hr]%list_elem_of_filter & Hx).
    destruct (ParseCIDR (ru_CIDR rule)) as [n|] eqn:En; cbn [mbind option_bind] in Hx; [|done].
    destruct (Active rule now && String.eqb (ru_Effect rule) effect && Contains_ip n ip) eqn:Eb; [|done].
    apply andb_true_iff in Eb as [[_ He]%andb_true_iff Hc]. apply String.eqb_eq in He. by exists rule, n.
  - intros (rule & n & Hr & Ha & He & Hn & Hc) E.
    assert (H : (nt_ones n, rule) ∈ matching effect (filter (λ r, Active r now = true) t) now ip).
    { apply list_elem_of_omap. exists rule. split; [by apply list_elem_of_filter|]. rewrite Hn. cbn [mbind option_bind].
      by rewrite Ha, He, String.eqb_refl, Hc. }
    unfold matching in H. rewrite E in H. by apply elem_of_nil in H.
Qed.

Lemma stored_filter t now : rules_ok t → Forall stored_rule (filter (λ r, Active r now = true) t).
Proof.
  intros Ht. apply Forall_forall. intros r [_ Hr]%list_elem_of_filter. apply rule_ok_stored.
  by apply (proj1 (Forall_forall _ _) (tb_rules _ Ht)).
Qed.

Lemma Match_listed t lock now ip : rules_ok t →
  let d := (Match (NewMatcher (filter (λ r, Active r now = true) t) lock now) (Some ip)).1 in
  (d = DecisionAllow ↔ listed EffectAllow t now ip) ∧
  (d = DecisionDeny ↔ ¬ listed EffectAllow t now ip ∧ (listed EffectDeny t now ip ∨ lock = true)).
Proof.
  intros Ht. cbv zeta. rewrite (Match_longest _ lock now ip (stored_filter t now Ht)).
  rewrite <- !matching_listed.
  pose proof (longest_of_none (matching EffectAllow (filter (λ r, Active r now = true) t) now ip)) as Ha.
  pose proof (longest_of_none (matching EffectDeny (filter (λ r, Active r now = true) t) now ip)) as Hd.
  destruct (longest_of (matching EffectAllow _ now ip)); cbn [fst]; [naive_solver|].
  destruct (longest_of (matching EffectDeny _ now ip)); cbn [fst]; [naive_solver|].
  destruct lock; naive_solver.
Qed.

Section admission.
Context {K : Keyspace} {RO : RangeOrder}.

Lemma Refresh_loaded others now r t : rg_available r = true → others 0%nat (rg_rules r) = Some t →
  Refresh others now r = with_matcher (NewMatcher (filter (λ r, Active r now = true) t) (pp_Lockdown (rg_policy r)) now) r.
Proof. intros Ha Ho. unfold Refresh, LoadActive. by rewrite Ha, Ho. Qed.

Lemma Evaluate_denied addr r : Allowed (Evaluate addr r).1 = false ↔
  LocalOperator addr = false ∧ ca_Trusted addr = true ∧ Protected r (ca_IP addr) = None ∧ rg_available r = true ∧
  (Match (rg_matcher r) (ca_IP addr)).1 = DecisionDeny.
Proof.
  unfold Evaluate. destruct (LocalOperator addr); [naive_solver|]. destruct (ca_Trusted addr); cbn [negb]; [|naive_solver].
  destruct (Protected r (ca_IP addr)); [naive_solver|]. destruct (rg_available r); cbn [negb]; [|naive_solver].
  destruct (Match (rg_matcher r) (ca_IP addr)) as [d rule]. cbn [fst]. unfold Allowed. cbn [vd_Enforced vd_Decision negb orb].
  rewrite negb_false_iff, bool_decide_eq_true. naive_solver.
Qed.

(** C2: who is refused at the door. After a refresh from the table [t], a request that is no health
    probe is refused exactly when its address is trustworthy, is neither that of the local operator nor
    protected, is on no allow rule in force and is on a deny rule in force - or anywhere, under
    lockdown. In particular a list of rules, however bad, never locks out the operator on the host, and
    is never applied to an address that stands for many clients. *)
Theorem admission_exact r others t now path req resolvedIP :
  rg_available r = true → others 0%nat (rg_rules r) = Some t → rules_ok t → path ∉ healthProbePaths →
  let addr := resolveForwarded req (rg_proxyMatcher r) in
  (∃ v recorded, (ipAccessMiddleware (Some (Refresh others now r)) path req resolvedIP).1 = Forbidden addr v recorded) ↔
    LocalOperator addr = false ∧ ca_Trusted addr = true ∧ Protected r (ca_IP addr) = None ∧
    ∃ ip, ca_IP addr = Some ip ∧ ¬ listed EffectAllow t now ip ∧
      (listed EffectDeny t now ip ∨ pp_Lockdown (rg_policy r) = true).
Proof.
  intros Ha Ho Ht Hp addr. rewrite (Refresh_loaded others now r t Ha Ho). set (r' := with_matcher _ r).
  assert (E : ∀ v recorded, (ipAccessMiddleware (Some r') path req resolvedIP).1 = Forbidden addr v recorded ↔
    Allowed (Evaluate addr r').1 = false ∧ v = (Evaluate addr r').1 ∧ recorded = recordBlocked addr v).
  { intros v recorded. unfold ipAccessMiddleware. rewrite bool_decide_eq_false_2 by done.
    change (ResolveAddress (Some r') (Some req) resolvedIP) with addr. destruct (Evaluate addr r') as [v' r'']. cbn [fst].
    destruct (Allowed v'); naive_solver. }
  assert (Hex : (∃ v recorded, (ipAccessMiddleware (Some r') path req resolvedIP).1 = Forbidden addr v recorded) ↔ Allowed (Evaluate addr r').1 = false).
  { split; [intros (v & recorded & H%E); apply H|]. intros H. do 2 eexists. by apply E. }
  rewrite Hex, Evaluate_denied. change (Protected r' (ca_IP addr)) with (Protected r (ca_IP addr)).
  change (rg_available r') with (rg_available r). change (rg_matcher r') with (NewMatcher (filter (λ r, Active r now = true) t) (pp_Lockdown (rg_policy r)) now).
  destruct (ca_IP addr) as [ip|]; [|cbn [Match fst]; naive_solver].
  destruct (Match_listed t (pp_Lockdown (rg_policy r)) now ip Ht) as [_ ->]. naive_solver.
Qed.

(** ** Who is banned *)

(** The engine never acts on an address that stands for others, on a loopback address, on one that
    an allow rule admits, or on a protected one: a failure from there changes nothing at all. *)
Lemma autoban_spares site it others refresh id addr reason r :
  ca_Trusted addr = false ∨ Loopback addr = true ∨ AllowsAddress (rg_matcher r) (ca_IP addr) = true ∨
    Protected r (ca_IP addr) ≠ None ∨ ab_Mode (pp_AutoBan (rg_policy r)) = AutoBanOff →
  RecordFailure site it others refresh id addr reason r = Some (no_outcome, r).
Proof.
  intros H. unfold RecordFailure. destruct (String.eqb_spec (ab_Mode (pp_AutoBan (rg_policy r))) AutoBanOff) as [|Hne]; [done|].
  assert (Hs : spared addr r = true); [|by rewrite Hs]. unfold spared.
  destruct H as [->|[->|[->|[H|H]]]]; cbn [negb orb]; rewrite ?orb_true_r; [done..| |done].
  rewrite (bool_decide_eq_true_2 _ H). by rewrite !orb_true_r.
Qed.

Lemma charge_rules site it cidr policy r x r' : charge site it cidr policy r = Some (x, r') →
  rg_rules r' = rg_rules r ∧ rg_matcher r' = rg_matcher r ∧ rg_policy r' = rg_policy r ∧ rg_available r' = rg_available r ∧
  rg_protected r' = rg_protected r ∧ rg_proxyMatcher r' = rg_proxyMatcher r.
Proof.
  unfold charge. destruct (chargeLocal _ _ _ _ _ _) as [[[[f b] x'] counters]|]; cbn [mbind option_bind]; [|done].
  destruct (chargeShared _ _ _ _ _) as [shared db]. by intros [= _ <-].
Qed.

Lemma notifyBan_rules outcome reason now r : rg_rules (notifyBan outcome reason now r) = rg_rules r ∧
  rg_matcher (notifyBan outcome reason now r) = rg_matcher r ∧ rg_protected (notifyBan outcome reason now r) = rg_protected r ∧
  rg_available (notifyBan outcome reason now r) = rg_available r.
Proof. unfold notifyBan. cbv zeta. destruct (_ || _); [done|]. by destruct (shouldSend _ _ _ _). Qed.

(** Unless the engine enforces, no failure of anyone ever writes a rule or changes whom requests are
    matched against. *)
Lemma observe_writes_nothing site it others refresh id addr reason r outcome r' :
  ab_Mode (pp_AutoBan (rg_policy r)) ≠ AutoBanEnforce →
  RecordFailure site it others refresh id addr reason r = Some (outcome, r') →
  rg_rules r' = rg_rules r ∧ rg_matcher r' = rg_matcher r ∧ bo_Enforced outcome = false.
Proof.
  intros Hm. unfold RecordFailure. destruct (String.eqb _ AutoBanOff); [by intros [= <- <-]|].
  destruct (spared addr r); [by intros [= <- <-]|].
  destruct (charge _ _ _ _ r) as [[[[f b] banned] r1]|] eqn:Ec; cbn [mbind option_bind]; [|done].
  apply charge_rules in Ec as (E1 & E2 & _). destruct (_ || _); [by intros [= <- <-]|].
  cbv zeta. destruct (String.eqb_spec (ab_Mode (pp_AutoBan (rg_policy r))) AutoBanEnforce); [done|]. cbn [negb]. intros [= <- <-].
  destruct (notifyBan_rules (MkBanOutcome true false (BanCIDR (ca_IP addr)) (time_Add (it_now it) (BanDuration (pp_AutoBan (rg_policy r)) b)) f)
    reason (it_alert it) (markBanned (BanCIDR (ca_IP addr)) (time_Add (it_now it) (BanDuration (pp_AutoBan (rg_policy r)) b)) (it_now it) r1)) as (-> & -> & _).
  by rewrite <- E1, <- E2.
Qed.
End admission.

Section bans.
Context {K : Keyspace} {RO : RangeOrder}.

Lemma spared_false addr r : spared addr r = false →
  ca_Trusted addr = true ∧ Loopback addr = false ∧ Protected r (ca_IP addr) = None.
Proof.
  unfold spared. intros [[[[H1 H2]%orb_false_iff _]%orb_false_iff _]%orb_false_iff H5]%orb_false_iff.
  split; [by destruct (ca_Trusted addr)|]. split; [done|]. apply bool_decide_eq_false in H5.
  destruct (Protected r (ca_IP addr)); [by destruct H5|done].
Qed.

Lemma markBanned_same cidr until now r : rg_rules (markBanned cidr until now r) = rg_rules r ∧
  rg_policy (markBanned cidr until now r) = rg_policy r ∧ rg_protected (markBanned cidr until now r) = rg_protected r ∧
  rg_available (markBanned cidr until now r) = rg_available r.
Proof. done. Qed.

(** The text stored for a ban is that of a network that lists the address. *)
Lemma BanCIDR_lists ip cidr fam : ip_ok ip → NormalizeCIDR (BanCIDR (Some ip)) = inr (cidr, fam) →
  ∃ n, ParseCIDR cidr = Some n ∧ Contains_ip n ip = true.
Proof.
  intros Hip Hn. destruct (BanCIDR_network ip Hip) as (Eb & Hbn & Hcontains). rewrite Eb in Hn.
  apply NormalizeCIDR_network in Hn as (n & En & -> & Hcn). rewrite entered_String in En by done. injection En as <-.
  exists (canonical (ban_network ip)). split; [by apply ParseCIDR_String|]. by rewrite canonical_Contains.
Qed.

(** A refresh that fails keeps the snapshot, one that succeeds reads the table into it. *)
Lemma Refresh_cases others now r : rg_available r = true →
  (others 0%nat (rg_rules r) = None ∧ Refresh others now r = r) ∨
  ∃ t, others 0%nat (rg_rules r) = Some t ∧
    Refresh others now r = with_matcher (NewMatcher (filter (λ r, Active r now = true) t) (pp_Lockdown (rg_policy r)) now) r.
Proof.
  intros Ha. destruct (others 0%nat (rg_rules r)) as [t|] eqn:E.
  - right. exists t. split; [done|]. by apply Refresh_loaded.
  - left. split; [done|]. unfold Refresh, LoadActive. by rewrite Ha, E.
Qed.

Lemma Refresh_kept others now r : rg_rules (Refresh others now r) = rg_rules r ∧
  rg_protected (Refresh others now r) = rg_protected r ∧ rg_available (Refresh others now r) = rg_available r.
Proof. unfold Refresh. destruct (rg_available r) eqn:E; cbn [negb]; [|done]. by destruct (LoadActive _ _ _ _). Qed.

(** The table of a registry bans the address, and nobody else is let to admit it. *)
Record banned_in_table (ip : IP) (cidr : string) (until : Time) (r : Registry) : Prop := {
  bt_available : rg_available r = true;
  bt_rules : rules_ok (rg_rules r);
  bt_allow : no_allow ip (rg_rules r);
  bt_ban : ∃ rule, rule ∈ rg_rules r ∧ bans cidr until rule;
  bt_lists : ∃ n, ParseCIDR cidr = Some n ∧ Contains_ip n ip = true
}.

Lemma snapshot_denies ip cidr until others now lock r t : banned_in_table ip cidr until r → leaves_ban cidr until ip others →
  others 0%nat (rg_rules r) = Some t → now < until →
  (Match (NewMatcher (filter (λ r, Active r now = true) t) lock now) (Some ip)).1 = DecisionDeny.
Proof.
  intros [_ Hok Hna (rule & Hr & Hb) (n & En & Hn)] [Hwb Hk _ Hw] E Hnow.
  apply Match_listed; [by eapply Hwb|]. split.
  - intros (r' & n' & Hr' & _ & He & Hp & Hc). rewrite (Hw _ _ _ E Hna r' n') in Hc; done.
  - left. destruct (Hk _ _ _ _ E Hr (conj (proj1 Hb) (proj1 (proj2 Hb)))) as (r' & Hr' & _ & _ & Hb').
    destruct (Hb' Hb) as (He & Hc & Hen & Hex). exists r', n. rewrite Hc. split_and!; try done.
    unfold Active. rewrite Hen. destruct (ru_ExpiresAt r') as [e|]; [|done]. apply Z.ltb_lt. lia.
Qed.

(** Refreshes, each with whoever writes before it and its instant. *)
Definition refreshes (l : list (Others * Time)) (r : Registry) : Registry := foldl (λ r o, Refresh o.1 o.2 r) r l.

Lemma refreshes_deny ip cidr until l r : banned_in_table ip cidr until r →
  Forall (λ o, leaves_ban cidr until ip o.1 ∧ o.2 < until) l →
  (Match (rg_matcher r) (Some ip)).1 = DecisionDeny ∨ Exists (λ o, o.1 0%nat (rg_rules r) ≠ None) l →
  banned_in_table ip cidr until (refreshes l r) ∧ rg_protected (refreshes l r) = rg_protected r ∧
  (Match (rg_matcher (refreshes l r)) (Some ip)).1 = DecisionDeny.
Proof.
  intros Hb Hl Hd. revert r Hb Hd. induction Hl as [|[others now] l (Hlb & Hnow) _ IH]; intros r Hb Hd.
  - destruct Hd as [Hd|Hd]; [by split_and!|by apply Exists_nil in Hd].
  - cbn [refreshes foldl fst snd] in *. destruct (Refresh_kept others now r) as (K1 & K2 & K3). rewrite <- K2. apply IH.
    + destruct Hb as [B1 B2 B3 B4 B5]. split; by rewrite ?K1, ?K3.
    + destruct (Refresh_cases others now r (bt_available _ _ _ _ Hb)) as [(En & ->)|(t & Et & ->)].
      * destruct Hd as [Hd|[He|He]%Exists_cons]; [by left|done|by right].
      * left. by eapply snapshot_denies.
Qed.

(** What a call that reports an enforced ban has done: it wrote the ban, and tried to refresh. *)
Lemma RecordFailure_enforced site it others refresh id addr reason r outcome r' ip cidr fam :
  rules_ok (rg_rules r) → no_allow ip (rg_rules r) → ca_IP addr = Some ip → ip_ok ip →
  NormalizeCIDR (BanCIDR (Some ip)) = inr (cidr, fam) → leaves_ban cidr (bo_Until outcome) ip others →
  RecordFailure site it others refresh id addr reason r = Some (outcome, r') → bo_Enforced outcome = true →
  ∃ r1, banned_in_table ip cidr (bo_Until outcome) r1 ∧ Protected r1 (Some ip) = None ∧
    r' = notifyBan outcome reason (it_alert it) (Refresh refresh (it_refresh it) r1).
Proof.
  intros Hok Hna Hip Hipok Hn Hl HR Henf. revert HR. unfold RecordFailure.
  destruct (String.eqb _ AutoBanOff); [by intros [= <- _]|].
  destruct (spared addr r) eqn:Es; [by intros [= <- _]|]. apply spared_false in Es as (_ & _ & Hprot).
  destruct (charge _ _ _ _ r) as [[[[f b] banned] r1]|] eqn:Ec; cbn [mbind option_bind]; [|done].
  apply charge_rules in Ec as (E1 & _ & _ & E4 & E5 & _). destruct (_ || _); [by intros [= <- _]|]. cbv zeta.
  destruct (String.eqb _ AutoBanEnforce); cbn [negb]; [|by intros [= <- _]].
  set (until := time_Add _ _).
  destruct (UpsertAutoBan _ _ _ _ _ _ until) as [res t'] eqn:Eu.
  destruct res as [e|[rule created]]; [by intros [= <- _]|].
  destruct (String.eqb_spec (ru_Source rule) SourceManual) as [|Hm]; [by intros [= <- _]|].
  intros [= <- <-]. cbn [bo_Until] in *. rewrite <- E1 in Hok, Hna. rewrite Hip in Eu, Hprot.
  pose proof (UpsertAutoBan_ok (rg_available r1) others (rg_rules r1) id (BanCIDR (Some ip)) reason until (lb_ok _ _ _ _ Hl) Hok) as Hok'.
  rewrite Eu in Hok'. eapply UpsertAutoBan_bans in Eu as (Ha & Hna' & Hban); [|done..].
  exists (markBanned (BanCIDR (ca_IP addr)) until (it_now it) (with_rules t' r1)).
  split; [|split; [|done]].
  - split; [done..|]. by apply BanCIDR_lists in Hn.
  - unfold Protected in *. cbn. by rewrite E5.
Qed.

(** C14: a ban takes effect at the first refresh and stays in effect until it ends. When a failure is
    answered with an enforced ban of an address that no allow rule lists, then after any refreshes before
    the end of the ban - the call's own first, each of which may fail - every request that trustworthily
    comes from the address is refused as soon as one of them has read the table, unless others lift the ban or allow the
    address in the meantime; whatever else they write to the table, and when. *)
Theorem ban_takes_effect site it others refresh later id addr addr' reason r outcome r' ip cidr fam :
  rules_ok (rg_rules r) → no_allow ip (rg_rules r) → ca_IP addr = Some ip → ip_ok ip →
  NormalizeCIDR (BanCIDR (Some ip)) = inr (cidr, fam) → leaves_ban cidr (bo_Until outcome) ip others →
  RecordFailure site it others refresh id addr reason r = Some (outcome, r') → bo_Enforced outcome = true →
  Forall (λ o, leaves_ban cidr (bo_Until outcome) ip o.1 ∧ o.2 < bo_Until outcome) ((refresh, it_refresh it) :: later) →
  Exists (λ o, o.1 0%nat (rg_rules r') ≠ None) ((refresh, it_refresh it) :: later) →
  ca_IP addr' = Some ip → ca_Trusted addr' = true → LocalOperator addr' = false →
  Allowed (Evaluate addr' (refreshes later r')).1 = false.
Proof.
  intros Hok Hna Hip Hipok Hn Hl HR Henf Hall Hread Hip' Htr Hlo.
  destruct (RecordFailure_enforced _ _ _ _ _ _ _ _ _ _ _ _ _ Hok Hna Hip Hipok Hn Hl HR Henf) as (r1 & Hb & Hp & ->).
  destruct (notifyBan_rules outcome reason (it_alert it) (Refresh refresh (it_refresh it) r1)) as (N1 & N2 & N3 & N4).
  destruct (Refresh_kept refresh (it_refresh it) r1) as (K1 & K2 & K3). rewrite N1, K1 in Hread.
  apply Forall_cons in Hall as (Hown & Hlater). set (r2 := notifyBan _ _ _ _) in *.
  destruct (refreshes_deny ip cidr (bo_Until outcome) later r2) as (H1 & H2 & H3).
  - destruct Hb as [B1 B2 B3 B4 B5]. split; by rewrite ?N1, ?K1, ?N4, ?K3.
  - done.
  - rewrite N1, K1, N2. destruct (Refresh_cases refresh (it_refresh it) r1 (bt_available _ _ _ _ Hb)) as [(En & _)|(t & Et & ->)].
    + apply Exists_cons in Hread as [He|He]; [done|by right].
    + left. destruct Hown. by eapply snapshot_denies.
  - apply Evaluate_denied. rewrite Hip'. split_and!; [done..| |apply H1|done].
    unfold Protected in *. by rewrite H2, N3, K2.
Qed.
End bans.

(** ** Alerts *)

Lemma drop_cooled_size cooldown now last : (size (drop_cooled cooldown now last) ≤ size last)%nat.
Proof. unfold drop_cooled. destruct (_ <=? _); [|done]. apply map_subseteq_size, map_filter_subseteq. Qed.

Lemma shouldSend_bounded key cooldown now last : Z.of_nat (size last) ≤ maxTrackedAlertKeys →
  Z.of_nat (size (shouldSend key cooldown now last).2) ≤ maxTrackedAlertKeys.
Proof.
  intros Hs. unfold shouldSend. destruct (suppressed key cooldown now last); [done|]. cbv zeta.
  pose proof (drop_cooled_size cooldown now last).
  destruct (Z.leb_spec maxTrackedAlertKeys (Z.of_nat (size (drop_cooled cooldown now last)))); cbn [snd]; [lia|].
  pose proof (size_insert_le (drop_cooled cooldown now last) key now). lia.
Qed.

(** Between an alert and the end of its cooldown nothing makes the table forget it. *)
Lemma shouldSend_remembers key cooldown now last k t : last !! k = Some t → time_Sub now t < cooldown →
  (shouldSend key cooldown now last).2 !! k = Some t.
Proof.
  intros Hk Hq. unfold shouldSend. destruct (suppressed key cooldown now last) eqn:E; [done|]. cbv zeta.
  assert (H' : drop_cooled cooldown now last !! k = Some t).
  { unfold drop_cooled. destruct (_ <=? _); [|done]. apply map_lookup_filter_Some. split; [done|]. by apply Z.ltb_lt. }
  destruct (_ <=? _); [done|]. cbn [snd]. destruct (decide (k = key)) as [->|Hne]; [|by rewrite lookup_insert_ne].
  unfold suppressed, in_cooldown in E. rewrite Hk in E. apply Z.ltb_ge in E. lia.
Qed.

(** Whatever other bans are reported in between, a source is not reported twice within the cooldown,
    and the table of reported sources never has more than 4096 entries. *)
Lemma one_alert_per_cooldown cooldown last key now between now' :
  Z.of_nat (size last) ≤ maxTrackedAlertKeys → (shouldSend key cooldown now last).1 = true →
  (∀ c, c ∈ between → time_Sub c.2 now < cooldown) → time_Sub now' now < cooldown →
  let after := foldl (λ m c, (shouldSend c.1 cooldown c.2 m).2) (shouldSend key cooldown now last).2 between in
  (shouldSend key cooldown now' after).1 = false ∧ Z.of_nat (size after) ≤ maxTrackedAlertKeys.
Proof.
  intros Hsize Hsent Hb Hn.
  assert (Hk : (shouldSend key cooldown now last).2 !! key = Some now).
  { revert Hsent. unfold shouldSend. destruct (suppressed key cooldown now last); [done|]. cbv zeta.
    destruct (_ <=? _); [done|]. intros _. apply lookup_insert_eq. }
  pose proof (shouldSend_bounded key cooldown now last Hsize) as Hs. revert Hk Hs.
  generalize ((shouldSend key cooldown now last).2). induction between as [|c between IH]; intros m Hk Hs; cbn [foldl].
  - split; [|done]. unfold shouldSend, suppressed, in_cooldown. rewrite Hk. by rewrite (proj2 (Z.ltb_lt _ _) Hn).
  - apply IH; [intros c' Hc'; apply Hb; by right|apply shouldSend_remembers; [done|apply Hb; left]|by apply shouldSend_bounded].
Qed.

Lemma one_alert_per_cooldown_witness :
  (shouldSend "a" Minute 30 (foldl (λ m c, (shouldSend c.1 Minute c.2 m).2) (shouldSend "a" Minute 10 ∅).2 [("b"%string, 20)])).1 = false ∧
  Z.of_nat (size (foldl (λ m c, (shouldSend c.1 Minute c.2 m).2) (shouldSend "a" Minute 10 ∅).2 [("b"%string, 20)])) ≤ maxTrackedAlertKeys.
Proof.
  apply (one_alert_per_cooldown Minute ∅ "a" 10 [("b"%string, 20)] 30); [by vm_compute|by vm_compute| |by vm_compute].
  intros c ->%list_elem_of_singleton. by vm_compute.
Defined.

(** ** Concrete registries *)

Definition office_and_bot : list Rule :=
  [MkRule "1" "198.51.100.0/24" 4 EffectDeny SourceManual "abuse" true None;
   MkRule "2" "198.51.100.7/32" 4 EffectAllow SourceManual "office" true None].

Lemma office_and_bot_ok : rules_ok office_and_bot.
Proof.
  split; [by_decision|by_decision|].
  constructor; [|constructor; [|constructor]].
  - exists (MkNet (From4 3325256704) 32 24). split; [vm_compute; reflexivity|]. split; [by split|reflexivity|by split|vm_compute; reflexivity].
  - exists (MkNet (From4 3325256711) 32 32). split; [vm_compute; reflexivity|]. split; [by split|reflexivity|by split|vm_compute; reflexivity].
Qed.

Definition start (mode : string) (rules : list Rule) : Registry (K := list_keyspace) :=
  with_policy (K := list_keyspace) (MkProtection false (MkAutoBan mode 600 1 60 1440) (MkKnobs 0 0 0 0 0) [] (MkAlert "" false 30) 30)
    (NewRegistry (K := list_keyspace) true rules false (db_empty (Keyspace := list_keyspace)) (time_Unix 1000)).

Definition from_text (ip : string) : ClientAddress := MkAddress ip true [] (ParseIP ip) ip true "".

Definition at_second (n : Z) : Instants := MkInstants (time_Unix n) (λ _, time_Unix n) (time_Unix n) (time_Unix n).

Lemma admission_exact_witness :
  ∃ v recorded, (ipAccessMiddleware (K := list_keyspace) (Some (Refresh (K := list_keyspace) nobody_else (time_Unix 1000) (start "observe" office_and_bot)))
    "/v1/models" (MkRequest "198.51.100.9:4711" ∅) "").1 =
    Forbidden (resolveForwarded (MkRequest "198.51.100.9:4711" ∅) []) v recorded.
Proof.
  apply (admission_exact (K := list_keyspace) (start "observe" office_and_bot) nobody_else office_and_bot (time_Unix 1000) "/v1/models"
    (MkRequest "198.51.100.9:4711" ∅) ""); [reflexivity|reflexivity|exact office_and_bot_ok|by_decision|].
  split; [vm_compute; reflexivity|]. split; [vm_compute; reflexivity|]. split; [vm_compute; reflexivity|].
  exists (From4 3325256713). split; [vm_compute; reflexivity|]. rewrite <- !matching_listed. split; [|left; vm_compute; discriminate].
  intros H. apply H. vm_compute. reflexivity.
Defined.

Lemma autoban_spares_witness : RecordFailure (K := list_keyspace) (RO := listing_order) 0 (at_second 1000) nobody_else nobody_else "3"
  (from_text "127.0.0.1") "login" (start "enforce" []) = Some (no_outcome, start "enforce" []).
Proof. apply (autoban_spares (K := list_keyspace) (RO := listing_order)). right. left. vm_compute. reflexivity. Defined.

Definition failed (mode : string) : option (AutoBanOutcome * Registry (K := list_keyspace)) :=
  RecordFailure (K := list_keyspace) (RO := listing_order) 0 (at_second 1000) nobody_else nobody_else "3"
    (from_text "203.0.113.7") "login" (start mode []).

Definition outcome_of (mode : string) : AutoBanOutcome := default no_outcome (fst <$> failed mode).
Definition state_of (mode : string) : Registry (K := list_keyspace) := default (start mode []) (snd <$> failed mode).

Lemma observe_writes_nothing_witness :
  rg_rules (state_of "observe") = [] ∧ rg_matcher (state_of "observe") = rg_matcher (start "observe" []) ∧
  bo_Enforced (outcome_of "observe") = false.
Proof.
  apply (observe_writes_nothing (K := list_keyspace) (RO := listing_order) 0 (at_second 1000) nobody_else nobody_else "3"
    (from_text "203.0.113.7") "login" (start "observe" []) (outcome_of "observe") (state_of "observe")).
  - vm_compute. discriminate.
  - vm_compute. reflexivity.
Defined.

(** A database that does not answer. *)
Definition unreachable : Others := λ _ _, None.

Lemma nobody_leaves_ban cidr until ip : leaves_ban cidr until ip nobody_else.
Proof.
  split; intros k t t'; [intros [= <-]; exact (λ H, H)|intros r [= <-]; eauto|intros r [= <-]; eauto|intros [= <-]; exact (λ H, H)].
Qed.

Lemma unreachable_leaves_ban cidr until ip : leaves_ban cidr until ip unreachable.
Proof. by split. Qed.

(** The ban is written, the refresh of the call fails and the next one reads it. *)
Definition banned_unread : option (AutoBanOutcome * Registry (K := list_keyspace)) :=
  RecordFailure (K := list_keyspace) (RO := listing_order) 0 (at_second 1000) nobody_else unreachable "3"
    (from_text "203.0.113.7") "login" (start "enforce" []).

Lemma ban_takes_effect_witness :
  Allowed (Evaluate (from_text "203.0.113.7") (refreshes [(unreachable, time_Unix 1010); (nobody_else, time_Unix 1030)]
    (default (start "enforce" []) (snd <$> banned_unread)))).1 = false.
Proof.
  apply (ban_takes_effect (K := list_keyspace) (RO := listing_order) 0 (at_second 1000) nobody_else unreachable
    [(unreachable, time_Unix 1010); (nobody_else, time_Unix 1030)] "3" (from_text "203.0.113.7") (from_text "203.0.113.7")
    "login" (start "enforce" []) (default no_outcome (fst <$> banned_unread)) (default (start "enforce" []) (snd <$> banned_unread))
    (From4 3405803783) "203.0.113.7/32" 4).
  - split; [constructor|constructor|constructor].
  - intros r n Hr. by apply elem_of_nil in Hr.
  - vm_compute. reflexivity.
  - by split.
  - vm_compute. reflexivity.
  - apply nobody_leaves_ban.
  - vm_compute. reflexivity.
  - vm_compute. reflexivity.
  - constructor; [|constructor; [|constructor; [|constructor]]]; (split; [first [apply nobody_leaves_ban|apply unreachable_leaves_ban]|vm_compute; reflexivity]).
  - apply Exists_exists. exists (nobody_else, time_Unix 1030). split; [do 2 right; left|]; discriminate.
  - vm_compute. reflexivity.
  - vm_compute. reflexivity.
  - vm_compute. reflexivity.
Defined.

(** ** What a snapshot forgets *)

(** A rule is only asked whether it is in force when the snapshot is made: one that has lapsed since is
    applied until the next refresh. *)
Lemma lapsed_rule_enforced :
  let rule := MkRule "1" "198.51.100.0/24" 4 EffectDeny SourceAuto "login" true (Some 20) in
  let r := Refresh (K := list_keyspace) nobody_else 10 (start "enforce" [rule]) in
  Active rule 20 = false ∧ Allowed (Evaluate (from_text "198.51.100.9") r).1 = false.
Proof. split; vm_compute; reflexivity. Qed.
