(* ===== verification/ThrottleCluster.v ===== *)
(** * The login throttle of a cluster

    Models [src/internal/api/handlers/management/login_throttle_cluster.go], and
    [evaluate], [recordFailure] and [recordSuccess] of [login_throttle.go], which ask
    the node's own table ([ThrottleTable]) and the shared one ([ThrottleShared]).

    The second part: the store holds a log, and reads policies as a node does.
    [ClusterThrottleStore] is the store of the package [sharedstate]; a store that is not
    installed or not available, and a failing call, are [None]. *)
From S2P Require Import Prelude GoModel Redis SharedState ThrottlePolicy FailureLog Throttle ThrottleTable ThrottleShared.
From Stdlib Require Import Ascii.

(** ** What the store is given and what its answer means *)

Definition sharedSpec (t : loginThrottle) (key : throttleKey) : ThrottleSpec :=
  let policy := policyFor (lt_policies t) key in
  MkSpec (MkSharedWindow (tw_Limit (tp_Short policy)) (tw_Window (tp_Short policy)) (Z.of_nat throttleShortSlotCount))
    (MkSharedWindow (tw_Limit (tp_Long policy)) (tw_Window (tp_Long policy)) (Z.of_nat throttleLongSlotCount))
    (tp_Backoff policy) (tp_ResetAfter policy) (idleRetention t).

Definition sharedDecision (t : loginThrottle) (key : throttleKey) (st : ThrottleState) : throttleDecision :=
  MkDecision (if st_Blocked st then blockOutcome (policyFor (lt_policies t) key) else outcomeAllow)
    (if st_Blocked st then st_RetryAfter st else 0) (tk_Scope key) (st_Generation st) (st_ShortCount st)
    (st_LongCount st) (st_NewlyArmed st).

Section cluster.
Context {RO : RangeOrder} {K : Keyspace} {D : Digest}.

(** [store]: whether one is installed and available. *)
Definition sharedEvaluate (store : bool) (db : DB) (t : loginThrottle) (key : throttleKey) (now : Time)
    : option throttleDecision :=
  sharedDecision t key <$> ThrottlePeek store db (bucketID key) (sharedSpec t key) now.

Definition sharedCharge (store : bool) (db : DB) (t : loginThrottle) (key : throttleKey) (now : Time)
    : option throttleDecision * DB :=
  let '(st, db) := ThrottleCharge store db (bucketID key) (sharedSpec t key) now in
  (sharedDecision t key <$> st, db).

Definition is_allow (d : throttleDecision) : bool := bool_decide (td_Outcome d = outcomeAllow).

Definition evaluate (store : bool) (db : DB) (t : loginThrottle) (key : throttleKey) (now : Time)
    : throttleDecision :=
  let local := evaluateLocal t key now in
  if ! is_allow local then local
  else default local (sharedEvaluate store db t key now).

(** The node's table is charged first; [None] is its panic. *)
Definition recordFailure (store : bool) (site : nat) (db : DB) (t : loginThrottle) (key : throttleKey) (now : Time)
    : option (throttleDecision * loginThrottle * DB) :=
  '(local, t') ← recordFailureLocal site t key now;
  let '(shared, db') := sharedCharge store db t' key now in
  Some (default local shared, t', db').

(** *** Clearing after a success *)

Definition sharedClearInterval : Duration := 30 * Second.
Definition sharedClearSweepEvery : Z := 1024.

(** [sharedClears] and [sharedClearWrites]. *)
Record Clears := MkClears { cs_last : gmap string Time; cs_writes : Z }.

(** [sharedClears.Store], the count of writes and the sweep it triggers. *)
Definition claim_clear (c : Clears) (bucket : string) (now : Time) : bool * Clears :=
  let last := <[bucket := now]> (cs_last c) in
  let writes := wrap64 (cs_writes c + 1) in
  (true, MkClears (if Z.rem writes sharedClearSweepEvery =? 0
                   then filter (λ kv, time_Sub now kv.2 < sharedClearInterval) last else last) writes).

Definition claimSharedClear (c : Clears) (bucket : string) (now : Time) : bool * Clears :=
  match cs_last c !! bucket with
  | Some last =>
      if time_Sub now last <? sharedClearInterval then (false, c)
      else claim_clear c bucket now
  | None => claim_clear c bucket now
  end.

(** [sharedClear] up to the goroutine: whether it is started, and what it claimed. *)
Definition sharedClear (store : bool) (c : Clears) (key : throttleKey) (now : Time) : bool * Clears :=
  if ! store then (false, c)
  else if bool_decide (tk_Scope key = scopeManagementKey) then claimSharedClear c (bucketID key) now
  else (true, c).

(** The goroutine: the claim is given up where the call fails. *)
Definition clear_call (available : bool) (db : DB) (c : Clears) (key : throttleKey) (now : Time) : DB * Clears :=
  (ThrottleClear available db (bucketID key) now,
   if available then c else MkClears (delete (bucketID key) (cs_last c)) (cs_writes c)).

(** [recordSuccess] without the goroutine it starts. *)
Definition recordSuccess (store : bool) (c : Clears) (t : loginThrottle) (key : throttleKey) (now : Time)
    : bool * Clears * loginThrottle :=
  (sharedClear store c key now, recordSuccessLocal t key).

End cluster.

(** ** One node and the cluster decide alike *)

(** A duration, and an instant, of whole milliseconds. *)
Definition whole (d : Duration) : Prop := d = Millisecond * milliseconds d.
Definition whole_time (t : Time) : Prop := ticks t = Millisecond * unix_milli t.

Definition whole_window (w : throttleWindow) (n : nat) : Prop :=
  whole (slotDuration w (Z.of_nat n)) ∧ (tw_Window w ≤ 0 ∨ 0 < slotDuration w (Z.of_nat n)).

(** The script counts milliseconds; this is what makes a policy mean the same there. *)
Record whole_policy (p : throttlePolicy) : Prop := {
  wp_short : whole_window (tp_Short p) throttleShortSlotCount;
  wp_long : whole_window (tp_Long p) throttleLongSlotCount;
  wp_ladder : Forall whole (tp_Backoff p);
  wp_reset : whole (tp_ResetAfter p)
}.

Lemma whole_lua prefix w n : (0 < n)%nat → whole_window w n →
  log_window w n ≡ scale_window Millisecond (log_lua (lua_window prefix (MkSharedWindow (tw_Limit w) (tw_Window w) (Z.of_nat n)))).
Proof.
  intros Hn [Hw Hp]. unfold log_window, scale_window, log_lua, lua_window, slotWidth.
  cbn [lw_limit lw_width lw_slots fw_limit fw_width fw_slots hw_Limit hw_Window hw_Slots].
  unfold whole in Hw. split; [done|]. cbn [fw_limit fw_width fw_slots].
  destruct (Z.leb_spec (tw_Limit w) 0) as [Hl|Hl]; cbn [orb].
  { right. unfold enabled. cbn [fw_limit]. by rewrite (proj2 (Z.ltb_ge _ _)) by lia. }
  left. f_equal. unfold slotDuration in *. rewrite (proj2 (Z.leb_gt (Z.of_nat n) 0)) in * by lia.
  rewrite !orb_false_r in *.
  destruct (Z.leb_spec (tw_Window w) 0) as [Hz|Hz]; [done|]. destruct Hp as [?|Hp]; [lia|].
  assert (Millisecond <= Z.quot (tw_Window w) (Z.of_nat n)).
  { unfold Millisecond in *. set (q := Z.quot (tw_Window w) (Z.of_nat n)) in *. lia. }
  by rewrite (proj2 (Z.ltb_ge _ _)) by done.
Qed.

Lemma whole_policy_equiv t key : whole_policy (policyFor (lt_policies t) key) →
  log_policy (policyFor (lt_policies t) key) ≡ scale_policy Millisecond (log_args (script_args (sharedSpec t key))).
Proof.
  intros [H1 H2 H3 H4]. split; [by apply whole_lua; [apply Nat.lt_0_succ|]|].
  split; [by apply whole_lua; [apply Nat.lt_0_succ|]|]. split; [|exact H4].
  cbn [log_policy fp_ladder scale_policy log_args script_args sharedSpec ar_ladder ts_Backoff].
  rewrite <- list_fmap_compose. induction H3 as [|d ds Hd _ IH]; [done|]. rewrite fmap_cons, <- IH. by f_equal.
Qed.

Lemma whole_time_modern t : whole_time t → modern t → 0 < unix_milli t < two63.
Proof. unfold whole_time, modern, Millisecond, two63. lia. Qed.

Lemma standing_shared t key r : (if rp_blocked r then in_int64 (Millisecond * rp_retry r) else rp_retry r = 0) →
  standing (policyFor (lt_policies t) key) (tk_Scope key) (scale_reply Millisecond r) =
    sharedDecision t key (decode_state r).
Proof.
  intros H. unfold standing, sharedDecision, decode_state, scale_reply.
  cbn [rp_blocked rp_retry rp_generation rp_short rp_long rp_armed st_Blocked st_RetryAfter st_Generation
    st_ShortCount st_LongCount st_NewlyArmed].
  destruct (rp_blocked r); [|by rewrite H]. by rewrite (Z.mul_comm (rp_retry r)), wrap64_id.
Qed.

Lemma sharedSpec_args t key : args_ok (script_args (sharedSpec t key)).
Proof. by split. Qed.

Lemma sharedSpec_retention t key p : lt_policies t !! tk_Scope key = Some p →
  whole (tp_ResetAfter p) → 0 < tp_ResetAfter p →
  0 < ar_resetAfter (script_args (sharedSpec t key)) ≤ ar_retention (script_args (sharedSpec t key)).
Proof.
  intros Hp Hw Hr. cbn [script_args sharedSpec ar_resetAfter ar_retention ts_ResetAfter ts_Retention].
  rewrite (policyFor_reset _ _ _ Hp). pose proof (idleRetention_ge _ _ _ Hp).
  unfold whole, milliseconds, Millisecond in *. split; [lia|]. apply Z.quot_le_mono; lia.
Qed.

Section agree.
Context {RO : RangeOrder} {K : Keyspace} {D : Digest}.

(** The bucket in the database. *)
Definition stored_bucket (db : DB) (t : loginThrottle) (key : throttleKey) (l : log) (now : Z) : Prop :=
  stored (script_args (sharedSpec t key)) (bucket_key (bucketID key)) db l now.

Lemma sharedCharge_log db t key p l u now : lt_policies t !! tk_Scope key = Some p →
  whole (tp_ResetAfter p) → 0 < tp_ResetAfter p →
  stored_bucket db t key l u → u ≤ unix_milli now → 0 < unix_milli now < two63 →
  let out := charge (log_args (script_args (sharedSpec t key))) l (unix_milli now) in
  ∃ db', sharedCharge true db t key now = (Some (sharedDecision t key (decode_state out.1)), db') ∧
    stored_bucket db' t key out.2 (unix_milli now).
Proof.
  intros Hp Hw Hr Hs Hu Hn out.
  destruct (script_refines_log _ _ (sharedSpec_args t key) (sharedSpec_retention t key p Hp Hw Hr) db l u (unix_milli now) Hs Hu Hn)
    as [(db' & E & Hs') _].
  exists db'. split; [|exact Hs']. unfold sharedCharge, ThrottleCharge. cbn [negb]. by rewrite E.
Qed.

End agree.
