(* ===== verification/ThrottleTrace.v ===== *)
(** * Any sequence of calls on one bucket

    The contract of a bucket as a whole: failures, standings and successes in any order
    answer what the log of [FailureLog] answers. [node_refines_log] is that for the table
    of a node ([recordFailureLocal], [evaluateLocal] and [recordSuccessLocal] of
    [login_throttle.go]), [cluster_refines_log] for the shared store (the three calls of
    [sharedstate/throttle.go]). [shared_throttle_agrees]: the two take the same decisions;
    both are one log, read in nanoseconds and in milliseconds. [cluster_guess_budget]: the
    guesses that all nodes compare together are bounded as those of one. *)
From S2P Require Import Prelude GoModel Redis SharedState ThrottlePolicy FailureLog Throttle ThrottleTable ThrottleShared ThrottleCluster.
From Stdlib Require Import Ascii.

Inductive bucket_op := OpFailure | OpStanding | OpSuccess.

(** What the log answers; a success has no answer. *)
Fixpoint log_run (p : Policy) (l : log) (ops : list (bucket_op * Z)) : list Reply :=
  match ops with
  | [] => []
  | (OpFailure, now) :: ops => let '(r, l) := charge p l now in r :: log_run p l ops
  | (OpStanding, now) :: ops => peek p l now :: log_run p l ops
  | (OpSuccess, _) :: ops => log_run p empty_log ops
  end.

Section traces.
Context {RO : RangeOrder} {K : Keyspace} {D : Digest}.

(** The decisions of the node; [None] is a panic. *)
Fixpoint node_run (site : nat) (t : loginThrottle) (key : throttleKey) (ops : list (bucket_op * Time))
    : option (list throttleDecision) :=
  match ops with
  | [] => Some []
  | (OpFailure, now) :: ops =>
      '(d, t) ← recordFailureLocal site t key now;
      rest ← node_run (S site) t key ops;
      Some (d :: rest)
  | (OpStanding, now) :: ops =>
      rest ← node_run (S site) t key ops;
      Some (evaluateLocal t key now :: rest)
  | (OpSuccess, _) :: ops => node_run (S site) (recordSuccessLocal t key) key ops
  end.

(** The decisions of the store; [None] is a failing call. *)
Fixpoint cluster_run (db : DB) (t : loginThrottle) (key : throttleKey) (ops : list (bucket_op * Time))
    : option (list throttleDecision) :=
  match ops with
  | [] => Some []
  | (OpFailure, now) :: ops =>
      let '(d, db) := sharedCharge true db t key now in
      d ← d;
      rest ← cluster_run db t key ops;
      Some (d :: rest)
  | (OpStanding, now) :: ops =>
      d ← sharedEvaluate true db t key now;
      rest ← cluster_run db t key ops;
      Some (d :: rest)
  | (OpSuccess, now) :: ops => cluster_run (ThrottleClear true db (bucketID key) now) t key ops
  end.

(** ** One node *)

Definition entry_of (t : loginThrottle) (key : throttleKey) : throttleEntry := default new_entry (entry_at t key).

(** The table holds the log. *)
Record bucket_log (t : loginThrottle) (key : throttleKey) (p : throttlePolicy) (l : log) (u : Z) : Prop := {
  bl_table : table_ok t;
  bl_policy : policyFor (lt_policies t) key = p;
  bl_entry : entry_log p (entry_of t key) l;
  bl_log : log_ok l u
}.

Lemma evaluate_log t key p l u now : bucket_log t key p l u → u ≤ ticks now → modern now →
  evaluateLocal t key now = standing p (tk_Scope key) (peek (log_policy p) l (ticks now)).
Proof.
  intros [Ht Hp He Hl] Hu Hm. pose proof (log_ok_later l u (ticks now) Hl Hu) as Hl'.
  pose proof (blocked_log p _ l now He Hm) as Hb.
  unfold evaluateLocal, peek. rewrite <- Hb. unfold entry_of in *.
  destruct (entry_at t key) as [e|]; cbn [default from_option id] in *.
  - destruct (After (te_blockedUntil e) now) eqn:E; [|done]. rewrite Hp.
    apply blocked_decision_log; [done..|]. by rewrite <- Hb.
  - assert (After (te_blockedUntil new_entry) now = false) as ->; [|done].
    unfold After. cbn [new_entry te_blockedUntil]. apply Z.ltb_ge. destruct Hm. unfold ticks, time_Unix in *. lia.
Qed.

Lemma failure_log site t key p l u now : durations_ok p → bucket_log t key p l u → u ≤ ticks now → modern now →
  Z.of_nat (length (lg_failures l)) < two31 - 1 →
  ∃ t', recordFailureLocal site t key now = Some (standing p (tk_Scope key) (charge (log_policy p) l (ticks now)).1, t') ∧
    bucket_log t' key p (charge (log_policy p) l (ticks now)).2 (ticks now).
Proof.
  intros Hd [Ht Hp He Hl] Hu Hm Hb.
  destruct (entry_refines_log p (tk_Scope key) (entry_of t key) l now u) as (e' & Ee & He' & Hl'); [done..|].
  assert (∃ r t', recordFailureLocal site t key now = Some (r, t')) as (r & t' & Er).
  { unfold entry_of, entry_at in Ee. unfold recordFailureLocal. rewrite Hp.
    destruct (_ !! bucketID key); cbn [default from_option id] in Ee; rewrite Ee; cbn [mbind option_bind]; eauto. }
  destruct (recordFailureLocal_entry site t key now r t' Ht Er) as (e2 & Ec & Ea & _).
  unfold entry_of in Ee. rewrite Hp, Ee in Ec. injection Ec as <- <-.
  exists t'. split; [exact Er|]. assert (now ≠ 0) by (destruct Hm; unfold ticks, time_Unix in *; lia).
  split; [by eapply recordFailureLocal_ok| |by unfold entry_of; rewrite Ea|done].
  by rewrite (recordFailureLocal_policies _ _ _ _ _ _ Er).
Qed.

Lemma success_log t key p l u : bucket_log t key p l u → bucket_log (recordSuccessLocal t key) key p empty_log u.
Proof.
  intros [Ht Hp He Hl]. split; [by apply recordSuccessLocal_ok|done| |apply empty_log_ok].
  assert (entry_of (recordSuccessLocal t key) key = new_entry) as ->; [|apply new_entry_log].
  unfold entry_of, entry_at, recordSuccessLocal. rewrite shard_at_set by apply Ht.
  by rewrite decide_True, lookup_delete_eq.
Qed.

Definition in_ticks (ops : list (bucket_op * Time)) : list (bucket_op * Z) := prod_map id ticks <$> ops.

Lemma node_run_log site t key p l u ops : durations_ok p → bucket_log t key p l u →
  Sorted Z.le (u :: (in_ticks ops).*2) → Forall (λ o, modern o.2) ops →
  Z.of_nat (length (lg_failures l) + length ops) < two31 →
  node_run site t key ops = Some (standing p (tk_Scope key) <$> log_run (log_policy p) l (in_ticks ops)).
Proof.
  intros Hd. revert site t l u. induction ops as [|[o now] ops IH]; intros site t l u Hb Hs Hm Hlen; [done|].
  inversion Hm as [|? ? Hnow Hms]; subst. cbn [in_ticks fmap list_fmap prod_map fst snd id] in *.
  inversion Hs as [|? ? Hs' Hhd]; subst. inversion Hhd; subst. cbn [length] in Hlen.
  destruct o; cbn [node_run log_run].
  - destruct (failure_log site t key p l u now Hd Hb) as (t' & E & Hb'); [done|done|lia|].
    pose proof (charge_length (log_policy p) l (ticks now)) as Hc. rewrite E.
    destruct (charge (log_policy p) l (ticks now)) as [r l']. cbn [fst snd mbind option_bind] in *.
    rewrite (IH _ _ l' (ticks now)) by (done || lia). done.
  - rewrite (IH _ _ l (ticks now)); [|by destruct Hb; split; eauto using log_ok_later|done|done|lia].
    cbn [mbind option_bind]. by rewrite (evaluate_log t key p l u now).
  - apply (IH _ _ empty_log (ticks now)); [|done|done|cbn [empty_log lg_failures length]; lia].
    apply success_log in Hb. destruct Hb; split; eauto using log_ok_later.
Qed.

(** C26: a bucket of a node keeps its contract: whatever failures, standings and successes come in
    whatever order, the ring buffers, their 32-bit counters and the lazy resets decide exactly as the
    log of all failures since the last success would, and nothing panics. *)
Theorem node_refines_log site t key ops : table_ok t → entry_at t key = None →
  let p := policyFor (lt_policies t) key in
  durations_ok p → Sorted Z.le (ticks <$> ops.*2) → Forall modern ops.*2 → Z.of_nat (length ops) < two31 →
  node_run site t key ops = Some (standing p (tk_Scope key) <$> log_run (log_policy p) empty_log (in_ticks ops)).
Proof.
  intros Ht He p Hd Hs Hm Hlen. apply (node_run_log site t key p empty_log 0); try done.
  - split; [done..|unfold entry_of; rewrite He; apply new_entry_log|apply empty_log_ok].
  - assert ((in_ticks ops).*2 = ticks <$> ops.*2) as -> by (unfold in_ticks; by rewrite <- !list_fmap_compose).
    constructor; [done|]. destruct ops as [|[o now] ops]; [constructor|]. constructor.
    inversion Hm as [|? ? [Hn _] _]; subst. cbn [snd]. lia.
  - exact (proj1 (Forall_fmap _ _ _) Hm).
Qed.

(** ** The cluster *)

Definition in_millis (ops : list (bucket_op * Time)) : list (bucket_op * Z) := prod_map id unix_milli <$> ops.

Lemma cleared_log db t key u now : u ≤ unix_milli now →
  stored_bucket (ThrottleClear true db (bucketID key) now) t key empty_log (unix_milli now).
Proof.
  intros Hu. split; [apply empty_log_ok|]. left. split; [done|]. intros v Hv.
  unfold ThrottleClear, clearScript. cbn [negb]. eapply read_later_none; [exact Hv|]. apply read_write_now.
Qed.

Lemma stored_later' a bucket db l u now : stored a bucket db l u → u ≤ now → stored a bucket db l now.
Proof.
  intros [Hl H] Hu. split; [by eapply log_ok_later|]. destruct H as [[-> H]|H]; [left; split; [done|]|by right].
  intros v Hv. apply H. lia.
Qed.

Lemma stored_later db t key l u now : stored_bucket db t key l u → u ≤ now → stored_bucket db t key l now.
Proof. apply stored_later'. Qed.

Lemma cluster_run_log db t key pol l u ops : lt_policies t !! tk_Scope key = Some pol →
  whole (tp_ResetAfter pol) → 0 < tp_ResetAfter pol → stored_bucket db t key l u →
  Sorted Z.le (u :: (in_millis ops).*2) → Forall (λ o, 0 < unix_milli o.2 < two63) ops →
  cluster_run db t key ops = Some ((λ r, sharedDecision t key (decode_state r)) <$>
    log_run (log_args (script_args (sharedSpec t key))) l (in_millis ops)).
Proof.
  intros Hp Hw Hr. set (p := log_args _).
  revert db l u. induction ops as [|[o now] ops IH]; intros db l u Hb Hs Hm; [done|].
  inversion Hm as [|? ? Hnow Hms]; subst. cbn [in_millis fmap list_fmap prod_map fst snd id] in *.
  inversion Hs as [|? ? Hs' Hhd]; subst. inversion Hhd; subst. destruct o; cbn [cluster_run log_run].
  - destruct (sharedCharge_log db t key pol l u now Hp Hw Hr Hb) as (db' & E & Hb'); [done|done|].
    rewrite E. fold p in Hb' |- *. destruct (charge p l (unix_milli now)) as [r l']. cbn [fst snd mbind option_bind] in *.
    by rewrite (IH _ l' (unix_milli now)).
  - unfold sharedEvaluate, ThrottlePeek. cbn [negb].
    destruct (script_refines_log _ _ (sharedSpec_args t key) (sharedSpec_retention t key pol Hp Hw Hr) db l u (unix_milli now) Hb)
      as [_ E]; [done|done|].
    rewrite E. cbn [fmap option_fmap option_map mbind option_bind].
    rewrite (IH _ l (unix_milli now)); [done|by eapply stored_later|done|done].
  - by apply (IH _ empty_log (unix_milli now)); [eapply cleared_log|..].
Qed.

(** A bucket of the cluster keeps the same contract: the script, with its hash, its expiry, the
    intervals it drops and the commands of a success, answers every sequence of calls exactly as the
    log in milliseconds does, and no call fails. *)
Lemma cluster_refines_log db t key pol ops : lt_policies t !! tk_Scope key = Some pol →
  whole (tp_ResetAfter pol) → 0 < tp_ResetAfter pol → (∀ u, 0 ≤ u → db_read db u (bucket_key (bucketID key)) = RNone) →
  Sorted Z.le (unix_milli <$> ops.*2) → Forall (λ now, 0 < unix_milli now < two63) ops.*2 →
  cluster_run db t key ops = Some ((λ r, sharedDecision t key (decode_state r)) <$>
    log_run (log_args (script_args (sharedSpec t key))) empty_log (in_millis ops)).
Proof.
  intros Hp Hw Hr He Hs Hm. apply (cluster_run_log db t key pol empty_log 0); try done.
  - split; [apply empty_log_ok|]. left. by split.
  - assert ((in_millis ops).*2 = unix_milli <$> ops.*2) as -> by (unfold in_millis; by rewrite <- !list_fmap_compose).
    constructor; [done|]. destruct ops as [|[o now] ops]; [constructor|]. constructor.
    inversion Hm as [|? ? [Hn _] _]; subst. cbn [snd]. lia.
  - exact (proj1 (Forall_fmap _ _ _) Hm).
Qed.

(** ** One node and the cluster decide alike *)

(** The node's log in nanoseconds, the cluster's in milliseconds. *)
Record both_log (t : loginThrottle) (db : DB) (t0 : loginThrottle) (key : throttleKey) (l : log) (u : Z) : Prop := {
  bo_node : bucket_log t key (policyFor (lt_policies t0) key) (scale_log Millisecond l) (Millisecond * u);
  bo_cluster : stored_bucket db t0 key l u
}.

Lemma both_retry p e l u now x : entry_log p e (scale_log Millisecond l) → log_ok l u → u ≤ now →
  lg_until l = Some x → now < x → in_int64 (Millisecond * (x - now)).
Proof.
  intros He Hl Hu Hx Hlt. destruct (el_far _ _ _ He (Millisecond * x)) as (y & Hy & Hfar); [cbn [scale_log lg_until]; by rewrite Hx|].
  cbn [scale_log lg_last] in Hy. destruct (lg_last l) as [z|] eqn:Ez; [|done]. injection Hy as <-.
  pose proof (lok_now _ _ Hl z Ez). unfold in_int64, two63, Millisecond in *. lia.
Qed.

Section agree.
Context (t0 : loginThrottle) (key : throttleKey) (pol : throttlePolicy).
Let q := policyFor (lt_policies t0) key.
Let p := log_args (script_args (sharedSpec t0 key)).
Context (Hp : lt_policies t0 !! tk_Scope key = Some pol) (Hr : 0 < tp_ResetAfter pol)
  (Hwr : whole (tp_ResetAfter pol)) (Hw : whole_policy q) (Hd : durations_ok q).

Lemma policies_agree : log_policy q ≡ scale_policy Millisecond p.
Proof. exact (whole_policy_equiv t0 key Hw). Qed.

(** One failure, and one standing. *)
Lemma failure_agrees site t db l u now : both_log t db t0 key l u → u ≤ unix_milli now → modern now → whole_time now →
  Z.of_nat (length (lg_failures l)) < two31 - 1 →
  ∃ d t' db', recordFailureLocal site t key now = Some (d, t') ∧ sharedCharge true db t0 key now = (Some d, db') ∧
    both_log t' db' t0 key (charge p l (unix_milli now)).2 (unix_milli now).
Proof.
  intros [Hb Hst] Hu Hm Hwn Hlen. pose proof (whole_time_modern now Hwn Hm) as Hms.
  destruct (failure_log site t key q (scale_log Millisecond l) (Millisecond * u) now Hd Hb) as (t' & E & Hb');
    [rewrite Hwn; unfold Millisecond; lia|done|cbn [scale_log lg_failures]; by rewrite length_fmap|].
  destruct (sharedCharge_log db t0 key pol l u now Hp Hwr Hr Hst) as (db' & Ec & Hst'); [done|done|].
  fold p in Ec, Hst'. rewrite (charge_proper _ _ policies_agree _ _ eq_refl _ _ eq_refl), Hwn, charge_scale in E, Hb' by done.
  cbn [fst snd] in E, Hb'. exists (sharedDecision t0 key (decode_state (charge p l (unix_milli now)).1)), t', db'.
  split; [|split; [done|split; [exact Hb'|done]]]. rewrite E. do 2 f_equal. apply standing_shared.
  pose proof (charge_retry p l (unix_milli now)) as Hret. cbv zeta in Hret.
  destruct (rp_blocked _); [|done]. destruct Hret as (x & Hx & -> & Hlt).
  eapply both_retry; [apply Hb'|apply Hst'|done|done|done].
Qed.

Lemma standing_agrees t db l u now : both_log t db t0 key l u → u ≤ unix_milli now → modern now → whole_time now →
  sharedEvaluate true db t0 key now = Some (evaluateLocal t key now).
Proof.
  intros [Hb Hst] Hu Hm Hwn. pose proof (whole_time_modern now Hwn Hm) as Hms.
  rewrite (evaluate_log t key q _ _ now Hb) by (done || (rewrite Hwn; unfold Millisecond; lia)).
  unfold sharedEvaluate, ThrottlePeek. cbn [negb].
  destruct (script_refines_log _ _ (sharedSpec_args t0 key) (sharedSpec_retention t0 key pol Hp Hwr Hr) db l u (unix_milli now) Hst)
    as [_ E]; [done|done|].
  rewrite E. fold p. cbn [fmap option_fmap option_map]. f_equal.
  rewrite (peek_proper _ _ policies_agree _ _ eq_refl _ _ eq_refl), Hwn, peek_scale by done.
  symmetry. apply standing_shared. pose proof (peek_retry p l (unix_milli now)) as Hret. cbv zeta in Hret.
  destruct (rp_blocked _); [|done]. destruct Hret as (x & Hx & -> & Hlt).
  eapply both_retry; [apply Hb|apply Hst|done|done|done].
Qed.

Lemma both_later t db l u now : both_log t db t0 key l u → u ≤ now → both_log t db t0 key l now.
Proof.
  intros [[H1 H2 H3 H4] Hst] Hu. split; [split; [done..|]|by eapply stored_later].
  eapply log_ok_later; [done|]. unfold Millisecond. lia.
Qed.

Lemma runs_agree site t db l u ops : both_log t db t0 key l u → Sorted Z.le (u :: (in_millis ops).*2) →
  Forall (λ o, modern o.2 ∧ whole_time o.2) ops → Z.of_nat (length (lg_failures l) + length ops) < two31 →
  ∃ ds, node_run site t key ops = Some ds ∧ cluster_run db t0 key ops = Some ds.
Proof.
  revert site t db l u. induction ops as [|[o now] ops IH]; intros site t db l u Hb Hs Hm Hlen; [by exists []|].
  inversion Hm as [|? ? [Hnow Hwn] Hms]; subst. cbn [in_millis fmap list_fmap prod_map fst snd id] in *.
  inversion Hs as [|? ? Hs' Hhd]; subst. inversion Hhd; subst. cbn [length] in Hlen.
  destruct o; cbn [node_run cluster_run].
  - destruct (failure_agrees site t db l u now Hb) as (d & t' & db' & E1 & E2 & Hb'); [done|done|done|lia|].
    pose proof (charge_length p l (unix_milli now)) as Hc. rewrite E1, E2. cbn [mbind option_bind].
    destruct (IH (S site) t' db' _ (unix_milli now) Hb' Hs' Hms) as (ds & D1 & D2); [lia|].
    rewrite D1, D2. cbn [mbind option_bind]. by eexists.
  - rewrite (standing_agrees t db l u now) by done. cbn [mbind option_bind].
    destruct (IH (S site) t db l (unix_milli now)) as (ds & D1 & D2); [by eapply both_later|done|done|lia|].
    rewrite D1, D2. cbn [mbind option_bind]. by eexists.
  - apply (IH (S site) _ _ empty_log (unix_milli now)); [|done|done|cbn [empty_log lg_failures length]; lia].
    split; [|by eapply cleared_log]. destruct (both_later t db l u (unix_milli now) Hb) as [Hn _]; [done|].
    exact (success_log _ _ _ _ _ Hn).
Qed.
End agree.

(** C16: the cluster throttles as one node does: on any sequence of failures, standings and successes
    of a bucket the script decides exactly what the in-memory throttle decides, outcome, waiting time,
    generation and counts included, as long as instants and the durations of the policy are whole
    milliseconds. *)
Theorem shared_throttle_agrees site t key pol ops : table_ok t → entry_at t key = None →
  lt_policies t !! tk_Scope key = Some pol → 0 < tp_ResetAfter pol →
  whole_policy (policyFor (lt_policies t) key) → durations_ok (policyFor (lt_policies t) key) →
  Sorted Z.le (unix_milli <$> ops.*2) → Forall (λ now, modern now ∧ whole_time now) ops.*2 →
  Z.of_nat (length ops) < two31 →
  ∃ ds, node_run site t key ops = Some ds ∧ cluster_run db_empty t key ops = Some ds.
Proof.
  intros Ht He Hp Hr Hw Hd Hs Hm Hlen.
  assert (Hwr : whole (tp_ResetAfter pol)).
  { pose proof (wp_reset _ Hw) as H. by rewrite (policyFor_reset _ _ _ Hp) in H. }
  apply (runs_agree t key pol Hp Hr Hwr Hw Hd site t db_empty empty_log 0); [|  |exact (proj1 (Forall_fmap _ _ _) Hm)|done].
  - split; [|apply stored_empty]. split; [done|done|unfold entry_of; rewrite He; apply new_entry_log|apply empty_log_ok].
  - assert ((in_millis ops).*2 = unix_milli <$> ops.*2) as -> by (unfold in_millis; by rewrite <- !list_fmap_compose).
    constructor; [done|]. destruct ops as [|[o now] ops]; [constructor|]. constructor.
    inversion Hm as [|? ? [Hn Hwn] _]; subst. pose proof (whole_time_modern now Hwn Hn). cbn [snd]. lia.
Qed.

(** ** Guesses at the nodes of a cluster *)

(** A guess at a node: it asks for the standing, and only if that allows it the password is compared,
    found wrong and recorded. The number of guesses that got that far; [None] is a node that does not
    exist, or a panic. *)
Fixpoint guess_run (site : nat) (db : DB) (nodes : gmap string loginThrottle) (key : throttleKey)
    (guesses : list (string * Time)) : option Z :=
  match guesses with
  | [] => Some 0
  | (node, now) :: guesses =>
      t ← nodes !! node;
      if is_allow (evaluate true db t key now) then
        '(_, t, db) ← recordFailure true site db t key now;
        n ← guess_run (S site) db (<[node := t]> nodes) key guesses;
        Some (1 + n)
      else guess_run site db nodes key guesses
  end.

Section guesses.
Context (pols : gmap throttleScope throttlePolicy) (key : throttleKey) (pol : throttlePolicy).
Let q := policyFor pols key.
Let spec (t : loginThrottle) := log_args (script_args (sharedSpec t key)).
Context (Hp : pols !! tk_Scope key = Some pol) (Hr : 0 < tp_ResetAfter pol) (Hwr : whole (tp_ResetAfter pol))
  (Hd : durations_ok q).

(** The tables of the nodes hold logs of their own, of at most [k] failures. *)
Definition nodes_ok (nodes : gmap string loginThrottle) (u : Time) (k : nat) : Prop :=
  ∀ node t, nodes !! node = Some t → lt_policies t = pols ∧
    ∃ l, bucket_log t key q l (ticks u) ∧ (length (lg_failures l) ≤ k)%nat.

Lemma nodes_ok_later nodes u u' k : nodes_ok nodes u k → u ≤ u' → nodes_ok nodes u' k.
Proof.
  intros H Hu node t Ht. destruct (H node t Ht) as (Hpt & l & [H1 H2 H3 H4] & Hk). split; [done|]. exists l.
  split; [|done]. split; [done..|]. eapply log_ok_later; [done|]. unfold ticks. lia.
Qed.

(** One guess that the standing allows: the node records it, and the shared log counts it. *)
Lemma guess_counted site db nodes node t l u now k : nodes !! node = Some t → nodes_ok nodes now k →
  Z.of_nat k < two31 - 1 → modern now → 0 < unix_milli now < two63 →
  stored_bucket db t key l u → u ≤ unix_milli now → is_allow (evaluate true db t key now) = true →
  ∃ d t' db', recordFailure true site db t key now = Some (d, t', db') ∧
    nodes_ok (<[node := t']> nodes) now (S k) ∧ sharedSpec t' key = sharedSpec t key ∧
    counted (charge (spec t) l (unix_milli now)).1 = true ∧
    stored_bucket db' t' key (charge (spec t) l (unix_milli now)).2 (unix_milli now).
Proof.
  intros Ht Hn Hk Hm Hms Hst Hu Ha. destruct (Hn node t Ht) as (Hpt & ln & Hb & Hln).
  destruct (failure_log site t key q ln (ticks now) now Hd Hb) as (t' & E & Hb'); [done|done|lia|].
  pose proof (recordFailureLocal_policies _ _ _ _ _ _ E) as Hpt'.
  assert (Hspec : sharedSpec t' key = sharedSpec t key) by (unfold sharedSpec, idleRetention; by rewrite Hpt').
  assert (Hst' : stored_bucket db t' key l u) by (unfold stored_bucket; by rewrite Hspec).
  destruct (sharedCharge_log db t' key pol l u now) as (db' & Ec & Hstc); try done; [by rewrite Hpt', Hpt|].
  rewrite Hspec in Ec, Hstc. fold (spec t) in Ec, Hstc.
  unfold recordFailure. rewrite E. cbn [mbind option_bind]. rewrite Ec. eexists _, t', db'. split; [done|].
  split; [|split; [done|split]].
  - intros n tn Hlk. apply lookup_insert_Some in Hlk as [[<- <-]|[_ Hlk]].
    + split; [by rewrite Hpt'|]. eexists. split; [exact Hb'|].
      pose proof (charge_length (log_policy q) ln (ticks now)). lia.
    + destruct (Hn n tn Hlk) as (H1 & l' & H2 & H3). split; [done|]. exists l'. split; [done|lia].
  - apply unblocked_counted_log. unfold evaluate in Ha.
    destruct (is_allow (evaluateLocal t key now)) eqn:El; cbn [negb] in Ha; [|congruence].
    unfold sharedEvaluate, ThrottlePeek in Ha. cbn [negb] in Ha.
    destruct (script_refines_log _ _ (sharedSpec_args t key)
      (sharedSpec_retention t key pol ltac:(by rewrite Hpt) Hwr Hr) db l u (unix_milli now) Hst) as [_ Ep]; [done|done|].
    rewrite Ep in Ha. cbn [fmap option_fmap option_map default from_option id] in Ha. fold (spec t) in Ha.
    unfold is_allow, sharedDecision, decode_state in Ha. cbn [td_Outcome st_Blocked] in Ha. unfold peek in Ha.
    destruct (is_blocked l (unix_milli now)); [|done]. apply bool_decide_eq_true in Ha.
    cbn [blocked_reply rp_blocked] in Ha. unfold blockOutcome in Ha. by destruct (tp_HardBlock _).
  - exact Hstc.
Qed.

(** The guesses that got through are what the shared log counted. *)
Lemma guess_run_log site db nodes sp l u guesses k : nodes_ok nodes u k →
  (∀ node t, nodes !! node = Some t → sharedSpec t key = sp) → Forall (λ g, is_Some (nodes !! g.1)) guesses →
  stored (script_args sp) (bucket_key (bucketID key)) db l (unix_milli u) →
  Sorted Z.le (u :: guesses.*2) → Forall (λ g, modern g.2 ∧ 0 < unix_milli g.2 < two63) guesses →
  Z.of_nat (k + length guesses) < two31 →
  ∃ nows, guess_run site db nodes key guesses = Some (Z.of_nat (length nows)) ∧
    Sorted Z.le (unix_milli u :: nows) ∧ (∀ x, x ∈ nows → ∃ g, g ∈ guesses ∧ unix_milli g.2 = x) ∧
    admitted (log_args (script_args sp)) l nows = nows.
Proof.
  revert site db nodes l u k. induction guesses as [|[node now] guesses IH]; intros site db nodes l u k Hn Hsp Hin Hst Hs Hm Hk.
  { exists []. split; [done|]. split; [by repeat constructor|]. split; [by intros ? ?%elem_of_nil|done]. }
  inversion Hin as [|? ? [t Ht] Hins]; subst. inversion Hm as [|? ? [Hnow Hms] Hmss]; subst. cbn [fst snd] in *.
  rewrite fmap_cons in Hs. inversion Hs as [|? ? Hs' Hhd]; subst. inversion Hhd as [|? ? Hle]; subst. cbn [snd] in *.
  pose proof (unix_milli_mono u now Hle) as Hmono. cbn [length] in Hk.
  pose proof (nodes_ok_later nodes u now k Hn Hle) as Hn'. cbn [guess_run]. rewrite Ht. cbn [mbind option_bind].
  destruct (is_allow (evaluate true db t key now)) eqn:Ea.
  - destruct (guess_counted site db nodes node t l (unix_milli u) now k) as (d & t' & db' & Er & Hn1 & Hsp' & Hc & Hst');
      try done; [lia|unfold stored_bucket; by rewrite (Hsp node t Ht)|].
    unfold spec in Hc, Hst'. unfold stored_bucket in Hst'. rewrite Hsp', (Hsp node t Ht) in *.
    destruct (IH (S site) db' (<[node := t']> nodes)
      (charge (log_args (script_args sp)) l (unix_milli now)).2 now (S k)) as (nows & E & Hso & Hel & Had); try done.
    + intros n tn Hlk. apply lookup_insert_Some in Hlk as [[<- <-]|[_ Hlk]]; [exact Hsp'|by eapply Hsp].
    + eapply Forall_impl; [exact Hins|]. intros g Hg. cbn beta in *. destruct (decide (g.1 = node)) as [->|Hne];
        [by rewrite lookup_insert_eq|by rewrite lookup_insert_ne].
    + lia.
    + exists (unix_milli now :: nows). rewrite Er. cbn [mbind option_bind]. rewrite E. cbn [mbind option_bind length].
      split; [f_equal; lia|]. split; [constructor; [done|by constructor]|]. split.
      * intros x [->|Hx]%elem_of_cons; [by exists (node, now); split; [left|]|].
        destruct (Hel x Hx) as (g & Hg & <-). exists g. by split; [right|].
      * cbn [admitted]. destruct (charge _ l (unix_milli now)) as [r l']. cbn [fst snd] in *. by rewrite Hc, Had.
  - destruct (IH site db nodes l now k) as (nows & E & Hso & Hel & Had); try done.
    + eapply stored_later'; [exact Hst|done].
    + lia.
    + exists nows. split; [done|]. split; [|split; [|done]].
      * inversion Hso as [|? ? Hso' Hd']; subst. constructor; [done|]. inversion Hd'; constructor; lia.
      * intros x Hx. destruct (Hel x Hx) as (g & Hg & <-). exists g. by split; [right|].
Qed.
End guesses.

(** C27: spreading a guessing run over the nodes of a cluster buys nothing while the shared store is
    reachable. Nodes of one policy, each with its own table, take guesses one after the other, in
    any order of nodes; a guess is compared only if the standing of its node allows it. Of all guesses
    within one short window the nodes together compare at most the limit, and then one more for every
    shortest block of the ladder, and no node panics. *)
Theorem cluster_guess_budget site db nodes key pol pols sp l u guesses m a b :
  pols !! tk_Scope key = Some pol → 0 < tp_ResetAfter pol → whole (tp_ResetAfter pol) →
  durations_ok (policyFor pols key) →
  (∀ node t, nodes !! node = Some t → table_ok t ∧ lt_policies t = pols ∧ entry_at t key = None ∧ sharedSpec t key = sp) →
  Forall (λ g, is_Some (nodes !! g.1)) guesses →
  stored (script_args sp) (bucket_key (bucketID key)) db l (unix_milli u) →
  Sorted Z.le (u :: guesses.*2) → Forall (λ g, modern g.2 ∧ 0 < unix_milli g.2 < two63) guesses →
  Z.of_nat (length guesses) < two31 →
  let width := milliseconds (slotWidth (ts_Short sp)) in
  0 < hw_Limit (ts_Short sp) → 0 < width → ts_Backoff sp ≠ [] → 0 < m →
  Forall (λ d, m ≤ milliseconds d) (ts_Backoff sp) →
  Forall (λ g, a ≤ unix_milli g.2 ≤ b) guesses → a ≤ b →
  b / width - a / width < hw_Slots (ts_Short sp) → b - a < milliseconds (ts_ResetAfter sp) →
  ∃ n, guess_run site db nodes key guesses = Some n ∧ (n - hw_Limit (ts_Short sp)) * m ≤ b - a.
Proof.
  intros Hp Hr Hwr Hd Hnodes Hin Hst Hs Hm Hlen width Hlim Hwidth Hne Hmp Hlad Hab' Hab Hspan Hreset.
  destruct (guess_run_log pols key pol Hp Hr Hwr Hd site db nodes sp l u guesses 0) as (nows & E & Hso & Hel & Had); try done.
  { intros node t Ht. destruct (Hnodes node t Ht) as (H1 & H2 & H3 & _). split; [done|]. exists empty_log.
    split; [|done]. split; [done|by rewrite H2|unfold entry_of; rewrite H3; apply new_entry_log|apply empty_log_ok]. }
  { intros node t Ht. by apply (Hnodes node t Ht). }
  exists (Z.of_nat (length nows)). split; [done|]. rewrite <- Had.
  apply (run_budget (log_args (script_args sp)) a b m l (unix_milli u)); try done.
  - unfold enabled. apply andb_true_iff. split; by apply Z.ltb_lt.
  - cbn [log_args fp_ladder script_args ar_ladder]. intros En. by apply fmap_nil_inv in En.
  - cbn [log_args fp_ladder script_args ar_ladder]. by apply Forall_fmap.
  - by right.
  - apply Hst.
  - apply Forall_forall. intros x (g & Hg & <-)%Hel.
    pose proof (proj1 (Forall_forall _ _) Hab' g Hg). pose proof (proj1 (Forall_forall _ _) Hm g Hg) as [_ ?]. cbn in *. lia.
Qed.
End traces.

(** Six failures, a standing, a success, a failure. *)
Definition mixed_ops : list (bucket_op * Time) :=
  ((λ i, (OpFailure, time_Unix 1700000000 + Z.of_nat i * Second)) <$> seq 0 6) ++
  [(OpStanding, time_Unix 1700000010); (OpSuccess, time_Unix 1700000070); (OpFailure, time_Unix 1700000071)].

Lemma node_refines_log_witness :
  let RO := listing_order in
  let key := MkKey scopeUserAccount "alice" false in
  let p := default_policy scopeUserAccount in
  node_run 0 (newLoginThrottle None) key mixed_ops =
    Some (standing p scopeUserAccount <$> log_run (log_policy p) empty_log (in_ticks mixed_ops)).
Proof.
  apply (node_refines_log (RO := listing_order) 0 (newLoginThrottle None) (MkKey scopeUserAccount "alice" false) mixed_ops).
  - apply newLoginThrottle_ok.
  - vm_compute. reflexivity.
  - apply (bool_decide_unpack _). vm_compute. exact I.
  - apply (bool_decide_unpack _). vm_compute. exact I.
  - apply (bool_decide_unpack _). vm_compute. exact I.
  - vm_compute. reflexivity.
Defined.

Lemma cluster_refines_log_witness :
  let D := joined in
  let key := MkKey scopeManagementKey "203.0.113.7/32" false in
  let t := newLoginThrottle None in
  cluster_run (K := list_keyspace) db_empty t key mixed_ops = Some ((λ r, sharedDecision t key (decode_state r)) <$>
    log_run (log_args (script_args (sharedSpec t key))) empty_log (in_millis mixed_ops)).
Proof.
  apply (cluster_refines_log (K := list_keyspace) (D := joined) db_empty (newLoginThrottle None)
    (MkKey scopeManagementKey "203.0.113.7/32" false) (default_policy scopeManagementKey) mixed_ops).
  - vm_compute. reflexivity.
  - vm_compute. reflexivity.
  - vm_compute. reflexivity.
  - intros u _. apply read_empty.
  - apply (bool_decide_unpack _). vm_compute. exact I.
  - apply (bool_decide_unpack _). vm_compute. exact I.
Defined.

Lemma shared_throttle_agrees_witness :
  let RO := listing_order in let D := joined in
  let key := MkKey scopeManagementKey "203.0.113.7/32" false in
  let t := newLoginThrottle None in
  ∃ ds, node_run 0 t key mixed_ops = Some ds ∧ cluster_run (K := list_keyspace) db_empty t key mixed_ops = Some ds.
Proof.
  apply (shared_throttle_agrees (RO := listing_order) (K := list_keyspace) (D := joined) 0 (newLoginThrottle None)
    (MkKey scopeManagementKey "203.0.113.7/32" false) (default_policy scopeManagementKey)).
  - apply newLoginThrottle_ok.
  - vm_compute. reflexivity.
  - vm_compute. reflexivity.
  - vm_compute. reflexivity.
  - split; [split; [|right]|split; [|right]| |]; try (vm_compute; reflexivity).
    apply (bool_decide_unpack _). vm_compute. exact I.
  - apply (bool_decide_unpack _). vm_compute. exact I.
  - apply (bool_decide_unpack _). vm_compute. exact I.
  - apply (bool_decide_unpack _). vm_compute. exact I.
  - vm_compute. reflexivity.
Defined.

(** Thirty guesses a second apart at two nodes: the limit is ten. *)
Lemma cluster_guess_budget_witness :
  let RO := listing_order in let D := joined in
  let key := MkKey scopeManagementKey "203.0.113.7/32" false in
  let nodes := {["a" := newLoginThrottle None; "b" := newLoginThrottle None]} in
  let guesses := (λ i, ((if Nat.even i then "a" else "b"), time_Unix 1700000000 + Z.of_nat i * Second)) <$> seq 0 30 in
  ∃ n, guess_run (K := list_keyspace) 0 db_empty nodes key guesses = Some n ∧ (n - 10) * 60000 ≤ 29000.
Proof.
  intros RO D key nodes guesses.
  apply (cluster_guess_budget (RO := listing_order) (K := list_keyspace) (D := joined) 0 db_empty nodes key
    (default_policy scopeManagementKey) (lt_policies (newLoginThrottle None)) (sharedSpec (newLoginThrottle None) key)
    empty_log (time_Unix 1700000000) guesses 60000 1700000000000 1700000029000).
  - vm_compute. reflexivity.
  - vm_compute. reflexivity.
  - vm_compute. reflexivity.
  - apply (bool_decide_unpack _). vm_compute. exact I.
  - intros node t Ht. apply lookup_insert_Some in Ht as [[_ <-]|[_ Ht]]; [|apply lookup_singleton_Some in Ht as [_ <-]];
      (split; [apply newLoginThrottle_ok|split; [reflexivity|split; [vm_compute; reflexivity|reflexivity]]]).
  - apply (bool_decide_unpack _). vm_compute. exact I.
  - apply stored_empty.
  - apply (bool_decide_unpack _). vm_compute. exact I.
  - apply (bool_decide_unpack _). vm_compute. exact I.
  - vm_compute. reflexivity.
  - vm_compute. reflexivity.
  - vm_compute. reflexivity.
  - vm_compute. discriminate.
  - vm_compute. reflexivity.
  - apply (bool_decide_unpack _). vm_compute. exact I.
  - apply (bool_decide_unpack _). vm_compute. exact I.
  - vm_compute. discriminate.
  - vm_compute. reflexivity.
  - vm_compute. reflexivity.
Defined.
