(* ===== verification/LoginFlow.v ===== *)
(** * Logging in

    Models the logins that the throttle guards: [PostLogin] of
    [src/internal/api/handlers/management/identity_auth_login.go], [PostPortalLogin] of
    [portal_auth.go], the exemption of [auth_observability.go], and the checks of
    [src/internal/identity/login.go], [login_lockout.go] and of
    [src/internal/enduser/auth_session.go], [login_lockout.go] behind them.

    A row of a user is a record, and an UPDATE a function on it; what can fail on the way
    is in [LoginEnv]. bcrypt is a class. Issuing tokens and sessions is left out but for
    whether it fails. Beside its answer a login tells whether a password was compared.
    The client address is normalized by the framework ([lq_ip]). Logs and audit are left
    out.

    [account_guess_budget] is what the throttle is for: the wrong passwords that are
    compared for one account, of either kind, are bounded, whatever addresses they come
    from, as long as one request ends before the next one starts. [parallel_guesses] shows
    that requests in flight together are not bounded; [allowed_address_not_charged],
    [failing_count_not_charged] and [portal_lock_not_charged] are the failures that are
    not charged. *)
From S2P Require Import Prelude GoModel Redis SharedState ThrottlePolicy FailureLog Throttle ThrottleTable ThrottleShared ThrottleCluster.
From Stdlib Require Import Ascii.

(** ** Users *)

Record Tenant := MkTenant { te_status : string; te_type : string; te_expires : option Time }.

(** The columns of [users] and of [end_users] that a login looks at. *)
Record User := MkUser {
  us_hash : string; us_status : string; us_failed : Z; us_last_failed : option Time;
  us_stage : Z; us_locked : option Time; us_tenant : Tenant }.

Inductive LoginError :=
| ErrInvalidCredentials
| ErrAccountLocked
| ErrAccountDisabled
| ErrTenantSuspended
| ErrTenantExpired
| ErrLoginCooldown (retryAfter : Duration)
| ErrInfrastructure.

#[export] Instance LoginError_eq_dec : EqDecision LoginError.
Proof. solve_decision. Defined.

Class Bcrypt := bcrypt_ok : string → string → bool.

(** What happens around a login: the database, failing statements, and its clock. *)
Record LoginEnv := MkEnv {
  ev_db : bool;            (* there is a database *)
  ev_lookup_fails : bool;
  ev_count_fails : bool;   (* the UPDATE of the failures *)
  ev_lock_fails : bool;    (* the UPDATE of the lock *)
  ev_session_fails : bool; (* anything up to the commit of the session *)
  ev_principal_fails : bool;
  ev_db_now : Time }.

Definition NormalizeUsername (value : string) : string := ToLower (TrimSpace value).

Definition is_after (o : option Time) (now : Time) : bool :=
  match o with Some t => After t now | None => false end.

Definition validateTenant (t : Tenant) (now : Time) : option LoginError :=
  if ! String.eqb (te_status t) "active" then Some ErrTenantSuspended
  else if ! String.eqb (te_type t) "system" && match te_expires t with Some e => ! After e now | None => false end
  then Some ErrTenantExpired else None.

Definition loginFailureWindow : Duration := 15 * Minute.

(** The UPDATE that counts a failure: RETURNING failed_login_count. *)
Definition count_login_failure (u : User) (now : Time) : Z * User :=
  let count := match us_last_failed u with
               | Some t => if Before t (now - loginFailureWindow) then 1 else us_failed u + 1
               | None => 1
               end in
  (count, MkUser (us_hash u) (us_status u) count (Some now) (us_stage u) (us_locked u) (us_tenant u)).

Definition set_lock (stage : Z) (until : Time) (u : User) : User :=
  MkUser (us_hash u) (us_status u) (us_failed u) (us_last_failed u) stage (Some until) (us_tenant u).

(** The UPDATE of a successful login. *)
Definition clear_login_failures (u : User) : User :=
  MkUser (us_hash u) (us_status u) 0 None 0 None (us_tenant u).

(** ** Administrators *)

(** Stage, cooldown and whether it applies. *)
Definition lockPenalty (failedCount : Z) : Z * Duration * bool :=
  if 20 <=? failedCount then (5, 60 * Minute, (failedCount =? 20) || (Z.rem failedCount 5 =? 0))
  else if 15 <=? failedCount then (4, 30 * Minute, failedCount =? 15)
  else if 10 <=? failedCount then (3, 15 * Minute, failedCount =? 10)
  else if 5 <=? failedCount then (2, 5 * Minute, failedCount =? 5)
  else if 3 <=? failedCount then (1, Minute, failedCount =? 3)
  else (0, 0, false).

(** [registerLoginFailure]: [false] is an error; a count that was written stays. *)
Definition registerLoginFailure (ev : LoginEnv) (u : User) : bool * User :=
  if ev_count_fails ev then (false, u)
  else
    let '(count, u) := count_login_failure u (ev_db_now ev) in
    let '(stage, wait, apply) := lockPenalty count in
    if (! apply || (wait <=? 0)) then (true, u)
    else if ev_lock_fails ev then (false, u)
    else (true, set_lock stage (ev_db_now ev + wait) u).

Record LoginOutcome := MkOutcome { lo_error : option LoginError; lo_compared : bool; lo_users : gmap string User }.

Section logins.
Context {B : Bcrypt}.

(** [identity.Service.Login]; [now] is the clock after the comparison. *)
Definition identity_Login (users : gmap string User) (username password : string) (ev : LoginEnv) (now : Time)
    : LoginOutcome :=
  if ! ev_db ev then MkOutcome (Some ErrInvalidCredentials) false users
  else if ev_lookup_fails ev then MkOutcome (Some ErrInfrastructure) false users
  else
    let normalized := NormalizeUsername username in
    match users !! normalized with
    | None => MkOutcome (Some ErrInvalidCredentials) true users
    | Some u =>
        if ! bcrypt_ok (us_hash u) password then
          let '(ok, u) := registerLoginFailure ev u in
          MkOutcome (Some (if ok then ErrInvalidCredentials else ErrInfrastructure)) true (<[normalized := u]> users)
        else if is_after (us_locked u) now then MkOutcome (Some ErrAccountLocked) true users
        else if String.eqb (us_status u) "locked" then MkOutcome (Some ErrAccountLocked) true users
        else if String.eqb (us_status u) "disabled" then MkOutcome (Some ErrAccountDisabled) true users
        else match validateTenant (us_tenant u) now with
             | Some e => MkOutcome (Some e) true users
             | None =>
                 if ev_session_fails ev then MkOutcome (Some ErrInfrastructure) true users
                 else MkOutcome (if ev_principal_fails ev then Some ErrInfrastructure else None) true
                        (<[normalized := clear_login_failures u]> users)
             end
    end.

(** ** End users *)

Definition portal_lockPenalty (failedCount : Z) : Z * Duration * bool :=
  if 25 <=? failedCount then (5, 60 * Minute, (failedCount =? 25) || (Z.rem failedCount 5 =? 0))
  else if 20 <=? failedCount then (4, 30 * Minute, failedCount =? 20)
  else if 15 <=? failedCount then (3, 15 * Minute, failedCount =? 15)
  else if 10 <=? failedCount then (2, 5 * Minute, failedCount =? 10)
  else if 5 <=? failedCount then (1, Minute, failedCount =? 5)
  else (0, 0, false).

(** [Duration.Round(time.Second)] of a positive duration: to the nearest, halves up. *)
Definition round_second (d : Duration) : Duration :=
  let r := Z.rem d Second in if r + r <? Second then d - r else d + Second - r.

Definition newCooldownError (until now : Time) : LoginError :=
  let remaining := time_Sub until now in
  let remaining := if remaining <? Second then Second else remaining in
  ErrLoginCooldown (round_second remaining).

(** [enduser.Service.Login]: a wrong password. A failing UPDATE leaves its variable 0. *)
Definition portal_failure (ev : LoginEnv) (u : User) (now : Time) : LoginError * User :=
  let '(newCount, u') := if ev_count_fails ev then (0, u) else count_login_failure u (ev_db_now ev) in
  let newCount := if newCount =? 0 then us_failed u + 1 else newCount in
  let '(stage, wait, apply) := portal_lockPenalty newCount in
  if apply && (0 <? wait) then
    let until := time_Add now wait in
    (newCooldownError until now, if ev_lock_fails ev then u' else set_lock stage until u')
  else (ErrInvalidCredentials, u').

(** From the comparison on. *)
Definition enduser_password (users : gmap string User) (normalized : string) (u : User) (password : string)
    (ev : LoginEnv) (now : Time) : LoginOutcome :=
  if ! bcrypt_ok (us_hash u) password then
    let '(e, u) := portal_failure ev u now in
    MkOutcome (Some e) true (<[normalized := u]> users)
  else match validateTenant (us_tenant u) now with
       | Some e => MkOutcome (Some e) true users
       | None =>
           if ev_session_fails ev then MkOutcome (Some ErrInfrastructure) true users
           else MkOutcome None true (<[normalized := clear_login_failures u]> users)
       end.

Definition enduser_Login (users : gmap string User) (username password : string) (ev : LoginEnv) (now : Time)
    : LoginOutcome :=
  if ! ev_db ev then MkOutcome (Some ErrInvalidCredentials) false users
  else if ev_lookup_fails ev then MkOutcome (Some ErrInfrastructure) false users
  else
    let normalized := NormalizeUsername username in
    match users !! normalized with
    | None => MkOutcome (Some ErrInvalidCredentials) true users
    | Some u =>
        if String.eqb (us_status u) "disabled" then MkOutcome (Some ErrAccountDisabled) false users
        else if String.eqb (us_status u) "locked" then MkOutcome (Some ErrAccountLocked) false users
        else match us_locked u with
        | Some until =>
            if After until now then MkOutcome (Some (newCooldownError until now)) false users
            else enduser_password users normalized u password ev now
        | None => enduser_password users normalized u password ev now
        end
    end.

End logins.

(** ** Handlers *)

(** What the handlers share. [au_clearing]: goroutines of [sharedClear] that have not run yet. *)
Record AuthState {K : Keyspace} := MkAuthState {
  aus_table : loginThrottle; aus_db : DB; aus_clears : Clears; aus_clearing : list throttleKey;
  aus_admins : gmap string User; aus_portal : gmap string User }.
Arguments AuthState : clear implicits.
Arguments MkAuthState {K} _ _ _ _ _ _.

Record LoginRequest := MkLoginRequest {
  lq_ip : string * bool;                (* the normalized address, and whether many clients share it *)
  lq_relayed : bool;                    (* a relay header, and no trusted proxies *)
  lq_exempt : bool;                     (* the address is on the allow list *)
  lq_service : bool;
  lq_body : option (string * string);   (* user name and password; [None] is not JSON *)
  lq_now : Time; lq_later : Time;       (* the clock of the handler and of the login *)
  lq_env : LoginEnv }.

Inductive Response :=
| ROk
| RThrottled (d : throttleDecision)
| RUnavailable
| RError (e : LoginError).

Definition clientThrottleKey (rq : LoginRequest) (scope : throttleScope) : throttleKey :=
  MkKey scope (lq_ip rq).1 ((lq_ip rq).2 || lq_relayed rq).

Definition accountThrottleKey (scope : throttleScope) (normalizedUsername : string) : throttleKey :=
  let value := TrimSpace normalizedUsername in
  MkKey scope (if String.eqb value "" then "unknown" else value) false.

Section handlers.
Context {RO : RangeOrder} {K : Keyspace} {D : Digest} {B : Bcrypt} (store : bool).

Definition throttleEvaluate (st : AuthState K) (rq : LoginRequest) (key : throttleKey) : throttleDecision :=
  if lq_exempt rq then allowed (tk_Scope key)
  else evaluate store (aus_db st) (aus_table st) key (lq_now rq).

(** [None] is a panic of the throttle. *)
Definition throttleCharge (site : nat) (st : AuthState K) (rq : LoginRequest) (key : throttleKey)
    : option (throttleDecision * AuthState K) :=
  if lq_exempt rq then Some (allowed (tk_Scope key), st)
  else
    '(d, t, db) ← recordFailure store site (aus_db st) (aus_table st) key (lq_now rq);
    Some (d, MkAuthState t db (aus_clears st) (aus_clearing st) (aus_admins st) (aus_portal st)).

(** [recordSuccess], and the goroutine it starts. *)
Definition success (st : AuthState K) (key : throttleKey) (now : Time) : AuthState K :=
  let '(started, clears, t) := recordSuccess store (aus_clears st) (aus_table st) key now in
  MkAuthState t (aus_db st) clears (if started then key :: aus_clearing st else aus_clearing st)
    (aus_admins st) (aus_portal st).

Definition set_admins (users : gmap string User) (st : AuthState K) : AuthState K :=
  MkAuthState (aus_table st) (aus_db st) (aus_clears st) (aus_clearing st) users (aus_portal st).
Definition set_portal (users : gmap string User) (st : AuthState K) : AuthState K :=
  MkAuthState (aus_table st) (aus_db st) (aus_clears st) (aus_clearing st) (aus_admins st) users.

(** What both handlers do with the outcome of the login. *)
Definition after_login (site : nat) (st : AuthState K) (rq : LoginRequest) (ipKey acctKey : throttleKey)
    (error : option LoginError) (compared : bool) : option (Response * bool * AuthState K) :=
  match error with
  | Some e =>
      if bool_decide (e = ErrInvalidCredentials) then
        '(_, st) ← throttleCharge site st rq ipKey;
        '(_, st) ← throttleCharge (S site) st rq acctKey;
        Some (RError e, compared, st)
      else Some (RError e, compared, st)
  | None => Some (ROk, compared, success st acctKey (lq_later rq))
  end.

(** [body.Username] and [body.Password], where the body is one that is looked at. *)
Definition credentials (rq : LoginRequest) : option (string * string) :=
  match lq_body rq with
  | Some (username, password) =>
      if (String.eqb (TrimSpace username) "" || String.eqb password "") then None else Some (username, password)
  | None => None
  end.

(** [PostLogin] up to the login itself: the answer, or the two keys and the credentials. *)
Definition login_gate (st : AuthState K) (rq : LoginRequest) : Response + throttleKey * throttleKey * string * string :=
  let ipKey := clientThrottleKey rq scopeUserPassword in
  let d := throttleEvaluate st rq ipKey in
  if ! is_allow d then inl (RThrottled d)
  else match credentials rq with
  | None => inl (RError ErrInvalidCredentials)
  | Some (username, password) =>
      let acctKey := accountThrottleKey scopeUserAccount (NormalizeUsername username) in
      let d := throttleEvaluate st rq acctKey in
      if ! is_allow d then inl (RThrottled d)
      else if ! lq_service rq then inl RUnavailable
      else inr (ipKey, acctKey, username, password)
  end.

(** The rest. The answer, whether a password was compared, and the state. *)
Definition login_finish (site : nat) (st : AuthState K) (rq : LoginRequest)
    (gate : Response + throttleKey * throttleKey * string * string) : option (Response * bool * AuthState K) :=
  match gate with
  | inl r => Some (r, false, st)
  | inr (ipKey, acctKey, username, password) =>
      let out := identity_Login (aus_admins st) username password (lq_env rq) (lq_later rq) in
      after_login site (set_admins (lo_users out) st) rq ipKey acctKey (lo_error out) (lo_compared out)
  end.

Definition PostLogin (site : nat) (st : AuthState K) (rq : LoginRequest) : option (Response * bool * AuthState K) :=
  login_finish site st rq (login_gate st rq).

Definition PostPortalLogin (site : nat) (st : AuthState K) (rq : LoginRequest) : option (Response * bool * AuthState K) :=
  let ipKey := clientThrottleKey rq scopePortalPassword in
  let d := throttleEvaluate st rq ipKey in
  if ! is_allow d then Some (RThrottled d, false, st)
  else if ! lq_service rq then Some (RUnavailable, false, st)
  else match credentials rq with
  | None => Some (RError ErrInvalidCredentials, false, st)
  | Some (username, password) =>
      let acctKey := accountThrottleKey scopePortalAccount (NormalizeUsername username) in
      let d := throttleEvaluate st rq acctKey in
      if ! is_allow d then Some (RThrottled d, false, st)
      else
        let out := enduser_Login (aus_portal st) username password (lq_env rq) (lq_later rq) in
        after_login site (set_portal (lo_users out) st) rq ipKey acctKey (lo_error out) (lo_compared out)
  end.

(** The goroutine of a success, whenever it runs. *)
Definition run_clear (st : AuthState K) (available : bool) (now : Time) : AuthState K :=
  match aus_clearing st with
  | [] => st
  | key :: rest =>
      let '(db, clears) := clear_call available (aus_db st) (aus_clears st) key now in
      MkAuthState (aus_table st) db clears rest (aus_admins st) (aus_portal st)
  end.

End handlers.

(** ** One request and the bucket of an account *)

(** The buckets and the handler of administrators and of end users ([portal]). *)
Definition account_scope (portal : bool) : throttleScope := if portal then scopePortalAccount else scopeUserAccount.
Definition client_scope (portal : bool) : throttleScope := if portal then scopePortalPassword else scopeUserPassword.

Definition account_key (portal : bool) (name : string) : throttleKey := accountThrottleKey (account_scope portal) name.

Definition post {RO : RangeOrder} {K : Keyspace} {D : Digest} {B : Bcrypt} (portal store : bool) :=
  if portal then PostPortalLogin store else PostLogin store.

Lemma account_key_inj p a q b : bucketID (account_key p a) = bucketID (account_key q b) → account_key p a = account_key q b.
Proof.
  unfold bucketID, account_key, accountThrottleKey. destruct p, q; cbn [tk_Scope tk_Value account_scope]; try (intros E; discriminate E);
    intros E%str_app_inv_l%str_app_inv_l; by rewrite E.
Qed.

Lemma ip_key_ne rq p q name : bucketID (account_key p name) ≠ bucketID (clientThrottleKey rq (client_scope q)).
Proof.
  unfold bucketID, account_key, accountThrottleKey, clientThrottleKey.
  destruct p, q; cbn [tk_Scope tk_Value scope_String account_scope client_scope]; intros E; discriminate E.
Qed.

Section account.
Context {RO : RangeOrder} {K : Keyspace} {D : Digest} {B : Bcrypt} (store portal : bool) (name : string).
Let key := account_key portal name.

Implicit Types st : AuthState K.

(** The bucket of the account on this node; a new one where there is none. *)
Definition bucket st : throttleEntry := default new_entry (entry_at (aus_table st) key).
Definition policy_of st : throttlePolicy := policyFor (lt_policies (aus_table st)) key.

(** Room for the two keys a request may add, so that nothing is evicted. *)
Definition shard_size st : Z := Z.of_nat (size (shard_at (aus_table st) (bucketID key))).
Definition roomy st : Prop := shard_size st + 1 < maxShardKeys.

(** The bucket was charged with a counted failure at [now], or is what it was. *)
Inductive bucket_step st st1 (now : Time) : bool → Prop :=
| step_charged d e' : charge_entry (policy_of st) (tk_Scope key) (bucket st) now = Some (d, e') →
    counted_decision d = true → bucket st1 = e' → bucket_step st st1 now true
| step_kept : bucket st1 = bucket st → bucket_step st st1 now false.

Lemma recordFailure_local site db t k now d t' db' : recordFailure store site db t k now = Some (d, t', db') →
  ∃ r, recordFailureLocal site t k now = Some (r, t').
Proof.
  unfold recordFailure. destruct (recordFailureLocal site t k now) as [[r t1]|]; cbn [mbind option_bind]; [|done].
  destruct (sharedCharge _ _ _ _ _). intros [= _ <- _]. eauto.
Qed.

(** A failure of another bucket. *)
Lemma charge_others site st rq k d st1 : table_ok (aus_table st) → shard_size st < maxShardKeys → lq_now rq ≠ 0 →
  bucketID key ≠ bucketID k → throttleCharge store site st rq k = Some (d, st1) →
  table_ok (aus_table st1) ∧ lt_policies (aus_table st1) = lt_policies (aus_table st) ∧
  entry_at (aus_table st1) key = entry_at (aus_table st) key ∧ shard_size st1 ≤ shard_size st + 1.
Proof.
  intros Ht Hr Hn Hne. unfold throttleCharge. destruct (lq_exempt rq); [intros [= _ <-]; by split_and!; try lia|].
  destruct (recordFailure _ _ _ _ _ _) as [[[d' t'] db']|] eqn:E; cbn [mbind option_bind]; [|done]. intros [= _ <-].
  cbn [aus_table]. apply recordFailure_local in E as [r E]. unfold shard_size in *.
  destruct (recordFailureLocal_others _ _ _ key _ _ _ Ht Hr Hne E) as [He Hsz].
  split; [by eapply recordFailureLocal_ok|]. split; [by eapply recordFailureLocal_policies|].
  split; [done|]. cbn [aus_table]. lia.
Qed.

(** A standing that allows means that the node's own bucket is not blocked. *)
Lemma evaluate_local db t k now : 0 ≤ now → is_allow (evaluate store db t k now) = true →
  After (te_blockedUntil (default new_entry (entry_at t k))) now = false.
Proof.
  intros Hn. unfold evaluate. destruct (is_allow (evaluateLocal t k now)) eqn:E; cbn [negb]; [|congruence]. intros _.
  unfold evaluateLocal in E. destruct (entry_at t k) as [e|]; cbn [default from_option].
  - destruct (After _ _); [|done]. exfalso. unfold is_allow, blocked_decision, blockOutcome in E.
    cbn [td_Outcome] in E. by destruct (tp_HardBlock _).
  - unfold After. cbn [new_entry te_blockedUntil]. by apply Z.ltb_ge.
Qed.

Lemma unblocked_counted p scope e now d e' : After (te_blockedUntil e) now = false → 0 ≤ now →
  charge_entry p scope e now = Some (d, e') → counted_decision d = true.
Proof.
  intros Hb Hn. unfold charge_entry. cbv zeta. set (e1 := touch now _).
  assert (After (te_blockedUntil e1) now = false) as ->.
  { unfold e1. destruct quiet; [|done]. unfold After. cbn [touch new_entry te_blockedUntil]. apply Z.ltb_ge. lia. }
  unfold count_failure. destruct (addToWindow (te_short e1) _ _); cbn [mbind option_bind]; [|done].
  destruct (addToWindow (te_long e1) _ _); cbn [mbind option_bind]; [|done].
  destruct (_ && _); [by intros [= <- _]|]. destruct (_ <=? 0); intros [= <- _]; [done|].
  unfold counted_decision. cbn [td_Outcome td_NewlyArmed]. by destruct (blockOutcome p).
Qed.

(** The failure of the account itself, right after a standing that allows. *)
Lemma charge_own site st rq d st1 : table_ok (aus_table st) → 0 < lq_now rq → lq_exempt rq = false →
  After (te_blockedUntil (bucket st)) (lq_now rq) = false →
  throttleCharge store site st rq key = Some (d, st1) →
  table_ok (aus_table st1) ∧ lt_policies (aus_table st1) = lt_policies (aus_table st) ∧
  bucket_step st st1 (lq_now rq) true.
Proof.
  intros Ht Hn Hex Ha. unfold throttleCharge. rewrite Hex.
  destruct (recordFailure _ _ _ _ _ _) as [[[d' t'] db']|] eqn:E; cbn [mbind option_bind]; [|done]. intros [= _ <-].
  cbn [aus_table]. apply recordFailure_local in E as [r E].
  destruct (recordFailureLocal_entry _ _ _ _ _ _ Ht E) as (e' & Ee & He' & _).
  split; [eapply recordFailureLocal_ok; eauto; lia|]. split; [by eapply recordFailureLocal_policies|].
  eapply step_charged; [exact Ee|eapply unblocked_counted; [exact Ha|lia|exact Ee]|].
  unfold bucket. cbn [aus_table]. by rewrite He'.
Qed.
(** The account that a request to a handler names. *)
Definition account_of (kind : bool) (rq : LoginRequest) : option throttleKey :=
  match credentials rq with
  | Some (username, _) => Some (account_key kind (NormalizeUsername username))
  | None => None
  end.

(** A password of the account was compared, for an address that is not on the allow list, and the answer
    is that it was wrong. *)
Definition is_guess (kind : bool) (rq : LoginRequest) (r : Response) (compared : bool) : bool :=
  ! lq_exempt rq && compared && bool_decide (account_of kind rq = Some key) &&
  match r with RError e => bool_decide (e = ErrInvalidCredentials) | _ => false end.

(** What a request that did not log in to the account does to its bucket. *)
Record request_effect st st1 (rq : LoginRequest) (guess : bool) : Prop := {
  re_table : table_ok (aus_table st1);
  re_policies : lt_policies (aus_table st1) = lt_policies (aus_table st);
  re_bucket : ∃ charged, bucket_step st st1 (lq_now rq) charged ∧ (guess = true → charged = true)
}.

Lemma kept_effect st st1 rq : table_ok (aus_table st1) → lt_policies (aus_table st1) = lt_policies (aus_table st) →
  entry_at (aus_table st1) key = entry_at (aus_table st) key → request_effect st st1 rq false.
Proof.
  intros Ht Hp He. split; [done|done|]. exists false. split; [|done]. apply step_kept. unfold bucket. by rewrite He.
Qed.

(** The two charges of a wrong password. *)
Lemma charges_effect site st kind rq username d1 st1 d2 st2 : table_ok (aus_table st) → roomy st → 0 < lq_now rq →
  (account_key kind username = key → lq_exempt rq = false → After (te_blockedUntil (bucket st)) (lq_now rq) = false) →
  throttleCharge store site st rq (clientThrottleKey rq (client_scope kind)) = Some (d1, st1) →
  throttleCharge store (S site) st1 rq (account_key kind username) = Some (d2, st2) →
  request_effect st st2 rq (! lq_exempt rq && bool_decide (account_key kind username = key)).
Proof.
  intros Ht Hr Hn Hb H1 H2. unfold roomy in Hr.
  destruct (charge_others site st rq _ d1 st1 Ht ltac:(lia) ltac:(lia) (ip_key_ne rq portal kind name) H1) as (Ht1 & Hp1 & He1 & Hsz).
  assert (Hbk : bucket st1 = bucket st) by (unfold bucket; by rewrite He1).
  assert (Hpol : policy_of st1 = policy_of st) by (unfold policy_of; by rewrite Hp1).
  destruct (lq_exempt rq) eqn:Hex.
  { unfold throttleCharge in H2. rewrite Hex in H2. injection H2 as _ <-. cbn [negb andb]. by apply kept_effect. }
  cbn [negb andb]. destruct (decide (account_key kind username = key)) as [E|E].
  - rewrite bool_decide_true by done. rewrite E in H2.
    destruct (charge_own (S site) st1 rq d2 st2 Ht1 Hn Hex) as (Ht2 & Hp2 & Hs); [by rewrite Hbk; apply Hb|done|].
    split; [done|congruence|]. exists true. split; [|done].
    inversion Hs as [d e' Hc Hcd He' |]; subst. rewrite Hpol, Hbk in Hc. by eapply step_charged.
  - rewrite bool_decide_false by done.
    destruct (charge_others (S site) st1 rq (account_key kind username) d2 st2 Ht1 ltac:(lia) ltac:(lia)) as (Ht2 & Hp2 & He2 & _);
      [intros Eb; by apply E, eq_sym, account_key_inj|done|].
    apply kept_effect; congruence.
Qed.

(** *** Runs of logins *)

(** What does not touch the bucket. *)
Definition kept st st1 : Prop :=
  table_ok (aus_table st1) ∧ lt_policies (aus_table st1) = lt_policies (aus_table st) ∧
  entry_at (aus_table st1) key = entry_at (aus_table st) key.

Lemma success_kept st k now : table_ok (aus_table st) → bucketID key ≠ bucketID k → kept st (success store st k now).
Proof.
  intros Ht Hne. unfold success, recordSuccess. destruct (sharedClear store _ _ _) as [started clears].
  unfold kept. cbn [aus_table]. split; [by apply recordSuccessLocal_ok|]. split; [done|]. by apply recordSuccessLocal_others.
Qed.

Lemma kept_request st st1 rq : kept st st1 → request_effect st st1 rq false.
Proof. intros (H1 & H2 & H3). by apply kept_effect. Qed.

Lemma request_effect_weaken st st1 rq (g g' : bool) : request_effect st st1 rq g → (g' = true → g = true) →
  request_effect st st1 rq g'.
Proof. intros [H1 H2 (c & H3 & H4)] Hg. split; [done..|]. exists c. split; [done|auto]. Qed.

(** Only the table matters. *)
Lemma request_effect_table st0 st st1 rq g : aus_table st0 = aus_table st → request_effect st0 st1 rq g →
  request_effect st st1 rq g.
Proof.
  intros E [H1 H2 (c & Hs & Hg)]. split; [done|congruence|]. exists c. split; [|done].
  destruct Hs as [d e' Hc Hd He|H]; [eapply step_charged|apply step_kept];
    unfold bucket, policy_of in *; rewrite <- ?E; eauto.
Qed.

(** A standing of an account that allows. *)
Lemma standing_unblocked st kind rq username : 0 < lq_now rq →
  is_allow (throttleEvaluate store st rq (account_key kind username)) = true →
  account_key kind username = key → lq_exempt rq = false → After (te_blockedUntil (bucket st)) (lq_now rq) = false.
Proof.
  intros Hn E Hk Hex. unfold bucket. rewrite <- Hk. unfold throttleEvaluate in E. rewrite Hex in E. eapply evaluate_local; [lia|exact E].
Qed.

(** Both handlers from the login on. *)
Lemma after_step site st0 st kind rq username password error compared r c st1 :
  aus_table st0 = aus_table st → table_ok (aus_table st) → roomy st → 0 < lq_now rq → credentials rq = Some (username, password) →
  is_allow (throttleEvaluate store st rq (account_key kind (NormalizeUsername username))) = true →
  after_login store site st0 rq (clientThrottleKey rq (client_scope kind)) (account_key kind (NormalizeUsername username)) error compared =
    Some (r, c, st1) → (r = ROk → account_of kind rq ≠ Some key) →
  request_effect st st1 rq (is_guess kind rq r c).
Proof.
  intros E0 Ht Hr Hn Ec Hallow. pose proof (λ Hk Hex, standing_unblocked st kind rq _ Hn Hallow Hk Hex) as Hb.
  unfold after_login, is_guess, account_of. rewrite Ec. destruct error as [e|].
  - case_bool_decide as He.
    + destruct (throttleCharge _ site _ _ _) as [[d sa]|] eqn:E1; cbn [mbind option_bind]; [|done].
      destruct (throttleCharge _ (S site) _ _ _) as [[d' sb]|] eqn:E2; cbn [mbind option_bind]; [|done].
      intros [= <- <- <-] _. rewrite (bool_decide_true _ He), andb_true_r.
      assert (Hroom : roomy st0) by (unfold roomy, shard_size in *; by rewrite E0).
      assert (Ht0 : table_ok (aus_table st0)) by (by rewrite E0).
      assert (Hb0 : account_key kind (NormalizeUsername username) = key → lq_exempt rq = false →
        After (te_blockedUntil (bucket st0)) (lq_now rq) = false) by (unfold bucket in *; by rewrite E0).
      eapply request_effect_weaken; [eapply (request_effect_table st0);
        [done|exact (charges_effect site st0 kind rq (NormalizeUsername username) d sa d' sb Ht0 Hroom Hn Hb0 E1 E2)]|].
      intros Hg. apply andb_true_iff in Hg as [Hg Hk]. apply andb_true_iff in Hg as [-> _].
      apply bool_decide_eq_true, (inj Some) in Hk. by rewrite bool_decide_true.
    + intros [= <- <- <-] _. rewrite (bool_decide_false _ He), andb_false_r. apply kept_request. unfold kept. by rewrite E0.
  - intros [= <- <- <-] Hok. rewrite andb_false_r. apply (request_effect_table st0); [done|]. apply kept_request.
    apply success_kept; [by rewrite E0|]. intros Ek. apply (Hok eq_refl). f_equal. symmetry. by apply account_key_inj.
Qed.

Lemma request_step kind site st rq r c st1 : table_ok (aus_table st) → roomy st → 0 < lq_now rq →
  post kind store site st rq = Some (r, c, st1) → (r = ROk → account_of kind rq ≠ Some key) →
  request_effect st st1 rq (is_guess kind rq r c).
Proof.
  intros Ht Hr Hn H Hok. assert (Hkept : r = r → c = false → st1 = st → request_effect st st1 rq (is_guess kind rq r c)).
  { intros _ -> ->. unfold is_guess. rewrite andb_false_r. by apply kept_request. }
  destruct kind; cbn [post] in H.
  - revert H. unfold PostPortalLogin. cbv zeta. destruct (negb (is_allow _)); [intros [= <- <- <-]; by apply Hkept|].
    destruct (negb _); [intros [= <- <- <-]; by apply Hkept|].
    destruct (credentials rq) as [[username password]|] eqn:Ec; [|intros [= <- <- <-]; by apply Hkept].
    destruct (is_allow (throttleEvaluate store st rq (accountThrottleKey _ _))) eqn:E; cbn [negb]; [|intros [= <- <- <-]; by apply Hkept].
    intros H. by eapply (after_step site (set_portal _ st) st true rq username password).
  - revert H. unfold PostLogin, login_gate. cbv zeta. destruct (negb (is_allow _)); [intros [= <- <- <-]; by apply Hkept|].
    destruct (credentials rq) as [[username password]|] eqn:Ec; [|intros [= <- <- <-]; by apply Hkept].
    destruct (is_allow (throttleEvaluate store st rq (accountThrottleKey _ _))) eqn:E; cbn [negb]; [|intros [= <- <- <-]; by apply Hkept].
    destruct (lq_service rq); cbn [negb login_finish]; [|intros [= <- <- <-]; by apply Hkept].
    intros H. by eapply (after_step site (set_admins _ st) st false rq username password).
Qed.

(** Requests to both handlers one after the other, and goroutines of successes, on a node whose shard
    of the account has room, without a login to the account. The number is the guesses at it. *)
Inductive login_run : AuthState K → list LoginRequest → Z → AuthState K → Prop :=
| run_end st : login_run st [] 0 st
| run_login st kind site rq r c st1 rqs n st2 : roomy st → post kind store site st rq = Some (r, c, st1) →
    (r = ROk → account_of kind rq ≠ Some key) → login_run st1 rqs n st2 →
    login_run st (rq :: rqs) ((if is_guess kind rq r c then 1 else 0) + n) st2
| run_goroutine st available now rqs n st2 : login_run (run_clear st available now) rqs n st2 →
    login_run st rqs n st2.

(** What the bucket has counted: [nows] are instants of requests. *)
Record run_counts (p : throttlePolicy) (l : log) (u : Z) (rqs : list LoginRequest) (n : Z) (nows : list Time) : Prop := {
  rc_count : n ≤ Z.of_nat (length nows);
  rc_order : Sorted Z.le (u :: (ticks <$> nows));
  rc_times : ∀ t, t ∈ nows → ∃ rq, rq ∈ rqs ∧ lq_now rq = t;
  rc_length : (length nows ≤ length rqs)%nat;
  rc_admitted : admitted (log_policy p) l (ticks <$> nows) = ticks <$> nows
}.

Lemma sorted_earlier u v l : u ≤ v → Sorted Z.le (v :: l) → Sorted Z.le (u :: l).
Proof. intros Hu H. inversion H as [|? ? Hs Hd]; subst. constructor; [done|]. inversion Hd; constructor; lia. Qed.

Lemma run_clear_table st available now : aus_table (run_clear st available now) = aus_table st.
Proof. unfold run_clear. destruct (aus_clearing st); [done|]. by destruct (clear_call _ _ _ _ _). Qed.

Lemma run_counts_kept p l u rq rqs n nows : u ≤ ticks (lq_now rq) → run_counts p l (ticks (lq_now rq)) rqs n nows →
  run_counts p l u (rq :: rqs) n nows.
Proof.
  intros Hu [H1 H2 H3 H4 H5]. split; [done|by eapply sorted_earlier| |simpl; lia|done].
  intros t (rq' & ? & ?)%H3. exists rq'. by split; [right|].
Qed.

Lemma run_counts_charged p l l' u rq rqs n m nows : u ≤ ticks (lq_now rq) → n ≤ 1 + m →
  counted (charge (log_policy p) l (ticks (lq_now rq))).1 = true →
  (charge (log_policy p) l (ticks (lq_now rq))).2 = l' →
  run_counts p l' (ticks (lq_now rq)) rqs m nows → run_counts p l u (rq :: rqs) n (lq_now rq :: nows).
Proof.
  intros Hu Hnm Hc Hl [H1 H2 H3 H4 H5]. split.
  - cbn [length]. lia.
  - rewrite fmap_cons. constructor; [done|]. by constructor.
  - intros t [->|Ht]%elem_of_cons; [exists rq; by split; [left|]|].
    destruct (H3 t Ht) as (rq' & ? & ?). exists rq'. by split; [right|].
  - simpl. lia.
  - rewrite fmap_cons. cbn [admitted]. destruct (charge _ l _) as [r l1]. cbn [fst snd] in Hc, Hl.
    by rewrite Hc, Hl, H5.
Qed.

(** One request and the rest of the run. *)
Lemma effect_counts p st st1 rq rqs g n l u : request_effect st st1 rq g → policy_of st = p → durations_ok p →
  entry_log p (bucket st) l → log_ok l u → u ≤ ticks (lq_now rq) → modern (lq_now rq) →
  Z.of_nat (length (lg_failures l)) < two31 - 1 →
  (∀ l', policy_of st1 = p → entry_log p (bucket st1) l' → log_ok l' (ticks (lq_now rq)) →
     (length (lg_failures l') ≤ S (length (lg_failures l)))%nat → ∃ nows, run_counts p l' (ticks (lq_now rq)) rqs n nows) →
  ∃ nows, run_counts p l u (rq :: rqs) ((if g then 1 else 0) + n) nows.
Proof.
  intros [_ Hpol (c & Hs & Hg)] Hp Hd He Hl Hu Hm Hb IH.
  assert (Hp1 : policy_of st1 = p) by (unfold policy_of in *; by rewrite Hpol).
  destruct Hs as [d e' Hc Hcd He1|Hk].
  - rewrite Hp in Hc. destruct (entry_refines_log p (tk_Scope key) (bucket st) l (lq_now rq) u) as (e2 & Ee & He' & Hl'); [done..|].
    rewrite Ee in Hc. injection Hc as <- <-. rewrite standing_decision in Hcd. rewrite <- He1 in He'.
    destruct (IH _ Hp1 He' Hl' (charge_length _ l _)) as (nows & H). exists (lq_now rq :: nows).
    eapply run_counts_charged; [done| |exact Hcd|done|exact H]. destruct g; lia.
  - destruct (IH l Hp1) as (nows & H); [by rewrite Hk|by eapply log_ok_later|lia|].
    exists nows. destruct g; [by specialize (Hg eq_refl)|]. by apply run_counts_kept.
Qed.

Lemma run_log p st rqs n st' l u : login_run st rqs n st' → table_ok (aus_table st) → policy_of st = p →
  durations_ok p → entry_log p (bucket st) l → log_ok l u →
  Sorted Z.le (u :: ((λ rq, ticks (lq_now rq)) <$> rqs)) → Forall (λ rq, modern (lq_now rq)) rqs →
  Z.of_nat (length (lg_failures l) + length rqs) < two31 →
  ∃ nows, run_counts p l u rqs n nows.
Proof.
  intros Hr. revert l u. induction Hr as [st|st kind site rq r c st1 rqs n st2 Hroom HP Hok Hr IH
    |st available now rqs n st2 Hr IH]; intros l u Ht Hp Hd He Hl Hs Hm Hb.
  - exists []. split; [done|by repeat constructor|by intros ? ?%elem_of_nil|done|done].
  - rewrite fmap_cons in Hs. inversion Hs as [|? ? Hs' Hhd]; subst. inversion Hhd; subst.
    inversion Hm as [|? ? Hnow Hms]; subst. cbn [length] in Hb.
    pose proof (request_step kind site st rq r c st1 Ht Hroom) as Heff.
    assert (Hn0 : 0 < lq_now rq) by (destruct Hnow; unfold ticks, time_Unix in *; lia).
    specialize (Heff Hn0 HP Hok).
    eapply effect_counts; [exact Heff|done..|lia|]. intros l' Hp1 He1 Hl1 Hlen.
    apply (IH l' (ticks (lq_now rq))); try done; [apply Heff|lia].
  - apply (IH l u); try done; [by rewrite run_clear_table|unfold policy_of; by rewrite run_clear_table|].
    unfold bucket. by rewrite run_clear_table.
Qed.

(** C13: the account bucket stops guessing whatever addresses it comes from, for administrators and
    for end users. Let requests to both handlers in any mixture arrive at a node one after the other,
    within one short window, without a login to the account. Then at most the limit, and one more for
    every shortest block of the ladder, compare a password of the account and are answered that it was
    wrong. Three comparisons are charged to no bucket and not bounded: for an address on the allow list,
    when the database fails, and when a portal account locks itself ([allowed_address_not_charged],
    [failing_count_not_charged], [portal_lock_not_charged]). *)
Theorem account_guess_budget st rqs n st' l u m a b : login_run st rqs n st' → table_ok (aus_table st) →
  let p := policy_of st in
  let width := slotDuration (tp_Short p) (Z.of_nat throttleShortSlotCount) in
  durations_ok p → entry_log p (bucket st) l → log_ok l u →
  Sorted Z.le (u :: ((λ rq, ticks (lq_now rq)) <$> rqs)) → Forall (λ rq, modern (lq_now rq)) rqs →
  Z.of_nat (length (lg_failures l) + length rqs) < two31 →
  0 < tw_Limit (tp_Short p) → 0 < width → tp_Backoff p ≠ [] → 0 < m → Forall (λ d, m ≤ d) (tp_Backoff p) →
  Forall (λ rq, a ≤ ticks (lq_now rq) ≤ b) rqs → a ≤ b →
  b / width - a / width < Z.of_nat throttleShortSlotCount →
  tp_ResetAfter p ≤ 0 ∨ b - a < tp_ResetAfter p →
  (n - tw_Limit (tp_Short p)) * m ≤ b - a.
Proof.
  intros Hr Ht p width Hd He Hl Hs Hm Hb Hlim Hw Hne Hmp Hlad Hin Hab Hspan Hreset.
  destruct (run_log p st rqs n st' l u Hr Ht eq_refl Hd He Hl Hs Hm Hb) as (nows & [H1 H2 H3 H4 H5]).
  assert (Hon : enabled (fp_short (log_policy p)) = true)
    by (unfold enabled; apply andb_true_iff; split; by apply Z.ltb_lt).
  assert (Hin' : Forall (λ t, a ≤ t ≤ b ∧ 0 < t) (ticks <$> nows)).
  { apply Forall_fmap, Forall_forall. intros t (rq & Hrq & <-)%H3. cbn [compose].
    split; [exact (proj1 (Forall_forall _ _) Hin rq Hrq)|exact (proj1 (proj1 (Forall_forall _ _) Hm rq Hrq))]. }
  pose proof (run_budget (log_policy p) a b m l u (ticks <$> nows) Hon Hmp Hne Hlad Hspan Hreset Hab Hl H2 Hin') as H.
  rewrite H5, length_fmap in H. cbn [fp_short log_policy log_window fw_limit] in H. nia.
Qed.

(** *** Evaluating runs *)

(** The number of guesses, and the final state, of a run that [login_run] allows. *)
Fixpoint try_logins (site : nat) st (rqs : list LoginRequest) : option (Z * AuthState K) :=
  match rqs with
  | [] => Some (0, st)
  | rq :: rqs =>
      '(r, c, st1) ← post portal store site st rq;
      if bool_decide (roomy st) && ! (match r with ROk => bool_decide (account_of portal rq = Some key) | _ => false end) then
        '(n, st2) ← try_logins (S (S site)) st1 rqs;
        Some ((if is_guess portal rq r c then 1 else 0) + n, st2)
      else None
  end.

Lemma try_logins_run site st rqs n st2 : try_logins site st rqs = Some (n, st2) → login_run st rqs n st2.
Proof.
  revert site st n. induction rqs as [|rq rqs IH]; intros site st n; [intros [= <- <-]; constructor|].
  cbn [try_logins]. destruct (post portal store site st rq) as [[[r c] st1]|] eqn:E; cbn [mbind option_bind]; [|done].
  destruct (bool_decide _ && _) eqn:Eb; [|done]. apply andb_true_iff in Eb as [Hr Hok].
  destruct (try_logins _ st1 rqs) as [[n1 st3]|] eqn:E1; cbn [mbind option_bind]; [|done]. intros [= <- <-].
  eapply run_login; [by apply bool_decide_eq_true in Hr|exact E| |by eapply IH].
  intros ->. apply negb_true_iff, bool_decide_eq_false in Hok. done.
Qed.

(** Requests that are in flight together: each has passed the gate before the first is finished. *)
Fixpoint finish_all (site : nat) st (gates : list (LoginRequest * (Response + throttleKey * throttleKey * string * string)))
    : option (Z * AuthState K) :=
  match gates with
  | [] => Some (0, st)
  | (rq, gate) :: gates =>
      '(r, c, st1) ← login_finish store site st rq gate;
      '(n, st2) ← finish_all (S (S site)) st1 gates;
      Some ((if is_guess false rq r c then 1 else 0) + n, st2)
  end.

Definition in_flight (site : nat) st (rqs : list LoginRequest) : option (Z * AuthState K) :=
  finish_all site st ((λ rq, (rq, login_gate store st rq)) <$> rqs).
End account.

(** ** Two concrete attacks *)

Definition plain_bcrypt : Bcrypt := String.eqb.

Definition guessed_state {K : Keyspace} : AuthState K :=
  MkAuthState (newLoginThrottle None) db_empty (MkClears ∅ 0) []
    {[ "alice" := MkUser "secret" "active" 0 None 0 None (MkTenant "active" "system" None) ]} ∅.

(** Wrong passwords from as many addresses as requests. *)
Definition guesses (step : Duration) (n : nat) : list LoginRequest :=
  (λ i, let now := time_Unix 1700000000 + Z.of_nat i * step in
        MkLoginRequest ("10.0.0." +:+ String (Ascii.ascii_of_nat (48 + i)) "" , false) false false true
          (Some ("alice", "guess")) now now (MkEnv true false false false false false now)) <$> seq 0 n.

(** Eight requests one second apart: five guesses, and one more for every minute. *)
Lemma account_guess_budget_witness :
  let B := plain_bcrypt in let D := joined in let RO := listing_order in
  match try_logins (K := list_keyspace) false false "alice" 0 guessed_state (guesses Second 8) with
  | Some (n, _) => n = 5 ∧ (n - 5) * Minute ≤ 7 * Second
  | None => False
  end.
Proof.
  cbv zeta. assert (Hn : fst <$> try_logins (B := plain_bcrypt) (D := joined) (RO := listing_order) (K := list_keyspace)
    false false "alice" 0 guessed_state (guesses Second 8) = Some 5) by (vm_compute; reflexivity).
  destruct (try_logins false false "alice" 0 guessed_state (guesses Second 8)) as [[n st]|] eqn:E.
  - split; [by injection Hn|].
    apply (account_guess_budget (B := plain_bcrypt) (D := joined) (RO := listing_order) (K := list_keyspace) false false "alice"
      guessed_state (guesses Second 8) n st empty_log (ticks (time_Unix 1700000000)) Minute
      (ticks (time_Unix 1700000000)) (ticks (time_Unix 1700000000) + 7 * Second)).
    + eapply try_logins_run, E.
    + apply newLoginThrottle_ok.
    + apply (bool_decide_unpack _). vm_compute. exact I.
    + apply new_entry_log.
    + apply empty_log_ok.
    + apply (bool_decide_unpack _). vm_compute. exact I.
    + apply (bool_decide_unpack _). vm_compute. exact I.
    + vm_compute. reflexivity.
    + vm_compute. reflexivity.
    + vm_compute. reflexivity.
    + vm_compute. discriminate.
    + vm_compute. reflexivity.
    + apply (bool_decide_unpack _). vm_compute. exact I.
    + apply (bool_decide_unpack _). vm_compute. exact I.
    + vm_compute. discriminate.
    + vm_compute. reflexivity.
    + right. vm_compute. reflexivity.
  - discriminate Hn.
Defined.

(** Twenty requests of one instant in flight together: twenty guesses. *)
Lemma parallel_guesses :
  let B := plain_bcrypt in let D := joined in let RO := listing_order in
  fst <$> in_flight (K := list_keyspace) false false "alice" 0 guessed_state (guesses 0 20) = Some 20.
Proof. vm_compute. reflexivity. Qed.

(** The fifth wrong password of a portal account is compared, answered with a cooldown, and charged
    to no bucket, though "a cooldown [carries] no information about the password". *)
Lemma portal_lock_not_charged {RO : RangeOrder} {K : Keyspace} {D : Digest} {B : Bcrypt} store site st rq ipKey acctKey
    users name u password now :
  let ev := lq_env rq in
  bcrypt_ok (us_hash u) password = false → ev_count_fails ev = false → (count_login_failure u (ev_db_now ev)).1 = 5 →
  let out := enduser_password users name u password ev now in
  ∃ d, lo_error out = Some (ErrLoginCooldown d) ∧ lo_compared out = true ∧
    after_login store site st rq ipKey acctKey (lo_error out) (lo_compared out) =
      Some (RError (ErrLoginCooldown d), true, st).
Proof.
  intros ev Hb Hc Hn. unfold enduser_password. rewrite Hb. cbn [negb]. unfold portal_failure. rewrite Hc.
  destruct (count_login_failure u (ev_db_now ev)) as [n u'] eqn:E. cbn [fst] in Hn. subst n.
  eexists. cbn [lo_error lo_compared]. split; [reflexivity|]. split; reflexivity.
Qed.

(** The failures that are not charged either: those of an address on the allow list ... *)
Lemma allowed_address_not_charged {RO : RangeOrder} {K : Keyspace} {D : Digest} {B : Bcrypt} store site st rq ipKey acctKey compared :
  lq_exempt rq = true → after_login store site st rq ipKey acctKey (Some ErrInvalidCredentials) compared =
    Some (RError ErrInvalidCredentials, compared, st).
Proof. intros H. unfold after_login, throttleCharge. by rewrite H. Qed.

(** ... and those of an administrator that the database does not count. *)
Lemma failing_count_not_charged {RO : RangeOrder} {K : Keyspace} {D : Digest} {B : Bcrypt} store site st rq ipKey acctKey
    users username u password now :
  let ev := lq_env rq in
  ev_db ev = true → ev_lookup_fails ev = false → users !! NormalizeUsername username = Some u →
  bcrypt_ok (us_hash u) password = false → ev_count_fails ev = true →
  let out := identity_Login users username password ev now in
  lo_compared out = true ∧ after_login store site st rq ipKey acctKey (lo_error out) (lo_compared out) =
    Some (RError ErrInfrastructure, true, st).
Proof.
  intros ev H1 H2 Hu Hb Hc. unfold identity_Login. rewrite H1, H2, Hu, Hb. cbn [negb]. unfold registerLoginFailure. by rewrite Hc.
Qed.
